(* ===== verification/_CoqProject ===== *)
-Q . S2P
Prelude.v
BootString.v
Sha256.v
Bootloader.v
Console.v
Machine.v
Kernel.v
BootPlatform.v
BpfPacket.v
BpfFilter.v
UtfData.v
Unicode.v
Utf8.v
Utf8Spec.v
Utf8Valid.v
Utf8Encode.v
Utf8Decode.v
Utf8Roundtrip.v
Utf8Normalize.v
Clist.v
KmOutput.v
InCksum.v
In6Cksum.v
InetAddr.v
StrTo.v
InetAton.v
KextVersion.v
Mkext.v
Crc32.v
CcDigest.v
CcSha256.v
CcHmac.v
CcDrbg.v
Lockf.v
LockfWait.v
LockfInv.v
Mpsc.v
MpscInv.v
MpscLive.v
Qsort.v
Mbuf.v
MbufInv.v
MbufCopy.v
MbufPool.v
