(* ===== verification/Prelude.v ===== *)
(** * Verification of xnu++

    xnu++ is a fork of the XNU kernel together with a boot image of its own: a
    freestanding bootloader that checks the kernel payload, a small kernel with a
    text console, and the BSD, Mach and IOKit sources of XNU.  This library models
    the C code of the 32-bit boot image and, of XNU, components whose behaviour can be stated
    by themselves: the Berkeley packet filter, the Unicode conversion of file
    names, the character queues of terminals, the Internet checksum, the checks and
    the decompression of kernel extension archives, the versions of extensions, the
    conversions between addresses, numbers and text, the digests, message codes and
    random generator of corecrypto, the advisory locks on files, the queues between
    many producers and one consumer, the sort, and the buffers of network packets.
    Paths below are relative to [src/].

    ** The parts and how they interact

    - Boot image.  [boot/boot_entry.c] is entered from assembly, runs
      [boot_platform_start] of [boot/boot_platform.c] and then [kernel_main].
      [boot_platform_start] describes an image, a policy and a platform of callbacks
      and calls [xnuxx_bootloader_start] of [security/bootloader.c], which verifies,
      measures (SHA-256) and loads.  [kernel_main] of [kernel/kernel.c]
      clears the console, selects a provider, starts it and ends in a loop that polls
      and echoes the keyboard, calls the provider or halts.
    - Packet filter.  [bpf_validate] of [bsd/net/bpf_filter.c] checks a program a
      user supplies; [bpf_filter] runs it on a buffer, an mbuf chain or a packet of
      buflets.
    - File names.  [bsd/vfs/vfs_utfconv.c] decodes, encodes, validates and
      normalises names with the tables of [bsd/vfs/vfs_utfconvdata.h].
    - Terminals.  [bsd/kern/tty_subr.c] has the ring buffers of characters;
      [kmoutput] of [bsd/dev/i386/km.c] drains the output queue of the console.
    - Checksums.  [os_cpu_in_cksum_mbuf] sums an mbuf chain; [bsd/netinet/in_cksum.c]
      and [bsd/netinet6/in6_cksum.c] add the pseudo header, and the packet filter of
      [bsd/net/pf_pbuf.c] chooses between chain and buffer.  [bsd/libkern/crc32.c] is
      the cyclic code.
    - Extensions.  [libkern/mkext.c] has the Adler-32 sum and the LZSS decoder of an
      archive of extensions; [libkern/OSKextVersion.c] reads the version of an
      extension into a number that orders versions, and prints it.
    - Text.  [libkern/net] prints and reads addresses; [inet_aton] reads its numbers
      with [strtoul] of [iokit/Kernel/IOStringFuncs.c].
    - Cryptography.  [osfmk/corecrypto] has a digest interface, SHA-256 behind it,
      HMAC and HKDF for any digest, and the HMAC generator of random bits on top.
    - Locks.  [bsd/kern/kern_lockf.c] keeps the list of the locks of a vnode and the
      requests that sleep behind them; [lf_advlock] is the entry point of [fcntl] and
      [flock].
    - Queues.  [osfmk/kern/mpsc_queue.c] lets any number of threads append to a queue
      without a lock, and a daemon thread hand the elements to a client.
    - Sorting.  [bsd/kern/qsort.c].
    - Packet buffers.  [bsd/kern/uipc_mbuf.c] keeps packets in chains of mbufs, whose
      bytes may be in clusters that several chains share.

    ** The files

    - [Prelude]: integers of a width, bounds-checked lists, counted loops, effects on
      a world, and the lemmas on them that the components share.
    - [BootString]: [boot/string.c] and the private copies in the bootloader.
    - [Sha256]: [measure_sha256] of [boot/boot_platform.c]; Module [FIPS180] is the
      standard.
    - [Bootloader]: [security/bootloader.c]; the callbacks are arguments over an
      arbitrary world, and Section [Traced] makes the world their history.
    - [Console]: the VGA part of [kernel/kernel.c]; the record [terminal] is the text
      buffer, cursor and colour.
    - [Machine]: port I/O, GDT, IDT, PIC, keyboard and allocator; the record [kernel]
      has the file-scope variables and the history of port accesses.
    - [Kernel]: providers, panic and [kernel_main]; its final loop is a step relation,
      in which [hlt] stops the processor and an interrupt is taken through the IDT that
      the kernel has loaded.
    - [BootPlatform]: the callbacks and the image of [boot/boot_platform.c], and
      [boot_entry].
    - [BpfPacket], [BpfFilter]: the loads of [bsd/net/bpf_filter.c], then the
      interpreter, one step per instruction, and the validator.
    - [UtfData], [Unicode]: the tables, and the functions on them (decomposition,
      composition, Hangul, canonical order, SFM codes).
    - [Utf8]: [utf8_encodelen], [utf8_encodestr], [utf8_decodestr],
      [utf8_validatestr] and [utf8_normalizestr] with every flag; [Utf8Spec] is the
      encoding as specified, and [Utf8Valid], [Utf8Encode], [Utf8Decode],
      [Utf8Roundtrip] and [Utf8Normalize] have the theorems.
    - [Clist], [KmOutput]: the character queues and their console client; the record
      [clist] is [struct clist] with pointers as offsets, and the heap decides each
      allocation.
    - [InCksum]: the checksum of chains, buffers and headers; an mbuf is its address,
      bytes and length.  [In6Cksum] is the checksum of IPv6 packets on top of it.
    - [Crc32]: [bsd/libkern/crc32.c] with its table.
    - [Mkext]: [mkext_adler32] and [decompress_lzss]; the record [lzss] has the locals
      of the decoder, its window included.
    - [KextVersion]: the scanner of [OSKextParseVersionString], one function per
      component of a version, and [OSKextVersionGetString].
    - [InetAddr], [StrTo], [InetAton]: [inet_ntop] and [inet_pton], the four [strto]
      functions, and [inet_aton] and [inet_ntoa].
    - [CcDigest]: the digest interface, with a class of the laws of a digest;
      [CcSha256]: SHA-256 as its instance, compared with [FIPS180]; [CcHmac]: [cchmac]
      and [cchkdf] for any instance; [CcDrbg]: the generator, with Module [SP800_90A]
      as the standard.
    - [Lockf]: the list of locks ([lf_findoverlap], [lf_clearlock], [lf_split],
      [lf_coalesce_adjacent], [lf_wakelock], what a granted lock does to the list);
      [LockfWait]: the sleeping requests and the entry points; [LockfInv]: the steps of
      processes, the invariant and the theorems.
    - [Mpsc]: one step per atomic access of producers, daemon, activation and
      cancelation; [MpscInv]: the invariant; [MpscLive]: the measure and the liveness
      theorem.
    - [Qsort]: the sort on a memory of bytes.
    - [Mbuf]: the operations on chains of mbufs, over a store of clusters with their
      reference counts, and with the answers of the allocator as an argument;
      [MbufInv]: the invariant and a triple for each operation; [MbufCopy]: [m_copym];
      [MbufPool]: the theorems.  The packet filter and the checksums only read a chain and have
      simpler mbufs of their own.

    ** Conventions

    C integers are [Z] with explicit truncation to their width.  Arrays and strings
    are lists; an access outside of them, a use of freed memory, an undefined
    operation and a panic are [None], so that a theorem with a result [Some] is also a
    theorem of memory safety.  Error codes are values.  Uninitialised arrays, the
    answers of devices, callbacks and the heap, and the symbols of an XNU provider are
    arguments, about which the theorems assume nothing or what they state.

    ** What the theorems show

    - Boot: a kernel is loaded only if the header, the capabilities, the signature,
      the measurement and the generation were all accepted, in that order; every
      refusal enters recovery and returns the code of its reason; the measurement is
      SHA-256 for every payload; an acceptable image is loaded.  The verdict on the
      image that the boot image describes, and that [boot_entry] runs the kernel
      whatever the verdict was.
    - Kernel: the console shows the last 25 rows of a teletype; [kernel_main] reaches
      the loop that the provider determines, with the transcript of the boot on the
      screen.  In the native loop it then reads the keyboard once, echoes the key and
      halts; since it has enabled interrupts without handlers, the interrupt that ends the
      halt goes to offset 0 and no second key is ever echoed.  The descriptors,
      the interrupt controllers and the allocator are as intended, with the allocator's
      blocks disjoint.
    - Packet filter: a validated program runs without a fault and within as many
      steps as it has instructions, for every packet, but for shifts; the loads read
      the bytes of the flat packet, and the result does not depend on the layout.
    - Names: validation accepts exactly UTF-8; decoding, without composition, escapes
      and the SFM conversions and for buffers of even or of ample size, gives the
      characters up to exchanges of combining characters, in canonical order where the
      tables agree; it stays inside its buffers; encoding without decomposition
      and SFM conversions stores the longest prefix that fits and has the computed length;
      names without the replacement characters survive a round trip up to such
      exchanges; the sort terminates and is canonical; Hangul and SFM mappings are
      inverse.
    - Terminals: every sequence of operations on a clist gives the results of a
      bounded double-ended queue of characters with quote bits; the bit map routine
      agrees with its loop; [catq] moves everything; the console driver writes out the
      queue.
    - Checksums: the optimised sum is the one's complement sum of RFC 1071 for every
      chain, offset and alignment; a packet with the computed checksum verifies in
      every layout; the IPv6 checksum covers the addresses without the embedded
      interface.  The CRC is the remainder of a polynomial division, and a change
      within four consecutive bytes changes it.
    - Extensions: the Adler-32 sum is that of its definition for every length; the
      decoder inverts every encoding of a text as literals and matches, and for any
      input ends and stays inside its buffers, unless the destination has no room at
      all; every valid version is printed and read back, and the numbers are ordered as the
      versions are.
    - Text: every IPv6 address is printed within 46 bytes and read back; a string is
      an IPv4 address for [inet_pton] exactly if it is what [inet_ntop] prints, and
      [inet_aton] agrees; the [strto] functions give the value of the digits limited
      to their type and never pass the NUL.
    - Cryptography: a message digested in any pieces has the SHA-256 of FIPS 180;
      HMAC and HKDF are those of RFC 2104 and RFC 5869 for every digest with the laws;
      the generator refines the mechanism of SP 800-90A, its error codes included.
    - Locks: after any run of lock, unlock, sleep, wake-up, transfer and abort the
      locks of an owner are disjoint and in order, conflicting locks of different
      owners never overlap, and the queues of sleepers are consistent (the transfers
      being those of all POSIX locks of a process to one without locks on the file); the
      list refines a map from owner and byte to the type of the lock; the range of a
      request is computed exactly, or refused with an error for each reason.
    - Queues: in any interleaving nothing faults, elements are handed over in the
      order in which the producers exchanged the tail and are not touched afterwards;
      and from any reachable state the started calls end after a bounded number of
      steps with everything handed over and a cancelation returned.
    - Sorting: for any comparison the sort ends, stays inside the array and permutes
      it; for a total preorder the result is in order.
    - Packet buffers: no operation on well formed chains that is called within its
      preconditions ([legal] of [MbufPool]) fails an assertion, leaves the area of an mbuf
      or hangs, whatever the allocator answers, and reference counts stay right; any sequence of operations does to the bytes of the chains
      what the string operations do, without disturbing the other chains that share a
      cluster; the length in the packet header stays right; [m_pullup] makes the
      bytes contiguous or gives up for one of its reasons; [m_copydata] copies exactly
      the range or panics.

    Lemmas outside these groups record behaviour that departs from what comments or
    callers expect; they are named where they are stated.

    ** Fuel and bounds

    Recursion that is not structural takes fuel, and the theorems show that the fuel
    the definitions give is enough: the length of the program for [bpf_filter], since
    jumps go forward; the length of the string, or a multiple of it, for the loops of
    [Utf8]; one turn per pair of characters for [prioritysort]; 5 levels for the
    recursive decomposition, which the tables never reach; the count of characters for
    the loops of [Clist] and [KmOutput], each of which moves one at least; a turn for
    every 64 bytes in [cksum_blocks], 6 turns for [ADDCARRY] of 64 bits;
    a turn per 5552 bytes, and inside it one per 16 bytes, for [mkext_adler32]; the
    length of the source and two for [decompress_lzss], whose turns consume a byte or
    end; 4 parts for
    [inet_aton]; 5 decimal and 4 hexadecimal digits for 16-bit numbers; one turn per
    byte at most for the loops of [ccdigest_update] and of the generator; the length of
    the list and one for the loops over locks; the number of elements for the
    partition and the recursion of [qsort]; the number of bytes for the new mbufs of
    [m_append], and two levels for [m_split0], which never calls itself as mbufs with
    and without header have the same room.  The loop of
    [kernel_main] does not end and is a step relation, as are the runs of [LockfInv]
    and [Mpsc].

    ** Not modelled

    Assembly ([boot/*.S]); [kernel/kernel64.c], which has a segment set-up and an entry of
    its own, does not compile and is not built; non-maskable interrupts; the layer headers of [include/xnu++], which
    have no implementation; the rest of [bsd], [osfmk], [libkern], [iokit] and
    [pexpert], which are concurrent code over hardware and shared kernel state (the
    locks around the modelled functions are left out: each is called with its lock
    held); the 32-bit checksum routine; the LZSS encoder, which is not compiled into
    the kernel; the input, open, close and control side of the
    console driver; the block cipher modes of corecrypto, whose ciphers are not in the
    repository; importance inheritance of file locks, with the change of the order of a
    queue that it makes, the pause of a request when the mutex of another vnode is taken, the
    transfer of the locks of open file descriptions, and the locks of other vnodes, which
    are an argument of the search for deadlocks; of mbufs, [m_dup], [m_copyback],
    [m_pulldown], tags, paired and composite clusters and the zones they come from; memory orders weaker than sequential consistency, and queues served by a thread
    call or by another queue; user libraries, tools, tests and build files. *)
From stdpp Require Export base numbers list list_numbers option strings sets.
From Stdlib Require Export ZArith Lia.

#[export] Set Default Goal Selector "!".

Local Open Scope Z_scope.

(** ** Machine integers

    A [w]-bit unsigned C integer is a [Z] in [0, 2^w); every arithmetic
    operation whose result may leave that interval is written with the explicit
    truncation [u8], [u16], [u32] or [u64]. *)

Definition wrap (w z : Z) : Z := z mod 2 ^ w.
Abbreviation u8 := (wrap 8).
Abbreviation u16 := (wrap 16).
Abbreviation u32 := (wrap 32).
Abbreviation u64 := (wrap 64).

(** [in_word w z]: [z] is representable as a [w]-bit unsigned integer. *)
Definition in_word (w z : Z) : Prop := 0 <= z < 2 ^ w.

Abbreviation byte_ok := (in_word 8).
Abbreviation bytes_ok := (Forall (in_word 8)).

#[export] Instance in_word_dec w z : Decision (in_word w z).
Proof. unfold in_word. apply _. Defined.

(** Arithmetic with truncation: expose the Euclidean equations and call [lia]. *)
Ltac word_lia :=
  unfold wrap, in_word in *;
  change (2 ^ 8) with 256 in *;
  change (2 ^ 16) with 65536 in *;
  change (2 ^ 32) with 4294967296 in *;
  change (2 ^ 64) with 18446744073709551616 in *;
  Z.to_euclidean_division_equations; lia.

Create HintDb cword.

Lemma wrap_range w z : 0 <= w -> in_word w (wrap w z).
Proof.
  intros Hw. unfold in_word, wrap. apply Z.mod_pos_bound, Z.pow_pos_nonneg; lia.
Qed.

Lemma wrap_small w z : in_word w z -> wrap w z = z.
Proof. apply Z.mod_small. Qed.

Lemma wrap_wrap w z : wrap w (wrap w z) = wrap w z.
Proof. unfold wrap. apply Zmod_mod. Qed.

Lemma wrap_add_l w x y : wrap w (wrap w x + y) = wrap w (x + y).
Proof. unfold wrap. apply Zplus_mod_idemp_l. Qed.

Lemma wrap_add_r w x y : wrap w (x + wrap w y) = wrap w (x + y).
Proof. unfold wrap. apply Zplus_mod_idemp_r. Qed.

Lemma in_word_mono w w' z : 0 <= w <= w' -> in_word w z -> in_word w' z.
Proof.
  intros Hw [? ?]. split; [lia|].
  pose proof (Z.pow_le_mono_r 2 w w'). lia.
Qed.

#[export] Hint Resolve wrap_range : cword.
#[export] Hint Extern 2 (0 <= _) => lia : cword.
#[export] Hint Extern 2 (_ < _) => lia : cword.

(** Bit-level characterisation: a non-negative number is a [w]-bit word exactly
    when its bits from [w] upwards are clear; the bitwise operators therefore
    stay within the width of their operands. *)
Lemma in_word_bits w z :
  0 <= w -> in_word w z <-> 0 <= z /\ (forall i, w <= i -> Z.testbit z i = false).
Proof.
  intros Hw. unfold in_word. split.
  - intros Hz. split; [lia|]. apply Z.bounded_iff_bits_nonneg'; lia.
  - intros [H0 Hb]. split; [lia|]. apply Z.bounded_iff_bits_nonneg'; auto; lia.
Qed.

Lemma in_word_land w x y : 0 <= w -> in_word w x -> 0 <= y -> in_word w (Z.land x y).
Proof.
  intros Hw Hx Hy. apply in_word_bits in Hx as [? Hx]; [|done].
  apply in_word_bits; [done|]. split; [apply Z.land_nonneg; lia|].
  intros i Hi. rewrite Z.land_spec, Hx by done. done.
Qed.

Lemma in_word_lor w x y : 0 <= w -> in_word w x -> in_word w y -> in_word w (Z.lor x y).
Proof.
  intros Hw Hx Hy. apply in_word_bits in Hx as [? Hx]; [|done].
  apply in_word_bits in Hy as [? Hy]; [|done].
  apply in_word_bits; [done|]. split; [apply Z.lor_nonneg; lia|].
  intros i Hi. by rewrite Z.lor_spec, Hx, Hy.
Qed.

Lemma in_word_lxor w x y : 0 <= w -> in_word w x -> in_word w y -> in_word w (Z.lxor x y).
Proof.
  intros Hw Hx Hy. apply in_word_bits in Hx as [? Hx]; [|done].
  apply in_word_bits in Hy as [? Hy]; [|done].
  apply in_word_bits; [done|]. split; [apply Z.lxor_nonneg; lia|].
  intros i Hi. by rewrite Z.lxor_spec, Hx, Hy.
Qed.

Lemma in_word_shiftr w x n : 0 <= w -> 0 <= n -> in_word w x -> in_word w (Z.shiftr x n).
Proof.
  intros Hw Hn Hx. apply in_word_bits in Hx as [? Hx]; [|done].
  apply in_word_bits; [done|]. split; [by apply Z.shiftr_nonneg|].
  intros i Hi. rewrite Z.shiftr_spec, Hx by lia. done.
Qed.

#[export] Hint Resolve in_word_land in_word_lor in_word_lxor in_word_shiftr : cword.

(** Disjoint bits: [lor] of a low part and a shifted high part is their sum. *)
Lemma lor_low_high k a b : 0 <= k -> 0 <= a < 2 ^ k -> Z.lor a (b * 2 ^ k) = a + b * 2 ^ k.
Proof.
  intros Hk Ha. symmetry. apply Z.add_nocarry_lor.
  rewrite <-Z.shiftl_mul_pow2 by done. apply Z.bits_inj'. intros i Hi.
  rewrite Z.land_spec, Z.bits_0.
  destruct (decide (i < k)) as [Hlt|Hge].
  - rewrite Z.shiftl_spec_low by done. apply andb_false_r.
  - rewrite (proj1 (Z.bounded_iff_bits_nonneg' k a ltac:(lia) ltac:(lia))) by lia. done.
Qed.

Lemma lor_high_low k a b : 0 <= k -> 0 <= a < 2 ^ k -> Z.lor (b * 2 ^ k) a = b * 2 ^ k + a.
Proof. intros ??. rewrite Z.lor_comm, lor_low_high by done. lia. Qed.

Lemma testbit_wrap w z i :
  0 <= w -> 0 <= i -> Z.testbit (wrap w z) i = bool_decide (i < w) && Z.testbit z i.
Proof.
  intros Hw Hi. unfold wrap. case_bool_decide.
  - by rewrite Z.mod_pow2_bits_low by lia.
  - by rewrite Z.mod_pow2_bits_high by lia.
Qed.

(** Left shift with truncation keeps the low bits. *)
Lemma wrap_shiftl w x n : 0 <= n <= w -> wrap w (Z.shiftl x n) = (x mod 2 ^ (w - n)) * 2 ^ n.
Proof.
  intros Hn. unfold wrap. rewrite Z.shiftl_mul_pow2 by lia.
  replace (2 ^ w) with (2 ^ (w - n) * 2 ^ n).
  { apply Zmult_mod_distr_r. }
  rewrite <-Z.pow_add_r by lia. f_equal. lia.
Qed.

Lemma wrap_lnot w x : in_word w x -> wrap w (Z.lnot x) = 2 ^ w - 1 - x.
Proof.
  intros Hx. unfold wrap, Z.lnot, in_word in *.
  symmetry. apply Z.mod_unique with (-1); lia.
Qed.

(** A mask of the high bits of a word clears the low ones. *)
Lemma land_high w k x :
  0 <= k <= w -> in_word w x -> Z.land x (Z.shiftl (Z.ones (w - k)) k) = x / 2 ^ k * 2 ^ k.
Proof.
  intros Hk Hx. rewrite <-Z.shiftr_div_pow2, <-Z.shiftl_mul_pow2 by lia.
  apply Z.bits_inj'. intros i Hi. rewrite Z.land_spec. destruct (decide (i < k)).
  - rewrite !Z.shiftl_spec_low by done. apply andb_false_r.
  - rewrite !Z.shiftl_spec, Z.shiftr_spec by lia. replace (i - k + k) with i by lia.
    destruct (decide (i < w)).
    + rewrite Z.ones_spec_low by lia. apply andb_true_r.
    + apply in_word_bits in Hx as [_ Hx]; [|lia]. by rewrite (Hx i) by lia.
Qed.

(** ** Arrays

    [zget] and [zset] are the bounds-checked read and write of a C array; [None]
    is an access outside the object, which the code must never perform. *)

Definition zget {A} (l : list A) (i : Z) : option A :=
  if decide (0 <= i) then l !! Z.to_nat i else None.

Definition zset {A} (l : list A) (i : Z) (x : A) : option (list A) :=
  if decide (0 <= i < Z.of_nat (length l)) then Some (<[Z.to_nat i := x]> l) else None.

Lemma zget_nat {A} (l : list A) (i : nat) : zget l (Z.of_nat i) = l !! i.
Proof. unfold zget. rewrite decide_True, Nat2Z.id by lia. done. Qed.

Lemma zget_Some {A} (l : list A) i x :
  zget l i = Some x <-> 0 <= i /\ l !! Z.to_nat i = Some x.
Proof. unfold zget. case_decide; naive_solver. Qed.

Lemma zget_is_Some {A} (l : list A) i :
  0 <= i < Z.of_nat (length l) -> is_Some (zget l i).
Proof.
  intros Hi. unfold zget. rewrite decide_True by lia.
  apply lookup_lt_is_Some. lia.
Qed.

Lemma zget_None {A} (l : list A) i :
  zget l i = None <-> i < 0 \/ Z.of_nat (length l) <= i.
Proof.
  unfold zget. case_decide.
  - rewrite lookup_ge_None. lia.
  - split; [lia|done].
Qed.

Lemma zset_in {A} (l : list A) i x :
  0 <= i < Z.of_nat (length l) -> zset l i x = Some (<[Z.to_nat i := x]> l).
Proof. intros Hi. unfold zset. by rewrite decide_True. Qed.

Lemma zset_nat {A} (l : list A) (i : nat) x :
  (i < length l)%nat -> zset l (Z.of_nat i) x = Some (<[i := x]> l).
Proof. intros Hi. rewrite zset_in by lia. by rewrite Nat2Z.id. Qed.

Lemma zset_Some {A} (l l' : list A) i x :
  zset l i x = Some l' <->
  0 <= i < Z.of_nat (length l) /\ l' = <[Z.to_nat i := x]> l.
Proof. unfold zset. case_decide; naive_solver. Qed.

Lemma bind_some {A B} (x : A) (f : A -> option B) : Some x ≫= f = f x.
Proof. reflexivity. Qed.

(** ** Loops

    [for_range n f s] is [for (i = 0; i < n; i++) s = f(i, s)] in the option
    monad, [None] standing for a faulting body. *)

Fixpoint for_from {S} (i n : nat) (f : nat -> S -> option S) (s : S) : option S :=
  match n with
  | O => Some s
  | Datatypes.S n' => s' ← f i s; for_from (Datatypes.S i) n' f s'
  end.

Definition for_range {S} (n : nat) (f : nat -> S -> option S) (s : S) : option S :=
  for_from 0 n f s.

Arguments for_from : simpl never.
Arguments for_range : simpl never.

Lemma for_from_S {S} i n f (s : S) :
  for_from i (Datatypes.S n) f s = (s' ← f i s; for_from (Datatypes.S i) n f s').
Proof. reflexivity. Qed.

(** Loop rule: an invariant indexed by the iteration counter. *)
Lemma for_from_inv {S} (I : nat -> S -> Prop) i n f (s : S) :
  I i s ->
  (forall j t, (i <= j < i + n)%nat -> I j t ->
     exists t', f j t = Some t' /\ I (Datatypes.S j) t') ->
  exists s', for_from i n f s = Some s' /\ I (i + n)%nat s'.
Proof.
  revert i s. induction n as [|n IH]; intros i s HI Hstep.
  - exists s. split; [done|]. by replace (i + 0)%nat with i by lia.
  - rewrite for_from_S.
    destruct (Hstep i s) as (t & -> & Ht); [lia|done|]. rewrite bind_some.
    destruct (IH (Datatypes.S i) t Ht) as (s' & -> & Hs').
    { intros j t0 Hj. apply Hstep. lia. }
    exists s'. split; [done|]. by replace (i + Datatypes.S n)%nat with (Datatypes.S i + n)%nat by lia.
Qed.

Lemma for_range_inv {S} (I : nat -> S -> Prop) n f (s : S) :
  I 0%nat s ->
  (forall j t, (j < n)%nat -> I j t -> exists t', f j t = Some t' /\ I (Datatypes.S j) t') ->
  exists s', for_range n f s = Some s' /\ I n s'.
Proof.
  intros HI Hstep. destruct (for_from_inv I 0 n f s HI) as (s' & ? & ?); [|by exists s'].
  intros j t Hj. apply Hstep. lia.
Qed.

(** The same rule, with the postcondition of the goal. *)
Lemma for_range_post {S} (I : nat -> S -> Prop) n f (s : S) (Q : S -> Prop) :
  I 0%nat s ->
  (forall j t, (j < n)%nat -> I j t -> exists t', f j t = Some t' /\ I (Datatypes.S j) t') ->
  (forall s', I n s' -> Q s') ->
  exists s', for_range n f s = Some s' /\ Q s'.
Proof.
  intros HI Hstep HQ. destruct (for_range_inv I n f s HI Hstep) as (s' & ? & ?). eauto.
Qed.

Lemma for_range_inv_eq {S} (I : nat -> S -> Prop) n f (s s' : S) :
  for_range n f s = Some s' ->
  I 0%nat s ->
  (forall j t, (j < n)%nat -> I j t -> exists t', f j t = Some t' /\ I (Datatypes.S j) t') ->
  I n s'.
Proof.
  intros Heq HI Hstep. destruct (for_range_inv I n f s HI Hstep) as (t & Ht & ?).
  by simplify_eq.
Qed.

(** Two nested loops over a rectangle, the row-major position as the counter. *)
Lemma for_rect_inv {S} (I : nat -> S -> Prop) h w f (s : S) :
  I 0%nat s ->
  (forall y x t, (y < h)%nat -> (x < w)%nat -> I (y * w + x)%nat t ->
     exists t', f y x t = Some t' /\ I (Datatypes.S (y * w + x)) t') ->
  exists s', for_range h (fun y => for_range w (f y)) s = Some s' /\ I (h * w)%nat s'.
Proof.
  intros HI Hstep.
  apply (for_range_inv (fun y t => I (y * w)%nat t)); [done|].
  intros y t Hy Ht.
  destruct (for_range_inv (fun x t => I (y * w + x)%nat t) w (f y) t) as (t' & Ht' & HI').
  - by rewrite Nat.add_0_r.
  - intros x t0 Hx Ht0. destruct (Hstep y x t0 Hy Hx Ht0) as (t1 & ? & ?).
    exists t1. split; [done|]. by rewrite Nat.add_succ_r.
  - exists t'. split; [done|]. by replace (Datatypes.S y * w)%nat with (y * w + w)%nat by lia.
Qed.

(** ** Stateful code that may fault

    [eff W A]: code that runs in a world [W] (the state that its callbacks and
    devices may change) and returns an [A], or faults. *)

Definition eff (W A : Type) : Type := W -> option (A * W).

#[export] Instance eff_ret W : MRet (eff W) := fun A x w => Some (x, w).
#[export] Instance eff_bind W : MBind (eff W) :=
  fun A B k c w => '(x, w') ← c w; k x w'.

(** A pure computation that may fault, a read and a change of the world. *)
Definition eff_opt {W A} (o : option A) : eff W A := fun w => x ← o; Some (x, w).
Definition eff_get {W A} (f : W -> A) : eff W A := fun w => Some (f w, w).
Definition eff_upd {W} (f : W -> W) : eff W unit := fun w => Some (tt, f w).

Lemma eff_bind_unfold {W A B} (c : eff W A) (k : A -> eff W B) w :
  (x ← c; k x) w = ('(x, w') ← c w; k x w').
Proof. reflexivity. Qed.

Lemma eff_bind_run {W A B} (c : eff W A) (k : A -> eff W B) w w' x :
  c w = Some (x, w') -> (x ← c; k x) w = k x w'.
Proof. intros H. rewrite eff_bind_unfold, H. reflexivity. Qed.

Lemma eff_bind_ret {W A B} (x : A) (k : A -> eff W B) w : (x ← mret x; k x) w = k x w.
Proof. reflexivity. Qed.

Lemma eff_bind_opt {W A B} (x : A) (k : A -> eff W B) w :
  (x ← eff_opt (Some x); k x) w = k x w.
Proof. reflexivity. Qed.

Lemma eff_bind_get {W A B} (f : W -> A) (k : A -> eff W B) w : (x ← eff_get f; k x) w = k (f w) w.
Proof. reflexivity. Qed.

Lemma eff_bind_assoc {W A B C} (c : eff W A) (k : A -> eff W B) (h : B -> eff W C) w :
  (y ← (x ← c; k x); h y) w = (x ← c; y ← k x; h y) w.
Proof. unfold mbind, eff_bind. by destruct (c w) as [[x w']|]. Qed.

(** ** C strings *)

(** The bytes of a string literal, without and with its terminating NUL. *)
Fixpoint bytes_of_string (s : string) : list Z :=
  match s with
  | EmptyString => []
  | String c s' => Z.of_nat (Ascii.nat_of_ascii c) :: bytes_of_string s'
  end.

Definition c_string (s : string) : list Z := bytes_of_string s ++ [0].

Lemma bytes_of_string_ok s : bytes_ok (bytes_of_string s).
Proof.
  induction s as [|c s IH]; simpl; constructor; [|done].
  pose proof (Ascii.nat_ascii_bounded c). unfold in_word. lia.
Qed.
