(* ===== verification/BootString.v ===== *)
(** * Freestanding string routines (src/boot/string.c, src/security/bootloader.c)

    The boot image links its own [strlen], [memcmp], [memset] and [memcpy]; the
    bootloader carries private copies of the first three.  Objects are lists of
    bytes, and every routine faults ([None]) when it would access a byte outside
    its operands. *)
From S2P Require Import Prelude.
Local Open Scope Z_scope.

(** [while (s[n]) n++]: faults when no terminator is found. *)
Fixpoint strlen (s : list Z) : option Z :=
  match s with
  | [] => None
  | c :: s' => if decide (c = 0) then Some 0 else n ← strlen s'; Some (n + 1)
  end.

(** The comparison loop from index [i], with [n] bytes to go. *)
Fixpoint memcmp_from (x y : list Z) (i n : nat) : option Z :=
  match n with
  | O => Some 0
  | S n' =>
      a ← x !! i;
      b ← y !! i;
      if decide (a <> b) then Some (if decide (a < b) then -1 else 1)
      else memcmp_from x y (S i) n'
  end.

Definition memcmp (x y : list Z) (n : nat) : option Z := memcmp_from x y 0 n.

(** [p[i] = (unsigned char)value]. *)
Definition memset (ptr : list Z) (value : Z) (n : nat) : option (list Z) :=
  for_range n (fun i p => zset p (Z.of_nat i) (u8 value)) ptr.

(** [d[i] = s[i]] into a destination that does not overlap the source. *)
Definition memcpy (dest src : list Z) (n : nat) : option (list Z) :=
  for_range n (fun i d => x ← src !! i; zset d (Z.of_nat i) x) dest.

(** The bootloader's private copies have the same bodies. *)
Fixpoint boot_strlen (s : list Z) : option Z :=
  match s with
  | [] => None
  | c :: s' => if decide (c <> 0) then n ← boot_strlen s'; Some (n + 1) else Some 0
  end.

Definition boot_memset (dst : list Z) (value : Z) (n : nat) : option (list Z) :=
  for_range n (fun i p => zset p (Z.of_nat i) value) dst.

Fixpoint boot_memcmp_from (x y : list Z) (i n : nat) : option Z :=
  match n with
  | O => Some 0
  | S n' =>
      a ← x !! i;
      b ← y !! i;
      if decide (a <> b) then Some (if decide (a < b) then -1 else 1)
      else boot_memcmp_from x y (S i) n'
  end.

Definition boot_memcmp (a b : list Z) (n : nat) : option Z := boot_memcmp_from a b 0 n.

(** ** Lemmas *)

Lemma boot_strlen_eq s : boot_strlen s = strlen s.
Proof.
  induction s as [|c s IH]; simpl; [done|]. rewrite IH.
  destruct (decide (c = 0)), (decide (c <> 0)); done.
Qed.

Lemma boot_memcmp_eq a b n : boot_memcmp a b n = memcmp a b n.
Proof. reflexivity. Qed.

(** On a terminated string [strlen] is the number of bytes before the NUL. *)
Lemma strlen_spec s rest :
  Forall (fun c => c <> 0) s -> strlen (s ++ 0 :: rest) = Some (Z.of_nat (length s)).
Proof.
  induction 1 as [|c s Hc _ IH]; simpl; [done|].
  rewrite decide_False, IH by done. simpl. f_equal. lia.
Qed.

Lemma strlen_None s : strlen s = None <-> Forall (fun c => c <> 0) s.
Proof.
  induction s as [|c s IH]; simpl; [done|]. rewrite Forall_cons.
  case_decide; [naive_solver|]. destruct (strlen s); naive_solver.
Qed.

(** Lexicographic comparison of byte strings of equal length. *)
Fixpoint lex_compare (x y : list Z) : Z :=
  match x, y with
  | a :: x', b :: y' => if decide (a = b) then lex_compare x' y' else if decide (a < b) then -1 else 1
  | _, _ => 0
  end.

Lemma memcmp_from_spec x y i n :
  (i + n <= length x)%nat -> (i + n <= length y)%nat ->
  memcmp_from x y i n = Some (lex_compare (take n (drop i x)) (take n (drop i y))).
Proof.
  revert i. induction n as [|n IH]; intros i Hx Hy; simpl; [done|].
  destruct (lookup_lt_is_Some_2 x i) as [a Ha]; [lia|].
  destruct (lookup_lt_is_Some_2 y i) as [b Hb]; [lia|].
  rewrite Ha, Hb. simpl.
  rewrite (drop_S x a i Ha), (drop_S y b i Hb). simpl.
  destruct (decide (a = b)), (decide (a <> b)); try done. apply IH; lia.
Qed.

Lemma lex_compare_eq x y : length x = length y -> lex_compare x y = 0 <-> x = y.
Proof.
  revert y. induction x as [|a x IH]; intros [|b y]; simpl; intros Hl; try done.
  case_decide as Hab.
  - subst. rewrite IH by lia. naive_solver.
  - case_decide; split; [lia|congruence|lia|congruence].
Qed.

Lemma memcmp_spec x y n :
  (n <= length x)%nat -> (n <= length y)%nat ->
  memcmp x y n = Some (lex_compare (take n x) (take n y)).
Proof. intros. unfold memcmp. by rewrite memcmp_from_spec. Qed.

(** [memcmp] returns zero exactly when the first [n] bytes agree. *)
Lemma memcmp_zero x y n :
  (n <= length x)%nat -> (n <= length y)%nat ->
  memcmp x y n = Some 0 <-> take n x = take n y.
Proof.
  intros Hx Hy. rewrite memcmp_spec by done.
  rewrite <-lex_compare_eq by (rewrite !length_take; lia). split; [by intros [= ->]|by intros ->].
Qed.

Lemma memcpy_spec dest src n :
  (n <= length dest)%nat -> (n <= length src)%nat ->
  memcpy dest src n = Some (take n src ++ drop n dest).
Proof.
  intros Hd Hs. unfold memcpy.
  edestruct (for_range_inv (fun i d => d = take i src ++ drop i dest) n
    (fun i d => x ← src !! i; zset d (Z.of_nat i) x) dest) as (d & -> & ->); [done| |done].
  intros i d Hi ->.
  destruct (lookup_lt_is_Some_2 src i) as [x Hx]; [lia|].
  destruct (lookup_lt_is_Some_2 dest i) as [y Hy]; [lia|].
  rewrite Hx, bind_some, zset_nat by (rewrite length_app, length_take, length_drop; lia).
  eexists. split; [done|].
  rewrite (take_S_r _ _ x Hx), <-app_assoc, (drop_S dest y i Hy).
  replace i with (length (take i src) + 0)%nat at 1 by (rewrite length_take; lia).
  by rewrite insert_app_r.
Qed.

Lemma memset_spec ptr v n :
  (n <= length ptr)%nat -> memset ptr v n = Some (replicate n (u8 v) ++ drop n ptr).
Proof.
  intros Hn. rewrite <-(take_ge (replicate n (u8 v)) n) by (by rewrite length_replicate).
  rewrite <-memcpy_spec by (rewrite ?length_replicate; lia). unfold memset, memcpy.
  assert (forall i k p, (i + k = n)%nat ->
    for_from i k (fun i p => zset p (Z.of_nat i) (u8 v)) p =
    for_from i k (fun i d => x ← replicate n (u8 v) !! i; zset d (Z.of_nat i) x) p) as H.
  { intros i k. revert i. induction k as [|k IH]; intros i p Hik; [done|].
    rewrite !for_from_S, lookup_replicate_2, bind_some by lia.
    destruct (zset p (Z.of_nat i) (u8 v)) as [p'|]; [|done]. rewrite !bind_some. apply IH. lia. }
  apply H. lia.
Qed.

Lemma boot_memset_spec dst v n :
  byte_ok v -> (n <= length dst)%nat ->
  boot_memset dst v n = Some (replicate n v ++ drop n dst).
Proof.
  intros Hv Hn. rewrite <-(wrap_small 8 v Hv) at 2. rewrite <-memset_spec by done.
  unfold memset. by rewrite (wrap_small 8 v Hv).
Qed.
