(* ===== verification/Sha256.v ===== *)
(** * SHA-256 measurement (src/boot/boot_platform.c)

    [measure_sha256] is the measurement callback that the boot platform hands to
    the secure bootloader.  The first part transcribes the C routine: a block
    loop over the payload, a 128-byte tail buffer for the padding, a second block
    loop over the tail, and the big-endian store of the chaining value.  Module
    [FIPS180] is the standard's definition of the hash.  The main theorem is that
    the routine performs no access outside its buffers and returns exactly the
    hash of the payload, for every payload. *)
From S2P Require Import Prelude.
Local Open Scope Z_scope.

(** ** The C routine *)

Definition sha256_rotr (x n : Z) : Z :=
  Z.lor (Z.shiftr x n) (u32 (Z.shiftl x (32 - n))).

Definition sha256_ch (x y z : Z) : Z :=
  Z.lxor (Z.land x y) (Z.land (u32 (Z.lnot x)) z).

Definition sha256_maj (x y z : Z) : Z :=
  Z.lxor (Z.lxor (Z.land x y) (Z.land x z)) (Z.land y z).

Definition sha256_ep0 (x : Z) : Z :=
  Z.lxor (Z.lxor (sha256_rotr x 2) (sha256_rotr x 13)) (sha256_rotr x 22).

Definition sha256_ep1 (x : Z) : Z :=
  Z.lxor (Z.lxor (sha256_rotr x 6) (sha256_rotr x 11)) (sha256_rotr x 25).

Definition sha256_sig0 (x : Z) : Z :=
  Z.lxor (Z.lxor (sha256_rotr x 7) (sha256_rotr x 18)) (Z.shiftr x 3).

Definition sha256_sig1 (x : Z) : Z :=
  Z.lxor (Z.lxor (sha256_rotr x 17) (sha256_rotr x 19)) (Z.shiftr x 10).

(** The 64 round constants of the source, in decimal as the other tables. *)
Definition sha256_k : list Z :=
  [
    1116352408; 1899447441; 3049323471; 3921009573;
    961987163; 1508970993; 2453635748; 2870763221;
    3624381080; 310598401; 607225278; 1426881987;
    1925078388; 2162078206; 2614888103; 3248222580;
    3835390401; 4022224774; 264347078; 604807628;
    770255983; 1249150122; 1555081692; 1996064986;
    2554220882; 2821834349; 2952996808; 3210313671;
    3336571891; 3584528711; 113926993; 338241895;
    666307205; 773529912; 1294757372; 1396182291;
    1695183700; 1986661051; 2177026350; 2456956037;
    2730485921; 2820302411; 3259730800; 3345764771;
    3516065817; 3600352804; 4094571909; 275423344;
    430227734; 506948616; 659060556; 883997877;
    958139571; 1322822218; 1537002063; 1747873779;
    1955562222; 2024104815; 2227730452; 2361852424;
    2428436474; 2756734187; 3204031479; 3329325298 
  ].

(** The chaining value [h[8]], and the working variables [a .. hh]. *)
Record h8 := H8 { h_0 : Z; h_1 : Z; h_2 : Z; h_3 : Z; h_4 : Z; h_5 : Z; h_6 : Z; h_7 : Z }.

Definition h8_list (h : h8) : list Z :=
  [h_0 h; h_1 h; h_2 h; h_3 h; h_4 h; h_5 h; h_6 h; h_7 h].

Definition sha256_init : h8 :=
  H8 0x6a09e667 0xbb67ae85 0x3c6ef372 0xa54ff53a
     0x510e527f 0x9b05688c 0x1f83d9ab 0x5be0cd19.

(** One big-endian word [w[i]] of a block. *)
Definition sha256_load (buf : list Z) (p : Z) : option Z :=
  b0 ← zget buf p;
  b1 ← zget buf (p + 1);
  b2 ← zget buf (p + 2);
  b3 ← zget buf (p + 3);
  Some (Z.lor (Z.lor (Z.lor (u32 (Z.shiftl b0 24)) (u32 (Z.shiftl b1 16)))
                     (u32 (Z.shiftl b2 8))) b3).

(** The message schedule: [w] holds the entries assigned so far, so that reading
    an entry not yet assigned faults. *)
Definition sha256_schedule (buf : list Z) (base : Z) : option (list Z) :=
  w ← for_range 16 (fun i w =>
        x ← sha256_load buf (base + Z.of_nat i * 4); Some (w ++ [x])) [];
  for_from 16 48 (fun i w =>
    w2 ← w !! (i - 2)%nat;
    w7 ← w !! (i - 7)%nat;
    w15 ← w !! (i - 15)%nat;
    w16 ← w !! (i - 16)%nat;
    Some (w ++ [u32 (sha256_sig1 w2 + w7 + sha256_sig0 w15 + w16)])) w.

(** One of the 64 rounds, on the working variables. *)
Definition sha256_round (k w : Z) (v : h8) : h8 :=
  let '(H8 a b c d e f g hh) := v in
  let t1 := u32 (hh + sha256_ep1 e + sha256_ch e f g + k + w) in
  let t2 := u32 (sha256_ep0 a + sha256_maj a b c) in
  H8 (u32 (t1 + t2)) a b c (u32 (d + t1)) e f g.

(** The body of either block loop. *)
Definition sha256_block (buf : list Z) (base : Z) (h : h8) : option h8 :=
  w ← sha256_schedule buf base;
  v ← for_range 64 (fun i v =>
        k ← sha256_k !! i; wi ← w !! i; Some (sha256_round k wi v)) h;
  Some (H8 (u32 (h_0 h + h_0 v)) (u32 (h_1 h + h_1 v)) (u32 (h_2 h + h_2 v))
           (u32 (h_3 h + h_3 v)) (u32 (h_4 h + h_4 v)) (u32 (h_5 h + h_5 v))
           (u32 (h_6 h + h_6 v)) (u32 (h_7 h + h_7 v))).

(** The tail buffer: remaining bytes, [0x80], zeroes and the bit count. *)
Definition sha256_tail (data : list Z) (payload_size : Z) : option (Z * list Z) :=
  let full := payload_size / 64 in
  let rem := payload_size mod 64 in
  block ← for_range (Z.to_nat rem) (fun i block =>
            x ← zget data (full * 64 + Z.of_nat i); zset block (Z.of_nat i) x)
            (replicate 128 0);
  block ← zset block rem 0x80;
  let bits := u64 (payload_size * 8) in
  let total := if decide (rem < 56) then 64 else 128 in
  block ← for_range 8 (fun i block =>
            zset block (total - 1 - Z.of_nat i) (u8 (Z.shiftr bits (Z.of_nat i * 8))))
            block;
  Some (total, block).

(** [measurement[4i .. 4i+3] = h[i]], big-endian. *)
Definition sha256_store (h : h8) (measurement : list Z) : option (list Z) :=
  for_range 8 (fun i m =>
    x ← h8_list h !! i;
    m ← zset m (Z.of_nat i * 4) (u8 (Z.shiftr x 24));
    m ← zset m (Z.of_nat i * 4 + 1) (u8 (Z.shiftr x 16));
    m ← zset m (Z.of_nat i * 4 + 2) (u8 (Z.shiftr x 8));
    zset m (Z.of_nat i * 4 + 3) (u8 x)) measurement.

(** [measure_sha256(context, payload, payload_size, measurement)]: the returned
    status and the measurement buffer afterwards; NULL pointers are [None]. *)
Definition measure_sha256 (payload : option (list Z)) (payload_size : Z)
    (measurement : option (list Z)) : option (Z * option (list Z)) :=
  match payload, measurement with
  | Some data, Some m =>
      let full := payload_size / 64 in
      h ← for_range (Z.to_nat full) (fun block h =>
            sha256_block data (Z.of_nat block * 64) h) sha256_init;
      '(total, block) ← sha256_tail data payload_size;
      h ← for_range (Z.to_nat (total / 64)) (fun i h =>
            sha256_block block (Z.of_nat i * 64) h) h;
      m ← sha256_store h m;
      Some (0, Some m)
  | _, _ => Some (-1, measurement)
  end.

(** ** FIPS 180-4 *)

Module FIPS180.

(** ROTR^n(x): the [n] low bits move to the top of the 32-bit word. *)
Definition ROTR (n x : Z) : Z := x / 2 ^ n + (x mod 2 ^ n) * 2 ^ (32 - n).
Definition SHR (n x : Z) : Z := x / 2 ^ n.
Definition NOT (x : Z) : Z := 2 ^ 32 - 1 - x.

Definition Ch (x y z : Z) : Z := Z.lxor (Z.land x y) (Z.land (NOT x) z).
Definition Maj (x y z : Z) : Z :=
  Z.lxor (Z.lxor (Z.land x y) (Z.land x z)) (Z.land y z).
Definition Sigma0 (x : Z) : Z := Z.lxor (Z.lxor (ROTR 2 x) (ROTR 13 x)) (ROTR 22 x).
Definition Sigma1 (x : Z) : Z := Z.lxor (Z.lxor (ROTR 6 x) (ROTR 11 x)) (ROTR 25 x).
Definition sigma0 (x : Z) : Z := Z.lxor (Z.lxor (ROTR 7 x) (ROTR 18 x)) (SHR 3 x).
Definition sigma1 (x : Z) : Z := Z.lxor (Z.lxor (ROTR 17 x) (ROTR 19 x)) (SHR 10 x).

(** The first 64 primes, from which both constant tables are derived. *)
Definition is_prime (n : Z) : bool :=
  forallb (fun d => negb (n mod Z.of_nat d =? 0)) (seq 2 (Z.to_nat n - 2)).
Definition primes : list Z :=
  filter (fun n => is_prime n = true) (Z.of_nat <$> seq 2 310).

(** Integer cube root, by bits from the top. *)
Fixpoint icbrt_bits (n : nat) (acc z : Z) : Z :=
  match n with
  | O => acc
  | S n' =>
      let c := acc + 2 ^ Z.of_nat n' in
      icbrt_bits n' (if c * c * c <=? z then c else acc) z
  end.

(** K: the first 32 bits of the fractional part of the cube root of each prime;
    H(0): the same for the square roots of the first eight. *)
Definition K : list Z :=
  (fun p => icbrt_bits 40 0 (p * 2 ^ 96) mod 2 ^ 32) <$> primes.
Definition H0 : list Z :=
  (fun p => Z.sqrt (p * 2 ^ 64) mod 2 ^ 32) <$> take 8 primes.

(** Big-endian coding of words. *)
Definition word_of (bs : list Z) : Z := fold_left (fun acc b => acc * 256 + b) bs 0.
Fixpoint bytes_of (n : nat) (x : Z) : list Z :=
  match n with
  | O => []
  | S n' => (x / 256 ^ Z.of_nat n') mod 256 :: bytes_of n' x
  end.

(** Padding: a 1 bit, zeroes up to 56 mod 64, the 64-bit length in bits. *)
Definition pad (m : list Z) : list Z :=
  let len := Z.of_nat (length m) in
  m ++ [0x80] ++ replicate (Z.to_nat ((55 - len) mod 64)) 0 ++ bytes_of 8 (8 * len).

Definition nth_block (M : list Z) (i : nat) : list Z := take 64 (drop (64 * i) M).
Definition block_words (B : list Z) : list Z :=
  (fun t => word_of (take 4 (drop (4 * t) B))) <$> seq 0 16.

(** W_t for 16 <= t < 64. *)
Fixpoint schedule (M : list Z) (n : nat) : list Z :=
  match n with
  | O => M
  | S n' =>
      let W := schedule M n' in
      let t := (16 + n')%nat in
      W ++ [(sigma1 (W !!! (t - 2)%nat) + W !!! (t - 7)%nat
             + sigma0 (W !!! (t - 15)%nat) + W !!! (t - 16)%nat) mod 2 ^ 32]
  end.

Definition step (v : list Z) (kw : Z * Z) : list Z :=
  match v with
  | [a; b; c; d; e; f; g; h] =>
      let T1 := (h + Sigma1 e + Ch e f g + kw.1 + kw.2) mod 2 ^ 32 in
      let T2 := (Sigma0 a + Maj a b c) mod 2 ^ 32 in
      [(T1 + T2) mod 2 ^ 32; a; b; c; (d + T1) mod 2 ^ 32; e; f; g]
  | _ => v
  end.

Definition compress (H : list Z) (B : list Z) : list Z :=
  zip_with (fun x y => (x + y) mod 2 ^ 32) H
    (fold_left step (zip K (schedule (block_words B) 48)) H).

Definition hash_blocks (M : list Z) (H : list Z) : list Z :=
  fold_left (fun H i => compress H (nth_block M i)) (seq 0 (length M / 64)) H.

Definition sha256 (m : list Z) : list Z :=
  mjoin (bytes_of 4 <$> hash_blocks (pad m) H0).

End FIPS180.

(** ** The routine computes the standard's functions *)

Definition words_ok (h : h8) : Prop := Forall (in_word 32) (h8_list h).

Lemma rotr_ROTR x n :
  in_word 32 x -> 0 < n < 32 -> sha256_rotr x n = FIPS180.ROTR n x.
Proof.
  intros Hx Hn. unfold sha256_rotr, FIPS180.ROTR.
  rewrite wrap_shiftl, Z.shiftr_div_pow2 by lia.
  replace (32 - (32 - n)) with n by lia.
  apply lor_low_high; [lia|].
  unfold in_word in Hx. replace (2 ^ 32) with (2 ^ n * 2 ^ (32 - n)) in Hx.
  - split; [apply Z.div_pos; lia|]. apply Z.div_lt_upper_bound; lia.
  - rewrite <-Z.pow_add_r by lia. f_equal. lia.
Qed.

Lemma sha256_rotr_range x n : in_word 32 x -> 0 <= n -> in_word 32 (sha256_rotr x n).
Proof. intros. unfold sha256_rotr. auto with cword. Qed.
#[local] Hint Resolve sha256_rotr_range : cword.

Section WordFunctions.
Context (x y z : Z) (Hx : in_word 32 x).

Lemma ch_Ch : sha256_ch x y z = FIPS180.Ch x y z.
Proof. unfold sha256_ch, FIPS180.Ch, FIPS180.NOT. by rewrite wrap_lnot. Qed.

Lemma ep0_Sigma0 : sha256_ep0 x = FIPS180.Sigma0 x.
Proof. unfold sha256_ep0, FIPS180.Sigma0. by rewrite !rotr_ROTR. Qed.

Lemma ep1_Sigma1 : sha256_ep1 x = FIPS180.Sigma1 x.
Proof. unfold sha256_ep1, FIPS180.Sigma1. by rewrite !rotr_ROTR. Qed.

Lemma sig0_sigma0 : sha256_sig0 x = FIPS180.sigma0 x.
Proof.
  unfold sha256_sig0, FIPS180.sigma0, FIPS180.SHR.
  by rewrite !rotr_ROTR, Z.shiftr_div_pow2.
Qed.

Lemma sig1_sigma1 : sha256_sig1 x = FIPS180.sigma1 x.
Proof.
  unfold sha256_sig1, FIPS180.sigma1, FIPS180.SHR.
  by rewrite !rotr_ROTR, Z.shiftr_div_pow2.
Qed.
End WordFunctions.

(** The constant tables are those of the standard. *)
Lemma sha256_k_K : sha256_k = FIPS180.K.
Proof. vm_compute. reflexivity. Qed.

Lemma sha256_init_H0 : h8_list sha256_init = FIPS180.H0.
Proof. vm_compute. reflexivity. Qed.

Lemma sha256_init_ok : words_ok sha256_init.
Proof. unfold words_ok. by apply (bool_decide_unpack _). Qed.

(** [sha256_load] is the big-endian decoding of four bytes. *)
Lemma sha256_load_word_of buf (p : nat) :
  bytes_ok buf -> (p + 4 <= length buf)%nat ->
  sha256_load buf (Z.of_nat p) = Some (FIPS180.word_of (take 4 (drop p buf))) /\
  in_word 32 (FIPS180.word_of (take 4 (drop p buf))).
Proof.
  intros Hok Hp.
  assert (exists a b c d rest, drop p buf = a :: b :: c :: d :: rest) as (a&b&c&d&rest&Hd).
  { destruct (drop p buf) as [|a [|b [|c [|d rest]]]] eqn:E; [..|by eexists _, _, _, _, _];
      apply (f_equal length) in E; rewrite length_drop in E; simpl in E; lia. }
  assert (bytes_ok (a :: b :: c :: d :: rest)) as Hb by (rewrite <-Hd; by apply Forall_drop).
  assert (forall i, buf !! (p + i)%nat = (a :: b :: c :: d :: rest) !! i) as Hl
    by (intros i; by rewrite <-Hd, lookup_drop).
  rewrite Hd. unfold sha256_load.
  replace (Z.of_nat p) with (Z.of_nat (p + 0)) at 1 by lia.
  replace (Z.of_nat p + 1) with (Z.of_nat (p + 1)) by lia.
  replace (Z.of_nat p + 2) with (Z.of_nat (p + 2)) by lia.
  replace (Z.of_nat p + 3) with (Z.of_nat (p + 3)) by lia.
  rewrite !zget_nat, !Hl. simpl.
  apply Forall_cons in Hb as [Ha Hb]. apply Forall_cons in Hb as [Hb Hc].
  apply Forall_cons in Hc as [Hc Hb']. apply Forall_cons in Hb' as [Hb' _].
  unfold in_word in *. change (2 ^ 8) with 256 in *. rewrite !wrap_shiftl by lia.
  change (2 ^ (32 - 24)) with 256. change (2 ^ (32 - 16)) with 65536.
  change (2 ^ (32 - 8)) with 16777216. rewrite !Z.mod_small by lia.
  split; [|unfold FIPS180.word_of; simpl; lia]. f_equal.
  unfold FIPS180.word_of. simpl fold_left.
  rewrite (lor_high_low 24) by lia.
  replace (a * 2 ^ 24 + b * 2 ^ 16) with ((a * 2 ^ 8 + b) * 2 ^ 16) by lia.
  rewrite (lor_high_low 16) by lia.
  replace ((a * 2 ^ 8 + b) * 2 ^ 16 + c * 2 ^ 8)
    with ((a * 2 ^ 16 + b * 2 ^ 8 + c) * 2 ^ 8) by lia.
  rewrite (lor_high_low 8) by lia. lia.
Qed.

Lemma nth_block_take4 (buf : list Z) base t :
  (t < 16)%nat ->
  take 4 (drop (4 * t) (take 64 (drop base buf))) = take 4 (drop (base + 4 * t) buf).
Proof.
  intros Ht.   rewrite skipn_firstn_comm, take_take, drop_drop. f_equal. lia.
Qed.

Lemma length_schedule M n : length (FIPS180.schedule M n) = (length M + n)%nat.
Proof.
  induction n as [|n IH]; simpl; [lia|]. rewrite length_app, IH. simpl. lia.
Qed.

Lemma schedule_S M n t :
  t = (16 + n)%nat ->
  FIPS180.schedule M (S n) =
    let W := FIPS180.schedule M n in
    W ++ [u32 (FIPS180.sigma1 (W !!! (t - 2)%nat) + W !!! (t - 7)%nat
               + FIPS180.sigma0 (W !!! (t - 15)%nat) + W !!! (t - 16)%nat)].
Proof. by intros ->. Qed.

Lemma schedule_words M n :
  Forall (in_word 32) M -> Forall (in_word 32) (FIPS180.schedule M n).
Proof.
  intros HM. induction n as [|n IH]; simpl; [done|].
  apply Forall_app_2; [done|]. apply Forall_singleton, Z.mod_pos_bound. lia.
Qed.

Lemma length_block_words B : length (FIPS180.block_words B) = 16%nat.
Proof. done. Qed.

(** Reading an entry assigned earlier succeeds and gives a 32-bit word. *)
Lemma schedule_lookup M n i :
  Forall (in_word 32) M -> (i < length M + n)%nat ->
  FIPS180.schedule M n !! i = Some (FIPS180.schedule M n !!! i) /\
  in_word 32 (FIPS180.schedule M n !!! i).
Proof.
  intros HM Hi.
  destruct (lookup_lt_is_Some_2 (FIPS180.schedule M n) i) as [x Hx].
  { rewrite length_schedule. lia. }
  rewrite (list_lookup_total_correct _ _ _ Hx). split; [done|].
  eapply Forall_lookup_1; [|done]. by apply schedule_words.
Qed.

Lemma sha256_schedule_spec buf base :
  bytes_ok buf -> (base + 64 <= length buf)%nat ->
  let M := FIPS180.block_words (take 64 (drop base buf)) in
  sha256_schedule buf (Z.of_nat base) = Some (FIPS180.schedule M 48) /\
  Forall (in_word 32) M.
Proof.
  intros Hok Hb M.
  set (word t := FIPS180.word_of (take 4 (drop (4 * t) (take 64 (drop base buf))))).
  assert (forall t, (t < 16)%nat ->
    sha256_load buf (Z.of_nat base + Z.of_nat t * 4) = Some (word t) /\ in_word 32 (word t)) as Hw.
  { intros t Ht. unfold word. rewrite nth_block_take4 by done.
    replace (Z.of_nat base + Z.of_nat t * 4) with (Z.of_nat (base + 4 * t)) by lia.
    apply sha256_load_word_of; [done|lia]. }
  assert (Forall (in_word 32) M) as HM.
  { apply Forall_fmap, Forall_forall. intros t [_ Ht]%elem_of_seq. apply Hw. lia. }
  split; [|done]. unfold sha256_schedule.
  destruct (for_range_inv (fun i w => w = word <$> seq 0 i) 16
    (fun i w => x ← sha256_load buf (Z.of_nat base + Z.of_nat i * 4); Some (w ++ [x])) [])
    as (w & -> & ->); [done| |].
  { intros j t Hj ->. destruct (Hw j Hj) as [-> _]. eexists. split; [done|].
    by rewrite seq_S, fmap_app. }
  cbn [mbind option_bind]. change (word <$> seq 0 16) with M.
  edestruct (for_from_inv (fun i w => w = FIPS180.schedule M (i - 16)) 16 48)
    as (w & -> & ->); [done| |done].
  intros j t Hj ->. assert (length M = 16%nat) as HlM by done.
  destruct (schedule_lookup M (j - 16) (j - 2) HM) as [-> H2]; [lia|].
  destruct (schedule_lookup M (j - 16) (j - 7) HM) as [-> _]; [lia|].
  destruct (schedule_lookup M (j - 16) (j - 15) HM) as [-> H15]; [lia|].
  destruct (schedule_lookup M (j - 16) (j - 16) HM) as [-> _]; [lia|].
  cbn [mbind option_bind]. eexists. split; [done|].
  replace (S j - 16)%nat with (S (j - 16)) by lia.
  rewrite (schedule_S M (j - 16) j), sig1_sigma1, sig0_sigma0 by (done || lia). done.
Qed.

(** ** One block *)

Lemma sha256_round_step k w v :
  words_ok v ->
  h8_list (sha256_round k w v) = FIPS180.step (h8_list v) (k, w) /\
  words_ok (sha256_round k w v).
Proof.
  destruct v as [a b c d e f g hh]. unfold words_ok, h8_list.
  cbn [h_0 h_1 h_2 h_3 h_4 h_5 h_6 h_7 sha256_round FIPS180.step fst snd]. intros Hv.
  rewrite !Forall_cons in Hv. destruct Hv as (?&?&?&?&?&?&?&?&_).
  rewrite ep1_Sigma1, ep0_Sigma0, ch_Ch by done. split; [done|].
  repeat apply Forall_cons_2; auto with cword.
Qed.

Lemma sha256_rounds_spec ks w h :
  length ks = 64%nat -> length w = 64%nat -> words_ok h ->
  exists v, for_range 64 (fun i v =>
      k ← ks !! i; wi ← w !! i; Some (sha256_round k wi v)) h = Some v /\
    h8_list v = fold_left FIPS180.step (zip ks w) (h8_list h) /\ words_ok v.
Proof.
  intros Hk Hw Hh.
  apply (for_range_post (fun i v =>
    h8_list v = fold_left FIPS180.step (take i (zip ks w)) (h8_list h) /\ words_ok v)).
  - by rewrite take_0.
  - intros j t Hj [Ht1 Ht2].
    destruct (lookup_lt_is_Some_2 ks j) as [k Hkj]; [lia|].
    destruct (lookup_lt_is_Some_2 w j) as [wj Hwj]; [lia|].
    rewrite Hkj, Hwj. eexists. split; [done|].
    destruct (sha256_round_step k wj t Ht2) as [Hr Hr']. split; [|done].
    rewrite (take_S_r _ _ (k, wj)) by (by apply lookup_zip_with_Some; eauto).
    by rewrite fold_left_app, Hr, Ht1.
  - intros v [Hv1 Hv2]. rewrite take_ge in Hv1; [done|]. rewrite length_zip_with. lia.
Qed.

Lemma sha256_block_compress buf base h :
  bytes_ok buf -> (base + 64 <= length buf)%nat -> words_ok h ->
  exists h', sha256_block buf (Z.of_nat base) h = Some h' /\
    h8_list h' = FIPS180.compress (h8_list h) (take 64 (drop base buf)) /\ words_ok h'.
Proof.
  intros Hok Hb Hh. unfold sha256_block, FIPS180.compress.
  destruct (sha256_schedule_spec buf base Hok Hb) as [-> _]. rewrite bind_some.
  rewrite <-sha256_k_K.
  assert (length (FIPS180.schedule (FIPS180.block_words (take 64 (drop base buf))) 48)
    = 64%nat) as HW by apply length_schedule.
  revert HW. generalize (FIPS180.schedule (FIPS180.block_words (take 64 (drop base buf))) 48).
  intros W HW.
  destruct (sha256_rounds_spec sha256_k W h) as (v & -> & Hv & _); [done..|].
  rewrite bind_some, <-Hv. eexists. split; [reflexivity|]. split; [reflexivity|].
  unfold words_ok, h8_list. repeat apply Forall_cons_2;
    cbn [h_0 h_1 h_2 h_3 h_4 h_5 h_6 h_7]; auto with cword.
Qed.

(** [n] consecutive blocks of a buffer. *)
Definition compress_seq (M : list Z) (i n : nat) (H : list Z) : list Z :=
  fold_left (fun H j => FIPS180.compress H (FIPS180.nth_block M j)) (seq i n) H.

Lemma sha256_blocks_loop buf n h :
  bytes_ok buf -> (64 * n <= length buf)%nat -> words_ok h ->
  exists h', for_range n (fun i h => sha256_block buf (Z.of_nat i * 64) h) h = Some h' /\
    h8_list h' = compress_seq buf 0 n (h8_list h) /\ words_ok h'.
Proof.
  intros Hok Hb Hh.
  apply (for_range_post (fun i v =>
    h8_list v = compress_seq buf 0 i (h8_list h) /\ words_ok v)); [done| |done].
  intros j t Hj [Ht1 Ht2].
  replace (Z.of_nat j * 64) with (Z.of_nat (64 * j)) by lia.
  destruct (sha256_block_compress buf (64 * j) t) as (h' & -> & Hh' & ?); [done|lia|done|].
  exists h'. split; [reflexivity|]. split; [|assumption].
  unfold compress_seq in *. rewrite seq_S, fold_left_app, <-Ht1. exact Hh'.
Qed.

(** ** Padding *)

Lemma length_bytes_of n x : length (FIPS180.bytes_of n x) = n.
Proof. induction n; simpl; congruence. Qed.

Lemma bytes_of_ok n x : bytes_ok (FIPS180.bytes_of n x).
Proof.
  induction n as [|n IH]; simpl; constructor; [|done]. apply Z.mod_pos_bound. lia.
Qed.

(** The byte of the bit count that the store loop extracts. *)
Lemma bit_count_byte x i :
  (i < 8)%nat ->
  u8 (Z.shiftr (u64 x) (Z.of_nat i * 8)) = (x / 256 ^ Z.of_nat i) mod 256.
Proof.
  intros Hi. change 256 with (2 ^ 8) at 2. change 256 with (2 ^ 8).
  rewrite <-Z.pow_mul_r, <-Z.shiftr_div_pow2 by lia. fold (u8 (Z.shiftr x (8 * Z.of_nat i))).
  apply Z.bits_inj'. intros j Hj. rewrite !testbit_wrap by lia.
  case_bool_decide; [|done]. simpl.
  rewrite !Z.shiftr_spec, testbit_wrap, bool_decide_eq_true_2 by lia. simpl. f_equal. lia.
Qed.

Lemma replicate_split {A} (n k : nat) (x : A) :
  (k <= n)%nat -> replicate n x = replicate k x ++ replicate (n - k) x.
Proof. intros Hk. rewrite <-replicate_add. f_equal. lia. Qed.

Section Tail.
Context (data : list Z) (Hok : bytes_ok data).
Let size := Z.of_nat (length data).
Let full := (length data / 64)%nat.
Let rem := (length data mod 64)%nat.
Let R := drop (64 * full) data.
Let total := if decide (Z.of_nat rem < 56) then 64%nat else 128%nat.

Lemma tail_sizes :
  size / 64 = Z.of_nat full /\ size mod 64 = Z.of_nat rem /\
  length data = (64 * full + rem)%nat /\ (rem < 64)%nat /\ length R = rem /\
  (rem + 9 <= total <= 128)%nat /\ (total = 64 \/ total = 128)%nat.
Proof.
  unfold size, full, rem.
  pose proof (Nat.div_mod_eq (length data) 64) as Hdm.
  pose proof (Nat.mod_upper_bound (length data) 64 ltac:(lia)).
  assert (length R = rem) by (unfold R; rewrite length_drop; unfold full, rem; lia).
  repeat split; try (rewrite ?Nat2Z.inj_div, ?Nat2Z.inj_mod; done); try lia; try done;
    unfold total, rem; case_decide; lia.
Qed.

(** The copy loop and the [0x80] marker. *)
Lemma tail_copy :
  exists b,
    for_range rem (fun i block =>
      x ← zget data (Z.of_nat full * 64 + Z.of_nat i); zset block (Z.of_nat i) x)
      (replicate 128 0) = Some b /\
    zset b (Z.of_nat rem) 0x80 = Some (R ++ [0x80] ++ replicate (127 - rem) 0).
Proof.
  destruct tail_sizes as (_ & _ & Hlen & Hrem & HR & _).
  apply (for_range_post (fun i b => b = take i R ++ replicate (128 - i) 0)); [done| |].
  - intros i b Hi ->.
    replace (Z.of_nat full * 64 + Z.of_nat i) with (Z.of_nat (64 * full + i)) by lia.
    rewrite zget_nat.
    destruct (lookup_lt_is_Some_2 R i) as [x Hx]; [lia|].
    assert (data !! (64 * full + i)%nat = Some x) as -> by (unfold R in Hx; by rewrite lookup_drop in Hx).
    rewrite bind_some, zset_nat by (rewrite length_app, length_take, length_replicate; lia).
    eexists. split; [done|].
    rewrite (take_S_r _ _ x Hx), <-app_assoc.
    replace (128 - i)%nat with (S (128 - S i)) by lia. simpl replicate.
    replace i with (length (take i R) + 0)%nat at 1 by (rewrite length_take; lia).
    by rewrite insert_app_r.
  - intros b ->. rewrite take_ge by lia.
    rewrite zset_nat by (rewrite length_app, length_replicate; lia). f_equal.
    replace (128 - rem)%nat with (S (127 - rem)) by lia. simpl replicate.
    replace rem with (length R + 0)%nat at 1 by lia. by rewrite insert_app_r.
Qed.

(** The store of the 64-bit bit count at the end of the last block. *)
Lemma tail_store (b : list Z) :
  length b = 128%nat ->
  exists b',
    for_range 8 (fun i block =>
      zset block (Z.of_nat total - 1 - Z.of_nat i)
        (u8 (Z.shiftr (u64 (size * 8)) (Z.of_nat i * 8)))) b = Some b' /\
    b' = take (total - 8) b ++ FIPS180.bytes_of 8 (8 * size) ++ drop total b.
Proof.
  destruct tail_sizes as (_ & _ & _ & _ & _ & Htot & _). intros Hb.
  apply (for_range_post (fun i b' =>
    b' = take (total - i) b ++ FIPS180.bytes_of i (8 * size) ++ drop total b)); [| |done].
  - simpl. by rewrite Nat.sub_0_r, take_drop.
  - intros i b' Hi ->.
    replace (Z.of_nat total - 1 - Z.of_nat i) with (Z.of_nat (total - S i)) by lia.
    rewrite zset_nat by (rewrite !length_app, length_take, length_bytes_of, length_drop; lia).
    eexists. split; [done|].
    rewrite bit_count_byte, (Z.mul_comm size) by done. simpl FIPS180.bytes_of.
    destruct (lookup_lt_is_Some_2 b (total - S i)) as [x Hx]; [lia|].
    replace (total - i)%nat with (S (total - S i)) by lia.
    rewrite (take_S_r _ _ x Hx), <-!app_assoc. simpl.
    replace (total - S i)%nat with (length (take (total - S i) b) + 0)%nat at 1
      by (rewrite length_take; lia).
    by rewrite insert_app_r.
Qed.

Lemma pad_drop :
  drop (64 * full) (FIPS180.pad data) =
  R ++ [0x80] ++ replicate (total - 9 - rem) 0 ++ FIPS180.bytes_of 8 (8 * size).
Proof.
  destruct tail_sizes as (_ & _ & Hlen & Hrem & HR & Htot & _).
  unfold FIPS180.pad. rewrite drop_app_le by lia. fold R. do 2 f_equal. simpl. f_equal.
  f_equal. f_equal. fold size.
  assert (size = 64 * Z.of_nat full + Z.of_nat rem) as -> by lia.
  replace (55 - (64 * Z.of_nat full + Z.of_nat rem))
    with (55 - Z.of_nat rem + (- Z.of_nat full) * 64) by lia.
  rewrite Z.mod_add by lia. unfold total. case_decide.
  - rewrite Z.mod_small by lia. lia.
  - rewrite <-(Z.mod_unique (55 - Z.of_nat rem) 64 (-1) (119 - Z.of_nat rem)) by lia. lia.
Qed.

Lemma sha256_tail_spec :
  exists b, sha256_tail data size = Some (Z.of_nat total, b) /\
    length b = 128%nat /\ bytes_ok b /\
    take total b = drop (64 * full) (FIPS180.pad data).
Proof.
  destruct tail_sizes as (Hf & Hr & Hlen & Hrem & HR & Htot & _).
  unfold sha256_tail. rewrite Hf, Hr, Nat2Z.id.
  destruct tail_copy as (b & -> & Hb). rewrite bind_some, Hb, bind_some.
  set (b1 := R ++ [0x80] ++ replicate (127 - rem) 0).
  assert (length b1 = 128%nat) as Hl1
    by (unfold b1; rewrite !length_app, length_replicate; simpl; lia).
  assert (bytes_ok b1) as Hok1.
  { unfold b1. repeat apply Forall_app_2; [by apply Forall_drop|by apply Forall_singleton|].
    by apply Forall_replicate. }
  destruct (tail_store b1 Hl1) as (b' & Hb' & ->).
  replace (if decide (Z.of_nat rem < 56) then 64 else 128) with (Z.of_nat total)
    by (unfold total; by case_decide).
  rewrite Hb', bind_some. eexists. split; [done|].
  rewrite !length_app, length_take, length_bytes_of, length_drop. split; [lia|].
  split.
  { repeat apply Forall_app_2; [by apply Forall_take|apply bytes_of_ok|by apply Forall_drop]. }
  rewrite pad_drop, app_assoc, take_app_length'
    by (rewrite length_app, length_take, length_bytes_of; lia).
  unfold b1. rewrite take_app, HR.
  rewrite (take_ge R) by lia. rewrite <-!app_assoc. f_equal.
  replace (total - 8 - rem)%nat with (S (total - 9 - rem)) by lia. simpl. f_equal.
  by rewrite take_replicate, Nat.min_l by lia.
Qed.
End Tail.

(** ** The digest *)

Lemma zset4 (P S : list Z) a b c d w x y z :
  (m ← zset (P ++ a :: b :: c :: d :: S) (Z.of_nat (length P)) w;
   m ← zset m (Z.of_nat (length P) + 1) x;
   m ← zset m (Z.of_nat (length P) + 2) y;
   zset m (Z.of_nat (length P) + 3) z) = Some (P ++ w :: x :: y :: z :: S).
Proof.
  assert (forall k (L : list Z) v, (k < length L)%nat ->
    zset (P ++ L) (Z.of_nat (length P) + Z.of_nat k) v = Some (P ++ <[k := v]> L)) as H.
  { intros k L v Hk. rewrite <-Nat2Z.inj_add, zset_nat by (rewrite length_app; lia).
    by rewrite insert_app_r. }
  rewrite <-(Z.add_0_r (Z.of_nat (length P))) at 1.
  rewrite (H 0%nat) by (simpl; lia). rewrite bind_some.
  rewrite (H 1%nat) by (simpl; lia). rewrite bind_some.
  rewrite (H 2%nat) by (simpl; lia). rewrite bind_some.
  by rewrite (H 3%nat) by (simpl; lia).
Qed.

Lemma drop_4 (m : list Z) k :
  (k + 4 <= length m)%nat ->
  exists a b c d, drop k m = a :: b :: c :: d :: drop (k + 4) m.
Proof.
  intros Hk. rewrite <-drop_drop.
  destruct (drop k m) as [|a [|b [|c [|d rest]]]] eqn:E;
    [apply (f_equal length) in E; rewrite length_drop in E; simpl in E; lia ..|].
  by exists a, b, c, d.
Qed.

Lemma length_words l : length (mjoin (FIPS180.bytes_of 4 <$> l)) = (4 * length l)%nat.
Proof.
  induction l as [|y l IHl]; [done|].
  change (length (FIPS180.bytes_of 4 y ++ mjoin (FIPS180.bytes_of 4 <$> l)) = (4 * S (length l))%nat).
  rewrite length_app, length_bytes_of, IHl. lia.
Qed.

(** A digest is 32 bytes. *)
Lemma sha256_length m : length (FIPS180.sha256 m) = 32%nat.
Proof.
  assert (forall l v, length (fold_left FIPS180.step l v) = length v) as Hstep.
  { induction l as [|kw l IH]; intros v; [done|]. simpl. rewrite IH.
    by do 9 (destruct v as [|? v]; [done|]). }
  assert (forall l H, length (fold_left (fun H i =>
      FIPS180.compress H (FIPS180.nth_block (FIPS180.pad m) i)) l H) = length H) as Hblocks.
  { induction l as [|i l IH]; intros H; [done|]. simpl. rewrite IH.
    unfold FIPS180.compress. rewrite length_zip_with, Hstep. lia. }
  unfold FIPS180.sha256, FIPS180.hash_blocks. rewrite length_words, Hblocks. reflexivity.
Qed.

Lemma sha256_store_spec h m :
  length m = 32%nat ->
  sha256_store h m = Some (mjoin (FIPS180.bytes_of 4 <$> h8_list h)).
Proof.
  intros Hm. unfold sha256_store.
  destruct (for_range_post (fun i m' =>
      m' = mjoin (FIPS180.bytes_of 4 <$> take i (h8_list h)) ++ drop (4 * i) m) 8
    (fun i m => x ← h8_list h !! i;
      m ← zset m (Z.of_nat i * 4) (u8 (Z.shiftr x 24));
      m ← zset m (Z.of_nat i * 4 + 1) (u8 (Z.shiftr x 16));
      m ← zset m (Z.of_nat i * 4 + 2) (u8 (Z.shiftr x 8));
      zset m (Z.of_nat i * 4 + 3) (u8 x)) m
    (fun m' => m' = mjoin (FIPS180.bytes_of 4 <$> h8_list h)))
    as (m' & Hm' & Heq); [done| | |].
  - intros i m' Hi ->.
    destruct (lookup_lt_is_Some_2 (h8_list h) i) as [x Hx]; [done|].
    rewrite Hx, bind_some.
    assert (length (mjoin (FIPS180.bytes_of 4 <$> take i (h8_list h))) = (4 * i)%nat) as HP.
    { rewrite length_words, length_take. simpl length. lia. }
    destruct (drop_4 m (4 * i)) as (a & b & c & d & Hd); [lia|].
    rewrite Hd. replace (Z.of_nat i * 4) with (Z.of_nat (4 * i)) by lia. rewrite <-HP.
    rewrite zset4. eexists. split; [reflexivity|].
    rewrite (take_S_r _ _ x Hx), fmap_app, join_app, HP. simpl mjoin. rewrite <-app_assoc.
    replace (4 * S i)%nat with (4 * i + 4)%nat by lia. f_equal. simpl.
    rewrite !Z.shiftr_div_pow2, Z.div_1_r by lia. reflexivity.
  - intros m' ->. rewrite take_ge, drop_ge by (simpl length; lia). apply app_nil_r.
  - rewrite Hm'. by rewrite Heq.
Qed.

Lemma compress_seq_ext M M' i i' n H :
  (forall j, (j < n)%nat -> FIPS180.nth_block M (i + j) = FIPS180.nth_block M' (i' + j)) ->
  compress_seq M i n H = compress_seq M' i' n H.
Proof.
  revert i i' H. induction n as [|n IH]; intros i i' H Heq; [done|].
  unfold compress_seq. simpl seq. simpl fold_left.
  pose proof (Heq 0%nat ltac:(lia)) as H0. rewrite !Nat.add_0_r in H0. rewrite H0.
  apply IH. intros j Hj. rewrite !Nat.add_succ_l, <-!Nat.add_succ_r. apply Heq. lia.
Qed.

Lemma compress_seq_app M i n n' H :
  compress_seq M i (n + n') H = compress_seq M (i + n) n' (compress_seq M i n H).
Proof. unfold compress_seq. by rewrite seq_app, fold_left_app. Qed.

Lemma nth_block_take M n j :
  (64 * S j <= n)%nat -> FIPS180.nth_block (take n M) j = FIPS180.nth_block M j.
Proof.
  intros Hj. unfold FIPS180.nth_block. rewrite skipn_firstn_comm, take_take. f_equal. lia.
Qed.

Lemma measure_sha256_run (data m : list Z) :
  bytes_ok data -> length m = 32%nat ->
  measure_sha256 (Some data) (Z.of_nat (length data)) (Some m) =
    Some (0, Some (FIPS180.sha256 data)).
Proof.
  intros Hok Hm. unfold measure_sha256.
  destruct (tail_sizes data) as (Hf & _ & Hlen & _ & _ & Htot & Ht).
  destruct (sha256_tail_spec data Hok) as (b & Hb & Hlb & Hokb & Hpad).
  set (full := (length data / 64)%nat) in *.
  set (total := if decide _ then 64%nat else 128%nat) in *.
  rewrite Hf, Nat2Z.id.
  destruct (sha256_blocks_loop data full sha256_init) as (h & -> & Hh & Hhok);
    [done|lia|apply sha256_init_ok|].
  rewrite bind_some, Hb, bind_some.
  assert (total = 64 * Z.to_nat (Z.of_nat total / 64))%nat as Hdiv by (destruct Ht as [-> | ->]; done).
  set (n := Z.to_nat (Z.of_nat total / 64)) in *.
  destruct (sha256_blocks_loop b n h) as (h' & -> & Hh' & _); [done|lia|done|].
  rewrite bind_some, sha256_store_spec, bind_some by done. do 3 f_equal.
  unfold FIPS180.sha256. do 2 f_equal. rewrite Hh', Hh, sha256_init_H0.
  unfold FIPS180.hash_blocks.
  assert (length (FIPS180.pad data) = (64 * (full + n))%nat) as HlM.
  { rewrite <-(take_drop (64 * full) (FIPS180.pad data)), length_app, <-Hpad, !length_take.
    unfold FIPS180.pad. rewrite length_app. lia. }
  rewrite HlM, Nat.mul_comm, Nat.div_mul by lia.
  fold (compress_seq (FIPS180.pad data) 0 (full + n) FIPS180.H0).
  rewrite compress_seq_app. simpl.
  rewrite (compress_seq_ext (FIPS180.pad data) data 0 0 full).
  - apply compress_seq_ext. intros j Hj. simpl.
    rewrite <-(nth_block_take b total) by lia. rewrite Hpad.
    unfold FIPS180.nth_block. rewrite drop_drop. do 2 f_equal. lia.
  - intros j Hj. simpl. rewrite <-(nth_block_take (FIPS180.pad data) (64 * full)) by lia.
    unfold FIPS180.pad. rewrite take_app_le by lia. apply nth_block_take. lia.
Qed.

(** C2.  The measurement callback is SHA-256: on a payload of any length it
    returns success, stores the FIPS 180-4 digest of the payload, 32 bytes, in the
    measurement buffer, and no read or write leaves the payload, the tail buffer
    or the measurement buffer; with a null pointer it returns -1 and stores
    nothing. *)
Theorem measure_sha256_correct (payload m : option (list Z)) :
  (forall d, payload = Some d -> bytes_ok d) ->
  (forall b, m = Some b -> length b = 32%nat) ->
  measure_sha256 payload (Z.of_nat (length (default [] payload))) m =
    match payload, m with
    | Some data, Some _ => Some (0, Some (FIPS180.sha256 data))
    | _, _ => Some (-1, m)
    end.
Proof.
  intros Hp Hm. destruct payload as [d|], m as [b|]; try done.
  apply measure_sha256_run; [by apply Hp|by apply Hm].
Qed.

(** The published test vectors, evaluated on the C transcription. *)
Example measure_sha256_abc :
  measure_sha256 (Some (bytes_of_string "abc")) 3 (Some (replicate 32 0)) =
  Some (0, Some
    [0xba; 0x78; 0x16; 0xbf; 0x8f; 0x01; 0xcf; 0xea; 0x41; 0x41; 0x40; 0xde; 0x5d; 0xae; 0x22; 0x23;
     0xb0; 0x03; 0x61; 0xa3; 0x96; 0x17; 0x7a; 0x9c; 0xb4; 0x10; 0xff; 0x61; 0xf2; 0x00; 0x15; 0xad]).
Proof. vm_compute. reflexivity. Qed.

(** A 56-byte message needs the two-block tail. *)
Lemma measure_sha256_correct_witness :
  measure_sha256 (Some (bytes_of_string "abcdbcdecdefdefgefghfghighijhijkijkljklmklmnlmnomnopnopq")) 56
    (Some (replicate 32 0)) =
  Some (0, Some (FIPS180.sha256
    (bytes_of_string "abcdbcdecdefdefgefghfghighijhijkijkljklmklmnlmnomnopnopq"))).
Proof.
  apply (measure_sha256_correct
    (Some (bytes_of_string "abcdbcdecdefdefgefghfghighijhijkijkljklmklmnlmnomnopnopq"))
    (Some (replicate 32 0))).
  - intros d Hd. apply (inj Some) in Hd as <-. apply bytes_of_string_ok.
  - intros b [= <-]. reflexivity.
Defined.
