(* ===== verification/Bootloader.v ===== *)
(** * The secure bootloader (src/security/bootloader.c, src/include/xnu++/bootloader.h)

    [xnuxx_bootloader_start] checks a boot image against a policy through the
    callbacks of a platform and hands the payload to [load_kernel].  The callbacks
    are function pointers of [struct xnuxx_boot_platform]: parameters of the model,
    each free to change the world [W] it runs in; a NULL pointer is [None].

    The theorems instantiate [W] with the history of callback invocations and let
    every callback answer by an arbitrary function of that history (section
    [Traced]), which covers every deterministic platform. *)
From S2P Require Import Prelude BootString.
Local Open Scope Z_scope.

(** ** Interface *)

Abbreviation XNUXX_BOOTLOADER_API_VERSION := (1)%Z.
Abbreviation XNUXX_BOOTLOADER_MAGIC := (0x584E5542)%Z.
Abbreviation XNUXX_BOOTLOADER_MAX_IMAGE_SIZE := (1024 * 1024 * 1024)%Z.

Abbreviation XNUXX_BOOT_REQUIRE_SIGNATURE := (Z.shiftl 1 0)%Z.
Abbreviation XNUXX_BOOT_REQUIRE_MEASUREMENT := (Z.shiftl 1 1)%Z.
Abbreviation XNUXX_BOOT_REQUIRE_ROLLBACK_PROTECTION := (Z.shiftl 1 2)%Z.
Abbreviation XNUXX_BOOT_REQUIRE_IOMMU := (Z.shiftl 1 3)%Z.
Abbreviation XNUXX_BOOT_REQUIRE_LAYER_CAPABILITIES := (Z.shiftl 1 4)%Z.

Abbreviation XNUXX_BOOT_CAP_KERNEL_PROVIDER := (Z.shiftl 1 0)%Z.
Abbreviation XNUXX_BOOT_CAP_SECURITY_LAYER := (Z.shiftl 1 1)%Z.
Abbreviation XNUXX_BOOT_CAP_UPDATE_LAYER := (Z.shiftl 1 2)%Z.
Abbreviation XNUXX_BOOT_CAP_DEVICE_LAYER := (Z.shiftl 1 3)%Z.
Abbreviation XNUXX_BOOT_CAP_RECOVERY := (Z.shiftl 1 4)%Z.

Record xnuxx_boot_image := BootImage {
  magic : Z;
  version : Z;
  header_size : Z;
  generation : Z;
  required_capabilities : Z;
  payload : option (list Z);
  payload_size : Z;
  signature : option (list Z);
  signature_size : Z;
  expected_measurement : option (list Z) }.

(** [sizeof(struct xnuxx_boot_image)] for the two ABIs the image is built for. *)
Inductive arch := I386 | X86_64.
Definition sizeof_boot_image (a : arch) : Z :=
  match a with I386 => 44 | X86_64 => 64 end.

Inductive xnuxx_boot_result :=
| BOOT_OK | BOOT_INVALID_ARGUMENT | BOOT_INVALID_IMAGE | BOOT_UNSUPPORTED
| BOOT_SIGNATURE_REJECTED | BOOT_MEASUREMENT_REJECTED | BOOT_ROLLBACK_REJECTED
| BOOT_CAPABILITY_REJECTED | BOOT_LOAD_FAILED | BOOT_RECOVERY_FAILED.

#[export] Instance xnuxx_boot_result_eq_dec : EqDecision xnuxx_boot_result.
Proof. solve_decision. Defined.

(** The callbacks.  An out-parameter is the buffer before and after the call. *)
Record xnuxx_boot_platform (W : Type) := BootPlatform {
  capabilities : Z;
  ansi_console : bool;
  verify_signature : option (list Z -> Z -> list Z -> Z -> eff W Z);
  measure : option (list Z -> Z -> list Z -> eff W (Z * list Z));
  read_minimum_generation : option (Z -> eff W (Z * Z));
  load_kernel : option (list Z -> Z -> eff W Z);
  enter_recovery : option (xnuxx_boot_result -> eff W Z);
  write_console : option (list Z -> Z -> eff W unit) }.
Arguments BootPlatform {W}.
Arguments capabilities {W}.
Arguments ansi_console {W}.
Arguments verify_signature {W}.
Arguments measure {W}.
Arguments read_minimum_generation {W}.
Arguments load_kernel {W}.
Arguments enter_recovery {W}.
Arguments write_console {W}.

(** ** Operations *)

Definition esc : string := String (Ascii.ascii_of_nat 27) EmptyString.
Definition nl : string := String (Ascii.ascii_of_nat 10) EmptyString.

Definition ANSI_BLUE_WHITE : list Z := c_string (esc ++ "[44;37m").
Definition ANSI_RESET : list Z := c_string (esc ++ "[0m").
Definition MSG_BANNER : list Z := c_string ("xnu++ secure bootloader" ++ nl).
Definition MSG_DONE : list Z :=
  c_string ("secure verification complete; transferring control" ++ nl).

Section Start.
Context {W : Type} (sizeof_image : Z).

Definition boot_log (p : xnuxx_boot_platform W) (text : list Z) : eff W unit :=
  match write_console p with
  | Some f => n ← eff_opt (boot_strlen text); f text n
  | None => mret tt
  end.

Definition boot_fail (p : xnuxx_boot_platform W) (result : xnuxx_boot_result) : eff W unit :=
  match enter_recovery p with
  | Some f => _ ← f result; mret tt
  | None => mret tt
  end.

Definition boot_reject (p : xnuxx_boot_platform W) (result : xnuxx_boot_result) :
    eff W xnuxx_boot_result :=
  _ ← boot_fail p result; mret result.

(** The argument check that precedes any use of the platform. *)
Definition arguments_valid (p : xnuxx_boot_platform W) (image : xnuxx_boot_image) : bool :=
  bool_decide (payload_size image <> 0
    /\ payload_size image <= XNUXX_BOOTLOADER_MAX_IMAGE_SIZE
    /\ is_Some (payload image) /\ is_Some (write_console p)).

Definition header_valid (image : xnuxx_boot_image) : bool :=
  bool_decide (magic image = XNUXX_BOOTLOADER_MAGIC
    /\ version image = XNUXX_BOOTLOADER_API_VERSION
    /\ sizeof_image <= header_size image
    /\ is_Some (signature image) /\ signature_size image <> 0
    /\ is_Some (expected_measurement image)).

Definition missing_capabilities (p : xnuxx_boot_platform W) (image : xnuxx_boot_image) : Z :=
  Z.land (required_capabilities image) (u64 (Z.lnot (capabilities p))).

(** The rollback check and the hand-off, which follow the measurement. *)
Definition boot_rollback_and_load (p : xnuxx_boot_platform W) (image : xnuxx_boot_image)
    (policy gen0 : Z) (data : list Z) : eff W xnuxx_boot_result :=
  match read_minimum_generation p with
  | Some read =>
    if decide (Z.land policy XNUXX_BOOT_REQUIRE_ROLLBACK_PROTECTION = 0)
    then boot_reject p BOOT_ROLLBACK_REJECTED else
    '(status, minimum) ← read gen0;
    if decide (status <> 0 \/ generation image < minimum)
    then boot_reject p BOOT_ROLLBACK_REJECTED else
    match load_kernel p with
    | Some load =>
      status ← load data (payload_size image);
      if decide (status <> 0) then boot_reject p BOOT_LOAD_FAILED else
      _ ← boot_log p MSG_DONE;
      _ ← (if ansi_console p then boot_log p ANSI_RESET else mret tt);
      mret BOOT_OK
    | None => boot_reject p BOOT_LOAD_FAILED
    end
  | None => boot_reject p BOOT_ROLLBACK_REJECTED
  end.

(** The measurement check, which follows the signature check. *)
Definition boot_measure (p : xnuxx_boot_platform W) (image : xnuxx_boot_image)
    (policy gen0 : Z) (stack data expected : list Z) : eff W xnuxx_boot_result :=
  match measure p with
  | Some meas =>
    if decide (Z.land policy XNUXX_BOOT_REQUIRE_MEASUREMENT = 0)
    then boot_reject p BOOT_MEASUREMENT_REJECTED else
    '(status, actual) ← meas data (payload_size image) stack;
    differs ← (if decide (status <> 0) then mret true
               else c ← eff_opt (boot_memcmp actual expected 32);
                    mret (bool_decide (c <> 0)));
    _ ← eff_opt (boot_memset actual 0 32);
    if (differs : bool) then boot_reject p BOOT_MEASUREMENT_REJECTED
    else boot_rollback_and_load p image policy gen0 data
  | None => boot_reject p BOOT_MEASUREMENT_REJECTED
  end.

(** [stack] and [gen0] are the uninitialised locals [actual_measurement] and
    [minimum_generation] whose addresses are passed to the callbacks. *)
Definition xnuxx_bootloader_start (p : option (xnuxx_boot_platform W))
    (image : option xnuxx_boot_image) (policy : Z) (stack : list Z) (gen0 : Z) :
    eff W xnuxx_boot_result :=
  match p, image with
  | Some p, Some image =>
    if negb (arguments_valid p image) then mret BOOT_INVALID_ARGUMENT else
    _ ← (if ansi_console p then boot_log p ANSI_BLUE_WHITE else mret tt);
    _ ← boot_log p MSG_BANNER;
    if negb (header_valid image) then boot_reject p BOOT_INVALID_IMAGE else
    if decide (Z.land policy XNUXX_BOOT_REQUIRE_LAYER_CAPABILITIES <> 0
               /\ missing_capabilities p image <> 0)
    then boot_reject p BOOT_CAPABILITY_REJECTED else
    match verify_signature p, payload image, signature image, expected_measurement image with
    | Some verify, Some data, Some sig, Some expected =>
      if decide (Z.land policy XNUXX_BOOT_REQUIRE_SIGNATURE = 0)
      then boot_reject p BOOT_SIGNATURE_REJECTED else
      verified ← verify data (payload_size image) sig (signature_size image);
      if decide (verified <> 0) then boot_reject p BOOT_SIGNATURE_REJECTED else
      boot_measure p image policy gen0 stack data expected
    | _, _, _, _ => boot_reject p BOOT_SIGNATURE_REJECTED
    end
  | _, _ => mret BOOT_INVALID_ARGUMENT
  end.
End Start.

(** ** Every platform, by its history *)

(** An invocation of a callback, with its arguments and its answer. *)
Inductive boot_event :=
| EvConsole (text : list Z) (n : Z)
| EvVerify (data : list Z) (size : Z) (sig : list Z) (sig_size : Z) (ret : Z)
| EvMeasure (data : list Z) (size : Z) (ret : Z) (digest : list Z)
| EvReadGen (ret gen : Z)
| EvLoad (data : list Z) (size : Z) (ret : Z)
| EvRecovery (result : xnuxx_boot_result) (ret : Z).

Definition is_load (e : boot_event) : bool := match e with EvLoad _ _ _ => true | _ => false end.
Definition is_recovery (e : boot_event) : bool :=
  match e with EvRecovery _ _ => true | _ => false end.
Definition is_console (e : boot_event) : bool :=
  match e with EvConsole _ _ => true | _ => false end.

(** The platform's answers, as functions of the invocations so far (in order). *)
Record boot_oracle := BootOracle {
  o_verify : list boot_event -> Z;
  o_measure : list boot_event -> Z * list Z;
  o_gen : list boot_event -> Z * Z;
  o_load : list boot_event -> Z;
  o_recovery : list boot_event -> xnuxx_boot_result -> Z }.

(** Which callbacks are present. *)
Record boot_hooks := BootHooks {
  has_verify : bool; has_measure : bool; has_gen : bool;
  has_load : bool; has_recovery : bool; has_console : bool }.

Definition logged {A} (ans : list boot_event -> A) (ev : A -> boot_event) : eff (list boot_event) A :=
  fun h => let a := ans h in Some (a, h ++ [ev a]).

Definition when {A} (b : bool) (x : A) : option A := if b then Some x else None.

Definition traced_platform (o : boot_oracle) (k : boot_hooks) (caps : Z) (ansi : bool) :
    xnuxx_boot_platform (list boot_event) :=
  BootPlatform caps ansi
    (when (has_verify k) (fun d n s sn => logged (o_verify o) (EvVerify d n s sn)))
    (when (has_measure k) (fun d n _ => logged (o_measure o) (fun a => EvMeasure d n a.1 a.2)))
    (when (has_gen k) (fun _ => logged (o_gen o) (fun a => EvReadGen a.1 a.2)))
    (when (has_load k) (fun d n => logged (o_load o) (EvLoad d n)))
    (when (has_recovery k) (fun r => logged (fun h => o_recovery o h r) (EvRecovery r)))
    (when (has_console k) (fun t n => logged (fun _ => tt) (fun _ => EvConsole t n))).

(** Shape of a measurement answer and of the expected measurement: 32 bytes. *)
Definition oracle_ok (o : boot_oracle) : Prop := forall h, length (o_measure o h).2 = 32%nat.
Definition image_ok (image : xnuxx_boot_image) : Prop :=
  forall m, expected_measurement image = Some m -> length m = 32%nat.

Section Traced.
Context (o : boot_oracle) (k : boot_hooks) (caps : Z) (ansi : bool) (sizeof_image : Z).
Context (image : xnuxx_boot_image) (policy : Z).
Let p := traced_platform o k caps ansi.

(** The console output before the first check, and the final output. *)
Definition console (text : list Z) : boot_event :=
  EvConsole text (Z.of_nat (length text) - 1).
Definition log_start : list boot_event :=
  (if ansi then [console ANSI_BLUE_WHITE] else []) ++ [console MSG_BANNER].
Definition log_end : list boot_event :=
  [console MSG_DONE] ++ (if ansi then [console ANSI_RESET] else []).

(** A rejection after history [h]. *)
Definition recovery (h : list boot_event) (r : xnuxx_boot_result) : list boot_event :=
  if has_recovery k then [EvRecovery r (o_recovery o h r)] else [].

Definition requires (bit : Z) : Prop := Z.land policy bit <> 0.
Definition capable : Prop :=
  requires XNUXX_BOOT_REQUIRE_LAYER_CAPABILITIES -> missing_capabilities p image = 0.

(** The histories in which the successive checks have passed. *)
Definition verified (d sig : list Z) (h : list boot_event) : Prop :=
  header_valid sizeof_image image = true /\ capable /\
  payload image = Some d /\ signature image = Some sig /\
  requires XNUXX_BOOT_REQUIRE_SIGNATURE /\
  h = log_start ++ [EvVerify d (payload_size image) sig (signature_size image) 0].
Definition measured (d m : list Z) (h : list boot_event) : Prop :=
  exists sig h0, verified d sig h0 /\ expected_measurement image = Some m /\
    requires XNUXX_BOOT_REQUIRE_MEASUREMENT /\
    h = h0 ++ [EvMeasure d (payload_size image) 0 m].
Definition fresh_enough (d m : list Z) (h : list boot_event) : Prop :=
  exists g h0, measured d m h0 /\ g <= generation image /\
    requires XNUXX_BOOT_REQUIRE_ROLLBACK_PROTECTION /\ h = h0 ++ [EvReadGen 0 g].

(** The possible outcomes, one per exit of the function: the result and the
    complete history. *)
Inductive outcome : xnuxx_boot_result -> list boot_event -> Prop :=
| out_arguments : arguments_valid p image = false -> outcome BOOT_INVALID_ARGUMENT []
| out_image : header_valid sizeof_image image = false ->
    outcome BOOT_INVALID_IMAGE (log_start ++ recovery log_start BOOT_INVALID_IMAGE)
| out_capability : ~ capable ->
    outcome BOOT_CAPABILITY_REJECTED
      (log_start ++ recovery log_start BOOT_CAPABILITY_REJECTED)
| out_unsigned : (requires XNUXX_BOOT_REQUIRE_SIGNATURE -> has_verify k = false) ->
    outcome BOOT_SIGNATURE_REJECTED (log_start ++ recovery log_start BOOT_SIGNATURE_REJECTED)
| out_signature d n s sn ret h : ret <> 0 -> ret = o_verify o log_start ->
    h = log_start ++ [EvVerify d n s sn ret] ->
    outcome BOOT_SIGNATURE_REJECTED (h ++ recovery h BOOT_SIGNATURE_REJECTED)
| out_unmeasured d s h :
    (requires XNUXX_BOOT_REQUIRE_MEASUREMENT -> has_measure k = false) -> verified d s h ->
    outcome BOOT_MEASUREMENT_REJECTED (h ++ recovery h BOOT_MEASUREMENT_REJECTED)
| out_measurement d s m ret m' h0 h : verified d s h0 -> expected_measurement image = Some m ->
    ret <> 0 \/ m' <> m -> o_measure o h0 = (ret, m') ->
    h = h0 ++ [EvMeasure d (payload_size image) ret m'] ->
    outcome BOOT_MEASUREMENT_REJECTED (h ++ recovery h BOOT_MEASUREMENT_REJECTED)
| out_unprotected d m h :
    (requires XNUXX_BOOT_REQUIRE_ROLLBACK_PROTECTION -> has_gen k = false) -> measured d m h ->
    outcome BOOT_ROLLBACK_REJECTED (h ++ recovery h BOOT_ROLLBACK_REJECTED)
| out_rollback d m ret g h0 h : measured d m h0 -> ret <> 0 \/ generation image < g ->
    o_gen o h0 = (ret, g) -> h = h0 ++ [EvReadGen ret g] ->
    outcome BOOT_ROLLBACK_REJECTED (h ++ recovery h BOOT_ROLLBACK_REJECTED)
| out_no_loader d m h : has_load k = false -> fresh_enough d m h ->
    outcome BOOT_LOAD_FAILED (h ++ recovery h BOOT_LOAD_FAILED)
| out_load_failed d m ret h0 h : fresh_enough d m h0 -> ret <> 0 -> ret = o_load o h0 ->
    h = h0 ++ [EvLoad d (payload_size image) ret] ->
    outcome BOOT_LOAD_FAILED (h ++ recovery h BOOT_LOAD_FAILED)
| out_ok d m h : fresh_enough d m h ->
    outcome BOOT_OK ((h ++ [EvLoad d (payload_size image) 0]) ++ log_end).

(** ** Histories and the loader *)

(** A history that reached the loader, in full. *)
Lemma fresh_enough_history d m h :
  fresh_enough d m h ->
  exists sig g, h = log_start ++
    [EvVerify d (payload_size image) sig (signature_size image) 0;
     EvMeasure d (payload_size image) 0 m; EvReadGen 0 g] /\
    signature image = Some sig /\ g <= generation image.
Proof.
  intros (g & h0 & (sig & h1 & (_ & _ & _ & Hs & _ & ->) & _ & _ & ->) & Hg & _ & ->).
  exists sig, g. by rewrite <-!app_assoc.
Qed.

(** Up to the loader only checks and console output occur. *)
Definition is_check (e : boot_event) : bool := negb (is_load e) && negb (is_recovery e).
Abbreviation checks := (Forall (fun e => is_check e = true)).

Lemma log_start_checks : checks log_start.
Proof. unfold log_start. destruct ansi; by repeat constructor. Qed.

Lemma log_end_checks : checks log_end.
Proof. unfold log_end. destruct ansi; by repeat constructor. Qed.

Lemma checks_snoc h e : checks h -> is_check e = true -> checks (h ++ [e]).
Proof. intros. apply Forall_app_2; [done|by apply Forall_singleton]. Qed.

Lemma verified_checks d s h : verified d s h -> checks h.
Proof. intros (_ & _ & _ & _ & _ & ->). apply checks_snoc; [apply log_start_checks|done]. Qed.

Lemma measured_checks d m h : measured d m h -> checks h.
Proof.
  intros (s & h0 & Hv & _ & _ & ->). apply checks_snoc; [by eapply verified_checks|done].
Qed.

Lemma fresh_enough_checks d m h : fresh_enough d m h -> checks h.
Proof.
  intros (g & h0 & Hm & _ & _ & ->). apply checks_snoc; [by eapply measured_checks|done].
Qed.

Lemma checks_no_load h e : checks h -> e ∈ h -> is_load e = true -> False.
Proof.
  rewrite Forall_forall. intros Hh He Hl. specialize (Hh e He). unfold is_check in Hh.
  by rewrite Hl in Hh.
Qed.

Lemma checks_no_recovery h : checks h -> filter (fun e => is_recovery e = true) h = [].
Proof.
  induction 1 as [|e h He _ IH]; [done|]. rewrite filter_cons, IH.
  unfold is_check in He. case_decide as Hr; [|done]. rewrite Hr, andb_false_r in He. done.
Qed.

(** The three kinds of outcome: invalid argument, rejection (after checks, and
    possibly a failed load), success. *)
Lemma outcome_kinds r tr :
  outcome r tr ->
  (r = BOOT_INVALID_ARGUMENT /\ tr = []) \/
  (r <> BOOT_INVALID_ARGUMENT /\ r <> BOOT_OK /\ exists h, checks h /\ tr = h ++ recovery h r) \/
  (exists d m h ret, fresh_enough d m h /\ let h' := h ++ [EvLoad d (payload_size image) ret] in
     (r = BOOT_LOAD_FAILED /\ ret <> 0 /\ tr = h' ++ recovery h' r) \/
     (r = BOOT_OK /\ ret = 0 /\ tr = h' ++ log_end)).
Proof.
  intros Hout. destruct Hout; subst; [by left|..];
    try (right; left; split; [done|]; split; [done|]; eexists; split; [|reflexivity];
         solve [eauto using log_start_checks, verified_checks, measured_checks, fresh_enough_checks
               |apply checks_snoc; [|reflexivity];
                eauto using log_start_checks, verified_checks, measured_checks]).
  - right. right. exists d, m, h0, (o_load o h0). split; [done|]. by left.
  - right. right. exists d, m, h, 0. split; [done|]. by right.
Qed.

Lemma recovery_no_load h r e : e ∈ recovery h r -> is_load e = true -> False.
Proof. unfold recovery. destruct (has_recovery k); set_solver. Qed.

(** Only the last kind has called the loader, once. *)
Lemma outcome_load r tr e :
  outcome r tr -> e ∈ tr -> is_load e = true ->
  exists d m h ret, fresh_enough d m h /\ e = EvLoad d (payload_size image) ret /\
    (ret = 0 <-> r = BOOT_OK) /\
    exists tl, tr = (h ++ [e]) ++ tl /\ Forall (fun e' => is_load e' = false) tl.
Proof.
  intros Hout He Hl. apply outcome_kinds in Hout
    as [[_ ->]|[(_ & _ & h & Hh & ->)|(d & m & h & ret & Hf & Hr)]].
  - by apply not_elem_of_nil in He.
  - apply elem_of_app in He as [He|He];
      [exfalso; by eapply checks_no_load|exfalso; by eapply recovery_no_load].
  - exists d, m, h, ret. split; [done|].
    pose proof (fresh_enough_checks _ _ _ Hf) as Hch.
    assert (forall tl, e ∈ (h ++ [EvLoad d (payload_size image) ret]) ++ tl ->
      (e ∈ tl -> False) -> e = EvLoad d (payload_size image) ret) as He'.
    { intros tl [[Hin|Hin]%elem_of_app|Hin]%elem_of_app Hno; [|by apply list_elem_of_singleton in Hin|done].
      exfalso. by eapply checks_no_load. }
    destruct Hr as [(-> & Hret & ->)|(-> & -> & ->)].
    + apply He' in He; [|intros ?; by eapply recovery_no_load]. subst e.
      split; [done|]. split; [naive_solver|]. eexists. split; [done|].
      apply Forall_forall. intros e' Hin. destruct (is_load e') eqn:E; [|done].
      exfalso. by eapply recovery_no_load.
    + apply He' in He; [|intros ?; eapply checks_no_load; [apply log_end_checks|done..]]. subst e.
      split; [done|]. split; [naive_solver|]. eexists. split; [done|].
      eapply Forall_impl; [apply log_end_checks|]. unfold is_check. intros e'.
      by destruct (is_load e').
Qed.

(** Recovery is entered at most once, last, and with the result. *)
Lemma outcome_recovery r tr :
  outcome r tr ->
  (r = BOOT_OK \/ r = BOOT_INVALID_ARGUMENT \/ has_recovery k = false ->
     filter (fun e => is_recovery e = true) tr = []) /\
  (r <> BOOT_OK -> r <> BOOT_INVALID_ARGUMENT -> has_recovery k = true ->
     exists h ret, tr = h ++ [EvRecovery r ret] /\
       filter (fun e => is_recovery e = true) h = []).
Proof.
  assert (forall h r, filter (fun e => is_recovery e = true) h = [] ->
    (has_recovery k = false -> filter (fun e => is_recovery e = true) (h ++ recovery h r) = []) /\
    (has_recovery k = true -> exists h' ret, h ++ recovery h r = h' ++ [EvRecovery r ret] /\
       filter (fun e => is_recovery e = true) h' = [])) as Hrec.
  { intros h r' Hh. unfold recovery. split; intros ->; [by rewrite app_nil_r|eauto]. }
  intros Hout. apply outcome_kinds in Hout
    as [[-> ->]|[(H1 & H2 & h & Hh & ->)|(d & m & h & ret & Hf & Hr)]]; [done| |].
  - apply checks_no_recovery in Hh. destruct (Hrec h r Hh). naive_solver.
  - assert (filter (fun e => is_recovery e = true) (h ++ [EvLoad d (payload_size image) ret]) = [])
      as Hh by (rewrite filter_app, checks_no_recovery by (by eapply fresh_enough_checks); done).
    destruct Hr as [(-> & Hret & ->)|(-> & -> & ->)].
    + destruct (Hrec _ BOOT_LOAD_FAILED Hh). naive_solver.
    + rewrite filter_app, Hh, checks_no_recovery by apply log_end_checks. naive_solver.
Qed.

(** ** Every run ends in one of the outcomes *)

Context (stack : list Z) (gen0 : Z) (Ho : oracle_ok o) (Himg : image_ok image).
Let run := xnuxx_bootloader_start sizeof_image (Some p) (Some image) policy stack gen0.

Lemma boot_memcmp_32 h m :
  expected_measurement image = Some m ->
  exists c, boot_memcmp (o_measure o h).2 m 32 = Some c /\
            (c = 0 <-> (o_measure o h).2 = m).
Proof.
  intros Hm. pose proof (Ho h) as H1. pose proof (Himg m Hm) as H2.
  rewrite boot_memcmp_eq, memcmp_spec by lia. eexists. split; [done|].
  rewrite !take_ge by lia. apply lex_compare_eq. lia.
Qed.

Lemma boot_reject_run h r :
  boot_reject p r h = Some (r, h ++ recovery h r).
Proof.
  unfold boot_reject, boot_fail, recovery, p. simpl. unfold when.
  destruct (has_recovery k); simpl; [done|]. by rewrite app_nil_r.
Qed.

Lemma boot_log_run h text :
  has_console k = true -> boot_strlen text = Some (Z.of_nat (length text) - 1) ->
  boot_log p text h = Some (tt, h ++ [console text]).
Proof.
  intros Hk Hn. unfold boot_log, p. simpl. unfold when. rewrite Hk.
  rewrite eff_bind_unfold. unfold eff_opt. rewrite Hn. done.
Qed.

Lemma log_start_run {A} (c : eff (list boot_event) A) :
  has_console k = true ->
  (_ ← (if ansi then boot_log p ANSI_BLUE_WHITE else mret tt);
   _ ← boot_log p MSG_BANNER; c) [] = c log_start.
Proof.
  intros Hk. unfold log_start. generalize ansi at 1 2. intros [|]; rewrite !eff_bind_unfold.
  - rewrite boot_log_run by done. cbn [mbind option_bind].
    rewrite eff_bind_unfold, boot_log_run by done. done.
  - cbn [mret eff_ret mbind option_bind].
    rewrite eff_bind_unfold, boot_log_run by done. done.
Qed.

Lemma log_end_run h :
  has_console k = true ->
  (_ ← boot_log p MSG_DONE;
   _ ← (if ansi then boot_log p ANSI_RESET else mret tt);
   mret BOOT_OK) h = Some (BOOT_OK, h ++ log_end).
Proof.
  intros Hk. unfold log_end. rewrite eff_bind_unfold, boot_log_run by done.
  cbn [mbind option_bind]. rewrite eff_bind_unfold. generalize ansi at 1 2. intros [|].
  - rewrite boot_log_run by done. cbn. by rewrite <-!app_assoc.
  - done.
Qed.

Lemma p_verify_signature : verify_signature p =
  when (has_verify k) (fun d n s sn => logged (o_verify o) (EvVerify d n s sn)).
Proof. reflexivity. Qed.
Lemma p_measure : measure p =
  when (has_measure k) (fun d n _ => logged (o_measure o) (fun a => EvMeasure d n a.1 a.2)).
Proof. reflexivity. Qed.
Lemma p_read_minimum_generation : read_minimum_generation p =
  when (has_gen k) (fun _ => logged (o_gen o) (fun a => EvReadGen a.1 a.2)).
Proof. reflexivity. Qed.
Lemma p_load_kernel : load_kernel p =
  when (has_load k) (fun d n => logged (o_load o) (EvLoad d n)).
Proof. reflexivity. Qed.

Lemma bind_logged {A B} (ans : list boot_event -> A) ev (c : A -> eff (list boot_event) B) h :
  (x ← logged ans ev; c x) h = c (ans h) (h ++ [ev (ans h)]).
Proof. reflexivity. Qed.

(** Solve a rejection exit with the given constructor of [outcome]. *)
Ltac reject := rewrite boot_reject_run; eexists _, _; split; [reflexivity|].

Definition finishes (c : eff (list boot_event) xnuxx_boot_result) (h : list boot_event) : Prop :=
  exists r tr, c h = Some (r, tr) /\ outcome r tr.

Lemma rollback_and_load_outcome d m h :
  has_console k = true -> measured d m h ->
  finishes (boot_rollback_and_load p image policy gen0 d) h.
Proof.
  intros Hc Hmea. unfold finishes, boot_rollback_and_load.
  rewrite p_read_minimum_generation. unfold when.
  destruct (has_gen k) eqn:Hg; [|reject; by eapply out_unprotected].
  case_decide; [reject; by eapply out_unprotected|].
  rewrite bind_logged.
  destruct (o_gen o h) as [gret g] eqn:Hog. simpl fst. simpl snd.
  case_decide as Hgen; [reject; by eapply out_rollback|].
  assert (gret = 0 /\ g <= generation image) as [-> Hle] by lia. set (h3 := h ++ _).
  assert (fresh_enough d m h3) as Hfre by (exists g, h; done). clearbody h3.
  rewrite p_load_kernel. unfold when.
  destruct (has_load k) eqn:Hlk; [|reject; by eapply out_no_loader].
  rewrite bind_logged.
  case_decide as Hlr; [reject; by eapply out_load_failed|].
  change (ansi_console p) with ansi. rewrite Hlr, log_end_run by done.
  eexists _, _. split; [reflexivity|]. by eapply out_ok.
Qed.

Lemma measure_outcome d sig m h :
  has_console k = true -> verified d sig h -> expected_measurement image = Some m ->
  finishes (boot_measure p image policy gen0 stack d m) h.
Proof.
  intros Hc Hver Hm. unfold finishes, boot_measure. rewrite p_measure. unfold when.
  destruct (has_measure k) eqn:Hme; [|reject; by eapply out_unmeasured].
  case_decide; [reject; by eapply out_unmeasured|].
  rewrite bind_logged.
  destruct (boot_memcmp_32 h m Hm) as (c & Hcmp & Hc0). pose proof (Ho h) as Hl.
  destruct (o_measure o h) as [ret m'] eqn:Hom. simpl in Hcmp, Hc0, Hl. simpl fst. simpl snd.
  rewrite boot_memset_spec by (done || lia). case_decide as Hret.
  - rewrite eff_bind_ret, eff_bind_opt. reject. eapply out_measurement; [done..| |done|done]. by left.
  - rewrite Hcmp, (eff_bind_run _ _ _ _ (bool_decide (c <> 0)) eq_refl), eff_bind_opt.
    case_bool_decide as Hd.
    + reject. eapply out_measurement; [done..| |done|done]. right. naive_solver.
    + apply (rollback_and_load_outcome d m); [done|]. exists sig, h. naive_solver.
Qed.

Lemma bootloader_outcome : finishes run [].
Proof.
  unfold finishes, run, xnuxx_bootloader_start.
  destruct (arguments_valid p image) eqn:Hav; cbn [negb];
    [|eexists _, _; split; [reflexivity|by constructor]].
  pose proof Hav as (_ & _ & [d Hd] & [wc Hwc])%bool_decide_eq_true.
  assert (has_console k = true) as Hc by (unfold p in Hwc; simpl in Hwc; by destruct (has_console k)).
  change (ansi_console p) with ansi. rewrite log_start_run by done.
  destruct (header_valid sizeof_image image) eqn:Hhv; cbn [negb]; [|reject; by constructor].
  pose proof Hhv as (_ & _ & _ & [sig Hsig] & _ & [m Hm])%bool_decide_eq_true.
  case_decide as Hcap; [reject; apply out_capability; unfold capable, requires; tauto|].
  assert capable as Hcapable.
  { unfold capable, requires. intros ?. destruct (decide (missing_capabilities p image = 0)); tauto. }
  clear Hcap. rewrite Hd, Hsig, Hm, p_verify_signature. unfold when.
  destruct (has_verify k) eqn:Hv; [|reject; by apply out_unsigned].
  case_decide; [reject; by apply out_unsigned|].
  rewrite bind_logged.
  case_decide as Hret; [reject; by eapply out_signature|]. rewrite Hret.
  by apply (measure_outcome d sig).
Qed.
End Traced.

(** C1.  The kernel is loaded only after every check has passed, in order, on the
    payload that is loaded.  Whatever the platform answers, if [load_kernel] is
    called then the image header is well formed, the policy demands signature,
    measurement and rollback protection, required capabilities are present, and
    the complete history is: the signature check of this payload succeeded, its
    measurement succeeded and equals the expected one, the stored minimum
    generation does not exceed the image's, then the one call to the loader. *)
Theorem load_kernel_only_verified o k caps ansi sz image policy stack gen0 r tr d n ret :
  oracle_ok o -> image_ok image ->
  xnuxx_bootloader_start sz (Some (traced_platform o k caps ansi)) (Some image)
    policy stack gen0 [] = Some (r, tr) ->
  EvLoad d n ret ∈ tr ->
  header_valid sz image = true /\
  Z.land policy XNUXX_BOOT_REQUIRE_SIGNATURE <> 0 /\
  Z.land policy XNUXX_BOOT_REQUIRE_MEASUREMENT <> 0 /\
  Z.land policy XNUXX_BOOT_REQUIRE_ROLLBACK_PROTECTION <> 0 /\
  (Z.land policy XNUXX_BOOT_REQUIRE_LAYER_CAPABILITIES <> 0 ->
     Z.land (required_capabilities image) (u64 (Z.lnot caps)) = 0) /\
  payload image = Some d /\ n = payload_size image /\
  exists sig m g tl,
    signature image = Some sig /\ expected_measurement image = Some m /\
    g <= generation image /\
    tr = log_start ansi ++
      [EvVerify d n sig (signature_size image) 0; EvMeasure d n 0 m; EvReadGen 0 g; EvLoad d n ret]
      ++ tl /\
    Forall (fun e => is_load e = false) tl.
Proof.
  intros Ho Himg Hrun Hin.
  destruct (bootloader_outcome o k caps ansi sz image policy stack gen0 Ho Himg)
    as (r' & tr' & Hrun' & Hout). simplify_eq.
  destruct (outcome_load o k caps ansi sz image policy _ _ _ Hout Hin eq_refl)
    as (d' & m & h & ret' & Hf & Heq & _ & tl & -> & Htl).
  injection Heq as -> -> ->.
  destruct (fresh_enough_history o k caps ansi sz image policy _ _ _ Hf)
    as (sig & g & -> & Hsig & Hg).
  destruct Hf as (_ & _ & (sg & h1 & (Hh & Hcap & Hd & _ & Hp1 & _) & Hm & Hp2 & _) & _ & Hp3 & _).
  do 7 (split; [done|]). exists sig, m, g, tl. by rewrite <-!app_assoc.
Qed.

(** C16.  Every run ends, with a result that tells what happened: the result is
    [BOOT_OK] exactly when the loader was called and succeeded; an invalid
    argument touches nothing; every other result has invoked the recovery
    callback (when there is one) exactly once, last, and with that result. *)
Theorem bootloader_result_sound o k caps ansi sz image policy stack gen0 :
  oracle_ok o -> image_ok image ->
  exists r tr,
    xnuxx_bootloader_start sz (Some (traced_platform o k caps ansi)) (Some image)
      policy stack gen0 [] = Some (r, tr) /\
    (r = BOOT_OK <-> exists d n, EvLoad d n 0 ∈ tr) /\
    (r = BOOT_INVALID_ARGUMENT -> tr = []) /\
    (r = BOOT_OK \/ r = BOOT_INVALID_ARGUMENT \/ has_recovery k = false ->
       filter (fun e => is_recovery e = true) tr = []) /\
    (r <> BOOT_OK -> r <> BOOT_INVALID_ARGUMENT -> has_recovery k = true ->
       exists h ret, tr = h ++ [EvRecovery r ret] /\
         filter (fun e => is_recovery e = true) h = []).
Proof.
  intros Ho Himg.
  destruct (bootloader_outcome o k caps ansi sz image policy stack gen0 Ho Himg)
    as (r & tr & Hrun & Hout).
  exists r, tr. split; [done|].
  destruct (outcome_recovery o k caps ansi sz image policy _ _ Hout) as [Hr1 Hr2].
  split; [|split; [|split; [exact Hr1|exact Hr2]]].
  - split.
    + intros ->. apply outcome_kinds in Hout
        as [[? _]|[(_ & ? & _)|(d & m & h & ret & Hf & [(? & _)|(_ & -> & ->)])]]; [done..|].
      exists d, (payload_size image). set_solver.
    + intros (d & n & Hin).
      destruct (outcome_load o k caps ansi sz image policy _ _ _ Hout Hin eq_refl)
        as (d' & m & h & ret & _ & Heq & Hok & _). injection Heq as -> -> <-. by apply Hok.
  - intros ->. apply outcome_kinds in Hout
      as [[_ ->]|[(? & _)|(d & m & h & ret & Hf & [(? & _)|(? & _)])]]; done.
Qed.

(**  The checks are not stricter than intended: when the arguments and the
    header are valid, the policy asks for the three mandatory protections, the
    required capabilities are provided, all callbacks exist and each one succeeds
    (the measurement being the expected one and the stored generation not newer
    than the image's), the bootloader loads the kernel and returns [BOOT_OK]. *)
Theorem bootloader_accepts o k caps ansi sz image policy stack gen0 m :
  oracle_ok o -> image_ok image ->
  arguments_valid (traced_platform o k caps ansi) image = true ->
  header_valid sz image = true ->
  Z.land policy XNUXX_BOOT_REQUIRE_SIGNATURE <> 0 ->
  Z.land policy XNUXX_BOOT_REQUIRE_MEASUREMENT <> 0 ->
  Z.land policy XNUXX_BOOT_REQUIRE_ROLLBACK_PROTECTION <> 0 ->
  Z.land (required_capabilities image) (u64 (Z.lnot caps)) = 0 ->
  has_verify k = true -> has_measure k = true -> has_gen k = true -> has_load k = true ->
  expected_measurement image = Some m ->
  (forall h, o_verify o h = 0) -> (forall h, o_measure o h = (0, m)) ->
  (forall h, (o_gen o h).1 = 0 /\ (o_gen o h).2 <= generation image) ->
  (forall h, o_load o h = 0) ->
  exists tr, xnuxx_bootloader_start sz (Some (traced_platform o k caps ansi)) (Some image)
    policy stack gen0 [] = Some (BOOT_OK, tr).
Proof.
  intros Ho Himg Hav Hhv Hp1 Hp2 Hp3 Hcap Hk1 Hk2 Hk3 Hk4 Hm Hv Hme Hg Hl.
  destruct (bootloader_outcome o k caps ansi sz image policy stack gen0 Ho Himg)
    as (r & tr & Hrun & Hout).
  assert (r = BOOT_OK) as ->; [|by exists tr].
  destruct Hout as [|?|Hnc|Hu|?????????|??? Hu|????????? Hd Hom|??? Hu|?????? _ Hd Hog|?????|????????|];
    subst; try congruence; exfalso.
  - apply Hnc. by intros _.
  - by rewrite Hu in Hk1.
  - by rewrite Hu in Hk2.
  - rewrite Hme in Hom. naive_solver.
  - by rewrite Hu in Hk3.
  - destruct (Hg h0) as [Hg1 Hg2]. rewrite Hog in Hg1, Hg2. simpl in *. lia.
Qed.

(** ** A concrete platform *)

Definition demo_oracle : boot_oracle :=
  BootOracle (fun _ => 0) (fun _ => (0, replicate 32 7)) (fun _ => (0, 3)) (fun _ => 0)
    (fun _ _ => -1).
Definition demo_hooks : boot_hooks := BootHooks true true true true true true.
Definition demo_image : xnuxx_boot_image :=
  BootImage XNUXX_BOOTLOADER_MAGIC XNUXX_BOOTLOADER_API_VERSION (sizeof_boot_image I386) 3
    XNUXX_BOOT_CAP_KERNEL_PROVIDER (Some [1; 2; 3]) 3 (Some [86; 77]) 2 (Some (replicate 32 7)).
Definition demo_platform : xnuxx_boot_platform (list boot_event) :=
  traced_platform demo_oracle demo_hooks 31 true.
Definition demo_trace : list boot_event :=
  log_start true ++
    [EvVerify [1; 2; 3] 3 [86; 77] 2 0; EvMeasure [1; 2; 3] 3 0 (replicate 32 7);
     EvReadGen 0 3; EvLoad [1; 2; 3] 3 0] ++ log_end true.

Lemma demo_oracle_ok : oracle_ok demo_oracle.
Proof. by intros h. Qed.

Lemma demo_image_ok : image_ok demo_image.
Proof. by intros m [= <-]. Qed.

Lemma load_kernel_only_verified_witness :
  xnuxx_bootloader_start 44 (Some demo_platform) (Some demo_image) 23 [] 0 [] =
    Some (BOOT_OK, demo_trace) /\
  header_valid 44 demo_image = true.
Proof.
  split; [vm_compute; reflexivity|].
  refine (proj1 (load_kernel_only_verified demo_oracle demo_hooks 31 true 44 demo_image 23 [] 0
    BOOT_OK demo_trace [1; 2; 3] 3 0 demo_oracle_ok demo_image_ok _ _));
    [vm_compute; reflexivity|].
  apply list_elem_of_lookup. by exists 5%nat.
Defined.

(** With a generation older than the stored one the image is rejected. *)
Lemma bootloader_result_sound_witness :
  exists r tr, xnuxx_bootloader_start 44 (Some demo_platform)
    (Some (BootImage XNUXX_BOOTLOADER_MAGIC XNUXX_BOOTLOADER_API_VERSION 44 2 0
       (Some [1; 2; 3]) 3 (Some [86; 77]) 2 (Some (replicate 32 7)))) 23 [] 0 [] = Some (r, tr)
    /\ r = BOOT_ROLLBACK_REJECTED.
Proof.
  destruct (bootloader_result_sound demo_oracle demo_hooks 31 true 44
    (BootImage XNUXX_BOOTLOADER_MAGIC XNUXX_BOOTLOADER_API_VERSION 44 2 0
       (Some [1; 2; 3]) 3 (Some [86; 77]) 2 (Some (replicate 32 7))) 23 [] 0 demo_oracle_ok)
    as (r & tr & Hrun & _); [by intros m [= <-]|].
  exists r, tr. split; [exact Hrun|].
  vm_compute in Hrun. by injection Hrun as <- _.
Defined.

Lemma bootloader_accepts_witness :
  exists tr, xnuxx_bootloader_start 44 (Some demo_platform) (Some demo_image) 7 [] 0 [] =
    Some (BOOT_OK, tr).
Proof.
  apply (bootloader_accepts demo_oracle demo_hooks 31 true 44 demo_image 7 [] 0 (replicate 32 7)
    demo_oracle_ok demo_image_ok); try (vm_compute; reflexivity); try (vm_compute; discriminate).
  intros h. split; vm_compute; [reflexivity|discriminate].
Defined.
