(* ===== verification/Console.v ===== *)
(** * The VGA text console ([src/kernel/kernel.c])

    The 80 x 25 text buffer at [0xB8000], the cursor and the colour are a record;
    every store is bounds checked, so that a result [Some] also says that the
    code stays inside the buffer.  The specification is a teletype: paper with
    an unbounded number of rows, of which the screen shows the last 25. *)
From S2P Require Import Prelude.

Local Open Scope Z_scope.

Definition VGA_WIDTH : nat := 80.
Definition VGA_HEIGHT : nat := 25.

(** The statics [vga], [cursor_x], [cursor_y] and [terminal_color]. *)
Record terminal := Terminal {
  vga : list Z;
  cursor_x : Z;
  cursor_y : Z;
  terminal_color : Z
}.

Definition vga_entry (c color : Z) : Z := u16 (Z.lor c (Z.shiftl color 8)).

Definition vga_store (t : terminal) (i v : Z) : option terminal :=
  g ← zset (vga t) i v; Some (Terminal g (cursor_x t) (cursor_y t) (terminal_color t)).

Definition set_cursor (t : terminal) (x y : Z) : terminal :=
  Terminal (vga t) x y (terminal_color t).

Definition terminal_clear (t : terminal) : option terminal :=
  t ← for_range VGA_HEIGHT (fun y => for_range VGA_WIDTH (fun x t =>
        vga_store t (Z.of_nat y * 80 + Z.of_nat x) (vga_entry 32 (terminal_color t)))) t;
  Some (set_cursor t 0 0).

Definition scroll_cell (y x : Z) (t : terminal) : option terminal :=
  v ← zget (vga t) (y * 80 + x);
  vga_store t ((y - 1) * 80 + x) v.

(** The outer loop of the copy runs over [y = 1 .. 24]. *)
Definition terminal_scroll (t : terminal) : option terminal :=
  if decide (cursor_y t < Z.of_nat VGA_HEIGHT) then Some t else
  t ← for_range (VGA_HEIGHT - 1) (fun y => for_range VGA_WIDTH (fun x t =>
        scroll_cell (Z.of_nat y + 1) (Z.of_nat x) t)) t;
  t ← for_range VGA_WIDTH (fun x t =>
        vga_store t ((25 - 1) * 80 + Z.of_nat x) (vga_entry 32 (terminal_color t))) t;
  Some (set_cursor t (cursor_x t) (25 - 1)).

Definition terminal_putchar (c : Z) (t : terminal) : option terminal :=
  if decide (c = 10) then terminal_scroll (set_cursor t 0 (cursor_y t + 1)) else
  if decide (c = 13) then Some (set_cursor t 0 (cursor_y t)) else
  if decide (c = 8) then
    if decide (0 < cursor_x t) then
      let t := set_cursor t (cursor_x t - 1) (cursor_y t) in
      vga_store t (cursor_y t * 80 + cursor_x t) (vga_entry 32 (terminal_color t))
    else Some t
  else
  t ← vga_store t (cursor_y t * 80 + cursor_x t) (vga_entry c (terminal_color t));
  let t := set_cursor t (cursor_x t + 1) (cursor_y t) in
  let t := if decide (Z.of_nat VGA_WIDTH <= cursor_x t)
           then set_cursor t 0 (cursor_y t + 1) else t in
  terminal_scroll t.

(** [text] is the object the pointer points into; its end without a NUL is a
    read outside the object. *)
Fixpoint terminal_write_loop (text : list Z) (t : terminal) : option terminal :=
  match text with
  | [] => None
  | c :: text' =>
      if decide (c = 0) then Some t
      else t ← terminal_putchar c t; terminal_write_loop text' t
  end.

Definition terminal_write (text : option (list Z)) (t : terminal) : option terminal :=
  match text with
  | None => Some t
  | Some text => terminal_write_loop text t
  end.

Definition hex_digits : list Z := c_string "0123456789ABCDEF".

Definition terminal_hex (value : Z) (t : terminal) : option terminal :=
  t ← terminal_write (Some (c_string "0x")) t;
  for_range 8 (fun k t =>
    let i := 7 - Z.of_nat k in
    d ← zget hex_digits (Z.land (Z.shiftr value (i * 4)) 15);
    terminal_putchar d t) t.

(** The two loops of [terminal_uint]; [fuel] bounds the iterations, the buffer
    of ten characters making eleven tests of the condition enough. *)
Fixpoint uint_digits (fuel : nat) (value : Z) (buffer : list Z) (count : Z)
    : option (list Z * Z) :=
  match fuel with
  | O => None
  | S fuel =>
      if decide (value <> 0 /\ count < 10) then
        buffer ← zset buffer count (48 + value mod 10);
        uint_digits fuel (value / 10) buffer (count + 1)
      else Some (buffer, count)
  end.

Fixpoint uint_print (count : nat) (buffer : list Z) (t : terminal) : option terminal :=
  match count with
  | O => Some t
  | S count =>
      c ← zget buffer (Z.of_nat count);
      t ← terminal_putchar c t;
      uint_print count buffer t
  end.

Definition terminal_uint (value : Z) (t : terminal) : option terminal :=
  if decide (value = 0) then terminal_putchar 48 t else
  '(buffer, count) ← uint_digits 11 value (replicate 10 0) 0;
  uint_print (Z.to_nat count) buffer t.

(** Several characters in a row. *)
Fixpoint put_all (cs : list Z) (t : terminal) : option terminal :=
  match cs with
  | [] => Some t
  | c :: cs => t ← terminal_putchar c t; put_all cs t
  end.

(** ** The teletype *)

(** [rows] is all that was printed, each row of 80 cells, with blank rows up to
    the height of the screen; [prow] and [pcol] the position of the head. *)
Record paper := Paper { rows : list (list Z); prow : nat; pcol : nat }.

Definition blank_row (color : Z) : list Z := replicate VGA_WIDTH (vga_entry 32 color).

Definition paper_feed (color : Z) (p : paper) : paper :=
  Paper (if decide (S (prow p) < length (rows p))%nat then rows p
         else rows p ++ [blank_row color]) (S (prow p)) 0.

Definition paper_type (v : Z) (p : paper) : paper :=
  Paper (alter (<[pcol p := v]>) (prow p) (rows p)) (prow p) (pcol p).

Definition paper_move (x : nat) (p : paper) : paper := Paper (rows p) (prow p) x.

Definition paper_put (color c : Z) (p : paper) : paper :=
  if decide (c = 10) then paper_feed color p else
  if decide (c = 13) then paper_move 0 p else
  if decide (c = 8) then
    match pcol p with
    | O => p
    | S x => paper_type (vga_entry 32 color) (paper_move x p)
    end
  else
    let p := paper_type (vga_entry c color) p in
    if decide (S (pcol p) < VGA_WIDTH)%nat then paper_move (S (pcol p)) p
    else paper_feed color p.

Definition paper_ok (p : paper) : Prop :=
  Forall (fun r => length r = VGA_WIDTH) (rows p) /\
  (VGA_HEIGHT <= length (rows p) /\ prow p < length (rows p) <= prow p + VGA_HEIGHT /\
   pcol p < VGA_WIDTH)%nat.

(** The rows that have scrolled off, and the screen's view of the paper. *)
Definition hidden (p : paper) : nat := (length (rows p) - VGA_HEIGHT)%nat.

Definition shows (t : terminal) (p : paper) : Prop :=
  vga t = concat (drop (hidden p) (rows p)) /\
  cursor_x t = Z.of_nat (pcol p) /\ cursor_y t = Z.of_nat (prow p - hidden p).

(** ** Lemmas on screens *)

Lemma concat_length_uniform {A} (w : nat) (rs : list (list A)) :
  Forall (fun r => length r = w) rs -> length (concat rs) = (length rs * w)%nat.
Proof. induction 1; simpl; [done|]. rewrite length_app. lia. Qed.

Lemma concat_insert_uniform {A} (w : nat) (rs : list (list A)) y x v :
  Forall (fun r => length r = w) rs -> (y < length rs)%nat -> (x < w)%nat ->
  <[(y * w + x)%nat := v]> (concat rs) = concat (alter (<[x := v]>) y rs).
Proof.
  intros Hrs. revert y. induction Hrs as [|r rs Hr Hrs IH]; intros y Hy Hx; simpl in *; [lia|].
  destruct y as [|y]; simpl.
  - by rewrite insert_app_l by lia.
  - replace (w + y * w + x)%nat with (length r + (y * w + x))%nat by lia.
    rewrite insert_app_r. f_equal. apply IH; lia.
Qed.

Lemma vga_store_ok t (i : nat) v :
  (i < length (vga t))%nat ->
  vga_store t (Z.of_nat i) v =
    Some (Terminal (<[i := v]> (vga t)) (cursor_x t) (cursor_y t) (terminal_color t)).
Proof. intros Hi. unfold vga_store. by rewrite zset_nat. Qed.

(** The state of a loop that has filled the first [k] cells from [src]. *)
Definition filled (t : terminal) (src : nat -> option Z) (base k : nat) (t' : terminal) : Prop :=
  length (vga t') = length (vga t) /\
  (forall i, vga t' !! i =
     if decide (base <= i < base + k)%nat then src i else vga t !! i) /\
  cursor_x t' = cursor_x t /\ cursor_y t' = cursor_y t /\ terminal_color t' = terminal_color t.

Lemma filled_0 t src base : filled t src base 0 t.
Proof. repeat split. intros i. by rewrite decide_False by lia. Qed.

Lemma filled_S t src base k t' v :
  filled t src base k t' -> (base + k < length (vga t))%nat -> src (base + k)%nat = Some v ->
  exists t'', vga_store t' (Z.of_nat (base + k)) v = Some t'' /\ filled t src base (S k) t''.
Proof.
  intros (Hlen & Hl & Hx & Hy & Hc) Hk Hv. rewrite vga_store_ok by lia.
  eexists. split; [done|]. repeat split; simpl; try done.
  - by rewrite length_insert.
  - intros i. destruct (decide (i = base + k)%nat) as [->|Hne].
    + rewrite list_lookup_insert_eq by lia. by rewrite decide_True by lia.
    + rewrite list_lookup_insert_ne by done. rewrite Hl.
      repeat case_decide; try done; lia.
Qed.

Lemma terminal_clear_filled t :
  length (vga t) = 2000%nat ->
  terminal_clear t = Some (Terminal (replicate 2000 (vga_entry 32 (terminal_color t))) 0 0
    (terminal_color t)).
Proof.
  intros Hlen. unfold terminal_clear.
  destruct (for_rect_inv (filled t (fun _ => Some (vga_entry 32 (terminal_color t))) 0)
    VGA_HEIGHT VGA_WIDTH (fun y x t =>
      vga_store t (Z.of_nat y * 80 + Z.of_nat x) (vga_entry 32 (terminal_color t))) t
    (filled_0 _ _ _)) as (t' & -> & Hl & Hf & _ & _ & Hc).
  - unfold VGA_HEIGHT, VGA_WIDTH. intros y x t0 Hy Hx Ht0.
    replace (Z.of_nat y * 80 + Z.of_nat x) with (Z.of_nat (0 + (y * 80 + x))) by lia.
    apply filled_S; [done|lia|]. by destruct Ht0 as (_ & _ & _ & _ & ->).
  - rewrite bind_some. unfold set_cursor. rewrite Hc. do 2 f_equal.
    apply list_eq. intros i. rewrite Hf. unfold VGA_HEIGHT, VGA_WIDTH.
    case_decide.
    + by rewrite lookup_replicate_2 by lia.
    + rewrite !lookup_ge_None_2; rewrite ?length_replicate; [done|lia|lia].
Qed.

(** The copy of [terminal_scroll] reads the row below before it is overwritten. *)
Lemma terminal_scroll_copy t :
  length (vga t) = 2000%nat ->
  exists t', for_range (VGA_HEIGHT - 1) (fun y => for_range VGA_WIDTH (fun x t =>
        scroll_cell (Z.of_nat y + 1) (Z.of_nat x) t)) t = Some t' /\
    filled t (fun i => vga t !! (i + 80)%nat) 0 1920 t'.
Proof.
  intros Hlen.
  apply (for_rect_inv (filled t (fun i => vga t !! (i + 80)%nat) 0) 24 80 (fun y x t =>
        scroll_cell (Z.of_nat y + 1) (Z.of_nat x) t) t (filled_0 _ _ _)).
  intros y x t0 Hy Hx Ht0. unfold scroll_cell.
  replace ((Z.of_nat y + 1) * 80 + Z.of_nat x) with (Z.of_nat (y * 80 + x + 80)) by lia.
  replace ((Z.of_nat y + 1 - 1) * 80 + Z.of_nat x) with (Z.of_nat (0 + (y * 80 + x))) by lia.
  destruct (lookup_lt_is_Some_2 (vga t) (y * 80 + x + 80)) as [v Hv]; [lia|].
  pose proof Ht0 as (_ & Hf & _). rewrite zget_nat, Hf.
  rewrite decide_False by lia. rewrite Hv, bind_some.
  apply filled_S; [done|lia|done].
Qed.

Lemma terminal_scroll_top t :
  length (vga t) = 2000%nat -> cursor_y t = 25 ->
  terminal_scroll t = Some (Terminal (drop 80 (vga t) ++ blank_row (terminal_color t))
    (cursor_x t) 24 (terminal_color t)).
Proof.
  intros Hlen Hy. unfold terminal_scroll. rewrite decide_False by (unfold VGA_HEIGHT; lia).
  destruct (terminal_scroll_copy t Hlen) as (t1 & -> & Hl1 & Hf1 & Hx1 & Hy1 & Hc1).
  rewrite bind_some.
  destruct (for_range_inv (filled t1 (fun _ => Some (vga_entry 32 (terminal_color t))) 1920)
    VGA_WIDTH (fun x t => vga_store t ((25 - 1) * 80 + Z.of_nat x)
      (vga_entry 32 (terminal_color t))) t1 (filled_0 _ _ _))
    as (t2 & -> & Hl2 & Hf2 & Hx2 & Hy2 & Hc2).
  - unfold VGA_WIDTH. intros x t0 Hx Ht0.
    replace ((25 - 1) * 80 + Z.of_nat x) with (Z.of_nat (1920 + x)) by lia.
    apply filled_S; [done|lia|]. destruct Ht0 as (_ & _ & _ & _ & ->). by rewrite Hc1.
  - rewrite bind_some. unfold set_cursor. rewrite Hx2, Hx1, Hc2, Hc1. do 2 f_equal.
    apply list_eq. intros i. rewrite Hf2, Hf1. unfold VGA_WIDTH.
    destruct (decide (1920 <= i)%nat).
    + rewrite lookup_app_r by (rewrite length_drop; lia). rewrite length_drop, Hlen.
      unfold blank_row. case_decide.
      * rewrite lookup_replicate_2; [done|unfold VGA_WIDTH; lia].
      * rewrite decide_False by lia.
        rewrite !lookup_ge_None_2; [done|rewrite length_replicate; unfold VGA_WIDTH; lia|lia].
    + rewrite lookup_app_l by (rewrite length_drop; lia). rewrite lookup_drop.
      rewrite decide_False by lia. rewrite decide_True by lia. f_equal. lia.
Qed.

(** ** The screen shows the teletype's last rows *)

Lemma shows_length t p : shows t p -> paper_ok p -> length (vga t) = 2000%nat.
Proof.
  intros (-> & _) (Hrs & Hr). unfold VGA_HEIGHT in *.
  rewrite (concat_length_uniform 80) by (by apply Forall_drop).
  rewrite length_drop. unfold hidden, VGA_HEIGHT. lia.
Qed.

Lemma Forall_alter_same {A} (P : A -> Prop) f i (l : list A) :
  Forall P l -> (forall x, P x -> P (f x)) -> Forall P (alter f i l).
Proof. intros. apply Forall_alter; [done|]. intros x _ Hx. auto. Qed.

Lemma paper_type_ok v p : paper_ok p -> paper_ok (paper_type v p).
Proof.
  intros (Hrs & Hr). split; simpl; [|by rewrite length_alter].
  apply Forall_alter_same; [done|]. intros r. by rewrite length_insert.
Qed.

Lemma paper_move_ok x p : (x < 80)%nat -> paper_ok p -> paper_ok (paper_move x p).
Proof. intros Hx (Hrs & Hr). split; simpl; [done|]. unfold VGA_WIDTH. lia. Qed.

Lemma paper_feed_ok color p : paper_ok p -> paper_ok (paper_feed color p).
Proof.
  intros (Hrs & Hr). unfold paper_feed. unfold VGA_HEIGHT, VGA_WIDTH in *.
  split; simpl; case_decide.
  - done.
  - apply Forall_app_2; [done|]. apply Forall_singleton. apply length_replicate.
  - unfold VGA_HEIGHT, VGA_WIDTH. lia.
  - rewrite length_app. unfold VGA_HEIGHT, VGA_WIDTH. simpl. lia.
Qed.

Lemma paper_put_ok color c p : paper_ok p -> paper_ok (paper_put color c p).
Proof.
  intros Hp. unfold paper_put. repeat case_decide.
  - by apply paper_feed_ok.
  - apply paper_move_ok; [lia|done].
  - destruct (pcol p) as [|x] eqn:Hx; [done|].
    apply paper_type_ok, paper_move_ok; [|done].
    destruct Hp as (_ & _ & _ & Hp). unfold VGA_WIDTH in *. lia.
  - by apply paper_move_ok, paper_type_ok.
  - by apply paper_feed_ok, paper_type_ok.
Qed.

Lemma shows_move t p x :
  shows t p -> shows (set_cursor t (Z.of_nat x) (cursor_y t)) (paper_move x p).
Proof. intros (? & ? & ?). done. Qed.

(** The cell under the cursor is the cell under the head. *)
Lemma shows_type t p v :
  shows t p -> paper_ok p ->
  exists t', vga_store t (cursor_y t * 80 + cursor_x t) v = Some t' /\
    shows t' (paper_type v p) /\ terminal_color t' = terminal_color t.
Proof.
  intros Hs Hp. pose proof (shows_length _ _ Hs Hp) as Hlen.
  destruct Hs as (Hv & Hx & Hy), Hp as (Hrs & Hh & Hr & Hc).
  unfold VGA_WIDTH, VGA_HEIGHT in *. rewrite Hx, Hy.
  assert (hidden p <= prow p)%nat as Hle by (unfold hidden, VGA_HEIGHT; lia).
  replace (Z.of_nat (prow p - hidden p) * 80 + Z.of_nat (pcol p))
    with (Z.of_nat ((prow p - hidden p) * 80 + pcol p)) by lia.
  rewrite vga_store_ok by (unfold hidden, VGA_HEIGHT in *; lia).
  eexists. split; [done|]. split; [|done].
  assert (hidden (paper_type v p) = hidden p) as Hhid
    by (unfold hidden; simpl; by rewrite length_alter).
  unfold shows. rewrite Hhid. simpl. split; [|done].
  rewrite Hv, (concat_insert_uniform 80).
  - f_equal. apply list_eq. intros i. rewrite lookup_drop.
    destruct (decide (i = prow p - hidden p)%nat) as [->|Hne].
    + rewrite list_lookup_alter_eq, lookup_drop.
      by replace (hidden p + (prow p - hidden p))%nat with (prow p) by lia;
        rewrite list_lookup_alter_eq.
    + rewrite !list_lookup_alter_ne by lia. by rewrite lookup_drop.
  - by apply Forall_drop.
  - rewrite length_drop. lia.
  - done.
Qed.

Lemma shows_feed t p :
  shows t p -> paper_ok p ->
  exists t', terminal_scroll (set_cursor t 0 (cursor_y t + 1)) = Some t' /\
    shows t' (paper_feed (terminal_color t) p) /\ terminal_color t' = terminal_color t.
Proof.
  intros Hs Hp. pose proof (shows_length _ _ Hs Hp) as Hlen.
  destruct Hs as (Hv & Hx & Hy), Hp as (Hrs & Hh & Hr & Hc).
  unfold VGA_WIDTH, VGA_HEIGHT in *. unfold paper_feed. case_decide as Hlast.
  - unfold terminal_scroll. simpl. rewrite decide_True.
    + eexists. split; [done|]. split; [|done]. unfold shows, hidden in *. simpl.
      split; [done|]. split; [done|]. rewrite Hy. unfold VGA_HEIGHT in *. lia.
    + rewrite Hy. unfold hidden, VGA_HEIGHT. lia.
  - rewrite terminal_scroll_top; [|done|simpl; rewrite Hy; unfold hidden, VGA_HEIGHT; lia].
    eexists. split; [done|]. split; [|done]. simpl.
    unfold shows, hidden. simpl. rewrite length_app. simpl.
    replace (length (rows p) + 1 - VGA_HEIGHT)%nat with (hidden p + 1)%nat
      by (unfold hidden, VGA_HEIGHT; lia).
    split; [|unfold hidden, VGA_HEIGHT; split; [done|lia]].
    rewrite drop_app_le by (unfold hidden, VGA_HEIGHT; lia).
    rewrite concat_app. cbn [concat]. rewrite app_nil_r. f_equal.
    rewrite Hv, <-drop_drop.
    destruct (drop (hidden p) (rows p)) as [|r rs] eqn:E; [done|].
    assert (length r = 80%nat) as Hlr.
    { assert (Forall (fun r => length r = 80%nat) (r :: rs)) as Hall
        by (rewrite <-E; by apply Forall_drop). by inversion Hall. }
    simpl. rewrite drop_0, <-Hlr. apply drop_app_length.
Qed.

Lemma terminal_putchar_shows c t p :
  shows t p -> paper_ok p ->
  exists t', terminal_putchar c t = Some t' /\
    shows t' (paper_put (terminal_color t) c p) /\ terminal_color t' = terminal_color t.
Proof.
  intros Hs Hp. pose proof Hs as (_ & Hx & Hy).
  unfold terminal_putchar, paper_put.
  case_decide; [by apply shows_feed|].
  case_decide; [eexists; split; [done|]; split; [by apply (shows_move t p 0)|done]|].
  case_decide.
  - rewrite Hx. destruct (pcol p) as [|x] eqn:Ep.
    + rewrite decide_False by lia. by exists t.
    + rewrite decide_True by lia.
      replace (Z.of_nat (S x) - 1) with (Z.of_nat x) by lia.
      apply (shows_type (set_cursor t (Z.of_nat x) (cursor_y t)) (paper_move x p)).
      * by apply shows_move.
      * apply paper_move_ok; [|done]. destruct Hp as (_ & _ & _ & Hp).
        unfold VGA_WIDTH in *. lia.
  - destruct (shows_type t p (vga_entry c (terminal_color t)) Hs Hp) as (t1 & -> & Hs1 & Hc1).
    rewrite bind_some. pose proof Hs1 as (_ & Hx1 & Hy1). simpl in Hx1.
    pose proof (paper_type_ok (vga_entry c (terminal_color t)) p Hp) as Hp1.
    unfold VGA_WIDTH. simpl. rewrite Hx1. case_decide as E1; case_decide as E2; try lia.
    + destruct (shows_feed t1 _ Hs1 Hp1) as (t2 & Ht2 & Hs2 & Hc2). exists t2.
      rewrite Hc1 in Hs2. split; [exact Ht2|]. by rewrite Hc2.
    + assert (cursor_y t1 < 25) as Hlt.
      { rewrite Hy1. destruct Hp1 as (_ & ? & ? & _). unfold hidden, VGA_HEIGHT in *. lia. }
      unfold terminal_scroll. simpl. rewrite decide_True by done.
      eexists. split; [done|]. split; [|done].
      replace (Z.of_nat (pcol p) + 1) with (Z.of_nat (S (pcol p))) by lia.
      by apply shows_move.
Qed.

Lemma put_all_shows cs t p :
  shows t p -> paper_ok p ->
  exists t', put_all cs t = Some t' /\
    shows t' (foldl (fun p c => paper_put (terminal_color t) c p) p cs) /\
    paper_ok (foldl (fun p c => paper_put (terminal_color t) c p) p cs) /\
    terminal_color t' = terminal_color t.
Proof.
  revert t p. induction cs as [|c cs IH]; intros t p Hs Hp; simpl; [by exists t|].
  destruct (terminal_putchar_shows c t p Hs Hp) as (t1 & -> & Hs1 & Hc1). rewrite bind_some.
  destruct (IH t1 _ Hs1 (paper_put_ok _ _ _ Hp)) as (t2 & -> & Hs2 & Hp2 & Hc2).
  exists t2. rewrite Hc1 in *. done.
Qed.

Lemma terminal_write_loop_all cs rest t :
  Forall (fun c => c <> 0) cs -> terminal_write_loop (cs ++ 0 :: rest) t = put_all cs t.
Proof.
  intros Hcs. revert t. induction Hcs as [|c cs Hc Hcs IH]; intros t; simpl; [done|].
  rewrite decide_False by done. destruct (terminal_putchar c t) as [t'|]; [apply IH|done].
Qed.

Lemma put_all_app cs cs' t : put_all (cs ++ cs') t = (t ← put_all cs t; put_all cs' t).
Proof.
  revert t. induction cs as [|c cs IH]; intros t; [done|]. simpl.
  destruct (terminal_putchar c t) as [t'|]; [apply IH|done].
Qed.

(** ** Numbers *)

(** The value of a row of digits, most significant first. *)
Definition number_value (base : Z) (digit : Z -> Z) (cs : list Z) : Z :=
  foldl (fun acc c => acc * base + digit c) 0 cs.

Definition decimal_digit (c : Z) : Z := c - 48.
Definition hex_digit (c : Z) : Z := if decide (c < 58) then c - 48 else c - 55.

Lemma number_value_snoc base digit cs c :
  number_value base digit (cs ++ [c]) = number_value base digit cs * base + digit c.
Proof. unfold number_value. by rewrite foldl_app. Qed.

Lemma uint_digits_spec fuel value buffer (count : nat) :
  0 <= value < 10 ^ (10 - Z.of_nat count) -> length buffer = 10%nat ->
  (count <= 10)%nat -> (10 - count < fuel)%nat ->
  exists ds rest,
    uint_digits fuel value buffer (Z.of_nat count) =
      Some (take count buffer ++ reverse ds ++ rest, Z.of_nat (count + length ds)) /\
    number_value 10 decimal_digit ds = value /\ Forall (fun c => 48 <= c < 58) ds /\
    head ds <> Some 48 /\ (value <> 0 -> ds <> []) /\
    length (take count buffer ++ reverse ds ++ rest) = 10%nat.
Proof.
  revert value buffer count. induction fuel as [|fuel IH]; intros value buffer count Hv Hb Hc Hf;
    [lia|]. simpl. case_decide as Hd.
  - rewrite zset_nat by lia. rewrite bind_some.
    replace (Z.of_nat count + 1) with (Z.of_nat (S count)) by lia.
    assert (value mod 10 = value - 10 * (value / 10)) as Hmod by (apply Z.mod_eq; lia).
    assert (0 <= value mod 10 < 10) as Hdr by (apply Z.mod_pos_bound; lia).
    destruct (IH (value / 10) (<[count:=48 + value mod 10]> buffer) (S count))
      as (ds & rest & Heq & Hval & Hds & Hh & Hne & Hlen).
    + replace (10 - Z.of_nat count) with (Z.succ (10 - Z.of_nat (S count))) in Hv by lia.
      rewrite Z.pow_succ_r in Hv by lia. split; [apply Z.div_pos; lia|].
      apply Z.div_lt_upper_bound; lia.
    + by rewrite length_insert.
    + lia.
    + lia.
    + exists (ds ++ [48 + value mod 10]), rest. rewrite Heq. split_and!.
      * rewrite (take_S_r _ _ (48 + value mod 10)) by (rewrite list_lookup_insert_eq; [done|lia]).
        rewrite take_insert_ge by lia.
        rewrite reverse_app, length_app. simpl. rewrite <-!app_assoc. simpl.
        f_equal. f_equal. lia.
      * rewrite number_value_snoc, Hval. unfold decimal_digit. lia.
      * apply Forall_app_2; [done|]. apply Forall_singleton. lia.
      * destruct ds as [|d ds]; [simpl; intros [= H0]|done].
        assert (value / 10 = 0) by (by destruct (decide (value / 10 = 0)); [|destruct Hne]).
        lia.
      * intros _. by destruct ds.
      * rewrite <-Hlen, (take_S_r _ _ (48 + value mod 10))
          by (rewrite list_lookup_insert_eq; [done|lia]).
        rewrite take_insert_ge, reverse_app, !length_app by lia. simpl. lia.
  - exists [], (drop count buffer). assert (value = 0) as ->.
    { destruct (decide (value = 0)); [done|].
      assert (10 <= Z.of_nat count) by lia. assert (count = 10%nat) as -> by lia.
      simpl in Hv. lia. }
    rewrite Nat.add_0_r. change (reverse []) with (@nil Z). rewrite app_nil_l, take_drop.
    by split_and!.
Qed.

Lemma uint_print_put_all (n : nat) buffer t :
  (n <= length buffer)%nat -> uint_print n buffer t = put_all (reverse (take n buffer)) t.
Proof.
  revert t. induction n as [|n IH]; intros t Hn; [done|]. cbn [uint_print].
  rewrite zget_nat. destruct (lookup_lt_is_Some_2 buffer n) as [c Hc]; [lia|].
  rewrite Hc, bind_some, (take_S_r _ _ _ Hc), reverse_app. simpl.
  destruct (terminal_putchar c t) as [t'|]; [apply IH; lia|done].
Qed.


Lemma hex_digits_lookup (d : Z) :
  0 <= d < 16 -> exists c, zget hex_digits d = Some c /\ hex_digit c = d /\
    (48 <= c < 58 \/ 65 <= c < 71).
Proof.
  intros Hd. assert (d ∈ seqZ 0 16) as Hin by (apply elem_of_seqZ; lia).
  clear Hd. revert d Hin. apply Forall_forall.
  change (seqZ 0 16) with [0; 1; 2; 3; 4; 5; 6; 7; 8; 9; 10; 11; 12; 13; 14; 15].
  unfold zget.
  repeat (apply Forall_cons_2; [rewrite decide_True by lia; eexists; split; [reflexivity|];
    vm_compute; intuition congruence|]).
  apply Forall_nil_2.
Qed.

Lemma number_value_cons base digit c cs :
  number_value base digit (c :: cs) =
    digit c * base ^ Z.of_nat (length cs) + number_value base digit cs.
Proof.
  induction cs as [|c' cs IH] using rev_ind.
  - unfold number_value. simpl. lia.
  - rewrite app_comm_cons, !number_value_snoc, IH, length_app, Nat2Z.inj_add. simpl length.
    rewrite Z.pow_add_r by lia. lia.
Qed.

(** The body of the loop of [terminal_hex]; the last [n] iterations print the
    low [n] nibbles. *)
Definition hex_step (value : Z) (k : nat) (t : terminal) : option terminal :=
  d ← zget hex_digits (Z.land (Z.shiftr value ((7 - Z.of_nat k) * 4)) 15);
  terminal_putchar d t.

Lemma hex_loop_spec value (n k : nat) :
  in_word 32 value -> (k + n = 8)%nat ->
  exists cs, (forall t, for_from k n (hex_step value) t = put_all cs t) /\ length cs = n /\
    number_value 16 hex_digit cs = value mod 16 ^ Z.of_nat n /\
    Forall (fun c => 48 <= c < 58 \/ 65 <= c < 71) cs.
Proof.
  intros Hv. revert k. induction n as [|n IH]; intros k Hk.
  { exists []. split_and!; try done. by rewrite Z.mod_1_r. }
  destruct (IH (S k)) as (cs & Hrun & Hlen & Hval & Hall); [lia|].
  set (d := Z.land (Z.shiftr value (4 * Z.of_nat n)) 15).
  assert (d = (value / 16 ^ Z.of_nat n) mod 16) as Hd.
  { subst d. change 15 with (Z.ones 4). rewrite Z.land_ones by lia.
    rewrite Z.shiftr_div_pow2 by lia. by rewrite Z.pow_mul_r by lia. }
  destruct (hex_digits_lookup d) as (c & Hget & Hc & Hr).
  { rewrite Hd. apply Z.mod_pos_bound. lia. }
  exists (c :: cs). split_and!.
  - intros t. rewrite for_from_S.
    assert (hex_step value k t = terminal_putchar c t) as ->.
    { unfold hex_step. replace ((7 - Z.of_nat k) * 4) with (4 * Z.of_nat n) by lia.
      subst d. by rewrite Hget. }
    simpl. destruct (terminal_putchar c t) as [t'|]; [apply Hrun|done].
  - simpl. by rewrite Hlen.
  - rewrite number_value_cons, Hlen, Hval, Hc, Hd, Nat2Z.inj_succ, Z.pow_succ_r by lia.
    rewrite (Z.mul_comm 16), Z.rem_mul_r by lia. lia.
  - by apply Forall_cons_2.
Qed.

(** ** Properties *)

(** C23. The console is a window on a teletype: writing a NUL-terminated string
    never touches memory outside the 80 x 25 buffer and leaves the screen showing
    the last 25 rows of the paper on which the same characters were typed (with
    line feed, carriage return, backspace, line wrap and scrolling). *)
Theorem terminal_write_refines cs rest t p :
  Forall (fun c => c <> 0) cs -> shows t p -> paper_ok p ->
  exists t', terminal_write (Some (cs ++ 0 :: rest)) t = Some t' /\
    shows t' (foldl (fun p c => paper_put (terminal_color t) c p) p cs) /\
    paper_ok (foldl (fun p c => paper_put (terminal_color t) c p) p cs) /\
    terminal_color t' = terminal_color t.
Proof.
  intros Hcs Hs Hp. simpl. rewrite terminal_write_loop_all by done. by apply put_all_shows.
Qed.

(** Clearing any 80 x 25 screen leaves it showing blank paper with the head
    at the top left, whatever the screen and the cursor were. *)
Theorem terminal_clear_blank t :
  length (vga t) = 2000%nat ->
  exists t', terminal_clear t = Some t' /\ terminal_color t' = terminal_color t /\
    shows t' (Paper (replicate VGA_HEIGHT (blank_row (terminal_color t))) 0 0) /\
    paper_ok (Paper (replicate VGA_HEIGHT (blank_row (terminal_color t))) 0 0).
Proof.
  intros Hlen. rewrite terminal_clear_filled by done. eexists. split; [done|].
  split; [done|]. split.
  - unfold shows. split; [|done]. reflexivity.
  - split; [|unfold VGA_HEIGHT, VGA_WIDTH; simpl; lia].
    apply Forall_replicate. apply length_replicate.
Qed.

(** [terminal_uint] prints the decimal digits of the number: at most ten
    decimal digits, without leading zeros, whose value is the argument. *)
Theorem terminal_uint_decimal value t :
  in_word 32 value ->
  exists cs, terminal_uint value t = put_all cs t /\
    number_value 10 decimal_digit cs = value /\ Forall (fun c => 48 <= c < 58) cs /\
    (head cs = Some 48 -> cs = [48]) /\ (1 <= length cs <= 10)%nat.
Proof.
  intros [Hv0 Hv]. unfold terminal_uint. case_decide as H0.
  - subst. exists [48]. split_and!; try done; try (simpl; lia).
    + simpl. by destruct (terminal_putchar 48 t).
    + by apply Forall_singleton.
  - destruct (uint_digits_spec 11 value (replicate 10 0) 0)
      as (ds & rest & Heq & Hval & Hds & Hh & Hne & Hlen); [simpl; lia|done|lia|lia|].
    change (Z.of_nat 0) with 0 in Heq. rewrite Heq, bind_some. rewrite Nat2Z.id.
    change (take 0 _ ++ ?l) with l in *. exists ds. split_and!; try done.
    + simpl. rewrite uint_print_put_all by (rewrite length_app, length_reverse; lia).
      by rewrite take_app_length', reverse_involutive by (by rewrite length_reverse).
    + specialize (Hne H0). by destruct ds; simpl; [|lia].
    + rewrite length_app, length_reverse in Hlen. lia.
Qed.

(** [terminal_hex] prints ["0x"] followed by eight hexadecimal digits whose
    value is the argument. *)
Theorem terminal_hex_digits value t :
  in_word 32 value ->
  exists cs, terminal_hex value t = put_all (bytes_of_string "0x" ++ cs) t /\
    length cs = 8%nat /\ number_value 16 hex_digit cs = value /\
    Forall (fun c => 48 <= c < 58 \/ 65 <= c < 71) cs.
Proof.
  intros Hv. destruct (hex_loop_spec value 8 0 Hv) as (cs & Hrun & Hlen & Hval & Hall); [done|].
  exists cs. split_and!; try done.
  - rewrite put_all_app. unfold terminal_hex. change (c_string "0x") with (bytes_of_string "0x" ++ 0 :: []).
    unfold terminal_write. rewrite terminal_write_loop_all by (repeat constructor; done).
    destruct (put_all (bytes_of_string "0x") t) as [t'|]; [|done]. apply Hrun.
  - rewrite Hval. apply Z.mod_small. exact Hv.
Qed.

(** ** Witnesses *)

Definition blank_terminal : terminal := Terminal (replicate 2000 (vga_entry 32 31)) 0 0 31.
Definition blank_paper : paper := Paper (replicate VGA_HEIGHT (blank_row 31)) 0 0.

Lemma blank_paper_ok : paper_ok blank_paper.
Proof.
  split; [|unfold VGA_HEIGHT, VGA_WIDTH; simpl; lia].
  apply Forall_replicate. apply length_replicate.
Qed.

Lemma terminal_write_refines_witness :
  exists t', terminal_write (Some (c_string "ok")) blank_terminal = Some t' /\ cursor_x t' = 2.
Proof.
  destruct (terminal_write_refines (bytes_of_string "ok") [] blank_terminal blank_paper)
    as (t' & Ht' & (_ & Hx & _) & _).
  - repeat constructor; done.
  - split; [reflexivity|done].
  - exact blank_paper_ok.
  - exists t'. split; [exact Ht'|]. rewrite Hx. vm_compute. reflexivity.
Defined.

Lemma terminal_clear_blank_witness :
  exists t', terminal_clear (Terminal (replicate 2000 7) 3 4 31) = Some t'.
Proof.
  destruct (terminal_clear_blank (Terminal (replicate 2000 7) 3 4 31)) as (t' & Ht' & _).
  - apply length_replicate.
  - exists t'. exact Ht'.
Defined.

Lemma terminal_uint_decimal_witness :
  exists cs, terminal_uint 4294967295 blank_terminal = put_all cs blank_terminal /\
    number_value 10 decimal_digit cs = 4294967295.
Proof.
  destruct (terminal_uint_decimal 4294967295 blank_terminal) as (cs & Hrun & Hval & _).
  - vm_compute. split; congruence.
  - exists cs. split; [exact Hrun|exact Hval].
Defined.

Lemma terminal_hex_digits_witness :
  exists cs, terminal_hex 3735928559 blank_terminal =
    put_all (bytes_of_string "0x" ++ cs) blank_terminal /\ length cs = 8%nat.
Proof.
  destruct (terminal_hex_digits 3735928559 blank_terminal) as (cs & Hrun & Hlen & _).
  - vm_compute. split; congruence.
  - exists cs. split; [exact Hrun|exact Hlen].
Defined.
