(* ===== verification/Machine.v ===== *)
(** * The machine layer of the boot kernel ([src/kernel/kernel.c])

    Port input and output, the segment and interrupt descriptor tables, the
    interrupt controllers, the keyboard and the bump allocator.  The kernel's
    file-scope variables are the record [kernel]; what the code does to the
    outside (ports, privileged instructions) is the list [hist] of events, and a
    device answers a read as a function of the history so far. *)
From S2P Require Import Prelude Console.

Local Open Scope Z_scope.

Abbreviation PIC1_COMMAND := (32)%Z.
Abbreviation PIC1_DATA := (33)%Z.
Abbreviation PIC2_COMMAND := (160)%Z.
Abbreviation PIC2_DATA := (161)%Z.
Abbreviation PIC_EOI := (32)%Z.
Abbreviation KBD_DATA := (96)%Z.
Abbreviation KBD_STATUS := (100)%Z.
Definition IDT_ENTRIES : nat := 256.
Definition HEAP_START := 1048576.
Definition HEAP_SIZE := 1048576.

(** The packed structures of the descriptor tables. *)
Record gdt_entry := GdtEntry {
  g_limit_low : Z; g_base_low : Z; g_base_middle : Z;
  g_access : Z; g_granularity : Z; g_base_high : Z
}.
Record idt_entry := IdtEntry {
  i_base_low : Z; i_selector : Z; i_zero : Z; i_flags : Z; i_base_high : Z
}.
(** [struct gdt_ptr] and [struct idt_ptr]. *)
Record table_ptr := TablePtr { tp_limit : Z; tp_base : Z }.

Inductive provider_type := PROVIDER_NONE | PROVIDER_XNU | PROVIDER_NATIVE.

(** What the processor and the devices see. *)
Inductive io_event :=
  | Out (port value : Z)
  | In (port value : Z)
  | Lgdt (p : table_ptr)
  | LoadSegments (data code : Z)
  | Lidt (p : table_ptr)
  | Cli
  | Sti
  | Hlt
  | Store (address value : Z)
  | XnuAvailable
  | XnuInit
  | XnuStart
  | XnuIdle.

Record kernel := Kernel {
  term : terminal;
  gdt : list gdt_entry;
  gdt_descriptor : table_ptr;
  idt : list idt_entry;
  idt_descriptor : table_ptr;
  heap_current : Z;
  heap_end : Z;
  active_provider : provider_type;
  hist : list io_event
}.

Definition set_term t k := Kernel t (gdt k) (gdt_descriptor k) (idt k) (idt_descriptor k)
  (heap_current k) (heap_end k) (active_provider k) (hist k).
Definition set_gdt g k := Kernel (term k) g (gdt_descriptor k) (idt k) (idt_descriptor k)
  (heap_current k) (heap_end k) (active_provider k) (hist k).
Definition set_gdt_descriptor d k := Kernel (term k) (gdt k) d (idt k) (idt_descriptor k)
  (heap_current k) (heap_end k) (active_provider k) (hist k).
Definition set_idt i k := Kernel (term k) (gdt k) (gdt_descriptor k) i (idt_descriptor k)
  (heap_current k) (heap_end k) (active_provider k) (hist k).
Definition set_idt_descriptor d k := Kernel (term k) (gdt k) (gdt_descriptor k) (idt k) d
  (heap_current k) (heap_end k) (active_provider k) (hist k).
Definition set_heap_current h k := Kernel (term k) (gdt k) (gdt_descriptor k) (idt k)
  (idt_descriptor k) h (heap_end k) (active_provider k) (hist k).
Definition set_active_provider p k := Kernel (term k) (gdt k) (gdt_descriptor k) (idt k)
  (idt_descriptor k) (heap_current k) (heap_end k) p (hist k).
Definition add_event e k := Kernel (term k) (gdt k) (gdt_descriptor k) (idt k)
  (idt_descriptor k) (heap_current k) (heap_end k) (active_provider k) (hist k ++ [e]).

(** A device answers a read of a port from all that happened before. *)
Definition device := list io_event -> Z -> Z.

(** ** CPU and ports *)

Definition event (e : io_event) : eff kernel unit := eff_upd (add_event e).

Definition outb (port value : Z) : eff kernel unit := event (Out port value).

Definition inb (dev : device) (port : Z) : eff kernel Z := fun k =>
  let v := u8 (dev (hist k) port) in Some (v, add_event (In port v) k).

Definition io_wait : eff kernel unit := outb 128 0.

(** The instructions are recorded here; what they do to the processor, that [hlt]
    stops it and that interrupts come while the flag is set, is [kernel_step] of
    [Kernel]. *)
Definition cpu_cli : eff kernel unit := event Cli.
Definition cpu_sti : eff kernel unit := event Sti.
Definition cpu_hlt : eff kernel unit := event Hlt.

(** ** GDT *)

Definition gdt_set_entry (index base limit access granularity : Z) : eff kernel unit := fun k =>
  let e := GdtEntry
    (u16 (Z.land limit 65535))
    (u16 (Z.land base 65535))
    (u8 (Z.land (Z.shiftr base 16) 255))
    access
    (u8 (Z.lor (u8 (Z.land (Z.shiftr limit 16) 15)) (Z.land granularity 240)))
    (u8 (Z.land (Z.shiftr base 24) 255)) in
  g ← zset (gdt k) index e; Some (tt, set_gdt g k).

(** [sizeof(struct gdt_entry)] is 8 in the packed layout; [gdt_address] is the
    address of the table in the image. *)
Definition gdt_init (gdt_address : Z) : eff kernel unit :=
  eff_upd (set_gdt_descriptor (TablePtr (u16 (3 * 8 - 1)) (u32 gdt_address)));;
  gdt_set_entry 0 0 0 0 0;;
  gdt_set_entry 1 0 4294967295 154 207;;
  gdt_set_entry 2 0 4294967295 146 207;;
  d ← eff_get gdt_descriptor;
  event (Lgdt d);;
  event (LoadSegments 16 8).

(** ** IDT *)

Definition idt_set_gate (number base selector flags : Z) : eff kernel unit := fun k =>
  let e := IdtEntry (u16 (Z.land base 65535)) selector 0 flags
             (u16 (Z.land (Z.shiftr base 16) 65535)) in
  i ← zset (idt k) number e; Some (tt, set_idt i k).

(** The loop of [idt_init] over the gates. *)
Definition idt_fill : eff kernel unit := fun k =>
  k ← for_range IDT_ENTRIES (fun i k => snd <$> idt_set_gate (u8 (Z.of_nat i)) 0 8 142 k) k;
  Some (tt, k).

Definition idt_init (idt_address : Z) : eff kernel unit :=
  eff_upd (set_idt_descriptor (TablePtr (u16 (256 * 8 - 1)) (u32 idt_address)));;
  idt_fill;;
  d ← eff_get idt_descriptor;
  event (Lidt d).

(** ** PIC *)

Definition pic_init (dev : device) : eff kernel unit :=
  master_mask ← inb dev PIC1_DATA;
  slave_mask ← inb dev PIC2_DATA;
  outb PIC1_COMMAND 17;; io_wait;;
  outb PIC2_COMMAND 17;; io_wait;;
  outb PIC1_DATA 32;; io_wait;;
  outb PIC2_DATA 40;; io_wait;;
  outb PIC1_DATA 4;; io_wait;;
  outb PIC2_DATA 2;; io_wait;;
  outb PIC1_DATA 1;; io_wait;;
  outb PIC2_DATA 1;; io_wait;;
  outb PIC1_DATA master_mask;;
  outb PIC2_DATA slave_mask.

Definition pic_eoi (irq : Z) : eff kernel unit :=
  (if decide (8 <= irq) then outb PIC2_COMMAND PIC_EOI else mret tt);;
  outb PIC1_COMMAND PIC_EOI.

(** ** Keyboard *)

(** The initialiser lists 58 characters; the rest of the array is zero. *)
Definition keyboard_map : list Z :=
  [0; 27] ++ bytes_of_string "1234567890-=" ++ [8; 9] ++ bytes_of_string "qwertyuiop[]" ++
  [10; 0] ++ bytes_of_string "asdfghjkl;'`" ++ [0] ++ bytes_of_string "\zxcvbnm,./" ++
  [0] ++ bytes_of_string "*" ++ [0; 32] ++ replicate 70 0.

(** [null] says whether the pointer argument is null.  The result is the
    character stored through it, [None] for the return value 0. *)
Definition keyboard_read (dev : device) (null : bool) : eff kernel (option Z) :=
  if null then mret None else
  status ← inb dev KBD_STATUS;
  if decide (Z.land status 1 = 0) then mret None else
  scancode ← inb dev KBD_DATA;
  if decide (Z.land scancode 128 <> 0) then mret None else
  if decide (128 <= scancode) then mret None else
  c ← eff_opt (zget keyboard_map scancode);
  if decide (c = 0) then mret None else mret (Some c).

(** ** Native memory layer *)

(** [w] is the width of [uintptr_t] and [size_t], 32 in the kernel that
    [kernel.c] is built into.  The result is the address, 0 being the null pointer. *)
Definition native_alloc (w size : Z) : eff kernel Z := fun k =>
  if decide (size = 0) then Some (0, k) else
  let aligned := Z.land (wrap w (size + 15)) (wrap w (Z.lnot 15)) in
  if decide (heap_end k < wrap w (heap_current k + aligned)) then Some (0, k) else
  Some (heap_current k, set_heap_current (wrap w (heap_current k + aligned)) k).

Definition native_free (ptr : Z) : eff kernel unit := mret tt.

(** ** Frames: what each operation leaves alone *)

Definition add_events es k := Kernel (term k) (gdt k) (gdt_descriptor k) (idt k)
  (idt_descriptor k) (heap_current k) (heap_end k) (active_provider k) (hist k ++ es).

Lemma add_events_app es es' k : add_events es' (add_events es k) = add_events (es ++ es') k.
Proof. unfold add_events. simpl. by rewrite app_assoc. Qed.

Lemma run_event {B} e (c : unit -> eff kernel B) k :
  (x ← event e; c x) k = c tt (add_events [e] k).
Proof. reflexivity. Qed.

Lemma run_outb {B} port v (c : unit -> eff kernel B) k :
  (x ← outb port v; c x) k = c tt (add_events [Out port v] k).
Proof. reflexivity. Qed.

Lemma run_inb {B} dev port (c : Z -> eff kernel B) k :
  (x ← inb dev port; c x) k =
    c (u8 (dev (hist k) port)) (add_events [In port (u8 (dev (hist k) port))] k).
Proof. reflexivity. Qed.

Lemma run_outb_last port v k : outb port v k = Some (tt, add_events [Out port v] k).
Proof. reflexivity. Qed.

Ltac run_io :=
  repeat (rewrite run_inb || rewrite run_outb || rewrite run_event || rewrite eff_bind_ret);
  rewrite ?run_outb_last, ?add_events_app.

(** ** The interrupt controllers

    The Intel 8259A, as its data sheet documents it: a command with bit 4 set
    (ICW1) starts the initialisation, which clears the mask, and the next data
    writes are ICW2 (the vector base), ICW3 (unless ICW1 selects single mode)
    and ICW4 (if ICW1 announced it); data writes in operation set the mask.
    Of the operation commands only the non-specific end of interrupt is used. *)
Inductive pic_phase := Ready | NeedICW2 (single icw4 : bool) | NeedICW3 (icw4 : bool) | NeedICW4.

Record pic_chip := PicChip {
  phase : pic_phase; vector : Z; cascade : Z; mode : Z; imr : Z; isr : Z
}.

(** The in-service bit of highest priority is the lowest one set. *)
Definition clear_lowest (x : Z) : Z := Z.land x (x - 1).

Definition pic_command (v : Z) (c : pic_chip) : pic_chip :=
  if Z.testbit v 4 then
    PicChip (NeedICW2 (Z.testbit v 1) (Z.testbit v 0)) (vector c) (cascade c) (mode c) 0 0
  else if decide (Z.shiftr v 5 = 1) then
    PicChip (phase c) (vector c) (cascade c) (mode c) (imr c) (clear_lowest (isr c))
  else c.

Definition pic_data (v : Z) (c : pic_chip) : pic_chip :=
  match phase c with
  | Ready => PicChip Ready (vector c) (cascade c) (mode c) v (isr c)
  | NeedICW2 single icw4 =>
      PicChip (if single then if icw4 then NeedICW4 else Ready else NeedICW3 icw4)
        v (cascade c) (mode c) (imr c) (isr c)
  | NeedICW3 icw4 =>
      PicChip (if icw4 then NeedICW4 else Ready) (vector c) v (mode c) (imr c) (isr c)
  | NeedICW4 => PicChip Ready (vector c) (cascade c) v (imr c) (isr c)
  end.

(** Both controllers watch the port writes. *)
Definition pics_step (c : pic_chip * pic_chip) (e : io_event) : pic_chip * pic_chip :=
  match e with
  | Out port v =>
      if decide (port = 32) then (pic_command v c.1, c.2) else
      if decide (port = 33) then (pic_data v c.1, c.2) else
      if decide (port = 160) then (c.1, pic_command v c.2) else
      if decide (port = 161) then (c.1, pic_data v c.2) else c
  | _ => c
  end.

Definition pics (c0 : pic_chip * pic_chip) (h : list io_event) : pic_chip * pic_chip :=
  foldl pics_step c0 h.

Lemma pics_app c0 h h' : pics c0 (h ++ h') = foldl pics_step (pics c0 h) h'.
Proof. apply foldl_app. Qed.

Lemma pics_In c0 h port v : pics c0 (h ++ [In port v]) = pics c0 h.
Proof. by rewrite pics_app. Qed.

(** A device whose data ports of the controllers answer with the masks. *)
Definition answers_masks (c0 : pic_chip * pic_chip) (dev : device) : Prop :=
  forall h, dev h 33 = imr (pics c0 h).1 /\ dev h 161 = imr (pics c0 h).2.

Lemma pic_init_run dev k : exists es, pic_init dev k = Some (tt, add_events es k).
Proof.
  unfold pic_init, io_wait. rewrite run_inb. rewrite run_inb. run_io. by eexists.
Qed.

(** [pic_init] re-initialises both interrupt controllers: whatever state
    they are in, afterwards they are in operation with the vectors moved to
    0x20 and 0x28, the slave cascaded on line 2, 8086 mode, and the interrupt
    masks they had before the call; nothing else of the kernel's state changes. *)
Theorem pic_init_remaps c0 dev k :
  answers_masks c0 dev ->
  in_word 8 (imr (pics c0 (hist k)).1) -> in_word 8 (imr (pics c0 (hist k)).2) ->
  exists es, pic_init dev k = Some (tt, add_events es k) /\
    pics c0 (hist k ++ es) =
      (PicChip Ready 32 4 1 (imr (pics c0 (hist k)).1) 0,
       PicChip Ready 40 2 1 (imr (pics c0 (hist k)).2) 0).
Proof.
  intros Hdev H1 H2. unfold pic_init, io_wait.
  rewrite run_inb. rewrite run_inb. simpl hist.
  rewrite (proj1 (Hdev _)), (proj2 (Hdev _)), pics_In.
  rewrite (wrap_small _ _ H1), (wrap_small _ _ H2). run_io.
  eexists. split; [reflexivity|]. rewrite pics_app. reflexivity.
Qed.

(** [pic_eoi] acknowledges the interrupt at the controllers that have it in
    service: the master's highest-priority bit always, the slave's only for the
    lines 8 and up. *)
Theorem pic_eoi_acknowledges c0 irq k :
  exists es, pic_eoi irq k = Some (tt, add_events es k) /\
    isr (pics c0 (hist k ++ es)).1 = clear_lowest (isr (pics c0 (hist k)).1) /\
    isr (pics c0 (hist k ++ es)).2 =
      if decide (8 <= irq) then clear_lowest (isr (pics c0 (hist k)).2)
      else isr (pics c0 (hist k)).2.
Proof.
  unfold pic_eoi.
  case_decide; run_io; (eexists; split; [reflexivity|]; by rewrite pics_app).
Qed.

(** ** Descriptors as the processor reads them *)

Definition gdt_base (e : gdt_entry) : Z :=
  g_base_low e + g_base_middle e * 2 ^ 16 + g_base_high e * 2 ^ 24.
Definition gdt_limit (e : gdt_entry) : Z := g_limit_low e + g_granularity e mod 16 * 2 ^ 16.
(** The flags nibble: granularity, default size, long mode, available. *)
Definition gdt_flags (e : gdt_entry) : Z := g_granularity e / 16.
(** The last byte of a segment: the limit counts pages when bit 3 of the flags is set. *)
Definition segment_last (e : gdt_entry) : Z :=
  if Z.testbit (gdt_flags e) 3 then gdt_limit e * 4096 + 4095 else gdt_limit e.

Definition gate_offset (e : idt_entry) : Z := i_base_low e + i_base_high e * 2 ^ 16.

Lemma land_mask n x : 0 <= n -> Z.land x (2 ^ n - 1) = x mod 2 ^ n.
Proof. intros Hn. rewrite <-Z.land_ones by done. by rewrite Z.ones_equiv. Qed.

Lemma bits_of n m x :
  0 <= n <= m -> wrap m (Z.land x (2 ^ n - 1)) = x mod 2 ^ n.
Proof.
  intros Hn. rewrite land_mask by lia. apply wrap_small.
  apply (in_word_mono n); [lia|]. apply wrap_range. lia.
Qed.

Lemma land_high_nibble x : in_word 8 x -> Z.land x 240 = x / 16 * 2 ^ 4.
Proof. intros Hx. by apply (land_high 8 4). Qed.

Lemma gdt_granularity_byte limit granularity :
  in_word 32 limit -> in_word 8 granularity ->
  u8 (Z.lor (u8 (Z.land (Z.shiftr limit 16) 15)) (Z.land granularity 240)) =
    (limit / 2 ^ 16) mod 16 + granularity / 16 * 16.
Proof.
  intros Hl Hg. rewrite land_high_nibble by done.
  rewrite (bits_of 4 8), Z.shiftr_div_pow2 by lia.
  rewrite lor_low_high by (try apply Z.mod_pos_bound; lia).
  apply wrap_small. revert Hg. unfold in_word. change (2 ^ 8) with 256. change (2 ^ 4) with 16.
  generalize (limit / 2 ^ 16). intros. Z.to_euclidean_division_equations. lia.
Qed.

(** The descriptor that [gdt_set_entry] stores reads back as its arguments. *)
Lemma gdt_set_entry_decode index base limit access granularity k :
  0 <= index < Z.of_nat (length (gdt k)) -> in_word 32 base -> in_word 32 limit ->
  in_word 8 granularity ->
  exists e, gdt_set_entry index base limit access granularity k =
      Some (tt, set_gdt (<[Z.to_nat index := e]> (gdt k)) k) /\
    gdt_base e = base /\ gdt_limit e = limit mod 2 ^ 20 /\
    g_access e = access /\ gdt_flags e = granularity / 16.
Proof.
  intros Hi Hb Hl Hg. unfold gdt_set_entry. rewrite zset_in by done. rewrite bind_some.
  eexists. split; [reflexivity|].
  unfold gdt_base, gdt_limit, gdt_flags. simpl.
  rewrite gdt_granularity_byte by done. change 65535 with (2 ^ 16 - 1). change 255 with (2 ^ 8 - 1).
  rewrite !bits_of, !Z.shiftr_div_pow2 by lia.
  change (2 ^ 20) with (2 ^ 16 * 16). change (2 ^ 24) with (2 ^ 16 * 256).
  rewrite Z.rem_mul_r, <-Z.div_div by lia.
  unfold in_word in *. change (2 ^ 16) with 65536 in *. change (2 ^ 8) with 256 in *.
  change (2 ^ 32) with 4294967296 in *.
  split_and!; try done; Z.to_euclidean_division_equations; lia.
Qed.

Definition flat_segment (e : gdt_entry) : Prop :=
  gdt_base e = 0 /\ segment_last e = 2 ^ 32 - 1.

(** Access byte: present, ring 0, code or data segment; executable. *)
Definition ring0_segment (e : gdt_entry) (exec : bool) : Prop :=
  Z.testbit (g_access e) 7 = true /\ Z.land (Z.shiftr (g_access e) 5) 3 = 0 /\
  Z.testbit (g_access e) 4 = true /\ Z.testbit (g_access e) 3 = exec /\
  Z.testbit (g_access e) 1 = true.

Definition null_descriptor : gdt_entry := GdtEntry 0 0 0 0 0 0.
Definition code_descriptor : gdt_entry := GdtEntry 65535 0 0 154 207 0.
Definition data_descriptor : gdt_entry := GdtEntry 65535 0 0 146 207 0.

Lemma gdt_init_run addr k :
  length (gdt k) = 3%nat ->
  gdt_init addr k = Some (tt, add_events [Lgdt (TablePtr 23 (u32 addr)); LoadSegments 16 8]
    (set_gdt [null_descriptor; code_descriptor; data_descriptor]
       (set_gdt_descriptor (TablePtr 23 (u32 addr)) k))).
Proof.
  intros Hlen. destruct k as [t g gd i id hc he ap h]. simpl in Hlen.
  destruct g as [|a [|b [|c [|]]]]; try done.
  unfold add_events, set_gdt, set_gdt_descriptor. simpl.
  unfold gdt_init. rewrite eff_bind_unfold. unfold eff_upd at 1. rewrite bind_some.
  change (u16 (3 * 8 - 1)) with 23.
  rewrite (eff_bind_run _ _ _ (set_gdt_descriptor (TablePtr 23 (u32 addr))
    (Kernel t [null_descriptor; b; c] gd i id hc he ap h)) tt) by reflexivity.
  rewrite (eff_bind_run _ _ _ (set_gdt_descriptor (TablePtr 23 (u32 addr))
    (Kernel t [null_descriptor; code_descriptor; c] gd i id hc he ap h)) tt) by reflexivity.
  rewrite (eff_bind_run _ _ _ (set_gdt_descriptor (TablePtr 23 (u32 addr))
    (Kernel t [null_descriptor; code_descriptor; data_descriptor] gd i id hc he ap h)) tt)
    by reflexivity.
  rewrite (eff_bind_run _ _ _ (set_gdt_descriptor (TablePtr 23 (u32 addr))
    (Kernel t [null_descriptor; code_descriptor; data_descriptor] gd i id hc he ap h))
    (TablePtr 23 (u32 addr))) by reflexivity.
  rewrite run_event. unfold event, eff_upd, add_event, add_events. simpl. by rewrite <-app_assoc.
Qed.

(** [gdt_init] loads a table whose null descriptor is empty and whose
    selectors 0x08 and 0x10 are a present ring-0 code and data segment covering
    the whole 4 GiB address space, and loads exactly these selectors. The code
    segment is a 32-bit one: its long-mode flag is clear and its default-size
    flag is set. *)
Theorem gdt_init_flat addr k :
  length (gdt k) = 3%nat ->
  exists k' code data, gdt_init addr k = Some (tt, k') /\
    gdt k' = [null_descriptor; code; data] /\
    hist k' = hist k ++ [Lgdt (gdt_descriptor k'); LoadSegments (8 * 2) (8 * 1)] /\
    tp_limit (gdt_descriptor k') = 8 * 3 - 1 /\
    flat_segment code /\ ring0_segment code true /\
    flat_segment data /\ ring0_segment data false /\
    Z.testbit (gdt_flags code) 2 = true /\ Z.testbit (gdt_flags code) 1 = false.
Proof.
  intros Hlen. rewrite gdt_init_run by done. do 3 eexists. split; [reflexivity|].
  split; [reflexivity|]. split; [reflexivity|]. repeat split.
Qed.

(** ** Interrupt gates *)

Lemma idt_fill_run k :
  length (idt k) = IDT_ENTRIES ->
  idt_fill k = Some (tt, set_idt (replicate IDT_ENTRIES (IdtEntry 0 8 0 142 0)) k).
Proof.
  intros Hlen. unfold idt_fill.
  destruct (for_range_inv (fun n k' => exists l, k' = set_idt l k /\
      length l = IDT_ENTRIES /\ forall i, (i < n)%nat -> l !! i = Some (IdtEntry 0 8 0 142 0))
    IDT_ENTRIES (fun i k => snd <$> idt_set_gate (u8 (Z.of_nat i)) 0 8 142 k) k)
    as (k' & -> & l & -> & Hl & Hall).
  - exists (idt k). split_and!; [by destruct k|done|lia].
  - unfold IDT_ENTRIES. intros n k' Hn (l & -> & Hl & Hall).
    rewrite (wrap_small 8) by (unfold in_word; lia).
    unfold idt_set_gate. rewrite zset_nat by (simpl; lia). simpl.
    eexists. split; [reflexivity|]. eexists. split; [reflexivity|].
    rewrite length_insert. split; [done|]. intros i Hi.
    destruct (decide (i = n)) as [->|].
    + by rewrite list_lookup_insert_eq by lia.
    + rewrite list_lookup_insert_ne by done. apply Hall. lia.
  - rewrite bind_some. do 3 f_equal. apply list_eq. intros i.
    destruct (decide (i < IDT_ENTRIES)%nat).
    + by rewrite lookup_replicate_2, Hall.
    + rewrite !lookup_ge_None_2; [done|rewrite length_replicate; lia|lia].
Qed.

Lemma idt_init_run addr k :
  length (idt k) = IDT_ENTRIES ->
  idt_init addr k = Some (tt, add_events [Lidt (TablePtr 2047 (u32 addr))]
    (set_idt (replicate IDT_ENTRIES (IdtEntry 0 8 0 142 0))
       (set_idt_descriptor (TablePtr 2047 (u32 addr)) k))).
Proof.
  intros Hlen. unfold idt_init. rewrite eff_bind_unfold. unfold eff_upd at 1. rewrite bind_some.
  change (u16 (256 * 8 - 1)) with 2047.
  rewrite (eff_bind_run _ _ _ _ _ (idt_fill_run (set_idt_descriptor _ k) Hlen)).
  reflexivity.
Qed.

(** ** The keyboard *)

Lemma land_128 x : in_word 8 x -> Z.land x 128 <> 0 <-> 128 <= x.
Proof.
  intros Hx. unfold in_word in Hx. change (2 ^ 8) with 256 in Hx. change 128 with (2 ^ 7) at 1.
  assert (Z.land x (2 ^ 7) = 0 <-> Z.testbit x 7 = false) as ->.
  { split.
    - intros H. apply (f_equal (fun z => Z.testbit z 7)) in H.
      rewrite Z.land_spec, Z.bits_0 in H. change (Z.testbit (2 ^ 7) 7) with true in H.
      by rewrite andb_true_r in H.
    - intros H. apply Z.bits_inj'. intros n Hn. rewrite Z.land_spec, Z.bits_0.
      rewrite Z.pow2_bits_eqb by lia. destruct (Z.eqb_spec 7 n) as [<-|]; [by rewrite H|].
      apply andb_false_r. }
  rewrite not_false_iff_true, Z.testbit_true by lia. change (2 ^ 7) with 128.
  Z.to_euclidean_division_equations. lia.
Qed.

Lemma keyboard_read_run dev k :
  let status := u8 (dev (hist k) KBD_STATUS) in
  let scancode := u8 (dev (hist k ++ [In KBD_STATUS status]) KBD_DATA) in
  keyboard_read dev false k = Some
    (if Z.testbit status 0 then
       (if decide (scancode < 128) then
          match keyboard_map !! Z.to_nat scancode with
          | Some c => if decide (c = 0) then None else Some c
          | None => None
          end
        else None,
        add_events [In KBD_STATUS status; In KBD_DATA scancode] k)
     else (None, add_events [In KBD_STATUS status] k)).
Proof.
  cbv zeta. unfold keyboard_read. rewrite run_inb.
  set (status := u8 (dev (hist k) KBD_STATUS)).
  assert (Z.land status 1 = Z.b2z (Z.testbit status 0)) as ->.
  { rewrite Z.bit0_mod. by apply (Z.land_ones status 1). }
  destruct (Z.testbit status 0); simpl Z.b2z; [|done]. rewrite decide_False by done.
  rewrite run_inb, add_events_app.
  change (hist (add_events ?es k)) with (hist k ++ es).
  set (sc := u8 (dev (hist k ++ [In KBD_STATUS status]) KBD_DATA)).
  assert (in_word 8 sc) as Hsc by (apply wrap_range; lia). clearbody sc.
  pose proof (land_128 sc Hsc). destruct (decide (sc < 128)) as [Hlt|].
  - rewrite decide_False by lia. rewrite decide_False by lia.
    unfold zget. rewrite decide_True by (unfold in_word in Hsc; lia).
    destruct (lookup_lt_is_Some_2 keyboard_map (Z.to_nat sc)) as [c ->].
    { change (length keyboard_map) with 128%nat. lia. }
    rewrite eff_bind_opt. by case_decide.
  - by rewrite decide_True by lia.
Qed.

(** ** The bump allocator *)

Lemma land_wrap w x y : 0 <= w -> in_word w x -> Z.land x (wrap w y) = Z.land x y.
Proof.
  intros Hw Hx. unfold wrap. rewrite <-Z.land_ones by done.
  rewrite (Z.land_comm y), Z.land_assoc, Z.land_ones by done. by rewrite Z.mod_small.
Qed.

Lemma align_16 w x :
  0 <= w -> in_word w x -> Z.land x (wrap w (Z.lnot 15)) = x / 16 * 16.
Proof.
  intros Hw Hx. rewrite land_wrap by done. rewrite <-Z.ldiff_land.
  change 15 with (Z.ones 4). rewrite Z.ldiff_ones_r by lia.
  by rewrite Z.shiftl_mul_pow2, Z.shiftr_div_pow2 by lia.
Qed.

Definition heap_ok (k : kernel) : Prop :=
  HEAP_START <= heap_current k <= heap_end k /\ heap_current k mod 16 = 0 /\
  heap_end k = HEAP_START + HEAP_SIZE.

(** A request that cannot make the address arithmetic wrap around. *)
Definition modest (w size : Z) : Prop := 0 <= size < 2 ^ w - 2 ^ 22.

Definition round_16 (size : Z) : Z := (size + 15) / 16 * 16.

Lemma native_alloc_run w size k :
  32 <= w -> heap_ok k -> modest w size ->
  native_alloc w size k = Some
    (if decide (size = 0 \/ heap_end k < heap_current k + round_16 size) then (0, k)
     else (heap_current k, set_heap_current (heap_current k + round_16 size) k)).
Proof.
  intros Hw (Hc & Ha & He) Hs. unfold HEAP_START, HEAP_SIZE, modest in *.
  assert (2 ^ 32 <= 2 ^ w) as Hpow by (apply Z.pow_le_mono_r; lia).
  change (2 ^ 22) with 4194304 in *. change (2 ^ 32) with 4294967296 in *.
  unfold native_alloc. case_decide; [by rewrite decide_True by lia|].
  rewrite (wrap_small w (size + 15)) by (unfold in_word; lia).
  rewrite align_16 by (unfold in_word; lia).
  fold (round_16 size).
  assert (size <= round_16 size < size + 16)
    by (unfold round_16; Z.to_euclidean_division_equations; lia).
  rewrite wrap_small by (unfold in_word; lia).
  case_decide; [by rewrite decide_True by lia|by rewrite decide_False by lia].
Qed.

(** A sequence of requests, with the addresses they return. *)
Fixpoint native_allocs (w : Z) (sizes : list Z) : eff kernel (list Z) :=
  match sizes with
  | [] => mret []
  | size :: sizes =>
      a ← native_alloc w size;
      addrs ← native_allocs w sizes;
      mret (a :: addrs)
  end.

(** The block is inside the heap from [lo] on, and aligned. *)
Definition block_ok (lo hi : Z) (size a : Z) : Prop :=
  a = 0 \/ (lo <= a /\ a + size <= hi /\ a mod 16 = 0).

(** The allocator hands out disjoint, 16-byte aligned blocks inside the heap:
    for every sequence of requests none of which is within 4 MiB of the size of
    the address space, each non-null result is an aligned block of the requested
    size between the heap's current position and its end, and blocks returned
    later lie after the blocks returned earlier. *)
Theorem native_alloc_disjoint w sizes k :
  32 <= w -> heap_ok k -> Forall (modest w) sizes ->
  exists addrs k', native_allocs w sizes k = Some (addrs, k') /\ heap_ok k' /\
    Forall2 (block_ok (heap_current k) (heap_end k)) sizes addrs /\
    (forall i j si ai aj, (i < j)%nat -> sizes !! i = Some si -> addrs !! i = Some ai ->
       addrs !! j = Some aj -> ai <> 0 -> aj <> 0 -> ai + si <= aj).
Proof.
  intros Hw Hk Hs. revert k Hk. induction Hs as [|s sizes Hs1 Hs IH]; intros k Hk.
  { exists [], k. split_and!; [done|done|by constructor|]. intros i j si ai aj ? [=]. }
  cbn [native_allocs]. rewrite eff_bind_unfold, native_alloc_run by done. rewrite bind_some.
  pose proof Hk as (Hc & Ha & He). unfold HEAP_START, HEAP_SIZE, modest in *.
  assert (s <= round_16 s /\ (heap_current k + round_16 s) mod 16 = 0)
    as [Hr Hal] by (unfold round_16; Z.to_euclidean_division_equations; lia).
  set (k1 := if decide (s = 0 \/ heap_end k < heap_current k + round_16 s) then k
             else set_heap_current (heap_current k + round_16 s) k).
  set (a := if decide (s = 0 \/ heap_end k < heap_current k + round_16 s) then 0
            else heap_current k).
  assert (heap_ok k1 /\ heap_end k1 = heap_end k /\ heap_current k <= heap_current k1 /\
          (a = 0 \/ a = heap_current k /\ a + s <= heap_current k1)) as (Hk1 & He1 & Hc1 & Hfit).
  { subst k1 a. case_decide; [by auto with lia|]. simpl. split_and!; try done; try lia.
    unfold heap_ok, HEAP_START, HEAP_SIZE. simpl. lia. }
  destruct (IH k1 Hk1) as (addrs & k' & Hrun & Hk' & Hall & Hord).
  exists (a :: addrs), k'.
  split.
  { subst a k1. case_decide; rewrite eff_bind_unfold, Hrun; reflexivity. }
  split; [done|]. split.
  - constructor.
    + destruct Hfit as [->|[-> ?]]; [by left|right]. destruct Hk1 as ([? ?] & ? & ?). lia.
    + eapply Forall2_impl; [exact Hall|]. intros x y [->|?]; [by left|right]. lia.
  - intros [|i] [|j] si ai aj Hij Hsi Hai Haj; simpl in *; try lia.
    + injection Hsi as <-. injection Hai as <-. intros Hn Haj0.
      destruct Hfit as [Hz|[? ?]]; [by destruct Hn|].
      destruct (Forall2_lookup_r _ _ _ _ _ Hall Haj) as (sj & _ & [?|?]); [done|]. lia.
    + apply (Hord i j si ai aj); try done. lia.
Qed.

(** A request fits exactly when the rounded size fits: for such a request
    the allocator returns null only if the size is 0 or the block would pass the
    end of the heap. *)
Theorem native_alloc_complete w size k :
  32 <= w -> heap_ok k -> modest w size ->
  exists a k', native_alloc w size k = Some (a, k') /\
    (a = 0 <-> size = 0 \/ heap_end k < heap_current k + round_16 size) /\
    (a <> 0 -> a = heap_current k /\ heap_current k' = heap_current k + round_16 size).
Proof.
  intros Hw Hk Hs. rewrite native_alloc_run by done. pose proof Hk as ([Hc _] & _).
  unfold HEAP_START in Hc. case_decide.
  - exists 0, k. split_and!; [done|done|]. done.
  - eexists _, _. split; [reflexivity|]. simpl. split; [|done]. lia.
Qed.

(** Without that bound the address arithmetic wraps around: every request
    within 15 bytes of the size of the address space is answered with a non-null
    block for which no memory is reserved, so that the next request is given the
    same address. *)
Theorem native_alloc_wraps w size k :
  32 <= w -> heap_ok k -> 2 ^ w - 15 <= size < 2 ^ w ->
  exists a, a <> 0 /\ native_allocs w [size; 16] k = Some
    ([a; if decide (heap_end k < heap_current k + 16) then 0 else a],
     if decide (heap_end k < heap_current k + 16) then k
     else set_heap_current (heap_current k + 16) k).
Proof.
  intros Hw Hk Hs. pose proof Hk as ((Hc & Hce) & Ha & He). exists (heap_current k).
  unfold HEAP_START, HEAP_SIZE in *.
  assert (2 ^ 32 <= 2 ^ w) as Hpow by (apply Z.pow_le_mono_r; lia).
  change (2 ^ 32) with 4294967296 in *. split; [lia|].
  cbn [native_allocs]. rewrite eff_bind_unfold.
  assert (native_alloc w size k = Some (heap_current k, k)) as ->.
  { unfold native_alloc. rewrite decide_False by lia.
    assert (wrap w (size + 15) = size + 15 - 2 ^ w) as ->
      by (symmetry; apply Z.mod_unique with 1; lia).
    rewrite align_16 by (unfold in_word; lia).
    rewrite Z.div_small by lia. rewrite wrap_small by (unfold in_word; lia).
    rewrite decide_False by lia. replace (heap_current k + 0 * 16) with (heap_current k) by lia.
    by destruct k. }
  rewrite bind_some, eff_bind_unfold, eff_bind_unfold, native_alloc_run
    by (try done; unfold modest; change (2 ^ 22) with 4194304; lia).
  change (round_16 16) with 16.
  repeat case_decide; try done; lia.
Qed.

(** ** Witnesses *)

(** The static initialisers: an uninitialised GDT and IDT and the whole heap. *)
Definition kernel0 : kernel :=
  Kernel blank_terminal (replicate 3 null_descriptor) (TablePtr 0 0)
    (replicate IDT_ENTRIES (IdtEntry 0 0 0 0 0)) (TablePtr 0 0)
    HEAP_START (HEAP_START + HEAP_SIZE) PROVIDER_NONE [].

Definition reset_pic : pic_chip := PicChip Ready 0 0 0 184 0.
Definition mask_device : device := fun h port =>
  if decide (port = 33) then imr (pics (reset_pic, reset_pic) h).1
  else imr (pics (reset_pic, reset_pic) h).2.

Lemma pic_init_remaps_witness :
  exists es, pic_init mask_device kernel0 = Some (tt, add_events es kernel0) /\
    vector (pics (reset_pic, reset_pic) es).1 = 32.
Proof.
  destruct (pic_init_remaps (reset_pic, reset_pic) mask_device kernel0) as (es & Hrun & Hp).
  - by intros h.
  - vm_compute. split; congruence.
  - vm_compute. split; congruence.
  - exists es. split; [exact Hrun|]. exact (f_equal (fun c => vector c.1) Hp).
Defined.

Lemma gdt_init_flat_witness : exists k', gdt_init 2097152 kernel0 = Some (tt, k').
Proof.
  destruct (gdt_init_flat 2097152 kernel0) as (k' & ? & ? & Hrun & _); [reflexivity|].
  exists k'. exact Hrun.
Defined.

Lemma heap_ok_0 : heap_ok kernel0.
Proof. by vm_compute. Qed.

Lemma native_alloc_disjoint_witness :
  exists addrs k', native_allocs 32 [4; 0; 100; 1048576] kernel0 = Some (addrs, k') /\
    addrs = [1048576; 0; 1048592; 0].
Proof.
  destruct (native_alloc_disjoint 32 [4; 0; 100; 1048576] kernel0)
    as (addrs & k' & Hrun & _); [lia|exact heap_ok_0| |].
  - repeat (apply Forall_cons_2; [by vm_compute|]). apply Forall_nil_2.
  - exists addrs, k'. split; [exact Hrun|]. vm_compute in Hrun. by simplify_eq.
Defined.

Lemma native_alloc_complete_witness :
  exists a k', native_alloc 64 1048576 kernel0 = Some (a, k') /\ a <> 0.
Proof.
  destruct (native_alloc_complete 64 1048576 kernel0) as (a & k' & Hrun & Hz & _);
    [lia|exact heap_ok_0|by vm_compute|].
  exists a, k'. split; [exact Hrun|]. rewrite Hz. vm_compute. intuition congruence.
Defined.

Lemma native_alloc_wraps_witness :
  exists a, native_allocs 32 [4294967281; 16] kernel0 =
    Some ([a; a], set_heap_current 1048592 kernel0) /\ a <> 0.
Proof.
  destruct (native_alloc_wraps 32 4294967281 kernel0) as (a & Ha & Hrun);
    [lia|exact heap_ok_0|by vm_compute|].
  exists a. split; [exact Hrun|exact Ha].
Defined.
