(* ===== verification/Kernel.v ===== *)
(** * Providers and kernel entry ([src/kernel/kernel.c])

    The choice between the XNU provider and the native one, the boot sequence of
    [kernel_main], and the loop it ends in as a step relation in which the
    processor halts and takes interrupts.  The weak symbols of an XNU provider,
    the memory behind the first heap block and the devices are parameters. *)
From stdpp Require Import relations.
From S2P Require Import Prelude Console Machine.

Local Open Scope Z_scope.

(** The four weak symbols; [None] is an absent symbol.  Each of the first three
    is called at most once, so that its return value is all that matters. *)
Record xnu_symbols := XnuSymbols {
  xnuxx_xnu_provider_available : option Z;
  xnuxx_xnu_provider_init : option Z;
  xnuxx_xnu_provider_start : option Z;
  xnuxx_xnu_provider_idle : bool
}.

(** The loops without exit in which the kernel ends. *)
Inductive main_loop := LoopPanic | LoopXnuIdle | LoopXnuHalt | LoopKeyboard.

#[export] Instance main_loop_eq_dec : EqDecision main_loop.
Proof. solve_decision. Defined.

Definition line (s : string) : list Z := bytes_of_string s ++ [10].

(** A call of a console function on the kernel's terminal. *)
Definition console (f : terminal -> option terminal) : eff kernel unit := fun k =>
  t ← f (term k); Some (tt, set_term t k).

Definition kwrite (text : list Z) : eff kernel unit :=
  console (terminal_write (Some (text ++ [0]))).

Section boot.
Context (sym : xnu_symbols) (dev : device) (ram : Z -> Z -> Z).
Context (gdt_address idt_address : Z).

(** ** Native provider *)

Definition native_provider_init : eff kernel Z :=
  gdt_init gdt_address;;
  idt_init idt_address;;
  pic_init dev;;
  mret 0.

(** [ram a v] is what a read of address [a] gives after [v] was stored there. *)
Definition native_provider_start : eff kernel Z :=
  test ← native_alloc 32 4;
  if decide (test = 0) then mret (-1) else
  event (Store test 3735928559);;
  if decide (ram test 3735928559 <> 3735928559) then mret (-1) else
  native_free test;;
  mret 0.

(** ** XNU provider *)

Definition xnu_provider_available : eff kernel bool :=
  match xnuxx_xnu_provider_available sym with
  | None => mret false
  | Some r => event XnuAvailable;; mret (bool_decide (r = 0))
  end.

Definition xnu_provider_init : eff kernel Z :=
  match xnuxx_xnu_provider_init sym with
  | None => mret (-1)
  | Some r => event XnuInit;; mret r
  end.

Definition xnu_provider_start : eff kernel Z :=
  match xnuxx_xnu_provider_start sym with
  | None => mret (-1)
  | Some r => event XnuStart;; mret r
  end.

(** ** Provider selection *)

Definition provider_init_native : eff kernel Z :=
  r ← native_provider_init;
  if decide (r = 0) then eff_upd (set_active_provider PROVIDER_NATIVE);; mret 0
  else eff_upd (set_active_provider PROVIDER_NONE);; mret (-1).

Definition provider_init : eff kernel Z :=
  avail ← xnu_provider_available;
  if (avail : bool) then
    r ← xnu_provider_init;
    if decide (r = 0) then eff_upd (set_active_provider PROVIDER_XNU);; mret 0
    else provider_init_native
  else provider_init_native.

Definition provider_start : eff kernel Z :=
  p ← eff_get active_provider;
  match p with
  | PROVIDER_XNU => xnu_provider_start
  | PROVIDER_NATIVE => native_provider_start
  | PROVIDER_NONE => mret (-1)
  end.

(** [kernel_panic] up to its halt loop. *)
Definition kernel_panic (message : list Z) : eff kernel main_loop :=
  cpu_cli;;
  kwrite (10 :: 10 :: line "xnu++ KERNEL PANIC");;
  kwrite message;;
  kwrite [10];;
  mret LoopPanic.

Definition banner : list Z :=
  line "xnu++ platform" ++ line "==============" ++ line "version: 0.2.0" ++
  line "architecture: i386" ++ line "provider architecture: XNU + native" ++ [10].
Definition text_init : list Z := line "initializing provider...".
Definition text_xnu : list Z := line "provider: XNU" ++ line "XNU provider: active".
Definition text_native : list Z := line "provider: native" ++ line "XNU provider: unavailable".
Definition text_start : list Z := 10 :: line "starting provider...".
Definition text_done : list Z := line "provider started" ++ line "xnu++ platform initialized".

(** The part of [kernel_main] after [provider_init]. *)
Definition kernel_start : eff kernel main_loop :=
  p ← eff_get active_provider;
  (match p with PROVIDER_XNU => kwrite text_xnu | _ => kwrite text_native end);;
  kwrite text_start;;
  r ← provider_start;
  if decide (r <> 0) then kernel_panic (bytes_of_string "provider start failed") else
  kwrite text_done;;
  p ← eff_get active_provider;
  match p with
  | PROVIDER_XNU =>
      if xnuxx_xnu_provider_idle sym then mret LoopXnuIdle else mret LoopXnuHalt
  | _ => cpu_sti;; mret LoopKeyboard
  end.

(** [kernel_main] up to the loop it ends in. *)
Definition kernel_main : eff kernel main_loop :=
  console terminal_clear;;
  kwrite banner;;
  kwrite text_init;;
  r ← provider_init;
  if decide (r <> 0) then kernel_panic (bytes_of_string "provider initialization failed")
  else kernel_start.

(** The end of a turn of the keyboard loop, after [keyboard_read] has returned. *)
Definition keyboard_echo (c : option Z) : eff kernel unit :=
  (match c with Some c => console (terminal_putchar c) | None => mret tt end);;
  cpu_hlt.

(** What the processor is doing: about to enter [kernel_main]; at the head of the
    final loop; in the keyboard loop with [keyboard_read] returned; halted in the
    loop; or transferred by an interrupt to the address in a gate of the IDT. *)
Inductive cpu :=
  | Entry
  | Turn (l : main_loop)
  | Got (c : option Z)
  | Halted (l : main_loop)
  | Handler (vector selector offset : Z).

#[export] Instance cpu_eq_dec : EqDecision cpu.
Proof. solve_decision. Defined.

(** The interrupt flag: what the last [cli] or [sti] set.  It is clear when
    [kernel_main] is entered, because [boot_entry] has executed [cli]. *)
Definition interrupt_flag (h : list io_event) : bool :=
  foldl (fun b e => match e with Sti => true | Cli => false | _ => b end) false h.

(** The native kernel is at a point of its loop where an interrupt can come. *)
Definition interruptible (s : cpu) : bool :=
  match s with
  | Turn LoopPanic | Turn LoopKeyboard | Got _ | Halted LoopPanic | Halted LoopKeyboard => true
  | _ => false
  end.

(** The running kernel.  [hlt] stops the processor: a halted processor goes on only
    when an interrupt comes.  A maskable interrupt is taken when the interrupt flag
    is set, through the gate of its vector in the IDT that the kernel has loaded.
    The interrupts of a halted XNU provider are handled by its own code, which
    returns to the loop. *)
Inductive kernel_step : cpu * kernel -> cpu * kernel -> Prop :=
  | step_main k l k' : kernel_main k = Some (l, k') -> kernel_step (Entry, k) (Turn l, k')
  | step_idle k k' : event XnuIdle k = Some (tt, k') ->
      kernel_step (Turn LoopXnuIdle, k) (Turn LoopXnuIdle, k')
  | step_halt l k k' : l = LoopPanic \/ l = LoopXnuHalt -> cpu_hlt k = Some (tt, k') ->
      kernel_step (Turn l, k) (Halted l, k')
  | step_read c k k' : keyboard_read dev false k = Some (c, k') ->
      kernel_step (Turn LoopKeyboard, k) (Got c, k')
  | step_echo c k k' : keyboard_echo c k = Some (tt, k') ->
      kernel_step (Got c, k) (Halted LoopKeyboard, k')
  | step_interrupt s k v e :
      interruptible s = true -> interrupt_flag (hist k) = true ->
      Lidt (idt_descriptor k) ∈ hist k -> idt k !! Z.to_nat v = Some e -> 0 <= v ->
      kernel_step (s, k) (Handler v (i_selector e) (gate_offset e), k)
  | step_resume k : kernel_step (Halted LoopXnuHalt, k) (Turn LoopXnuHalt, k).

End boot.

(** ** What the screen displays *)

(** Blank paper with [cs] typed on it. *)
Definition typed_on (color : Z) (cs : list Z) : paper :=
  foldl (fun p c => paper_put color c p)
    (Paper (replicate VGA_HEIGHT (blank_row color)) 0 0) cs.

Definition displays (k : kernel) (cs : list Z) : Prop :=
  shows (term k) (typed_on (terminal_color (term k)) cs).

Lemma foldl_paper_ok color cs p :
  paper_ok p -> paper_ok (foldl (fun p c => paper_put color c p) p cs).
Proof. revert p. induction cs as [|c cs IH]; intros p Hp; [done|]. by apply IH, paper_put_ok. Qed.

Lemma typed_on_ok color cs : paper_ok (typed_on color cs).
Proof.
  apply foldl_paper_ok. split; [|unfold VGA_HEIGHT, VGA_WIDTH; simpl; lia].
  apply Forall_replicate, length_replicate.
Qed.

(** Each console call extends what is displayed and leaves the rest of the
    kernel's state alone. *)
Definition wrote (k : kernel) (cs : list Z) (k' : kernel) : Prop :=
  exists t, k' = set_term t k /\ displays k' cs.

Lemma put_displays cs cs' k :
  displays k cs ->
  exists t, put_all cs' (term k) = Some t /\ displays (set_term t k) (cs ++ cs').
Proof.
  intros Hd. destruct (put_all_shows cs' (term k) _ Hd (typed_on_ok _ _))
    as (t & Ht & Hs & _ & Hc).
  exists t. split; [done|]. unfold displays. simpl. rewrite Hc. unfold typed_on.
  by rewrite foldl_app.
Qed.

Lemma kwrite_displays cs cs' k :
  displays k cs -> Forall (fun c => c <> 0) cs' ->
  exists k', kwrite cs' k = Some (tt, k') /\ wrote k (cs ++ cs') k'.
Proof.
  intros Hd Hcs. destruct (put_displays cs cs' k Hd) as (t & Ht & Hs).
  exists (set_term t k). split; [|by exists t].
  unfold kwrite, console, terminal_write. by rewrite terminal_write_loop_all, Ht.
Qed.

Lemma putchar_displays cs c k :
  displays k cs ->
  exists k', console (terminal_putchar c) k = Some (tt, k') /\ wrote k (cs ++ [c]) k'.
Proof.
  intros Hd. destruct (put_displays cs [c] k Hd) as (t & Ht & Hs).
  exists (set_term t k). split; [|by exists t]. unfold console. simpl in Ht.
  destruct (terminal_putchar c (term k)) as [t'|]; [|done]. simpl in Ht. by simplify_eq.
Qed.

Lemma clear_displays k :
  length (vga (term k)) = 2000%nat ->
  exists k', console terminal_clear k = Some (tt, k') /\ wrote k [] k'.
Proof.
  intros Hl. unfold console. rewrite terminal_clear_filled by done. rewrite bind_some.
  eexists. split; [done|]. eexists. split; [done|]. unfold displays, shows. simpl.
  split; [|done]. reflexivity.
Qed.

Lemma interrupt_flag_app h es :
  interrupt_flag (h ++ es) =
    foldl (fun b e => match e with Sti => true | Cli => false | _ => b end) (interrupt_flag h) es.
Proof. apply foldl_app. Qed.

(** No NUL in the texts the kernel prints. *)
Ltac no_nul := repeat constructor; done.

(** ** The boot sequence *)

Section boot_proofs.
Context (sym : xnu_symbols) (dev : device) (ram : Z -> Z -> Z).
Context (gdt_address idt_address : Z).

(** The state in which [kernel_main] is entered: the tables at their sizes and
    the heap as initialised. *)
Definition initial (k : kernel) : Prop :=
  length (vga (term k)) = 2000%nat /\ length (gdt k) = 3%nat /\ length (idt k) = IDT_ENTRIES /\
  heap_current k = HEAP_START /\ heap_end k = HEAP_START + HEAP_SIZE.

(** XNU is chosen when it is linked, reports itself available (0) and initialises. *)
Definition uses_xnu : bool :=
  bool_decide (xnuxx_xnu_provider_available sym = Some 0) &&
  bool_decide (xnuxx_xnu_provider_init sym = Some 0).

Definition start_ok : bool :=
  if uses_xnu then bool_decide (xnuxx_xnu_provider_start sym = Some 0)
  else bool_decide (ram HEAP_START 3735928559 = 3735928559).

Definition final_loop : main_loop :=
  if start_ok then
    if uses_xnu then if xnuxx_xnu_provider_idle sym then LoopXnuIdle else LoopXnuHalt
    else LoopKeyboard
  else LoopPanic.

Definition boot_text : list Z :=
  banner ++ text_init ++ (if uses_xnu then text_xnu else text_native) ++ text_start ++
  (if start_ok then text_done
   else (10 :: 10 :: line "xnu++ KERNEL PANIC") ++ bytes_of_string "provider start failed" ++ [10]).

(** The tables after the native provider's initialisation. *)
Definition native_tables (k : kernel) : Prop :=
  gdt k = [null_descriptor; code_descriptor; data_descriptor] /\
  idt k = replicate IDT_ENTRIES (IdtEntry 0 8 0 142 0) /\
  Lidt (idt_descriptor k) ∈ hist k.

(** Same screen and heap. *)
Definition same_io (k k' : kernel) : Prop :=
  term k' = term k /\ heap_current k' = heap_current k /\ heap_end k' = heap_end k.

Lemma native_provider_init_run k :
  length (gdt k) = 3%nat -> length (idt k) = IDT_ENTRIES ->
  exists k', native_provider_init dev gdt_address idt_address k = Some (0, k') /\
    same_io k k' /\ native_tables k'.
Proof.
  intros Hg Hi. unfold native_provider_init.
  rewrite (eff_bind_run _ _ _ _ _ (gdt_init_run gdt_address k Hg)).
  rewrite (eff_bind_run _ _ _ _ _ (idt_init_run idt_address
    (add_events _ (set_gdt _ (set_gdt_descriptor _ k))) Hi)).
  destruct (pic_init_run dev (add_events [Lidt (TablePtr 2047 (u32 idt_address))]
    (set_idt (replicate IDT_ENTRIES (IdtEntry 0 8 0 142 0))
       (set_idt_descriptor (TablePtr 2047 (u32 idt_address))
    (add_events [Lgdt (TablePtr 23 (u32 gdt_address)); LoadSegments 16 8]
       (set_gdt [null_descriptor; code_descriptor; data_descriptor]
       (set_gdt_descriptor (TablePtr 23 (u32 gdt_address)) k))))))) as (es & Hes).
  rewrite (eff_bind_run _ _ _ _ _ Hes).
  eexists. split; [reflexivity|]. split; [done|]. split_and!; [done|done|].
  simpl. rewrite !elem_of_app. left. right. left.
Qed.

Lemma provider_init_run k :
  length (gdt k) = 3%nat -> length (idt k) = IDT_ENTRIES ->
  exists k', provider_init sym dev gdt_address idt_address k = Some (0, k') /\
    same_io k k' /\
    active_provider k' = (if uses_xnu then PROVIDER_XNU else PROVIDER_NATIVE) /\
    (uses_xnu = false -> native_tables k').
Proof.
  assert (forall k, length (gdt k) = 3%nat -> length (idt k) = IDT_ENTRIES ->
    exists k', provider_init_native dev gdt_address idt_address k = Some (0, k') /\
    same_io k k' /\ active_provider k' = PROVIDER_NATIVE /\ native_tables k') as Hnat.
  { intros k0 Hg Hi. destruct (native_provider_init_run k0 Hg Hi) as (k' & Hrun & Hs & Ht).
    exists (set_active_provider PROVIDER_NATIVE k'). unfold provider_init_native.
    by rewrite (eff_bind_run _ _ _ _ _ Hrun). }
  intros Hg Hi. unfold provider_init, xnu_provider_available, xnu_provider_init, uses_xnu.
  destruct (xnuxx_xnu_provider_available sym) as [ra|]; [destruct (decide (ra = 0)) as [->|Hra]|].
  - rewrite eff_bind_assoc, run_event, eff_bind_ret, (bool_decide_true (0 = 0)) by done.
    destruct (xnuxx_xnu_provider_init sym) as [ri|]; [destruct (decide (ri = 0)) as [->|Hri]|].
    + rewrite eff_bind_assoc, run_event, eff_bind_ret, decide_True by done. by eexists.
    + rewrite eff_bind_assoc, run_event, eff_bind_ret, decide_False by done.
      rewrite andb_comm, bool_decide_false by congruence.
      destruct (Hnat (add_events [XnuInit] (add_events [XnuAvailable] k)) Hg Hi)
        as (k' & ? & ? & ? & ?). by exists k'.
    + rewrite eff_bind_ret, decide_False by done. rewrite andb_comm.
      destruct (Hnat (add_events [XnuAvailable] k) Hg Hi) as (k' & ? & ? & ? & ?). by exists k'.
  - rewrite eff_bind_assoc, run_event, eff_bind_ret, (bool_decide_false (ra = 0)) by done.
    rewrite bool_decide_false by congruence.
    destruct (Hnat (add_events [XnuAvailable] k) Hg Hi) as (k' & ? & ? & ? & ?). by exists k'.
  - rewrite eff_bind_ret. destruct (Hnat k Hg Hi) as (k' & ? & ? & ? & ?). by exists k'.
Qed.

(** A change of the heap position, of the screen, and further events. *)
Definition moved (k k' : kernel) : Prop :=
  exists t h es, k' = add_events es (set_heap_current h (set_term t k)).

Lemma moved_trans k1 k2 k3 : moved k1 k2 -> moved k2 k3 -> moved k1 k3.
Proof.
  intros (t & h & es & ->) (t' & h' & es' & ->). exists t', h', (es ++ es').
  unfold add_events. simpl. by rewrite app_assoc.
Qed.

Lemma moved_events es k : moved k (add_events es k).
Proof. exists (term k), (heap_current k), es. by destruct k. Qed.

Lemma moved_wrote k cs k' : wrote k cs k' -> moved k k'.
Proof.
  intros (t & -> & _). exists t, (heap_current k), []. unfold add_events. simpl.
  by rewrite app_nil_r.
Qed.

Lemma moved_active k k' : moved k k' -> active_provider k' = active_provider k.
Proof. by intros (? & ? & ? & ->). Qed.

Lemma moved_tables k k' : moved k k' -> native_tables k -> native_tables k'.
Proof.
  intros (t & h & es & ->) (? & ? & Hin). split_and!; [done|done|].
  simpl. apply elem_of_app. by left.
Qed.

Lemma displays_term k k' cs : term k' = term k -> displays k cs -> displays k' cs.
Proof. unfold displays. by intros ->. Qed.

Lemma provider_start_run k :
  heap_current k = HEAP_START -> heap_end k = HEAP_START + HEAP_SIZE ->
  active_provider k = (if uses_xnu then PROVIDER_XNU else PROVIDER_NATIVE) ->
  exists r k', provider_start sym ram k = Some (r, k') /\ (r = 0 <-> start_ok = true) /\
    moved k k' /\ term k' = term k.
Proof.
  intros Hc He Ha. unfold provider_start. rewrite eff_bind_get, Ha. unfold start_ok. destruct uses_xnu.
  - unfold xnu_provider_start. destruct (xnuxx_xnu_provider_start sym) as [r|].
    + exists r, (add_events [XnuStart] k). split; [done|]. split; [|split; [apply moved_events|done]].
      rewrite bool_decide_eq_true. split; congruence.
    + exists (-1), k. split; [done|]. split; [done|]. split; [|done].
      pose proof (moved_events [] k) as Hm. unfold add_events in Hm. rewrite app_nil_r in Hm.
      by destruct k.
  - unfold native_provider_start.
    rewrite (eff_bind_run _ _ _ (set_heap_current (HEAP_START + 16) k) HEAP_START).
    + rewrite decide_False by done. rewrite run_event.
      exists (if decide (ram HEAP_START 3735928559 <> 3735928559) then -1 else 0),
        (add_events [Store HEAP_START 3735928559] (set_heap_current (HEAP_START + 16) k)).
      split; [by case_decide|]. split; [|split; [|done]].
      * rewrite bool_decide_eq_true. case_decide; split; intros; try done; lia.
      * by exists (term k), (HEAP_START + 16), [Store HEAP_START 3735928559].
    + rewrite native_alloc_run.
      * rewrite Hc, He. reflexivity.
      * done.
      * unfold heap_ok. rewrite Hc, He. by vm_compute.
      * by vm_compute.
Qed.

Lemma kernel_panic_run cs message k :
  displays k cs -> Forall (fun c => c <> 0) message ->
  exists k', kernel_panic message k = Some (LoopPanic, k') /\
    displays k' (cs ++ (10 :: 10 :: line "xnu++ KERNEL PANIC") ++ message ++ [10]) /\ moved k k' /\
    interrupt_flag (hist k') = false.
Proof.
  intros Hd Hm. unfold kernel_panic. unfold cpu_cli. rewrite run_event.
  destruct (kwrite_displays cs (10 :: 10 :: line "xnu++ KERNEL PANIC") (add_events [Cli] k) Hd)
    as (k1 & Hr1 & Hw1); [no_nul|].
  rewrite (eff_bind_run _ _ _ _ _ Hr1). pose proof Hw1 as (_ & _ & Hd1).
  destruct (kwrite_displays _ message k1 Hd1 Hm) as (k2 & Hr2 & Hw2).
  rewrite (eff_bind_run _ _ _ _ _ Hr2). pose proof Hw2 as (_ & _ & Hd2).
  destruct (kwrite_displays _ [10] k2 Hd2) as (k3 & Hr3 & Hw3); [no_nul|].
  rewrite (eff_bind_run _ _ _ _ _ Hr3). pose proof Hw3 as (_ & _ & Hd3).
  exists k3. split; [done|]. rewrite <-!app_assoc in Hd3. split; [exact Hd3|].
  split.
  2: { destruct Hw1 as (? & -> & _), Hw2 as (? & -> & _), Hw3 as (? & -> & _). simpl.
       by rewrite interrupt_flag_app. }
  apply (moved_trans _ _ _ (moved_events [Cli] k)).
  apply (moved_trans _ _ _ (moved_wrote _ _ _ Hw1)).
  exact (moved_trans _ _ _ (moved_wrote _ _ _ Hw2) (moved_wrote _ _ _ Hw3)).
Qed.

Lemma kernel_start_run cs k :
  heap_current k = HEAP_START -> heap_end k = HEAP_START + HEAP_SIZE ->
  active_provider k = (if uses_xnu then PROVIDER_XNU else PROVIDER_NATIVE) ->
  displays k cs ->
  exists k', kernel_start sym ram k = Some (final_loop, k') /\ moved k k' /\
    displays k' (cs ++ (if uses_xnu then text_xnu else text_native) ++ text_start ++
      (if start_ok then text_done
       else (10 :: 10 :: line "xnu++ KERNEL PANIC") ++
            bytes_of_string "provider start failed" ++ [10])) /\
    (final_loop = LoopKeyboard -> interrupt_flag (hist k') = true) /\
    (final_loop = LoopPanic -> interrupt_flag (hist k') = false).
Proof.
  intros Hc He Ha Hd. unfold kernel_start. rewrite eff_bind_get, Ha.
  assert (exists k1, (match (if uses_xnu then PROVIDER_XNU else PROVIDER_NATIVE) with
    PROVIDER_XNU => kwrite text_xnu | _ => kwrite text_native end) k = Some (tt, k1) /\
    wrote k (cs ++ (if uses_xnu then text_xnu else text_native)) k1) as (k1 & Hr1 & Hw1).
  { destruct uses_xnu; apply kwrite_displays; try done; no_nul. }
  rewrite (eff_bind_run _ _ _ _ _ Hr1). pose proof Hw1 as (t1 & Hk1 & Hd1).
  destruct (kwrite_displays _ text_start k1 Hd1) as (k2 & Hr2 & Hw2); [no_nul|].
  rewrite (eff_bind_run _ _ _ _ _ Hr2). pose proof Hw2 as (t2 & Hk2 & Hd2).
  destruct (provider_start_run k2) as (r & k3 & Hr3 & Hr0 & Hm3 & Ht3);
    [by subst|by subst|by subst|].
  rewrite (eff_bind_run _ _ _ _ _ Hr3).
  apply (displays_term k2 k3) in Hd2; [|done].
  assert (moved k k3) as Hm.
  { apply (moved_trans _ _ _ (moved_wrote _ _ _ Hw1)).
    exact (moved_trans _ _ _ (moved_wrote _ _ _ Hw2) Hm3). }
  unfold final_loop. destruct start_ok.
  - rewrite decide_False by tauto.
    destruct (kwrite_displays _ text_done k3 Hd2) as (k4 & Hr4 & Hw4); [no_nul|].
    rewrite (eff_bind_run _ _ _ _ _ Hr4). pose proof Hw4 as (_ & _ & Hd4).
    rewrite <-!app_assoc in Hd4. rewrite eff_bind_get.
    assert (moved k k4) as Hm4 by eauto using moved_trans, moved_wrote.
    rewrite (moved_active _ _ Hm4), Ha.
    destruct uses_xnu; [exists k4; by destruct (xnuxx_xnu_provider_idle sym)|].
    exists (add_events [Sti] k4). split; [done|].
    split; [eauto using moved_trans, moved_events|]. split; [done|].
    split; [|done]. intros _. simpl. by rewrite interrupt_flag_app.
  - assert (r <> 0) by (rewrite Hr0; done). rewrite decide_True by done.
    destruct (kernel_panic_run _ (bytes_of_string "provider start failed") k3 Hd2)
      as (k4 & Hr4 & Hd4 & Hm4 & Hf4); [no_nul|].
    exists k4. split; [exact Hr4|]. split; [eauto using moved_trans|].
    rewrite <-!app_assoc in Hd4. by split.
Qed.

Lemma kernel_main_run k :
  initial k ->
  exists k', kernel_main sym dev ram gdt_address idt_address k = Some (final_loop, k') /\
    displays k' boot_text /\
    active_provider k' = (if uses_xnu then PROVIDER_XNU else PROVIDER_NATIVE) /\
    (uses_xnu = false -> native_tables k') /\
    (final_loop = LoopKeyboard -> interrupt_flag (hist k') = true) /\
    (final_loop = LoopPanic -> interrupt_flag (hist k') = false).
Proof.
  intros (Hv & Hg & Hi & Hc & He). unfold kernel_main.
  destruct (clear_displays k Hv) as (k0 & Hr0 & (t0 & -> & Hd0)).
  rewrite (eff_bind_run _ _ _ _ _ Hr0).
  destruct (kwrite_displays _ banner _ Hd0) as (k1 & Hr1 & (t1 & -> & Hd1)); [no_nul|].
  rewrite (eff_bind_run _ _ _ _ _ Hr1).
  destruct (kwrite_displays _ text_init _ Hd1) as (k2 & Hr2 & (t2 & -> & Hd2)); [no_nul|].
  rewrite (eff_bind_run _ _ _ _ _ Hr2).
  destruct (provider_init_run (set_term t2 (set_term t1 (set_term t0 k))) Hg Hi)
    as (k3 & Hr3 & (Ht3 & Hh3 & He3) & Ha3 & Hn3).
  rewrite (eff_bind_run _ _ _ _ _ Hr3), decide_False by tauto.
  apply (displays_term _ k3) in Hd2; [|done].
  rewrite app_nil_l in Hd2. destruct (kernel_start_run (banner ++ text_init) k3)
    as (k4 & Hr4 & Hm4 & Hd4 & Hs4); [by rewrite Hh3|by rewrite He3|done|done|].
  exists k4. split; [exact Hr4|]. split; [|split; [|split]].
  - rewrite <-app_assoc in Hd4. exact Hd4.
  - by rewrite (moved_active _ _ Hm4).
  - intros Hx. by apply (moved_tables k3), Hn3.
  - done.
Qed.
End boot_proofs.

(** ** The keyboard loop *)

(** The character of a byte read from the keyboard. *)
Definition key_of_event (e : io_event) : list Z :=
  match e with
  | In port sc =>
      if decide (port = KBD_DATA /\ sc < 128) then
        match keyboard_map !! Z.to_nat sc with
        | Some c => if decide (c = 0) then [] else [c]
        | None => []
        end
      else []
  | _ => []
  end.

Definition typed (es : list io_event) : list Z := concat (key_of_event <$> es).

Lemma typed_app es es' : typed (es ++ es') = typed es ++ typed es'.
Proof. unfold typed. by rewrite fmap_app, concat_app. Qed.

Lemma keyboard_read_typed dev k :
  exists c es, keyboard_read dev false k = Some (c, add_events es k) /\
    Forall (fun e => e <> Sti /\ e <> Cli) es /\
    typed es = match c with Some c => [c] | None => [] end.
Proof.
  rewrite keyboard_read_run. cbv zeta. case_match; [|by do 2 eexists; split_and!; [reflexivity|repeat constructor|]].
  eexists _, _. split; [reflexivity|]. split; [by repeat constructor|]. set (sc := u8 (dev (_ ++ _) _)).
  change (typed [_; In KBD_DATA sc]) with (key_of_event (In KBD_DATA sc) ++ []).
  rewrite app_nil_r. unfold key_of_event. destruct (decide (sc < 128)).
  - rewrite decide_True by done. case_match; [|done]. by case_decide.
  - by rewrite decide_False by tauto.
Qed.

Lemma keyboard_echo_run c cs k :
  displays k cs ->
  exists k', keyboard_echo c k = Some (tt, k') /\ hist k' = hist k ++ [Hlt] /\
    displays k' (cs ++ match c with Some c => [c] | None => [] end).
Proof.
  intros Hd. unfold keyboard_echo. destruct c as [c|].
  - destruct (putchar_displays cs c k Hd) as (k2 & Hr2 & (t & -> & Hd2)).
    rewrite (eff_bind_run _ _ _ _ _ Hr2). by eexists.
  - rewrite eff_bind_ret. eexists. split; [reflexivity|]. split; [done|]. by rewrite app_nil_r.
Qed.

(** The keyboard and the console leave the tables and the interrupt flag alone. *)
Definition armed (k : kernel) : Prop :=
  native_tables k /\ interrupt_flag (hist k) = true.

Lemma key_events_flag h es :
  Forall (fun e => e <> Sti /\ e <> Cli) es -> interrupt_flag (h ++ es) = interrupt_flag h.
Proof.
  intros Hes. rewrite interrupt_flag_app. generalize (interrupt_flag h).
  induction Hes as [|e es He _ IH]; intros b; [done|]. simpl. rewrite IH.
  by destruct e; naive_solver.
Qed.

Lemma keyboard_read_moved dev c k k' :
  keyboard_read dev false k = Some (c, k') ->
  exists es, k' = add_events es k /\ Forall (fun e => e <> Sti /\ e <> Cli) es /\
    typed es = match c with Some c => [c] | None => [] end.
Proof.
  intros Hr. destruct (keyboard_read_typed dev k) as (c' & es & Hr' & Hes & Ht).
  simplify_eq. by exists es.
Qed.

Lemma keyboard_echo_moved c k k' :
  keyboard_echo c k = Some (tt, k') -> exists t, k' = add_events [Hlt] (set_term t k).
Proof.
  unfold keyboard_echo. rewrite eff_bind_unfold. intros Hr. destruct c as [c|].
  - unfold console in Hr. destruct (terminal_putchar c (term k)) as [t|]; [|done].
    injection Hr as <-. by exists t.
  - injection Hr as <-. exists (term k). by destruct k.
Qed.

Lemma armed_events es t k :
  Forall (fun e => e <> Sti /\ e <> Cli) es -> armed k -> armed (add_events es (set_term t k)).
Proof.
  intros Hes [Ht Hf]. split.
  - apply (moved_tables k); [|done]. by exists t, (heap_current k), es.
  - simpl. by rewrite key_events_flag.
Qed.

(** What holds in each state of a run, from the state [k1] in which [kernel_main]
    entered its loop: [Turn] and [Got] are before the echo, [Halted] after it, and
    an interrupt may have come at any of these points. *)
Definition run_ok (sym : xnu_symbols) (ram : Z -> Z -> Z) (h : list io_event) (s : cpu) (k : kernel) : Prop :=
  exists es cs, hist k = h ++ es /\ displays k (boot_text sym ram ++ cs) /\
    match s with
    | Entry => False
    | Turn l => l = final_loop sym ram /\ cs = [] /\ (l = LoopKeyboard -> es = [])
    | Got c => final_loop sym ram = LoopKeyboard /\ cs = [] /\
        typed es = match c with Some c => [c] | None => [] end
    | Halted l => l = final_loop sym ram /\ cs = (if decide (l = LoopKeyboard) then typed es else []) /\
        (l = LoopKeyboard -> (length (typed es) <= 1)%nat)
    | Handler v selector offset => final_loop sym ram = LoopKeyboard /\ 0 <= v < 256 /\
        selector = 8 /\ offset = 0 /\ cs `prefix_of` typed es /\ (length (typed es) <= 1)%nat
    end.

(** The interrupt flag and the tables, as long as the native kernel runs. *)
Definition flag_ok (s : cpu) (k : kernel) : Prop :=
  match s with
  | Turn LoopKeyboard | Got _ | Halted LoopKeyboard => armed k
  | Turn LoopPanic | Halted LoopPanic => interrupt_flag (hist k) = false
  | _ => True
  end.

Section run.
Context (sym : xnu_symbols) (dev : device) (ram : Z -> Z -> Z) (gdt_address idt_address : Z).
Abbreviation step := (kernel_step sym dev ram gdt_address idt_address).

Lemma kernel_main_enters k0 :
  initial k0 ->
  exists k1, kernel_main sym dev ram gdt_address idt_address k0 = Some (final_loop sym ram, k1) /\
    run_ok sym ram (hist k1) (Turn (final_loop sym ram)) k1 /\ flag_ok (Turn (final_loop sym ram)) k1.
Proof.
  intros Hk. destruct (kernel_main_run sym dev ram gdt_address idt_address k0 Hk)
    as (k1 & Hrun & Hd & _ & Ht & Hkey & Hpanic).
  exists k1. split; [done|]. split.
  { exists [], []. by rewrite !app_nil_r. }
  unfold flag_ok. destruct (final_loop sym ram) eqn:El; try done; [by apply Hpanic|].
  split; [|by apply Hkey]. apply Ht. unfold final_loop in El.
  by destruct (start_ok _ _), (uses_xnu _); simplify_eq; destruct (xnuxx_xnu_provider_idle sym).
Qed.

(** An interrupt of the native kernel goes to the offset of every gate, 0. *)
Lemma interrupt_target k v e :
  native_tables k -> idt k !! Z.to_nat v = Some e -> 0 <= v ->
  v < 256 /\ i_selector e = 8 /\ gate_offset e = 0.
Proof.
  intros (_ & Hi & _) He Hv. rewrite Hi in He. apply lookup_replicate in He as [-> Hlt].
  unfold IDT_ENTRIES in Hlt. by split; [lia|].
Qed.

Lemma interrupt_ok h s k v e :
  run_ok sym ram h s k -> flag_ok s k -> interruptible s = true -> interrupt_flag (hist k) = true ->
  idt k !! Z.to_nat v = Some e -> 0 <= v ->
  run_ok sym ram h (Handler v (i_selector e) (gate_offset e)) k.
Proof.
  intros (es & cs & Hh & Hd & Hs) Hf Hi Hon He Hv. exists es, cs. split; [done|]. split; [done|].
  assert (native_tables k) as Ht.
  { destruct s as [|[]|?|[]|]; simpl in *; try done; try (by rewrite Hf in Hon); by destruct Hf. }
  destruct (interrupt_target k v e Ht He Hv) as (Hlt & -> & ->).
  destruct s as [|[]|c|[]|]; simpl in *; try done; try (by rewrite Hf in Hon);
    destruct Hs as (? & -> & Hs); (split; [done|]); (split; [lia|]); (split; [done|]); (split; [done|]).
  - rewrite (Hs eq_refl). split; [done|simpl; lia].
  - rewrite Hs. split; [apply prefix_nil|]. destruct c; simpl; lia.
  - split; [done|]. by apply Hs.
Qed.

Lemma step_ok h s k s' k' :
  s <> Entry -> run_ok sym ram h s k -> flag_ok s k -> step (s, k) (s', k') ->
  run_ok sym ram h s' k' /\ flag_ok s' k'.
Proof.
  intros Hne Hok Hf Hs. inv Hs as [ | ? ? Hr | l ? ? Hl Hr | c ? ? Hr | c ? ? Hr | ? ? v e | ].
  - injection Hr as <-. destruct Hok as (es & cs & Hh & Hd & Hl & -> & _). split; [|done].
    exists (es ++ [XnuIdle]), []. simpl. rewrite Hh, app_assoc. by split_and!.
  - injection Hr as <-. destruct Hok as (es & cs & Hh & Hd & Hfin & -> & _).
    destruct Hl as [->| ->]; (split; [exists (es ++ [Hlt]), []; simpl; rewrite Hh, app_assoc; by split_and!|]).
    + unfold flag_ok in *. simpl. by rewrite key_events_flag by (by repeat constructor).
    + done.
  - destruct Hok as (es & cs & Hh & Hd & Hl & -> & Hes). rewrite (Hes eq_refl), app_nil_r in Hh.
    destruct (keyboard_read_moved dev c k k' Hr) as (es' & -> & Hq & Ht). split.
    + exists es', []. simpl. by rewrite Hh.
    + replace k with (set_term (term k) k) by (by destruct k). by apply armed_events.
  - destruct Hok as (es & cs & Hh & Hd & Hl & -> & Ht). rewrite app_nil_r in Hd.
    destruct (keyboard_echo_run c _ k Hd) as (k2 & Hr2 & Hh2 & Hd2). simplify_eq. split.
    + exists (es ++ [Hlt]), (typed (es ++ [Hlt])). rewrite Hh2, Hh, app_assoc.
      rewrite typed_app, app_nil_r, Ht. split_and!; [done|done|done|by rewrite decide_True|].
      intros _. destruct c; simpl; lia.
    + destruct (keyboard_echo_moved _ _ _ Hr) as (t & ->). by apply armed_events; [repeat constructor|].
  - split; [|done]. by eapply interrupt_ok.
  - destruct Hok as (es & cs & Hh & Hd & Hl & -> & _). split; [|done].
    exists es, []. by split_and!.
Qed.

Lemma kernel_reachable k0 k1 s k :
  kernel_main sym dev ram gdt_address idt_address k0 = Some (final_loop sym ram, k1) ->
  run_ok sym ram (hist k1) (Turn (final_loop sym ram)) k1 -> flag_ok (Turn (final_loop sym ram)) k1 ->
  rtc step (Entry, k0) (s, k) ->
  if decide (s = Entry) then k = k0 else run_ok sym ram (hist k1) s k /\ flag_ok s k.
Proof.
  intros Hmain Hok Hf. revert s k. enough (forall p, rtc step (Entry, k0) p ->
    if decide (p.1 = Entry) then p.2 = k0
    else run_ok sym ram (hist k1) p.1 p.2 /\ flag_ok p.1 p.2) as Hall.
  { intros s k. exact (Hall (s, k)). }
  apply (rtc_ind_r (fun p : cpu * kernel => if decide (p.1 = Entry) then p.2 = k0
    else run_ok sym ram (hist k1) p.1 p.2 /\ flag_ok p.1 p.2)); [done|].
  intros [s1 ks1] [s2 ks2] _ Hs IH. simpl in *. destruct (decide (s1 = Entry)) as [->|Hne].
  - inv Hs. by rewrite decide_False.
  - destruct IH as [IH1 IH2]. rewrite decide_False by (by intros ->; inv Hs). by eapply step_ok.
Qed.

(** What a reachable state can do next. *)
Lemma run_progress h s k :
  s <> Entry -> run_ok sym ram h s k -> flag_ok s k ->
  match s with
  | Entry | Turn _ | Got _ | Halted LoopXnuHalt =>
      exists s' k', (forall v selector offset, s' <> Handler v selector offset) /\ step (s, k) (s', k')
  | Halted LoopKeyboard => forall p,
      step (s, k) p <-> exists v, 0 <= v < 256 /\ p = (Handler v 8 0, k)
  | _ => forall p, ~ step (s, k) p
  end.
Proof.
  intros Hne Hok Hf. destruct s as [|l|c|l|v sel off]; [done| | | |].
  - destruct l.
    1, 3: by eexists (Halted _), _; (split; [done|]); constructor; [auto|reflexivity].
    + eexists (Turn _), _. split; [done|]. by constructor.
    + destruct (keyboard_read_typed dev k) as (c & es & Hr & _).
      eexists (Got c), _. split; [done|]. by constructor.
  - destruct Hok as (es & cs & _ & Hd & _). destruct (keyboard_echo_run c _ k Hd) as (k' & Hr & _).
    exists (Halted LoopKeyboard), k'. split; [done|]. by constructor.
  - destruct l.
    + intros p Hs. inv Hs. simpl in Hf. congruence.
    + intros p Hs. inv Hs.
    + exists (Turn LoopXnuHalt), k. split; [done|]. constructor.
    + destruct Hf as [Ht Hon]. intros p. split.
      * intros Hs. inv Hs as [ | | | | | ? ? v e _ _ _ He Hv | ].
        destruct (interrupt_target k v e Ht He Hv) as (? & -> & ->). by exists v.
      * intros (v & Hv & ->). destruct Ht as (_ & Hi & Hl).
        apply (step_interrupt _ _ _ _ _ (Halted LoopKeyboard) k v (IdtEntry 0 8 0 142 0)); try done; [|lia].
        rewrite Hi. apply lookup_replicate_2. unfold IDT_ENTRIES. lia.
  - intros p Hs. inv Hs.
Qed.
End run.

(** ** Properties *)

(** C38. Booting the 32-bit kernel ([kernel/kernel.c]) from the initial state never
    faults and always reaches the loop that the linked provider determines: XNU is
    used when it is linked, reports itself available and initialises, otherwise the
    native provider; the kernel panics exactly when the chosen provider does not
    start, and the screen shows the corresponding transcript.  The XNU provider's
    functions are taken to return; [kernel64.c] is not modelled. *)
Theorem kernel_main_outcome sym dev ram gdt_address idt_address k :
  initial k ->
  exists k', kernel_main sym dev ram gdt_address idt_address k = Some (final_loop sym ram, k') /\
    displays k' (boot_text sym ram) /\
    active_provider k' = (if uses_xnu sym then PROVIDER_XNU else PROVIDER_NATIVE).
Proof.
  intros Hk. destruct (kernel_main_run sym dev ram gdt_address idt_address k Hk)
    as (k' & ? & ? & ? & _). by exists k'.
Qed.

(** C19. The running kernel, with [hlt] stopping the processor and maskable interrupts
    taken through the gates of the loaded IDT.  In every reachable state after
    [kernel_main] has entered its loop, the loop is the one that the provider
    determines and the screen shows the boot transcript, followed in the native
    keyboard loop by the characters of the keys read so far (by a prefix of them if
    an interrupt came between the read and the echo).  Before it halts the kernel
    can always make a step; a panicked kernel stays halted; and a halted keyboard
    loop can only be left by an interrupt, of any of the 256 vectors, which goes to
    offset 0 of segment 8 because no handler is installed.  So no more than one key
    is ever read and echoed.  Non-maskable interrupts are not modelled. *)
Theorem kernel_runs_until_interrupt sym dev ram gdt_address idt_address k0 :
  initial k0 ->
  exists h, forall s k,
    rtc (kernel_step sym dev ram gdt_address idt_address) (Entry, k0) (s, k) ->
    (s <> Entry -> run_ok sym ram h s k) /\
    match s with
    | Entry | Turn _ | Got _ | Halted LoopXnuHalt =>
        exists s' k', (forall v selector offset, s' <> Handler v selector offset) /\
          kernel_step sym dev ram gdt_address idt_address (s, k) (s', k')
    | Halted LoopKeyboard => forall p,
        kernel_step sym dev ram gdt_address idt_address (s, k) p <->
        exists v, 0 <= v < 256 /\ p = (Handler v 8 0, k)
    | _ => forall p, ~ kernel_step sym dev ram gdt_address idt_address (s, k) p
    end.
Proof.
  intros Hk. destruct (kernel_main_enters sym dev ram gdt_address idt_address k0 Hk)
    as (k1 & Hmain & Hok & Hf).
  exists (hist k1). intros s k Hreach.
  pose proof (kernel_reachable _ _ _ _ _ _ _ _ _ Hmain Hok Hf Hreach) as Hinv.
  destruct (decide (s = Entry)) as [->|Hne].
  { subst. split; [done|]. eexists (Turn _), k1. split; [done|]. by constructor. }
  destruct Hinv as [Hs Hfs]. split; [done|]. by eapply run_progress.
Qed.

(** The native provider enters its loop with interrupts enabled although
    no handler is installed: all 256 gates of the loaded table are present, with
    the offset 0. *)
Theorem native_interrupts_without_handlers sym dev ram gdt_address idt_address k :
  initial k -> uses_xnu sym = false -> ram HEAP_START 3735928559 = 3735928559 ->
  exists k', kernel_main sym dev ram gdt_address idt_address k = Some (LoopKeyboard, k') /\
    interrupt_flag (hist k') = true /\ Lidt (idt_descriptor k') ∈ hist k' /\ length (idt k') = 256%nat /\
    Forall (fun e => gate_offset e = 0 /\ Z.testbit (i_flags e) 7 = true) (idt k').
Proof.
  intros Hk Hx Hr.
  destruct (kernel_main_run sym dev ram gdt_address idt_address k Hk)
    as (k' & Hrun & _ & _ & Hn & Hs & _).
  assert (final_loop sym ram = LoopKeyboard) as Hl.
  { unfold final_loop, start_ok. by rewrite Hx, bool_decide_true by done. }
  rewrite Hl in Hrun. destruct (Hn Hx) as (_ & Hi & Hlidt).
  exists k'. split; [done|]. split; [auto|]. split; [done|]. rewrite Hi.
  split; [apply length_replicate|]. apply Forall_replicate. by vm_compute.
Qed.

(** ** Witnesses *)

Definition no_xnu : xnu_symbols := XnuSymbols None None None false.
Definition with_xnu : xnu_symbols := XnuSymbols (Some 0) (Some 0) (Some 0) true.
Definition good_ram (a v : Z) : Z := v.

Lemma initial_0 : initial kernel0.
Proof. by vm_compute. Qed.

Lemma kernel_main_outcome_witness :
  exists k', kernel_main with_xnu mask_device good_ram 1 2 kernel0 = Some (LoopXnuIdle, k').
Proof.
  destruct (kernel_main_outcome with_xnu mask_device good_ram 1 2 kernel0 initial_0)
    as (k' & Hrun & _).
  exists k'. exact Hrun.
Defined.

(** The native kernel boots, polls the keyboard once and halts. *)
Lemma kernel_runs_until_interrupt_witness :
  exists c k, rtc (kernel_step no_xnu mask_device good_ram 1 2) (Entry, kernel0) (Got c, k) /\
    exists s' k', kernel_step no_xnu mask_device good_ram 1 2 (Got c, k) (s', k').
Proof.
  destruct (kernel_runs_until_interrupt no_xnu mask_device good_ram 1 2 kernel0 initial_0) as (h & Hall).
  destruct (kernel_main_run no_xnu mask_device good_ram 1 2 kernel0 initial_0) as (k1 & Hr1 & _).
  destruct (keyboard_read_typed mask_device k1) as (c & es & Hr2 & _).
  assert (rtc (kernel_step no_xnu mask_device good_ram 1 2) (Entry, kernel0) (Got c, add_events es k1)) as Hreach.
  { eapply rtc_l; [exact (step_main _ _ _ _ _ _ _ _ Hr1)|]. apply rtc_once.
    exact (step_read _ _ _ _ _ _ _ _ Hr2). }
  exists c, (add_events es k1). split; [exact Hreach|].
  destruct (Hall _ _ Hreach) as (_ & s' & k' & _ & Hs). exists s', k'. exact Hs.
Defined.

Lemma native_interrupts_without_handlers_witness :
  exists k', kernel_main no_xnu mask_device good_ram 1 2 kernel0 = Some (LoopKeyboard, k').
Proof.
  destruct (native_interrupts_without_handlers no_xnu mask_device good_ram 1 2 kernel0)
    as (k' & Hrun & _); [exact initial_0|reflexivity|reflexivity|].
  exists k'. exact Hrun.
Defined.
