(* ===== verification/BootPlatform.v ===== *)
(** * The platform of the bootloader and the boot entry
      ([src/boot/boot_platform.c], [src/boot/boot_entry.c])

    The callbacks the boot image gives to the secure bootloader, the image it
    describes, and the entry point that runs the bootloader and then the kernel. *)
From S2P Require Import Prelude BootString Sha256 Bootloader Console Machine Kernel.

Local Open Scope Z_scope.

(** The console of the boot stage: the bytes of the VGA buffer and the cursor. *)
Record boot_world := BootWorld { screen : list Z; console_cursor : Z }.

(** The loop of [console_write], from position [i] of the text. *)
Fixpoint console_write_loop (n : nat) (text : list Z) (i : Z) (w : boot_world)
    : option boot_world :=
  match n with
  | O => Some w
  | S n =>
      c ← zget text i;
      if decide (c = 10) then
        console_write_loop n text (i + 1) (BootWorld (screen w)
          (console_cursor w + (80 - console_cursor w mod 80)))
      else if decide (80 * 25 <= console_cursor w) then Some w
      else
        v ← zset (screen w) (console_cursor w * 2) c;
        v ← zset v (console_cursor w * 2 + 1) 31;
        console_write_loop n text (i + 1) (BootWorld v (console_cursor w + 1))
  end.

Definition console_write (text : list Z) (length : Z) : eff boot_world unit := fun w =>
  w ← console_write_loop (Z.to_nat length) text 0 w; Some (tt, w).

(** The callbacks that stand in for missing hardware. *)
Definition verify_signature_stub (payload : list Z) (payload_size : Z) (signature : list Z)
    (signature_size : Z) : eff boot_world Z := mret 0.
Definition read_generation (generation : Z) : eff boot_world (Z * Z) := mret (0, 0).
Definition load_kernel_stub (payload : list Z) (payload_size : Z) : eff boot_world Z := mret 0.
Definition enter_recovery_stub (result : xnuxx_boot_result) : eff boot_world Z := mret (-1).

(** [measure_sha256] as a callback: a non-null payload and a non-null buffer. *)
Definition measure_callback (payload : list Z) (payload_size : Z) (measurement : list Z)
    : eff boot_world (Z * list Z) :=
  '(status, m) ← eff_opt (measure_sha256 (Some payload) payload_size (Some measurement));
  m ← eff_opt m;
  mret (status, m).

(** [memory] is the 4096 bytes at 0x100000, [header] the size of the structure. *)
Definition boot_image (memory : list Z) (header : Z) : xnuxx_boot_image :=
  BootImage XNUXX_BOOTLOADER_MAGIC XNUXX_BOOTLOADER_API_VERSION header 0
    (Z.lor (Z.lor XNUXX_BOOT_CAP_KERNEL_PROVIDER XNUXX_BOOT_CAP_SECURITY_LAYER)
       XNUXX_BOOT_CAP_DEVICE_LAYER)
    (Some memory) 4096 (Some [86; 77]) 2 (Some (replicate 32 0)).

Definition boot_platform : xnuxx_boot_platform boot_world :=
  BootPlatform
    (Z.lor (Z.lor (Z.lor (Z.lor XNUXX_BOOT_CAP_KERNEL_PROVIDER XNUXX_BOOT_CAP_SECURITY_LAYER)
       XNUXX_BOOT_CAP_UPDATE_LAYER) XNUXX_BOOT_CAP_DEVICE_LAYER) XNUXX_BOOT_CAP_RECOVERY)
    false (Some verify_signature_stub) (Some measure_callback) (Some read_generation)
    (Some load_kernel_stub) (Some enter_recovery_stub) (Some console_write).

Definition boot_policy : Z :=
  Z.lor (Z.lor (Z.lor XNUXX_BOOT_REQUIRE_SIGNATURE XNUXX_BOOT_REQUIRE_MEASUREMENT)
    XNUXX_BOOT_REQUIRE_ROLLBACK_PROTECTION) XNUXX_BOOT_REQUIRE_LAYER_CAPABILITIES.

(** The call at the end of [boot_platform_start]; [stack] and [gen0] are the
    bootloader's uninitialised locals. *)
Definition boot_platform_result (a : arch) (memory stack : list Z) (gen0 : Z)
    : eff boot_world xnuxx_boot_result :=
  xnuxx_bootloader_start (sizeof_boot_image a) (Some boot_platform)
    (Some (boot_image memory (sizeof_boot_image a))) boot_policy stack gen0.

(** The result is not used. *)
Definition boot_platform_start (a : arch) (memory stack : list Z) (gen0 : Z)
    : eff boot_world unit :=
  _ ← boot_platform_result a memory stack gen0; mret tt.

Definition MULTIBOOT2_BOOTLOADER_MAGIC : Z := 920085129.

(** The VGA buffer as the kernel reads it: 16-bit cells. *)
Fixpoint vga_cells (bytes : list Z) : list Z :=
  match bytes with
  | lo :: hi :: bytes => lo + 256 * hi :: vga_cells bytes
  | _ => []
  end.

(** Where [boot_entry] ends: its own halt loop, or a loop of the kernel (whose
    entry does not return). *)
Inductive entry_end := EntryHalted | EntryKernel (l : main_loop).

Section entry.
Context (sym : xnu_symbols) (dev : device) (ram : Z -> Z -> Z) (gdt_address idt_address : Z).

(** The 32-bit entry; [boot_platform_init] is empty, and the kernel, which takes no
    argument, finds the screen as the boot stage left it. *)
Definition boot_entry (memory stack : list Z) (gen0 : Z) (magic multiboot_info : Z)
    (w : boot_world) (k : kernel) : option (entry_end * kernel) :=
  let k := add_event Cli k in
  if decide (magic <> MULTIBOOT2_BOOTLOADER_MAGIC) then Some (EntryHalted, k) else
  '(_, w) ← boot_platform_start I386 memory stack gen0 w;
  let k := set_term (Terminal (vga_cells (screen w)) (cursor_x (term k)) (cursor_y (term k))
             (terminal_color (term k))) k in
  '(l, k) ← kernel_main sym dev ram gdt_address idt_address k;
  Some (EntryKernel l, k).
End entry.

(** ** The console of the boot stage stays on the screen *)

Definition screen_ok (w : boot_world) : Prop :=
  length (screen w) = 4000%nat /\ 0 <= console_cursor w.

Lemma console_write_loop_ok n text i w :
  screen_ok w -> 0 <= i -> i + Z.of_nat n <= Z.of_nat (length text) ->
  exists w', console_write_loop n text i w = Some w' /\ screen_ok w'.
Proof.
  revert i w. induction n as [|n IH]; intros i w [Hl Hc] Hi Hn; simpl; [by exists w|].
  destruct (zget_is_Some text i) as [c ->]; [lia|]. rewrite bind_some.
  case_decide.
  { apply IH; [|lia|lia]. split; [done|]. simpl.
    pose proof (Z.mod_pos_bound (console_cursor w) 80). lia. }
  case_decide; [by exists w|].
  rewrite zset_in by lia. rewrite bind_some, zset_in by (rewrite length_insert; lia).
  rewrite bind_some. apply IH; [|lia|lia]. split; [|simpl; lia]. simpl.
  by rewrite !length_insert.
Qed.

Lemma console_write_ok text w :
  screen_ok w -> Forall (fun c => c <> 0) text ->
  exists w', boot_log boot_platform (text ++ [0]) w = Some (tt, w') /\ screen_ok w'.
Proof.
  intros Hw Ht. unfold boot_log. simpl. rewrite eff_bind_unfold. unfold eff_opt.
  rewrite boot_strlen_eq, strlen_spec by done. rewrite bind_some, bind_some.
  unfold console_write.
  destruct (console_write_loop_ok (Z.to_nat (Z.of_nat (length text))) (text ++ [0]) 0 w)
    as (w' & -> & Hw'); [done|lia|rewrite length_app; lia|]. by exists w'.
Qed.

(** ** The verdict *)

Lemma measure_callback_run memory stack w :
  bytes_ok memory -> length memory = 4096%nat -> length stack = 32%nat ->
  measure_callback memory 4096 stack w = Some ((0, FIPS180.sha256 memory), w).
Proof.
  intros Hm Hl Hs. unfold measure_callback. rewrite eff_bind_unfold. unfold eff_opt at 1.
  replace 4096 with (Z.of_nat (length memory)) by (rewrite Hl; done).
  by rewrite measure_sha256_run.
Qed.

(** With the stubs, the verdict is that of the measurement alone. *)
Definition boot_verdict (memory : list Z) : xnuxx_boot_result :=
  if decide (FIPS180.sha256 memory = replicate 32 0) then BOOT_OK else BOOT_MEASUREMENT_REJECTED.

Lemma boot_measure_run a memory stack gen0 w :
  screen_ok w -> bytes_ok memory -> length memory = 4096%nat -> length stack = 32%nat ->
  exists w', boot_measure boot_platform (boot_image memory (sizeof_boot_image a)) boot_policy gen0
      stack memory (replicate 32 0) w = Some (boot_verdict memory, w') /\ screen_ok w'.
Proof.
  intros Hw Hm Hl Hs. unfold boot_measure.
  change (measure boot_platform) with (Some measure_callback). cbv iota beta.
  rewrite decide_False by (vm_compute; congruence).
  change (payload_size (boot_image memory (sizeof_boot_image a))) with 4096.
  rewrite (eff_bind_run _ _ _ _ _ (measure_callback_run memory stack w Hm Hl Hs)). cbv iota beta.
  rewrite decide_False by lia. rewrite eff_bind_assoc.
  pose proof (sha256_length memory) as Hsha.
  rewrite boot_memcmp_eq, memcmp_spec by (rewrite ?Hsha; done).
  rewrite !take_ge by (rewrite ?Hsha; done). rewrite eff_bind_opt, eff_bind_ret.
  rewrite boot_memset_spec by (rewrite ?Hsha; done). rewrite eff_bind_opt.
  unfold boot_verdict. case_decide as Hz.
  - rewrite bool_decide_false by (rewrite lex_compare_eq by (by rewrite Hsha); tauto).
    destruct (console_write_ok (bytes_of_string
      ("secure verification complete; transferring control" ++ nl)) w Hw) as (w' & Hlog & Hw');
      [repeat constructor; done|].
    exists w'. split; [|done]. unfold boot_rollback_and_load.
    change (read_minimum_generation boot_platform) with (Some read_generation). cbv iota beta.
    rewrite decide_False by (vm_compute; congruence). unfold read_generation. rewrite eff_bind_ret. cbv iota beta.
    rewrite decide_False by (simpl; lia).
    change (load_kernel boot_platform) with (Some load_kernel_stub). cbv iota beta.
    unfold load_kernel_stub. rewrite eff_bind_ret, decide_False by lia.
    rewrite (eff_bind_run _ _ _ _ _ Hlog). reflexivity.
  - rewrite bool_decide_true by (rewrite lex_compare_eq by (by rewrite Hsha); done).
    by exists w.
Qed.

Lemma boot_platform_run a memory stack gen0 w :
  screen_ok w -> bytes_ok memory -> length memory = 4096%nat -> length stack = 32%nat ->
  exists w', boot_platform_result a memory stack gen0 w = Some (boot_verdict memory, w') /\
    screen_ok w'.
Proof.
  intros Hw Hm Hl Hs. unfold boot_platform_result, xnuxx_bootloader_start.
  assert (arguments_valid boot_platform (boot_image memory (sizeof_boot_image a)) = true) as ->.
  { apply bool_decide_eq_true. split_and!; try done; eauto. }
  assert (header_valid (sizeof_boot_image a) (boot_image memory (sizeof_boot_image a)) = true) as ->.
  { apply bool_decide_eq_true. split_and!; try done; eauto. }
  change (ansi_console boot_platform) with false. change (negb true) with false. cbv iota beta.
  rewrite eff_bind_ret.
  destruct (console_write_ok (bytes_of_string ("xnu++ secure bootloader" ++ nl)) w Hw)
    as (w1 & Hlog & Hw1); [repeat constructor; done|].
  rewrite (eff_bind_run _ _ _ _ _ Hlog).
  rewrite decide_False by (intros [_ Hc]; by destruct Hc).
  change (verify_signature boot_platform) with (Some verify_signature_stub).
  change (payload (boot_image ?m ?h)) with (Some m).
  change (signature (boot_image ?m ?h)) with (Some [86; 77]).
  change (expected_measurement (boot_image ?m ?h)) with (Some (replicate 32 0)). cbv iota beta.
  rewrite decide_False by (vm_compute; congruence). unfold verify_signature_stub. rewrite eff_bind_ret.
  rewrite decide_False by lia. by apply boot_measure_run.
Qed.

Lemma vga_cells_length n bytes : length bytes = (2 * n)%nat -> length (vga_cells bytes) = n.
Proof.
  revert bytes. induction n as [|n IH]; intros [|lo [|hi bytes]]; simpl; intros Hl; try lia.
  rewrite IH; lia.
Qed.

(** ** Properties *)

(** The boot stage's verdict: the platform accepts the image exactly when
    the SHA-256 digest of the 4096 bytes at 0x100000 is the constant it compares
    against, 32 zero bytes; in every other case the measurement is rejected.
    The call neither faults nor writes outside the VGA buffer. *)
Theorem boot_platform_verdict a memory stack gen0 w :
  screen_ok w -> bytes_ok memory -> length memory = 4096%nat -> length stack = 32%nat ->
  exists r w', boot_platform_result a memory stack gen0 w = Some (r, w') /\ screen_ok w' /\
    (r = BOOT_OK <-> FIPS180.sha256 memory = replicate 32 0) /\
    (r <> BOOT_OK -> r = BOOT_MEASUREMENT_REJECTED).
Proof.
  intros Hw Hm Hl Hs.
  destruct (boot_platform_run a memory stack gen0 w Hw Hm Hl Hs) as (w' & Hrun & Hw').
  exists (boot_verdict memory), w'. split; [done|]. split; [done|].
  unfold boot_verdict. by case_decide.
Qed.

(** The entry point does not act on the verdict: with the right multiboot
    magic it runs the kernel to its final loop, whatever the bootloader answered,
    and with another magic it halts without running anything. *)
Theorem boot_entry_outcome sym dev ram ga ia memory stack gen0 magic mb w k :
  screen_ok w -> bytes_ok memory -> length memory = 4096%nat -> length stack = 32%nat ->
  initial k ->
  (exists w', boot_platform_result I386 memory stack gen0 w = Some (boot_verdict memory, w')) /\
  exists k', boot_entry sym dev ram ga ia memory stack gen0 magic mb w k =
      Some (if decide (magic = MULTIBOOT2_BOOTLOADER_MAGIC)
            then EntryKernel (final_loop sym ram) else EntryHalted, k') /\
    (magic = MULTIBOOT2_BOOTLOADER_MAGIC -> displays k' (boot_text sym ram)).
Proof.
  intros Hw Hm Hl Hs Hk.
  destruct (boot_platform_run I386 memory stack gen0 w Hw Hm Hl Hs) as (w' & Hrun & Hw').
  split; [by exists w'|]. unfold boot_entry. case_decide as Hne.
  { rewrite decide_False by done. by eexists. }
  rewrite decide_True by (destruct (decide (magic = MULTIBOOT2_BOOTLOADER_MAGIC)); tauto).
  unfold boot_platform_start. rewrite (eff_bind_run _ _ _ _ _ Hrun).
  change ((mret tt : eff boot_world unit) w') with (Some (tt, w')). rewrite bind_some.
  set (k1 := set_term _ _).
  assert (initial k1) as Hk1.
  { destruct Hk as (_ & Hk). split; [|exact Hk]. subst k1. simpl.
    apply vga_cells_length. by destruct Hw' as [-> _]. }
  destruct (kernel_main_run sym dev ram ga ia k1) as (k' & -> & Hd & _); [done|].
  rewrite bind_some. by exists k'.
Qed.

(** ** Witnesses *)

Definition blank_world : boot_world := BootWorld (replicate 4000 0) 0.

Lemma blank_world_ok : screen_ok blank_world.
Proof. by vm_compute. Qed.

Definition zero_memory : list Z := replicate 4096 0.

Lemma zero_memory_ok : bytes_ok zero_memory.
Proof. apply Forall_replicate. by vm_compute. Qed.

(** A page of zero bytes is rejected. *)
Lemma boot_platform_verdict_witness :
  exists w', boot_platform_result I386 zero_memory (replicate 32 0) 0 blank_world =
    Some (BOOT_MEASUREMENT_REJECTED, w').
Proof.
  destruct (boot_platform_verdict I386 zero_memory (replicate 32 0) 0 blank_world)
    as (r & w' & Hrun & _ & Hiff & Hrej);
    [exact blank_world_ok|exact zero_memory_ok|apply length_replicate|apply length_replicate|].
  assert (r = BOOT_MEASUREMENT_REJECTED) as <-; [|exists w'; exact Hrun].
  apply Hrej. rewrite Hiff. vm_compute. congruence.
Defined.

Lemma boot_entry_outcome_witness :
  exists k', boot_entry no_xnu mask_device good_ram 1 2 zero_memory (replicate 32 0) 0
    MULTIBOOT2_BOOTLOADER_MAGIC 0 blank_world kernel0 = Some (EntryKernel LoopKeyboard, k').
Proof.
  destruct (boot_entry_outcome no_xnu mask_device good_ram 1 2 zero_memory (replicate 32 0) 0
    MULTIBOOT2_BOOTLOADER_MAGIC 0 blank_world kernel0) as (_ & k' & Hrun & _);
    [exact blank_world_ok|exact zero_memory_ok|apply length_replicate|apply length_replicate|
     exact initial_0|].
  exists k'. exact Hrun.
Defined.
