(* ===== verification/BpfPacket.v ===== *)
(** * Packet access of the BPF interpreter ([src/bsd/net/bpf_filter.c])

    The interpreter reads bytes, halfwords and words of a packet that is a
    link-layer header followed by a chain of buffers: mbufs, or the buflets of a
    Skywalk packet.  The functions here are the [m_*], [p_*] and [bp_*] routines;
    the theorems relate them to one flat array of bytes. *)
From S2P Require Import Prelude.

Local Open Scope Z_scope.

(** An mbuf: the storage from [m_data] on, and the bytes of it in use. *)
Record mbuf := Mbuf { m_dat : list Z; m_len : Z }.

(** A buflet: its data address (null or the [limit] bytes there), offset and length. *)
Record buflet := Buflet { data_address : option (list Z); data_offset : Z; data_length : Z }.

(** [struct bpf_packet]: the header, and the data by the packet's type; [TypeOther]
    is any other value of [bpfp_type]. *)
Inductive bpfp_data := TypeMbuf (m : list mbuf) | TypePkt (p : list buflet) | TypeOther.
Record bpf_packet := BpfPacket {
  bpfp_header : list Z; bpfp_header_length : Z; bpfp : bpfp_data
}.

(** A pointer into a buffer; the null pointer is a null base with offset 0. *)
Record pointer := Pointer { base : option (list Z); offset : Z }.

Definition is_null (p : pointer) : bool := bool_decide (base p = None /\ offset p = 0).

Definition deref (p : pointer) (i : Z) : option Z := b ← base p; zget b (offset p + i).

Definition EXTRACT_SHORT (p : pointer) : option Z :=
  b0 ← deref p 0; b1 ← deref p 1;
  Some (u16 (Z.lor (Z.shiftl b0 8) b1)).

Definition EXTRACT_LONG (p : pointer) : option Z :=
  b0 ← deref p 0; b1 ← deref p 1; b2 ← deref p 2; b3 ← deref p 3;
  Some (Z.lor (Z.lor (Z.lor (u32 (Z.shiftl b0 24)) (u32 (Z.shiftl b1 16)))
    (u32 (Z.shiftl b2 8))) b3).

Definition get_word_from_buffers (cp np : pointer) (num_from_cp : Z) : option Z :=
  let word b0 b1 b2 b3 :=
    Some (Z.lor (Z.lor (Z.lor (u32 (Z.shiftl b0 24)) (u32 (Z.shiftl b1 16)))
      (u32 (Z.shiftl b2 8))) b3) in
  if decide (num_from_cp = 1) then
    b0 ← deref cp 0; b1 ← deref np 0; b2 ← deref np 1; b3 ← deref np 2; word b0 b1 b2 b3
  else if decide (num_from_cp = 2) then
    b0 ← deref cp 0; b1 ← deref cp 1; b2 ← deref np 0; b3 ← deref np 1; word b0 b1 b2 b3
  else
    b0 ← deref cp 0; b1 ← deref cp 1; b2 ← deref cp 2; b3 ← deref np 0; word b0 b1 b2 b3.

(** Results: [None] is a fault; [Some None] is [*err = 1]; [Some (Some v)] is
    [*err = 0] with the value [v]. *)
Abbreviation loaded := (option (option Z)).

(** ** mbuf chains; the empty list is the null pointer *)

(** The [while] loop of [m_hdr_offset]; [None] is its return of NULL. *)
Fixpoint m_seek (k : Z) (m : mbuf) (next : list mbuf) : option (mbuf * Z * list mbuf) :=
  if decide (m_len m <= k) then
    match next with
    | [] => None
    | m' :: next' => m_seek (k - m_len m) m' next'
    end
  else Some (m, k, next).

(** The pointer returned, with the updated [*m_p], [*k_p] and [*len_p]; for a null
    result these are not used. *)
Definition m_hdr_offset (m : list mbuf) (hdr : list Z) (hdrlen k : Z)
    : option (option (pointer * list mbuf * Z * Z)) :=
  if decide (hdrlen <= k) then
    match m with
    | [] => None
    | m :: next =>
        Some ('(m, k, next) ← m_seek (k - hdrlen) m next;
              Some (Pointer (Some (m_dat m)) k, next, k, m_len m))
    end
  else Some (Some (Pointer (Some hdr) k, m, k, hdrlen)).

Definition mtod (m : mbuf) : pointer := Pointer (Some (m_dat m)) 0.

Definition m_xword (m : list mbuf) (hdr : list Z) (hdrlen k : Z) : loaded :=
  r ← m_hdr_offset m hdr hdrlen k;
  match r with
  | None => Some None
  | Some (cp, m, k, len) =>
      if decide (4 <= len - k) then Some <$> EXTRACT_LONG cp else
      match m with
      | [] => Some None
      | m :: _ =>
          if decide (m_len m + len - k < 4) then Some None
          else Some <$> get_word_from_buffers cp (mtod m) (len - k)
      end
  end.

Definition m_xhalf (m : list mbuf) (hdr : list Z) (hdrlen k : Z) : loaded :=
  r ← m_hdr_offset m hdr hdrlen k;
  match r with
  | None => Some None
  | Some (cp, m, k, len) =>
      if decide (2 <= len - k) then Some <$> EXTRACT_SHORT cp else
      match m with
      | [] => Some None
      | m :: _ =>
          b0 ← deref cp 0; b1 ← deref (mtod m) 0;
          Some (Some (u16 (Z.lor (Z.shiftl b0 8) b1)))
      end
  end.

Definition m_xbyte (m : list mbuf) (hdr : list Z) (hdrlen k : Z) : loaded :=
  r ← m_hdr_offset m hdr hdrlen k;
  match r with
  | None => Some None
  | Some (cp, _, _, _) => Some <$> deref cp 0
  end.

(** ** Skywalk packets: the list of buflets, walked by [kern_packet_get_next_buflet] *)

Definition buflet_get_address (b : buflet) : option (list Z) :=
  a ← data_address b; Some (drop (Z.to_nat (data_offset b)) a).

Fixpoint p_seek (k : Z) (bs : list buflet) : option (buflet * Z * list buflet) :=
  match bs with
  | [] => None
  | b :: bs => if decide (k < data_length b) then Some (b, k, bs) else p_seek (k - data_length b) bs
  end.

(** The last component is what follows [*buflet_p]: all buflets when it is null. *)
Definition p_hdr_offset (p : list buflet) (hdr : list Z) (hdrlen k : Z)
    : option (pointer * list buflet * Z * Z) :=
  if decide (hdrlen <= k) then
    '(b, k, next) ← p_seek (k - hdrlen) p;
    Some (Pointer (buflet_get_address b) k, next, k, data_length b)
  else Some (Pointer (Some hdr) k, p, k, hdrlen).

Definition p_xword (p : list buflet) (hdr : list Z) (hdrlen k : Z) : loaded :=
  match p_hdr_offset p hdr hdrlen k with
  | None => Some None
  | Some (cp, next, k, len) =>
      if is_null cp then Some None else
      if decide (4 <= len - k) then Some <$> EXTRACT_LONG cp else
      match next with
      | [] => Some None
      | b :: _ =>
          if decide (data_length b + len - k < 4) then Some None
          else Some <$> get_word_from_buffers cp (Pointer (buflet_get_address b) 0) (len - k)
      end
  end.

Definition p_xhalf (p : list buflet) (hdr : list Z) (hdrlen k : Z) : loaded :=
  match p_hdr_offset p hdr hdrlen k with
  | None => Some None
  | Some (cp, next, k, len) =>
      if is_null cp then Some None else
      if decide (2 <= len - k) then Some <$> EXTRACT_SHORT cp else
      match next with
      | [] => Some None
      | b :: _ =>
          if decide (data_length b = 0) then Some None else
          b0 ← deref cp 0; b1 ← deref (Pointer (buflet_get_address b) 0) 0;
          Some (Some (u16 (Z.lor (Z.shiftl b0 8) b1)))
      end
  end.

Definition p_xbyte (p : list buflet) (hdr : list Z) (hdrlen k : Z) : loaded :=
  match p_hdr_offset p hdr hdrlen k with
  | None => Some None
  | Some (cp, _, _, _) => if is_null cp then Some None else Some <$> deref cp 0
  end.

(** ** Dispatch on the packet's type *)

Definition bp_xword (bp : bpf_packet) (k : Z) : loaded :=
  match bpfp bp with
  | TypeMbuf m => m_xword m (bpfp_header bp) (bpfp_header_length bp) k
  | TypePkt p => p_xword p (bpfp_header bp) (bpfp_header_length bp) k
  | TypeOther => Some None
  end.

Definition bp_xhalf (bp : bpf_packet) (k : Z) : loaded :=
  match bpfp bp with
  | TypeMbuf m => m_xhalf m (bpfp_header bp) (bpfp_header_length bp) k
  | TypePkt p => p_xhalf p (bpfp_header bp) (bpfp_header_length bp) k
  | TypeOther => Some None
  end.

Definition bp_xbyte (bp : bpf_packet) (k : Z) : loaded :=
  match bpfp bp with
  | TypeMbuf m => m_xbyte m (bpfp_header bp) (bpfp_header_length bp) k
  | TypePkt p => p_xbyte p (bpfp_header bp) (bpfp_header_length bp) k
  | TypeOther => Some None
  end.

(** ** The packet as one array of bytes *)

Definition mbuf_bytes (m : mbuf) : list Z := take (Z.to_nat (m_len m)) (m_dat m).
Definition buflet_bytes (b : buflet) : list Z :=
  take (Z.to_nat (data_length b)) (default [] (buflet_get_address b)).

Definition segments (bp : bpf_packet) : list (list Z) :=
  match bpfp bp with
  | TypeMbuf m => mbuf_bytes <$> m
  | TypePkt p => buflet_bytes <$> p
  | TypeOther => []
  end.

Definition flat (bp : bpf_packet) : list Z :=
  take (Z.to_nat (bpfp_header_length bp)) (bpfp_header bp) ++ concat (segments bp).

(** Big-endian numbers, and the load of [n] bytes at offset [k] of an array. *)
Definition be_value (bs : list Z) : Z := foldl (fun a b => a * 256 + b) 0 bs.
Definition flat_load (n : nat) (fl : list Z) (k : Z) : option Z :=
  if decide (k + Z.of_nat n <= Z.of_nat (length fl))
  then Some (be_value (take n (drop (Z.to_nat k) fl))) else None.

Definition mbuf_ok (m : mbuf) : Prop := 0 <= m_len m <= Z.of_nat (length (m_dat m)).
Definition buflet_ok (b : buflet) : Prop :=
  exists a, data_address b = Some a /\ 0 <= data_offset b /\ 0 <= data_length b /\
    data_offset b + data_length b <= Z.of_nat (length a).

(** A packet whose lengths are within the storage; an mbuf packet has an mbuf. *)
Definition packet_ok (bp : bpf_packet) : Prop :=
  0 <= bpfp_header_length bp <= Z.of_nat (length (bpfp_header bp)) /\
  bytes_ok (flat bp) /\
  match bpfp bp with
  | TypeMbuf m => m <> [] /\ Forall mbuf_ok m
  | TypePkt p => Forall buflet_ok p
  | TypeOther => False
  end.

(** No empty segment, and at least three bytes in each but the last. *)
Definition long_segments (bp : bpf_packet) : Prop :=
  forall i s, segments bp !! i = Some s ->
    (0 < length s)%nat /\ (S i < length (segments bp) -> 3 <= length s)%nat.

(** [cp] points at offset [k] of the array [fl]: [len - off] bytes of the current
    buffer are there, then the segments [next]. *)
Definition located (fl : list Z) (k : Z) (cp : pointer) (off len : Z) (next : list (list Z)) : Prop :=
  exists buf, base cp = Some buf /\ offset cp = off /\ 0 <= off < len /\
    len <= Z.of_nat (length buf) /\
    drop (Z.to_nat k) fl =
      take (Z.to_nat (len - off)) (drop (Z.to_nat off) buf) ++ concat next.

Lemma mbuf_bytes_length m : mbuf_ok m -> Z.of_nat (length (mbuf_bytes m)) = m_len m.
Proof. intros Hm. unfold mbuf_bytes, mbuf_ok in *. rewrite length_take. lia. Qed.

Lemma drop_app_exact {A} (l1 l2 : list A) n m :
  n = (length l1 + m)%nat -> drop n (l1 ++ l2) = drop m l2.
Proof. intros ->. by rewrite drop_app_add. Qed.

Lemma drop_app_within {A} (l1 l2 : list A) n :
  (n <= length l1)%nat -> drop n (l1 ++ l2) = drop n l1 ++ l2.
Proof. apply drop_app_le. Qed.

Lemma m_seek_spec k m ms :
  0 <= k -> Forall mbuf_ok (m :: ms) ->
  match m_seek k m ms with
  | None => Z.of_nat (length (concat (mbuf_bytes <$> m :: ms))) <= k
  | Some (m', k', next) =>
      0 <= k' < m_len m' /\ mbuf_ok m' /\ next `suffix_of` ms /\
      drop (Z.to_nat k) (concat (mbuf_bytes <$> m :: ms)) =
        drop (Z.to_nat k') (mbuf_bytes m') ++ concat (mbuf_bytes <$> next)
  end.
Proof.
  revert k m. induction ms as [|m' ms IH]; intros k m Hk Hok;
    inversion Hok as [|? ? Hm Hms]; subst; pose proof (mbuf_bytes_length m Hm) as Hlen; simpl.
  - case_decide; simpl.
    + rewrite app_nil_r. lia.
    + split_and!; [lia|lia|done|done|]. rewrite drop_app_within by lia. done.
  - case_decide.
    + specialize (IH (k - m_len m) m' ltac:(lia) Hms).
      rewrite (drop_app_exact _ _ _ (Z.to_nat (k - m_len m))) by lia.
      destruct (m_seek (k - m_len m) m' ms) as [[[m1 k1] next]|].
      * destruct IH as (? & ? & Hsuf & Hd). split_and!; [lia|lia|done| |exact Hd].
        by apply suffix_cons_r.
      * rewrite length_app. simpl in IH. lia.
    + split_and!; [lia|lia|done|done|]. rewrite drop_app_within by lia. done.
Qed.

Lemma buflet_ok_address b :
  buflet_ok b ->
  exists a, buflet_get_address b = Some a /\ 0 <= data_length b <= Z.of_nat (length a) /\
    buflet_bytes b = take (Z.to_nat (data_length b)) a /\
    Z.of_nat (length (buflet_bytes b)) = data_length b.
Proof.
  intros (a & Ha & Ho & Hl & Hb). unfold buflet_bytes, buflet_get_address. rewrite Ha. simpl.
  eexists. split; [reflexivity|]. rewrite length_take, length_drop. split_and!; try done; lia.
Qed.

Lemma p_seek_spec k bs :
  0 <= k -> Forall buflet_ok bs ->
  match p_seek k bs with
  | None => Z.of_nat (length (concat (buflet_bytes <$> bs))) <= k
  | Some (b, k', next) =>
      0 <= k' < data_length b /\ buflet_ok b /\ next `suffix_of` bs /\
      drop (Z.to_nat k) (concat (buflet_bytes <$> bs)) =
        drop (Z.to_nat k') (buflet_bytes b) ++ concat (buflet_bytes <$> next)
  end.
Proof.
  intros Hk Hok. revert k Hk. induction Hok as [|b bs Hb Hbs IH]; intros k Hk; simpl; [lia|].
  destruct (buflet_ok_address b Hb) as (? & _ & Hpos & _ & Hlen).
  case_decide.
  - split_and!; [lia|lia|done|by apply suffix_cons_r|]. rewrite drop_app_within by lia. done.
  - specialize (IH (k - data_length b) ltac:(lia)).
    rewrite (drop_app_exact _ _ _ (Z.to_nat (k - data_length b))) by lia.
    destruct (p_seek (k - data_length b) bs) as [[[b1 k1] next]|].
    + destruct IH as ([??] & ? & Hsuf & Hd). split_and!; [lia|lia|done| |exact Hd].
      by apply suffix_cons_r.
    + rewrite length_app. change (list_fmap _ _ _ bs) with (buflet_bytes <$> bs). lia.
Qed.

Lemma take_drop_prefix {A} (l : list A) n m :
  drop m (take n l) = take (n - m) (drop m l).
Proof. apply skipn_firstn_comm. Qed.

Lemma located_header hdr hdrlen k next :
  0 <= hdrlen <= Z.of_nat (length hdr) -> 0 <= k < hdrlen ->
  located (take (Z.to_nat hdrlen) hdr ++ concat next) k (Pointer (Some hdr) k) k hdrlen next.
Proof.
  intros Hh Hk. exists hdr. split_and!; try done; try lia.
  rewrite drop_app_within by (rewrite length_take; lia).
  rewrite take_drop_prefix. do 3 f_equal. lia.
Qed.

Lemma located_past fl hdr hdrlen k buf off len next :
  0 <= hdrlen <= Z.of_nat (length hdr) -> hdrlen <= k ->
  0 <= off < len -> len <= Z.of_nat (length buf) ->
  drop (Z.to_nat (k - hdrlen)) fl = drop (Z.to_nat off) (take (Z.to_nat len) buf) ++ concat next ->
  located (take (Z.to_nat hdrlen) hdr ++ fl) k (Pointer (Some buf) off) off len next.
Proof.
  intros Hh Hk Ho Hl Hd. exists buf. split_and!; try done; try lia.
  rewrite (drop_app_exact _ _ _ (Z.to_nat (k - hdrlen))) by (rewrite length_take; lia).
  rewrite Hd, take_drop_prefix. do 3 f_equal. lia.
Qed.

(** Both searches find the byte, or the offset is past the end. *)
Lemma m_hdr_offset_located hdr hdrlen m k :
  0 <= hdrlen <= Z.of_nat (length hdr) -> m <> [] -> Forall mbuf_ok m -> 0 <= k ->
  match m_hdr_offset m hdr hdrlen k with
  | None => False
  | Some None =>
      Z.of_nat (length (take (Z.to_nat hdrlen) hdr ++ concat (mbuf_bytes <$> m))) <= k
  | Some (Some (cp, next, k', len)) =>
      located (take (Z.to_nat hdrlen) hdr ++ concat (mbuf_bytes <$> m)) k cp k' len
        (mbuf_bytes <$> next) /\ next `suffix_of` m
  end.
Proof.
  intros Hh Hne Hok Hk. unfold m_hdr_offset. destruct m as [|m ms]; [done|]. case_decide.
  - pose proof (m_seek_spec (k - hdrlen) m ms ltac:(lia) Hok) as Hseek.
    destruct (m_seek (k - hdrlen) m ms) as [[[m' k'] next]|]; simpl mbind.
    + destruct Hseek as (? & ? & Hsuf & Hd). split; [|by apply suffix_cons_r].
      apply located_past; try done; unfold mbuf_ok in *; lia.
    + rewrite length_app, length_take. lia.
  - split; [|done]. apply located_header; lia.
Qed.

Lemma p_hdr_offset_located hdr hdrlen p k :
  0 <= hdrlen <= Z.of_nat (length hdr) -> Forall buflet_ok p -> 0 <= k ->
  match p_hdr_offset p hdr hdrlen k with
  | None =>
      Z.of_nat (length (take (Z.to_nat hdrlen) hdr ++ concat (buflet_bytes <$> p))) <= k
  | Some (cp, next, k', len) =>
      located (take (Z.to_nat hdrlen) hdr ++ concat (buflet_bytes <$> p)) k cp k' len
        (buflet_bytes <$> next) /\ next `suffix_of` p
  end.
Proof.
  intros Hh Hok Hk. unfold p_hdr_offset. case_decide.
  - pose proof (p_seek_spec (k - hdrlen) p ltac:(lia) Hok) as Hseek.
    destruct (p_seek (k - hdrlen) p) as [[[b k'] next]|]; simpl mbind.
    + destruct Hseek as (? & Hb & Hsuf & Hd). split; [|done].
      destruct (buflet_ok_address b Hb) as (a & -> & ? & Hbytes & _).
      apply located_past; try done; [lia|]. by rewrite <-Hbytes.
    + rewrite length_app, length_take. lia.
  - split; [|done]. apply located_header; lia.
Qed.

(** ** Loads through a located pointer *)

Lemma located_bytes fl k cp off len next :
  located fl k cp off len next ->
  exists A, drop (Z.to_nat k) fl = A ++ concat next /\ Z.of_nat (length A) = len - off /\
    A <> [] /\ (forall i, 0 <= i < len - off -> deref cp i = A !! Z.to_nat i).
Proof.
  intros (buf & Hb & Ho & Hr & Hl & Hd). eexists. split; [exact Hd|].
  assert (Z.of_nat (length (take (Z.to_nat (len - off)) (drop (Z.to_nat off) buf))) = len - off)
    as HA by (rewrite length_take, length_drop; lia).
  split; [exact HA|]. split; [intros E; rewrite E in HA; simpl in HA; lia|].
  intros i Hi. unfold deref. rewrite Hb, Ho, bind_some. unfold zget. rewrite decide_True by lia.
  rewrite lookup_take_lt by lia. rewrite lookup_drop. f_equal. lia.
Qed.

Lemma half_be b0 b1 :
  byte_ok b0 -> byte_ok b1 -> u16 (Z.lor (Z.shiftl b0 8) b1) = be_value [b0; b1].
Proof.
  intros H0 H1. rewrite Z.shiftl_mul_pow2 by lia. rewrite lor_high_low by (unfold in_word in *; lia).
  unfold be_value. simpl. rewrite wrap_small; [lia|]. unfold in_word in *. lia.
Qed.

Lemma word_be b0 b1 b2 b3 :
  byte_ok b0 -> byte_ok b1 -> byte_ok b2 -> byte_ok b3 ->
  Z.lor (Z.lor (Z.lor (u32 (Z.shiftl b0 24)) (u32 (Z.shiftl b1 16))) (u32 (Z.shiftl b2 8))) b3 =
    be_value [b0; b1; b2; b3].
Proof.
  unfold in_word. change (2 ^ 8) with 256. intros H0 H1 H2 H3.
  rewrite !Z.shiftl_mul_pow2 by lia. rewrite !wrap_small by (unfold in_word; lia).
  rewrite (lor_high_low 24) by lia.
  replace (b0 * 2 ^ 24 + b1 * 2 ^ 16) with ((b0 * 256 + b1) * 2 ^ 16) by lia.
  rewrite (lor_high_low 16) by lia.
  replace ((b0 * 256 + b1) * 2 ^ 16 + b2 * 2 ^ 8) with (((b0 * 256 + b1) * 256 + b2) * 2 ^ 8) by lia.
  rewrite (lor_high_low 8) by lia. unfold be_value. simpl. lia.
Qed.

Lemma flat_load_drop n fl k T :
  0 <= k -> drop (Z.to_nat k) fl = T ->
  flat_load (S n) fl k =
    if decide (S n <= length T)%nat then Some (be_value (take (S n) T)) else None.
Proof.
  intros Hk <-. unfold flat_load. rewrite length_drop.
  repeat case_decide; try done; lia.
Qed.

Lemma bytes_drop n fl A B : bytes_ok fl -> drop n fl = A ++ B -> bytes_ok A /\ bytes_ok B.
Proof. intros Hb Hd. apply Forall_app. rewrite <-Hd. by apply Forall_drop. Qed.

(** Unfold the elements of a list of known bytes. *)
Ltac known_bytes :=
  repeat match goal with
  | H : Forall _ (_ :: _) |- _ => apply Forall_cons in H as [? H]
  end.

Lemma byte_located fl k cp off len next :
  0 <= k -> located fl k cp off len next -> Some <$> deref cp 0 = Some (flat_load 1 fl k).
Proof.
  intros Hk Hloc. destruct (located_bytes _ _ _ _ _ _ Hloc) as (A & Hd & Hlen & HA & Hder).
  rewrite (flat_load_drop _ _ _ _ Hk Hd). destruct A as [|a A]; [done|].
  rewrite decide_True by (simpl; lia). by rewrite (Hder 0) by (simpl in *; lia).
Qed.

Lemma half_located fl k cp off len next :
  bytes_ok fl -> 0 <= k -> located fl k cp off len next -> 2 <= len - off ->
  Some <$> EXTRACT_SHORT cp = Some (flat_load 2 fl k).
Proof.
  intros Hb Hk Hloc Hl. destruct (located_bytes _ _ _ _ _ _ Hloc) as (A & Hd & Hlen & _ & Hder).
  rewrite (flat_load_drop _ _ _ _ Hk Hd). destruct (bytes_drop _ _ _ _ Hb Hd) as [HbA _].
  destruct A as [|a [|b A]]; simpl in Hlen; [lia|lia|]. unfold EXTRACT_SHORT.
  rewrite (Hder 0), (Hder 1) by (simpl in *; lia). known_bytes.
  rewrite decide_True by (simpl; lia). simpl. by rewrite half_be.
Qed.

Lemma word_located fl k cp off len next :
  bytes_ok fl -> 0 <= k -> located fl k cp off len next -> 4 <= len - off ->
  Some <$> EXTRACT_LONG cp = Some (flat_load 4 fl k).
Proof.
  intros Hb Hk Hloc Hl. destruct (located_bytes _ _ _ _ _ _ Hloc) as (A & Hd & Hlen & _ & Hder).
  rewrite (flat_load_drop _ _ _ _ Hk Hd). destruct (bytes_drop _ _ _ _ Hb Hd) as [HbA _].
  destruct A as [|a [|b [|c [|d A]]]]; simpl in Hlen; [lia..|]. unfold EXTRACT_LONG.
  rewrite (Hder 0), (Hder 1), (Hder 2), (Hder 3) by (simpl in *; lia). known_bytes.
  rewrite decide_True by (simpl; lia). simpl. by rewrite word_be.
Qed.

(** A halfword across the end of the buffer. *)
Lemma half_across fl k cp off len s next np :
  bytes_ok fl -> 0 <= k -> located fl k cp off len (s :: next) -> len - off < 2 ->
  (forall i, 0 <= i < Z.of_nat (length s) -> deref np i = s !! Z.to_nat i) -> (0 < length s)%nat ->
  (b0 ← deref cp 0; b1 ← deref np 0; Some (Some (u16 (Z.lor (Z.shiftl b0 8) b1)))) =
    Some (flat_load 2 fl k).
Proof.
  intros Hb Hk Hloc Hl Hs Hpos. destruct (located_bytes _ _ _ _ _ _ Hloc) as (A & Hd & Hlen & HA & Hder).
  rewrite (flat_load_drop _ _ _ _ Hk Hd). destruct (bytes_drop _ _ _ _ Hb Hd) as [HbA HbS].
  destruct A as [|a [|]]; simpl in Hlen; [done| |lia]. destruct s as [|b s]; simpl in Hpos; [lia|].
  simpl in HbS. rewrite (Hder 0), (Hs 0) by (simpl in *; lia). known_bytes.
  rewrite decide_True by (simpl; lia). simpl. by rewrite half_be.
Qed.

(** A word across the end of the buffer. *)
Lemma word_across fl k cp off len s next np :
  bytes_ok fl -> 0 <= k -> located fl k cp off len (s :: next) -> len - off < 4 ->
  (forall i, 0 <= i < Z.of_nat (length s) -> deref np i = s !! Z.to_nat i) ->
  4 <= Z.of_nat (length s) + len - off ->
  Some <$> get_word_from_buffers cp np (len - off) = Some (flat_load 4 fl k).
Proof.
  intros Hb Hk Hloc Hl Hs Hpos. destruct (located_bytes _ _ _ _ _ _ Hloc) as (A & Hd & Hlen & HA & Hder).
  rewrite (flat_load_drop _ _ _ _ Hk Hd). destruct (bytes_drop _ _ _ _ Hb Hd) as [HbA HbS].
  rewrite <-Hlen. simpl in HbS. apply Forall_app in HbS as [HbS _].
  destruct A as [|a [|b [|c [|]]]]; simpl in Hlen; [done| | | |lia];
    destruct s as [|d [|e [|f s]]]; simpl in Hpos; try lia;
    unfold get_word_from_buffers; simpl length;
    repeat (rewrite decide_True by lia || rewrite decide_False by lia);
    rewrite ?(Hder 0), ?(Hder 1), ?(Hder 2) by (simpl in *; lia);
    rewrite ?(Hs 0), ?(Hs 1), ?(Hs 2) by (simpl in *; lia);
    known_bytes; try rewrite decide_True by (simpl; lia); simpl; by rewrite word_be.
Qed.

Lemma mtod_bytes m i :
  0 <= i < Z.of_nat (length (mbuf_bytes m)) -> deref (mtod m) i = mbuf_bytes m !! Z.to_nat i.
Proof.
  intros Hi. unfold deref, mtod, mbuf_bytes in *. simpl. rewrite length_take in Hi.
  unfold zget. rewrite decide_True by lia. rewrite lookup_take_lt by lia. f_equal.
Qed.

Lemma buflet_pointer_bytes b i :
  buflet_ok b -> 0 <= i < Z.of_nat (length (buflet_bytes b)) ->
  deref (Pointer (buflet_get_address b) 0) i = buflet_bytes b !! Z.to_nat i.
Proof.
  intros Hb Hi. destruct (buflet_ok_address b Hb) as (a & Ha & Hl & Hbytes & Hlen).
  rewrite Hbytes, Ha in *. unfold deref. simpl. rewrite length_take in Hi.
  unfold zget. rewrite decide_True by lia. rewrite lookup_take_lt by lia. f_equal.
Qed.

Lemma located_not_null fl k cp off len next : located fl k cp off len next -> is_null cp = false.
Proof. intros (buf & Hb & _). apply bool_decide_eq_false. rewrite Hb. naive_solver. Qed.

(** What a load of [n] bytes gives: the bytes at [k], or an error. *)
Definition load_sound (n : nat) (bp : bpf_packet) (k : Z) (r : loaded) : Prop :=
  r = Some None \/ r = Some (flat_load n (flat bp) k).

(** The remaining [next] of a chain, in terms of the segments of the packet. *)
Lemma suffix_segment {A} (f : A -> list Z) (l : list A) x next :
  (x :: next) `suffix_of` l ->
  (forall i s, (f <$> l) !! i = Some s ->
     (0 < length s)%nat /\ (S i < length (f <$> l) -> 3 <= length s)%nat) ->
  (0 < length (f x))%nat /\ (next <> [] -> 3 <= length (f x))%nat.
Proof.
  intros [pre ->] Hl. destruct (Hl (length pre) (f x)) as [H1 H2].
  - rewrite fmap_app, lookup_app_r by (by rewrite length_fmap).
    by rewrite length_fmap, Nat.sub_diag.
  - split; [done|]. intros Hne. apply H2. rewrite length_fmap, length_app. simpl.
    destruct next; [done|]. simpl. lia.
Qed.

(** A load that would run past the last byte is an error of the flat array, too. *)
Lemma flat_load_short n fl k cp off len next :
  0 <= k -> located fl k cp off len next -> len - off + Z.of_nat (length (concat next)) < Z.of_nat (S n) ->
  flat_load (S n) fl k = None.
Proof.
  intros Hk Hloc Hs. destruct (located_bytes _ _ _ _ _ _ Hloc) as (A & Hd & Hlen & _).
  rewrite (flat_load_drop _ _ _ _ Hk Hd). rewrite decide_False; [done|]. rewrite length_app. lia.
Qed.

Lemma flat_load_past n fl k : Z.of_nat (length fl) <= k -> flat_load (S n) fl k = None.
Proof. intros Hk. unfold flat_load. by rewrite decide_False by lia. Qed.

(** The buffer after the current one, as the next segment. *)
Inductive follows : option (pointer * Z) -> list (list Z) -> Prop :=
  | follows_none : follows None []
  | follows_some np nl s rest :
      nl = Z.of_nat (length s) ->
      (forall i, 0 <= i < nl -> deref np i = s !! Z.to_nat i) ->
      follows (Some (np, nl)) (s :: rest).

(** The common end of [m_xword] and [p_xword]. *)
Definition word_tail (cp : pointer) (k len : Z) (next : option (pointer * Z)) : loaded :=
  if decide (4 <= len - k) then Some <$> EXTRACT_LONG cp else
  match next with
  | None => Some None
  | Some (np, nl) =>
      if decide (nl + len - k < 4) then Some None
      else Some <$> get_word_from_buffers cp np (len - k)
  end.

Definition next_long (segs : list (list Z)) : Prop :=
  match segs with
  | s :: rest => (0 < length s)%nat /\ (rest <> [] -> 3 <= length s)%nat
  | [] => True
  end.

Lemma word_tail_sound fl k cp k' len next segs :
  bytes_ok fl -> 0 <= k -> located fl k cp k' len segs -> follows next segs ->
  (word_tail cp k' len next = Some None \/ word_tail cp k' len next = Some (flat_load 4 fl k)) /\
  (next_long segs -> word_tail cp k' len next = Some (flat_load 4 fl k)).
Proof.
  intros Hb Hk Hloc Hf. unfold word_tail. pose proof Hloc as (_ & _ & _ & Hr & _). case_decide.
  { rewrite (word_located _ _ _ _ _ _ Hb Hk Hloc) by done. auto. }
  destruct Hf as [|np nl s rest -> Hder].
  { rewrite (flat_load_short 3 _ _ _ _ _ _ Hk Hloc) by (simpl; lia). auto. }
  case_decide.
  - split; [by left|]. intros [Hpos H3]. destruct rest as [|r rest]; [|specialize (H3 ltac:(done)); lia].
    rewrite (flat_load_short 3 _ _ _ _ _ _ Hk Hloc); [done|]. simpl. rewrite app_nil_r. lia.
  - rewrite (word_across _ _ _ _ _ _ _ _ Hb Hk Hloc) by (done || lia). auto.
Qed.

(** The common end of the halfword loads; [guard] is the test of the next length
    that only [p_xhalf] makes. *)
Definition half_tail (cp : pointer) (k len : Z) (guard : bool) (next : option (pointer * Z)) : loaded :=
  if decide (2 <= len - k) then Some <$> EXTRACT_SHORT cp else
  match next with
  | None => Some None
  | Some (np, nl) =>
      if guard && bool_decide (nl = 0) then Some None else
      b0 ← deref cp 0; b1 ← deref np 0; Some (Some (u16 (Z.lor (Z.shiftl b0 8) b1)))
  end.

Lemma half_tail_sound fl k cp k' len guard next segs :
  bytes_ok fl -> 0 <= k -> located fl k cp k' len segs -> follows next segs ->
  next_long segs -> half_tail cp k' len guard next = Some (flat_load 2 fl k).
Proof.
  intros Hb Hk Hloc Hf Hl. unfold half_tail. pose proof Hloc as (_ & _ & _ & Hr & _). case_decide.
  { by rewrite (half_located _ _ _ _ _ _ Hb Hk Hloc) by done. }
  destruct Hf as [|np nl s rest -> Hder].
  { by rewrite (flat_load_short 1 _ _ _ _ _ _ Hk Hloc) by (simpl; lia). }
  destruct Hl as [Hpos _]. rewrite bool_decide_false by lia. rewrite andb_false_r.
  apply (half_across _ _ _ _ _ _ _ _ Hb Hk Hloc); [lia|done|done].
Qed.

Definition m_next (next : list mbuf) : option (pointer * Z) :=
  match next with [] => None | m :: _ => Some (mtod m, m_len m) end.
Definition p_next (next : list buflet) : option (pointer * Z) :=
  match next with
  | [] => None
  | b :: _ => Some (Pointer (buflet_get_address b) 0, data_length b)
  end.

Lemma m_next_follows next : Forall mbuf_ok next -> follows (m_next next) (mbuf_bytes <$> next).
Proof.
  intros [|m rest Hm Hrest]; simpl; constructor.
  - by rewrite mbuf_bytes_length.
  - rewrite <-mbuf_bytes_length by done. apply mtod_bytes.
Qed.

Lemma p_next_follows next : Forall buflet_ok next -> follows (p_next next) (buflet_bytes <$> next).
Proof.
  intros [|b rest Hb Hrest]; simpl; constructor.
  - destruct (buflet_ok_address b Hb) as (? & _ & _ & _ & ?). done.
  - destruct (buflet_ok_address b Hb) as (? & _ & _ & _ & Hl). rewrite <-Hl.
    intros i. by apply buflet_pointer_bytes.
Qed.

Lemma suffix_Forall {A} (P : A -> Prop) l l' : l `suffix_of` l' -> Forall P l' -> Forall P l.
Proof. intros [pre ->] H. by apply Forall_app in H as [_ H]. Qed.

Lemma suffix_next_long {A} (f : A -> list Z) (l next : list A) :
  next `suffix_of` l ->
  (forall i s, (f <$> l) !! i = Some s ->
     (0 < length s)%nat /\ (S i < length (f <$> l) -> 3 <= length s)%nat) ->
  next_long (f <$> next).
Proof.
  intros Hsuf Hl. destruct next as [|x next]; [done|]. simpl.
  destruct (suffix_segment f l x next Hsuf Hl) as [H1 H2]. split; [done|].
  intros Hne. apply H2. by destruct next.
Qed.

Section loads.
Context (bp : bpf_packet) (k : Z) (Hok : packet_ok bp) (Hk : 0 <= k).

(** The two searches, for any routine that continues from the pointer found. *)
Lemma m_load_from {m} (tail : pointer -> Z -> Z -> option (pointer * Z) -> loaded) (Q : loaded -> Prop) :
  bpfp bp = TypeMbuf m ->
  (Z.of_nat (length (flat bp)) <= k -> Q (Some None)) ->
  (forall cp k' len next, located (flat bp) k cp k' len (mbuf_bytes <$> next) ->
     next `suffix_of` m -> follows (m_next next) (mbuf_bytes <$> next) ->
     Q (tail cp k' len (m_next next))) ->
  Q (r ← m_hdr_offset m (bpfp_header bp) (bpfp_header_length bp) k;
     match r with
     | None => Some None
     | Some (cp, next, k', len) => tail cp k' len (m_next next)
     end).
Proof.
  intros Ht Hpast Htail. destruct Hok as (Hh & Hb & Hty).
  unfold flat, segments in *. rewrite Ht in *. destruct Hty as [Hne Hm].
  pose proof (m_hdr_offset_located _ _ m k Hh Hne Hm Hk) as Hloc.
  destruct (m_hdr_offset m _ _ k) as [[[[[cp next] k'] len]|]|]; [| |done].
  - destruct Hloc as [Hloc Hsuf]. apply Htail; [done|done|].
    apply m_next_follows. by apply (suffix_Forall _ _ m).
  - by apply Hpast.
Qed.

Lemma p_load_from {p} (tail : pointer -> Z -> Z -> option (pointer * Z) -> loaded) (Q : loaded -> Prop) :
  bpfp bp = TypePkt p ->
  (Z.of_nat (length (flat bp)) <= k -> Q (Some None)) ->
  (forall cp k' len next, located (flat bp) k cp k' len (buflet_bytes <$> next) ->
     next `suffix_of` p -> follows (p_next next) (buflet_bytes <$> next) ->
     Q (tail cp k' len (p_next next))) ->
  Q (match p_hdr_offset p (bpfp_header bp) (bpfp_header_length bp) k with
     | None => Some None
     | Some (cp, next, k', len) => if is_null cp then Some None else tail cp k' len (p_next next)
     end).
Proof.
  intros Ht Hpast Htail. destruct Hok as (Hh & Hb & Hty).
  unfold flat, segments in *. rewrite Ht in *.
  pose proof (p_hdr_offset_located _ _ p k Hh Hty Hk) as Hloc.
  destruct (p_hdr_offset p _ _ k) as [[[[cp next] k'] len]|].
  - destruct Hloc as [Hloc Hsuf]. rewrite (located_not_null _ _ _ _ _ _ Hloc).
    apply Htail; [done|done|]. apply p_next_follows. by apply (suffix_Forall _ _ p).
  - by apply Hpast.
Qed.
End loads.

(** The routines are the common searches and ends. *)
Lemma m_xword_tail m hdr hdrlen k :
  m_xword m hdr hdrlen k = (r ← m_hdr_offset m hdr hdrlen k;
    match r with None => Some None
    | Some (cp, next, k', len) => word_tail cp k' len (m_next next) end).
Proof.
  unfold m_xword. destruct (m_hdr_offset m hdr hdrlen k) as [[[[[cp next] k'] len]|]|]; [|done..].
  unfold word_tail. by destruct next.
Qed.

Lemma m_xhalf_tail m hdr hdrlen k :
  m_xhalf m hdr hdrlen k = (r ← m_hdr_offset m hdr hdrlen k;
    match r with None => Some None
    | Some (cp, next, k', len) => half_tail cp k' len false (m_next next) end).
Proof.
  unfold m_xhalf. destruct (m_hdr_offset m hdr hdrlen k) as [[[[[cp next] k'] len]|]|]; [|done..].
  unfold half_tail. by destruct next.
Qed.

Lemma p_xword_tail p hdr hdrlen k :
  p_xword p hdr hdrlen k = match p_hdr_offset p hdr hdrlen k with None => Some None
    | Some (cp, next, k', len) =>
        if is_null cp then Some None else word_tail cp k' len (p_next next) end.
Proof.
  unfold p_xword. destruct (p_hdr_offset p hdr hdrlen k) as [[[[cp next] k'] len]|]; [|done].
  unfold word_tail. by destruct next.
Qed.

Lemma p_xhalf_tail p hdr hdrlen k :
  p_xhalf p hdr hdrlen k = match p_hdr_offset p hdr hdrlen k with None => Some None
    | Some (cp, next, k', len) =>
        if is_null cp then Some None else half_tail cp k' len true (p_next next) end.
Proof.
  unfold p_xhalf. destruct (p_hdr_offset p hdr hdrlen k) as [[[[cp next] k'] len]|]; [|done].
  unfold half_tail. destruct next as [|b next]; [done|]. simpl.
  destruct (is_null cp); [done|]. case_decide; [done|].
  case_decide; by case_bool_decide.
Qed.

Lemma bp_xbyte_exact bp k :
  packet_ok bp -> 0 <= k -> bp_xbyte bp k = Some (flat_load 1 (flat bp) k).
Proof.
  intros Hok Hk. pose proof Hok as (_ & _ & Hty). unfold bp_xbyte.
  destruct (bpfp bp) as [m|p|] eqn:Ht; [| |done].
  - apply (m_load_from bp k Hok Hk (fun cp _ _ _ => Some <$> deref cp 0)
      (fun r => r = Some (flat_load 1 (flat bp) k)) Ht).
    + intros Hp. by rewrite flat_load_past.
    + intros cp k' len next Hloc _ _. by rewrite (byte_located _ _ _ _ _ _ Hk Hloc).
  - apply (p_load_from bp k Hok Hk (fun cp _ _ _ => Some <$> deref cp 0)
      (fun r => r = Some (flat_load 1 (flat bp) k)) Ht).
    + intros Hp. by rewrite flat_load_past.
    + intros cp k' len next Hloc _ _. by rewrite (byte_located _ _ _ _ _ _ Hk Hloc).
Qed.

Lemma long_segments_m bp m :
  bpfp bp = TypeMbuf m -> long_segments bp ->
  forall next, next `suffix_of` m -> next_long (mbuf_bytes <$> next).
Proof.
  unfold long_segments, segments. intros -> Hl next Hsuf. by apply (suffix_next_long _ m).
Qed.

Lemma long_segments_p bp p :
  bpfp bp = TypePkt p -> long_segments bp ->
  forall next, next `suffix_of` p -> next_long (buflet_bytes <$> next).
Proof.
  unfold long_segments, segments. intros -> Hl next Hsuf. by apply (suffix_next_long _ p).
Qed.

Lemma bp_xword_sound bp k :
  packet_ok bp -> 0 <= k ->
  load_sound 4 bp k (bp_xword bp k) /\
  (long_segments bp -> bp_xword bp k = Some (flat_load 4 (flat bp) k)).
Proof.
  intros Hok Hk. pose proof Hok as (_ & Hb & Hty). unfold bp_xword, load_sound.
  destruct (bpfp bp) as [m|p|] eqn:Ht; [rewrite m_xword_tail|rewrite p_xword_tail|done].
  - apply (m_load_from bp k Hok Hk word_tail (fun r => (r = Some None \/ r = Some (flat_load 4 (flat bp) k))
      /\ (long_segments bp -> r = Some (flat_load 4 (flat bp) k))) Ht).
    + intros Hp. rewrite flat_load_past by done. auto.
    + intros cp k' len next Hloc Hsuf Hf.
      destruct (word_tail_sound _ _ _ _ _ _ _ Hb Hk Hloc Hf) as [H1 H2]. split; [done|].
      intros Hl. apply H2. by apply (long_segments_m bp m).
  - apply (p_load_from bp k Hok Hk word_tail (fun r => (r = Some None \/ r = Some (flat_load 4 (flat bp) k))
      /\ (long_segments bp -> r = Some (flat_load 4 (flat bp) k))) Ht).
    + intros Hp. rewrite flat_load_past by done. auto.
    + intros cp k' len next Hloc Hsuf Hf.
      destruct (word_tail_sound _ _ _ _ _ _ _ Hb Hk Hloc Hf) as [H1 H2]. split; [done|].
      intros Hl. apply H2. by apply (long_segments_p bp p).
Qed.

Lemma bp_xhalf_exact bp k :
  packet_ok bp -> long_segments bp -> 0 <= k -> bp_xhalf bp k = Some (flat_load 2 (flat bp) k).
Proof.
  intros Hok Hl Hk. pose proof Hok as (_ & Hb & Hty). unfold bp_xhalf.
  destruct (bpfp bp) as [m|p|] eqn:Ht; [rewrite m_xhalf_tail|rewrite p_xhalf_tail|done].
  - apply (m_load_from bp k Hok Hk (fun cp k len => half_tail cp k len false)
      (fun r => r = Some (flat_load 2 (flat bp) k)) Ht).
    + intros Hp. by rewrite flat_load_past.
    + intros cp k' len next Hloc Hsuf Hf. apply (half_tail_sound _ _ _ _ _ _ _ _ Hb Hk Hloc Hf).
      by apply (long_segments_m bp m).
  - apply (p_load_from bp k Hok Hk (fun cp k len => half_tail cp k len true)
      (fun r => r = Some (flat_load 2 (flat bp) k)) Ht).
    + intros Hp. by rewrite flat_load_past.
    + intros cp k' len next Hloc Hsuf Hf. apply (half_tail_sound _ _ _ _ _ _ _ _ Hb Hk Hloc Hf).
      by apply (long_segments_p bp p).
Qed.

(** ** What the interpreter relies on *)

(** The loads never fault and return numbers of their width. *)
Class SafePacket (bp : bpf_packet) : Prop := {
  safe_word k : in_word 32 k -> exists r, bp_xword bp k = Some r /\ forall v, r = Some v -> in_word 32 v;
  safe_half k : in_word 32 k -> exists r, bp_xhalf bp k = Some r /\ forall v, r = Some v -> in_word 16 v;
  safe_byte k : in_word 32 k -> exists r, bp_xbyte bp k = Some r /\ forall v, r = Some v -> in_word 8 v
}.

Lemma be_value_range bs : bytes_ok bs -> 0 <= be_value bs < 2 ^ (8 * Z.of_nat (length bs)).
Proof.
  induction bs as [|b bs IH] using rev_ind; intros Hb; [done|].
  apply Forall_app in Hb as [Hbs Hb]. apply Forall_cons in Hb as [Hb _]. specialize (IH Hbs).
  unfold be_value in *. rewrite foldl_app, length_app. simpl.
  replace (8 * Z.of_nat (length bs + 1)) with (8 * Z.of_nat (length bs) + 8) by lia.
  rewrite Z.pow_add_r by lia. unfold in_word in Hb. change (2 ^ 8) with 256 in *. lia.
Qed.

Lemma flat_load_range n fl k v :
  bytes_ok fl -> flat_load n fl k = Some v -> in_word (8 * Z.of_nat n) v.
Proof.
  unfold flat_load. intros Hb. case_decide as Hl; [|done]. intros [= <-].
  pose proof (be_value_range (take n (drop (Z.to_nat k) fl))) as Hr.
  unfold in_word. destruct Hr as [H0 H1]; [by apply Forall_take, Forall_drop|].
  split; [done|]. eapply Z.lt_le_trans; [exact H1|]. apply Z.pow_le_mono_r; [lia|].
  rewrite length_take. lia.
Qed.

(** Storage that is readable where a halfword may be completed from. *)
Definition readable (bp : bpf_packet) : Prop :=
  match bpfp bp with
  | TypeMbuf m => Forall (fun m => m_dat m <> [] /\ bytes_ok (m_dat m)) m
  | _ => True
  end.

Lemma half_tail_safe fl k cp k' len guard next segs :
  bytes_ok fl -> 0 <= k -> located fl k cp k' len segs -> follows next segs ->
  (forall np nl, next = Some (np, nl) -> guard = true \/ exists b, deref np 0 = Some b) ->
  exists r, half_tail cp k' len guard next = Some r /\ forall v, r = Some v -> in_word 16 v.
Proof.
  intros Hb Hk Hloc Hf Hnext. unfold half_tail. case_decide.
  { rewrite (half_located _ _ _ _ _ _ Hb Hk Hloc) by done. eexists. split; [reflexivity|].
    intros v. by apply (flat_load_range 2). }
  destruct next as [[np nl]|]; [|by exists None].
  destruct (guard && bool_decide (nl = 0)) eqn:Eg; [by exists None|].
  destruct (located_bytes _ _ _ _ _ _ Hloc) as (A & _ & Hlen & HA & Hder).
  assert (exists b1, deref np 0 = Some b1) as [b1 ->].
  { destruct (Hnext np nl eq_refl) as [->|?]; [|done]. inversion Hf as [|? ? s rest -> Hs]; subst.
    simpl in Eg. case_bool_decide; [done|]. rewrite Hs by lia.
    apply lookup_lt_is_Some_2. lia. }
  destruct A as [|b0 A]; [done|]. simpl in Hlen. rewrite Hder by lia.
  eexists. split; [reflexivity|]. intros v [= <-]. apply wrap_range. lia.
Qed.

(** Packet loads are safe: in every packet whose lengths are within their
    storage and whose mbufs have storage at all, a load at any 32-bit offset
    neither faults nor reads outside the storage, and its value has the width
    loaded. *)
Theorem packet_loads_safe bp : packet_ok bp -> readable bp -> SafePacket bp.
Proof.
  intros Hok Hread. pose proof Hok as (_ & Hb & Hty). split; intros k [Hk _].
  - destruct (bp_xword_sound bp k Hok Hk) as [[-> | ->] _]; eexists; (split; [reflexivity|]);
      [done|]. intros v. by apply (flat_load_range 4).
  - unfold bp_xhalf, readable in *.
    destruct (bpfp bp) as [m|p|] eqn:Ht; [rewrite m_xhalf_tail|rewrite p_xhalf_tail|done].
    + apply (m_load_from bp k Hok Hk (fun cp k len => half_tail cp k len false)
        (fun r => exists x, r = Some x /\ forall v, x = Some v -> in_word 16 v) Ht); [by exists None|].
      intros cp k' len next Hloc Hsuf Hf. apply (half_tail_safe _ _ _ _ _ _ _ _ Hb Hk Hloc Hf).
      intros np nl Hn. right. destruct next as [|m' next]; [done|]. simpl in Hn. simplify_eq.
      apply (suffix_Forall _ _ _ Hsuf) in Hread. apply Forall_cons in Hread as [[Hne _] _].
      unfold deref, mtod. simpl. destruct (m_dat m') as [|b]; [done|]. by exists b.
    + apply (p_load_from bp k Hok Hk (fun cp k len => half_tail cp k len true)
        (fun r => exists x, r = Some x /\ forall v, x = Some v -> in_word 16 v) Ht); [by exists None|].
      intros cp k' len next Hloc Hsuf Hf. apply (half_tail_safe _ _ _ _ _ _ _ _ Hb Hk Hloc Hf).
      auto.
  - rewrite bp_xbyte_exact by done. eexists. split; [reflexivity|].
    intros v. by apply (flat_load_range 1).
Qed.

(** C25. Packet loads are exact: in a packet without empty buffers whose buffers
    other than the last hold at least three bytes, the byte, halfword and word
    loads through the header and the chain of mbufs or buflets are the big-endian
    loads from the flattened packet, with an error exactly when the flattened
    packet is too short. *)
Theorem packet_loads_exact bp k :
  packet_ok bp -> long_segments bp -> 0 <= k ->
  bp_xbyte bp k = Some (flat_load 1 (flat bp) k) /\
  bp_xhalf bp k = Some (flat_load 2 (flat bp) k) /\
  bp_xword bp k = Some (flat_load 4 (flat bp) k).
Proof.
  intros Hok Hl Hk. split_and!.
  - by apply bp_xbyte_exact.
  - by apply bp_xhalf_exact.
  - by apply bp_xword_sound.
Qed.

(** The halfword load through mbufs is not a function of the packet's bytes:
    when the next mbuf of the chain is empty, the second byte is read from its
    unused storage.  The word load gives an error where a word lies across three
    buffers. *)
Theorem packet_loads_across_short_mbufs :
  exists bp bp', packet_ok bp /\ packet_ok bp' /\ flat bp = flat bp' /\
    bp_xhalf bp 0 <> bp_xhalf bp' 0 /\
    exists bp3, packet_ok bp3 /\ flat_load 4 (flat bp3) 0 <> None /\ bp_xword bp3 0 = Some None.
Proof.
  exists (BpfPacket [] 0 (TypeMbuf [Mbuf [1] 1; Mbuf [7] 0; Mbuf [2] 1])),
    (BpfPacket [] 0 (TypeMbuf [Mbuf [1] 1; Mbuf [8] 0; Mbuf [2] 1])).
  assert (forall c, packet_ok (BpfPacket [] 0 (TypeMbuf [Mbuf [1] 1; Mbuf [c] 0; Mbuf [2] 1]))) as Hok.
  { intros c. split; [done|]. split; [repeat apply Forall_cons_2; done|]. split; [done|].
    repeat apply Forall_cons_2; try done; unfold mbuf_ok; simpl; lia. }
  split_and!; [apply Hok|apply Hok|done|vm_compute; congruence|].
  exists (BpfPacket [] 0 (TypeMbuf [Mbuf [1] 1; Mbuf [2] 1; Mbuf [3; 4] 2])).
  split_and!; [|vm_compute; congruence|reflexivity].
  split; [done|]. split; [repeat apply Forall_cons_2; done|]. split; [done|].
  repeat apply Forall_cons_2; try done; unfold mbuf_ok; simpl; lia.
Qed.

(** ** Witnesses *)

Definition demo_packet : bpf_packet :=
  BpfPacket [10; 11] 2 (TypeMbuf [Mbuf [1; 2; 3; 99] 3; Mbuf [4] 1]).

Lemma demo_packet_ok : packet_ok demo_packet.
Proof.
  split; [done|]. split; [repeat apply Forall_cons_2; done|]. split; [done|].
  repeat apply Forall_cons_2; try done; unfold mbuf_ok; simpl; lia.
Qed.

Lemma packet_loads_safe_witness : exists r, bp_xhalf demo_packet 4294967295 = Some r.
Proof.
  destruct (packet_loads_safe demo_packet) as [_ Hh _].
  - exact demo_packet_ok.
  - repeat apply Forall_cons_2; try done; (split; [done|repeat apply Forall_cons_2; done]).
  - destruct (Hh 4294967295) as (r & Hr & _); [by vm_compute|]. exists r. exact Hr.
Defined.

Lemma packet_loads_exact_witness : bp_xword demo_packet 1 = Some (Some 184615427).
Proof.
  destruct (packet_loads_exact demo_packet 1) as (_ & _ & Hw).
  - exact demo_packet_ok.
  - intros [|[|i]] s Hs; vm_compute in Hs; simplify_eq; simpl; lia.
  - lia.
  - rewrite Hw. vm_compute. reflexivity.
Defined.
