(* ===== verification/BpfFilter.v ===== *)
(** * The BPF interpreter and its validator ([src/bsd/net/bpf_filter.c])

    [bpf_filter] as a step function on the machine state, with the undefined
    behaviours of the C code (an instruction fetch outside the program, a shift
    by 32 or more, a division by zero, a read outside the buffer) as explicit
    faults, and [bpf_validate], the check the kernel makes of a program supplied
    by a user before it runs it. *)
From S2P Require Import Prelude BpfPacket.

Local Open Scope Z_scope.

Abbreviation BPF_MAXINSNS := (512)%Z.
Abbreviation BPF_MEMWORDS := (16)%Z.

(** Instruction classes, sizes, modes, operations and sources. *)
Definition BPF_CLASS (code : Z) := Z.land code 7.
Abbreviation BPF_LD := (0)%Z.
Abbreviation BPF_LDX := (1)%Z.
Abbreviation BPF_ST := (2)%Z.
Abbreviation BPF_STX := (3)%Z.
Abbreviation BPF_ALU := (4)%Z.
Abbreviation BPF_JMP := (5)%Z.
Abbreviation BPF_RET := (6)%Z.
Abbreviation BPF_MISC := (7)%Z.
Abbreviation BPF_W := (0)%Z.
Abbreviation BPF_H := (8)%Z.
Abbreviation BPF_B := (16)%Z.
Definition BPF_MODE (code : Z) := Z.land code 224.
Abbreviation BPF_IMM := (0)%Z.
Abbreviation BPF_ABS := (32)%Z.
Abbreviation BPF_IND := (64)%Z.
Abbreviation BPF_MEM := (96)%Z.
Abbreviation BPF_LEN := (128)%Z.
Abbreviation BPF_MSH := (160)%Z.
Definition BPF_OP (code : Z) := Z.land code 240.
Definition BPF_SRC (code : Z) := Z.land code 8.
Abbreviation BPF_A := (16)%Z.
Abbreviation BPF_TAX := (0)%Z.
Abbreviation BPF_TXA := (128)%Z.

Record bpf_insn := BpfInsn { code : Z; jt : Z; jf : Z; k : Z }.

Inductive bpf_src := SrcK | SrcX.
Inductive bpf_alu := ADD | SUB | MUL | DIV | OR | AND | LSH | RSH.
Inductive bpf_cmp := JEQ | JGT | JGE | JSET.

#[export] Instance bpf_src_eq_dec : EqDecision bpf_src.
Proof. solve_decision. Defined.
#[export] Instance bpf_alu_eq_dec : EqDecision bpf_alu.
Proof. solve_decision. Defined.

(** The case labels of the switch of [bpf_filter]. *)
Inductive bpf_op :=
  | RET_K | RET_A
  | LD_W_ABS | LD_H_ABS | LD_B_ABS | LD_W_LEN | LDX_W_LEN
  | LD_W_IND | LD_H_IND | LD_B_IND | LDX_MSH_B
  | LD_IMM | LDX_IMM | LD_MEM | LDX_MEM | ST | STX
  | JA | JMP (c : bpf_cmp) (s : bpf_src)
  | ALU (o : bpf_alu) (s : bpf_src) | NEG | TAX | TXA.

Definition src_code (s : bpf_src) : Z := match s with SrcK => 0 | SrcX => 8 end.
Definition alu_code (o : bpf_alu) : Z :=
  match o with
  | ADD => 0 | SUB => 16 | MUL => 32 | DIV => 48 | OR => 64 | AND => 80 | LSH => 96 | RSH => 112
  end.
Definition cmp_code (c : bpf_cmp) : Z :=
  match c with JEQ => 16 | JGT => 32 | JGE => 48 | JSET => 64 end.

Definition op_code (o : bpf_op) : Z :=
  match o with
  | RET_K => Z.lor BPF_RET 0
  | RET_A => Z.lor BPF_RET BPF_A
  | LD_W_ABS => Z.lor (Z.lor BPF_LD BPF_W) BPF_ABS
  | LD_H_ABS => Z.lor (Z.lor BPF_LD BPF_H) BPF_ABS
  | LD_B_ABS => Z.lor (Z.lor BPF_LD BPF_B) BPF_ABS
  | LD_W_LEN => Z.lor (Z.lor BPF_LD BPF_W) BPF_LEN
  | LDX_W_LEN => Z.lor (Z.lor BPF_LDX BPF_W) BPF_LEN
  | LD_W_IND => Z.lor (Z.lor BPF_LD BPF_W) BPF_IND
  | LD_H_IND => Z.lor (Z.lor BPF_LD BPF_H) BPF_IND
  | LD_B_IND => Z.lor (Z.lor BPF_LD BPF_B) BPF_IND
  | LDX_MSH_B => Z.lor (Z.lor BPF_LDX BPF_MSH) BPF_B
  | LD_IMM => Z.lor BPF_LD BPF_IMM
  | LDX_IMM => Z.lor BPF_LDX BPF_IMM
  | LD_MEM => Z.lor BPF_LD BPF_MEM
  | LDX_MEM => Z.lor BPF_LDX BPF_MEM
  | ST => BPF_ST
  | STX => BPF_STX
  | JA => Z.lor BPF_JMP 0
  | JMP c s => Z.lor (Z.lor BPF_JMP (cmp_code c)) (src_code s)
  | ALU o s => Z.lor (Z.lor BPF_ALU (alu_code o)) (src_code s)
  | NEG => Z.lor BPF_ALU 128
  | TAX => Z.lor BPF_MISC BPF_TAX
  | TXA => Z.lor BPF_MISC BPF_TXA
  end.

Definition all_ops : list bpf_op :=
  [RET_K; RET_A; LD_W_ABS; LD_H_ABS; LD_B_ABS; LD_W_LEN; LDX_W_LEN; LD_W_IND; LD_H_IND; LD_B_IND;
   LDX_MSH_B; LD_IMM; LDX_IMM; LD_MEM; LDX_MEM; ST; STX; JA] ++
  (c ← [JGT; JGE; JEQ; JSET]; [JMP c SrcK; JMP c SrcX]) ++
  (o ← [ADD; SUB; MUL; DIV; AND; OR; LSH; RSH]; [ALU o SrcX; ALU o SrcK]) ++ [NEG; TAX; TXA].

(** The switch: the label equal to the code, [None] for [default]. *)
Definition decode (c : Z) : option bpf_op :=
  snd <$> list_find (fun o => op_code o = c) all_ops.

(** ** The machine *)

Inductive bpf_fault := BadPc | BadShift | BadDivide | BadAccess.

Record bpf_state := BpfState { acc : Z; idx : Z; mem : list Z; pc : Z }.

(** Where the packet is: a contiguous buffer, or a [struct bpf_packet] (which the
    callers pass with [buflen = 0]). *)
Inductive bpf_input := InBuffer (bytes : list Z) | InPacket (bp : bpf_packet).

Inductive bpf_result := Return (v : Z) | Next (s : bpf_state) | Fault (f : bpf_fault).

Definition set_acc (v : Z) (s : bpf_state) : bpf_state := BpfState v (idx s) (mem s) (pc s + 1).
Definition set_idx (v : Z) (s : bpf_state) : bpf_state := BpfState (acc s) v (mem s) (pc s + 1).
Definition set_mem (m : list Z) (s : bpf_state) : bpf_state := BpfState (acc s) (idx s) m (pc s + 1).
Definition jump (d : Z) (s : bpf_state) : bpf_state :=
  BpfState (acc s) (idx s) (mem s) (pc s + d + 1).

Section machine.
Context (p : bpf_input) (wirelen buflen : Z).

(** Reading the buffer at [p + k]. *)
Definition buffer_pointer (k : Z) : pointer :=
  match p with InBuffer b => Pointer (Some b) k | InPacket _ => Pointer None k end.

(** The load that the code falls back to when the offset is not in the buffer:
    with a buffer the program rejects, with a packet the [bp_*] routine is tried. *)
Definition fallback (load : bpf_packet -> Z -> loaded) (k : Z) (set : Z -> bpf_state) : bpf_result :=
  if decide (buflen <> 0) then Return 0 else
  match p with
  | InPacket bp =>
      match load bp k with
      | None => Fault BadAccess
      | Some None => Return 0
      | Some (Some v) => Next (set v)
      end
  | InBuffer _ => Fault BadAccess
  end.

Definition from_buffer (r : option Z) (set : Z -> bpf_state) : bpf_result :=
  match r with None => Fault BadAccess | Some v => Next (set v) end.

Definition alu (o : bpf_alu) (a b : Z) : bpf_fault + Z :=
  match o with
  | ADD => inr (u32 (a + b))
  | SUB => inr (u32 (a - b))
  | MUL => inr (u32 (a * b))
  | DIV => if decide (b = 0) then inl BadDivide else inr (a / b)
  | OR => inr (Z.lor a b)
  | AND => inr (Z.land a b)
  | LSH => if decide (b < 32) then inr (u32 (Z.shiftl a b)) else inl BadShift
  | RSH => if decide (b < 32) then inr (Z.shiftr a b) else inl BadShift
  end.

Definition cmp (c : bpf_cmp) (a b : Z) : bool :=
  match c with
  | JEQ => bool_decide (a = b)
  | JGT => bool_decide (b < a)
  | JGE => bool_decide (b <= a)
  | JSET => bool_decide (Z.land a b <> 0)
  end.

(** The body of the switch. *)
Definition exec (i : bpf_insn) (o : bpf_op) (s : bpf_state) : bpf_result :=
  let A := acc s in
  let X := idx s in
  let src q := match q with SrcK => k i | SrcX => X end in
  match o with
  | RET_K => Return (k i)
  | RET_A => Return A
  | LD_W_ABS =>
      if decide (buflen < k i \/ buflen - k i < 4)
      then fallback bp_xword (k i) (fun v => set_acc v s)
      else from_buffer (EXTRACT_LONG (buffer_pointer (k i))) (fun v => set_acc v s)
  | LD_H_ABS =>
      if decide (buflen < k i \/ buflen - k i < 2)
      then fallback bp_xhalf (k i) (fun v => set_acc v s)
      else from_buffer (EXTRACT_SHORT (buffer_pointer (k i))) (fun v => set_acc v s)
  | LD_B_ABS =>
      if decide (buflen <= k i)
      then fallback bp_xbyte (k i) (fun v => set_acc v s)
      else from_buffer (deref (buffer_pointer (k i)) 0) (fun v => set_acc v s)
  | LD_W_LEN => Next (set_acc wirelen s)
  | LDX_W_LEN => Next (set_idx wirelen s)
  | LD_W_IND =>
      let k' := u32 (X + k i) in
      if decide (buflen < k i \/ buflen - k i < X \/ buflen - k' < 4)
      then fallback bp_xword k' (fun v => set_acc v s)
      else from_buffer (EXTRACT_LONG (buffer_pointer k')) (fun v => set_acc v s)
  | LD_H_IND =>
      let k' := u32 (X + k i) in
      if decide (buflen < X \/ buflen - X < k i \/ buflen - k' < 2)
      then fallback bp_xhalf k' (fun v => set_acc v s)
      else from_buffer (EXTRACT_SHORT (buffer_pointer k')) (fun v => set_acc v s)
  | LD_B_IND =>
      let k' := u32 (X + k i) in
      if decide (buflen <= k i \/ buflen - k i <= X)
      then fallback bp_xbyte k' (fun v => set_acc v s)
      else from_buffer (deref (buffer_pointer k') 0) (fun v => set_acc v s)
  | LDX_MSH_B =>
      if decide (buflen <= k i)
      then fallback bp_xbyte (k i) (fun v => set_idx (u32 (Z.shiftl (Z.land v 15) 2)) s)
      else from_buffer (deref (buffer_pointer (k i)) 0)
             (fun v => set_idx (u32 (Z.shiftl (Z.land v 15) 2)) s)
  | LD_IMM => Next (set_acc (k i) s)
  | LDX_IMM => Next (set_idx (k i) s)
  | LD_MEM =>
      if decide (BPF_MEMWORDS <= k i) then Return 0
      else match zget (mem s) (k i) with Some v => Next (set_acc v s) | None => Fault BadAccess end
  | LDX_MEM =>
      if decide (BPF_MEMWORDS <= k i) then Return 0
      else match zget (mem s) (k i) with Some v => Next (set_idx v s) | None => Fault BadAccess end
  | ST =>
      if decide (BPF_MEMWORDS <= k i) then Return 0
      else match zset (mem s) (k i) A with Some m => Next (set_mem m s) | None => Fault BadAccess end
  | STX =>
      if decide (BPF_MEMWORDS <= k i) then Return 0
      else match zset (mem s) (k i) X with Some m => Next (set_mem m s) | None => Fault BadAccess end
  | JA => Next (jump (k i) s)
  | JMP c q => Next (jump (if cmp c A (src q) then jt i else jf i) s)
  | ALU DIV SrcX =>
      if decide (X = 0) then Return 0 else Next (set_acc (A / X) s)
  | ALU o q =>
      match alu o A (src q) with inl f => Fault f | inr v => Next (set_acc v s) end
  | NEG => Next (set_acc (u32 (- A)) s)
  | TAX => Next (set_idx A s)
  | TXA => Next (set_acc X s)
  end.

(** One iteration of the loop: fetch, and the switch. *)
Definition bpf_step (f : list bpf_insn) (s : bpf_state) : bpf_result :=
  match zget f (pc s) with
  | None => Fault BadPc
  | Some i => match decode (code i) with None => Return 0 | Some o => exec i o s end
  end.

(** The loop; [None] is running out of [fuel] iterations. *)
Fixpoint bpf_run (fuel : nat) (f : list bpf_insn) (s : bpf_state) : option (bpf_fault + Z) :=
  match fuel with
  | O => None
  | S fuel =>
      match bpf_step f s with
      | Return v => Some (inr v)
      | Fault e => Some (inl e)
      | Next s => bpf_run fuel f s
      end
  end.

(** A null program accepts everything. *)
Definition bpf_filter (fuel : nat) (f : option (list bpf_insn)) : option (bpf_fault + Z) :=
  match f with
  | None => Some (inr 4294967295)
  | Some f => bpf_run fuel f (BpfState 0 0 (replicate 16 0) 0)
  end.
End machine.

(** ** The validator *)

Section validator.
Context (bpf_maxbufsize : Z).

(** The checks of instruction [i] of [len]. *)
Definition validate_insn (len i : Z) (p : bpf_insn) : bool :=
  let class := BPF_CLASS (code p) in
  let mode := BPF_MODE (code p) in
  let op := BPF_OP (code p) in
  if decide (class = BPF_LD \/ class = BPF_LDX) then
    if decide (mode = BPF_IMM) then true
    else if decide (mode = BPF_ABS \/ mode = BPF_IND \/ mode = BPF_MSH)
    then bool_decide (k p < bpf_maxbufsize)
    else if decide (mode = BPF_MEM) then bool_decide (k p < BPF_MEMWORDS)
    else bool_decide (mode = BPF_LEN)
  else if decide (class = BPF_ST \/ class = BPF_STX) then bool_decide (k p < BPF_MEMWORDS)
  else if decide (class = BPF_ALU) then
    if decide (op = 48) then negb (bool_decide (BPF_SRC (code p) = 0 /\ k p = 0))
    else bool_decide (op ∈ [0; 16; 32; 64; 80; 96; 112; 128])
  else if decide (class = BPF_JMP) then
    let from := u32 (i + 1) in
    if decide (op = 0) then
      negb (bool_decide (u32 (from + k p) < from \/ len <= u32 (from + k p)))
    else if decide (op = 16 \/ op = 32 \/ op = 48 \/ op = 64) then
      negb (bool_decide (len <= u32 (from + jt p) \/ len <= u32 (from + jf p)))
    else false
  else bool_decide (class = BPF_RET \/ class = BPF_MISC).

Fixpoint validate_from (len i : Z) (f : list bpf_insn) : bool :=
  match f with
  | [] => true
  | p :: f => validate_insn len i p && validate_from len (i + 1) f
  end.

Definition bpf_validate (f : list bpf_insn) (len : Z) : bool :=
  if decide (len < 1 \/ BPF_MAXINSNS < len) then false else
  validate_from len 0 (take (Z.to_nat len) f) &&
  match zget f (len - 1) with
  | Some i => bool_decide (BPF_CLASS (code i) = BPF_RET)
  | None => false
  end.
End validator.

(** ** Well-formed machines *)

Lemma decode_Some c o : decode c = Some o -> op_code o = c.
Proof.
  unfold decode. intros H. apply fmap_Some in H as ([n o'] & Hf & ->).
  by apply list_find_Some in Hf as (_ & H & _).
Qed.

Lemma decode_op_code o : decode (op_code o) = Some o.
Proof. by destruct o as [| | | | | | | | | | | | | | | | | |[] []|[] []| | |]. Qed.

Definition insn_ok (i : bpf_insn) : Prop :=
  in_word 16 (code i) /\ in_word 8 (jt i) /\ in_word 8 (jf i) /\ in_word 32 (k i).

Definition state_ok (s : bpf_state) : Prop :=
  in_word 32 (acc s) /\ in_word 32 (idx s) /\ length (mem s) = 16%nat /\
  Forall (in_word 32) (mem s) /\ 0 <= pc s.

(** The two calling conventions: a buffer with its length, or a packet with 0. *)
Definition input_ok (p : bpf_input) (buflen : Z) : Prop :=
  match p with
  | InBuffer b => 0 < buflen /\ buflen = Z.of_nat (length b) /\ bytes_ok b
  | InPacket bp => buflen = 0 /\ SafePacket bp
  end.

(** A shift whose count is a constant below 32. *)
Definition shift_ok (i : bpf_insn) : bool :=
  match decode (code i) with
  | Some (ALU LSH SrcX) | Some (ALU RSH SrcX) => false
  | Some (ALU LSH SrcK) | Some (ALU RSH SrcK) => bool_decide (k i < 32)
  | _ => true
  end.

(** ** Loads *)

Lemma buffer_loads b k :
  bytes_ok b -> 0 <= k < Z.of_nat (length b) ->
  deref (Pointer (Some b) k) 0 = flat_load 1 b k /\
  (k + 2 <= Z.of_nat (length b) -> EXTRACT_SHORT (Pointer (Some b) k) = flat_load 2 b k) /\
  (k + 4 <= Z.of_nat (length b) -> EXTRACT_LONG (Pointer (Some b) k) = flat_load 4 b k).
Proof.
  intros Hb Hk.
  assert (located b k (Pointer (Some b) k) k (Z.of_nat (length b)) []) as Hloc.
  { exists b. split_and!; try done; try lia. rewrite app_nil_r, take_ge; [done|].
    rewrite length_drop. lia. }
  split_and!.
  - pose proof (byte_located _ _ _ _ _ _ (proj1 Hk) Hloc) as H.
    destruct (deref _ 0) as [v|]; simpl in H; by simplify_eq.
  - intros H2. pose proof (half_located _ _ _ _ _ _ Hb (proj1 Hk) Hloc ltac:(lia)) as H.
    destruct (EXTRACT_SHORT _) as [v|]; simpl in H; by simplify_eq.
  - intros H4. pose proof (word_located _ _ _ _ _ _ Hb (proj1 Hk) Hloc ltac:(lia)) as H.
    destruct (EXTRACT_LONG _) as [v|]; simpl in H; by simplify_eq.
Qed.

Lemma flat_load_Some n b k :
  bytes_ok b -> k + Z.of_nat n <= Z.of_nat (length b) ->
  exists v, flat_load n b k = Some v /\ in_word (8 * Z.of_nat n) v.
Proof.
  intros Hb Hk. destruct (flat_load n b k) as [v|] eqn:E.
  - exists v. split; [done|]. by apply (flat_load_range n b k).
  - unfold flat_load in E. rewrite decide_True in E by done. done.
Qed.

(** What an instruction may do: return a word, go on with a well-formed state
    further down, or shift too far. *)
Definition step_ok (len : Z) (i : bpf_insn) (s : bpf_state) (r : bpf_result) : Prop :=
  match r with
  | Return v => in_word 32 v
  | Next s' => state_ok s' /\ pc s < pc s' /\ (pc s' = pc s + 1 \/ pc s' < len) /\
      BPF_CLASS (code i) <> BPF_RET
  | Fault e => e = BadShift /\ shift_ok i = false
  end.

Lemma set_acc_ok s v : state_ok s -> in_word 32 v -> state_ok (set_acc v s).
Proof. intros (? & ? & ? & ? & ?) Hv. unfold state_ok. simpl. split_and!; try done. lia. Qed.

Lemma set_idx_ok s v : state_ok s -> in_word 32 v -> state_ok (set_idx v s).
Proof. intros (? & ? & ? & ? & ?) Hv. unfold state_ok. simpl. split_and!; try done. lia. Qed.

Lemma next_acc_ok len i s v :
  BPF_CLASS (code i) <> BPF_RET -> state_ok s -> in_word 32 v -> step_ok len i s (Next (set_acc v s)).
Proof. intros Hc Hs Hv. split_and!; [by apply set_acc_ok|simpl; lia|by left|done]. Qed.

Lemma next_idx_ok len i s v :
  BPF_CLASS (code i) <> BPF_RET -> state_ok s -> in_word 32 v -> step_ok len i s (Next (set_idx v s)).
Proof. intros Hc Hs Hv. split_and!; [by apply set_idx_ok|simpl; lia|by left|done]. Qed.

Lemma in_word_32_of n v : 0 <= n <= 32 -> in_word n v -> in_word 32 v.
Proof. intros Hn. apply in_word_mono. lia. Qed.

Section step.
Context (p : bpf_input) (wirelen buflen : Z) (Hp : input_ok p buflen) (Hw : in_word 32 wirelen).

(** The load of [n] bytes that the three load routines share. *)
Lemma fallback_ok len i s n load k set :
  (forall bp, SafePacket bp -> exists r, load bp k = Some r /\ forall v, r = Some v -> in_word n v) ->
  (forall v, in_word n v -> step_ok len i s (Next (set v))) ->
  step_ok len i s (fallback p buflen load k set).
Proof.
  intros Hload Hset. unfold fallback. case_decide; [simpl; done|].
  destruct p as [b|bp]; [simpl in Hp; lia|]. destruct Hp as [_ Hsafe].
  destruct (Hload bp Hsafe) as (r & -> & Hr). destruct r as [v|]; [|simpl; done].
  by apply Hset, Hr.
Qed.

Lemma from_buffer_ok len i s (n : nat) rd k set :
  (0 < n)%nat -> 0 <= k -> k + Z.of_nat n <= buflen ->
  (forall b, p = InBuffer b -> bytes_ok b -> k + Z.of_nat n <= Z.of_nat (length b) ->
     rd = flat_load n b k) ->
  (forall v, in_word (8 * Z.of_nat n) v -> step_ok len i s (Next (set v))) ->
  step_ok len i s (from_buffer rd set).
Proof.
  intros Hn Hk Hl Hrd Hset. destruct p as [b|bp]; [|destruct Hp; lia].
  destruct Hp as (_ & Hlen & Hb). rewrite (Hrd b) by (done || lia).
  destruct (flat_load_Some n b k) as (v & -> & Hv); [done|lia|]. by apply Hset.
Qed.

Lemma load_word_ok len i s c `{Decision c} k set :
  in_word 32 k -> (~ c -> k + 4 <= buflen) ->
  (forall v, in_word 32 v -> step_ok len i s (Next (set v))) ->
  step_ok len i s (if decide c then fallback p buflen bp_xword k set
                   else from_buffer (EXTRACT_LONG (buffer_pointer p k)) set).
Proof.
  intros Hk Hc Hset. case_decide.
  - apply (fallback_ok len i s 32); [|done]. intros bp Hs. by apply safe_word.
  - destruct Hk as [Hk _]. apply (from_buffer_ok len i s 4 _ k); try done; [lia|by apply Hc|].
    intros b -> Hb Hl. apply buffer_loads; [done|lia|lia].
Qed.

Lemma load_half_ok len i s c `{Decision c} k set :
  in_word 32 k -> (~ c -> k + 2 <= buflen) ->
  (forall v, in_word 16 v -> step_ok len i s (Next (set v))) ->
  step_ok len i s (if decide c then fallback p buflen bp_xhalf k set
                   else from_buffer (EXTRACT_SHORT (buffer_pointer p k)) set).
Proof.
  intros Hk Hc Hset. case_decide.
  - apply (fallback_ok len i s 16); [|done]. intros bp Hs. by apply safe_half.
  - destruct Hk as [Hk _]. apply (from_buffer_ok len i s 2 _ k); try done; [lia|by apply Hc|].
    intros b -> Hb Hl. apply buffer_loads; [done|lia|lia].
Qed.

Lemma load_byte_ok len i s c `{Decision c} k set :
  in_word 32 k -> (~ c -> k + 1 <= buflen) ->
  (forall v, in_word 8 v -> step_ok len i s (Next (set v))) ->
  step_ok len i s (if decide c then fallback p buflen bp_xbyte k set
                   else from_buffer (deref (buffer_pointer p k) 0) set).
Proof.
  intros Hk Hc Hset. case_decide.
  - apply (fallback_ok len i s 8); [|done]. intros bp Hs. by apply safe_byte.
  - destruct Hk as [Hk _]. apply (from_buffer_ok len i s 1 _ k); try done; [lia|by apply Hc|].
    intros b -> Hb Hl. apply buffer_loads; [done|lia].
Qed.

Lemma buflen_word : 0 <= buflen.
Proof. destruct p; simpl in Hp; lia. Qed.

Lemma alu_ok o a b :
  in_word 32 a -> in_word 32 b ->
  match alu o a b with
  | inr v => in_word 32 v
  | inl BadDivide => o = DIV /\ b = 0
  | inl BadShift => (o = LSH \/ o = RSH) /\ 32 <= b
  | inl _ => False
  end.
Proof.
  intros Ha Hb. destruct o; simpl; auto with cword.
  - case_decide; [done|]. unfold in_word in *. split; [apply Z.div_pos; lia|].
    apply Z.div_lt_upper_bound; [lia|]. nia.
  - apply in_word_land; [lia|done|]. unfold in_word in Hb. lia.
  - case_decide; [auto with cword|]. split; [by left|lia].
  - unfold in_word in Hb. case_decide; [|split; [by right|lia]].
    apply in_word_shiftr; [lia|lia|done].
Qed.

(** The jump targets that the validator accepts are inside the program. *)
Lemma validate_JA maxbuf len i n :
  op_code JA = code i -> 0 <= n < len -> len <= BPF_MAXINSNS -> in_word 32 (k i) ->
  validate_insn maxbuf len n i = true -> n + k i + 1 < len.
Proof.
  intros Hop Hn Hlen Hk. unfold validate_insn. rewrite <-Hop. simpl.
  rewrite negb_true_iff, bool_decide_eq_false.
  rewrite (wrap_small 32 (n + 1)) by (unfold in_word; lia). intros Hnot.
  assert (in_word 32 (u32 (n + 1 + k i))) as Hr by (apply wrap_range; lia).
  unfold wrap, in_word in *. change (2 ^ 32) with 4294967296 in *.
  assert ((n + 1 + k i) mod 4294967296 = n + 1 + k i \/
          (n + 1 + k i) mod 4294967296 = n + 1 + k i - 4294967296) as [Hm|Hm]
    by (Z.to_euclidean_division_equations; lia); lia.
Qed.

Lemma validate_JMP maxbuf len i n c q :
  op_code (JMP c q) = code i -> 0 <= n < len -> len <= BPF_MAXINSNS ->
  in_word 8 (jt i) -> in_word 8 (jf i) ->
  validate_insn maxbuf len n i = true -> n + jt i + 1 < len /\ n + jf i + 1 < len.
Proof.
  intros Hop Hn Hlen Ht Hf Hval. unfold in_word in *. change (2 ^ 8) with 256 in *.
  assert (negb (bool_decide (len <= u32 (u32 (n + 1) + jt i) \/ len <= u32 (u32 (n + 1) + jf i)))
    = true) as Hnot.
  { revert Hval. unfold validate_insn. rewrite <-Hop. by destruct c, q. }
  rewrite negb_true_iff, bool_decide_eq_false in Hnot.
  rewrite (wrap_small 32 (n + 1)), (wrap_small 32 (n + 1 + jt i)), (wrap_small 32 (n + 1 + jf i))
    in Hnot by (unfold in_word; lia). lia.
Qed.

Lemma jump_ok len i s d :
  BPF_CLASS (code i) <> BPF_RET -> state_ok s -> 0 <= d -> pc s + d + 1 < len ->
  step_ok len i s (Next (jump d s)).
Proof.
  intros Hc (? & ? & ? & ? & ?) Hd Hl. split; [|simpl; split_and!; [lia|by right|done]].
  unfold state_ok. simpl. split_and!; try done. lia.
Qed.

(** Every valid instruction behaves, group by group. *)
Definition is_load (o : bpf_op) : bool :=
  match o with
  | LD_W_ABS | LD_H_ABS | LD_B_ABS | LD_W_IND | LD_H_IND | LD_B_IND | LDX_MSH_B => true
  | _ => false
  end.
Definition is_mem (o : bpf_op) : bool :=
  match o with LD_MEM | LDX_MEM | ST | STX => true | _ => false end.

Lemma exec_load_ok len i o s :
  state_ok s -> in_word 32 (k i) -> op_code o = code i ->
  is_load o = true ->
  step_ok len i s (exec p wirelen buflen i o s).
Proof.
  intros Hs Hk Hop Ho. pose proof Hs as (_ & HX & _). pose proof buflen_word as Hbl.
  assert (BPF_CLASS (code i) <> BPF_RET) as Hc by (rewrite <-Hop; by destruct o).
  assert (forall n v, 0 <= n <= 32 -> in_word n v -> step_ok len i s (Next (set_acc v s))) as Hacc
    by (intros; apply next_acc_ok; eauto using in_word_32_of).
  assert (in_word 32 (u32 (idx s + k i))) as Hu by (apply wrap_range; lia).
  assert (idx s + k i <= buflen -> u32 (idx s + k i) <= idx s + k i) as Hsum
    by (intros _; apply Z.mod_le; unfold in_word in *; lia).
  unfold in_word in Hk, HX.
  destruct o; try discriminate Ho; simpl.
  - apply load_word_ok; [done|lia|]. intros v. apply (Hacc 32). lia.
  - apply load_half_ok; [done|lia|]. intros v. apply (Hacc 16). lia.
  - apply load_byte_ok; [done|lia|]. intros v. apply (Hacc 8). lia.
  - apply load_word_ok; [done|lia|]. intros v. apply (Hacc 32). lia.
  - apply load_half_ok; [done|lia|]. intros v. apply (Hacc 16). lia.
  - apply load_byte_ok; [done|lia|]. intros v. apply (Hacc 8). lia.
  - apply load_byte_ok; [done|lia|]. intros v Hv. apply next_idx_ok; [done|done|].
    apply wrap_range. lia.
Qed.

Lemma exec_mem_ok len i o s :
  state_ok s -> in_word 32 (k i) -> op_code o = code i -> is_mem o = true ->
  step_ok len i s (exec p wirelen buflen i o s).
Proof.
  intros Hs Hk Hop Ho. pose proof Hs as (HA & HX & Hml & Hm & Hpc).
  assert (BPF_CLASS (code i) <> BPF_RET) as Hc by (rewrite <-Hop; by destruct o).
  assert (forall v, in_word 32 v -> 0 <= k i < 16 ->
    step_ok len i s (Next (set_mem (<[Z.to_nat (k i) := v]> (mem s)) s))) as Hset.
  { intros v Hv Hr. split; [|simpl; split_and!; [lia|by left|done]].
    unfold state_ok. simpl. rewrite length_insert. split_and!; try done; [|lia].
    by apply Forall_insert. }
  assert (0 <= k i < 16 -> exists v, zget (mem s) (k i) = Some v /\ in_word 32 v) as Hget.
  { intros Hr. destruct (zget_is_Some (mem s) (k i)) as [v Hv]; [lia|]. exists v. split; [done|].
    apply zget_Some in Hv as [_ Hv]. by apply (Forall_lookup_1 _ _ _ _ Hm Hv). }
  destruct Hk as [Hk _].
  destruct o; try discriminate Ho; simpl;
    (case_decide; [done|]).
  - destruct Hget as (v & -> & Hv); [lia|]. by apply next_acc_ok.
  - destruct Hget as (v & -> & Hv); [lia|]. by apply next_idx_ok.
  - rewrite zset_in by lia. apply Hset; [done|lia].
  - rewrite zset_in by lia. apply Hset; [done|lia].
Qed.

Lemma exec_alu_ok maxbuf len i o q s :
  state_ok s -> in_word 32 (k i) -> op_code (ALU o q) = code i ->
  validate_insn maxbuf len (pc s) i = true ->
  step_ok len i s (exec p wirelen buflen i (ALU o q) s).
Proof.
  intros Hs Hk Hop Hval. pose proof Hs as (HA & HX & _).
  assert (BPF_CLASS (code i) <> BPF_RET) as Hc by (rewrite <-Hop; by destruct o, q).
  pose proof (alu_ok o (acc s) (match q with SrcK => k i | SrcX => idx s end)) as Halu.
  assert (in_word 32 (match q with SrcK => k i | SrcX => idx s end)) as Hsrc by (by destruct q).
  specialize (Halu HA Hsrc).
  destruct (decide (o = DIV /\ q = SrcX)) as [[-> ->]|Hnd].
  { simpl. simpl in Halu. destruct (decide (idx s = 0)); [done|by apply next_acc_ok]. }
  assert (exec p wirelen buflen i (ALU o q) s =
    match alu o (acc s) (match q with SrcK => k i | SrcX => idx s end) with
    | inl f => Fault f | inr v => Next (set_acc v s) end) as ->
    by (destruct o, q; try done; by destruct Hnd).
  destruct (alu o _ _) as [[]|v]; try done; [| |by apply next_acc_ok].
  - destruct Halu as [Ho Hb]. split; [done|]. unfold shift_ok. rewrite <-Hop, decode_op_code.
    destruct Ho as [->| ->], q; try done; by apply bool_decide_eq_false; lia.
  - destruct Halu as [-> Hz], q; [|by destruct Hnd]. revert Hval. unfold validate_insn.
    rewrite <-Hop. simpl. rewrite Hz. by rewrite bool_decide_true.
Qed.

Lemma exec_ok maxbuf len i o s :
  state_ok s -> insn_ok i -> op_code o = code i -> 0 <= pc s < len -> len <= BPF_MAXINSNS ->
  validate_insn maxbuf len (pc s) i = true -> step_ok len i s (exec p wirelen buflen i o s).
Proof.
  intros Hs (Hcode & Hjt & Hjf & Hk) Hop Hpc Hlen Hval. pose proof Hs as (HA & HX & _).
  assert (forall v, in_word 32 (u32 v)) as Hu by (intros; apply wrap_range; lia).
  destruct (is_load o) eqn:El; [by apply exec_load_ok|].
  destruct (is_mem o) eqn:Em; [by apply exec_mem_ok|].
  destruct o; try discriminate El; try discriminate Em; clear El Em.
  - exact Hk.
  - exact HA.
  - apply next_acc_ok; [by rewrite <-Hop|done|done].
  - apply next_idx_ok; [by rewrite <-Hop|done|done].
  - apply next_acc_ok; [by rewrite <-Hop|done|done].
  - apply next_idx_ok; [by rewrite <-Hop|done|done].
  - apply jump_ok; [by rewrite <-Hop|done|unfold in_word in Hk; lia|].
    by apply (validate_JA maxbuf).
  - destruct (validate_JMP maxbuf len i (pc s) c s0) as [H1 H2]; try done.
    apply jump_ok; [rewrite <-Hop; by destruct c, s0|done| |]; simpl;
      destruct (cmp _ _ _); unfold in_word in *; lia.
  - by apply (exec_alu_ok maxbuf).
  - apply next_acc_ok; [by rewrite <-Hop|done|apply Hu].
  - apply next_idx_ok; [by rewrite <-Hop|done|done].
  - apply next_acc_ok; [by rewrite <-Hop|done|done].
Qed.
End step.

(** ** Validated programs *)

Lemma validate_from_lookup maxbuf len i f n q :
  validate_from maxbuf len i f = true -> f !! n = Some q ->
  validate_insn maxbuf len (i + Z.of_nat n) q = true.
Proof.
  revert i n. induction f as [|q' f IH]; intros i n Hv Hn; [done|].
  simpl in Hv. apply andb_true_iff in Hv as [Hq Hv]. destruct n as [|n]; simpl in Hn.
  - simplify_eq. by replace (i + Z.of_nat 0) with i by lia.
  - replace (i + Z.of_nat (S n)) with (i + 1 + Z.of_nat n) by lia. by apply IH.
Qed.

Lemma bpf_validate_facts maxbuf f :
  bpf_validate maxbuf f (Z.of_nat (length f)) = true ->
  1 <= Z.of_nat (length f) <= BPF_MAXINSNS /\
  (forall i q, zget f i = Some q -> validate_insn maxbuf (Z.of_nat (length f)) i q = true) /\
  (forall q, zget f (Z.of_nat (length f) - 1) = Some q -> BPF_CLASS (code q) = BPF_RET).
Proof.
  unfold bpf_validate. case_decide; [done|]. intros Hv. apply andb_true_iff in Hv as [Hv Hlast].
  rewrite Nat2Z.id, take_ge in Hv by done. split; [lia|]. split.
  - intros i q Hi. apply zget_Some in Hi as [Hi Hq].
    pose proof (validate_from_lookup _ _ _ _ _ _ Hv Hq) as Hval.
    by replace (0 + Z.of_nat (Z.to_nat i)) with i in Hval by lia.
  - intros q Hq. rewrite Hq in Hlast. by apply bool_decide_eq_true in Hlast.
Qed.

Section validated.
Context (p : bpf_input) (wirelen buflen maxbuf : Z) (f : list bpf_insn).
Context (Hp : input_ok p buflen) (Hw : in_word 32 wirelen) (Hf : Forall insn_ok f).
Context (Hval : bpf_validate maxbuf f (Z.of_nat (length f)) = true).

Lemma bpf_step_ok s :
  state_ok s -> pc s < Z.of_nat (length f) ->
  match bpf_step p wirelen buflen f s with
  | Return v => in_word 32 v
  | Next s' => state_ok s' /\ pc s < pc s' < Z.of_nat (length f)
  | Fault e => e = BadShift /\ Exists (fun i => shift_ok i = false) f
  end.
Proof.
  intros Hs Hpc. destruct (bpf_validate_facts _ _ Hval) as (Hlen & Hall & Hlast).
  pose proof Hs as (_ & _ & _ & _ & Hpos). unfold bpf_step.
  destruct (zget_is_Some f (pc s)) as [i Hi]; [lia|]. rewrite Hi.
  destruct (decode (code i)) as [o|] eqn:Hdec; [|done].
  pose proof Hi as Hi'. apply zget_Some in Hi' as [_ Hi'].
  pose proof (exec_ok p wirelen buflen Hp Hw maxbuf (Z.of_nat (length f)) i o s Hs
    (Forall_lookup_1 _ _ _ _ Hf Hi') (decode_Some _ _ Hdec) ltac:(lia) ltac:(lia) (Hall _ _ Hi)) as Hok.
  destruct (exec p wirelen buflen i o s) as [v|s'|e]; simpl in Hok; [done| |].
  - destruct Hok as (Hs' & Hlt & Hnext & Hc). split; [done|]. split; [done|].
    destruct Hnext as [Heq|]; [|done]. destruct (decide (pc s = Z.of_nat (length f) - 1)) as [Hl|]; [|lia].
    rewrite Hl in Hi. by specialize (Hlast _ Hi).
  - destruct Hok as [-> Hsh]. split; [done|]. apply Exists_exists. exists i. split; [|done].
    by apply list_elem_of_lookup_2 in Hi'.
Qed.

Lemma bpf_run_ok fuel s :
  state_ok s -> pc s < Z.of_nat (length f) -> Z.of_nat (length f) - pc s <= Z.of_nat fuel ->
  exists r, bpf_run p wirelen buflen fuel f s = Some r /\
    match r with
    | inr v => in_word 32 v
    | inl e => e = BadShift /\ Exists (fun i => shift_ok i = false) f
    end.
Proof.
  revert s. induction fuel as [|fuel IH]; intros s Hs Hpc Hfuel; [lia|]. simpl.
  pose proof (bpf_step_ok s Hs Hpc) as Hstep.
  destruct (bpf_step p wirelen buflen f s) as [v|s'|e].
  - by exists (inr v).
  - destruct Hstep as (Hs' & Hlt). apply IH; [done|lia|lia].
  - by exists (inl e).
Qed.
End validated.

Lemma initial_state_ok : state_ok (BpfState 0 0 (replicate 16 0) 0).
Proof. split_and!; try done. by apply Forall_replicate. Qed.

(** ** Properties *)

(** C5. The validator is sound: a program it accepts, run on any buffer or any
    packet with safe loads, terminates within as many steps as it has
    instructions; every fetch, memory access, packet access and division is
    defined, and it returns a 32-bit number, unless it shifts by 32 or more; a
    program whose shifts all have constant counts below 32 always returns. *)
Theorem bpf_validate_sound maxbuf f p wirelen buflen fuel :
  bpf_validate maxbuf f (Z.of_nat (length f)) = true -> Forall insn_ok f ->
  input_ok p buflen -> in_word 32 wirelen -> (length f <= fuel)%nat ->
  exists r, bpf_filter p wirelen buflen fuel (Some f) = Some r /\
    ((exists v, r = inr v /\ in_word 32 v) \/ r = inl BadShift) /\
    (forallb shift_ok f = true -> exists v, r = inr v).
Proof.
  intros Hval Hf Hp Hw Hfuel. destruct (bpf_validate_facts _ _ Hval) as (Hlen & _).
  destruct (bpf_run_ok p wirelen buflen maxbuf f Hp Hw Hf Hval fuel _ initial_state_ok)
    as (r & Hr & Hres); [simpl; lia|simpl; lia|].
  exists r. split; [done|]. destruct r as [e|v].
  - destruct Hres as [-> Hex]. split; [by right|]. intros Hall.
    apply Exists_exists in Hex as (i & Hin & Hi). apply list_elem_of_In in Hin.
    rewrite forallb_forall in Hall. specialize (Hall i Hin). congruence.
  - split; [by left; exists v|]. by exists v.
Qed.

(** The validator accepts programs that shift by the word size or more,
    which the interpreter executes as an undefined shift. *)
Theorem bpf_validate_accepts_bad_shift :
  exists f, Forall insn_ok f /\ bpf_validate 524288 f (Z.of_nat (length f)) = true /\
    bpf_filter (InBuffer [1; 2; 3; 4]) 4 4 (length f) (Some f) = Some (inl BadShift).
Proof.
  exists [BpfInsn (op_code (ALU LSH SrcK)) 0 0 32; BpfInsn (op_code RET_A) 0 0 0].
  split_and!; [|vm_compute; reflexivity|vm_compute; reflexivity].
  repeat apply Forall_cons_2; [..|done]; vm_compute; intuition congruence.
Qed.

(** ** Buffers and packets *)

Definition no_index (i : bpf_insn) : bool :=
  match decode (code i) with
  | Some LD_W_IND | Some LD_H_IND | Some LD_B_IND => false
  | _ => true
  end.

Section agreement.
Context (bp : bpf_packet) (wirelen : Z) (Hok : packet_ok bp) (Hlong : long_segments bp).
Context (Hne : (0 < length (flat bp))%nat).

Let b := flat bp.
Let n := Z.of_nat (length b).

(** A load at a constant offset, from the buffer or through the packet. *)
Lemma load_agrees (w : nat) load rd k set :
  0 <= k -> load bp k = Some (flat_load w b k) ->
  (k + Z.of_nat w <= n -> rd = flat_load w b k) ->
  (if decide (k + Z.of_nat w <= n) then from_buffer rd set
   else fallback (InBuffer b) n load k set) =
    fallback (InPacket bp) 0 load k set.
Proof.
  intros Hk Hload Hrd. unfold fallback. rewrite (decide_False (P := 0 <> 0)) by lia. rewrite Hload.
  case_decide as Hin.
  - rewrite Hrd by done. unfold flat_load. fold n. by rewrite decide_True by done.
  - rewrite decide_True by (unfold n, b; lia). unfold flat_load. fold n. by rewrite decide_False.
Qed.

Lemma decide_swap {A} (c d : Prop) `{Decision c, Decision d} (x y : A) :
  (c <-> ~ d) -> (if decide c then x else y) = (if decide d then y else x).
Proof. intros Hcd. repeat case_decide; tauto. Qed.

Lemma exec_agrees i o s :
  in_word 32 (k i) -> op_code o = code i -> no_index i = true ->
  exec (InBuffer b) wirelen n i o s = exec (InPacket bp) wirelen 0 i o s.
Proof.
  intros [Hk _] Hop Hni. pose proof Hok as (_ & Hb & _).
  assert (k i < n -> _) as Hbuf by exact (fun H => buffer_loads b (k i) Hb (conj Hk H)).
  destruct o; try done; simpl.
  - rewrite (decide_True (P := 0 < k i \/ 0 - k i < 4)) by lia.
    rewrite (decide_swap _ (k i + Z.of_nat 4 <= n)) by lia.
    apply load_agrees; [done|by apply bp_xword_sound|]. intros Hl. apply Hbuf; unfold n in *; lia.
  - rewrite (decide_True (P := 0 < k i \/ 0 - k i < 2)) by lia.
    rewrite (decide_swap _ (k i + Z.of_nat 2 <= n)) by lia.
    apply load_agrees; [done|by apply bp_xhalf_exact|]. intros Hl. apply Hbuf; unfold n in *; lia.
  - rewrite (decide_True (P := 0 <= k i)) by lia.
    rewrite (decide_swap _ (k i + Z.of_nat 1 <= n)) by lia.
    apply load_agrees; [done|by apply bp_xbyte_exact|]. intros Hl. apply Hbuf. unfold n in *; lia.
  - exfalso. revert Hni. unfold no_index. by rewrite <-Hop, decode_op_code.
  - exfalso. revert Hni. unfold no_index. by rewrite <-Hop, decode_op_code.
  - exfalso. revert Hni. unfold no_index. by rewrite <-Hop, decode_op_code.
  - rewrite (decide_True (P := 0 <= k i)) by lia.
    rewrite (decide_swap _ (k i + Z.of_nat 1 <= n)) by lia.
    apply load_agrees; [done|by apply bp_xbyte_exact|]. intros Hl. apply Hbuf. unfold n in *; lia.
Qed.

Lemma bpf_run_agrees fuel f s :
  Forall insn_ok f -> Forall (fun i => no_index i = true) f ->
  bpf_run (InBuffer b) wirelen n fuel f s = bpf_run (InPacket bp) wirelen 0 fuel f s.
Proof.
  intros Hf Hni. revert s. induction fuel as [|fuel IH]; intros s; [done|]. simpl.
  assert (bpf_step (InBuffer b) wirelen n f s = bpf_step (InPacket bp) wirelen 0 f s) as ->.
  { unfold bpf_step. destruct (zget f (pc s)) as [i|] eqn:Hi; [|done].
    apply zget_Some in Hi as [_ Hi]. destruct (decode (code i)) as [o|] eqn:Hdec; [|done].
    destruct (Forall_lookup_1 _ _ _ _ Hf Hi) as (_ & _ & _ & Hk).
    apply exec_agrees; [done|by apply decode_Some|by apply (Forall_lookup_1 _ _ _ _ Hni Hi)]. }
  destruct (bpf_step _ _ _ _ _); [done|apply IH|done].
Qed.
End agreement.

(** C40. A filter gives the same verdict on a packet in a chain of buffers as on
    the same bytes in one contiguous buffer, for every program without indexed
    loads, valid or not, and every packet whose buffers hold at least three bytes
    (but for the last, which is not empty). *)
Theorem bpf_filter_agrees bp wirelen fuel f :
  packet_ok bp -> long_segments bp -> (0 < length (flat bp))%nat -> Forall insn_ok f ->
  Forall (fun i => no_index i = true) f ->
  bpf_filter (InBuffer (flat bp)) wirelen (Z.of_nat (length (flat bp))) fuel (Some f) =
    bpf_filter (InPacket bp) wirelen 0 fuel (Some f).
Proof. intros Hok Hl Hne Hf Hni. by apply bpf_run_agrees. Qed.

(** With indexed loads they differ: the offset [X + k] is computed modulo
    2^32; the contiguous path detects this and rejects, the packet path reads at
    the reduced offset. *)
Theorem bpf_filter_index_wraps :
  exists f bp, bpf_validate 524288 f (Z.of_nat (length f)) = true /\ Forall insn_ok f /\
    packet_ok bp /\ long_segments bp /\
    bpf_filter (InBuffer (flat bp)) 1 1 (length f) (Some f) = Some (inr 0) /\
    bpf_filter (InPacket bp) 1 0 (length f) (Some f) = Some (inr 7).
Proof.
  exists [BpfInsn (op_code LDX_IMM) 0 0 4294967295; BpfInsn (op_code LD_B_IND) 0 0 1;
          BpfInsn (op_code RET_A) 0 0 0], (BpfPacket [] 0 (TypeMbuf [Mbuf [7] 1])).
  split; [vm_compute; reflexivity|].
  split; [repeat apply Forall_cons_2; [..|done]; vm_compute; intuition congruence|].
  split.
  { split; [done|]. split; [repeat apply Forall_cons_2; done|]. split; [done|].
    repeat apply Forall_cons_2; try done; unfold mbuf_ok; simpl; lia. }
  split; [intros [|i] s Hs; vm_compute in Hs; simplify_eq; simpl; lia|].
  split; vm_compute; reflexivity.
Qed.

(** ** Witnesses *)

(** Accept IPv4 over Ethernet: the type halfword at offset 12. *)
Definition ip_filter : list bpf_insn :=
  [BpfInsn (op_code LD_H_ABS) 0 0 12; BpfInsn (op_code (JMP JEQ SrcK)) 0 1 2048;
   BpfInsn (op_code RET_K) 0 0 65535; BpfInsn (op_code RET_K) 0 0 0].
Definition ip_frame : list Z := replicate 12 1 ++ [8; 0; 69].

Lemma ip_filter_ok : Forall insn_ok ip_filter.
Proof. repeat apply Forall_cons_2; [..|done]; vm_compute; intuition congruence. Qed.

Lemma bpf_validate_sound_witness :
  bpf_filter (InBuffer ip_frame) 15 15 4 (Some ip_filter) = Some (inr 65535).
Proof.
  destruct (bpf_validate_sound 524288 ip_filter (InBuffer ip_frame) 15 15 4) as (r & Hr & _ & Hv).
  - vm_compute. reflexivity.
  - exact ip_filter_ok.
  - split; [lia|]. split; [reflexivity|]. repeat apply Forall_cons_2; done.
  - by vm_compute.
  - simpl. lia.
  - destruct Hv as [v ->]; [vm_compute; reflexivity|]. rewrite Hr. vm_compute in Hr. symmetry. exact Hr.
Defined.

(** The same frame as a header, and two mbufs. *)
Lemma bpf_filter_agrees_witness :
  bpf_filter (InPacket (BpfPacket (replicate 12 1) 12 (TypeMbuf [Mbuf [8; 0; 69] 3]))) 15 0 4
    (Some ip_filter) = Some (inr 65535).
Proof.
  rewrite <-(bpf_filter_agrees (BpfPacket (replicate 12 1) 12 (TypeMbuf [Mbuf [8; 0; 69] 3])) 15 4
    ip_filter).
  - vm_compute. reflexivity.
  - split; [done|]. split; [repeat apply Forall_cons_2; done|]. split; [done|].
    repeat apply Forall_cons_2; try done; unfold mbuf_ok; simpl; lia.
  - intros [|i] s Hs; vm_compute in Hs; simplify_eq; simpl; lia.
  - simpl. lia.
  - exact ip_filter_ok.
  - repeat apply Forall_cons_2; done.
Defined.
