(* ===== verification/Unicode.v ===== *)
(** * Unicode properties, decomposition and composition
      ([src/bsd/vfs/vfs_utfconv.c])

    The functions over the tables of [UtfData]: the combining and decomposable
    tests, the combining class, the binary searches, canonical decomposition and
    composition with the Hangul syllables, the canonical ordering of combining
    characters, and the SFM mapping.  Characters are 16-bit code units; a read
    outside a table is [None]. *)
From stdpp Require Import relations.
From S2P Require Import Prelude UtfData.

Local Open Scope Z_scope.

(** ** Bitmaps *)

(** The two-level bitmap test shared by the next two functions; [first] is the
    first character that may have the property. *)
Definition bitmap_test (bitmap : list Z) (first character : Z) : option bool :=
  if decide (character < first) then Some false else
  value ← zget bitmap (Z.land (Z.shiftr character 8) 255);
  if decide (value = 255) then Some true else
  if decide (value <> 0) then
    byte ← zget bitmap ((value - 1) * 32 + 256 + Z.land character 255 / 8);
    Some (bool_decide (Z.land byte (Z.shiftl 1 (character mod 8)) <> 0))
  else Some false.

Definition unicode_combinable (character : Z) : option bool :=
  bitmap_test CFUniCharCombiningBitmap 768 character.

Definition unicode_decomposeable (character : Z) : option bool :=
  bitmap_test CFUniCharDecomposableBitmap 192 character.

Definition class_lookup (bitmap : list Z) (character : Z) : option Z :=
  value ← zget bitmap (Z.shiftr character 8);
  if decide (value <> 0) then zget bitmap (value * 256 + character mod 256) else Some 0.

Definition get_combining_class (character : Z) : option Z :=
  class_lookup CFUniCharCombiningPropertyBitmap character.

(** ** Binary search

    A table of pairs from index [base] of an array on; [getmappedvalue16] and
    [getmappedvalue32] differ in the type of the entries only. *)
Section search.
Context (table : list Z) (base : Z).

Definition key (i : Z) : option Z := zget table (base + 2 * i).
Definition value_at (i : Z) : option Z := zget table (base + 2 * i + 1).

(** The loop, on the indices of [p] and [q]. *)
Fixpoint mapped_loop (fuel : nat) (p q character : Z) : option Z :=
  match fuel with
  | O => None
  | S fuel =>
      if decide (p <= q) then
        let divider := p + Z.shiftr (q - p) 1 in
        k ← key divider;
        if decide (character < k) then mapped_loop fuel p (divider - 1) character
        else if decide (k < character) then mapped_loop fuel (divider + 1) q character
        else value_at divider
      else Some 0
  end.

Definition getmappedvalue (numElem character : Z) : option Z :=
  k0 ← key 0;
  kn ← key (u32 (numElem - 1));
  if decide (character < k0 \/ kn < character) then Some 0
  else mapped_loop (S (Z.to_nat numElem)) 0 (numElem - 1) character.
End search.

Definition getmappedvalue32 := getmappedvalue.
Definition getmappedvalue16 := getmappedvalue.

(** ** Decomposition *)

Definition EXTRACT_COUNT (value : Z) : Z := Z.land (Z.shiftr value 12) 7.

(** [length] entries of the array from index [i] on. *)
Fixpoint table_slice (table : list Z) (i : Z) (length : nat) : option (list Z) :=
  match length with
  | O => Some []
  | S n => c ← zget table i; cs ← table_slice table (i + 1) n; Some (c :: cs)
  end.

(** The characters stored through [convertedChars]; the returned length is their
    number.  [fuel] bounds the nesting of the recursion. *)
Fixpoint unicode_recursive_decompose (fuel : nat) (character : Z) : option (list Z) :=
  match fuel with
  | O => None
  | S fuel =>
      value ← getmappedvalue16 CFUniCharDecompositionTable 0 UniCharDecompositionTableLength character;
      let length := EXTRACT_COUNT value in
      let firstChar := Z.land value 4095 in
      let '(table, i) :=
        if decide (length = 1) then ([firstChar], 0)
        else (CFUniCharMultipleDecompositionTable, firstChar) in
      if decide (Z.land value 32768 <> 0) then
        c ← zget table i;
        used ← unicode_recursive_decompose fuel c;
        if decide (used = []) then Some [] else
        cs ← table_slice table (i + 1) (Z.to_nat (u32 (length - 1)));
        Some (used ++ cs)
      else table_slice table i (Z.to_nat length)
  end.

Abbreviation HANGUL_SBASE := (44032)%Z.
Abbreviation HANGUL_LBASE := (4352)%Z.
Abbreviation HANGUL_VBASE := (4449)%Z.
Abbreviation HANGUL_TBASE := (4519)%Z.
Abbreviation HANGUL_SCOUNT := (11172)%Z.
Abbreviation HANGUL_LCOUNT := (19)%Z.
Abbreviation HANGUL_VCOUNT := (21)%Z.
Abbreviation HANGUL_TCOUNT := (28)%Z.
Abbreviation HANGUL_NCOUNT := (HANGUL_VCOUNT * HANGUL_TCOUNT)%Z.

(** No decomposition nests deeper than four (see [decompositions_checked]). *)
Definition unicode_decompose (character : Z) : option (list Z) :=
  if decide (HANGUL_SBASE <= character /\ character <= HANGUL_SBASE + HANGUL_SCOUNT) then
    let character := u16 (character - HANGUL_SBASE) in
    Some ([u16 (character / HANGUL_NCOUNT + HANGUL_LBASE);
           u16 (character mod HANGUL_NCOUNT / HANGUL_TCOUNT + HANGUL_VBASE)] ++
          (if decide (character mod HANGUL_TCOUNT <> 0)
           then [u16 (character mod HANGUL_TCOUNT + HANGUL_TBASE)] else []))
  else unicode_recursive_decompose 5 character.

(** ** Composition *)

(** The result 0 means that the characters do not combine. *)
Definition unicode_combine_table (base combining : Z) : option Z :=
  value ← getmappedvalue32 CFUniCharPrecompSourceTable 0 CFUniCharPrecompositionTableLength combining;
  if decide (value <> 0) then
    v ← getmappedvalue16 CFUniCharBMPPrecompDestinationTable (2 * Z.land value 65535)
          (Z.shiftr value 16) base;
    Some (u16 v)
  else Some (u16 value).

Definition unicode_combine (base combining : Z) : option Z :=
  if decide (HANGUL_VBASE <= combining < HANGUL_TBASE + HANGUL_TCOUNT) then
    if decide (combining < HANGUL_VBASE + HANGUL_VCOUNT /\
               HANGUL_LBASE <= base < HANGUL_LBASE + HANGUL_LCOUNT) then
      Some (u16 (HANGUL_SBASE + (base - HANGUL_LBASE) * (HANGUL_VCOUNT * HANGUL_TCOUNT) +
                 (combining - HANGUL_VBASE) * HANGUL_TCOUNT))
    else if decide (HANGUL_TBASE < combining /\
                    HANGUL_SBASE <= base < HANGUL_SBASE + HANGUL_SCOUNT) then
      if decide ((base - HANGUL_SBASE) mod HANGUL_TCOUNT <> 0) then Some 0
      else Some (u16 (base + (combining - HANGUL_TBASE)))
    else unicode_combine_table base combining
  else unicode_combine_table base combining.

(** ** Canonical ordering *)

(** One pass: [c1] is the character at [ch1] and [p1] the value of [p2] for it. *)
Fixpoint sort_pass (c1 p1 : Z) (rest : list Z) : option (list Z * bool) :=
  match rest with
  | [] => Some ([c1], false)
  | c2 :: rest =>
      p2 ← get_combining_class c2;
      if decide (p2 < p1 /\ p2 <> 0) then
        '(l, _) ← sort_pass c1 p1 rest; Some (c2 :: l, true)
      else
        '(l, changes) ← sort_pass c2 p2 rest; Some (c1 :: l, changes)
  end.

(** The [do ... while (changes)] loop. *)
Fixpoint prioritysort_loop (fuel : nat) (characters : list Z) : option (list Z) :=
  match fuel, characters with
  | S fuel, c :: rest =>
      p ← get_combining_class c;
      '(l, changes) ← sort_pass c p rest;
      if (changes : bool) then prioritysort_loop fuel l else Some l
  | _, _ => None
  end.

(** As many passes as there can be exchanges, and the last one. *)
Definition prioritysort (characters : list Z) : option (list Z) :=
  prioritysort_loop (S (length characters * length characters)) characters.

(** ** SFM *)

Definition sfm2mac : list Z :=
  seqZ 0 32 ++ [34; 42; 58; 60; 62; 63; 92; 124; 32; 46].

(** The entries 0x20 to 0x7f: the identity but for the characters that SFM maps. *)
Definition mac2sfm : list Z :=
  [32; 33; 32; 35; 36; 37; 38; 39;
   40; 41; 33; 43; 44; 45; 46; 34;
   48; 49; 50; 51; 52; 53; 54; 55;
   56; 57; 34; 59; 35; 61; 36; 37;
   64; 65; 66; 67; 68; 69; 70; 71;
   72; 73; 74; 75; 76; 77; 78; 79;
   80; 81; 82; 83; 84; 85; 86; 87;
   88; 89; 90; 91; 38; 93; 94; 95;
   96; 97; 98; 99; 100; 101; 102; 103;
   104; 105; 106; 107; 108; 109; 110; 111;
   112; 113; 114; 115; 116; 117; 118; 119;
   120; 121; 122; 123; 39; 125; 126; 127].

(** A failing [assert] is [None]. *)
Definition ucs_to_sfm (ucs_ch : Z) (lastchar : bool) : option Z :=
  if lastchar && bool_decide (ucs_ch = 32) then Some 61480 else
  if lastchar && bool_decide (ucs_ch = 46) then Some 61481 else
  if decide (ucs_ch <= 31) then Some (Z.lor ucs_ch 61440) else
  lsb ← zget mac2sfm (ucs_ch - 32);
  Some (if decide (lsb <> ucs_ch) then Z.lor 61440 lsb else ucs_ch).

Definition sfm_to_ucs (ucs_ch : Z) : option Z :=
  if decide (Z.land ucs_ch 65472 = 61440 /\ Z.land ucs_ch 63 <= 41)
  then zget sfm2mac (Z.land ucs_ch 63)
  else Some ucs_ch.

(** ** The tables are read within their bounds *)

Lemma u16_high c : in_word 16 c -> 0 <= Z.shiftr c 8 < 256.
Proof.
  unfold in_word. intros Hc. rewrite Z.shiftr_div_pow2 by lia.
  split; [apply Z.div_pos; lia|apply Z.div_lt_upper_bound; lia].
Qed.

Lemma land_255 x : Z.land x 255 = x mod 256.
Proof. apply (Z.land_ones x 8). lia. Qed.

Lemma forallb_lookup {A} (f : A -> bool) (l : list A) i x :
  forallb f l = true -> l !! i = Some x -> f x = true.
Proof.
  intros Hall Hi. rewrite forallb_forall in Hall. apply Hall, list_elem_of_In.
  by apply list_elem_of_lookup_2 in Hi.
Qed.

(** Every entry of the first level leads to a block inside the array. *)
Definition bitmap_ok (bitmap : list Z) : bool :=
  bool_decide (256 <= length bitmap)%nat &&
  forallb (fun v => bool_decide (v = 255 \/ v = 0 \/
    0 < v /\ (v - 1) * 32 + 256 + 32 <= Z.of_nat (length bitmap))) (take 256 bitmap).

Lemma bitmap_test_total bitmap first c :
  bitmap_ok bitmap = true -> in_word 16 c -> is_Some (bitmap_test bitmap first c).
Proof.
  intros Hok Hc. apply andb_true_iff in Hok as [Hlen Hall]. apply bool_decide_eq_true in Hlen.
  unfold bitmap_test. case_decide; [by eexists|].
  pose proof (u16_high c Hc) as Hh. rewrite (land_255 (Z.shiftr c 8)), (Z.mod_small (Z.shiftr c 8)) by lia.
  destruct (zget_is_Some bitmap (Z.shiftr c 8)) as [v Hv]; [lia|]. rewrite Hv, bind_some.
  case_decide; [by eexists|]. case_decide; [|by eexists].
  assert (v = 255 \/ v = 0 \/ 0 < v /\ (v - 1) * 32 + 256 + 32 <= Z.of_nat (length bitmap))
    as Hblock.
  { apply zget_Some in Hv as [_ Hv].
    rewrite <-(lookup_take_lt bitmap 256) in Hv by lia.
    pose proof (forallb_lookup _ _ _ _ Hall Hv) as H2. by apply bool_decide_eq_true in H2. }
  assert (0 <= Z.land c 255 / 8 < 32)
    by (rewrite land_255; Z.to_euclidean_division_equations; lia).
  destruct (zget_is_Some bitmap ((v - 1) * 32 + 256 + Z.land c 255 / 8)) as [b ->]; [lia|].
  by eexists.
Qed.

Lemma unicode_combinable_total c : in_word 16 c -> is_Some (unicode_combinable c).
Proof. apply bitmap_test_total. vm_compute. reflexivity. Qed.

Lemma unicode_decomposeable_total c : in_word 16 c -> is_Some (unicode_decomposeable c).
Proof. apply bitmap_test_total. vm_compute. reflexivity. Qed.

(** A first level that leads to blocks inside the array, and entries that are
    bytes. *)
Definition class_table_ok (t : list Z) : bool :=
  bool_decide (256 <= length t)%nat &&
  (forallb (fun v => bool_decide (v * 256 + 256 <= Z.of_nat (length t))) (take 256 t) &&
   forallb (fun v => bool_decide (in_word 8 v)) t).

Lemma class_lookup_total t c :
  class_table_ok t = true -> in_word 16 c -> exists p, class_lookup t c = Some p /\ 0 <= p < 256.
Proof.
  intros Hok Hc. apply andb_true_iff in Hok as [Hlen Hok]. apply andb_true_iff in Hok as [Hfirst Hbytes].
  apply bool_decide_eq_true in Hlen. pose proof (u16_high c Hc) as Hh. unfold class_lookup.
  assert (forall i x, zget t i = Some x -> 0 <= x < 256) as Hbyte.
  { intros i x Hx. apply zget_Some in Hx as [_ Hx].
    pose proof (forallb_lookup _ _ _ _ Hbytes Hx) as H2. by apply bool_decide_eq_true in H2. }
  destruct (zget_is_Some t (Z.shiftr c 8)) as [v Hv]; [lia|]. rewrite Hv, bind_some.
  pose proof (Hbyte _ _ Hv) as Hvb. case_decide; [|exists 0; split; [done|lia]].
  apply zget_Some in Hv as [_ Hv].
  assert (v * 256 + 256 <= Z.of_nat (length t)).
  { rewrite <-(lookup_take_lt t 256) in Hv by lia.
    pose proof (forallb_lookup _ _ _ _ Hfirst Hv) as H2. by apply bool_decide_eq_true in H2. }
  pose proof (Z.mod_pos_bound c 256).
  destruct (zget_is_Some t (v * 256 + c mod 256)) as [p Hp]; [lia|]. rewrite Hp.
  exists p. split; [done|]. by apply (Hbyte _ _ Hp).
Qed.

Lemma get_combining_class_total c :
  in_word 16 c -> exists p, get_combining_class c = Some p /\ 0 <= p < 256.
Proof. apply class_lookup_total. vm_compute. reflexivity. Qed.

(** ** The binary search finds what a linear search finds *)

Section search_proofs.
Context (table : list Z) (base n : Z).

Definition sorted_keys : Prop :=
  forall i j ki kj, 0 <= i < j -> j < n -> key table base i = Some ki ->
    key table base j = Some kj -> ki < kj.

(** The pairs are inside the array. *)
Definition pairs_inside : Prop := 0 <= base /\ base + 2 * n <= Z.of_nat (length table).

Lemma key_is_Some i : pairs_inside -> 0 <= i < n -> is_Some (key table base i).
Proof. intros [??] Hi. apply zget_is_Some. lia. Qed.

Lemma value_is_Some i : pairs_inside -> 0 <= i < n -> is_Some (value_at table base i).
Proof. intros [??] Hi. apply zget_is_Some. lia. Qed.

(** The value of the pair with key [c], or 0 if there is none. *)
Definition mapping (c v : Z) : Prop :=
  (exists i, 0 <= i < n /\ key table base i = Some c /\ value_at table base i = Some v) \/
  (v = 0 /\ forall i, 0 <= i < n -> key table base i <> Some c).

Lemma mapped_loop_spec fuel p q c :
  pairs_inside -> sorted_keys -> 0 <= p <= q + 1 -> q < n -> q - p + 1 < Z.of_nat fuel ->
  (forall i k, 0 <= i < n -> (i < p \/ q < i) -> key table base i = Some k -> k <> c) ->
  exists v, mapped_loop table base fuel p q c = Some v /\ mapping c v.
Proof.
  intros Hin Hsort. revert p q. induction fuel as [|fuel IH]; intros p q Hp Hq Hf Hout; [lia|].
  simpl. case_decide as Hpq.
  - rewrite Z.shiftr_div_pow2 by lia. change (2 ^ 1) with 2.
    set (d := p + (q - p) / 2).
    pose proof (Z.div_pos (q - p) 2). pose proof (Z.mul_div_le (q - p) 2).
    assert (p <= d <= q) as Hd by lia.
    destruct (key_is_Some d Hin) as [k Hk]; [lia|]. rewrite Hk, bind_some.
    case_decide; [|case_decide].
    + apply IH; [lia|lia|lia|]. intros i k' Hi Hr Hk'. destruct (decide (q < i)); [naive_solver|].
      destruct (decide (i = d)) as [->|]; [naive_solver lia|].
      destruct (decide (d < i)); [pose proof (Hsort d i k k'); naive_solver lia|].
      apply (Hout i k'); [lia|lia|done].
    + apply IH; [lia|lia|lia|]. intros i k' Hi Hr Hk'. destruct (decide (i < p)); [naive_solver|].
      destruct (decide (i = d)) as [->|]; [naive_solver lia|].
      destruct (decide (i < d)); [pose proof (Hsort i d k' k); naive_solver lia|].
      apply (Hout i k'); [lia|lia|done].
    + assert (k = c) as -> by lia.
      destruct (value_is_Some d Hin) as [v Hv]; [lia|]. exists v. split; [done|].
      left. exists d. split_and!; [lia|lia|done|done].
  - exists 0. split; [done|]. right. split; [done|]. intros i Hi Hk.
    apply (Hout i c Hi); [lia|done|done].
Qed.
End search_proofs.

Lemma getmappedvalue_spec table base n c :
  pairs_inside table base n -> sorted_keys table base n -> 1 <= n < 2 ^ 32 ->
  exists v, getmappedvalue table base n c = Some v /\ mapping table base n c v.
Proof.
  intros Hin Hsort Hn. unfold getmappedvalue. rewrite wrap_small by (unfold in_word; lia).
  destruct (key_is_Some table base n 0 Hin) as [k0 Hk0]; [lia|]. rewrite Hk0, bind_some.
  destruct (key_is_Some table base n (n - 1) Hin) as [kn Hkn]; [lia|]. rewrite Hkn, bind_some.
  case_decide as Hr.
  - exists 0. split; [done|]. right. split; [done|]. intros i Hi Hk. destruct Hr as [Hr|Hr].
    + destruct (decide (i = 0)) as [->|]; [naive_solver lia|].
      pose proof (Hsort 0 i k0 c). naive_solver lia.
    + destruct (decide (i = n - 1)) as [->|]; [naive_solver lia|].
      pose proof (Hsort i (n - 1) c kn). naive_solver lia.
  - apply mapped_loop_spec; try done; try lia.
Qed.

(** A check of a table's order, pair by pair. *)
Definition sorted_check (table : list Z) (base n : Z) : bool :=
  forallb (fun i => match key table base i, key table base (i + 1) with
                    | Some a, Some b => bool_decide (a < b)
                    | _, _ => false
                    end) (seqZ 0 (n - 1)).

Lemma sorted_check_sound table base n : sorted_check table base n = true -> sorted_keys table base n.
Proof.
  intros Hc. assert (forall i, 0 <= i < n - 1 -> exists a b, key table base i = Some a /\
    key table base (i + 1) = Some b /\ a < b) as Hadj.
  { intros i Hi. unfold sorted_check in Hc. rewrite forallb_forall in Hc.
    specialize (Hc i). rewrite <-list_elem_of_In, elem_of_seqZ in Hc. specialize (Hc ltac:(lia)).
    destruct (key table base i) as [a|]; [|done]. destruct (key table base (i + 1)) as [b|]; [|done].
    apply bool_decide_eq_true in Hc. eauto. }
  intros i j ki kj Hij Hj Hki Hkj.
  assert (forall m : nat, i + 1 + Z.of_nat m < n -> forall k, key table base (i + 1 + Z.of_nat m) = Some k -> ki < k)
    as Hup.
  { induction m as [|m IH]; intros Hm k Hk.
    - destruct (Hadj i ltac:(lia)) as (a & b & Ha & Hb & Hab).
      replace (i + 1 + Z.of_nat 0) with (i + 1) in Hk by lia. naive_solver.
    - destruct (Hadj (i + 1 + Z.of_nat m) ltac:(lia)) as (a & b & Ha & Hb & Hab).
      replace (i + 1 + Z.of_nat (S m)) with (i + 1 + Z.of_nat m + 1) in Hk by lia.
      specialize (IH ltac:(lia) a Ha). naive_solver lia. }
  apply (Hup (Z.to_nat (j - i - 1))); [lia|]. by replace (i + 1 + Z.of_nat (Z.to_nat (j - i - 1))) with j by lia.
Qed.

(** ** Decompositions *)

Lemma decomposition_table_sorted :
  pairs_inside CFUniCharDecompositionTable 0 UniCharDecompositionTableLength /\
  sorted_keys CFUniCharDecompositionTable 0 UniCharDecompositionTableLength.
Proof.
  split; [split; vm_compute; congruence|]. apply sorted_check_sound. vm_compute. reflexivity.
Qed.

(** The keys of the table, and what is checked of the decomposition of each. *)
Definition decomposition_keys : list Z :=
  omap (key CFUniCharDecompositionTable 0) (seqZ 0 UniCharDecompositionTableLength).

Definition not_decomposeable (c : Z) : bool :=
  match unicode_decomposeable c with Some b => negb b | None => false end.

Definition decomposition_check (c : Z) : bool :=
  match unicode_recursive_decompose 5 c with
  | Some r => bool_decide (1 <= length r <= 4)%nat &&
              forallb (fun d => bool_decide (in_word 16 d) && not_decomposeable d) r
  | None => false
  end.

Lemma decompositions_checked : forallb decomposition_check decomposition_keys = true.
Proof. vm_compute. reflexivity. Qed.

Lemma elem_of_decomposition_keys i c :
  0 <= i < UniCharDecompositionTableLength -> key CFUniCharDecompositionTable 0 i = Some c ->
  c ∈ decomposition_keys.
Proof.
  intros Hi Hk. apply list_elem_of_omap. exists i. split; [|exact Hk]. apply elem_of_seqZ. lia.
Qed.

Lemma recursive_decompose_unmapped fuel c :
  getmappedvalue16 CFUniCharDecompositionTable 0 UniCharDecompositionTableLength c = Some 0 ->
  unicode_recursive_decompose (S fuel) c = Some [].
Proof.
  intros H. change (unicode_recursive_decompose (S fuel) c) with
    (value ← getmappedvalue16 CFUniCharDecompositionTable 0 UniCharDecompositionTableLength c;
     let length := EXTRACT_COUNT value in
     let firstChar := Z.land value 4095 in
     let '(table, i) :=
       if decide (length = 1) then ([firstChar], 0)
       else (CFUniCharMultipleDecompositionTable, firstChar) in
     if decide (Z.land value 32768 <> 0) then
       c ← zget table i;
       used ← unicode_recursive_decompose fuel c;
       if decide (used = []) then Some [] else
       cs ← table_slice table (i + 1) (Z.to_nat (u32 (length - 1)));
       Some (used ++ cs)
     else table_slice table i (Z.to_nat length)).
  rewrite H, bind_some. reflexivity.
Qed.

(** What every decomposition satisfies. *)
Definition decomposed (r : list Z) : Prop :=
  (length r <= 4)%nat /\ Forall (fun d => in_word 16 d /\ unicode_decomposeable d = Some false) r.

Lemma not_decomposeable_true c : not_decomposeable c = true -> unicode_decomposeable c = Some false.
Proof. unfold not_decomposeable. by destruct (unicode_decomposeable c) as [[]|]. Qed.

Lemma recursive_decompose_ok c :
  exists r, unicode_recursive_decompose 5 c = Some r /\ decomposed r.
Proof.
  destruct decomposition_table_sorted as [Hin Hsort].
  destruct (getmappedvalue_spec _ _ _ c Hin Hsort) as (v & Hv & Hmap); [by vm_compute|].
  destruct Hmap as [(i & Hi & Hk & _)|[-> _]].
  - pose proof decompositions_checked as Hall. rewrite forallb_forall in Hall.
    specialize (Hall c). rewrite <-list_elem_of_In in Hall.
    specialize (Hall (elem_of_decomposition_keys i c Hi Hk)). unfold decomposition_check in Hall.
    destruct (unicode_recursive_decompose 5 c) as [r|]; [|done].
    apply andb_true_iff in Hall as [Hlen Hr]. apply bool_decide_eq_true in Hlen.
    exists r. split; [done|]. split; [lia|]. apply Forall_forall. intros d Hd.
    rewrite forallb_forall in Hr. apply list_elem_of_In in Hd. specialize (Hr d Hd).
    apply andb_true_iff in Hr as [Hw Hnd]. apply bool_decide_eq_true in Hw.
    split; [done|]. by apply not_decomposeable_true.
  - exists []. split; [exact (recursive_decompose_unmapped 4 c Hv)|]. split; [simpl; lia|done].
Qed.

(** The Jamo that Hangul syllables decompose into have no decomposition. *)
Lemma jamo_checked :
  forallb not_decomposeable (seqZ 4352 20 ++ seqZ 4449 21 ++ seqZ 4520 27) = true.
Proof. vm_compute. reflexivity. Qed.

Lemma jamo_not_decomposeable c :
  4352 <= c < 4372 \/ 4449 <= c < 4470 \/ 4520 <= c < 4547 ->
  in_word 16 c /\ unicode_decomposeable c = Some false.
Proof.
  intros Hc. split; [unfold in_word; lia|]. pose proof jamo_checked as Hall.
  rewrite forallb_forall in Hall. apply not_decomposeable_true, Hall, list_elem_of_In.
  rewrite !elem_of_app, !elem_of_seqZ. lia.
Qed.

Lemma unicode_decompose_ok c :
  in_word 16 c -> exists r, unicode_decompose c = Some r /\ decomposed r.
Proof.
  intros Hc. unfold unicode_decompose. case_decide as Hr; [|apply recursive_decompose_ok].
  eexists. split; [reflexivity|].
  change (21 * 28) with 588.
  rewrite (wrap_small 16 (c - 44032)) by (unfold in_word in *; lia).
  assert (0 <= (c - 44032) / 588 < 20) by (Z.to_euclidean_division_equations; lia).
  assert (0 <= (c - 44032) mod 588 / 28 < 21) by (Z.to_euclidean_division_equations; lia).
  assert (0 <= (c - 44032) mod 28 < 28) by (Z.to_euclidean_division_equations; lia).
  rewrite !wrap_small by (unfold in_word; lia). case_decide.
  - split; [simpl; lia|]. repeat apply Forall_cons_2; try done; apply jamo_not_decomposeable; lia.
  - split; [simpl; lia|]. repeat apply Forall_cons_2; try done; apply jamo_not_decomposeable; lia.
Qed.

(** Every character that tests as decomposable has a decomposition. *)
Definition decomposeable_check (c : Z) : bool :=
  match unicode_decomposeable c with
  | Some true => match unicode_decompose c with Some (_ :: _) => true | _ => false end
  | Some false => true
  | None => false
  end.

Lemma decomposeables_checked :
  forallb (fun hi => forallb (fun lo => decomposeable_check (hi * 256 + lo)) (seqZ 0 256))
    (seqZ 0 256) = true.
Proof. vm_compute. reflexivity. Qed.

Lemma unicode_decompose_nonempty c :
  in_word 16 c -> unicode_decomposeable c = Some true -> unicode_decompose c <> Some [].
Proof.
  intros Hc Hd Hnil. unfold in_word in Hc. change (2 ^ 16) with 65536 in Hc.
  pose proof decomposeables_checked as Hall. rewrite forallb_forall in Hall.
  specialize (Hall (c / 256)). rewrite <-list_elem_of_In, elem_of_seqZ in Hall.
  specialize (Hall ltac:(Z.to_euclidean_division_equations; lia)).
  rewrite forallb_forall in Hall. specialize (Hall (c mod 256)).
  rewrite <-list_elem_of_In, elem_of_seqZ in Hall.
  specialize (Hall ltac:(Z.to_euclidean_division_equations; lia)).
  replace (c / 256 * 256 + c mod 256) with c in Hall
    by (Z.to_euclidean_division_equations; lia).
  unfold decomposeable_check in Hall. by rewrite Hd, Hnil in Hall.
Qed.

(** ** Canonical ordering *)

(** The combining class of a 16-bit character. *)
Definition ccc (c : Z) : Z := default 0 (get_combining_class c).

Lemma ccc_class c : in_word 16 c -> get_combining_class c = Some (ccc c) /\ 0 <= ccc c < 256.
Proof. intros Hc. destruct (get_combining_class_total c Hc) as (p & Hp & Hr). unfold ccc. by rewrite Hp. Qed.

(** The reordering of the Unicode standard: adjacent characters of which the
    second has a smaller combining class, not 0, may be exchanged. *)
Inductive reorder : list Z -> list Z -> Prop :=
  | reorder_swap l1 a b l2 :
      ccc b < ccc a -> ccc b <> 0 -> reorder (l1 ++ a :: b :: l2) (l1 ++ b :: a :: l2).

Definition canonical (l : list Z) : Prop := forall l', ~ reorder l l'.

(** The exchanges still to be made. *)
Fixpoint inversions (l : list Z) : nat :=
  match l with
  | [] => 0
  | a :: l => length (filter (fun b => ccc b < ccc a /\ ccc b <> 0) l) + inversions l
  end.

Lemma filter_length_perm (P : Z -> Prop) `{!forall x, Decision (P x)} l l' :
  l ≡ₚ l' -> length (filter P l) = length (filter P l').
Proof. intros Hp. by rewrite Hp. Qed.

Lemma reorder_cons a l l' : reorder l l' -> reorder (a :: l) (a :: l').
Proof. intros [l1 x y l2 H1 H2]. by apply (reorder_swap (a :: l1)). Qed.

Lemma rtc_reorder_cons a l l' : rtc reorder l l' -> rtc reorder (a :: l) (a :: l').
Proof. induction 1; [done|]. eapply rtc_l; [by apply reorder_cons|done]. Qed.

Lemma reorder_perm l l' : rtc reorder l l' -> l ≡ₚ l'.
Proof.
  induction 1 as [|l1 l2 l3 [p a b s] _ IH]; [done|]. rewrite <-IH.
  apply Permutation_app_head. constructor.
Qed.

(** A pass exchanges characters, strictly reducing the inversions, or finds the
    characters in canonical order. *)
Definition adjacent_ok (a b : Z) : Prop := ~ (ccc b < ccc a /\ ccc b <> 0).

Fixpoint ordered (l : list Z) : Prop :=
  match l with
  | a :: (b :: _) as l' => adjacent_ok a b /\ ordered l'
  | _ => True
  end.

Lemma sort_pass_spec c1 rest :
  Forall (in_word 16) (c1 :: rest) ->
  exists l ch, sort_pass c1 (ccc c1) rest = Some (l, ch) /\
    rtc reorder (c1 :: rest) l /\
    (ch = true -> inversions l < inversions (c1 :: rest))%nat /\
    (inversions l <= inversions (c1 :: rest))%nat /\
    (ch = false -> l = c1 :: rest /\ ordered l).
Proof.
  revert c1. induction rest as [|c2 rest IH]; intros c1 Hall.
  { exists [c1], false. split_and!; try done; by constructor. }
  apply Forall_cons in Hall as [H1 Hall]. pose proof Hall as Hall'.
  apply Forall_cons in Hall' as [H2 Hrest].
  destruct (ccc_class c2 H2) as [Hc2 Hr2]. simpl sort_pass. rewrite Hc2, bind_some.
  case_decide as Hsw.
  - destruct (IH c1) as (l & ch & -> & Hro & Hlt & Hle & _); [by constructor|].
    exists (c2 :: l), true. split; [done|]. split.
    { eapply rtc_l; [apply (reorder_swap [] c1 c2 rest); lia|]. by apply rtc_reorder_cons. }
    assert (inversions (c2 :: l) < inversions (c1 :: c2 :: rest))%nat as Hinv.
    { simpl. rewrite (filter_length_perm _ l (c1 :: rest)) by (symmetry; by apply reorder_perm).
      rewrite !filter_cons. simpl in Hle.
      rewrite (decide_False (P := ccc c1 < ccc c2 /\ ccc c1 <> 0)) by lia.
      rewrite (decide_True (P := ccc c2 < ccc c1 /\ ccc c2 <> 0)) by lia. simpl. lia. }
    split; [done|]. split; [lia|done].
  - destruct (IH c2 Hall) as (l & ch & -> & Hro & Hlt & Hle & Hno).
    exists (c1 :: l), ch. split; [done|]. split; [by apply rtc_reorder_cons|].
    assert (length (filter (fun b => ccc b < ccc c1 /\ ccc b <> 0) l) =
            length (filter (fun b => ccc b < ccc c1 /\ ccc b <> 0) (c2 :: rest))) as Hf
      by (apply filter_length_perm; symmetry; by apply reorder_perm).
    cbn [inversions]. rewrite Hf. cbn [inversions] in Hle, Hlt. split_and!.
    + intros Hch. specialize (Hlt Hch). lia.
    + lia.
    + intros Hch. destruct (Hno Hch) as [-> Hord]. split; [done|]. by split.
Qed.

Lemma ordered_canonical l : ordered l -> canonical l.
Proof.
  intros Hord l' Hre. destruct Hre as [l1 a b l2 Hlt Hne].
  induction l1 as [|x l1 IH]; simpl in *.
  - destruct Hord as [Hab _]. by destruct Hab.
  - destruct (l1 ++ a :: b :: l2) as [|y l3] eqn:E; [by destruct l1|]. apply IH. by destruct Hord.
Qed.

Lemma inversions_bound l : (inversions l <= length l * length l)%nat.
Proof.
  induction l as [|a l IH]; simpl; [done|].
  pose proof (length_filter (fun b => ccc b < ccc a /\ ccc b <> 0) l). lia.
Qed.

Lemma prioritysort_loop_spec fuel l :
  l <> [] -> Forall (in_word 16) l -> (inversions l < fuel)%nat ->
  exists l', prioritysort_loop fuel l = Some l' /\ rtc reorder l l' /\ canonical l'.
Proof.
  revert l. induction fuel as [|fuel IH]; intros l Hne Hall Hf; [lia|].
  destruct l as [|c rest]; [done|].
  pose proof Hall as Hall'. apply Forall_cons in Hall' as [Hc _].
  destruct (sort_pass_spec c rest Hall) as (l & ch & Hrun & Hro & Hlt & _ & Hno).
  simpl. destruct (ccc_class c Hc) as [-> _]. rewrite bind_some, Hrun, bind_some.
  pose proof (reorder_perm _ _ Hro) as Hperm. destruct ch.
  - destruct (IH l) as (l' & Hrun' & Hro' & Hcan).
    + intros ->. by apply Permutation_nil_r in Hperm.
    + by rewrite <-Hperm.
    + specialize (Hlt eq_refl). lia.
    + exists l'. split; [done|]. split; [by etrans|done].
  - destruct (Hno eq_refl) as [-> Hord]. exists (c :: rest). split; [done|]. split; [done|].
    by apply ordered_canonical.
Qed.

Lemma prioritysort_ok l :
  l <> [] -> Forall (in_word 16) l ->
  exists l', prioritysort l = Some l' /\ rtc reorder l l' /\ canonical l'.
Proof.
  intros Hne Hall. apply prioritysort_loop_spec; [done|done|].
  pose proof (inversions_bound l). lia.
Qed.

Lemma prioritysort_length l l' : rtc reorder l l' -> length l' = length l.
Proof. intros H. symmetry. apply Permutation_length. by apply reorder_perm. Qed.

Lemma reorder_stable p l l' :
  rtc reorder l l' -> filter (fun c => ccc c = p) l' = filter (fun c => ccc c = p) l.
Proof.
  induction 1 as [|l1 l2 l3 Hr _ IH]; [done|]. rewrite IH. destruct Hr as [p1 a b p2 Hlt _].
  rewrite !filter_app, !filter_cons. repeat case_decide; try done. lia.
Qed.

(** ** Composition *)

Lemma precomposition_table_sorted :
  pairs_inside CFUniCharPrecompSourceTable 0 CFUniCharPrecompositionTableLength /\
  sorted_keys CFUniCharPrecompSourceTable 0 CFUniCharPrecompositionTableLength.
Proof.
  split; [split; vm_compute; congruence|]. apply sorted_check_sound. vm_compute. reflexivity.
Qed.

(** Each value of the source table describes a sorted segment of the destination
    table. *)
Definition segment_check (i : Z) : bool :=
  match value_at CFUniCharPrecompSourceTable 0 i with
  | Some v =>
      let base := 2 * Z.land v 65535 in
      let n := Z.shiftr v 16 in
      bool_decide (1 <= n < 65536 /\ base + 2 * n <= Z.of_nat (length CFUniCharBMPPrecompDestinationTable))
        && sorted_check CFUniCharBMPPrecompDestinationTable base n
  | None => false
  end.

Lemma segments_checked : forallb segment_check (seqZ 0 CFUniCharPrecompositionTableLength) = true.
Proof. vm_compute. reflexivity. Qed.

Lemma segment_sorted i v :
  0 <= i < CFUniCharPrecompositionTableLength -> value_at CFUniCharPrecompSourceTable 0 i = Some v ->
  pairs_inside CFUniCharBMPPrecompDestinationTable (2 * Z.land v 65535) (Z.shiftr v 16) /\
  sorted_keys CFUniCharBMPPrecompDestinationTable (2 * Z.land v 65535) (Z.shiftr v 16) /\
  1 <= Z.shiftr v 16 < 65536.
Proof.
  intros Hi Hv. pose proof segments_checked as Hall. rewrite forallb_forall in Hall.
  specialize (Hall i). rewrite <-list_elem_of_In, elem_of_seqZ in Hall. specialize (Hall ltac:(lia)).
  unfold segment_check in Hall. rewrite Hv in Hall. apply andb_true_iff in Hall as [Hb Hs].
  apply bool_decide_eq_true in Hb. split; [|split; [by apply sorted_check_sound|lia]].
  split; [|lia]. assert (0 <= Z.land v 65535); [|lia].
  change 65535 with (Z.ones 16). rewrite Z.land_ones by lia. apply Z.mod_pos_bound. lia.
Qed.

Lemma unicode_combine_table_total base c :
  exists v, unicode_combine_table base c = Some v /\ in_word 16 v.
Proof.
  unfold unicode_combine_table. destruct precomposition_table_sorted as [Hin Hsort].
  destruct (getmappedvalue_spec _ _ _ c Hin Hsort) as (v & Hv & Hmap); [by vm_compute|].
  unfold getmappedvalue32. rewrite Hv, bind_some.
  assert (forall x, in_word 16 (u16 x)) as Hu by (intros; apply wrap_range; lia).
  case_decide; [|by eexists].
  destruct Hmap as [(i & Hi & _ & Hval)|[-> _]]; [|done].
  destruct (segment_sorted i v Hi Hval) as (Hin2 & Hsort2 & Hn).
  destruct (getmappedvalue_spec _ _ _ base Hin2 Hsort2) as (x & Hx & _); [lia|].
  unfold getmappedvalue16. rewrite Hx. by eexists.
Qed.

Lemma unicode_combine_total base c : exists v, unicode_combine base c = Some v /\ in_word 16 v.
Proof.
  assert (forall x, in_word 16 (u16 x)) as Hu by (intros; apply wrap_range; lia).
  unfold unicode_combine. repeat case_decide; try apply unicode_combine_table_total;
    (eexists; split; [reflexivity|]; first [apply Hu|done]).
Qed.

(** ** Properties *)

(** C37. Canonical ordering: on any run of 16-bit characters [prioritysort]
    terminates; its result is a permutation obtained by exchanging adjacent
    characters as the Unicode canonical ordering algorithm allows (the combining
    class of the second smaller and not 0), no further such exchange is possible,
    and characters of the same class keep their order. *)
Theorem prioritysort_canonical l :
  l <> [] -> Forall (in_word 16) l ->
  exists l', prioritysort l = Some l' /\ rtc reorder l l' /\ canonical l' /\ l ≡ₚ l' /\
    forall p, filter (fun c => ccc c = p) l' = filter (fun c => ccc c = p) l.
Proof.
  intros Hne Hall. destruct (prioritysort_ok l Hne Hall) as (l' & Hrun & Hro & Hcan).
  exists l'. split_and!; try done; [by apply reorder_perm|]. intros p. by apply reorder_stable.
Qed.

(** Decomposition is total and full: every 16-bit character is decomposed
    without reading outside the tables, into at most four characters none of
    which is decomposable, and into at least one if the character is decomposable. *)
Theorem unicode_decompose_full c :
  in_word 16 c ->
  exists r, unicode_decompose c = Some r /\ (length r <= 4)%nat /\
    Forall (fun d => in_word 16 d /\ unicode_decomposeable d = Some false) r /\
    (unicode_decomposeable c = Some true -> r <> []).
Proof.
  intros Hc. destruct (unicode_decompose_ok c Hc) as (r & Hr & Hlen & Hall).
  exists r. split_and!; try done. intros Hd ->. by apply (unicode_decompose_nonempty c).
Qed.

(** Hangul: composing the Jamo of any syllable's decomposition, from left to
    right, gives the syllable back. *)
Theorem hangul_roundtrip c :
  HANGUL_SBASE <= c < HANGUL_SBASE + HANGUL_SCOUNT ->
  exists l v t, unicode_decompose c = Some (l :: v :: t) /\
    match t with
    | [] => unicode_combine l v = Some c
    | [t] => exists lv, unicode_combine l v = Some lv /\ unicode_combine lv t = Some c
    | _ => False
    end.
Proof.
  unfold unicode_decompose, unicode_combine.
  intros Hc. rewrite decide_True by lia. change (21 * 28) with 588.
  rewrite (wrap_small 16 (c - 44032)) by (unfold in_word; lia).
  assert (0 <= (c - 44032) / 588 < 19 /\ 0 <= (c - 44032) mod 588 / 28 < 21 /\
    0 <= (c - 44032) mod 28 < 28 /\
    c - 44032 = (c - 44032) / 588 * 588 + (c - 44032) mod 588 / 28 * 28 + (c - 44032) mod 28)
    as (Hl & Hv & Ht & Hsum) by (Z.to_euclidean_division_equations; lia).
  set (l := (c - 44032) / 588) in *. set (v := (c - 44032) mod 588 / 28) in *.
  set (t := (c - 44032) mod 28) in *.
  rewrite !(wrap_small 16) by (unfold in_word; lia).
  do 3 eexists. split; [reflexivity|]. case_decide as Ht0.
  - eexists. split.
    + rewrite !decide_True by lia. rewrite (wrap_small 16) by (unfold in_word; lia). reflexivity.
    + rewrite decide_True by lia. rewrite decide_False by lia. rewrite decide_True by lia.
      rewrite decide_False; [rewrite (wrap_small 16) by (unfold in_word; lia); f_equal; lia|].
      replace (44032 + (l + 4352 - 4352) * 588 + (v + 4449 - 4449) * 28 - 44032)
        with ((l * 21 + v) * 28) by lia. rewrite Z.mod_mul by lia. lia.
  - rewrite !decide_True by lia. rewrite (wrap_small 16) by (unfold in_word; lia). f_equal. lia.
Qed.

(** The SFM mapping is undone by its inverse: every ASCII character but the
    slash, as the last character of a name or not, is mapped back to itself; the
    slash, which takes the place of the colon, comes back as a colon. *)
Theorem sfm_roundtrip c last :
  1 <= c < 128 ->
  exists s, ucs_to_sfm c last = Some s /\
    sfm_to_ucs s = Some (if decide (c = 47) then 58 else c).
Proof.
  intros Hc.
  assert (forallb (fun c => forallb (fun last =>
    match ucs_to_sfm c last with
    | Some s => bool_decide (sfm_to_ucs s = Some (if decide (c = 47) then 58 else c))
    | None => false
    end) [false; true]) (seqZ 1 127) = true) as Hall by (vm_compute; reflexivity).
  rewrite forallb_forall in Hall. specialize (Hall c).
  rewrite <-list_elem_of_In, elem_of_seqZ in Hall. specialize (Hall ltac:(lia)).
  rewrite forallb_forall in Hall. specialize (Hall last).
  rewrite <-list_elem_of_In in Hall. specialize (Hall ltac:(destruct last; set_solver)).
  destruct (ucs_to_sfm c last) as [s|]; [|done]. exists s. split; [done|].
  by apply bool_decide_eq_true in Hall.
Qed.

(** ** Witnesses *)

(** An acute accent (class 230) and a dot below (class 220). *)
Lemma prioritysort_canonical_witness : prioritysort [769; 803] = Some [803; 769].
Proof.
  destruct (prioritysort_canonical [769; 803]) as (l' & Hrun & _); [done| |].
  - repeat apply Forall_cons_2; try done; by vm_compute.
  - rewrite Hrun. vm_compute in Hrun. symmetry. exact Hrun.
Defined.

Lemma unicode_decompose_full_witness : unicode_decompose 7879 = Some [101; 803; 770].
Proof.
  destruct (unicode_decompose_full 7879) as (r & Hr & _); [by vm_compute|].
  rewrite Hr. vm_compute in Hr. symmetry. exact Hr.
Defined.

Lemma hangul_roundtrip_witness :
  exists l v t lv, unicode_decompose 54620 = Some [l; v; t] /\
    unicode_combine l v = Some lv /\ unicode_combine lv t = Some 54620.
Proof.
  destruct (hangul_roundtrip 54620) as (l & v & t & Hd & Hc); [by vm_compute|].
  vm_compute in Hd. injection Hd as <- <- <-. destruct Hc as (lv & H1 & H2).
  exists 4370, 4449, 4523, lv. split; [vm_compute; reflexivity|]. split; [exact H1|exact H2].
Defined.

Lemma sfm_roundtrip_witness :
  exists s, ucs_to_sfm 63 false = Some s /\ sfm_to_ucs s = Some 63.
Proof.
  destruct (sfm_roundtrip 63 false) as (s & H1 & H2); [lia|]. exists s. split; [exact H1|exact H2].
Defined.
