(* ===== verification/Utf8.v ===== *)
(** * UTF-8 and UTF-16 ([src/bsd/vfs/vfs_utfconv.c])

    The conversions between UTF-8 and 16-bit Unicode that the file systems use
    for names: [utf8_encodelen], [utf8_encodestr], [utf8_decodestr],
    [utf8_validatestr] and [utf8_normalizestr].  A buffer that is read is the list
    of its elements; a buffer that is written is the list of what has been written
    so far, with its size in bytes.  An access outside a buffer is [None]. *)
From S2P Require Import Prelude UtfData Unicode.

Local Open Scope Z_scope.

Definition EINVAL := 22.
Definition ENAMETOOLONG := 63.

Abbreviation UTF_REVERSE_ENDIAN := (1)%Z.
Abbreviation UTF_NO_NULL_TERM := (2)%Z.
Abbreviation UTF_DECOMPOSED := (4)%Z.
Abbreviation UTF_PRECOMPOSED := (8)%Z.
Abbreviation UTF_ESCAPE_ILLEGAL := (16)%Z.
Abbreviation UTF_SFM_CONVERSIONS := (32)%Z.

Definition has_flag (flags f : Z) : bool := bool_decide (Z.land flags f <> 0).

Definition UCS_ALT_NULL := 9216.
Abbreviation SP_HALF_BASE := (65536)%Z.
Abbreviation SP_HALF_MASK := (1023)%Z.
Abbreviation SP_HIGH_FIRST := (55296)%Z.
Abbreviation SP_HIGH_LAST := (56319)%Z.
Abbreviation SP_LOW_FIRST := (56320)%Z.
Abbreviation SP_LOW_LAST := (57343)%Z.

Definition UNICODE_TO_UTF8_LEN (c : Z) : Z :=
  if decide (c < 128) then 1 else
  if decide (c < 2048) then 2 else
  if decide (Z.land c 63488 = 55296) then 2 else 3.

Definition utf_extrabytes : list Z :=
  replicate 16 0 ++ replicate 8 (-1) ++ [1; 1; 1; 1; 2; 2; 3; -1].

Definition hexdigits : list Z := bytes_of_string "0123456789ABCDEF".

Definition OSSwapInt16 (c : Z) : Z := u16 (Z.lor (Z.shiftl c 8) (Z.shiftr c 8)).

Definition swap_if (swapbytes : bool) (c : Z) : Z := if swapbytes then OSSwapInt16 c else c.

(** ** Encoding *)

(** The next character: of a pending decomposition, or of the input.  [charcnt] is
    always the number of pending and remaining characters.  [Some None] is the end;
    a decomposition into nothing would leave [sequence[0]] unset. *)
Definition next_char (swapbytes decompose : bool) (pending input : list Z)
    : option (option (Z * list Z * list Z)) :=
  match pending, input with
  | c :: pending, _ => Some (Some (c, pending, input))
  | [], [] => Some None
  | [], c :: input =>
      let c := swap_if swapbytes c in
      d ← (if decompose then unicode_decomposeable c else Some false);
      if (d : bool) then
        sequence ← unicode_decompose c;
        match sequence with [] => None | c :: rest => Some (Some (c, rest, input)) end
      else Some (Some (c, [], input))
  end.

(** [utf8_encodelen] replaces slash and NUL in the input only, before it
    decomposes; [Some (Some (c, pending, input))] as above. *)
Definition encodelen_next (swapbytes decompose : bool) (altslash : Z) (pending input : list Z)
    : option (option (Z * list Z * list Z)) :=
  match pending, input with
  | [], c :: input' =>
      let c := swap_if swapbytes c in
      if decide (c = 47) then
        Some (Some (if decide (altslash <> 0) then altslash else 95, [], input'))
      else if decide (c = 0) then Some (Some (UCS_ALT_NULL, [], input'))
      else next_char swapbytes decompose pending input
  | _, _ => next_char swapbytes decompose pending input
  end.

Fixpoint encodelen_loop (fuel : nat) (swapbytes decompose : bool) (altslash : Z)
    (pending input : list Z) (len : Z) : option Z :=
  match fuel with
  | O => None
  | S fuel =>
      r ← encodelen_next swapbytes decompose altslash pending input;
      match r with
      | None => Some len
      | Some (c, pending, input) =>
          encodelen_loop fuel swapbytes decompose altslash pending input (len + UNICODE_TO_UTF8_LEN c)
      end
  end.

(** A character decomposes into at most four, so that four turns per character
    and the last test are enough. *)
Definition utf8_encodelen (ucs : list Z) (altslash flags : Z) : option Z :=
  encodelen_loop (S (4 * length ucs)) (has_flag flags UTF_REVERSE_ENDIAN)
    (has_flag flags UTF_DECOMPOSED) altslash [] ucs 0.

Definition utf8_2 (c : Z) : list Z :=
  [u8 (Z.lor 192 (u8 (Z.shiftr c 6))); u8 (Z.lor 128 (Z.land 63 c))].
Definition utf8_3 (c : Z) : list Z :=
  [u8 (Z.lor 224 (Z.shiftr c 12)); u8 (Z.lor 128 (Z.land 63 (Z.shiftr c 6)));
   u8 (Z.lor 128 (Z.land 63 c))].
Definition utf8_4 (pair : Z) : list Z :=
  [u8 (Z.lor 240 (u8 (Z.shiftr pair 18))); u8 (Z.lor 128 (Z.land 63 (Z.shiftr pair 12)));
   u8 (Z.lor 128 (Z.land 63 (Z.shiftr pair 6))); u8 (Z.lor 128 (Z.land 63 pair))].

Section encode.
Context (swapbytes decompose sfmconv : bool) (altslash buflen bufend : Z).

(** Slash and NUL are replaced; the result code may change. *)
Definition encode_replace (ucs_ch result : Z) : Z * Z :=
  if decide (ucs_ch = 47) then
    if decide (altslash <> 0) then (altslash, result) else (95, EINVAL)
  else if decide (ucs_ch = 0) then (UCS_ALT_NULL, result)
  else (ucs_ch, result).

(** Storing bytes at [utf8p], which must be inside the buffer. *)
Definition emit (out bytes : list Z) : option (list Z) :=
  if decide (Z.of_nat (length out + length bytes) <= buflen) then Some (out ++ bytes) else None.

(** What becomes of one character: a stop with a result code, or the bytes to
    store and the remaining input. *)
Inductive encoded := EncStop (code : Z) | EncBytes (bytes input : list Z).

(** The bytes, or [ENAMETOOLONG] when they do not end before [bufend]. *)
Definition fits (out bytes input : list Z) : encoded :=
  if decide (bufend <= Z.of_nat (length out) + Z.of_nat (length bytes) - 1)
  then EncStop ENAMETOOLONG else EncBytes bytes input.

Definition encode_char (ucs_ch : Z) (pending input out : list Z) : option encoded :=
  if decide (ucs_ch < 128) then Some (fits out [u8 ucs_ch] input)
  else if decide (ucs_ch < 2048) then Some (fits out (utf8_2 ucs_ch) input)
  else if decide (ucs_ch = 65534 \/ ucs_ch = 65535) then Some (EncStop EINVAL)
  else if decide (SP_HIGH_FIRST <= ucs_ch /\ ucs_ch <= SP_HIGH_LAST /\ (pending <> [] \/ input <> []))
  then
    ch2 ← (match input with [] => None | c :: _ => Some (swap_if swapbytes c) end);
    if decide (SP_LOW_FIRST <= ch2 /\ ch2 <= SP_LOW_LAST) then
      let pair := u32 (Z.shiftl (ucs_ch - SP_HIGH_FIRST) 10 + (ch2 - SP_LOW_FIRST) + SP_HALF_BASE) in
      Some (fits out (utf8_4 pair) (tail input))
    else Some (fits out (utf8_3 ucs_ch) input)
  else if sfmconv then
    ucs_ch ← sfm_to_ucs ucs_ch;
    if decide (ucs_ch < 128) then Some (fits out [u8 ucs_ch] input)
    else Some (fits out (utf8_3 ucs_ch) input)
  else Some (fits out (utf8_3 ucs_ch) input).

Fixpoint encode_loop (fuel : nat) (pending input out : list Z) (result : Z)
    : option (Z * list Z) :=
  match fuel with
  | O => None
  | S fuel =>
      r ← next_char swapbytes decompose pending input;
      match r with
      | None => Some (result, out)
      | Some (ucs_ch, pending, input) =>
          let '(ucs_ch, result) := encode_replace ucs_ch result in
          e ← encode_char ucs_ch pending input out;
          match e with
          | EncStop code => Some (code, out)
          | EncBytes bytes input =>
              out ← emit out bytes;
              encode_loop fuel pending input out result
          end
      end
  end.
End encode.

(** The result code and the bytes stored before the terminating NUL; the NUL is
    stored at the end of them if the flags ask for it. *)
Definition utf8_encodestr (ucs : list Z) (buflen altslash flags : Z) : option (Z * list Z) :=
  let nullterm := negb (has_flag flags UTF_NO_NULL_TERM) in
  let bufend := if nullterm then buflen - 1 else buflen in
  '(result, out) ← encode_loop (has_flag flags UTF_REVERSE_ENDIAN) (has_flag flags UTF_DECOMPOSED)
      (has_flag flags UTF_SFM_CONVERSIONS) altslash buflen bufend
      (S (4 * length ucs)) [] ucs [] 0;
  if nullterm then (_ ← emit buflen out [0]; Some (result, out)) else Some (result, out).

(** ** Decoding *)

(** A size_t converted to int. *)
Definition int_of (n : Z) : Z :=
  let m := u32 n in if decide (m < 2 ^ 31) then m else m - 2 ^ 32.

(** What follows a first byte of 0x80 or more: an illegal sequence, one code unit,
    a surrogate pair, or the switch's default; with the extra bytes used. *)
Inductive utf8_seq := SeqBad | SeqUnit (ch : Z) | SeqPair (hi lo : Z) | SeqDefault.

Definition is_trail (byte : Z) : bool := bool_decide (Z.shiftr byte 6 = 2).

Definition decode_seq (extrabytes byte : Z) (utf8p : list Z) : option utf8_seq :=
  let ch := u32 (Z.shiftl byte 6) in
  if decide (extrabytes = 1) then
    b2 ← head utf8p;
    if negb (is_trail b2) then Some SeqBad else
    let ch := u32 (u32 (ch + b2) - 12416) in
    if decide (ch < 128) then Some SeqBad else Some (SeqUnit ch)
  else if decide (extrabytes = 2) then
    b2 ← head utf8p;
    if negb (is_trail b2) then Some SeqBad else
    let ch := u32 (Z.shiftl (u32 (ch + b2)) 6) in
    b3 ← utf8p !! 1%nat;
    if negb (is_trail b3) then Some SeqBad else
    let ch := u32 (u32 (ch + b3) - 925824) in
    if decide (ch < 2048) then Some SeqBad else
    if decide (55296 <= ch /\ (ch <= 57343 \/ ch = 65534 \/ ch = 65535)) then Some SeqBad
    else Some (SeqUnit ch)
  else if decide (extrabytes = 3) then
    b2 ← head utf8p;
    if negb (is_trail b2) then Some SeqBad else
    let ch := u32 (Z.shiftl (u32 (ch + b2)) 6) in
    b3 ← utf8p !! 1%nat;
    if negb (is_trail b3) then Some SeqBad else
    let ch := u32 (Z.shiftl (u32 (ch + b3)) 6) in
    b4 ← utf8p !! 2%nat;
    if negb (is_trail b4) then Some SeqBad else
    let ch := u32 (u32 (ch + b4) - (63447168 + SP_HALF_BASE)) in
    let hi := u32 (Z.shiftr ch 10 + SP_HIGH_FIRST) in
    if decide (hi < SP_HIGH_FIRST \/ SP_HIGH_LAST < hi) then Some SeqBad else
    Some (SeqPair hi (u32 (Z.land ch SP_HALF_MASK + SP_LOW_FIRST)))
  else Some SeqDefault.

(** The characters written so far, and the length of the run of combining
    characters at their end. *)
Record decoder := Decoder { ucs : list Z; combcharcnt : Z }.

(** How the loop ends: at the end of the input, or with an error code. *)
Inductive decode_end := DecodeEnd (d : decoder) | DecodeError (code : Z) (d : decoder).

Section decode.
Context (decompose precompose escaping sfmconv : bool) (altslash buflen : Z).

(** [ucsp + k > bufend] and [ucsp + k >= bufend], in bytes. *)
Definition past_end (d : decoder) (k : Z) : bool :=
  bool_decide (buflen < 2 * (Z.of_nat (length (ucs d)) + k)).
Definition at_end (d : decoder) (k : Z) : bool :=
  bool_decide (buflen <= 2 * (Z.of_nat (length (ucs d)) + k)).

(** [*ucsp++ = c], which must be inside the buffer. *)
Definition store (c : Z) (d : decoder) : option decoder :=
  if decide (2 * (Z.of_nat (length (ucs d)) + 1) <= buflen)
  then Some (Decoder (ucs d ++ [c]) (combcharcnt d)) else None.

(** [prioritysort(ucsp - combcharcnt, combcharcnt)] when there is a run of two or
    more; a run that is longer than what was written is outside the buffer. *)
Definition sort_run (d : decoder) : option (list Z) :=
  if decide (1 < combcharcnt d) then
    if decide (combcharcnt d <= Z.of_nat (length (ucs d))) then
      let n := (length (ucs d) - Z.to_nat (combcharcnt d))%nat in
      l ← prioritysort (drop n (ucs d)); Some (take n (ucs d) ++ l)
    else None
  else Some (ucs d).

Definition push (ucs_ch : Z) (d : decoder) : option decoder :=
  comb ← unicode_combinable ucs_ch;
  d ← (if (comb : bool) then Some (Decoder (ucs d) (combcharcnt d + 1))
       else l ← sort_run d; Some (Decoder l 0));
  store ucs_ch d.

(** The decomposed characters, one by one; the flag says that they all fit. *)
Fixpoint push_all (sequence : list Z) (d : decoder) : option (bool * decoder) :=
  match sequence with
  | [] => Some (true, d)
  | c :: sequence =>
      if at_end d 0 then Some (false, d) else
      d ← push c d; push_all sequence d
  end.

(** A character that composes with the one before it replaces it. *)
Definition precompose_with (ucs_ch : Z) (d : decoder) : option (Z * decoder) :=
  match last (ucs d) with
  | None => Some (ucs_ch, d)
  | Some base =>
      comb ← unicode_combinable ucs_ch;
      if (comb : bool) then
        composite ← unicode_combine base ucs_ch;
        if decide (composite <> 0)
        then Some (composite, Decoder (take (length (ucs d) - 1) (ucs d)) (combcharcnt d))
        else Some (ucs_ch, d)
      else Some (ucs_ch, d)
  end.

(** A single code unit of more than ASCII: decomposed, or composed and stored. *)
Definition decode_unit (ucs_ch : Z) (d : decoder) : option (bool * decoder) :=
  dec ← (if decompose then unicode_decomposeable ucs_ch else Some false);
  if (dec : bool) then sequence ← unicode_decompose ucs_ch; push_all sequence d else
  '(ucs_ch, d) ← (if negb decompose && precompose then precompose_with ucs_ch d
                  else Some (ucs_ch, d));
  let ucs_ch := if decide (ucs_ch = UCS_ALT_NULL) then 0 else ucs_ch in
  let ucs_ch := if decide (ucs_ch = altslash) then 47 else ucs_ch in
  d ← push ucs_ch d; Some (true, d).

Definition decode_pair (hi lo : Z) (d : decoder) : option (bool * decoder) :=
  d ← push hi d;
  if at_end d 0 then Some (false, d) else
  d ← store lo d; Some (true, d).

(** The percent escape of an illegal byte. *)
Definition decode_escape (byte : Z) (d : decoder) : option (bool * decoder) :=
  if at_end d 2 then Some (false, d) else
  l ← sort_run d;
  h1 ← zget hexdigits (Z.shiftr byte 4);
  h2 ← zget hexdigits (Z.land byte 15);
  d ← store 37 (Decoder l 0);
  d ← store h1 d;
  d ← store h2 d;
  Some (true, d).

Definition decode_ascii (byte : Z) (lastchar : bool) (d : decoder) : option decoder :=
  ucs_ch ← (if sfmconv then ucs_to_sfm byte lastchar else Some byte);
  push (if decide (ucs_ch = altslash) then 47 else ucs_ch) d.

(** [utf8p] is what is left of the input and [utf8len] the count of the code; the
    restored count of an escape is [utf8len] and [extrabytes] again, also where
    they had not been subtracted. *)
Fixpoint decode_loop (fuel : nat) (utf8p : list Z) (utf8len : Z) (d : decoder) : option decode_end :=
  match fuel with
  | O => None
  | S fuel =>
      if decide (utf8len <= 0) then Some (DecodeEnd d) else
      match utf8p with
      | [] => None
      | byte :: utf8p =>
          let utf8len := utf8len - 1 in
          if decide (byte = 0) then Some (DecodeEnd d) else
          if past_end d 1 then Some (DecodeError ENAMETOOLONG d) else
          if decide (byte < 128) then
            d ← decode_ascii byte (bool_decide (utf8len = 0)) d;
            decode_loop fuel utf8p utf8len d
          else
            extrabytes ← zget utf_extrabytes (Z.shiftr byte 3);
            let early := bool_decide (extrabytes < 0 \/ int_of utf8len < extrabytes) in
            seq ← (if early then Some SeqBad else decode_seq extrabytes byte utf8p);
            let rest := drop (Z.to_nat extrabytes) utf8p in
            match seq with
            | SeqBad =>
                if negb escaping then Some (DecodeError EINVAL d) else
                let utf8len :=
                  if early && bool_decide (0 < extrabytes) then utf8len + extrabytes else utf8len in
                '(fit, d) ← decode_escape byte d;
                if (fit : bool) then decode_loop fuel utf8p utf8len d
                else Some (DecodeError ENAMETOOLONG d)
            | SeqDefault => Some (DecodeError EINVAL d)
            | SeqUnit ch =>
                '(fit, d) ← decode_unit (u16 ch) d;
                if (fit : bool) then decode_loop fuel rest (utf8len - extrabytes) d
                else Some (DecodeError ENAMETOOLONG d)
            | SeqPair hi lo =>
                '(fit, d) ← decode_pair (u16 hi) (u16 lo) d;
                if (fit : bool) then decode_loop fuel rest (utf8len - extrabytes) d
                else Some (DecodeError ENAMETOOLONG d)
            end
      end
  end.
End decode.

(** The result code and the characters stored.  [utf8] is the object that holds
    the input; each turn of the loop reads at least one byte of it. *)
Definition utf8_decodestr (utf8 : list Z) (utf8len buflen altslash flags : Z)
    : option (Z * list Z) :=
  e ← decode_loop (has_flag flags UTF_DECOMPOSED) (has_flag flags UTF_PRECOMPOSED)
        (has_flag flags UTF_ESCAPE_ILLEGAL) (has_flag flags UTF_SFM_CONVERSIONS)
        altslash buflen (S (length utf8)) utf8 utf8len (Decoder [] 0);
  match e with
  | DecodeError code d => Some (code, ucs d)
  | DecodeEnd d =>
      l ← sort_run d;
      Some (0, if has_flag flags UTF_REVERSE_ENDIAN then map OSSwapInt16 l else l)
  end.

(** ** Validation *)

(** The checks of a sequence after its first byte; [extrabytes] is a [size_t], so
    that -1 is larger than any length. *)
Definition validate_seq (extrabytes byte : Z) (utf8p : list Z) : option bool :=
  let ch := u32 (Z.shiftl byte 6) in
  if decide (extrabytes = 1) then
    b2 ← head utf8p;
    if negb (is_trail b2) then Some false else
    let ch := u32 (u32 (ch + b2) - 12416) in
    Some (bool_decide (128 <= ch))
  else if decide (extrabytes = 2) then
    b2 ← head utf8p;
    if negb (is_trail b2) then Some false else
    let ch := u32 (Z.shiftl (u32 (ch + b2)) 6) in
    b3 ← utf8p !! 1%nat;
    if negb (is_trail b3) then Some false else
    let ch := u32 (u32 (ch + b3) - 925824) in
    if decide (ch < 2048) then Some false else
    Some (negb (bool_decide (55296 <= ch /\ (ch <= 57343 \/ ch = 65534 \/ ch = 65535))))
  else if decide (extrabytes = 3) then
    b2 ← head utf8p;
    if negb (is_trail b2) then Some false else
    let ch := u32 (Z.shiftl (u32 (ch + b2)) 6) in
    b3 ← utf8p !! 1%nat;
    if negb (is_trail b3) then Some false else
    let ch := u32 (Z.shiftl (u32 (ch + b3)) 6) in
    b4 ← utf8p !! 2%nat;
    if negb (is_trail b4) then Some false else
    let ch := u32 (u32 (ch + b4) - (63447168 + SP_HALF_BASE)) in
    let hi := u32 (Z.shiftr ch 10 + SP_HIGH_FIRST) in
    if decide (hi < SP_HIGH_FIRST \/ SP_HIGH_LAST < hi) then Some false else
    let lo := u32 (Z.land ch SP_HALF_MASK + SP_LOW_FIRST) in
    Some (negb (bool_decide (lo < SP_LOW_FIRST \/ SP_LOW_LAST < lo)))
  else Some false.

Fixpoint validate_loop (fuel : nat) (utf8p : list Z) (utf8len : Z) : option Z :=
  match fuel with
  | O => None
  | S fuel =>
      if decide (utf8len <= 0) then Some 0 else
      match utf8p with
      | [] => None
      | byte :: utf8p =>
          let utf8len := utf8len - 1 in
          if decide (byte = 0) then Some 0 else
          if decide (byte < 128) then validate_loop fuel utf8p utf8len else
          extrabytes ← zget utf_extrabytes (Z.shiftr byte 3);
          if decide (extrabytes < 0 \/ utf8len < extrabytes) then Some EINVAL else
          ok ← validate_seq extrabytes byte utf8p;
          if (ok : bool)
          then validate_loop fuel (drop (Z.to_nat extrabytes) utf8p) (utf8len - extrabytes)
          else Some EINVAL
      end
  end.

Definition utf8_validatestr (utf8 : list Z) (utf8len : Z) : option Z :=
  validate_loop (S (length utf8)) utf8 utf8len.

(** ** Normalisation *)

Definition MAXPATHLEN := 1024.

(** How the loop over the ASCII prefix ends, with what it has copied. *)
Inductive ascii_end := AsciiDone (out : list Z) | AsciiLong (out : list Z) | NonAscii (out : list Z).

Fixpoint normalize_ascii (fuel : nat) (instr : list Z) (inlen buflen : Z) (out : list Z)
    : option ascii_end :=
  match fuel with
  | O => None
  | S fuel =>
      if decide (inlen <= 0) then Some (AsciiDone out) else
      match instr with
      | [] => None
      | byte :: instr =>
          if decide (byte = 0) then Some (AsciiDone out) else
          if decide (buflen <= Z.of_nat (length out)) then Some (AsciiLong out) else
          if decide (128 <= byte) then Some (NonAscii out) else
          normalize_ascii fuel instr (inlen - 1) buflen (out ++ [byte])
      end
  end.

(** The code after [exit]: the NUL, if asked for and if there is room. *)
Definition normalize_exit (result buflen flags : Z) (out : list Z) : Z * list Z :=
  (if negb (has_flag flags UTF_NO_NULL_TERM) && bool_decide (buflen <= Z.of_nat (length out))
   then ENAMETOOLONG else result, out).

(** The calls of the kernel's allocator, with the sizes they are given. *)
Inductive heap_call := KallocData (size : Z) | KfreeData (size : Z).

(** The size of [unicodebuf], the buffer on the stack. *)
Abbreviation sizeof_unicodebuf := (64)%Z.

(** [utf8_decodestr] overwrites [unicode_bytes] with the size of its result, and
    [kfree_data] is given that. *)
Definition normalize_heap (unicode_bytes : Z) (unistr : list Z) : list heap_call :=
  if decide (unicode_bytes <= sizeof_unicodebuf) then []
  else [KallocData unicode_bytes; KfreeData (2 * Z.of_nat (length unistr))].

(** The result code; the output, [None] where [*outlen] is not set; and the calls
    of the allocator. *)
Definition utf8_normalizestr (instr : list Z) (inlen buflen flags : Z)
    : option (Z * option (list Z) * list heap_call) :=
  let known := Z.lor (Z.lor (Z.lor UTF_DECOMPOSED UTF_PRECOMPOSED) UTF_NO_NULL_TERM) UTF_ESCAPE_ILLEGAL in
  if decide (Z.land flags (Z.lnot known) <> 0) then Some (EINVAL, None, []) else
  let decompose := has_flag flags UTF_DECOMPOSED in
  let precompose := has_flag flags UTF_PRECOMPOSED in
  if eqb decompose precompose then Some (EINVAL, None, []) else
  let finish result out heap :=
    let '(result, out) := normalize_exit result buflen flags out in Some (result, Some out, heap) in
  e ← normalize_ascii (S (length instr)) instr inlen buflen [];
  match e with
  | AsciiDone out => finish 0 out []
  | AsciiLong out => finish ENAMETOOLONG out []
  | NonAscii out =>
      if decide (MAXPATHLEN < inlen) then finish ENAMETOOLONG out [] else
      let unicode_bytes := if precompose then inlen * 2 else inlen * 3 in
      '(result, unistr) ← utf8_decodestr instr inlen unicode_bytes 0
                            (Z.land flags (Z.lnot UTF_NO_NULL_TERM));
      let heap := normalize_heap unicode_bytes unistr in
      if decide (result = 0) then
        '(result, out) ← utf8_encodestr unistr buflen 0 UTF_NO_NULL_TERM;
        finish result out heap
      else finish result out heap
  end.
