(* ===== verification/Utf8Spec.v ===== *)
(** * UTF-8 and UTF-16 as specified

    The encodings of a scalar value of RFC 3629 and of UTF-16, written with
    division and remainder, and the correspondence of one multibyte sequence of
    [utf8_decodestr] with the encoding of one scalar value. *)
From stdpp Require Import relations.
From S2P Require Import Prelude UtfData Unicode Utf8.

Local Open Scope Z_scope.

(** ** Scalar values *)

(** A character that the routines accept: not NUL, not a surrogate, and neither
    U+FFFE nor U+FFFF. *)
Definition scalar (c : Z) : Prop :=
  0 < c <= 1114111 /\ ~ (55296 <= c <= 57343) /\ c <> 65534 /\ c <> 65535.

Definition utf8_bytes (c : Z) : list Z :=
  if decide (c < 128) then [c] else
  if decide (c < 2048) then [192 + c / 64; 128 + c mod 64] else
  if decide (c < 65536) then [224 + c / 4096; 128 + c / 64 mod 64; 128 + c mod 64] else
  [240 + c / 262144; 128 + c / 4096 mod 64; 128 + c / 64 mod 64; 128 + c mod 64].

Definition utf16_units (c : Z) : list Z :=
  if decide (c < 65536) then [c]
  else [55296 + (c - 65536) / 1024; 56320 + (c - 65536) mod 1024].

Definition utf8_string (cs : list Z) : list Z := concat (map utf8_bytes cs).
Definition utf16_string (cs : list Z) : list Z := concat (map utf16_units cs).

(** ** One sequence *)

Lemma trail_iff b : byte_ok b -> is_trail b = true <-> 128 <= b < 192.
Proof.
  intros Hb. unfold is_trail. rewrite bool_decide_eq_true, Z.shiftr_div_pow2 by lia.
  unfold in_word in Hb. change (2 ^ 8) with 256 in Hb. change (2 ^ 6) with 64.
  Z.to_euclidean_division_equations. lia.
Qed.

Lemma extrabytes_of b :
  128 <= b < 256 ->
  zget utf_extrabytes (Z.shiftr b 3) =
    Some (if decide (192 <= b < 224) then 1 else if decide (224 <= b < 240) then 2
          else if decide (240 <= b < 248) then 3 else -1).
Proof.
  intros Hb. rewrite Z.shiftr_div_pow2 by lia. change (2 ^ 3) with 8.
  assert (b / 8 ∈ seqZ 16 16) as Hin
    by (apply elem_of_seqZ; Z.to_euclidean_division_equations; lia).
  assert (exists d, b / 8 = d /\ b = 8 * d + b mod 8 /\ 0 <= b mod 8 < 8) as (d & Hd & Hb8 & Hm)
    by (exists (b / 8); Z.to_euclidean_division_equations; lia).
  rewrite Hd in *.
  change (seqZ 16 16) with
    [16; 17; 18; 19; 20; 21; 22; 23; 24; 25; 26; 27; 28; 29; 30; 31] in Hin.
  repeat (apply elem_of_cons in Hin as [->|Hin]); [..|by apply elem_of_nil in Hin];
    repeat case_decide; first [lia | reflexivity].
Qed.

Lemma utf_extrabytes_total b : 128 <= b < 256 -> exists e, zget utf_extrabytes (Z.shiftr b 3) = Some e.
Proof. intros Hb. rewrite extrabytes_of by done. by eexists. Qed.

Lemma u32_shiftl6 x : 0 <= x < 2 ^ 26 -> u32 (Z.shiftl x 6) = x * 64.
Proof.
  intros Hx. rewrite Z.shiftl_mul_pow2 by lia. apply wrap_small. unfold in_word. lia.
Qed.

Ltac u32s := rewrite ?u32_shiftl6 by lia;
  repeat match goal with
  | |- context [wrap 32 (Z.shiftl ?x 6)] => rewrite (u32_shiftl6 x) by lia
  | |- context [wrap 32 ?x] => rewrite (wrap_small 32 x) by (unfold in_word; lia)
  end.

(** What the sequence of a scalar value above ASCII decodes to. *)
Definition seq_of (c : Z) : utf8_seq :=
  if decide (c < 65536) then SeqUnit c
  else SeqPair (55296 + (c - 65536) / 1024) (56320 + (c - 65536) mod 1024).

Lemma shiftr10 x : Z.shiftr x 10 = x / 1024.
Proof. by rewrite Z.shiftr_div_pow2. Qed.

Lemma land1023 x : Z.land x SP_HALF_MASK = x mod 1024.
Proof. apply (Z.land_ones x 10). lia. Qed.

Lemma byte_ok_range b : byte_ok b <-> 0 <= b < 256.
Proof. done. Qed.

(** The three forms of sequence, as equations on the value of their bits. *)
Lemma decode_seq_1 b b2 p c :
  192 <= b < 224 -> byte_ok b2 ->
  c = (b - 192) * 64 + (b2 - 128) ->
  decode_seq 1 b (b2 :: p) =
    Some (if decide (128 <= b2 < 192 /\ 128 <= c) then SeqUnit c else SeqBad).
Proof.
  intros Hb Hb2 Hc. pose proof (trail_iff b2 Hb2) as Ht. rewrite byte_ok_range in Hb2.
  unfold decode_seq. rewrite decide_True by done. simpl (head _). rewrite bind_some.
  destruct (is_trail b2); simpl negb; cbv iota.
  - pose proof (proj1 Ht eq_refl). u32s. replace (b * 64 + b2 - 12416) with c by lia.
    repeat case_decide; first [reflexivity | lia].
  - rewrite decide_False by (rewrite <-?Ht, <-?Ht2; by intros [? _]). done.
Qed.

Lemma decode_seq_2 b b2 b3 p c :
  224 <= b < 240 -> byte_ok b2 -> byte_ok b3 ->
  c = (b - 224) * 4096 + (b2 - 128) * 64 + (b3 - 128) ->
  decode_seq 2 b (b2 :: b3 :: p) =
    Some (if decide (128 <= b2 < 192 /\ 128 <= b3 < 192 /\ 2048 <= c /\
                     ~ (55296 <= c <= 57343) /\ c <> 65534 /\ c <> 65535)
          then SeqUnit c else SeqBad).
Proof.
  intros Hb Hb2 Hb3 Hc. pose proof (trail_iff b2 Hb2) as Ht2. pose proof (trail_iff b3 Hb3) as Ht3.
  rewrite byte_ok_range in Hb2, Hb3.
  unfold decode_seq. rewrite decide_False by lia. rewrite decide_True by done.
  simpl (head _). rewrite bind_some.
  destruct (is_trail b2); simpl negb; cbv iota.
  2: { rewrite decide_False by (rewrite <-?Ht, <-?Ht2; by intros [? _]). done. }
  simpl (_ !! _). rewrite bind_some.
  destruct (is_trail b3); simpl negb; cbv iota.
  2: { rewrite decide_False by (rewrite <-Ht3; by intros (_ & ? & _)). done. }
  pose proof (proj1 Ht2 eq_refl). pose proof (proj1 Ht3 eq_refl).
  u32s. replace ((b * 64 + b2) * 64 + b3 - 925824) with c by lia.
  repeat case_decide; first [reflexivity | lia].
Qed.

Lemma decode_seq_3 b b2 b3 b4 p c :
  240 <= b < 248 -> byte_ok b2 -> byte_ok b3 -> byte_ok b4 ->
  c = (b - 240) * 262144 + (b2 - 128) * 4096 + (b3 - 128) * 64 + (b4 - 128) ->
  decode_seq 3 b (b2 :: b3 :: b4 :: p) =
    Some (if decide (128 <= b2 < 192 /\ 128 <= b3 < 192 /\ 128 <= b4 < 192 /\ 65536 <= c <= 1114111)
          then SeqPair (55296 + (c - 65536) / 1024) (56320 + (c - 65536) mod 1024) else SeqBad).
Proof.
  intros Hb Hb2 Hb3 Hb4 Hc. pose proof (trail_iff b2 Hb2) as Ht2. pose proof (trail_iff b3 Hb3) as Ht3.
  pose proof (trail_iff b4 Hb4) as Ht4. rewrite byte_ok_range in Hb2, Hb3, Hb4.
  unfold decode_seq. rewrite !decide_False by lia. rewrite decide_True by done.
  simpl (head _). rewrite bind_some.
  destruct (is_trail b2); simpl negb; cbv iota.
  2: { rewrite decide_False by (rewrite <-?Ht, <-?Ht2; by intros [? _]). done. }
  simpl (_ !! _). rewrite bind_some.
  destruct (is_trail b3); simpl negb; cbv iota.
  2: { rewrite decide_False by (rewrite <-Ht3; by intros (_ & ? & _)). done. }
  simpl (_ !! _). rewrite bind_some.
  destruct (is_trail b4); simpl negb; cbv iota.
  2: { rewrite decide_False by (rewrite <-Ht4; by intros (_ & _ & ? & _)). done. }
  pose proof (proj1 Ht2 eq_refl). pose proof (proj1 Ht3 eq_refl). pose proof (proj1 Ht4 eq_refl).
  u32s.
  replace (((b * 64 + b2) * 64 + b3) * 64 + b4 - (63447168 + 65536)) with (c - 65536) by lia.
  rewrite shiftr10, land1023.
  assert (0 <= c < 2097152) as Hr by lia. clear Hc.
  destruct (decide (65536 <= c)) as [Hlo|Hlo].
  - rewrite !(wrap_small 32 (c - 65536)) by (unfold in_word; lia).
    rewrite !(wrap_small 32) by (unfold in_word; Z.to_euclidean_division_equations; lia).
    rewrite (Z.add_comm ((c - 65536) / 1024)), (Z.add_comm ((c - 65536) mod 1024)).
    repeat case_decide; first [reflexivity | Z.to_euclidean_division_equations; lia].
  - rewrite decide_True, decide_False by word_lia. done.
Qed.

(** The base-64 digits of a value. *)
Lemma digits64 c :
  exists x2 x3 x4 m1 m2 m3,
    c / 64 mod 64 = m2 /\ c / 4096 mod 64 = m3 /\ c mod 64 = m1 /\
    c / 64 = x2 /\ c / 4096 = x3 /\ c / 262144 = x4 /\
    0 <= m1 < 64 /\ 0 <= m2 < 64 /\ 0 <= m3 < 64 /\
    c = x2 * 64 + m1 /\ x2 = x3 * 64 + m2 /\ x3 = x4 * 64 + m3.
Proof.
  do 6 eexists. do 6 (split; [reflexivity|]).
  split_and!; first [apply Z.mod_pos_bound; lia | Z.to_euclidean_division_equations; lia].
Qed.

(** Every encoding above ASCII is decoded to its scalar value, ... *)
Lemma decode_seq_complete c :
  scalar c -> 128 <= c ->
  exists b p, utf8_bytes c = b :: p /\ 128 <= b < 256 /\ bytes_ok p /\ (0 < length p <= 3)%nat /\
    zget utf_extrabytes (Z.shiftr b 3) = Some (Z.of_nat (length p)) /\
    forall q, decode_seq (Z.of_nat (length p)) b (p ++ q) = Some (seq_of c).
Proof.
  intros (Hc & Hs & H1 & H2) Hlo. unfold utf8_bytes, seq_of. rewrite decide_False by lia.
  destruct (digits64 c) as (x2 & x3 & x4 & m1 & m2 & m3 & -> & -> & -> & -> & -> & -> & ?).
  destruct (decide (c < 2048)); [|destruct (decide (c < 65536))].
  - eexists _, _. split; [reflexivity|]. split; [lia|]. split; [by repeat constructor; lia|].
    split; [simpl; lia|]. rewrite extrabytes_of by lia. split; [by rewrite decide_True by lia|].
    intros q. simpl. rewrite (decode_seq_1 _ _ _ c) by first [done|unfold in_word; lia|lia].
    by rewrite !decide_True by lia.
  - eexists _, _. split; [reflexivity|]. split; [lia|]. split; [by repeat constructor; lia|].
    split; [simpl; lia|]. rewrite extrabytes_of by lia.
    split; [by rewrite decide_False, decide_True by lia|].
    intros q. simpl. rewrite (decode_seq_2 _ _ _ _ c) by first [done|unfold in_word; lia|lia].
    by rewrite !decide_True by lia.
  - eexists _, _. split; [reflexivity|]. split; [lia|]. split; [by repeat constructor; lia|].
    split; [simpl; lia|]. rewrite extrabytes_of by lia.
    split; [by rewrite decide_False, decide_False, decide_True by lia|].
    intros q. simpl. rewrite (decode_seq_3 _ _ _ _ _ c) by first [done|unfold in_word; lia|lia].
    by rewrite decide_True by lia.
Qed.

(** ... and whatever else is read without a fault is rejected. *)
Lemma decode_seq_sound b p e :
  128 <= b < 256 -> bytes_ok p -> zget utf_extrabytes (Z.shiftr b 3) = Some e ->
  0 <= e <= Z.of_nat (length p) ->
  exists s, decode_seq e b p = Some s /\
    (s = SeqBad \/ exists c, scalar c /\ 128 <= c /\ b :: take (Z.to_nat e) p = utf8_bytes c /\ s = seq_of c).
Proof.
  intros Hb Hp He Hlen. rewrite extrabytes_of in He by done. injection He as <-.
  repeat case_decide; [| | |lia].
  - destruct p as [|b2 p]; [simpl in Hlen; lia|]. inv Hp.
    rewrite (decode_seq_1 _ _ _ _) by first [done|reflexivity].
    eexists. split; [done|]. case_decide; [right|by left].
    exists ((b - 192) * 64 + (b2 - 128)).
    split_and!; [..|by unfold seq_of; rewrite decide_True by lia]; [unfold scalar; lia|lia|].
    unfold utf8_bytes. rewrite decide_False, decide_True by lia. simpl. rewrite take_0.
    repeat f_equal; Z.to_euclidean_division_equations; lia.
  - destruct p as [|b2 [|b3 p]]; [simpl in Hlen; lia..|]. inv Hp. inv H4.
    rewrite (decode_seq_2 _ _ _ _ _) by first [done|reflexivity].
    eexists. split; [done|]. case_decide; [right|by left].
    exists ((b - 224) * 4096 + (b2 - 128) * 64 + (b3 - 128)).
    split_and!; [..|by unfold seq_of; rewrite decide_True by lia]; [unfold scalar; lia|lia|].
    unfold utf8_bytes. rewrite !decide_False, decide_True by lia. simpl. rewrite take_0.
    repeat f_equal; Z.to_euclidean_division_equations; lia.
  - destruct p as [|b2 [|b3 [|b4 p]]]; [simpl in Hlen; lia..|]. inv Hp. inv H5. inv H7.
    rewrite (decode_seq_3 _ _ _ _ _ _) by first [done|reflexivity].
    eexists. split; [done|]. case_decide; [right|by left].
    exists ((b - 240) * 262144 + (b2 - 128) * 4096 + (b3 - 128) * 64 + (b4 - 128)).
    split_and!; [..|by unfold seq_of; rewrite decide_False by lia]; [unfold scalar; lia|lia|].
    unfold utf8_bytes. rewrite !decide_False by lia. simpl. rewrite take_0.
    repeat f_equal; Z.to_euclidean_division_equations; lia.
Qed.

Lemma seq_of_good c : seq_of c <> SeqBad /\ seq_of c <> SeqDefault.
Proof. unfold seq_of. by case_decide. Qed.

(** Code units and their byte order. *)
Lemma OSSwapInt16_bytes c : in_word 16 c -> OSSwapInt16 c = (c mod 256) * 256 + c / 256.
Proof.
  intros Hc. unfold OSSwapInt16. rewrite Z.shiftl_mul_pow2, Z.shiftr_div_pow2 by lia.
  assert (0 <= c / 2 ^ 8 < 2 ^ 8) by word_lia.
  rewrite lor_high_low by lia. change (2 ^ 8) with 256 in *. word_lia.
Qed.

Lemma OSSwapInt16_involutive c : in_word 16 c -> OSSwapInt16 (OSSwapInt16 c) = c.
Proof.
  intros Hc. rewrite (OSSwapInt16_bytes c Hc).
  rewrite OSSwapInt16_bytes; word_lia.
Qed.

Lemma swap_if_involutive b c : in_word 16 c -> swap_if b (swap_if b c) = c.
Proof. destruct b; [apply OSSwapInt16_involutive|done]. Qed.

Lemma OSSwapInt16_range c : in_word 16 (OSSwapInt16 c).
Proof. apply wrap_range. lia. Qed.

Lemma utf16_units_ok c : 0 <= c <= 1114111 -> Forall (in_word 16) (utf16_units c).
Proof.
  intros Hc. unfold utf16_units, in_word. case_decide; repeat constructor; try lia;
    Z.to_euclidean_division_equations; lia.
Qed.

(** A rejected sequence is not an encoding. *)
Lemma decode_seq_bad b p e :
  zget utf_extrabytes (Z.shiftr b 3) = Some e -> decode_seq e b p = Some SeqBad ->
  ~ exists c, scalar c /\ 128 <= c /\ b :: take (Z.to_nat e) p = utf8_bytes c.
Proof.
  intros He Hs (c & Hc & Hlo & Hu).
  destruct (decode_seq_complete c Hc Hlo) as (b' & p' & Hu' & _ & _ & _ & He' & Hdec).
  rewrite <-Hu in Hu'. injection Hu' as <- <-. rewrite He in He'. injection He' as He'.
  specialize (Hdec (drop (Z.to_nat e) p)). rewrite take_drop, <-He', Hs in Hdec.
  destruct (seq_of_good c). congruence.
Qed.

(** ** Strings *)

Lemma utf8_string_cons c cs : utf8_string (c :: cs) = utf8_bytes c ++ utf8_string cs.
Proof. reflexivity. Qed.

Lemma utf8_string_app cs cs' : utf8_string (cs ++ cs') = utf8_string cs ++ utf8_string cs'.
Proof. unfold utf8_string. by rewrite map_app, concat_app. Qed.

Lemma utf8_bytes_ascii c : c < 128 -> utf8_bytes c = [c].
Proof. intros. unfold utf8_bytes. by rewrite decide_True. Qed.

Lemma utf8_bytes_nonzero c : scalar c -> Forall (fun b => b <> 0) (utf8_bytes c).
Proof.
  intros [Hc _]. unfold utf8_bytes. destruct (digits64 c) as (x2 & x3 & x4 & m1 & m2 & m3 & -> & -> & -> & -> & -> & -> & ?).
  repeat case_decide; repeat constructor; lia.
Qed.

(** The string that a C routine sees: up to the first NUL. *)
Fixpoint before_nul (l : list Z) : list Z :=
  match l with
  | [] => []
  | b :: l => if decide (b = 0) then [] else b :: before_nul l
  end.

(** A string of valid UTF-8. *)
Definition valid_utf8 (s : list Z) : Prop := exists cs, Forall scalar cs /\ s = utf8_string cs.

Lemma before_nul_app l1 l2 : Forall (fun b => b <> 0) l1 -> before_nul (l1 ++ l2) = l1 ++ before_nul l2.
Proof. induction 1 as [|b l1 Hb _ IH]; simpl; [done|]. by rewrite decide_False, IH by done. Qed.

Lemma before_nul_prefix l : exists r, l = before_nul l ++ r.
Proof.
  induction l as [|b l [r IH]]; simpl; [by exists []|].
  case_decide; [by eexists|]. exists r. simpl. by rewrite <-IH.
Qed.

Lemma valid_utf8_seq c s : scalar c -> valid_utf8 s -> valid_utf8 (utf8_bytes c ++ s).
Proof. intros Hc (cs & Hcs & ->). exists (c :: cs). by rewrite utf8_string_cons; auto. Qed.

Lemma utf8_bytes_nonempty c : exists b tl, utf8_bytes c = b :: tl.
Proof. unfold utf8_bytes. repeat case_decide; by eexists _, _. Qed.

Lemma utf8_string_nil cs : [] = utf8_string cs -> cs = [].
Proof.
  destruct cs as [|c cs]; [done|]. rewrite utf8_string_cons.
  by destruct (utf8_bytes_nonempty c) as (b & tl & ->).
Qed.

(** The encoding is injective. *)
Lemma utf8_bytes_inj c c' : scalar c -> scalar c' -> utf8_bytes c = utf8_bytes c' -> c = c'.
Proof.
  intros Hc Hc' Heq. destruct (decide (c < 128)) as [Hlt|Hlt], (decide (c' < 128)) as [Hlt'|Hlt'].
  - rewrite !utf8_bytes_ascii in Heq by done. congruence.
  - destruct (decode_seq_complete c') as (b & p & Hu & Hb & _); [done|lia|].
    rewrite utf8_bytes_ascii, Hu in Heq by done. injection Heq as -> _. lia.
  - destruct (decode_seq_complete c) as (b & p & Hu & Hb & _); [done|lia|].
    rewrite (utf8_bytes_ascii c'), Hu in Heq by done. injection Heq as -> _. lia.
  - destruct (decode_seq_complete c) as (b & p & Hu & _ & _ & _ & _ & Hd); [done|lia|].
    destruct (decode_seq_complete c') as (b' & p' & Hu' & _ & _ & _ & _ & Hd'); [done|lia|].
    rewrite Hu, Hu' in Heq. injection Heq as <- <-. specialize (Hd []). rewrite (Hd' []) in Hd.
    injection Hd as Hd. unfold seq_of in Hd. repeat case_decide; try congruence.
    injection Hd as H1 H2. Z.to_euclidean_division_equations. lia.
Qed.

(** The lead byte of an encoding determines its length. *)
Lemma utf8_bytes_length_lead c c' b tl tl' :
  scalar c -> scalar c' -> utf8_bytes c = b :: tl -> utf8_bytes c' = b :: tl' -> length tl = length tl'.
Proof.
  intros Hc Hc' Hu Hu'. destruct (decide (b < 128)) as [Hb|Hb].
  - assert (forall x t, scalar x -> utf8_bytes x = b :: t -> t = []) as Hnil.
    { intros x t Hx Hux. destruct (decide (x < 128)).
      - rewrite utf8_bytes_ascii in Hux by done. by injection Hux as _ <-.
      - destruct (decode_seq_complete x) as (b' & p & Hu2 & Hb' & _); [done|lia|].
        rewrite Hux in Hu2. injection Hu2 as <- _. lia. }
    by rewrite (Hnil c tl), (Hnil c' tl').
  - assert (forall x t, scalar x -> utf8_bytes x = b :: t ->
      zget utf_extrabytes (Z.shiftr b 3) = Some (Z.of_nat (length t))) as Hlen.
    { intros x t Hx Hux. destruct (decide (x < 128)).
      - rewrite utf8_bytes_ascii in Hux by done. injection Hux as -> _. lia.
      - destruct (decode_seq_complete x) as (b' & p & Hu2 & _ & _ & _ & Hl & _); [done|lia|].
        rewrite Hux in Hu2. by injection Hu2 as <- <-. }
    pose proof (Hlen c tl Hc Hu) as H1. rewrite (Hlen c' tl' Hc' Hu') in H1. injection H1. lia.
Qed.

(** No encoding is a prefix of another. *)
Lemma utf8_bytes_app_inj c c' s s' :
  scalar c -> scalar c' -> utf8_bytes c ++ s = utf8_bytes c' ++ s' -> c = c' /\ s = s'.
Proof.
  intros Hc Hc' Heq. destruct (utf8_bytes_nonempty c) as (b & tl & Hu).
  destruct (utf8_bytes_nonempty c') as (b' & tl' & Hu').
  assert (b = b') as <- by (rewrite Hu, Hu' in Heq; by injection Heq).
  pose proof (utf8_bytes_length_lead c c' b tl tl' Hc Hc' Hu Hu') as Hlen.
  apply app_inj_1 in Heq as [Hb Hs]; [|rewrite Hu, Hu'; simpl; lia].
  split; [by apply utf8_bytes_inj|done].
Qed.

Lemma utf8_string_uncons c s cs :
  scalar c -> Forall scalar cs -> utf8_bytes c ++ s = utf8_string cs ->
  exists cs', cs = c :: cs' /\ Forall scalar cs' /\ s = utf8_string cs'.
Proof.
  intros Hc Hcs Heq. destruct cs as [|c' cs].
  - by destruct (utf8_bytes_nonempty c) as (b & tl & Hu); rewrite Hu in Heq.
  - apply Forall_cons_1 in Hcs as [Hc' Hcs]. rewrite utf8_string_cons in Heq.
    apply utf8_bytes_app_inj in Heq as [-> ->]; [|done|done]. by exists cs.
Qed.

Lemma valid_utf8_cons c s : scalar c -> valid_utf8 (utf8_bytes c ++ s) <-> valid_utf8 s.
Proof.
  intros Hc. split; [|by apply valid_utf8_seq].
  intros (cs & Hcs & Heq). destruct (utf8_string_uncons c s cs Hc Hcs Heq) as (cs' & -> & Hcs' & ->).
  by exists cs'.
Qed.

(** A string of encodings that starts with a byte [b] above ASCII: that byte and
    the number of bytes it announces are the encoding of the first value. *)
Lemma utf8_string_lead b p m e cs :
  128 <= b < 256 -> zget utf_extrabytes (Z.shiftr b 3) = Some e ->
  Forall scalar cs -> b :: before_nul (take m p) = utf8_string cs ->
  exists c cs', cs = c :: cs' /\ scalar c /\ 128 <= c /\ 0 <= e <= Z.of_nat m /\
    b :: take (Z.to_nat e) p = utf8_bytes c /\
    before_nul (take (m - Z.to_nat e) (drop (Z.to_nat e) p)) = utf8_string cs'.
Proof.
  intros Hb He Hcs Hs. destruct cs as [|c cs]; [done|]. apply Forall_cons_1 in Hcs as [Hc Hcs].
  rewrite utf8_string_cons in Hs. destruct (decide (c < 128)).
  { rewrite utf8_bytes_ascii in Hs by done. injection Hs as -> _. lia. }
  destruct (decode_seq_complete c) as (b' & tl & Hu & _ & _ & _ & He' & _); [done|lia|].
  rewrite Hu in Hs. injection Hs as <- Hs. rewrite He in He'. injection He' as ->. rewrite Nat2Z.id.
  pose proof (utf8_bytes_nonzero c Hc) as Hnz. rewrite Hu in Hnz. apply Forall_cons_1 in Hnz as [_ Hnz].
  destruct (before_nul_prefix (take m p)) as [r Hr]. rewrite Hs, <-app_assoc in Hr.
  assert (length tl <= m)%nat as Hlen.
  { apply (f_equal length) in Hr. rewrite length_take, !length_app in Hr. lia. }
  assert (p = tl ++ (utf8_string cs ++ r) ++ drop m p) as Hp by (rewrite app_assoc, <-Hr; by rewrite take_drop).
  assert (take (length tl) p = tl) as Htl by (rewrite Hp; apply take_app_length).
  exists c, cs. split_and!; try done; [lia|lia|lia|by rewrite Htl, Hu|].
  rewrite <-(take_drop (length tl) (take m p)), take_take, Nat.min_l, Htl in Hs by done.
  rewrite before_nul_app in Hs by done. apply app_inv_head in Hs.
  rewrite take_drop_commute. by replace (length tl + (m - length tl))%nat with m by lia.
Qed.

(** A string that starts with a byte above ASCII is valid when that byte and the
    number of bytes it announces are an encoding, and the rest is valid. *)
Lemma valid_utf8_sequence b p m e :
  128 <= b < 256 -> zget utf_extrabytes (Z.shiftr b 3) = Some e ->
  valid_utf8 (b :: before_nul (take m p)) <->
  0 <= e <= Z.of_nat m /\
  (exists c, scalar c /\ 128 <= c /\ b :: take (Z.to_nat e) p = utf8_bytes c) /\
  valid_utf8 (before_nul (take (m - Z.to_nat e) (drop (Z.to_nat e) p))).
Proof.
  intros Hb He. split.
  - intros (cs & Hcs & Hs). destruct (utf8_string_lead b p m e cs Hb He Hcs Hs)
      as (c & cs' & -> & Hc & Hlo & Hem & Hu & Hs'). apply Forall_cons_1 in Hcs as [_ Hcs].
    split; [done|]. split; [by exists c|by exists cs'].
  - intros (Hem & (c & Hc & Hlo & Hu) & Hv).
    pose proof (utf8_bytes_nonzero c Hc) as Hnz. rewrite <-Hu in Hnz. apply Forall_cons_1 in Hnz as [_ Hnz].
    replace (take m p) with (take (Z.to_nat e) p ++ take (m - Z.to_nat e) (drop (Z.to_nat e) p)).
    2: { rewrite take_take_drop. f_equal. lia. }
    rewrite before_nul_app by done. rewrite app_comm_cons, Hu. by apply valid_utf8_seq.
Qed.

Lemma valid_utf8_ascii b s : 0 < b < 128 -> valid_utf8 (b :: s) <-> valid_utf8 s.
Proof.
  intros Hb. rewrite <-(valid_utf8_cons b s) by (unfold scalar; lia).
  by rewrite utf8_bytes_ascii by lia.
Qed.
