(* ===== verification/Utf8Valid.v ===== *)
(** * Validation of UTF-8

    [utf8_validatestr] accepts exactly the strings of encodings of scalar values. *)
From S2P Require Import Prelude UtfData Unicode Utf8 Utf8Spec.

Local Open Scope Z_scope.

Lemma low_surrogate x :
  bool_decide (u32 (Z.land x SP_HALF_MASK + SP_LOW_FIRST) < SP_LOW_FIRST \/
               SP_LOW_LAST < u32 (Z.land x SP_HALF_MASK + SP_LOW_FIRST)) = false.
Proof.
  rewrite land1023. pose proof (Z.mod_pos_bound x 1024 ltac:(lia)).
  rewrite wrap_small by (unfold in_word; lia).
  apply bool_decide_eq_false. lia.
Qed.

(** [utf8_validatestr] makes the checks of the decoder. *)
Lemma validate_seq_decode e b p :
  validate_seq e b p =
    match decode_seq e b p with
    | Some (SeqUnit _ | SeqPair _ _) => Some true
    | Some _ => Some false
    | None => None
    end.
Proof.
  unfold validate_seq, decode_seq. destruct (decide (e = 1)).
  { destruct (head p) as [b2|]; [rewrite !bind_some|done]. destruct (is_trail b2); [|done].
    change (negb true) with false. cbv iota zeta. generalize (u32 (u32 (u32 (Z.shiftl b 6) + b2) - 12416)). intros ch.
    case_decide; case_bool_decide; try done; lia. }
  destruct (decide (e = 2)).
  { destruct (head p) as [b2|]; [rewrite !bind_some|done]. destruct (is_trail b2); [|done].
    destruct (p !! 1%nat) as [b3|]; [rewrite !bind_some|done]. destruct (is_trail b3); [|done].
    change (negb true) with false. cbv iota zeta. generalize (u32 (Z.shiftl (u32 (u32 (Z.shiftl b 6) + b2)) 6)). intros x.
    generalize (u32 (u32 (x + b3) - 925824)). intros ch.
    case_decide; [done|]. case_bool_decide; case_decide; done. }
  destruct (decide (e = 3)); [|done].
  destruct (head p) as [b2|]; [rewrite !bind_some|done]. destruct (is_trail b2); [|done].
  destruct (p !! 1%nat) as [b3|]; [rewrite !bind_some|done]. destruct (is_trail b3); [|done].
  destruct (p !! 2%nat) as [b4|]; [rewrite !bind_some|done]. destruct (is_trail b4); [|done].
  change (negb true) with false. cbv iota zeta. rewrite low_surrogate.
  generalize (u32 (Z.shiftl (u32 (u32 (Z.shiftl b 6) + b2)) 6)). intros x.
  generalize (u32 (Z.shiftl (u32 (x + b3)) 6)). intros y.
  by case_decide.
Qed.

Definition validation (s : list Z) (r : option Z) : Prop :=
  (r = Some 0 /\ valid_utf8 s) \/ (r = Some EINVAL /\ ~ valid_utf8 s).

Lemma validation_iff s s' r : (valid_utf8 s <-> valid_utf8 s') -> validation s r -> validation s' r.
Proof. unfold validation. tauto. Qed.

Lemma validate_loop_spec fuel p n :
  bytes_ok p -> 0 <= n <= Z.of_nat (length p) -> (length p < fuel)%nat ->
  validation (before_nul (take (Z.to_nat n) p)) (validate_loop fuel p n).
Proof.
  revert p n. induction fuel as [|fuel IH]; intros p n Hp Hn Hfuel; [lia|]. simpl validate_loop.
  case_decide as Hn0. { replace n with 0 by lia. left. split; [done|]. by exists []. }
  destruct p as [|b p]; [simpl in Hn; lia|]. apply Forall_cons_1 in Hp as [Hb Hp]. simpl in Hn, Hfuel.
  replace (Z.to_nat n) with (S (Z.to_nat (n - 1))) by lia. simpl take. simpl before_nul.
  case_decide as Hz. { left. split; [done|]. by exists []. }
  rewrite byte_ok_range in Hb. case_decide as Ha.
  { eapply validation_iff; [symmetry; apply valid_utf8_ascii; lia|]. apply IH; [done|lia|lia]. }
  destruct (utf_extrabytes_total b) as [e He]; [lia|]. rewrite He, bind_some.
  pose proof (valid_utf8_sequence b p (Z.to_nat (n - 1)) e ltac:(lia) He) as Hv.
  case_decide as Hearly. { right. split; [done|]. rewrite Hv. lia. }
  destruct (decode_seq_sound b p e) as (s & Hs & Hcase); [lia|done|done|lia|].
  rewrite validate_seq_decode, Hs. destruct Hcase as [->|(c & Hc & Hlo & Hu & ->)].
  - right. split; [done|]. rewrite Hv. intros (_ & Hc & _). by apply (decode_seq_bad b p e).
  - assert (match seq_of c with SeqUnit _ | SeqPair _ _ => Some true | _ => Some false end = Some true) as ->
      by (unfold seq_of; by destruct (decide _)).
    rewrite bind_some. eapply (validation_iff (before_nul (take (Z.to_nat (n - 1 - e)) (drop (Z.to_nat e) p)))).
    2: { apply IH; [by apply Forall_drop|rewrite length_drop; lia|rewrite length_drop; lia]. }
    rewrite Hv. replace (Z.to_nat (n - 1) - Z.to_nat e)%nat with (Z.to_nat (n - 1 - e)) by lia.
    split; [|by intros (_ & _ & ?)]. intros Hr. split; [lia|]. split; [|done]. by exists c.
Qed.

(** C20. Validation is exact: [utf8_validatestr] reads only the bytes it is given,
    always returns, and returns 0 exactly when the bytes before the first NUL are
    a concatenation of shortest-form encodings of scalar values (no surrogate,
    neither U+FFFE nor U+FFFF, nothing above U+10FFFF), otherwise [EINVAL]. *)
Theorem utf8_validatestr_exact utf8 utf8len :
  bytes_ok utf8 -> 0 <= utf8len <= Z.of_nat (length utf8) ->
  exists r, utf8_validatestr utf8 utf8len = Some r /\ (r = 0 \/ r = EINVAL) /\
    (r = 0 <-> exists cs, Forall scalar cs /\
                 before_nul (take (Z.to_nat utf8len) utf8) = utf8_string cs).
Proof.
  intros Hb Hn. destruct (validate_loop_spec (S (length utf8)) utf8 utf8len) as [[Hr Hv]|[Hr Hv]];
    [done|done|lia|..]; unfold utf8_validatestr; rewrite Hr; eexists; (split; [done|]).
  - split; [by left|]. by split.
  - split; [by right|]. split; [done|]. intros Hv'. by destruct Hv.
Qed.

(** The euro sign is valid, an overlong slash is not. *)
Lemma utf8_validatestr_exact_witness :
  utf8_validatestr [226; 130; 172; 0; 255] 5 = Some 0 /\
  (exists cs, Forall scalar cs /\ before_nul [226; 130; 172; 0; 255] = utf8_string cs) /\
  utf8_validatestr [192; 175] 2 = Some EINVAL.
Proof.
  destruct (utf8_validatestr_exact [226; 130; 172; 0; 255] 5) as (r & Hr & _ & Hv);
    [by repeat constructor|simpl; lia|].
  assert (utf8_validatestr [226; 130; 172; 0; 255] 5 = Some 0) as H0 by (vm_compute; reflexivity).
  rewrite H0 in Hr. injection Hr as <-. split; [done|]. split; [|vm_compute; reflexivity].
  by apply Hv.
Defined.
