(* ===== verification/Utf8Encode.v ===== *)
(** * Encoding to UTF-8

    What [utf8_encodestr] stores for a name of scalar values in UTF-16, for every
    buffer, and that [utf8_encodelen] is its length. *)
From S2P Require Import Prelude UtfData Unicode Utf8 Utf8Spec.

Local Open Scope Z_scope.

Lemma lor_lead k hi a : 0 <= k -> 0 <= a < 2 ^ k -> 0 <= hi -> hi * 2 ^ k + a < 256 ->
  u8 (Z.lor (hi * 2 ^ k) a) = hi * 2 ^ k + a.
Proof.
  intros Hk Ha Hhi Hlt. rewrite lor_high_low by done. apply wrap_small. unfold in_word.
  change (2 ^ 8) with 256. nia.
Qed.

Lemma trail_byte x : u8 (Z.lor 128 (Z.land 63 x)) = 128 + x mod 64.
Proof.
  rewrite Z.land_comm. change 63 with (Z.ones 6). rewrite Z.land_ones by lia. change (2 ^ 6) with 64.
  pose proof (Z.mod_pos_bound x 64 ltac:(lia)). apply (lor_lead 6 2); lia.
Qed.

Lemma shiftr_6 x : Z.shiftr x 6 = x / 64.
Proof. by rewrite Z.shiftr_div_pow2. Qed.
Lemma shiftr_12 x : Z.shiftr x 12 = x / 4096.
Proof. by rewrite Z.shiftr_div_pow2. Qed.
Lemma shiftr_18 x : Z.shiftr x 18 = x / 262144.
Proof. by rewrite Z.shiftr_div_pow2. Qed.

Lemma utf8_2_bytes c : 128 <= c < 2048 -> utf8_2 c = utf8_bytes c.
Proof.
  intros Hc. unfold utf8_2, utf8_bytes. rewrite decide_False, decide_True by lia.
  rewrite trail_byte, shiftr_6. assert (2 <= c / 64 < 32) by (Z.to_euclidean_division_equations; lia).
  rewrite (wrap_small 8 (c / 64)) by (unfold in_word; lia). by rewrite (lor_lead 5 6) by lia.
Qed.

Lemma utf8_3_bytes c : 2048 <= c < 65536 -> utf8_3 c = utf8_bytes c.
Proof.
  intros Hc. unfold utf8_3, utf8_bytes. rewrite !decide_False, decide_True by lia.
  rewrite !trail_byte, shiftr_6, shiftr_12.
  assert (0 <= c / 4096 < 16) by (Z.to_euclidean_division_equations; lia).
  by rewrite (lor_lead 4 14) by lia.
Qed.

Lemma utf8_4_bytes c : 65536 <= c <= 1114111 -> utf8_4 c = utf8_bytes c.
Proof.
  intros Hc. unfold utf8_4, utf8_bytes. rewrite !decide_False by lia.
  rewrite !trail_byte, shiftr_6, shiftr_12, shiftr_18.
  assert (0 <= c / 262144 < 8) by (Z.to_euclidean_division_equations; lia).
  rewrite (wrap_small 8 (c / 262144)) by (unfold in_word; lia). by rewrite (lor_lead 3 30) by lia.
Qed.

(** What a routine of a file system may have as the replacement of the slash:
    none, or a character of one code unit. *)
Definition altslash_ok (altslash : Z) : Prop :=
  altslash = 0 \/ (scalar altslash /\ altslash < 65536).

(** A character of a name: NUL or a scalar value. *)
Definition name_char (c : Z) : Prop := c = 0 \/ scalar c.

(** The character that stands for it in UTF-8. *)
Definition replaced (altslash c : Z) : Z :=
  if decide (c = 47) then if decide (altslash = 0) then 95 else altslash
  else if decide (c = 0) then UCS_ALT_NULL else c.

(** A slash without a replacement is an error. *)
Definition refusal (altslash : Z) (cs : list Z) (result : Z) : Z :=
  if decide (altslash = 0 /\ 47 ∈ cs) then EINVAL else result.

Lemma refusal_cons altslash c cs result :
  refusal altslash cs (refusal altslash [c] result) = refusal altslash (c :: cs) result.
Proof. unfold refusal. repeat case_decide; set_solver. Qed.

Lemma replaced_scalar altslash c :
  altslash_ok altslash -> name_char c -> scalar (replaced altslash c).
Proof.
  unfold altslash_ok, name_char, replaced, UCS_ALT_NULL. intros Ha Hc.
  repeat case_decide; unfold scalar in *; lia.
Qed.

Lemma replaced_other altslash c : c <> 0 -> c <> 47 -> replaced altslash c = c.
Proof. intros. unfold replaced. by rewrite decide_False, decide_False by done. Qed.

Lemma replaced_unit altslash c :
  altslash_ok altslash -> c < 65536 -> replaced altslash c < 65536.
Proof. unfold altslash_ok, replaced, UCS_ALT_NULL. intros. repeat case_decide; lia. Qed.

(** ** One character *)

Section encode_one.
Context (sw : bool) (altslash buflen bufend : Z).
Hypothesis Hend : bufend <= buflen.

(** The encoder on a code unit that is not a surrogate. *)
Lemma encode_char_unit v input out :
  scalar v -> v < 65536 ->
  encode_char sw false bufend v [] input out = Some (fits bufend out (utf8_bytes v) input).
Proof.
  intros (Hv & Hs & H1 & H2) Hlt. unfold encode_char.
  case_decide. { by rewrite utf8_bytes_ascii, wrap_small by (unfold in_word; lia). }
  case_decide. { by rewrite utf8_2_bytes by lia. }
  rewrite decide_False by lia. rewrite decide_False by (intros (? & ? & _); lia).
  by rewrite utf8_3_bytes by lia.
Qed.

(** The encoder on a surrogate pair. *)
Lemma encode_char_pair c input out :
  65536 <= c <= 1114111 ->
  encode_char sw false bufend (55296 + (c - 65536) / 1024) []
      (swap_if sw (56320 + (c - 65536) mod 1024) :: input) out =
    Some (fits bufend out (utf8_bytes c) input).
Proof.
  intros Hc. set (x := c - 65536). assert (0 <= x < 1048576) as Hx by lia.
  assert (0 <= x / 1024 < 1024) as Hd by (Z.to_euclidean_division_equations; lia).
  assert (0 <= x mod 1024 < 1024) as Hm by (apply Z.mod_pos_bound; lia).
  unfold encode_char.
  rewrite !decide_False by lia. rewrite decide_True by (split; [lia|]; split; [lia|by right]).
  rewrite bind_some, swap_if_involutive by (unfold in_word; lia).
  rewrite decide_True by lia. simpl tail.
  replace (Z.shiftl (55296 + x / 1024 - 55296) 10 + (56320 + x mod 1024 - 56320) + 65536) with c.
  2: { rewrite Z.shiftl_mul_pow2 by lia. change (2 ^ 10) with 1024. unfold x in *.
       Z.to_euclidean_division_equations. lia. }
  by rewrite wrap_small, utf8_4_bytes by (unfold in_word; lia).
Qed.

Lemma encode_replace_name c result :
  encode_replace altslash c result = (replaced altslash c, refusal altslash [c] result).
Proof.
  unfold encode_replace, replaced, refusal.
  destruct (decide (c = 47)) as [->|Hc]; destruct (decide (altslash = 0)) as [H0|H0].
  - rewrite decide_False by tauto. by rewrite decide_True by (split; [done|left]).
  - rewrite decide_True by done. by rewrite decide_False by tauto.
  - rewrite (decide_False (P := altslash = 0 /\ _)) by (intros [_ ?%list_elem_of_singleton]; done). by case_decide.
  - rewrite (decide_False (P := altslash = 0 /\ _)) by tauto. by case_decide.
Qed.

(** A turn of the loop that does not decompose. *)
Lemma encode_loop_S fuel c input out result :
  encode_loop sw false false altslash buflen bufend (S fuel) [] (c :: input) out result =
    (let '(ucs_ch, result) := encode_replace altslash (swap_if sw c) result in
     e ← encode_char sw false bufend ucs_ch [] input out;
     match e with
     | EncStop code => Some (code, out)
     | EncBytes bytes input => out ← emit buflen out bytes;
         encode_loop sw false false altslash buflen bufend fuel [] input out result
     end).
Proof. reflexivity. Qed.

(** One character of a name: it is stored, or the buffer is full. *)
Lemma encode_loop_char fuel c input out result :
  altslash_ok altslash -> name_char c ->
  encode_loop sw false false altslash buflen bufend (S fuel) []
      (map (swap_if sw) (utf16_units c) ++ input) out result =
    if decide (bufend < Z.of_nat (length out + length (utf8_bytes (replaced altslash c))))
    then Some (ENAMETOOLONG, out)
    else encode_loop sw false false altslash buflen bufend fuel [] input
           (out ++ utf8_bytes (replaced altslash c)) (refusal altslash [c] result).
Proof.
  intros Ha Hc. pose proof (replaced_scalar _ _ Ha Hc) as Hr.
  assert (forall e, (match fits bufend out (utf8_bytes (replaced altslash c)) input with
    | EncStop code => Some (code, out)
    | EncBytes bytes input => out ← emit buflen out bytes; e input out
    end) = if decide (bufend < Z.of_nat (length out + length (utf8_bytes (replaced altslash c))))
    then Some (ENAMETOOLONG, out) else e input (out ++ utf8_bytes (replaced altslash c))) as Hfit.
  { intros e. unfold fits, emit.
    destruct (decide (bufend < Z.of_nat (length out + length (utf8_bytes (replaced altslash c))))).
    - by rewrite decide_True by lia.
    - rewrite decide_False by lia. by rewrite decide_True by lia. }
  unfold utf16_units. destruct (decide (c < 65536)) as [Hlt|Hlt]; cbn [map app]; rewrite encode_loop_S.
  - rewrite swap_if_involutive by (destruct Hc as [->|[? _]]; unfold in_word; lia).
    rewrite encode_replace_name. rewrite encode_char_unit by (done || by apply replaced_unit).
    rewrite bind_some. apply (Hfit (fun input out => encode_loop _ _ _ _ _ _ fuel [] input out _)).
  - assert (replaced altslash c = c) as Hrc by (apply replaced_other; lia).
    destruct Hc as [->|Hsc]; [lia|]. pose proof Hsc as [Hc _].
    assert (0 <= (c - 65536) / 1024 < 1024) by (Z.to_euclidean_division_equations; lia).
    rewrite swap_if_involutive by (unfold in_word; lia).
    unfold encode_replace. rewrite !decide_False by lia. rewrite encode_char_pair by lia.
    rewrite bind_some. rewrite Hrc in *.
    assert (refusal altslash [c] result = result) as ->
      by (unfold refusal; apply decide_False; intros [_ ?%list_elem_of_singleton]; lia).
    apply (Hfit (fun input out => encode_loop _ _ _ _ _ _ fuel [] input out result)).
Qed.
End encode_one.

Lemma utf16_string_cons c cs : utf16_string (c :: cs) = utf16_units c ++ utf16_string cs.
Proof. reflexivity. Qed.

(** The names that were stored before the buffer was full. *)
Definition stored_prefix (altslash bufend : Z) (out : list Z) (cs cs1 cs2 : list Z) : Prop :=
  cs = cs1 ++ cs2 /\
  Z.of_nat (length (out ++ utf8_string (map (replaced altslash) cs1))) <= bufend /\
  (forall c cs3, cs2 = c :: cs3 ->
     bufend < Z.of_nat (length (out ++ utf8_string (map (replaced altslash) (cs1 ++ [c]))))).

Lemma encode_loop_names sw altslash buflen bufend fuel cs out result :
  bufend <= buflen -> altslash_ok altslash -> Forall name_char cs ->
  (length cs < fuel)%nat -> Z.of_nat (length out) <= bufend ->
  exists cs1 cs2, stored_prefix altslash bufend out cs cs1 cs2 /\
    encode_loop sw false false altslash buflen bufend fuel []
        (map (swap_if sw) (utf16_string cs)) out result =
      Some (match cs2 with [] => refusal altslash cs result | _ => ENAMETOOLONG end,
            out ++ utf8_string (map (replaced altslash) cs1)).
Proof.
  intros Hend Ha Hcs. revert fuel out result. induction Hcs as [|c cs Hc Hcs IH]; intros fuel out result Hf Hout.
  { exists [], []. destruct fuel; [lia|]. simpl. rewrite app_nil_r. split.
    - split_and!; [done|by rewrite app_nil_r|done].
    - unfold refusal. rewrite decide_False; [done|]. intros [_ []%not_elem_of_nil]. }
  destruct fuel as [|fuel]; [lia|]. rewrite utf16_string_cons, map_app, encode_loop_char by done.
  case_decide as Hfit.
  - exists [], (c :: cs). simpl. rewrite app_nil_r. split; [|done].
    split_and!; [done|by rewrite app_nil_r|]. intros c' cs3 [= <- <-].
    unfold utf8_string. simpl. rewrite app_nil_r, length_app. done.
  - destruct (IH fuel (out ++ utf8_bytes (replaced altslash c)) (refusal altslash [c] result)) as (cs1 & cs2 & (-> & Hlen & Hfull) & Hrun);
      [simpl in Hf; lia|rewrite length_app; lia|].
    exists (c :: cs1), cs2. rewrite Hrun, refusal_cons. simpl map. rewrite utf8_string_cons.
    unfold stored_prefix. simpl map. simpl app. setoid_rewrite utf8_string_cons.
    rewrite <-!app_assoc in *. split_and!; [done|done| |done].
    intros c' cs3 Hcs2. specialize (Hfull _ _ Hcs2). by rewrite <-app_assoc in Hfull.
Qed.

Lemma utf16_string_length cs : (length cs <= length (utf16_string cs))%nat.
Proof.
  induction cs as [|c cs IH]; [done|]. rewrite utf16_string_cons, length_app.
  unfold utf16_units. case_decide; simpl; lia.
Qed.

(** The length that the macro computes: that of the encoding, or half of it for
    a surrogate. *)
Lemma utf8_len_scalar v :
  scalar v -> v < 65536 -> UNICODE_TO_UTF8_LEN v = Z.of_nat (length (utf8_bytes v)).
Proof.
  intros (Hv & Hs & _) Hlt. unfold UNICODE_TO_UTF8_LEN, utf8_bytes.
  destruct (decide (v < 128)); [done|]. destruct (decide (v < 2048)); [done|].
  rewrite (decide_True (P := v < 65536)) by lia.
  assert (Z.land v 63488 = v / 2048 * 2048) as ->
    by (apply (land_high 16 11); [lia|unfold in_word; lia]).
  rewrite decide_False by (Z.to_euclidean_division_equations; lia). done.
Qed.

Lemma utf8_len_surrogate v : 55296 <= v <= 57343 -> UNICODE_TO_UTF8_LEN v = 2.
Proof.
  intros Hv. unfold UNICODE_TO_UTF8_LEN. rewrite !decide_False by lia.
  assert (Z.land v 63488 = v / 2048 * 2048) as ->
    by (apply (land_high 16 11); [lia|unfold in_word; lia]).
  by rewrite decide_True by (Z.to_euclidean_division_equations; lia).
Qed.

Lemma encodelen_loop_unit sw altslash fuel c input len :
  in_word 16 c ->
  encodelen_loop (S fuel) sw false altslash [] (swap_if sw c :: input) len =
    encodelen_loop fuel sw false altslash [] input (len + UNICODE_TO_UTF8_LEN (replaced altslash c)).
Proof.
  intros Hc. cbn [encodelen_loop]. unfold encodelen_next, next_char.
  rewrite swap_if_involutive by done. unfold replaced.
  case_decide; [|by case_decide]. destruct (decide (altslash = 0)); [by rewrite decide_False by tauto|].
  by rewrite decide_True.
Qed.

Lemma encodelen_loop_names sw altslash fuel cs len :
  altslash_ok altslash -> Forall name_char cs -> (length (utf16_string cs) < fuel)%nat ->
  encodelen_loop fuel sw false altslash [] (map (swap_if sw) (utf16_string cs)) len =
    Some (len + Z.of_nat (length (utf8_string (map (replaced altslash) cs)))).
Proof.
  intros Ha Hcs. revert fuel len. induction Hcs as [|c cs Hc Hcs IH]; intros fuel len Hf.
  { destruct fuel; [lia|]. simpl. f_equal. lia. }
  rewrite utf16_string_cons, length_app in Hf. rewrite utf16_string_cons, map_app.
  simpl (map (replaced altslash) _). rewrite utf8_string_cons, length_app.
  pose proof (replaced_scalar _ _ Ha Hc) as Hr.
  unfold utf16_units in *.
  destruct (decide (c < 65536)) as [Hlt|Hlt]; cbn [map app length] in *.
  - destruct fuel as [|fuel]; [lia|].
    rewrite encodelen_loop_unit by (unfold name_char, scalar, in_word in *; lia).
    rewrite IH by lia. rewrite utf8_len_scalar; [f_equal; lia|done|by apply replaced_unit].
  - destruct fuel as [|[|fuel]]; [lia..|]. unfold name_char, scalar in Hc.
    assert (0 <= (c - 65536) / 1024 < 1024) by (Z.to_euclidean_division_equations; lia).
    pose proof (Z.mod_pos_bound (c - 65536) 1024 ltac:(lia)).
    rewrite !encodelen_loop_unit by (unfold in_word; lia).
    rewrite IH by lia. f_equal. rewrite !replaced_other by lia.
    rewrite !utf8_len_surrogate by lia. unfold utf8_bytes. rewrite !decide_False by lia. simpl. lia.
Qed.

(** The whole encoder on a name, for every buffer. *)
Lemma encodestr_names cs buflen altslash flags :
  has_flag flags UTF_DECOMPOSED = false -> has_flag flags UTF_SFM_CONVERSIONS = false ->
  altslash_ok altslash -> Forall name_char cs ->
  0 <= buflen -> (has_flag flags UTF_NO_NULL_TERM = false -> 0 < buflen) ->
  exists cs1 cs2,
    stored_prefix altslash (if has_flag flags UTF_NO_NULL_TERM then buflen else buflen - 1) [] cs cs1 cs2 /\
    utf8_encodestr (map (swap_if (has_flag flags UTF_REVERSE_ENDIAN)) (utf16_string cs)) buflen altslash flags =
      Some (match cs2 with [] => refusal altslash cs 0 | _ => ENAMETOOLONG end,
            utf8_string (map (replaced altslash) cs1)).
Proof.
  intros Hd Hs Ha Hcs Hb Hnt. pose proof (utf16_string_length cs) as Hl.
  set (room := if has_flag flags UTF_NO_NULL_TERM then buflen else buflen - 1).
  unfold utf8_encodestr. rewrite Hd, Hs.
  replace (if negb (has_flag flags UTF_NO_NULL_TERM) then buflen - 1 else buflen) with room
    by (unfold room; by destruct (has_flag flags UTF_NO_NULL_TERM)).
  assert (0 <= room <= buflen) as Hroom.
  { unfold room. destruct (has_flag flags UTF_NO_NULL_TERM); [lia|]. specialize (Hnt eq_refl). lia. }
  rewrite length_map.
  destruct (encode_loop_names (has_flag flags UTF_REVERSE_ENDIAN) altslash buflen room
    (S (4 * length (utf16_string cs))) cs [] 0) as (cs1 & cs2 & Hst & Hrun); [lia|done|done|lia|simpl; lia|].
  exists cs1, cs2. split; [done|]. rewrite Hrun, bind_some. destruct Hst as (_ & Hlen & _).
  simpl app in Hlen |- *. unfold room in Hlen.
  destruct (has_flag flags UTF_NO_NULL_TERM); simpl negb; cbv iota; [done|].
  unfold emit. rewrite decide_True by (simpl length; lia). done.
Qed.

(** C39. Encoding a name without decomposing it (no UTF_DECOMPOSED) and without
    the conversions of UTF_SFM_CONVERSIONS: for a UTF-16 string, of either byte
    order, of NULs and Unicode scalar values other than U+FFFE and U+FFFF, and any
    buffer with room for the terminating NUL, [utf8_encodestr] stores the encodings
    of the longest prefix of whole characters that fits, with NUL replaced by U+2400
    and the slash by [altslash] (none, or a scalar value of one code unit), or by an
    underscore if [altslash] is 0.  It returns [ENAMETOOLONG] if something is left,
    otherwise [EINVAL] if there was a slash and [altslash] is 0, otherwise 0.
    [utf8_encodelen] is the length of the whole encoding. *)
Theorem utf8_encodestr_names cs buflen altslash flags :
  has_flag flags UTF_DECOMPOSED = false -> has_flag flags UTF_SFM_CONVERSIONS = false ->
  altslash_ok altslash -> Forall name_char cs ->
  0 <= buflen -> (has_flag flags UTF_NO_NULL_TERM = false -> 0 < buflen) ->
  let ucs := map (swap_if (has_flag flags UTF_REVERSE_ENDIAN)) (utf16_string cs) in
  let room := if has_flag flags UTF_NO_NULL_TERM then buflen else buflen - 1 in
  utf8_encodelen ucs altslash flags =
    Some (Z.of_nat (length (utf8_string (map (replaced altslash) cs)))) /\
  exists cs1 cs2, cs = cs1 ++ cs2 /\
    utf8_encodestr ucs buflen altslash flags =
      Some (match cs2 with
            | [] => if decide (altslash = 0 /\ 47 ∈ cs) then EINVAL else 0
            | _ => ENAMETOOLONG
            end, utf8_string (map (replaced altslash) cs1)) /\
    Z.of_nat (length (utf8_string (map (replaced altslash) cs1))) <= room /\
    (forall c cs3, cs2 = c :: cs3 ->
       room < Z.of_nat (length (utf8_string (map (replaced altslash) (cs1 ++ [c]))))).
Proof.
  intros Hd Hs Ha Hcs Hb Hnt ucs room. split.
  { unfold utf8_encodelen, ucs. rewrite Hd, encodelen_loop_names; [done|done|done|]. rewrite length_map. lia. }
  destruct (encodestr_names cs buflen altslash flags) as (cs1 & cs2 & (Hcs12 & Hlen & Hfull) & Hrun); try done.
  by exists cs1, cs2.
Qed.

(** A name with a slash, a euro sign and a character outside the first plane, in
    a buffer that has no room for the last one; and a slash without replacement. *)
Lemma utf8_encodestr_names_witness :
  (exists cs1 cs2, [47; 8364; 128512] = cs1 ++ cs2 /\
    utf8_encodestr [47; 8364; 55357; 56832] 8 58 0 =
      Some (match cs2 with
            | [] => if decide (58 = 0 /\ 47 ∈ [47; 8364; 128512]) then EINVAL else 0
            | _ => ENAMETOOLONG
            end, utf8_string (map (replaced 58) cs1))) /\
  utf8_encodestr [47; 8364; 55357; 56832] 8 58 0 = Some (ENAMETOOLONG, [58; 226; 130; 172]) /\
  utf8_encodelen [97; 47] 0 0 = Some 2 /\ utf8_encodestr [97; 47] 8 0 0 = Some (EINVAL, [97; 95]).
Proof.
  split.
  - destruct (utf8_encodestr_names [47; 8364; 128512] 8 58 0) as [_ (cs1 & cs2 & Hcs & Hrun & _)];
      [done|done|right; unfold scalar; lia| |lia|lia|].
    { repeat constructor; unfold name_char, scalar; lia. }
    exists cs1, cs2. split; [exact Hcs|exact Hrun].
  - split; [vm_compute; reflexivity|]. destruct (utf8_encodestr_names [97; 47] 8 0 0) as [Hlen _]; [done|done|by left| |lia|lia|].
    { repeat constructor; unfold name_char, scalar; lia. }
    split; [exact Hlen|vm_compute; reflexivity].
Defined.

(** On a surrogate without its other half the two routines do not agree. *)
Lemma utf8_encodelen_lone_surrogate :
  utf8_encodelen [55296] 0 0 = Some 2 /\
  utf8_encodestr [55296] 4 0 0 = Some (0, [237; 160; 128]).
Proof. split; vm_compute; reflexivity. Qed.
