(* ===== verification/Utf8Decode.v ===== *)
(** * Decoding of UTF-8

    The state of [utf8_decodestr] is what has been stored and the length of the
    run of combining characters at its end.  The invariant relates it to the
    characters that were decoded, in their order: what is before the run is a
    canonical reordering of what was decoded before the run. *)
From stdpp Require Import relations.
From S2P Require Import Prelude UtfData Unicode Utf8 Utf8Spec.

Local Open Scope Z_scope.

(** ** Reordering, continued *)

Lemma reorder_app_l k l l' : rtc reorder l l' -> rtc reorder (k ++ l) (k ++ l').
Proof. intros H. induction k as [|a k IH]; [done|]. by apply rtc_reorder_cons. Qed.

Lemma reorder_app_r k l l' : rtc reorder l l' -> rtc reorder (l ++ k) (l' ++ k).
Proof.
  induction 1 as [|l1 l2 l3 [p a b s Hlt Hne] _ IH]; [done|]. eapply rtc_l; [|exact IH].
  rewrite <-!app_assoc. by constructor.
Qed.

Lemma reorder_app l1 l1' l2 l2' :
  rtc reorder l1 l1' -> rtc reorder l2 l2' -> rtc reorder (l1 ++ l2) (l1' ++ l2').
Proof. intros H1 H2. etrans; [by apply reorder_app_r|by apply reorder_app_l]. Qed.

Lemma reorder_Forall (P : Z -> Prop) l l' : rtc reorder l l' -> Forall P l -> Forall P l'.
Proof. intros H Hl. by rewrite <-(reorder_perm _ _ H). Qed.

Lemma canonical_ordered l : canonical l -> ordered l.
Proof.
  induction l as [|a [|b l] IH]; intros Hc; [done|done|]. split.
  - intros [Hlt Hne]. apply (Hc (b :: a :: l)). by apply (reorder_swap []).
  - apply IH. intros l' Hr. by apply (Hc (a :: l')), reorder_cons.
Qed.

(** Between two parts of which the first ends with a character of class 0, or the
    second starts with one, there is nothing to exchange. *)
Definition starter_end (l : list Z) : Prop := forall a, last l = Some a -> ccc a = 0.

Lemma ordered_app l1 l2 :
  (forall c, in_word 16 c -> 0 <= ccc c) -> Forall (in_word 16) l2 ->
  ordered l1 -> ordered l2 ->
  starter_end l1 \/ (forall b, head l2 = Some b -> ccc b = 0) -> ordered (l1 ++ l2).
Proof.
  intros Hpos Hw H1 H2 Hj. induction l1 as [|a l1 IH]; [done|]. destruct l1 as [|b l1].
  - destruct l2 as [|b l2]; [done|]. split; [|done]. intros [Hlt Hne]. apply Forall_cons_1 in Hw as [Hb _].
    specialize (Hpos b Hb). destruct Hj as [Hj|Hj].
    + specialize (Hj a eq_refl). lia.
    + specialize (Hj b eq_refl). done.
  - destruct H1 as [Hab H1]. split; [done|]. apply IH; [done|].
    destruct Hj as [Hj|Hj]; [left|by right]. intros x Hx. by apply Hj.
Qed.

(** ** The invariant *)

(** A character whose combining class and the test for combining characters agree. *)
Definition regular (c : Z) : Prop := ccc c <> 0 -> unicode_combinable c = Some true.

(** [l] is what remains of [units] after canonical ordering. *)
Definition reordered (units l : list Z) : Prop :=
  rtc reorder units l /\ (Forall regular units -> ordered l).

Definition dec_inv (units : list Z) (d : decoder) : Prop :=
  Forall (in_word 16) units /\
  exists done pre run,
    units = done ++ run /\ ucs d = pre ++ run /\ combcharcnt d = Z.of_nat (length run) /\
    Forall (fun c => unicode_combinable c = Some true) run /\
    reordered done pre /\ (Forall regular units -> starter_end pre).

Lemma ccc_nonneg c : in_word 16 c -> 0 <= ccc c.
Proof. intros Hc. destruct (ccc_class c Hc). lia. Qed.

Lemma dec_inv_length units d : dec_inv units d -> length (ucs d) = length units.
Proof.
  intros (_ & dn & pre & run & -> & Hu & _ & _ & [Hr _] & _). rewrite Hu, !length_app.
  by rewrite (prioritysort_length _ _ Hr).
Qed.

Lemma dec_inv_init : dec_inv [] (Decoder [] 0).
Proof. split; [done|]. exists [], [], []. split_and!; try done. Qed.

(** Sorting the run makes everything canonical. *)
Lemma sort_run_inv units d :
  dec_inv units d ->
  exists l, sort_run d = Some l /\ reordered units l.
Proof.
  intros (Hw & dn & pre & run & -> & Hu & Hcnt & Hrun & [Hr Hord] & Hstart).
  apply Forall_app in Hw as [Hwd Hwr].
  assert (exists run', reordered run run' /\ sort_run d = Some (pre ++ run')) as (run' & [Hr' Hord'] & Hs).
  { unfold sort_run. rewrite Hcnt, Hu, length_app. case_decide as H1.
    - rewrite decide_True by lia. rewrite Nat2Z.id.
      replace (length pre + length run - length run)%nat with (length pre) by lia.
      rewrite drop_app_length, take_app_length.
      destruct (prioritysort_ok run) as (run' & Hrun' & Hro & Hcan); [intros ->; simpl in H1; lia|done|].
      exists run'. rewrite Hrun'. split; [|done]. split; [done|]. intros _. by apply canonical_ordered.
    - exists run. split; [|done]. split; [done|]. intros _.
      destruct run as [|a [|b run]]; [done|done|simpl in H1; lia]. }
  exists (pre ++ run'). split; [done|]. split; [by apply reorder_app|].
  intros Hreg. apply ordered_app.
  - apply ccc_nonneg.
  - by apply (reorder_Forall _ _ _ Hr').
  - apply Hord. by apply Forall_app in Hreg as [? _].
  - apply Hord'. by apply Forall_app in Hreg as [_ ?].
  - left. by apply Hstart.
Qed.

(** A character that is stored after the run has been sorted. *)
Lemma dec_inv_sorted units l c :
  Forall (in_word 16) units -> in_word 16 c -> reordered units l -> unicode_combinable c = Some false ->
  dec_inv (units ++ [c]) (Decoder (l ++ [c]) 0).
Proof.
  intros Hw Hc [Hr Hord] Hcomb. split; [apply Forall_app; by rewrite Forall_singleton|].
  exists (units ++ [c]), (l ++ [c]), []. rewrite !app_nil_r.
  assert (regular c -> ccc c = 0) as Hz.
  { intros Hreg. destruct (decide (ccc c = 0)); [done|]. specialize (Hreg n). congruence. }
  split_and!; try done.
  - split; [by apply reorder_app_r|]. intros Hreg. apply Forall_app in Hreg as [Hreg Hregc].
    apply ordered_app; try done; [apply ccc_nonneg|by apply Forall_singleton|by apply Hord|].
    right. intros b [= <-]. apply Hz. by rewrite Forall_singleton in Hregc.
  - intros Hreg. apply Forall_app in Hreg as [_ Hregc]. intros a. rewrite last_snoc. intros [= <-].
    apply Hz. by rewrite Forall_singleton in Hregc.
Qed.

(** ** The operations on the state *)

Section operations.
Context (buflen : Z).

(** Room for [k] more characters. *)
Definition room (d : decoder) (k : Z) : Prop := 2 * (Z.of_nat (length (ucs d)) + k) <= buflen.

Lemma store_room c d : room d 1 -> store buflen c d = Some (Decoder (ucs d ++ [c]) (combcharcnt d)).
Proof. intros H. unfold store. by rewrite decide_True. Qed.

Lemma room_mono d k k' : k' <= k -> room d k -> room d k'.
Proof. unfold room. lia. Qed.

Lemma dec_inv_room units d k : dec_inv units d -> room d k <-> 2 * (Z.of_nat (length units) + k) <= buflen.
Proof. intros H. unfold room. by rewrite (dec_inv_length _ _ H). Qed.

Lemma push_inv units d c :
  dec_inv units d -> in_word 16 c -> room d 1 ->
  exists d', push buflen c d = Some d' /\ dec_inv (units ++ [c]) d'.
Proof.
  intros Hinv Hc Hroom. unfold push.
  destruct (unicode_combinable_total c Hc) as [[] Hcomb]; rewrite Hcomb, bind_some.
  - rewrite bind_some, store_room by done. eexists. split; [done|].
    destruct Hinv as (Hw & dn & pre & run & -> & Hu & Hcnt & Hrun & Hr & Hstart).
    split; [apply Forall_app; by rewrite Forall_singleton|].
    exists dn, pre, (run ++ [c]). simpl. rewrite Hu, Hcnt, length_app, !app_assoc.
    split_and!; try done; [simpl; lia|apply Forall_app; by rewrite Forall_singleton|].
    intros Hreg. apply Hstart. by apply Forall_app in Hreg as [? _].
  - destruct (sort_run_inv units d Hinv) as (l & Hs & Hr). rewrite Hs, bind_some, bind_some.
    rewrite store_room.
    + eexists. split; [done|]. apply dec_inv_sorted; try done. by destruct Hinv.
    + unfold room in *. simpl. by rewrite (prioritysort_length _ _ (proj1 Hr)), <-(dec_inv_length _ _ Hinv).
Qed.

(** The low half of a pair, which is stored after the high half, without a test. *)
Lemma store_inv units d c :
  dec_inv units d -> combcharcnt d = 0 -> in_word 16 c -> unicode_combinable c = Some false -> room d 1 ->
  exists d', store buflen c d = Some d' /\ dec_inv (units ++ [c]) d' /\ combcharcnt d' = 0.
Proof.
  intros Hinv H0 Hc Hcomb Hroom. rewrite store_room, H0 by done. eexists. split; [done|]. split; [|done].
  destruct (sort_run_inv units d Hinv) as (l & Hs & Hr).
  unfold sort_run in Hs. rewrite H0, decide_False in Hs by lia. injection Hs as <-.
  apply dec_inv_sorted; try done. by destruct Hinv.
Qed.

Lemma push_combcharcnt d c d' :
  unicode_combinable c = Some false -> push buflen c d = Some d' -> combcharcnt d' = 0.
Proof.
  intros Hc. unfold push. rewrite Hc, bind_some. destruct (sort_run d) as [l|]; [|done].
  rewrite !bind_some. unfold store. case_decide; [|done]. by intros [= <-].
Qed.

Lemma at_end_room d k : Z.even buflen = true -> at_end buflen d k = false -> room d (k + 1).
Proof.
  intros He. unfold at_end, room. rewrite bool_decide_eq_false, Z.even_spec in *.
  destruct He as [h ->]. lia.
Qed.

Lemma at_end_true d k : at_end buflen d k = true -> ~ room d (k + 1).
Proof. unfold at_end, room. rewrite bool_decide_eq_true. lia. Qed.

Lemma past_end_room d k : past_end buflen d k = false <-> room d k.
Proof. unfold past_end, room. rewrite bool_decide_eq_false. lia. Qed.

(** What a step of the loop does with the characters [new] it decodes: it stores
    them all, or it stops because there is no room for them. *)
Definition stores (units new : list Z) (r : option (bool * decoder)) : Prop :=
  exists fit d', r = Some (fit, d') /\
    (if fit then dec_inv (units ++ new) d'
     else 2 * Z.of_nat (length units + length new) > buflen /\ exists units', dec_inv units' d') /\
    2 * Z.of_nat (length (ucs d')) <= buflen.

(** The size of the buffer is a number of characters, or else the characters fit. *)
Definition even_or_fits (d : decoder) (k : Z) : Prop := Z.even buflen = true \/ room d k.

Lemma push_all_stores new units d :
  dec_inv units d -> Forall (in_word 16) new -> room d 0 -> even_or_fits d (Z.of_nat (length new)) ->
  stores units new (push_all buflen new d).
Proof.
  intros Hinv Hnew. revert units d Hinv. induction Hnew as [|c new Hc Hnew IH]; intros units d Hinv Hroom Hev.
  { exists true, d. rewrite app_nil_r. split_and!; try done. unfold room in Hroom. lia. }
  cbn [push_all]. destruct (at_end buflen d 0) eqn:Hend.
  - exists false, d. split; [done|]. pose proof (at_end_true _ _ Hend) as Hno.
    rewrite (dec_inv_room _ _ _ Hinv) in Hno. split; [|unfold room in Hroom; lia].
    split; [simpl; lia|by exists units].
  - assert (room d 1) as H1.
    { destruct Hev as [He|Hr]; [by apply (at_end_room d 0)|]. apply (room_mono d (Z.of_nat (length (c :: new))) 1); [simpl; lia|done]. }
    destruct (push_inv units d c Hinv Hc H1) as (d' & -> & Hinv'). rewrite bind_some.
    destruct (IH (units ++ [c]) d' Hinv') as (fit & d2 & Hrun & Hfit & Hlen).
    + rewrite (dec_inv_room _ _ _ Hinv'). rewrite (dec_inv_room _ _ _ Hinv) in H1. rewrite length_app. simpl. lia.
    + destruct Hev as [He|Hr]; [by left|right]. rewrite (dec_inv_room _ _ _ Hinv').
      rewrite (dec_inv_room _ _ _ Hinv) in Hr. rewrite length_app. simpl in *. lia.
    + exists fit, d2. split; [done|]. split; [|done]. destruct fit; [by rewrite <-app_assoc in Hfit|].
      rewrite length_app in Hfit. simpl in *. split; [lia|by destruct Hfit].
Qed.
End operations.

(** ** Surrogates and ASCII are no combining characters *)

Lemma surrogate_pages :
  forallb (fun p => bool_decide (zget CFUniCharCombiningBitmap p = Some 0)) (seqZ 216 8) = true.
Proof. vm_compute. reflexivity. Qed.

Lemma surrogate_bitmap bitmap first c :
  first <= 55296 ->
  forallb (fun p => bool_decide (zget bitmap p = Some 0)) (seqZ 216 8) = true ->
  55296 <= c <= 57343 -> bitmap_test bitmap first c = Some false.
Proof.
  intros Hf Hall Hc. unfold bitmap_test. rewrite decide_False by lia.
  rewrite !land_255, Z.shiftr_div_pow2 by lia. change (2 ^ 8) with 256.
  assert (216 <= c / 256 < 224) as Hp by (Z.to_euclidean_division_equations; lia).
  rewrite (Z.mod_small (c / 256)) by lia. rewrite forallb_forall in Hall.
  specialize (Hall (c / 256)). rewrite <-list_elem_of_In, elem_of_seqZ, bool_decide_eq_true in Hall.
  by rewrite Hall, bind_some by lia.
Qed.

Lemma surrogate_not_combinable c : 55296 <= c <= 57343 -> unicode_combinable c = Some false.
Proof. apply surrogate_bitmap; [done|apply surrogate_pages]. Qed.

Lemma surrogate_decomposable_pages :
  forallb (fun p => bool_decide (zget CFUniCharDecomposableBitmap p = Some 0)) (seqZ 216 8) = true.
Proof. vm_compute. reflexivity. Qed.

Lemma surrogate_not_decomposeable c : 55296 <= c <= 57343 -> unicode_decomposeable c = Some false.
Proof. apply surrogate_bitmap; [done|apply surrogate_decomposable_pages]. Qed.

Lemma ucs_to_sfm_total c last : 1 <= c < 128 -> exists s, ucs_to_sfm c last = Some s /\ in_word 16 s.
Proof.
  intros Hc.
  assert (forallb (fun c => forallb (fun last =>
    match ucs_to_sfm c last with Some s => bool_decide (in_word 16 s) | None => false end)
    [false; true]) (seqZ 1 127) = true) as Hall by (vm_compute; reflexivity).
  rewrite forallb_forall in Hall. specialize (Hall c).
  rewrite <-list_elem_of_In, elem_of_seqZ in Hall. specialize (Hall ltac:(lia)).
  rewrite forallb_forall in Hall. specialize (Hall last).
  assert (In last [false; true]) as Hl by (destruct last; simpl; tauto). specialize (Hall Hl).
  destruct (ucs_to_sfm c last) as [s|]; [|done]. apply bool_decide_eq_true in Hall. eauto.
Qed.

Lemma ascii_not_combinable c : c < 768 -> unicode_combinable c = Some false.
Proof. intros Hc. unfold unicode_combinable, bitmap_test. by rewrite decide_True. Qed.

Lemma hexdigits_ascii i : 0 <= i < 16 -> exists h, zget hexdigits i = Some h /\ 48 <= h < 71.
Proof.
  intros Hi.
  assert (forallb (fun h => bool_decide (48 <= h < 71)) hexdigits = true) as Hall by (vm_compute; reflexivity).
  destruct (zget_is_Some hexdigits i) as [h Hh]; [by vm_compute in Hi |-*|]. exists h. split; [done|].
  apply zget_Some in Hh as [_ Hh]. pose proof (forallb_lookup _ _ _ _ Hall Hh) as H2.
  by apply bool_decide_eq_true in H2.
Qed.

(** ** The parts of a turn *)

(** The characters that one scalar value is decoded to. *)
Definition restored (altslash c : Z) : Z :=
  let c := if decide (c = UCS_ALT_NULL) then 0 else c in if decide (c = altslash) then 47 else c.

Definition decoded_unit (decompose : bool) (altslash c : Z) : list Z :=
  if decompose && bool_decide (unicode_decomposeable c = Some true)
  then default [] (unicode_decompose c) else [restored altslash c].

Definition decoded (decompose : bool) (altslash c : Z) : list Z :=
  if decide (c < 65536) then decoded_unit decompose altslash c else utf16_units c.

Lemma restored_range altslash c : in_word 16 c -> in_word 16 (restored altslash c).
Proof. intros Hc. unfold restored. repeat case_decide; unfold in_word in *; lia. Qed.

(** Decomposed output cannot be decomposed further. *)
Lemma decoded_not_decomposeable altslash c :
  scalar c -> Forall (fun x => unicode_decomposeable x = Some false) (decoded true altslash c).
Proof.
  intros (Hc & _). unfold decoded, decoded_unit, utf16_units. destruct (decide (c < 65536)).
  - assert (in_word 16 c) as Hw by (unfold in_word; lia).
    destruct (unicode_decomposeable_total c Hw) as [[] Hd]; rewrite Hd; simpl.
    + destruct (unicode_decompose_ok c Hw) as (r & -> & _ & Hr). simpl.
      apply (Forall_impl _ _ _ Hr). by intros x [_ ?].
    + apply Forall_singleton. unfold restored.
      repeat case_decide; done.
  - assert (0 <= (c - 65536) / 1024 < 1024) by (Z.to_euclidean_division_equations; lia).
    pose proof (Z.mod_pos_bound (c - 65536) 1024 ltac:(lia)).
    repeat apply Forall_cons_2; [apply surrogate_not_decomposeable; lia..|done].
Qed.

Section turn.
Context (decompose sfmconv : bool) (altslash buflen : Z).

Lemma push_stores units d c :
  dec_inv units d -> in_word 16 c -> room buflen d 1 ->
  stores buflen units [c] (d ← push buflen c d; Some (true, d)).
Proof.
  intros Hinv Hc Hroom. destruct (push_inv buflen units d c Hinv Hc Hroom) as (d' & -> & Hinv').
  exists true, d'. split; [done|]. split; [done|]. rewrite (dec_inv_length _ _ Hinv'), length_app.
  rewrite (dec_inv_room _ _ _ _ Hinv) in Hroom. simpl. lia.
Qed.

Lemma decode_unit_stores units d c :
  dec_inv units d -> in_word 16 c -> room buflen d 1 ->
  even_or_fits buflen d (Z.of_nat (length (decoded_unit decompose altslash c))) ->
  stores buflen units (decoded_unit decompose altslash c)
    (decode_unit decompose false altslash buflen c d).
Proof.
  intros Hinv Hc Hroom. unfold decode_unit, decoded_unit.
  destruct (unicode_decomposeable_total c Hc) as [dec Hdec].
  assert ((if decompose then unicode_decomposeable c else Some false) = Some (decompose && dec)) as ->
    by (by destruct decompose).
  rewrite Hdec, bind_some.
  assert (bool_decide (Some dec = Some true) = dec) as -> by (by destruct dec).
  destruct (decompose && dec).
  - destruct (unicode_decompose_ok c Hc) as (r & -> & _ & Hr). intros Hev. rewrite bind_some.
    apply push_all_stores; [done| |by apply (room_mono _ _ 1)|done].
    apply (Forall_impl _ _ _ Hr). by intros x [? _].
  - intros _. rewrite andb_false_r, bind_some. apply push_stores; [done|by apply restored_range|done].
Qed.

Lemma decode_pair_stores units d hi lo :
  dec_inv units d -> 55296 <= hi <= 56319 -> 56320 <= lo <= 57343 -> room buflen d 1 ->
  even_or_fits buflen d 2 ->
  stores buflen units [hi; lo] (decode_pair buflen hi lo d).
Proof.
  intros Hinv Hhi Hlo Hroom Hev. unfold decode_pair.
  pose proof (surrogate_not_combinable hi ltac:(lia)) as Hch.
  pose proof (surrogate_not_combinable lo ltac:(lia)) as Hcl.
  destruct (push_inv buflen units d hi Hinv) as (d' & Hpush & Hinv'); [unfold in_word; lia|done|].
  rewrite Hpush, bind_some. apply push_combcharcnt in Hpush; [|done].
  pose proof (dec_inv_room buflen _ _ 0 Hinv') as Hr'. rewrite length_app in Hr'. simpl in Hr'.
  rewrite (dec_inv_room _ _ _ _ Hinv) in Hroom.
  destruct (at_end buflen d' 0) eqn:Hend.
  - exists false, d'. split; [done|]. apply at_end_true in Hend.
    rewrite (dec_inv_room _ _ _ _ Hinv'), length_app in Hend. simpl in *.
    rewrite (dec_inv_length _ _ Hinv'), length_app. simpl.
    split; [split; [lia|by eexists]|lia].
  - assert (room buflen d' 1) as H1.
    { destruct Hev as [He|Hr]; [by apply (at_end_room _ d' 0)|].
      rewrite (dec_inv_room _ _ _ _ Hinv'), length_app. rewrite (dec_inv_room _ _ _ _ Hinv) in Hr. simpl. lia. }
    destruct (store_inv buflen (units ++ [hi]) d' lo) as (d2 & -> & Hinv2 & _); try done; [unfold in_word; lia|].
    exists true, d2. split; [done|]. rewrite <-app_assoc in Hinv2. split; [done|].
    rewrite (dec_inv_length _ _ Hinv2), length_app.
    rewrite (dec_inv_room _ _ _ _ Hinv'), length_app in H1. simpl in *. lia.
Qed.

(** What the decoder does with a sequence that it accepts. *)
Definition decode_good (c : Z) (d : decoder) : option (bool * decoder) :=
  if decide (c < 65536) then decode_unit decompose false altslash buflen c d
  else decode_pair buflen (55296 + (c - 65536) / 1024) (56320 + (c - 65536) mod 1024) d.

Lemma decode_good_stores units d c :
  dec_inv units d -> scalar c -> room buflen d 1 ->
  even_or_fits buflen d (Z.of_nat (length (decoded decompose altslash c))) ->
  stores buflen units (decoded decompose altslash c) (decode_good c d).
Proof.
  intros Hinv (Hc & _) Hroom Hev. unfold decode_good, decoded, utf16_units in *.
  destruct (decide (c < 65536)).
  - apply decode_unit_stores; [done|unfold in_word; lia|done|done].
  - assert (0 <= (c - 65536) / 1024 < 1024) by (Z.to_euclidean_division_equations; lia).
    pose proof (Z.mod_pos_bound (c - 65536) 1024 ltac:(lia)).
    apply decode_pair_stores; [done|lia|lia|done|done].
Qed.

Lemma seq_of_good_turn {A} c (bad dflt : A) (K : option (bool * decoder) -> A) d :
  scalar c ->
  match seq_of c with
  | SeqBad => bad
  | SeqUnit ch => K (decode_unit decompose false altslash buflen (u16 ch) d)
  | SeqPair hi lo => K (decode_pair buflen (u16 hi) (u16 lo) d)
  | SeqDefault => dflt
  end = K (decode_good c d).
Proof.
  intros (Hc & _). unfold seq_of, decode_good. destruct (decide (c < 65536)).
  - by rewrite (wrap_small 16) by (unfold in_word; lia).
  - assert (0 <= (c - 65536) / 1024 < 1024) by (Z.to_euclidean_division_equations; lia).
    pose proof (Z.mod_pos_bound (c - 65536) 1024 ltac:(lia)).
    by rewrite !(wrap_small 16) by (unfold in_word; lia).
Qed.

Lemma decode_ascii_stores units d b lastchar :
  dec_inv units d -> 1 <= b < 128 -> room buflen d 1 ->
  exists c d', decode_ascii sfmconv altslash buflen b lastchar d = Some d' /\
    dec_inv (units ++ [c]) d' /\ (sfmconv = false -> c = restored altslash b).
Proof.
  intros Hinv Hb Hroom. unfold decode_ascii.
  assert (exists s, (if sfmconv then ucs_to_sfm b lastchar else Some b) = Some s /\ in_word 16 s /\
    (sfmconv = false -> s = b)) as (s & -> & Hs & Hsb).
  { destruct sfmconv; [|exists b; split_and!; [done|unfold in_word; lia|done]].
    destruct (ucs_to_sfm_total b lastchar Hb) as (s & ? & ?). exists s. done. }
  rewrite bind_some.
  destruct (push_inv buflen units d (if decide (s = altslash) then 47 else s) Hinv) as (d' & -> & Hinv');
    [case_decide; [unfold in_word; lia|done]|done|].
  eexists _, d'. split; [done|]. split; [done|]. intros Hsf. rewrite (Hsb Hsf).
  unfold restored. by rewrite (decide_False (P := b = UCS_ALT_NULL)) by (unfold UCS_ALT_NULL; lia).
Qed.

Lemma decode_escape_stores units d b :
  dec_inv units d -> byte_ok b -> Z.even buflen = true -> room buflen d 0 ->
  exists new, stores buflen units new (decode_escape buflen b d).
Proof.
  intros Hinv Hb Hev Hroom. unfold decode_escape. rewrite byte_ok_range in Hb.
  assert (0 <= Z.shiftr b 4 < 16) as H1
    by (rewrite Z.shiftr_div_pow2 by lia; Z.to_euclidean_division_equations; lia).
  assert (0 <= Z.land b 15 < 16) as H2
    by (change 15 with (Z.ones 4); rewrite Z.land_ones by lia; apply Z.mod_pos_bound; lia).
  destruct (at_end buflen d 2) eqn:Hend.
  { exists [37; 37; 37], false, d. split; [done|]. apply at_end_true in Hend.
    rewrite (dec_inv_room _ _ _ _ Hinv) in Hend. rewrite (dec_inv_length _ _ Hinv).
    rewrite (dec_inv_room _ _ _ _ Hinv) in Hroom. simpl in *.
    split; [split; [lia|by exists units]|lia]. }
  apply at_end_room in Hend; [|done]. destruct (sort_run_inv units d Hinv) as (l & -> & Hr).
  destruct (hexdigits_ascii _ H1) as (h1 & -> & Hh1). destruct (hexdigits_ascii _ H2) as (h2 & -> & Hh2).
  rewrite !bind_some.
  assert (dec_inv (units ++ [37]) (Decoder (l ++ [37]) 0)) as I1
    by (apply dec_inv_sorted; [by destruct Hinv|done|done|done]).
  rewrite (dec_inv_room _ _ _ _ Hinv) in Hend.
  assert (length l = length units) as Hl by (apply prioritysort_length, Hr).
  rewrite store_room, bind_some by (unfold room; simpl; rewrite Hl; lia). cbn [ucs combcharcnt].
  destruct (store_inv buflen _ _ h1 I1) as (d2 & -> & I2 & C2);
    [done|unfold in_word; lia|by apply ascii_not_combinable; lia
    |rewrite (dec_inv_room _ _ _ _ I1), length_app; simpl; lia|].
  rewrite bind_some. destruct (store_inv buflen _ _ h2 I2) as (d3 & -> & I3 & _);
    [done|unfold in_word; lia|by apply ascii_not_combinable; lia
    |rewrite (dec_inv_room _ _ _ _ I2), !length_app; simpl; lia|].
  exists [37; h1; h2], true, d3. rewrite <-!app_assoc in I3. split; [done|]. split; [done|].
  rewrite (dec_inv_length _ _ I3), length_app. simpl. lia.
Qed.
End turn.

(** ** The loop *)

Lemma int_of_small n : 0 <= n < 2 ^ 31 -> int_of n = n.
Proof. intros Hn. unfold int_of. rewrite wrap_small by (unfold in_word; lia). by rewrite decide_True by lia. Qed.

(** A sequence is read without leaving the object: its bytes are there, or a NUL
    ends it. *)
Lemma decode_seq_safe b p e :
  128 <= b < 256 -> bytes_ok p -> zget utf_extrabytes (Z.shiftr b 3) = Some e -> 0 <= e ->
  e <= Z.of_nat (length p) \/ 0 ∈ p ->
  exists s, decode_seq e b p = Some s /\
    (s = SeqBad \/ exists c, scalar c /\ 128 <= c /\ b :: take (Z.to_nat e) p = utf8_bytes c /\ s = seq_of c).
Proof.
  intros Hb Hp He H0 Hread. destruct (decide (e <= Z.of_nat (length p))) as [Hl|Hl].
  { by apply decode_seq_sound. }
  destruct Hread as [?|Hin]; [lia|]. rewrite extrabytes_of in He by done. injection He as <-.
  exists SeqBad. split; [|by left].
  assert (forall b2 b3, 0 ∈ [b2; b3] -> is_trail b2 = false \/ is_trail b3 = false) as Hnul.
  { intros b2 b3 Hb23. apply elem_of_cons in Hb23 as [<-|Hb23]; [by left|].
    apply list_elem_of_singleton in Hb23 as <-. by right. }
  repeat case_decide; try lia; (destruct p as [|b2 [|b3 [|b4 p]]]; simpl in Hl; try lia).
  all: try (by apply elem_of_nil in Hin).
  - apply list_elem_of_singleton in Hin as <-. reflexivity.
  - apply list_elem_of_singleton in Hin as <-. reflexivity.
  - unfold decode_seq. simpl. destruct (Hnul b2 b3 Hin) as [->| ->]; [done|]. by destruct (is_trail b2).
Qed.

Section loop.
Context (decompose escaping sfmconv : bool) (altslash buflen : Z).

Abbreviation loop := (decode_loop decompose false escaping sfmconv altslash buflen).

(** What the loop may read: at most [n] bytes, or up to a NUL. *)
Definition readable (n : Z) (p : list Z) : Prop :=
  (escaping = false /\ n <= Z.of_nat (length p)) \/ 0 ∈ p.

Definition end_state (e : decode_end) : decoder :=
  match e with DecodeEnd d => d | DecodeError _ d => d end.
Definition end_code (e : decode_end) : Z :=
  match e with DecodeEnd _ => 0 | DecodeError code _ => code end.

Definition end_ok (e : decode_end) : Prop :=
  match e with DecodeEnd _ => True | DecodeError code _ => code ∈ [EINVAL; ENAMETOOLONG] end.

(** The loop ended without a fault, with a code it may return, and inside the buffer. *)
Definition ends (r : option decode_end) : Prop :=
  exists e, r = Some e /\ (exists units, dec_inv units (end_state e)) /\
    2 * Z.of_nat (length (ucs (end_state e))) <= buflen /\
    end_ok e.

Lemma ends_intro e units :
  dec_inv units (end_state e) -> 2 * Z.of_nat (length units) <= buflen ->
  end_ok e -> ends (Some e).
Proof.
  intros Hi Hr Hc. exists e. split; [done|]. split; [by exists units|]. split; [|done].
  by rewrite (dec_inv_length _ _ Hi).
Qed.

(** A turn that stores ends the loop, or goes on from a state inside the buffer. *)
Lemma ends_stores units new r (k : decoder -> option decode_end) :
  stores buflen units new r ->
  (forall d, dec_inv (units ++ new) d -> 2 * Z.of_nat (length (units ++ new)) <= buflen -> ends (k d)) ->
  ends ('(fit, d) ← r; if (fit : bool) then k d else Some (DecodeError ENAMETOOLONG d)).
Proof.
  intros (fit & d' & -> & Hfit & Hlen) Hk. rewrite bind_some. destruct fit.
  - apply Hk; [done|]. by rewrite (dec_inv_length _ _ Hfit) in Hlen.
  - destruct Hfit as [_ [u Hu]]. apply (ends_intro _ u); [done| |simpl; set_solver].
    by rewrite (dec_inv_length _ _ Hu) in Hlen.
Qed.

Lemma readable_tail n b p : b <> 0 -> readable n (b :: p) -> readable (n - 1) p.
Proof.
  intros Hb [[He Hn]|Hin]; [left|right].
  - simpl in Hn. split; [done|lia].
  - apply elem_of_cons in Hin as [?|?]; [congruence|done].
Qed.

Lemma readable_drop n p k :
  Forall (fun b => b <> 0) (take k p) -> readable n p -> readable (n - Z.of_nat k) (drop k p).
Proof.
  intros Hnz [[He Hn]|Hin]; [left|right].
  - rewrite length_drop. split; [done|lia].
  - rewrite <-(take_drop k p) in Hin. apply elem_of_app in Hin as [Hin|Hin]; [|done].
    rewrite Forall_forall in Hnz. by destruct (Hnz 0 Hin).
Qed.

Lemma decode_loop_ends fuel p n units d :
  Z.even buflen = true -> (length p < fuel)%nat -> bytes_ok p -> 0 <= n < 2 ^ 31 -> readable n p ->
  dec_inv units d -> 2 * Z.of_nat (length units) <= buflen ->
  ends (loop fuel p n d).
Proof.
  intros Hev. revert p n units d.
  induction fuel as [|fuel IH]; intros p n units d Hf Hp Hn Hread Hinv Hlen; [lia|].
  cbn [decode_loop]. case_decide as Hn0. { apply (ends_intro _ units); [done|done|simpl; set_solver]. }
  destruct p as [|b p]. { destruct Hread as [[_ H]|H]; [simpl in H; lia|by apply elem_of_nil in H]. }
  apply Forall_cons_1 in Hp as [Hb Hp]. simpl in Hf.
  case_decide as Hz. { apply (ends_intro _ units); [done|done|simpl; set_solver]. }
  destruct (past_end buflen d 1) eqn:Hpe. { apply (ends_intro _ units); [done|done|simpl; set_solver]. }
  apply past_end_room in Hpe. pose proof (readable_tail n b p Hz Hread) as Hread'.
  rewrite byte_ok_range in Hb. case_decide as Ha.
  { destruct (decode_ascii_stores sfmconv altslash buflen units d b (bool_decide (n - 1 = 0)) Hinv)
      as (c & d' & -> & Hinv' & _); [lia|done|]. rewrite bind_some.
    apply (IH p (n - 1) (units ++ [c])); try done; [lia|lia|].
    rewrite (dec_inv_room _ _ _ _ Hinv) in Hpe. rewrite length_app. simpl. lia. }
  destruct (utf_extrabytes_total b) as [e He]; [lia|]. rewrite He, bind_some.
  rewrite int_of_small by lia.
  assert (e <= 3) as He3 by (rewrite extrabytes_of in He by lia; injection He as <-; repeat case_decide; lia).
  destruct (bool_decide (e < 0 \/ n - 1 < e)) eqn:Hearly.
  - rewrite bind_some. destruct escaping eqn:Hesc; simpl negb; cbv iota.
    2: { apply (ends_intro _ units); [done|done|simpl; set_solver]. }
    destruct (decode_escape_stores buflen units d b) as (new & Hs);
      [done|rewrite byte_ok_range; lia|done|by apply (room_mono _ _ 1)|].
    eapply ends_stores; [exact Hs|]. intros d' Hinv' Hlen'. eapply IH; try done; [lia| |].
    + simpl andb. rewrite bool_decide_eq_true in Hearly. case_bool_decide; lia.
    + right. by destruct Hread' as [[? _]|?]; [congruence|].
  - rewrite bool_decide_eq_false in Hearly.
    destruct (decode_seq_safe b p e) as (s & -> & Hs); [lia|done|done|lia| |].
    { destruct Hread' as [[_ ?]|?]; [left; lia|by right]. }
    rewrite bind_some. destruct Hs as [->|(c & Hc & Hlo & Hu & ->)].
    { destruct escaping eqn:Hesc; simpl negb; cbv iota.
      2: { apply (ends_intro _ units); [done|done|simpl; set_solver]. }
      destruct (decode_escape_stores buflen units d b) as (new & Hs);
        [done|rewrite byte_ok_range; lia|done|by apply (room_mono _ _ 1)|].
      eapply ends_stores; [exact Hs|]. intros d' Hinv' Hlen'. eapply IH; try done; [lia|simpl; lia]. }
    assert (readable (n - 1 - e) (drop (Z.to_nat e) p)) as Hrest.
    { replace e with (Z.of_nat (Z.to_nat e)) at 1 by lia. apply readable_drop; [|done].
      pose proof (utf8_bytes_nonzero c Hc) as Hnz. rewrite <-Hu in Hnz. by apply Forall_cons_1 in Hnz as [_ ?]. }
    assert (forall units' d', dec_inv units' d' -> 2 * Z.of_nat (length units') <= buflen ->
      ends (loop fuel (drop (Z.to_nat e) p) (n - 1 - e) d')) as Hnext.
    { intros units' d' Hinv' Hlen'. eapply IH; try done; first [rewrite length_drop; lia | by apply Forall_drop | lia]. }
    rewrite (seq_of_good_turn decompose altslash buflen c _ _ (fun r => '(fit, d) ← r;
      if (fit : bool) then loop fuel (drop (Z.to_nat e) p) (n - 1 - e) d
      else Some (DecodeError ENAMETOOLONG d))) by done.
    eapply ends_stores; [by apply decode_good_stores; [..|left]|].
    intros d' Hinv' Hlen'. by eapply Hnext.
Qed.
End loop.

(** ** What a valid string is decoded to *)

(** No decomposition is longer than three characters for two bytes or four for
    three: the factor of [utf8_normalizestr]. *)
Lemma short_decompositions_checked :
  forallb (fun c => match unicode_decompose c with Some r => bool_decide (length r <= 3)%nat | None => false end)
    (seqZ 128 1920) = true.
Proof. vm_compute. reflexivity. Qed.

Lemma decoded_length decompose altslash c :
  scalar c ->
  (1 <= length (decoded decompose altslash c))%nat /\
  (2 * length (decoded decompose altslash c) <= 3 * length (utf8_bytes c))%nat.
Proof.
  intros (Hc & _). unfold decoded, decoded_unit, utf16_units. destruct (decide (c < 65536)) as [Hlt|Hlt].
  2: { unfold utf8_bytes. rewrite !decide_False by lia. simpl. lia. }
  destruct (utf8_bytes_nonempty c) as (b & tl & Hu).
  assert (1 <= length (utf8_bytes c))%nat by (rewrite Hu; simpl; lia).
  destruct (decompose && bool_decide (unicode_decomposeable c = Some true)) eqn:Hd; [|simpl; lia].
  apply andb_true_iff in Hd as [_ Hd]. apply bool_decide_eq_true in Hd.
  assert (in_word 16 c) as Hw by (unfold in_word; lia).
  destruct (unicode_decompose_ok c Hw) as (r & Hr & Hlen & _). rewrite Hr. simpl.
  pose proof (unicode_decompose_nonempty c Hw Hd) as Hne. rewrite Hr in Hne.
  split; [destruct r; [done|simpl; lia]|]. unfold utf8_bytes.
  destruct (decide (c < 128)).
  { unfold unicode_decomposeable, bitmap_test in Hd. by rewrite decide_True in Hd by lia. }
  destruct (decide (c < 2048)); [|destruct (decide (c < 65536)); simpl; lia].
  pose proof short_decompositions_checked as Hall. rewrite forallb_forall in Hall.
  specialize (Hall c). rewrite <-list_elem_of_In, elem_of_seqZ, Hr, bool_decide_eq_true in Hall.
  specialize (Hall ltac:(lia)). simpl. lia.
Qed.

Lemma decoded_ascii decompose altslash b : b < 128 -> decoded decompose altslash b = [restored altslash b].
Proof.
  intros Hb. unfold decoded, decoded_unit. rewrite decide_True by lia.
  rewrite bool_decide_false; [by rewrite andb_false_r|].
  unfold unicode_decomposeable, bitmap_test. by rewrite decide_True by lia.
Qed.

Section valid.
Context (decompose : bool) (altslash buflen : Z).

Abbreviation loop := (decode_loop decompose false false false altslash buflen).
Abbreviation decoded_string cs := (concat (map (decoded decompose altslash) cs)).

(** The loop on a string: for a valid one, all its characters, if they fit; for
    any other one, an error. *)
Definition decodes (units s : list Z) (r : option decode_end) : Prop :=
  exists e, r = Some e /\
    (forall cs, Forall scalar cs -> s = utf8_string cs ->
       if decide (2 * Z.of_nat (length (units ++ decoded_string cs)) <= buflen)
       then exists d, e = DecodeEnd d /\ dec_inv (units ++ decoded_string cs) d
       else exists d, e = DecodeError ENAMETOOLONG d) /\
    (~ valid_utf8 s -> end_code e = EINVAL \/ end_code e = ENAMETOOLONG) /\
    ends buflen (Some e).

Lemma decodes_nil units d :
  dec_inv units d -> 2 * Z.of_nat (length units) <= buflen -> decodes units [] (Some (DecodeEnd d)).
Proof.
  intros Hinv Hlen. exists (DecodeEnd d). split; [done|]. split.
  - intros cs _ ->%utf8_string_nil. simpl. rewrite app_nil_r, decide_True by done. by exists d.
  - split; [|apply (ends_intro _ _ units); [done|done|simpl; set_solver]]. intros Hv. destruct Hv. by exists [].
Qed.

(** An error for lack of room. *)
Lemma decodes_full units d s :
  dec_inv units d -> 2 * Z.of_nat (length units) <= buflen -> s <> [] -> ~ 2 * (Z.of_nat (length units) + 1) <= buflen ->
  decodes units s (Some (DecodeError ENAMETOOLONG d)).
Proof.
  intros Hinv Hlen Hs Hfull. eexists. split; [done|].
  split; [|split; [by right|apply (ends_intro _ _ units); [done|done|simpl; set_solver]]]. intros [|c cs] Hcs ->; [done|].
  apply Forall_cons_1 in Hcs as [Hc _]. rewrite decide_False; [by eexists|].
  pose proof (proj1 (decoded_length decompose altslash c Hc)). simpl. rewrite !length_app. lia.
Qed.

Lemma decodes_invalid units d s :
  dec_inv units d -> 2 * Z.of_nat (length units) <= buflen ->
  ~ valid_utf8 s -> decodes units s (Some (DecodeError EINVAL d)).
Proof.
  intros Hinv Hlen Hv. eexists. split; [done|].
  split; [|split; [by left|apply (ends_intro _ _ units); [done|done|simpl; set_solver]]]. intros cs Hcs ->. destruct Hv. by exists cs.
Qed.

(** A turn that decodes one value, and the turns after it. *)
Lemma decodes_cons units c s r (k : decoder -> option decode_end) :
  scalar c -> 2 * Z.of_nat (length units) <= buflen ->
  stores buflen units (decoded decompose altslash c) r ->
  (forall d, dec_inv (units ++ decoded decompose altslash c) d ->
     2 * Z.of_nat (length (units ++ decoded decompose altslash c)) <= buflen ->
     decodes (units ++ decoded decompose altslash c) s (k d)) ->
  decodes units (utf8_bytes c ++ s)
    ('(fit, d) ← r; if (fit : bool) then k d else Some (DecodeError ENAMETOOLONG d)).
Proof.
  intros Hc Hlen (fit & d & -> & Hfit & Hd) Hk. rewrite bind_some. destruct fit.
  - destruct (Hk d Hfit) as (e & -> & Hval & Hbad & Hend). { by rewrite (dec_inv_length _ _ Hfit) in Hd. }
    exists e. split; [done|]. split; [|by rewrite valid_utf8_cons]. intros cs Hcs Heq.
    destruct (utf8_string_uncons c s cs Hc Hcs Heq) as (cs' & -> & Hcs' & Hs). specialize (Hval cs' Hcs' Hs).
    by rewrite <-app_assoc in Hval.
  - destruct Hfit as [Hfit [u Hu]]. eexists. split; [done|].
    split; [|split; [by right|apply (ends_intro _ _ u); [done| |simpl; set_solver]]].
    2: { by rewrite (dec_inv_length _ _ Hu) in Hd. }
    intros cs Hcs Heq. destruct (utf8_string_uncons c s cs Hc Hcs Heq) as (cs' & -> & Hcs' & Hs). rewrite decide_False; [by eexists|].
    simpl. rewrite !length_app. lia.
Qed.
(** The buffer is a number of characters, or has room for three bytes for each
    byte that is left. *)
Definition capacity (units : list Z) (n : Z) : Prop :=
  Z.even buflen = true \/ 2 * Z.of_nat (length units) + 3 * n <= buflen.

Lemma capacity_fits units d c n :
  dec_inv units d -> scalar c -> capacity units n -> Z.of_nat (length (utf8_bytes c)) <= n ->
  even_or_fits buflen d (Z.of_nat (length (decoded decompose altslash c))) /\
  capacity (units ++ decoded decompose altslash c) (n - Z.of_nat (length (utf8_bytes c))).
Proof.
  intros Hinv Hc [He|Hcap] Hn; [by split; left|].
  pose proof (proj2 (decoded_length decompose altslash c Hc)) as Hd.
  split; right; [rewrite (dec_inv_room _ _ _ _ Hinv)|rewrite length_app]; lia.
Qed.

Lemma decode_loop_spec fuel p n units d :
  (length p < fuel)%nat -> bytes_ok p -> 0 <= n < 2 ^ 31 -> n <= Z.of_nat (length p) ->
  capacity units n -> dec_inv units d -> 2 * Z.of_nat (length units) <= buflen ->
  decodes units (before_nul (take (Z.to_nat n) p)) (loop fuel p n d).
Proof.
  revert p n units d.
  induction fuel as [|fuel IH]; intros p n units d Hf Hp Hn Hnp Hcap Hinv Hlen; [lia|].
  cbn [decode_loop]. case_decide as Hn0. { replace n with 0 by lia. by apply decodes_nil. }
  destruct p as [|b p]; [simpl in Hnp; lia|]. apply Forall_cons_1 in Hp as [Hb Hp]. simpl in Hf, Hnp.
  replace (Z.to_nat n) with (S (Z.to_nat (n - 1))) by lia. cbn [take before_nul].
  case_decide as Hz; [by apply decodes_nil|].
  destruct (past_end buflen d 1) eqn:Hpe.
  { apply decodes_full; [done|done|done|]. rewrite <-(dec_inv_room _ _ _ _ Hinv), <-past_end_room. congruence. }
  apply past_end_room in Hpe. rewrite byte_ok_range in Hb. case_decide as Ha.
  { destruct (decode_ascii_stores false altslash buflen units d b (bool_decide (n - 1 = 0)) Hinv)
      as (c & d' & -> & Hinv' & Hc); [lia|done|]. rewrite bind_some. specialize (Hc eq_refl). subst c.
    assert (scalar b) as Hsc by (unfold scalar; lia).
    pose proof (decoded_ascii decompose altslash b Ha) as Hdec.
    destruct (capacity_fits units d b n Hinv Hsc Hcap) as [_ Hcap'];
      [rewrite utf8_bytes_ascii by lia; simpl; lia|].
    rewrite (dec_inv_room _ _ _ _ Hinv) in Hpe. rewrite Hdec, utf8_bytes_ascii in Hcap' by lia.
    change (b :: before_nul (take (Z.to_nat (n - 1)) p)) with ([b] ++ before_nul (take (Z.to_nat (n - 1)) p)).
    rewrite <-(utf8_bytes_ascii b) by lia.
    apply (decodes_cons units b _ (Some (true, d')) (loop fuel p (n - 1))); [done|done| |].
    - exists true, d'. rewrite Hdec, (dec_inv_length _ _ Hinv'), length_app. simpl. split_and!; try done. lia.
    - rewrite Hdec. intros d2 Hinv2 Hlen2. apply IH; try done; lia. }
  destruct (utf_extrabytes_total b) as [e He]; [lia|]. rewrite He, bind_some, int_of_small by lia.
  pose proof (valid_utf8_sequence b p (Z.to_nat (n - 1)) e ltac:(lia) He) as Hv.
  destruct (bool_decide (e < 0 \/ n - 1 < e)) eqn:Hearly.
  { rewrite bind_some. simpl negb. cbv iota. apply decodes_invalid; [done|done|]. rewrite Hv.
    rewrite bool_decide_eq_true in Hearly. lia. }
  rewrite bool_decide_eq_false in Hearly.
  destruct (decode_seq_sound b p e) as (s & Hs & Hcase); [lia|done|done|lia|].
  rewrite Hs, bind_some. destruct Hcase as [->|(c & Hc & Hlo & Hu & ->)].
  { simpl negb. cbv iota. apply decodes_invalid; [done|done|]. rewrite Hv. intros (_ & Hc & _).
    by apply (decode_seq_bad b p e). }
  assert (length (utf8_bytes c) = S (Z.to_nat e)) as Hlu by (rewrite <-Hu; simpl; rewrite length_take; lia).
  destruct (capacity_fits units d c n Hinv Hc Hcap) as [Hev Hcap']; [lia|].
  assert (b :: before_nul (take (Z.to_nat (n - 1)) p) =
    utf8_bytes c ++ before_nul (take (Z.to_nat (n - 1 - e)) (drop (Z.to_nat e) p))) as ->.
  { rewrite <-Hu. simpl. f_equal. pose proof (utf8_bytes_nonzero c Hc) as Hnz.
    rewrite <-Hu in Hnz. apply Forall_cons_1 in Hnz as [_ Hnz]. rewrite <-before_nul_app by done.
    rewrite take_take_drop. f_equal. f_equal. lia. }
  assert (forall d', dec_inv (units ++ decoded decompose altslash c) d' ->
    2 * Z.of_nat (length (units ++ decoded decompose altslash c)) <= buflen ->
    decodes (units ++ decoded decompose altslash c)
      (before_nul (take (Z.to_nat (n - 1 - e)) (drop (Z.to_nat e) p)))
      (loop fuel (drop (Z.to_nat e) p) (n - 1 - e) d')) as Hnext.
  { intros d' Hinv' Hlen'. apply IH; try done; try (by apply Forall_drop); rewrite ?length_drop; try lia.
    by replace (n - 1 - e) with (n - Z.of_nat (length (utf8_bytes c))) by lia. }
  rewrite (seq_of_good_turn decompose altslash buflen c _ _ (fun r => '(fit, d) ← r;
    if (fit : bool) then loop fuel (drop (Z.to_nat e) p) (n - 1 - e) d
    else Some (DecodeError ENAMETOOLONG d))) by done.
  apply decodes_cons; [done|done|by apply decode_good_stores|done].
Qed.
End valid.

(** ** The final state *)

Lemma dec_inv_result units d :
  dec_inv units d ->
  exists l, sort_run d = Some l /\ rtc reorder units l /\ (Forall regular units -> canonical l) /\
    Forall (in_word 16) l /\ length l = length (ucs d).
Proof.
  intros Hinv. destruct (sort_run_inv units d Hinv) as (l & Hs & Hr & Hord).
  exists l. split; [done|]. split; [done|]. split; [intros Hreg; by apply ordered_canonical, Hord|].
  split; [apply (reorder_Forall _ _ _ Hr); by destruct Hinv|].
  by rewrite (prioritysort_length _ _ Hr), <-(dec_inv_length _ _ Hinv).
Qed.

Lemma dec_inv_words units d : dec_inv units d -> Forall (in_word 16) (ucs d).
Proof.
  intros (Hw & dn & pre & run & -> & -> & _ & _ & [Hr _] & _). apply Forall_app in Hw as [Hd Hrun].
  apply Forall_app. split; [|done]. by apply (reorder_Forall _ _ _ Hr).
Qed.

Lemma swap_words (swap : bool) l :
  Forall (in_word 16) l -> Forall (in_word 16) (if swap then map OSSwapInt16 l else l).
Proof.
  intros Hl. destruct swap; [|done]. apply Forall_forall. intros x Hx.
  apply list_elem_of_fmap in Hx as (y & -> & _). apply OSSwapInt16_range.
Qed.

Lemma ends_decodestr buflen r (swap : bool) :
  ends buflen r ->
  exists code l,
    (e ← r; match e with
            | DecodeError code d => Some (code, ucs d)
            | DecodeEnd d => l ← sort_run d; Some (0, if swap then map OSSwapInt16 l else l)
            end) = Some (code, l) /\
    code ∈ [0; EINVAL; ENAMETOOLONG] /\ 2 * Z.of_nat (length l) <= buflen /\ Forall (in_word 16) l.
Proof.
  intros (e & -> & [u Hu] & Hlen & Hcode). rewrite bind_some. destruct e as [d|code d]; simpl in *.
  - destruct (dec_inv_result u d Hu) as (l & -> & _ & _ & Hw & Hl). rewrite bind_some.
    eexists 0, _. split; [done|]. split; [set_solver|]. split; [|by apply swap_words].
    destruct swap; [rewrite length_map|]; by rewrite Hl.
  - eexists code, _. split; [done|]. split; [set_solver|]. split; [done|]. by apply (dec_inv_words u).
Qed.

(** C36. Decoding is safe: for any bytes, with any flags but [UTF_PRECOMPOSED] and
    a buffer of whole characters, [utf8_decodestr] reads only the bytes it is
    given, or up to a NUL where it escapes illegal bytes, always ends with one of
    its codes, and stores 16-bit characters inside the buffer. *)
Theorem utf8_decodestr_safe utf8 utf8len buflen altslash flags :
  bytes_ok utf8 -> 0 <= utf8len < 2 ^ 31 -> 0 <= buflen -> Z.even buflen = true ->
  has_flag flags UTF_PRECOMPOSED = false ->
  (has_flag flags UTF_ESCAPE_ILLEGAL = false /\ utf8len <= Z.of_nat (length utf8)) \/ 0 ∈ utf8 ->
  exists code l, utf8_decodestr utf8 utf8len buflen altslash flags = Some (code, l) /\
    code ∈ [0; EINVAL; ENAMETOOLONG] /\ 2 * Z.of_nat (length l) <= buflen /\ Forall (in_word 16) l.
Proof.
  intros Hb Hn Hbuf Hev Hpre Hread. unfold utf8_decodestr. rewrite Hpre.
  apply ends_decodestr. apply (decode_loop_ends _ _ _ _ _ _ _ _ []); try done; [lia|apply dec_inv_init].
Qed.

(** The result of decoding, for a buffer with the capacity that the loop needs. *)
Definition decodestr_result (flags altslash buflen : Z) (s : list Z) (r : option (Z * list Z)) : Prop :=
  exists code l,
    r = Some (code, if has_flag flags UTF_REVERSE_ENDIAN && bool_decide (code = 0)
                    then map OSSwapInt16 l else l) /\
    (forall cs, Forall scalar cs -> s = utf8_string cs ->
       let units := concat (map (decoded (has_flag flags UTF_DECOMPOSED) altslash) cs) in
       if decide (2 * Z.of_nat (length units) <= buflen) then
         code = 0 /\ rtc reorder units l /\ (Forall regular units -> canonical l) /\
         (has_flag flags UTF_DECOMPOSED = true -> Forall (fun c => unicode_decomposeable c = Some false) l)
       else code = ENAMETOOLONG) /\
    (~ valid_utf8 s -> code = EINVAL \/ code = ENAMETOOLONG).

Lemma decodestr_spec utf8 utf8len buflen altslash flags :
  bytes_ok utf8 -> 0 <= utf8len < 2 ^ 31 -> utf8len <= Z.of_nat (length utf8) ->
  0 <= buflen -> capacity buflen [] utf8len ->
  has_flag flags UTF_PRECOMPOSED = false -> has_flag flags UTF_ESCAPE_ILLEGAL = false ->
  has_flag flags UTF_SFM_CONVERSIONS = false ->
  decodestr_result flags altslash buflen (before_nul (take (Z.to_nat utf8len) utf8))
    (utf8_decodestr utf8 utf8len buflen altslash flags).
Proof.
  intros Hb Hn Hnl Hbuf Hev Hpre Hesc Hsfm. set (s := before_nul _). unfold utf8_decodestr. rewrite Hpre, Hesc, Hsfm.
  destruct (decode_loop_spec (has_flag flags UTF_DECOMPOSED) altslash buflen (S (length utf8)) utf8 utf8len []
    (Decoder [] 0)) as (e & Hrun & Hval & Hbad & Hend); [lia|done|done|done|done|apply dec_inv_init|simpl; lia|].
  fold s in Hval, Hbad. rewrite Hrun, bind_some.
  destruct e as [d|code d]; simpl in Hbad.
  - destruct Hend as (e & [= <-] & [u Hu] & _).
    destruct (dec_inv_result u d Hu) as (l & Hs & _). exists 0, l. rewrite Hs, bind_some, andb_true_r.
    split; [done|]. split; [|by intros [?|?]%Hbad]. intros cs Hcs Heq. specialize (Hval cs Hcs Heq).
    cbv zeta. cbn [app] in Hval. case_decide; [|by destruct Hval]. destruct Hval as (d' & [= <-] & Hinv). simpl in Hinv.
    destruct (dec_inv_result _ d Hinv) as (l' & Hs' & Hr & Hcan & _). rewrite Hs in Hs'. injection Hs' as <-.
    split; [done|]. split; [done|]. split; [done|]. intros Hdec. rewrite Hdec in Hr.
    apply (reorder_Forall _ _ _ Hr).
    apply Forall_concat, Forall_map. apply (Forall_impl _ _ _ Hcs). intros c. apply decoded_not_decomposeable.
  - assert (code <> 0) as Hne by (destruct Hend as (e & [= <-] & _ & _ & Hc); set_solver).
    exists code, (ucs d). rewrite bool_decide_false, andb_false_r by done. split; [done|]. split; [|done].
    intros cs Hcs Heq. specialize (Hval cs Hcs Heq). cbv zeta. cbn [app] in Hval.
    case_decide; [by destruct Hval as (? & ? & _)|]. by destruct Hval as (d' & [= -> _]).
Qed.

(** C7. Decoding is right, without the flags UTF_PRECOMPOSED, UTF_ESCAPE_ILLEGAL and
    UTF_SFM_CONVERSIONS, for inputs of less than 2 GB and buffers of an even size or of
    at least three bytes for each byte of the input (as [utf8_normalizestr] has it; in
    a smaller buffer of odd size a unit can be stored past the end).  A valid
    string is decoded, if it fits, to its characters in UTF-16, decomposed if asked for
    and with the replacements of slash and NUL undone, up to exchanges of
    combining characters as canonical ordering makes them; if the table of
    combining classes and the test for combining characters agree on its characters,
    the result is in canonical order, and with UTF_DECOMPOSED nothing in it can be
    decomposed.  A valid string that does not fit gives [ENAMETOOLONG]; a string
    that is not valid is never accepted. *)
Theorem utf8_decodestr_correct utf8 utf8len buflen altslash flags :
  bytes_ok utf8 -> 0 <= utf8len < 2 ^ 31 -> utf8len <= Z.of_nat (length utf8) ->
  0 <= buflen -> Z.even buflen = true \/ 3 * utf8len <= buflen ->
  has_flag flags UTF_PRECOMPOSED = false -> has_flag flags UTF_ESCAPE_ILLEGAL = false ->
  has_flag flags UTF_SFM_CONVERSIONS = false ->
  let s := before_nul (take (Z.to_nat utf8len) utf8) in
  exists code l, utf8_decodestr utf8 utf8len buflen altslash flags =
      Some (code, if has_flag flags UTF_REVERSE_ENDIAN && bool_decide (code = 0) then map OSSwapInt16 l else l) /\
    (forall cs, Forall scalar cs -> s = utf8_string cs ->
       let units := concat (map (decoded (has_flag flags UTF_DECOMPOSED) altslash) cs) in
       if decide (2 * Z.of_nat (length units) <= buflen) then
         code = 0 /\ rtc reorder units l /\ (Forall regular units -> canonical l) /\
         (has_flag flags UTF_DECOMPOSED = true -> Forall (fun c => unicode_decomposeable c = Some false) l)
       else code = ENAMETOOLONG) /\
    (~ valid_utf8 s -> code = EINVAL \/ code = ENAMETOOLONG).
Proof.
  intros Hb Hn Hnl Hbuf Hev Hpre Hesc Hsfm s. by apply decodestr_spec.
Qed.

(** In a buffer of odd size the second unit of a decomposition, or of a surrogate
    pair, is stored across the end of the buffer: its place is tested with its first
    byte only.  In a buffer that is even smaller the name is too long. *)
Theorem utf8_decodestr_odd_buffer :
  utf8_decodestr [195; 169] 2 3 0 UTF_DECOMPOSED = None /\
  utf8_decodestr [240; 159; 152; 128] 4 3 0 0 = None /\
  utf8_decodestr [195; 169] 2 2 0 UTF_DECOMPOSED = Some (ENAMETOOLONG, [101]).
Proof. split_and!; vm_compute; reflexivity. Qed.

(** The order is not always canonical: the test for combining characters does
    not know some characters that the table gives a combining class, as U+0350,
    and what follows them is not ordered with them. *)
Theorem utf8_decodestr_not_canonical :
  exists utf8 l, valid_utf8 utf8 /\
    utf8_decodestr utf8 (Z.of_nat (length utf8)) 64 0 UTF_DECOMPOSED = Some (0, l) /\ ~ canonical l.
Proof.
  exists [205; 144; 204; 163], [848; 803]. split; [|split; [vm_compute; reflexivity|]].
  - exists [848; 803]. split; [|reflexivity]. repeat constructor; unfold scalar; lia.
  - intros Hcan. apply (Hcan [803; 848]). apply (reorder_swap [] 848 803 []); vm_compute; congruence.
Qed.

(** With [UTF_PRECOMPOSED] a composition that is itself a combining character
    is counted twice in the run: sorting the run then starts before the buffer. *)
Theorem utf8_decodestr_precomposed_fault :
  exists utf8, valid_utf8 utf8 /\
    utf8_decodestr utf8 (Z.of_nat (length utf8)) 64 0 UTF_PRECOMPOSED = None.
Proof.
  exists [224; 167; 135; 224; 166; 190]. split; [|vm_compute; reflexivity].
  exists [2503; 2494]. split; [|reflexivity]. repeat constructor; unfold scalar; lia.
Qed.

(** With [UTF_ESCAPE_ILLEGAL] a sequence that is cut off by the end of the
    input makes the routine read past it: the count is increased by bytes that
    had not been subtracted.  With a NUL after the input, the byte is escaped. *)
Theorem utf8_decodestr_escape_overread :
  utf8_decodestr [195] 1 64 0 UTF_ESCAPE_ILLEGAL = None /\
  utf8_decodestr [195; 65; 0] 1 64 0 UTF_ESCAPE_ILLEGAL = Some (0, bytes_of_string "%C3A").
Proof. split; vm_compute; reflexivity. Qed.

(** An illegal byte is escaped, the rest decoded. *)
Lemma utf8_decodestr_safe_witness :
  exists code l, utf8_decodestr [97; 255; 98; 0] 4 16 0 UTF_ESCAPE_ILLEGAL = Some (code, l) /\
    code ∈ [0; EINVAL; ENAMETOOLONG] /\ 2 * Z.of_nat (length l) <= 16 /\ Forall (in_word 16) l.
Proof.
  apply (utf8_decodestr_safe [97; 255; 98; 0] 4 16 0 UTF_ESCAPE_ILLEGAL);
    [by repeat constructor|lia|lia|done|done|right; set_solver].
Defined.

(** A letter with a dot below and an acute accent, in the other order; the buffer is
    that of [utf8_normalizestr]. *)
Lemma utf8_decodestr_correct_witness :
  utf8_decodestr [225; 185; 163; 204; 129] 5 15 0 UTF_DECOMPOSED = Some (0, [115; 803; 769]) /\
  rtc reorder (concat (map (decoded true 0) [7779; 769])) [115; 803; 769].
Proof.
  destruct (utf8_decodestr_correct [225; 185; 163; 204; 129] 5 15 0 UTF_DECOMPOSED)
    as (code & l & Hrun & Hval & _); [by repeat constructor|lia|simpl; lia|lia|right; lia|done..|].
  specialize (Hval [7779; 769]). cbv zeta in Hval.
  rewrite decide_True in Hval by (vm_compute; congruence).
  destruct Hval as (-> & Hr & _); [by repeat constructor; unfold scalar; lia|vm_compute; reflexivity|].
  vm_compute in Hrun. injection Hrun as <-. split; [vm_compute; reflexivity|exact Hr].
Defined.
