(* ===== verification/Utf8Roundtrip.v ===== *)
(** * Round trip and normalisation

    Decoding what was encoded gives the name back, up to canonical order; and
    [utf8_normalizestr], which decodes and encodes again. *)
From stdpp Require Import relations.
From S2P Require Import Prelude UtfData Unicode Utf8 Utf8Spec Utf8Encode Utf8Decode.

Local Open Scope Z_scope.

(** A character that comes back: neither of the replacements, and no slash where the
    slash has no replacement. *)
Definition returns (altslash c : Z) : Prop :=
  name_char c /\ c <> UCS_ALT_NULL /\ c <> altslash /\ (altslash = 0 -> c <> 47).

Lemma returns_names altslash cs : Forall (returns altslash) cs -> Forall name_char cs.
Proof. intros H. apply (Forall_impl _ _ _ H). by intros c [? _]. Qed.

Lemma returns_accepted altslash cs : Forall (returns altslash) cs -> refusal altslash cs 0 = 0.
Proof.
  intros H. unfold refusal. apply decide_False. intros [H0 H47].
  rewrite Forall_forall in H. destruct (H _ H47) as (_ & _ & _ & Hn). by apply Hn.
Qed.

(** Decoding undoes the replacements. *)
Lemma decoded_replaced altslash c :
  altslash_ok altslash -> altslash <> UCS_ALT_NULL -> returns altslash c ->
  decoded false altslash (replaced altslash c) = utf16_units c.
Proof.
  intros Ha Ha0 (Hc & Hn & Hs & H47).
  unfold decoded, decoded_unit, restored, replaced, utf16_units, name_char, scalar, altslash_ok, UCS_ALT_NULL in *.
  simpl andb. repeat case_decide; try lia; try done; by f_equal; lia.
Qed.

Lemma decoded_name altslash cs :
  altslash_ok altslash -> altslash <> UCS_ALT_NULL -> Forall (returns altslash) cs ->
  concat (map (decoded false altslash) (map (replaced altslash) cs)) = utf16_string cs.
Proof.
  intros Ha Ha0. induction 1 as [|c cs Hc _ IH]; [done|]. simpl. rewrite utf16_string_cons, IH.
  by rewrite decoded_replaced.
Qed.

Lemma canonical_unchanged l l' : canonical l -> rtc reorder l l' -> l' = l.
Proof. intros Hc Hr. inv Hr as [|x y Hxy]; [done|]. by destruct (Hc y). Qed.

Lemma bytes_of_scalars cs : Forall scalar cs -> bytes_ok (utf8_string cs) /\ before_nul (utf8_string cs) = utf8_string cs.
Proof.
  induction 1 as [|c cs Hc _ [IH1 IH2]]; [done|]. rewrite utf8_string_cons. split.
  - apply Forall_app. split; [|done]. destruct (decide (c < 128)).
    + rewrite utf8_bytes_ascii by done. apply Forall_singleton. unfold scalar, in_word in *. lia.
    + destruct (decode_seq_complete c Hc) as (b & p & -> & Hb & Hp & _); [lia|].
      constructor; [unfold in_word; lia|done].
  - rewrite before_nul_app by (by apply utf8_bytes_nonzero). by rewrite IH2.
Qed.

Lemma stored_everything altslash room cs cs1 cs2 :
  stored_prefix altslash room [] cs cs1 cs2 ->
  Z.of_nat (length (utf8_string (map (replaced altslash) cs))) <= room -> cs2 = [] /\ cs1 = cs.
Proof.
  intros (-> & _ & Hfull) Hroom. destruct cs2 as [|c cs2]; [by rewrite app_nil_r|].
  specialize (Hfull c cs2 eq_refl). rewrite map_app, utf8_string_app, !length_app in *. simpl in *.
  rewrite utf8_string_cons, length_app in *. simpl in *. lia.
Qed.

(** A byte below 128 occurs only as itself. *)
Lemma utf8_bytes_no_byte a c : a < 128 -> scalar c -> c <> a -> Forall (fun b => b <> a) (utf8_bytes c).
Proof.
  intros Ha [Hc _] Hne. unfold utf8_bytes.
  destruct (digits64 c) as (x2 & x3 & x4 & m1 & m2 & m3 & -> & -> & -> & -> & -> & -> & ?).
  repeat case_decide; repeat constructor; lia.
Qed.

Lemma utf8_string_no_byte a cs :
  a < 128 -> Forall scalar cs -> a ∉ cs -> a ∉ utf8_string cs.
Proof.
  intros Ha Hcs Hn. induction Hcs as [|c cs Hc _ IH]; [by apply not_elem_of_nil|].
  rewrite utf8_string_cons, not_elem_of_app. split; [|apply IH; set_solver].
  intros Hin. assert (c <> a) as Hne by set_solver.
  pose proof (utf8_bytes_no_byte a c Ha Hc Hne) as Hall. rewrite Forall_forall in Hall. by apply (Hall a).
Qed.

Lemma map_swap_if (b : bool) l : (if b then map OSSwapInt16 l else l) = map (swap_if b) l.
Proof. destruct b; [done|]. symmetry. apply map_id. Qed.

(** C24. Round trip of names, with none of the flags UTF_DECOMPOSED, UTF_PRECOMPOSED,
    UTF_ESCAPE_ILLEGAL and UTF_SFM_CONVERSIONS: a name in UTF-16, of either byte
    order, is encoded, with a buffer that is large enough, to UTF-8 without NUL and (if
    [altslash] is not the slash itself) without slash, and decoding that into a buffer
    of even size gives the characters of the name back, after some of the exchanges of
    combining characters that canonical ordering makes.  A name that is in canonical
    order is unchanged; the result is in canonical order if the table of combining
    classes and the test for combining characters agree on the characters, and need
    not be otherwise.  The name consists of NULs and Unicode scalar values other than
    U+FFFE and U+FFFF, without U+2400, which stands for NUL, without the character
    [altslash], and without slash if [altslash] is 0; [altslash] is 0 or a scalar value
    of one code unit other than U+2400. *)
Theorem utf8_names_roundtrip cs altslash flags buflen ucslen :
  has_flag flags UTF_DECOMPOSED = false -> has_flag flags UTF_PRECOMPOSED = false ->
  has_flag flags UTF_ESCAPE_ILLEGAL = false -> has_flag flags UTF_SFM_CONVERSIONS = false ->
  altslash_ok altslash -> altslash <> UCS_ALT_NULL -> Forall (returns altslash) cs ->
  let ucs := map (swap_if (has_flag flags UTF_REVERSE_ENDIAN)) in
  let utf8 := utf8_string (map (replaced altslash) cs) in
  Z.of_nat (length utf8) < buflen -> Z.of_nat (length utf8) < 2 ^ 31 ->
  2 * Z.of_nat (length (utf16_string cs)) <= ucslen -> Z.even ucslen = true ->
  utf8_encodestr (ucs (utf16_string cs)) buflen altslash flags = Some (0, utf8) /\
  (altslash <> 47 -> ~ 47 ∈ utf8) /\ ~ 0 ∈ utf8 /\
  exists l, utf8_decodestr utf8 (Z.of_nat (length utf8)) ucslen altslash flags = Some (0, ucs l) /\
    rtc reorder (utf16_string cs) l /\ (canonical (utf16_string cs) -> l = utf16_string cs) /\
    (Forall regular (utf16_string cs) -> canonical l).
Proof.
  intros Hd Hp He Hs Ha Ha0 Hcs ucs utf8 Hbuf Hint Hlen Hev. pose proof (returns_names _ _ Hcs) as Hnc.
  assert (Forall scalar (map (replaced altslash) cs)) as Hsc.
  { apply Forall_map. apply (Forall_impl _ _ _ Hnc). intros c. by apply replaced_scalar. }
  destruct (bytes_of_scalars _ Hsc) as [Hok Hnul]. fold utf8 in Hok, Hnul.
  split.
  { destruct (encodestr_names cs buflen altslash flags) as (cs1 & cs2 & Hst & Hrun); [done..|lia|intros; lia|].
    apply stored_everything in Hst as [-> ->]; [unfold ucs; by rewrite Hrun, returns_accepted|]. fold utf8. destruct (has_flag flags UTF_NO_NULL_TERM); lia. }
  split.
  { intros H47. apply utf8_string_no_byte; [done|done|]. intros (c & Hc & _)%list_elem_of_fmap.
    unfold replaced, UCS_ALT_NULL in Hc. repeat case_decide; congruence. }
  split. { intros H0. apply (utf8_string_no_byte 0 (map (replaced altslash) cs)); [done|done| |done].
    intros Hin. rewrite Forall_forall in Hsc. destruct (Hsc 0 Hin). lia. }
  destruct (decodestr_spec utf8 (Z.of_nat (length utf8)) ucslen altslash flags)
    as (code & l & Hrun & Hval & _); try done; [lia|lia|by left|].
  rewrite Nat2Z.id, firstn_all in Hval. specialize (Hval _ Hsc Hnul). rewrite Hd, decoded_name in Hval by done.
  cbv zeta in Hval. rewrite decide_True in Hval by done. destruct Hval as (-> & Hr & Hreg & _).
  exists l. rewrite Hrun, andb_true_r, map_swap_if. split; [done|]. split; [done|].
  split; [|done]. intros Hcan. by apply canonical_unchanged.
Qed.

(** A name with a slash and a combining accent, in the opposite byte order. *)
Lemma utf8_names_roundtrip_witness :
  exists l, utf8_decodestr [58; 101; 204; 129] 4 6 58 UTF_REVERSE_ENDIAN = Some (0, map OSSwapInt16 l) /\
    rtc reorder [47; 101; 769] l.
Proof.
  destruct (utf8_names_roundtrip [47; 101; 769] 58 UTF_REVERSE_ENDIAN 8 6) as (_ & _ & _ & l & Hrun & Hr & _);
    [done..|right; unfold scalar; lia|done| |vm_compute; congruence|vm_compute; congruence|simpl; lia|done|].
  { repeat constructor; unfold name_char, scalar, UCS_ALT_NULL; lia. }
  exists l. split; [exact Hrun|exact Hr].
Defined.
