(* ===== verification/Utf8Normalize.v ===== *)
(** * Normalisation

    [utf8_normalizestr] copies ASCII, and decodes and encodes again anything else. *)
From stdpp Require Import relations.
From S2P Require Import Prelude UtfData Unicode Utf8 Utf8Spec Utf8Valid Utf8Decode.

Local Open Scope Z_scope.

(** ** The encoder on any 16-bit characters *)

Section encode_any.
Context (sw : bool) (altslash buflen bufend : Z).
Hypothesis Hend : bufend <= buflen.

Lemma encode_char_total v input out :
  exists e, encode_char sw false bufend v [] input out = Some e /\
    (e = EncStop EINVAL \/
     exists bytes input', e = fits bufend out bytes input' /\ (length input' <= length input)%nat).
Proof.
  unfold encode_char.
  assert (forall bytes, exists e, Some (fits bufend out bytes input) = Some e /\ (e = EncStop EINVAL \/
     exists bytes input', e = fits bufend out bytes input' /\ (length input' <= length input)%nat)) as Hf.
  { intros bytes. eexists. split; [done|]. right. by exists bytes, input. }
  case_decide; [apply Hf|]. case_decide; [apply Hf|].
  case_decide; [eexists; split; [done|by left]|]. case_decide as Hsp; [|apply Hf].
  destruct Hsp as (_ & _ & [?|Hin]); [done|]. destruct input as [|c input]; [done|]. rewrite bind_some.
  case_decide; [|apply Hf]. eexists. split; [done|]. right. eexists _, input. split; [done|simpl; lia].
Qed.

Lemma encode_loop_total fuel input out result :
  (length input < fuel)%nat -> Z.of_nat (length out) <= bufend -> result ∈ [0; EINVAL; ENAMETOOLONG] ->
  exists code out', encode_loop sw false false altslash buflen bufend fuel [] input out result =
      Some (code, out') /\ Z.of_nat (length out') <= bufend /\ code ∈ [0; EINVAL; ENAMETOOLONG].
Proof.
  revert input out result. induction fuel as [|fuel IH]; intros input out result Hf Hout Hres; [lia|].
  destruct input as [|c input]; [by exists result, out|]. cbn [encode_loop next_char]. rewrite !bind_some.
  assert (exists v result', encode_replace altslash (swap_if sw c) result = (v, result') /\
    result' ∈ [0; EINVAL; ENAMETOOLONG]) as (v & result' & -> & Hres').
  { unfold encode_replace. repeat case_decide; eexists _, _; split; (done || set_solver). }
  destruct (encode_char_total v input out) as (e & -> & Hcase). rewrite bind_some.
  destruct Hcase as [->|(bytes & input' & -> & Hlen)].
  { eexists EINVAL, out. split; [done|]. split; [done|set_solver]. }
  unfold fits. case_decide. { exists ENAMETOOLONG, out. split; [done|]. split; [done|set_solver]. }
  unfold emit. rewrite decide_True, bind_some by lia. simpl in Hf.
  apply IH; [lia|rewrite length_app; lia|done].
Qed.
End encode_any.

Lemma encodestr_total ucs buflen :
  0 <= buflen ->
  exists code out, utf8_encodestr ucs buflen 0 UTF_NO_NULL_TERM = Some (code, out) /\
    Z.of_nat (length out) <= buflen /\ code ∈ [0; EINVAL; ENAMETOOLONG].
Proof.
  intros Hb. unfold utf8_encodestr. change (has_flag UTF_NO_NULL_TERM UTF_NO_NULL_TERM) with true.
  destruct (encode_loop_total false 0 buflen buflen ltac:(lia) (S (4 * length ucs)) ucs [] 0)
    as (code & out & Hrun & Hlen & Hc); [lia|simpl; lia|set_solver|].
  exists code, out. split; [|done]. simpl negb. cbv iota.
  change (has_flag UTF_NO_NULL_TERM UTF_REVERSE_ENDIAN) with false.
  change (has_flag UTF_NO_NULL_TERM UTF_DECOMPOSED) with false.
  change (has_flag UTF_NO_NULL_TERM UTF_SFM_CONVERSIONS) with false. by rewrite Hrun.
Qed.

(** ** The ASCII prefix *)

Definition ascii (b : Z) : Prop := b < 128.

Lemma normalize_ascii_spec fuel p n buflen out :
  bytes_ok p -> 0 <= n <= Z.of_nat (length p) -> (length p < fuel)%nat -> Z.of_nat (length out) <= buflen ->
  exists e, normalize_ascii fuel p n buflen out = Some e /\
    let s := before_nul (take (Z.to_nat n) p) in
    match e with
    | AsciiDone out' => out' = out ++ s /\ Forall ascii s /\ Z.of_nat (length (out ++ s)) <= buflen
    | AsciiLong out' => Z.of_nat (length out') <= buflen /\ buflen < Z.of_nat (length (out ++ s))
    | NonAscii out' => Z.of_nat (length out') <= buflen /\ ~ Forall ascii s
    end.
Proof.
  revert p n out. induction fuel as [|fuel IH]; intros p n out Hp Hn Hf Hout; [lia|]. cbn [normalize_ascii].
  case_decide. { replace n with 0 by lia. eexists. split; [done|]. simpl. by rewrite app_nil_r. }
  destruct p as [|b p]; [simpl in Hn; lia|]. apply Forall_cons_1 in Hp as [Hb Hp]. simpl in Hn, Hf.
  replace (Z.to_nat n) with (S (Z.to_nat (n - 1))) by lia. cbn [take before_nul].
  case_decide. { eexists. split; [done|]. simpl. by rewrite app_nil_r. }
  case_decide. { eexists. split; [done|]. simpl. rewrite length_app. simpl. lia. }
  case_decide. { eexists. split; [done|]. simpl. split; [done|]. intros Hall.
    apply Forall_cons_1 in Hall as [Hall _]. unfold ascii in Hall. lia. }
  destruct (IH p (n - 1) (out ++ [b])) as (e & -> & He); [done|lia|lia|rewrite length_app; simpl; lia|].
  exists e. split; [done|]. cbv zeta in *. destruct e; rewrite <-?app_assoc in He; simpl app in He.
  - destruct He as (-> & Hall & Hl). split_and!; try done. constructor; [unfold ascii; lia|done].
  - done.
  - destruct He as [Hl Hall]. split; [done|]. intros Hc. by apply Forall_cons_1 in Hc as [_ ?].
Qed.

(** ** Flags *)

(** The flags that are accepted: one of the two forms, with or without the NUL and
    the escapes. *)
Definition normal_flags : list Z := [4; 6; 8; 10; 20; 22; 24; 26].

Lemma normal_flags_known flags :
  flags ∈ normal_flags <->
  Z.land flags (Z.lnot (Z.lor (Z.lor (Z.lor UTF_DECOMPOSED UTF_PRECOMPOSED) UTF_NO_NULL_TERM) UTF_ESCAPE_ILLEGAL)) = 0 /\
  eqb (has_flag flags UTF_DECOMPOSED) (has_flag flags UTF_PRECOMPOSED) = false.
Proof.
  change (Z.lor (Z.lor (Z.lor UTF_DECOMPOSED UTF_PRECOMPOSED) UTF_NO_NULL_TERM) UTF_ESCAPE_ILLEGAL) with 30.
  split.
  - intros Hin. repeat (apply elem_of_cons in Hin as [->|Hin]; [by vm_compute|]). by apply elem_of_nil in Hin.
  - intros [Hk Hb]. assert (flags = Z.land flags 30) as Hf.
    { rewrite <-(Z.lor_ldiff_and flags 30) at 1. by rewrite Z.ldiff_land, Hk. }
    assert (0 <= flags) as H0 by (rewrite Hf, Z.land_comm; apply Z.land_nonneg; lia).
    assert (0 <= flags < 32) as Hr.
    { rewrite Hf, Z.land_comm. by apply (in_word_land 5 30 flags). }
    assert (forallb (fun f => implb (bool_decide (f = Z.land f 30) &&
      negb (eqb (has_flag f UTF_DECOMPOSED) (has_flag f UTF_PRECOMPOSED)))
      (bool_decide (f ∈ normal_flags))) (seqZ 0 32) = true) as Hall by (vm_compute; reflexivity).
    rewrite forallb_forall in Hall. specialize (Hall flags). rewrite <-list_elem_of_In, elem_of_seqZ in Hall.
    specialize (Hall ltac:(lia)). rewrite Hb, bool_decide_true in Hall by done. simpl in Hall.
    by apply bool_decide_eq_true in Hall.
Qed.

(** ** Properties *)

(** ASCII is normal: with the flags it knows, [utf8_normalizestr] copies an
    ASCII string unchanged, or reports that it does not fit with its NUL; with
    any other flags it reports [EINVAL] and leaves the output alone. *)
Theorem utf8_normalizestr_ascii instr inlen buflen flags :
  bytes_ok instr -> 0 <= inlen <= Z.of_nat (length instr) -> 0 <= buflen ->
  let s := before_nul (take (Z.to_nat inlen) instr) in
  let room := if has_flag flags UTF_NO_NULL_TERM then buflen else buflen - 1 in
  (~ flags ∈ normal_flags -> utf8_normalizestr instr inlen buflen flags = Some (EINVAL, None, [])) /\
  (flags ∈ normal_flags -> Forall ascii s ->
     exists out, utf8_normalizestr instr inlen buflen flags =
         Some (if decide (Z.of_nat (length s) <= room) then 0 else ENAMETOOLONG, Some out, []) /\
       Z.of_nat (length out) <= buflen /\ (Z.of_nat (length s) <= room -> out = s)).
Proof.
  intros Hb Hn Hbuf s room. unfold utf8_normalizestr. split.
  { intros Hf. case_decide; [done|]. destruct (eqb _ _) eqn:Hd; [done|]. destruct Hf.
    apply normal_flags_known. split; [lia|done]. }
  intros Hf Hs. apply normal_flags_known in Hf as [Hk Hd].
  destruct (normalize_ascii_spec (S (length instr)) instr inlen buflen []) as (e & Hrun & He);
    [done|done|lia|simpl; lia|]. fold s in He. cbv zeta in He. simpl app in He.
  rewrite decide_False, Hd, Hrun, bind_some by tauto. unfold normalize_exit, room.
  destruct e as [out|out|out]; [|exists out|by destruct He].
  - destruct He as (-> & _ & Hl). exists s. split; [|done].
    destruct (has_flag flags UTF_NO_NULL_TERM); simpl negb; simpl andb.
    + by rewrite decide_True by lia.
    + case_bool_decide; [rewrite decide_False by lia|rewrite decide_True by lia]; done.
  - destruct He as [Hl Hlong]. split; [|split; [done|destruct (has_flag _ _); lia]].
    rewrite (decide_False (P := Z.of_nat (length s) <= _)) by (destruct (has_flag _ _); lia).
    by destruct (negb _ && _).
Qed.

(** Whether a string is valid is decided by the validator. *)
Lemma valid_utf8_decide utf8 n :
  bytes_ok utf8 -> 0 <= n <= Z.of_nat (length utf8) ->
  valid_utf8 (before_nul (take (Z.to_nat n) utf8)) \/ ~ valid_utf8 (before_nul (take (Z.to_nat n) utf8)).
Proof. intros Hb Hn. destruct (validate_loop_spec (S (length utf8)) utf8 n) as [[_ ?]|[_ ?]]; auto. Qed.

Lemma ascii_valid s : bytes_ok s -> Forall (fun b => b <> 0) s -> Forall ascii s -> valid_utf8 s.
Proof.
  intros Hb Hn Ha. induction s as [|b s IH]; [by exists []|]. unfold ascii in Ha.
  apply Forall_cons_1 in Hb as [Hb Hb'], Hn as [Hn Hn'], Ha as [Ha Ha']. rewrite byte_ok_range in Hb.
  apply valid_utf8_ascii; [lia|]. by apply IH.
Qed.

Lemma decoded_string_length decompose altslash cs :
  Forall scalar cs ->
  (2 * length (concat (map (decoded decompose altslash) cs)) <= 3 * length (utf8_string cs))%nat.
Proof.
  induction 1 as [|c cs Hc _ IH]; [done|]. simpl. rewrite utf8_string_cons, !length_app.
  pose proof (proj2 (decoded_length decompose altslash c Hc)). lia.
Qed.

Lemma before_nul_length l : (length (before_nul l) <= length l)%nat.
Proof. induction l as [|b l IH]; simpl; [done|]. case_decide; simpl; lia. Qed.

Lemma before_nul_ok l : bytes_ok l -> bytes_ok (before_nul l) /\ Forall (fun b => b <> 0) (before_nul l).
Proof. induction 1 as [|b l Hb _ [IH1 IH2]]; simpl; [done|]. case_decide; [done|]. by split; constructor. Qed.

(** The decoding step of the normalisation: a valid string always fits in the
    buffer of three bytes for each byte. *)
Lemma normalize_decode instr inlen :
  bytes_ok instr -> 0 <= inlen <= Z.of_nat (length instr) -> inlen < 2 ^ 31 ->
  exists code l, utf8_decodestr instr inlen (inlen * 3) 0 UTF_DECOMPOSED = Some (code, l) /\
    code ∈ [0; EINVAL; ENAMETOOLONG] /\
    (code = 0 <-> valid_utf8 (before_nul (take (Z.to_nat inlen) instr))).
Proof.
  intros Hb Hn Hi.
  destruct (decodestr_spec instr inlen (inlen * 3) 0 UTF_DECOMPOSED) as (code & l & Hrun & Hval & Hbad);
    [done|lia|lia|lia|right; simpl; lia|done|done|done|].
  simpl andb in Hrun. exists code, l. split; [done|].
  destruct (valid_utf8_decide instr inlen Hb Hn) as [Hv|Hv].
  - destruct Hv as (cs & Hcs & Hs). specialize (Hval cs Hcs Hs).
    pose proof (decoded_string_length true 0 cs Hcs) as Hl. rewrite <-Hs in Hl.
    pose proof (before_nul_length (take (Z.to_nat inlen) instr)) as Hl2. rewrite length_take in Hl2.
    cbv zeta in Hval. rewrite decide_True in Hval by (change (has_flag _ _) with true; lia).
    destruct Hval as (-> & _). split; [set_solver|]. split; [|done]. intros _. by exists cs.
  - specialize (Hbad Hv). split; [set_solver|]. split; [|done]. intros ->. by destruct Hbad.
Qed.

Lemma normalize_exit_code result buflen flags out :
  result ∈ [0; EINVAL; ENAMETOOLONG] ->
  exists code, normalize_exit result buflen flags out = (code, out) /\
    code ∈ [0; EINVAL; ENAMETOOLONG] /\ (code = 0 -> result = 0).
Proof.
  intros Hr. unfold normalize_exit. destruct (negb _ && _); eexists; (split; [done|]).
  - split; [set_solver|done].
  - done.
Qed.

(** Normalisation to decomposed form ends without a fault on any bytes, keeps
    inside the output buffer and succeeds only on valid strings; and the buffer
    it computes for the decoded characters, three bytes for each byte of the
    input, is enough for every valid string. *)
Theorem utf8_normalizestr_decomposed instr inlen buflen flags :
  bytes_ok instr -> 0 <= inlen <= Z.of_nat (length instr) -> 0 <= buflen ->
  flags = UTF_DECOMPOSED \/ flags = Z.lor UTF_DECOMPOSED UTF_NO_NULL_TERM ->
  let s := before_nul (take (Z.to_nat inlen) instr) in
  (exists code out heap, utf8_normalizestr instr inlen buflen flags = Some (code, Some out, heap) /\
     code ∈ [0; EINVAL; ENAMETOOLONG] /\ Z.of_nat (length out) <= buflen /\ (code = 0 -> valid_utf8 s)) /\
  (valid_utf8 s -> inlen <= MAXPATHLEN ->
     exists l, utf8_decodestr instr inlen (inlen * 3) 0 UTF_DECOMPOSED = Some (0, l)).
Proof.
  intros Hb Hn Hbuf Hf s. split.
  2: { intros Hv Hmax. destruct (normalize_decode instr inlen) as (code & l & Hrun & _ & Hc);
         [done|done|unfold MAXPATHLEN in Hmax; lia|]. apply Hc in Hv as ->. by exists l. }
  assert (flags ∈ normal_flags /\ has_flag flags UTF_PRECOMPOSED = false /\
    Z.land flags (Z.lnot UTF_NO_NULL_TERM) = UTF_DECOMPOSED) as (Hnf & Hp & Hl)
    by (destruct Hf as [-> | ->]; split; [set_solver|done|set_solver|done]).
  apply normal_flags_known in Hnf as [Hk Hd]. unfold utf8_normalizestr.
  rewrite decide_False, Hd, Hp, Hl by tauto.
  assert (forall result out (heap : list heap_call) (P : Prop), result ∈ [0; EINVAL; ENAMETOOLONG] ->
    Z.of_nat (length out) <= buflen -> (result = 0 -> P) ->
    exists code out' heap',
      (let '(result, out) := normalize_exit result buflen flags out in Some (result, Some out, heap)) =
        Some (code, Some out', heap') /\
      code ∈ [0; EINVAL; ENAMETOOLONG] /\ Z.of_nat (length out') <= buflen /\ (code = 0 -> P)) as Hfin.
  { intros result out heap P Hr Ho HP. destruct (normalize_exit_code result buflen flags out Hr) as (code & -> & Hc & H0).
    exists code, out, heap. split; [done|]. split; [done|]. split; [done|]. intros Hz. by apply HP, H0. }
  destruct (normalize_ascii_spec (S (length instr)) instr inlen buflen []) as (e & Hrun & He);
    [done|done|lia|simpl; lia|]. fold s in He. cbv zeta in He. simpl app in He. rewrite Hrun, bind_some.
  destruct (before_nul_ok (take (Z.to_nat inlen) instr)) as [Hsb Hsn]; [by apply Forall_take|].
  destruct e as [out|out|out].
  - destruct He as (-> & Ha & Ho). apply Hfin; [set_solver|done|]. intros _. by apply ascii_valid.
  - destruct He as [Ho _]. apply Hfin; [set_solver|done|done].
  - destruct He as [Ho _]. case_decide as Hmax; [apply Hfin; [set_solver|done|done]|].
    destruct (normalize_decode instr inlen) as (code & l & -> & Hc & Hv); [done|done|unfold MAXPATHLEN in Hmax; lia|].
    rewrite bind_some. case_decide as H0; [|apply Hfin; [done|done|done]].
    destruct (encodestr_total l buflen Hbuf) as (code' & out' & -> & Ho' & Hc'). rewrite bind_some.
    apply Hfin; [done|done|]. intros _. by apply Hv.
Qed.

(** The heap buffer is freed with another size than it was allocated with:
    the decoder overwrites the size with that of its result. *)
Theorem utf8_normalizestr_frees_other_size :
  exists instr out allocated freed,
    utf8_normalizestr instr (Z.of_nat (length instr)) 1024 UTF_DECOMPOSED =
      Some (0, Some out, [KallocData allocated; KfreeData freed]) /\ allocated <> freed.
Proof.
  exists (replicate 22 97 ++ [195; 169]), (replicate 22 97 ++ [101; 204; 129]), 72, 48.
  split; [vm_compute; reflexivity|done].
Qed.

(** A slash is normal in ASCII, but next to other characters it is replaced
    and reported as illegal; so is the replacement character of NUL. *)
Theorem utf8_normalizestr_slash :
  utf8_normalizestr [101; 47] 2 64 UTF_DECOMPOSED = Some (0, Some [101; 47], []) /\
  utf8_normalizestr [195; 169; 47] 3 64 UTF_DECOMPOSED = Some (EINVAL, Some [101; 204; 129; 95], []) /\
  valid_utf8 [226; 144; 128] /\
  utf8_normalizestr [226; 144; 128] 3 64 UTF_DECOMPOSED = Some (EINVAL, Some [95], []).
Proof.
  split; [vm_compute; reflexivity|]. split; [vm_compute; reflexivity|].
  split; [|vm_compute; reflexivity]. exists [9216]. split; [|reflexivity].
  repeat constructor; unfold scalar; lia.
Qed.

Lemma utf8_normalizestr_ascii_witness :
  utf8_normalizestr [97; 98; 0] 3 3 UTF_DECOMPOSED = Some (0, Some [97; 98], []).
Proof.
  destruct (utf8_normalizestr_ascii [97; 98; 0] 3 3 UTF_DECOMPOSED) as [_ H];
    [by repeat constructor|simpl; lia|lia|].
  destruct H as (out & -> & _ & Hout); [set_solver|by repeat constructor|].
  rewrite Hout by (vm_compute; congruence). reflexivity.
Defined.

Lemma utf8_normalizestr_decomposed_witness :
  exists code out heap, utf8_normalizestr [195; 169; 255] 3 8 UTF_DECOMPOSED = Some (code, Some out, heap) /\
    Z.of_nat (length out) <= 8.
Proof.
  destruct (utf8_normalizestr_decomposed [195; 169; 255] 3 8 UTF_DECOMPOSED)
    as [(code & out & heap & Hrun & _ & Hlen & _) _];
    [by repeat constructor|simpl; lia|lia|by left|].
  exists code, out, heap. by split.
Defined.
