(* ===== verification/Clist.v ===== *)
(** * Terminal character queues

    The clists of [bsd/kern/tty_subr.c]: ring buffers of characters, each with a
    quote bit kept in a bitmap.  A pointer into the ring is an offset from its
    start, [None] being the null pointer.  The queues are shown to implement a
    bounded double-ended queue for every sequence of operations, the bitmap
    routine to clear exactly the bits it is asked to, and the walk of [firstc]
    and [nextc] to visit the queue in order; [kmoutput] of [bsd/dev/i386/km.c] is
    the client that drains the output queue. *)
From S2P Require Import Prelude.
From stdpp Require Import relations.

Local Open Scope Z_scope.

Definition NBBY : Z := 8.
Definition INT_MAX : Z := 2147483647.
Abbreviation TTY_QUOTE := (256)%Z.

(** The bytes that hold [n] quote bits. *)
Definition QMEM (n : Z) : Z := (n - 1) / NBBY + 1.

(** The object a pointer to the start of a ring refers to: none, one that is
    allocated, or one that was freed and may not be used any more. *)
Inductive object := Null | Live (bytes : list Z) | Freed.

Definition contents (o : object) : option (list Z) :=
  match o with Live l => Some l | _ => None end.

Record clist := Clist {
  c_cc : Z;
  c_cn : Z;
  c_cf : option Z;
  c_cl : option Z;
  c_cs : object;
  c_ce : Z;
  c_cq : option (list Z)
}.

(** ** Bit maps: the macros of [sys/param.h] *)

Definition setbit (a : list Z) (i : Z) : option (list Z) :=
  b ← zget a (i / NBBY); zset a (i / NBBY) (u8 (Z.lor b (Z.shiftl 1 (i mod NBBY)))).

Definition clrbit (a : list Z) (i : Z) : option (list Z) :=
  b ← zget a (i / NBBY); zset a (i / NBBY) (u8 (Z.land b (Z.lnot (Z.shiftl 1 (i mod NBBY))))).

Definition isset (a : list Z) (i : Z) : option bool :=
  b ← zget a (i / NBBY); Some (bool_decide (Z.land b (Z.shiftl 1 (i mod NBBY)) <> 0)).

(** [cp[i] &= mask]. *)
Definition and_byte (cp : list Z) (i mask : Z) : option (list Z) :=
  b ← zget cp i; zset cp i (u8 (Z.land b mask)).

Definition clrbits (cp : list Z) (off len : Z) : option (list Z) :=
  if decide (len = 1) then clrbit cp off else
  let sby := off / NBBY in
  let sbi := off mod NBBY in
  let eby := (off + len) / NBBY in
  let ebi := (off + len) mod NBBY in
  if decide (sby = eby) then
    let mask := u8 (Z.shiftl (Z.shiftl 1 (ebi - sbi) - 1) sbi) in
    and_byte cp sby (Z.lnot mask)
  else
    let mask := u8 (Z.shiftl 1 sbi - 1) in
    cp ← and_byte cp sby mask;
    let sby := sby + 1 in
    let mask := u8 (Z.shiftl 1 ebi - 1) in
    cp ← (if decide (mask <> 0) then and_byte cp eby (Z.lnot mask) else Some cp);
    for_range (Z.to_nat (eby - sby)) (fun i cp => zset cp (sby + Z.of_nat i) 0) cp.

(** ** Memory *)

(** [bcopy] of [n] bytes, from an offset of one object to an offset of another. *)
Definition bcopy (src : list Z) (s : Z) (dst : list Z) (d n : Z) : option (list Z) :=
  if decide (0 <= s /\ 0 <= n /\ s + n <= Z.of_nat (length src)
             /\ 0 <= d /\ d + n <= Z.of_nat (length dst))
  then Some (take (Z.to_nat d) dst ++ take (Z.to_nat n) (drop (Z.to_nat s) src)
             ++ drop (Z.to_nat (d + n)) dst)
  else None.

(** The kernel heap: whether each of the next requests succeeds (all do once the
    list is used up), and the sizes freed so far, the last one first. *)
Record kheap := KHeap { answers : list bool; freed : list Z }.

(** [kalloc_data(size, Z_WAITOK | Z_ZERO)]. *)
Definition kalloc_data (size : Z) (h : kheap) : option (list Z) * kheap :=
  (if default true (head (answers h)) then Some (replicate (Z.to_nat size) 0) else None,
   KHeap (tail (answers h)) (freed h)).

Definition kfree_data (size : Z) (h : kheap) : kheap := KHeap (answers h) (size :: freed h).

(** ** Operations *)

Definition set_cc (c : clist) (cc : Z) : clist :=
  Clist cc (c_cn c) (c_cf c) (c_cl c) (c_cs c) (c_ce c) (c_cq c).
Definition set_cf (c : clist) (cf : option Z) : clist :=
  Clist (c_cc c) (c_cn c) cf (c_cl c) (c_cs c) (c_ce c) (c_cq c).
Definition set_cl (c : clist) (cl : option Z) : clist :=
  Clist (c_cc c) (c_cn c) (c_cf c) cl (c_cs c) (c_ce c) (c_cq c).
Definition set_cs (c : clist) (cs : object) : clist :=
  Clist (c_cc c) (c_cn c) (c_cf c) (c_cl c) cs (c_ce c) (c_cq c).
Definition set_cq (c : clist) (cq : option (list Z)) : clist :=
  Clist (c_cc c) (c_cn c) (c_cf c) (c_cl c) (c_cs c) (c_ce c) cq.

(** The offset of a pointer that the code dereferences or moves. *)
Abbreviation offset p := (p : option Z).

Definition clalloc (c : clist) (size : Z) (quot : bool) (h : kheap) : Z * clist * kheap :=
  let '(cs, h) := kalloc_data size h in
  match cs with
  | None => (-1, set_cs c Null, h)
  | Some cs =>
      let c := set_cs c (Live cs) in
      let ready c := Clist 0 size None None (c_cs c) size (c_cq c) in
      if quot then
        let '(cq, h) := kalloc_data (QMEM size) h in
        let c := set_cq c cq in
        match cq with
        | None => (-1, set_cs c Freed, kfree_data size h)
        | Some _ => (0, ready c, h)
        end
      else (0, ready (set_cq c None), h)
  end.

Definition clfree (c : clist) (h : kheap) : clist * kheap :=
  let h := match c_cs c with Null => h | _ => kfree_data (c_cn c) h end in
  let h := match c_cq c with Some _ => kfree_data (QMEM (c_cn c)) h | None => h end in
  (set_cq (set_cs c Null) None, h).

(** [*p & 0xff], with [TTY_QUOTE] when the ring has quote bits and the one of [p]
    is set. *)
Definition cell (c : clist) (p : Z) : option Z :=
  cs ← contents (c_cs c);
  b ← zget cs p;
  let ch := Z.land b 255 in
  match c_cq c with
  | None => Some ch
  | Some cq => q ← isset cq p; Some (if (q : bool) then Z.lor ch TTY_QUOTE else ch)
  end.

(** A pointer that reached the end of the ring goes back to its start. *)
Definition wrapped (c : clist) (p : Z) : Z := if decide (p = c_ce c) then 0 else p.

(** [if (clp->c_cc == 0) clp->c_cf = clp->c_cl = 0]. *)
Definition reset_if_empty (c : clist) : clist :=
  if decide (c_cc c = 0) then set_cl (set_cf c None) None else c.

Definition getc (c : clist) : option (Z * clist) :=
  if decide (c_cc c = 0) then Some (-1, c) else
  f ← offset (c_cf c);
  ch ← cell c f;
  let c := set_cf c (Some (wrapped c (f + 1))) in
  Some (ch, reset_if_empty (set_cc c (c_cc c - 1))).

(** The size of the next run of [q_to_b] and [ndflush]: what is contiguous from
    [c_cf], at most [count]. *)
Definition drain_run (c : clist) (f l count : Z) : Z :=
  let cc := u64 (l - f) in
  let cc := if decide (l <= f) then u64 (c_ce c - f) else cc in
  if decide (INT_MAX < cc \/ count < cc) then count else cc.

Definition drained (c : clist) (f cc : Z) : clist :=
  let c := set_cc c (c_cc c - cc) in
  set_cf c (Some (wrapped c (f + cc))).

Fixpoint q_to_b_loop (fuel : nat) (c : clist) (buf : list Z) (p count : Z)
    : option (clist * list Z * Z) :=
  match fuel with
  | O => None
  | S fuel =>
      if decide (0 < count /\ 0 < c_cc c) then
        l ← offset (c_cl c);
        f ← offset (c_cf c);
        let cc := drain_run c f l count in
        cs ← contents (c_cs c);
        buf ← bcopy cs f buf p cc;
        q_to_b_loop fuel (drained c f cc) buf (p + cc) (count - cc)
      else Some (c, buf, p)
  end.

(** [buf] is the object [cp] points to. *)
Definition q_to_b (c : clist) (buf : list Z) (count : Z) : option (Z * clist * list Z) :=
  '(c, buf, p) ← q_to_b_loop (S (Z.to_nat count)) c buf 0 count;
  Some (Z.min INT_MAX p, reset_if_empty c, buf).

(** The loops of [ndqb]; [stop] says whether the character at [i], the counter
    being [i + 1] when the quote bit is looked up, ends the run. *)
Fixpoint ndqb_loop (cc : nat) (c : clist) (stop : Z -> option bool) (i count : Z) : option Z :=
  match cc with
  | O => Some count
  | S cc =>
      s ← stop i;
      if (s : bool) then Some count
      else if decide (i + 1 = c_cn c) then Some (count + 1)
      else ndqb_loop cc c stop (i + 1) (count + 1)
  end.

Definition ndqb_quoted (c : clist) (flag i : Z) : option bool :=
  cs ← contents (c_cs c);
  b ← zget cs i;
  if decide (Z.land b (Z.land flag (Z.lnot TTY_QUOTE)) <> 0) then Some true
  else cq ← c_cq c; isset cq (i + 1).

Definition ndqb_plain (c : clist) (flag i : Z) : option bool :=
  cs ← contents (c_cs c);
  b ← zget cs i;
  Some (bool_decide (Z.land b flag <> 0)).

(** [count] is a [size_t]: a difference below 0 is a number above [INT_MAX]. *)
Definition ndqb (c : clist) (flag : Z) : option Z :=
  let out count := Some (if decide (INT_MAX < count) then 0 else count) in
  if decide (c_cc c = 0) then out 0 else
  if decide (flag = 0) then
    l ← offset (c_cl c);
    f ← offset (c_cf c);
    let count := u64 (l - f) in
    out (if decide (count = 0) then u64 (c_ce c - f) else count)
  else
    i ← offset (c_cf c);
    if decide (INT_MAX < i) then Some 0 else
    count ← ndqb_loop (Z.to_nat (c_cc c)) c
              (if decide (Z.land flag TTY_QUOTE <> 0) then ndqb_quoted c flag
               else ndqb_plain c flag) i 0;
    out count.

Fixpoint ndflush_loop (fuel : nat) (c : clist) (count : Z) : option clist :=
  match fuel with
  | O => None
  | S fuel =>
      if decide (0 < count /\ 0 < c_cc c) then
        l ← offset (c_cl c);
        f ← offset (c_cf c);
        let cc := drain_run c f l count in
        ndflush_loop fuel (drained c f cc) (count - cc)
      else Some c
  end.

Definition ndflush (c : clist) (count : Z) : option clist :=
  if decide (count = c_cc c) then Some (set_cl (set_cf (set_cc c 0) None) None) else
  c ← ndflush_loop (S (Z.to_nat count)) c count;
  Some (reset_if_empty c).

(** The start of [putc] and [b_to_q]: an empty queue is allocated if need be and
    starts over; [false] when the allocation fails. *)
Definition refill (c : clist) (h : kheap) : bool * clist * kheap :=
  if decide (c_cc c = 0) then
    let restart c := set_cl (set_cf c (Some 0)) (Some 0) in
    match c_cs c with
    | Live _ | Freed => (true, restart c, h)
    | Null =>
        let '(r, c, h) := clalloc c 1024 true h in
        if decide (r <> 0) then (false, c, h) else (true, restart c, h)
    end
  else (true, c, h).

Definition putc (ch : Z) (c : clist) (h : kheap) : option (Z * clist * kheap) :=
  let '(ok, c, h) := refill c h in
  if negb ok then Some (-1, c, h) else
  if decide (c_cc c = c_cn c) then Some (-1, c, h) else
  l ← offset (c_cl c);
  cs ← contents (c_cs c);
  cs ← zset cs l (Z.land ch 255);
  let c := set_cs c (Live cs) in
  if decide (INT_MAX < l) then Some (-1, c, h) else
  c ← (match c_cq c with
       | None => Some c
       | Some cq =>
           cq ← (if decide (Z.land ch TTY_QUOTE <> 0) then setbit cq l else clrbit cq l);
           Some (set_cq c (Some cq))
       end);
  let c := set_cc c (c_cc c + 1) in
  Some (0, set_cl c (Some (wrapped c (l + 1))), h).

(** The size of the next run of [b_to_q]: what is free from [c_cl] on. *)
Definition fill_run (c : clist) (f l count : Z) : Z :=
  let cc := u64 (c_ce c - l) in
  let cc := if decide (l < f) then u64 (f - l) else cc in
  if decide (INT_MAX < cc \/ count < cc) then count else cc.

Fixpoint b_to_q_loop (fuel : nat) (cp : list Z) (p count : Z) (c : clist) : option (Z * clist) :=
  match fuel with
  | O => None
  | S fuel =>
      if decide (0 < count /\ c_cc c < c_cn c) then
        l ← offset (c_cl c);
        f ← offset (c_cf c);
        let cc := fill_run c f l count in
        cs ← contents (c_cs c);
        cs ← bcopy cp p cs l cc;
        let c := set_cs c (Live cs) in
        let next c :=
          let c := set_cc c (c_cc c + cc) in
          b_to_q_loop fuel cp (p + cc) (count - cc) (set_cl c (Some (wrapped c (l + cc)))) in
        match c_cq c with
        | None => next c
        | Some cq =>
            if decide (INT_MAX < l \/ INT_MAX < cc) then Some (0, c)
            else cq ← clrbits cq l cc; next (set_cq c (Some cq))
        end
      else Some (count, c)
  end.

Definition b_to_q (cp : list Z) (count : Z) (c : clist) (h : kheap) : option (Z * clist * kheap) :=
  if decide (count <= 0) then Some (0, c, h) else
  let '(ok, c, h) := refill c h in
  if negb ok then Some (count, c, h) else
  if decide (c_cc c = c_cn c) then Some (count, c, h) else
  '(count, c) ← b_to_q_loop (S (Z.to_nat count)) cp 0 count c;
  Some (count, c, h).

(** [cc] is the file's static counter, shared by [firstc] and [nextc].  The
    result is the pointer, the character stored in [*c] where one is, and the new
    counter. *)
Definition nextc (c : clist) (cp : option Z) (cc : Z) : option (option (Z * Z) * Z) :=
  let cc := if decide (c_cf c = cp) then c_cc c else cc in
  match cp with
  | None => Some (None, cc)
  | Some p =>
      if decide (cc = 0) then Some (None, cc) else
      let cc := cc - 1 in
      if decide (cc = 0) then Some (None, cc) else
      let p := wrapped c (p + 1) in
      ch ← cell c p;
      Some (Some (p, ch), cc)
  end.

Definition firstc (c : clist) : option (option (Z * Z) * Z) :=
  let cc := c_cc c in
  if decide (cc = 0) then Some (None, cc) else
  p ← offset (c_cf c);
  ch ← cell c p;
  Some (Some (p, ch), cc).

Definition unputc (c : clist) : option (Z * clist) :=
  if decide (c_cc c = 0) then Some (-1, c) else
  l ← offset (c_cl c);
  let l := if decide (l = 0) then c_ce c - 1 else l - 1 in
  let c := set_cc (set_cl c (Some l)) (c_cc c - 1) in
  ch ← cell c l;
  Some (ch, reset_if_empty c).

Fixpoint catq_loop (fuel : nat) (from to : clist) (h : kheap) : option (clist * clist * kheap) :=
  match fuel with
  | O => None
  | S fuel =>
      '(ch, from) ← getc from;
      if decide (ch = -1) then Some (from, to, h) else
      '(_, to, h) ← putc ch to h;
      catq_loop fuel from to h
  end.

(** Two different queues; each turn takes a character from [from]. *)
Definition catq (from to : clist) (h : kheap) : option (clist * clist * kheap) :=
  catq_loop (S (Z.to_nat (c_cc from))) from to h.

(** [lia] on quotients and remainders. *)
Ltac Zify.zify_post_hook ::= Z.to_euclidean_division_equations.

(** ** The bit map *)

Definition bit (a : list Z) (i : Z) : option bool :=
  b ← zget a (i / NBBY); Some (Z.testbit b (i mod NBBY)).

Lemma testbit_one k n : 0 <= k -> Z.testbit (Z.shiftl 1 k) n = bool_decide (n = k).
Proof.
  intros Hk. rewrite Z.shiftl_1_l, Z.pow2_bits_eqb by done.
  destruct (Z.eqb_spec k n); case_bool_decide; congruence.
Qed.

Lemma isset_bit a i : isset a i = bit a i.
Proof.
  unfold isset, bit. destruct (zget a (i / NBBY)) as [b|]; [|done]. simpl. f_equal.
  assert (0 <= i mod NBBY) as Hm by (unfold NBBY; lia).
  destruct (Z.testbit b (i mod NBBY)) eqn:Hb.
  - apply bool_decide_eq_true. intros H.
    assert (Z.testbit (Z.land b (Z.shiftl 1 (i mod NBBY))) (i mod NBBY) = true) as Ht.
    { by rewrite Z.land_spec, Hb, testbit_one, bool_decide_true by done. }
    rewrite H, Z.bits_0 in Ht. done.
  - apply bool_decide_eq_false. intros H. apply H, Z.bits_inj'. intros n Hn.
    rewrite Z.land_spec, Z.bits_0. destruct (decide (n = i mod NBBY)) as [->|Hne].
    { by rewrite Hb. }
    rewrite testbit_one, bool_decide_false by done. apply andb_false_r.
Qed.

Lemma bit_is_Some a i : 0 <= i < 8 * Z.of_nat (length a) -> is_Some (bit a i).
Proof.
  intros Hi. unfold bit, NBBY. destruct (zget_is_Some a (i / 8)) as [b ->]; [lia|]. by eexists.
Qed.

Lemma bit_None a i : 8 * Z.of_nat (length a) <= i -> bit a i = None.
Proof.
  intros Hi. unfold bit, NBBY. replace (zget a (i / 8)) with (@None Z); [done|].
  symmetry. apply zget_None. lia.
Qed.

(** A bitmap is determined by its bits. *)
Lemma bits_ext a b :
  bytes_ok a -> bytes_ok b -> length a = length b ->
  (forall i, 0 <= i -> bit a i = bit b i) -> a = b.
Proof.
  intros Ha Hb Hlen Hbits. apply list_eq_same_length with (length a); [done..|].
  intros k x y Hk Hx Hy. apply Z.bits_inj'. intros n Hn.
  pose proof (Forall_lookup_1 _ _ _ _ Ha Hx) as Hxb.
  pose proof (Forall_lookup_1 _ _ _ _ Hb Hy) as Hyb.
  apply in_word_bits in Hxb as [_ Hxb]; [|lia]. apply in_word_bits in Hyb as [_ Hyb]; [|lia].
  destruct (decide (n < 8)); [|by rewrite Hxb, Hyb by lia].
  specialize (Hbits (8 * Z.of_nat k + n) ltac:(lia)). unfold bit, NBBY in Hbits.
  replace ((8 * Z.of_nat k + n) / 8) with (Z.of_nat k) in Hbits by lia.
  replace ((8 * Z.of_nat k + n) mod 8) with n in Hbits by lia.
  rewrite !zget_nat, Hx, Hy in Hbits. simpl in Hbits. congruence.
Qed.

(** [a'] is [a] with the bits outside of [keep] cleared. *)
Definition masked (keep : Z -> bool) (a a' : list Z) : Prop :=
  length a' = length a /\ bytes_ok a' /\
  forall i, 0 <= i -> bit a' i = (fun b => b && keep i) <$> bit a i.

Lemma masked_refl a : bytes_ok a -> masked (fun _ => true) a a.
Proof.
  intros Ha. split_and!; [done..|]. intros i _.
  destruct (bit a i) as [b|]; simpl; [|done]. by rewrite andb_true_r.
Qed.

Lemma masked_trans k1 k2 a b c :
  masked k1 a b -> masked k2 b c -> masked (fun i => k1 i && k2 i) a c.
Proof.
  intros (H1 & _ & Hk1) (H2 & Hc & Hk2). split_and!; [lia|done|]. intros i Hi.
  rewrite Hk2, Hk1 by done. destruct (bit a i) as [x|]; [|done]. simpl. by rewrite andb_assoc.
Qed.

Lemma masked_ext k1 k2 a b :
  (forall i, 0 <= i < 8 * Z.of_nat (length a) -> k1 i = k2 i) -> masked k1 a b -> masked k2 a b.
Proof.
  intros Hk (? & ? & H). split_and!; [done..|]. intros i Hi. rewrite H by done.
  destruct (decide (i < 8 * Z.of_nat (length a))); [by rewrite Hk by lia|].
  by rewrite !bit_None by lia.
Qed.

(** A byte of the map is replaced by one with fewer bits. *)
Lemma zset_masked a k b v (keep : Z -> bool) :
  bytes_ok a -> zget a k = Some b -> byte_ok v ->
  (forall n, 0 <= n < 8 -> Z.testbit v n = Z.testbit b n && keep (8 * k + n)) ->
  (forall i, 0 <= i -> i / 8 <> k -> keep i = true) ->
  exists a', zset a k v = Some a' /\ masked keep a a'.
Proof.
  intros Ha Hb Hv Hin Hout. pose proof Hb as Hk. apply zget_Some in Hk as [Hk Hlk].
  apply lookup_lt_Some in Hlk as Hlt.
  exists (<[Z.to_nat k := v]> a). split; [apply zset_in; lia|]. split_and!.
  - apply length_insert.
  - by apply Forall_insert.
  - intros i Hi. unfold bit, NBBY. destruct (decide (i / 8 = k)) as [<-|Hne].
    + rewrite Hb. unfold zget. rewrite decide_True, list_lookup_insert_eq by lia. simpl.
      rewrite Hin by lia. by replace (8 * (i / 8) + i mod 8) with i by lia.
    + unfold zget. rewrite !decide_True, list_lookup_insert_ne by lia.
      destruct (a !! Z.to_nat (i / 8)); simpl; [|done]. by rewrite Hout, andb_true_r by done.
Qed.

Lemma and_byte_masked a k m (keep : Z -> bool) :
  bytes_ok a -> 0 <= k < Z.of_nat (length a) ->
  (forall n, 0 <= n < 8 -> Z.testbit m n = keep (8 * k + n)) ->
  (forall i, 0 <= i -> i / 8 <> k -> keep i = true) ->
  exists a', and_byte a k m = Some a' /\ masked keep a a'.
Proof.
  intros Ha Hk Hin Hout. unfold and_byte. destruct (zget_is_Some a k Hk) as [b Hb].
  rewrite Hb. simpl. apply (zset_masked a k b); [done|done|by apply wrap_range|intros n Hn|done].
  rewrite testbit_wrap, bool_decide_true, Z.land_spec, Hin by lia. done.
Qed.

Lemma clrbit_masked a i :
  bytes_ok a -> 0 <= i < 8 * Z.of_nat (length a) ->
  exists a', clrbit a i = Some a' /\ masked (fun j => negb (bool_decide (j = i))) a a'.
Proof.
  intros Ha Hi. unfold clrbit. fold (and_byte a (i / NBBY) (Z.lnot (Z.shiftl 1 (i mod NBBY)))).
  unfold NBBY. apply and_byte_masked; [done|lia| |].
  - intros n Hn. rewrite Z.lnot_spec, testbit_one by lia. f_equal.
    apply bool_decide_ext. lia.
  - intros j Hj Hne. rewrite bool_decide_false; [done|]. intros ->. lia.
Qed.

Lemma setbit_bits a i :
  bytes_ok a -> 0 <= i < 8 * Z.of_nat (length a) ->
  exists a', setbit a i = Some a' /\ length a' = length a /\ bytes_ok a' /\
    forall j, 0 <= j -> bit a' j = if decide (j = i) then Some true else bit a j.
Proof.
  intros Ha Hi. unfold setbit, NBBY. destruct (zget_is_Some a (i / 8)) as [b Hb]; [lia|].
  rewrite Hb. simpl. rewrite zset_in by lia. eexists. split; [done|]. split_and!.
  - apply length_insert.
  - apply Forall_insert; [done|]. by apply wrap_range.
  - intros j Hj. unfold bit, NBBY, zget in *. rewrite decide_True in Hb by lia.
    rewrite !(decide_True (P := 0 <= j / 8)) by lia. destruct (decide (j / 8 = i / 8)) as [He|He].
    + rewrite He, Hb, list_lookup_insert_eq by lia. simpl.
      rewrite testbit_wrap, Z.lor_spec, testbit_one by lia.
      rewrite (bool_decide_true (j mod 8 < 8)) by lia. simpl. case_decide.
      * by rewrite bool_decide_true, orb_true_r by (by f_equal).
      * by rewrite bool_decide_false, orb_false_r by lia.
    + rewrite list_lookup_insert_ne by lia. case_decide; [by subst|done].
Qed.

(** A run of bytes set to 0. *)
Lemma clear_bytes a s n :
  bytes_ok a -> 0 <= s -> s + Z.of_nat n <= Z.of_nat (length a) ->
  exists a', for_range n (fun i cp => zset cp (s + Z.of_nat i) 0) a = Some a' /\
    masked (fun j => negb (bool_decide (s <= j / 8 < s + Z.of_nat n))) a a'.
Proof.
  intros Ha Hs Hn.
  pose (I := fun (i : nat) (a' : list Z) =>
    masked (fun j => negb (bool_decide (s <= j / 8 < s + Z.of_nat i))) a a').
  apply (for_range_inv I).
  - eapply masked_ext; [|by apply masked_refl]. intros j Hj. simpl.
    by rewrite bool_decide_false by lia.
  - intros i b Hi Hb. pose proof Hb as (Hlen & Hok & _).
    destruct (zget_is_Some b (s + Z.of_nat i)) as [v Hv]; [lia|].
    destruct (zset_masked b (s + Z.of_nat i) v 0
      (fun j => negb (bool_decide (j / 8 = s + Z.of_nat i)))) as (b' & Hb' & Hm); try done.
    + intros n' Hn'. rewrite Z.bits_0, bool_decide_true by lia. by rewrite andb_false_r.
    + intros j Hj Hne. by rewrite bool_decide_false by lia.
    + exists b'. split; [done|]. eapply masked_ext; [|apply (masked_trans _ _ _ _ _ Hb Hm)].
      intros j Hj. simpl. repeat case_bool_decide; simpl; lia.
Qed.

Lemma ones_mask n k : 0 <= n -> 0 <= k -> Z.testbit (Z.shiftl 1 n - 1) k = bool_decide (k < n).
Proof.
  intros Hn Hk. change (Z.shiftl 1 n - 1) with (Z.ones n). rewrite Z.testbit_ones by done.
  destruct (Z.leb_spec 0 k); [|lia]. destruct (Z.ltb_spec k n); case_bool_decide; lia || done.
Qed.

(** The remainder bits of the last byte, which is not touched when there are none. *)
Lemma clear_low_bits a k n :
  bytes_ok a -> 0 <= k -> 0 <= n < 8 -> (n <> 0 -> k < Z.of_nat (length a)) ->
  exists a', (if decide (u8 (Z.shiftl 1 n - 1) <> 0)
              then and_byte a k (Z.lnot (u8 (Z.shiftl 1 n - 1))) else Some a) = Some a' /\
    masked (fun j => negb (bool_decide (j mod 8 < n /\ j / 8 = k))) a a'.
Proof.
  intros Ha Hk Hn Hlt.
  assert (forall i, 0 <= i < 8 -> Z.testbit (u8 (Z.shiftl 1 n - 1)) i = bool_decide (i < n)) as Hmask.
  { intros i Hi. rewrite testbit_wrap, ones_mask, (bool_decide_true (i < 8)) by lia. done. }
  destruct (decide (n = 0)) as [->|H0].
  - exists a. split; [done|]. eapply masked_ext; [|by apply masked_refl].
    intros j Hj. by rewrite bool_decide_false by lia.
  - rewrite decide_True.
    2: { intros Hz. specialize (Hmask 0 ltac:(lia)).
         rewrite Hz, bool_decide_true in Hmask by lia. done. }
    apply and_byte_masked; [done|lia| |].
    + intros i Hi. rewrite Z.lnot_spec, Hmask by lia. f_equal. apply bool_decide_ext. lia.
    + intros i Hi Hi'. by rewrite bool_decide_false by lia.
Qed.

Lemma clrbits_masked a off len :
  bytes_ok a -> 0 <= off -> 1 <= len -> off + len <= 8 * Z.of_nat (length a) ->
  exists a', clrbits a off len = Some a' /\
    masked (fun j => negb (bool_decide (off <= j < off + len))) a a'.
Proof.
  intros Ha Hoff Hlen Hend. unfold clrbits. destruct (decide (len = 1)) as [->|Hne].
  { destruct (clrbit_masked a off) as (a' & -> & Hm); [done|lia|]. exists a'. split; [done|].
    eapply masked_ext; [|exact Hm]. intros j Hj. simpl. f_equal. repeat case_bool_decide; lia || done. }
  unfold NBBY in *. destruct (decide (off / 8 = (off + len) / 8)) as [He|He].
  - apply and_byte_masked; [done|lia| |].
    + intros n Hn. rewrite Z.lnot_spec, testbit_wrap, Z.shiftl_spec by lia.
      rewrite bool_decide_true by lia. simpl. f_equal.
      destruct (decide (n < off mod 8)).
      { rewrite Z.testbit_neg_r, bool_decide_false by lia. done. }
      rewrite ones_mask by lia. repeat case_bool_decide; lia || done.
    + intros i Hi Hi'. rewrite bool_decide_false by lia. done.
  - destruct (and_byte_masked a (off / 8) (u8 (Z.shiftl 1 (off mod 8) - 1))
      (fun j => negb (bool_decide (off <= j /\ j / 8 = off / 8)))) as (b & -> & Hb);
      [done|lia|intros n Hn|intros i Hi Hi'|].
    { rewrite testbit_wrap, ones_mask by lia. rewrite (bool_decide_true (n < 8)) by lia. simpl.
      repeat case_bool_decide; simpl; lia || done. }
    { by rewrite bool_decide_false by lia. }
    rewrite bind_some. cbv zeta. pose proof Hb as (Hlb & Hokb & _).
    destruct (clear_low_bits b ((off + len) / 8) ((off + len) mod 8)) as (c & -> & Hc);
      [done|lia|lia|lia|].
    rewrite bind_some. pose proof Hc as (Hlc & Hokc & _).
    destruct (clear_bytes c (off / 8 + 1) (Z.to_nat ((off + len) / 8 - (off / 8 + 1))))
      as (d & -> & Hd); [done|lia|lia|].
    exists d. split; [done|].
    eapply masked_ext; [|apply (masked_trans _ _ _ _ _ (masked_trans _ _ _ _ _ Hb Hc) Hd)].
    intros j Hj. simpl. repeat case_bool_decide; simpl; lia || done.
Qed.

(** The reference loop. *)
Lemma clrbit_loop_masked a off (n : nat) :
  bytes_ok a -> 0 <= off -> off + Z.of_nat n <= 8 * Z.of_nat (length a) ->
  exists a', for_range n (fun i cp => clrbit cp (off + Z.of_nat i)) a = Some a' /\
    masked (fun j => negb (bool_decide (off <= j < off + Z.of_nat n))) a a'.
Proof.
  intros Ha Hoff Hn.
  pose (I := fun (i : nat) (a' : list Z) =>
    masked (fun j => negb (bool_decide (off <= j < off + Z.of_nat i))) a a').
  apply (for_range_inv I).
  - eapply masked_ext; [|by apply masked_refl]. intros j Hj. simpl.
    by rewrite bool_decide_false by lia.
  - intros i b Hi Hb. pose proof Hb as (Hlen & Hok & _).
    destruct (clrbit_masked b (off + Z.of_nat i)) as (b' & Hb' & Hm); [done|lia|].
    exists b'. split; [done|]. eapply masked_ext; [|apply (masked_trans _ _ _ _ _ Hb Hm)].
    intros j Hj. simpl. repeat case_bool_decide; simpl; lia || done.
Qed.

Lemma masked_unique keep a b c : masked keep a b -> masked keep a c -> b = c.
Proof.
  intros (Hb & Hbok & Hbb) (Hc & Hcok & Hcb). apply bits_ext; [done..|lia|].
  intros i Hi. by rewrite Hbb, Hcb.
Qed.

(** ** What a ring holds *)

Definition quotes_ok (c : clist) : Prop :=
  match c_cq c with
  | None => True
  | Some cq => bytes_ok cq /\ Z.of_nat (length cq) = QMEM (c_cn c)
  end.

(** An allocated ring, whatever its pointers. *)
Definition ring_ok (c : clist) : Prop :=
  (exists cs, c_cs c = Live cs /\ bytes_ok cs /\ Z.of_nat (length cs) = c_cn c) /\
  c_ce c = c_cn c /\ 0 < c_cn c <= INT_MAX /\ quotes_ok c.

(** The offset [p] of a ring of [n] cells, [p] having gone round it at most once. *)
Definition pos (n p : Z) : Z := if decide (p < n) then p else p - n.

(** The cells from [f] on hold the characters of [q]. *)
Definition ring_at (c : clist) (f : Z) (q : list Z) : Prop :=
  ring_ok c /\ 0 <= f < c_cn c /\ c_cc c = Z.of_nat (length q) /\ c_cc c <= c_cn c /\
  c_cf c = Some f /\ c_cl c = Some (pos (c_cn c) (f + c_cc c)) /\
  forall i x, q !! i = Some x -> cell c (pos (c_cn c) (f + Z.of_nat i)) = Some x.

(** The representation between operations: an empty queue has null pointers. *)
Definition holds (c : clist) (q : list Z) : Prop :=
  (q = [] /\ ring_ok c /\ c_cc c = 0 /\ c_cf c = None /\ c_cl c = None) \/
  (q <> [] /\ exists f, ring_at c f q).

Lemma QMEM_bits n i : 0 <= i < n -> 0 <= i < 8 * QMEM n.
Proof. unfold QMEM, NBBY. lia. Qed.

Lemma land_255_byte b : byte_ok b -> Z.land b 255 = b.
Proof.
  intros Hb. change 255 with (Z.ones 8). rewrite Z.land_ones by lia. by apply wrap_small.
Qed.

Lemma quote_high b : byte_ok b -> Z.land (Z.lor b TTY_QUOTE) 255 = b.
Proof.
  intros Hb. rewrite Z.land_lor_distr_l, land_255_byte by done.
  change (Z.land 256 255) with 0. apply Z.lor_0_r.
Qed.

(** The byte and the quote bit of a cell. *)
Lemma cell_bit c cs p :
  ring_ok c -> c_cs c = Live cs -> 0 <= p < c_cn c ->
  exists b, zget cs p = Some b /\ byte_ok b /\
    cell c p = match c_cq c with
               | None => Some b
               | Some cq => (fun q : bool => if q then Z.lor b TTY_QUOTE else b) <$> bit cq p
               end.
Proof.
  intros ((cs' & Hcs' & Hok & Hlen) & _) Hcs Hp. rewrite Hcs in Hcs'. simplify_eq/=.
  destruct (zget_is_Some cs' p) as [b Hb]; [lia|]. exists b.
  assert (byte_ok b) as Hbb.
  { apply zget_Some in Hb as [_ Hb]. by apply (Forall_lookup_1 _ _ _ _ Hok Hb). }
  split_and!; [done..|]. unfold cell. rewrite Hcs. simpl. rewrite Hb. simpl.
  rewrite land_255_byte by done. destruct (c_cq c) as [cq|]; [|done].
  rewrite isset_bit. by destruct (bit cq p).
Qed.

Lemma cell_is_Some c p : ring_ok c -> 0 <= p < c_cn c -> is_Some (cell c p).
Proof.
  intros Hc Hp. pose proof Hc as ((cs & Hcs & _) & _ & _ & Hq).
  destruct (cell_bit c cs p) as (b & _ & _ & ->); [done..|].
  unfold quotes_ok in Hq. destruct (c_cq c) as [cq|]; [|by eexists].
  destruct Hq as [_ Hq]. destruct (bit_is_Some cq p) as [x ->]; [|by eexists].
  pose proof (QMEM_bits _ _ Hp). lia.
Qed.

Lemma cell_byte c cs p x :
  ring_ok c -> c_cs c = Live cs -> 0 <= p < c_cn c -> cell c p = Some x ->
  zget cs p = Some (Z.land x 255) /\ 0 <= x.
Proof.
  intros Hc Hcs Hp Hx. destruct (cell_bit c cs p) as (b & Hb & Hbb & Hcell); [done..|].
  rewrite Hcell in Hx. assert (x = b \/ x = Z.lor b TTY_QUOTE) as Hxb.
  { destruct (c_cq c) as [cq|]; [|naive_solver]. destruct (bit cq p) as [[]|]; naive_solver. }
  pose proof Hbb as [? ?]. destruct Hxb as [-> | ->].
  - by rewrite land_255_byte.
  - rewrite quote_high by done. split; [done|]. by apply Z.lor_nonneg.
Qed.

(** The pointers and the counts do not matter to the cells. *)
Lemma cell_same c c' p : c_cs c' = c_cs c -> c_cq c' = c_cq c -> cell c' p = cell c p.
Proof. intros Hs Hq. unfold cell. by rewrite Hs, Hq. Qed.

Lemma settle c f q : ring_at c f q -> holds (reset_if_empty c) q.
Proof.
  intros (Hok & Hf & Hcc & Hle & Hcf & Hcl & Hcells). unfold reset_if_empty. case_decide as Hz.
  - left. destruct q; [done|simpl in *; lia].
  - right. split; [intros ->; simpl in *; lia|]. by exists f.
Qed.

Lemma holds_length c q : holds c q -> c_cc c = Z.of_nat (length q).
Proof. intros [(-> & _ & Hcc & _) | (_ & f & _ & _ & Hcc & _)]; by rewrite Hcc. Qed.

(** ** Taking characters out *)

Lemma wrapped_pos c p : c_ce c = c_cn c -> p <= c_cn c -> wrapped c p = pos (c_cn c) p.
Proof. intros He Hp. unfold wrapped, pos. rewrite He. repeat case_decide; lia. Qed.

Lemma ring_drop c f q (k : nat) :
  ring_at c f q -> (k <= length q)%nat -> f + Z.of_nat k <= c_cn c ->
  ring_at (drained c f (Z.of_nat k)) (pos (c_cn c) (f + Z.of_nat k)) (drop k q).
Proof.
  intros (Hok & Hf & Hcc & Hle & Hcf & Hcl & Hcells) Hk Hend. unfold ring_at. simpl.
  rewrite length_drop. split_and!; try lia; try done.
  - unfold pos. case_decide; lia.
  - unfold pos. case_decide; lia.
  - f_equal. change (wrapped c (f + Z.of_nat k) = pos (c_cn c) (f + Z.of_nat k)).
    apply wrapped_pos; [apply Hok|lia].
  - rewrite Hcl. f_equal. unfold pos. repeat case_decide; lia.
  - intros i x Hi. rewrite lookup_drop in Hi. apply lookup_lt_Some in Hi as Hlt.
    rewrite <-(Hcells _ _ Hi), (cell_same c) by done. f_equal. unfold pos. repeat case_decide; lia.
Qed.

Lemma getc_cons c x q : holds c (x :: q) -> exists c', getc c = Some (x, c') /\ holds c' q.
Proof.
  intros [[? _]|(_ & f & Hat)]; [done|].
  pose proof Hat as (Hok & Hf & Hcc & Hle & Hcf & Hcl & Hcells). simpl in Hcc.
  unfold getc. rewrite decide_False, Hcf by lia. simpl.
  pose proof (Hcells 0%nat x eq_refl) as Hx.
  replace (pos _ _) with f in Hx by (unfold pos; case_decide; lia).
  rewrite Hx. simpl. eexists. split; [done|]. apply (settle _ (pos (c_cn c) (f + 1))).
  apply (ring_drop c f (x :: q) 1 Hat); simpl; lia.
Qed.

Lemma getc_nil c : holds c [] -> getc c = Some (-1, c).
Proof. intros Hc%holds_length. unfold getc. by rewrite decide_True. Qed.

Lemma ring_unput c f q x :
  ring_at c f (q ++ [x]) ->
  exists l, c_cl c = Some l /\
    let l' := if decide (l = 0) then c_ce c - 1 else l - 1 in
    let c' := set_cc (set_cl c (Some l')) (c_cc c - 1) in
    cell c' l' = Some x /\ ring_at c' f q.
Proof.
  intros (Hok & Hf & Hcc & Hle & Hcf & Hcl & Hcells). eexists. split; [exact Hcl|].
  rewrite length_app in Hcc. simpl in Hcc. pose proof Hok as (_ & He & _).
  rewrite He. set (l' := if decide _ then _ else _).
  assert (l' = pos (c_cn c) (f + Z.of_nat (length q))) as Hl'.
  { subst l'. unfold pos. repeat case_decide; lia. }
  rewrite Hl'. cbv zeta. split.
  - rewrite (cell_same c) by done. apply Hcells. by rewrite lookup_app_r, Nat.sub_diag by lia.
  - unfold ring_at. simpl. split_and!; try done; try lia.
    + f_equal. f_equal. lia.
    + intros i y Hi. rewrite (cell_same c) by done. apply Hcells.
      by rewrite lookup_app_l by (by eapply lookup_lt_Some).
Qed.

Lemma unputc_snoc c x q : holds c (q ++ [x]) -> exists c', unputc c = Some (x, c') /\ holds c' q.
Proof.
  intros [[? _]|(_ & f & Hat)]; [by destruct q|].
  pose proof Hat as (_ & _ & Hcc & _). rewrite length_app in Hcc. simpl in Hcc.
  destruct (ring_unput _ _ _ _ Hat) as (l & Hl & Hcell & Hat').
  unfold unputc. rewrite decide_False, Hl by lia. simpl. simpl in Hcell. rewrite Hcell. simpl.
  eexists. split; [done|]. by eapply settle.
Qed.

Lemma unputc_nil c : holds c [] -> unputc c = Some (-1, c).
Proof. intros Hc%holds_length. unfold unputc. by rewrite decide_True. Qed.

(** The next run is what is contiguous and wanted. *)
Lemma drain_run_eq c f q count l :
  ring_at c f q -> q <> [] -> 0 < count <= INT_MAX -> c_cl c = Some l ->
  drain_run c f l count = Z.min count (Z.min (c_cc c) (c_cn c - f)).
Proof.
  intros (Hok & Hf & Hcc & Hle & Hcf & Hcl & _) Hq Hcount Hl. rewrite Hcl in Hl. simplify_eq/=.
  pose proof Hok as (_ & He & Hn & _). destruct q as [|x q]; [done|]. simpl in Hcc.
  unfold drain_run. rewrite He. unfold INT_MAX in *.
  set (l := pos _ _). assert (0 <= l < c_cn c) by (subst l; unfold pos; case_decide; lia).
  destruct (decide (l <= f)).
  - rewrite (wrap_small 64) by (unfold in_word; lia).
    subst l. unfold pos in *. repeat case_decide; lia.
  - rewrite (wrap_small 64) by (unfold in_word; lia).
    subst l. unfold pos in *. repeat case_decide; lia.
Qed.

(** The bytes of a run, as [bcopy] reads them. *)
Lemma run_bytes c f q cs (k : nat) :
  ring_at c f q -> c_cs c = Live cs -> (k <= length q)%nat -> f + Z.of_nat k <= c_cn c ->
  take k (drop (Z.to_nat f) cs) = (fun x => Z.land x 255) <$> take k q.
Proof.
  intros (Hok & Hf & Hcc & Hle & Hcf & Hcl & Hcells) Hcs Hk Hend.
  pose proof Hok as ((cs' & Hcs' & _ & Hlen) & _). rewrite Hcs in Hcs'. simplify_eq/=.
  apply list_eq_same_length with k.
  - rewrite length_fmap, length_take. lia.
  - rewrite length_take, length_drop. lia.
  - intros i x y Hi Hx Hy. rewrite lookup_take_lt, lookup_drop in Hx by done.
    rewrite list_lookup_fmap, lookup_take_lt in Hy by done.
    destruct (q !! i) as [z|] eqn:Hz; [|done]. simplify_eq/=.
    pose proof (Hcells _ _ Hz) as Hc. unfold pos in Hc. rewrite decide_True in Hc by lia.
    apply (cell_byte c cs') in Hc as [Hb _]; [|done|done|lia].
    apply zget_Some in Hb as [_ Hb].
    replace (Z.to_nat (f + Z.of_nat i)) with (Z.to_nat f + i)%nat in Hb by lia. congruence.
Qed.

(** [dst] overwritten by [s] from [p] on. *)
Definition overwrite (dst : list Z) (p : nat) (s : list Z) : list Z :=
  take p dst ++ s ++ drop (p + length s) dst.

Lemma overwrite_app dst p s t :
  (p + length s + length t <= length dst)%nat ->
  overwrite (overwrite dst p s) (p + length s) t = overwrite dst p (s ++ t).
Proof.
  intros Hlen. unfold overwrite. rewrite length_app, <-!app_assoc.
  assert (length (take p dst) = p) as Hp by (rewrite length_take; lia).
  rewrite take_app_ge, Hp by lia. replace (p + length s - p)%nat with (length s) by lia.
  rewrite take_app_length, <-app_assoc. do 3 f_equal.
  rewrite drop_app_ge, Hp by lia.
  replace (p + length s + length t - p)%nat with (length s + length t)%nat by lia.
  rewrite drop_app_ge, drop_drop by lia. f_equal. lia.
Qed.

Lemma overwrite_nil dst p : overwrite dst p [] = dst.
Proof. unfold overwrite. simpl. rewrite Nat.add_0_r. apply take_drop. Qed.

Lemma bcopy_overwrite src s dst d n :
  0 <= s -> 0 <= n -> s + n <= Z.of_nat (length src) -> 0 <= d -> d + n <= Z.of_nat (length dst) ->
  bcopy src s dst d n
  = Some (overwrite dst (Z.to_nat d) (take (Z.to_nat n) (drop (Z.to_nat s) src))).
Proof.
  intros. unfold bcopy, overwrite. rewrite decide_True by lia. do 4 f_equal.
  rewrite length_take, length_drop. lia.
Qed.

Lemma length_overwrite dst p s :
  (p + length s <= length dst)%nat -> length (overwrite dst p s) = length dst.
Proof. intros. unfold overwrite. rewrite !length_app, length_take, length_drop. lia. Qed.

(** What is left when [count] characters are taken. *)
Lemma ring_run c f q count :
  ring_at c f q -> q <> [] -> 0 < count <= INT_MAX ->
  exists l (k : nat) f', c_cl c = Some l /\ drain_run c f l count = Z.of_nat k /\
    (0 < k <= length q)%nat /\ Z.of_nat k <= count /\ f + Z.of_nat k <= c_cn c /\
    ring_at (drained c f (Z.of_nat k)) f' (drop k q).
Proof.
  intros Hat Hq Hcount. pose proof Hat as (_ & Hf & Hcc & Hle & _ & Hcl & _).
  destruct q as [|x q]; [done|]. simpl in Hcc.
  eexists _, (Z.to_nat (Z.min count (Z.min (c_cc c) (c_cn c - f)))), _.
  split_and!; [exact Hcl| | | | | |].
  - rewrite (drain_run_eq c f (x :: q)) by done. lia.
  - lia.
  - simpl. lia.
  - lia.
  - lia.
  - apply (ring_drop c f (x :: q)); [done|simpl; lia|lia].
Qed.

Lemma q_to_b_loop_spec fuel c f q buf (p : nat) count :
  ring_at c f q -> count <= INT_MAX ->
  (p + Nat.min (Z.to_nat count) (length q) <= length buf)%nat -> (Z.to_nat count < fuel)%nat ->
  let k := Nat.min (Z.to_nat count) (length q) in
  exists c' f', q_to_b_loop fuel c buf (Z.of_nat p) count
      = Some (c', overwrite buf p ((fun x => Z.land x 255) <$> take k q), Z.of_nat (p + k)) /\
    ring_at c' f' (drop k q).
Proof.
  revert c f q buf p count. induction fuel as [|fuel IH]; intros c f q buf p count Hat Hc Hroom Hfuel;
    [lia|]. cbv zeta. cbn [q_to_b_loop].
  pose proof Hat as (Hok & Hf & Hcc & Hle & Hcf & _). destruct (decide (0 < count /\ 0 < c_cc c)) as [Hgo|Hstop].
  - assert (q <> []) as Hq by (intros ->; simpl in *; lia).
    destruct (ring_run c f q count Hat Hq) as (l & k & f' & Hl & Hrun & Hk & Hkc & Hend & Hat'); [lia|].
    pose proof Hok as ((cs & Hcs & _ & Hlen) & _).
    rewrite Hl, Hcf. simpl. rewrite Hrun, Hcs. simpl.
    rewrite bcopy_overwrite by lia. rewrite !Nat2Z.id, (run_bytes c f q) by (done || lia). simpl.
    set (s := _ <$> take k q).
    assert (length s = k) as Hs by (unfold s; rewrite length_fmap, length_take; lia).
    destruct (IH _ f' (drop k q) (overwrite buf p s) (p + k)%nat (count - Z.of_nat k) Hat')
      as (c' & f'' & Hloop & Hat''); [lia| |lia|].
    { rewrite length_overwrite, length_drop by lia. lia. }
    rewrite Nat2Z.inj_add in Hloop. rewrite Hloop. rewrite length_drop in *. exists c', f''.
    assert (k + (Z.to_nat (count - Z.of_nat k) `min` (length q - k)) = Z.to_nat count `min` length q)%nat
      as Hsum by lia.
    split.
    + rewrite <-Hs at 1. rewrite overwrite_app by (rewrite length_fmap, length_take, length_drop; lia).
      unfold s. rewrite <-fmap_app, take_take_drop, Hsum, <-Nat.add_assoc, Hsum. done.
    + by rewrite drop_drop, Hsum in Hat''.
  - replace (Z.to_nat count `min` length q)%nat with 0%nat by lia.
    rewrite take_0, drop_0, overwrite_nil, Nat.add_0_r. eauto.
Qed.

Lemma ndflush_loop_spec fuel c f q count :
  ring_at c f q -> count <= INT_MAX -> (Z.to_nat count < fuel)%nat ->
  exists c' f', ndflush_loop fuel c count = Some c' /\ ring_at c' f' (drop (Z.to_nat count) q).
Proof.
  revert c f q count. induction fuel as [|fuel IH]; intros c f q count Hat Hc Hfuel; [lia|].
  cbn [ndflush_loop]. pose proof Hat as (Hok & Hf & Hcc & Hle & Hcf & _).
  destruct (decide (0 < count /\ 0 < c_cc c)) as [Hgo|Hstop].
  - assert (q <> []) as Hq by (intros ->; simpl in *; lia).
    destruct (ring_run c f q count Hat Hq) as (l & k & f' & Hl & Hrun & Hk & Hkc & Hend & Hat'); [lia|].
    rewrite Hl, Hcf. simpl. rewrite Hrun.
    destruct (IH _ _ _ (count - Z.of_nat k) Hat') as (c' & f'' & -> & Hat''); [lia|lia|].
    exists c', f''. split; [done|]. rewrite drop_drop in Hat''.
    by replace (k + Z.to_nat (count - Z.of_nat k))%nat with (Z.to_nat count) in Hat'' by lia.
  - exists c, f. split; [done|]. destruct (decide (0 < count)).
    + rewrite drop_ge by lia. destruct q; [done|simpl in *; lia].
    + by replace (Z.to_nat count) with 0%nat by lia.
Qed.

(** An empty queue has nothing to drain. *)
Lemma holds_nil_count c : holds c [] -> reset_if_empty c = c.
Proof.
  intros [(_ & _ & Hcc & Hf & Hl)|[? _]]; [|done]. unfold reset_if_empty.
  rewrite decide_True by done. destruct c; simpl in *. by subst.
Qed.

Lemma q_to_b_spec c q buf count :
  holds c q -> count <= INT_MAX -> (Z.to_nat count <= length buf)%nat ->
  let k := Nat.min (Z.to_nat count) (length q) in
  exists c', q_to_b c buf count
      = Some (Z.of_nat k, c', overwrite buf 0 ((fun x => Z.land x 255) <$> take k q)) /\
    holds c' (drop k q).
Proof.
  intros Hc Hcount Hbuf. cbv zeta. unfold q_to_b. destruct q as [|x q].
  - cbn [q_to_b_loop]. rewrite decide_False by (rewrite (holds_length _ _ Hc); simpl; lia).
    cbn. rewrite Nat.min_0_r, overwrite_nil, holds_nil_count by done. by exists c.
  - destruct Hc as [[? _]|(_ & f & Hat)]; [done|].
    destruct (q_to_b_loop_spec (S (Z.to_nat count)) c f (x :: q) buf 0 count)
      as (c' & f' & Hloop & Hat'); [done|done|lia|lia|].
    change (Z.of_nat 0) with 0 in Hloop. rewrite Hloop, bind_some.
    eexists. split; [|by eapply settle]. rewrite Z.min_r by (unfold INT_MAX in *; lia). done.
Qed.

Lemma ndflush_spec c q count :
  holds c q -> count <= INT_MAX ->
  exists c', ndflush c count = Some c' /\ holds c' (drop (Z.to_nat count) q).
Proof.
  intros Hc Hcount. pose proof (holds_length _ _ Hc) as Hlen. unfold ndflush.
  destruct (decide (count = c_cc c)) as [->|Hne].
  - eexists. split; [done|]. left. rewrite drop_ge by lia. split_and!; try done.
    by destruct Hc as [(_ & Hok & _)|(_ & f & Hok & _)].
  - destruct q as [|x q].
    + cbn [ndflush_loop]. rewrite decide_False by (rewrite Hlen; simpl; lia). simpl.
      rewrite holds_nil_count, drop_nil by done. by exists c.
    + destruct Hc as [[? _]|(_ & f & Hat)]; [done|].
      destruct (ndflush_loop_spec (S (Z.to_nat count)) c f (x :: q) count)
        as (c' & f' & -> & Hat'); [done|done|lia|].
      eexists. split; [done|]. by eapply settle.
Qed.

(** ** Putting characters in *)

(** The character a ring keeps of an [int]: the low byte, and the quote bit when
    it has a bit map. *)
Definition item (quoting : bool) (ch : Z) : Z := Z.land ch (if quoting then 511 else 255).

Definition quoting (c : clist) : bool := match c_cq c with Some _ => true | None => false end.

(** [c'] is [c] with the characters [s] stored in the free cells from [c_cl] on. *)
Lemma ring_append c c' f q s l :
  ring_at c f q -> ring_ok c' -> c_cl c = Some l -> c_cn c' = c_cn c -> c_cf c' = c_cf c ->
  c_cc c' = c_cc c + Z.of_nat (length s) -> c_cl c' = Some (pos (c_cn c) (l + Z.of_nat (length s))) ->
  l + Z.of_nat (length s) <= c_cn c -> c_cc c + Z.of_nat (length s) <= c_cn c -> c_cc c < c_cn c ->
  (forall p, 0 <= p < c_cn c ->
     cell c' p = if decide (l <= p < l + Z.of_nat (length s))
                 then s !! Z.to_nat (p - l) else cell c p) ->
  ring_at c' f (q ++ s).
Proof.
  intros (Hok & Hf & Hcc & Hle & Hcf & Hcl & Hcells) Hok' Hl Hn Hf' Hcc' Hcl' Hend Hroom Hfree Hc'.
  rewrite Hl in Hcl. simplify_eq/=. unfold ring_at. rewrite Hn, length_app.
  split_and!; try done; try lia; try congruence.
  - rewrite Hcl'. f_equal. rewrite Hcc'. unfold pos in *. repeat case_decide; lia.
  - intros i x Hi. apply lookup_app_Some in Hi as [Hi|[Hi Hx]].
    + apply lookup_lt_Some in Hi as Hlt. rewrite Hc', decide_False.
      * by apply Hcells.
      * unfold pos in *. repeat case_decide; lia.
      * unfold pos. case_decide; lia.
    + apply lookup_lt_Some in Hx as Hlt. rewrite Hc', decide_True.
      * rewrite <-Hx. f_equal. unfold pos in *. repeat case_decide; lia.
      * unfold pos in *. repeat case_decide; lia.
      * unfold pos in *. repeat case_decide; lia.
Qed.

Lemma refill_spec c q h :
  holds c q -> exists c' f, refill c h = (true, c', h) /\ ring_at c' f q /\ c_cq c' = c_cq c /\
    c_cn c' = c_cn c.
Proof.
  intros [(-> & Hok & Hcc & Hf & Hl)|(Hq & f & Hat)]; unfold refill.
  - rewrite decide_True by done. pose proof Hok as ((cs & Hcs & _) & He & Hn & _). rewrite Hcs.
    eexists _, 0. split; [done|]. split; [|done]. unfold ring_at. simpl. rewrite Hcc.
    split_and!; try done; try lia. unfold pos. by rewrite decide_True by lia.
  - pose proof Hat as (_ & _ & Hcc & _). rewrite decide_False.
    + by exists c, f.
    + destruct q; [done|]. simpl in *; lia.
Qed.

(** A store to the bytes of a ring and to its bit map. *)
Lemma store_ok c cs cs' cq' l s :
  ring_ok c -> c_cs c = Live cs -> bytes_ok cs' -> length cs' = length cs ->
  match c_cq c, cq' with
  | None, None => True
  | Some cq, Some cq' => bytes_ok cq' /\ length cq' = length cq
  | _, _ => False
  end -> ring_ok (Clist (c_cc c + s) (c_cn c) (c_cf c) l (Live cs') (c_ce c) cq').
Proof.
  intros ((cs0 & Hcs0 & _ & Hlen) & He & Hn & Hq) Hcs Hok Hlen' Hq'. rewrite Hcs in Hcs0.
  simplify_eq/=. split_and!; simpl; try done; try lia.
  - exists cs'. split_and!; [done..|lia].
  - unfold quotes_ok in *. simpl. destruct cq' as [cq'|], (c_cq c) as [cq|]; try done.
    destruct Hq as [_ Hq], Hq' as [? Hq']. split; [done|lia].
Qed.

Lemma item_bits ch : item true ch = if decide (Z.land ch TTY_QUOTE <> 0)
  then Z.lor (Z.land ch 255) TTY_QUOTE else Z.land ch 255.
Proof.
  unfold item. assert (Z.land ch 511 = Z.lor (Z.land ch 255) (Z.land ch 256)) as ->.
  { change 511 with (Z.lor 255 256). apply Z.land_lor_distr_r. }
  assert (Z.land ch 256 = if Z.testbit ch 8 then 256 else 0) as ->.
  { change 256 with (Z.shiftl 1 8) at 1. apply Z.bits_inj'. intros n Hn.
    rewrite Z.land_spec, testbit_one by lia. case_bool_decide as H8.
    - subst. rewrite andb_true_r. by destruct (Z.testbit ch 8).
    - rewrite andb_false_r. destruct (Z.testbit ch 8); [|by rewrite Z.bits_0].
      change 256 with (Z.shiftl 1 8). by rewrite testbit_one, bool_decide_false by lia. }
  destruct (Z.testbit ch 8).
  - by rewrite decide_True by lia.
  - by rewrite decide_False, Z.lor_0_r by lia.
Qed.

Lemma overwrite_lookup dst p s i :
  (p + length s <= length dst)%nat ->
  overwrite dst p s !! i = if decide (p <= i < p + length s)%nat then s !! (i - p)%nat else dst !! i.
Proof.
  intros Hlen. assert (length (take p dst) = p) as Hp by (rewrite length_take; lia).
  unfold overwrite. case_decide.
  - rewrite lookup_app_r, Hp, lookup_app_l by lia. done.
  - destruct (decide (i < p)%nat).
    + by rewrite lookup_app_l, lookup_take_lt by lia.
    + rewrite lookup_app_r, Hp, lookup_app_r, lookup_drop by lia. f_equal. lia.
Qed.

Lemma overwrite_ok dst p s : bytes_ok dst -> bytes_ok s -> bytes_ok (overwrite dst p s).
Proof. intros. unfold overwrite. repeat apply Forall_app_2; auto using Forall_take, Forall_drop. Qed.

Lemma insert_overwrite (l : list Z) i x : (i < length l)%nat -> <[i := x]> l = overwrite l i [x].
Proof. intros Hi. rewrite insert_take_drop by done. unfold overwrite. simpl. by rewrite Nat.add_1_r. Qed.

(** The cells after a store of the bytes [s] at [l], given what happened to the
    bit map: the bits of the run are [v], the others are unchanged. *)
Lemma store_cells c cs cq' l cl (s : list Z) (v : bool) p :
  ring_ok c -> c_cs c = Live cs -> bytes_ok s -> 0 <= l -> l + Z.of_nat (length s) <= c_cn c ->
  match c_cq c, cq' with
  | None, None => v = false
  | Some cq, Some cq' => forall i, 0 <= i < c_cn c ->
      bit cq' i = if decide (l <= i < l + Z.of_nat (length s)) then Some v else bit cq i
  | _, _ => False
  end -> 0 <= p < c_cn c ->
  let c' := Clist (c_cc c + Z.of_nat (length s)) (c_cn c) (c_cf c) cl
              (Live (overwrite cs (Z.to_nat l) s)) (c_ce c) cq' in
  cell c' p = if decide (l <= p < l + Z.of_nat (length s))
              then (fun b => if v then Z.lor b TTY_QUOTE else b) <$> s !! Z.to_nat (p - l)
              else cell c p.
Proof.
  intros ((cs' & Hcs' & Hcsok & Hlen) & _) Hcs Hs Hl Hend Hq Hp. rewrite Hcs in Hcs'. simplify_eq/=.
  unfold cell. simpl. rewrite Hcs. simpl. unfold zget. rewrite !(decide_True (P := 0 <= p)) by lia.
  rewrite overwrite_lookup by lia. destruct (decide (l <= p < l + Z.of_nat (length s))) as [Hin|Hout].
  - rewrite decide_True by lia. replace (Z.to_nat p - Z.to_nat l)%nat with (Z.to_nat (p - l)) by lia.
    destruct (lookup_lt_is_Some_2 s (Z.to_nat (p - l))) as [b Hb]; [lia|]. rewrite Hb. simpl.
    rewrite land_255_byte by (by eapply Forall_lookup_1 in Hb).
    destruct (c_cq c), cq' as [cq'|]; try done; [|by subst].
    rewrite isset_bit, Hq, decide_True by lia. done.
  - rewrite decide_False by lia. destruct (cs' !! Z.to_nat p); simpl; [|done].
    destruct (c_cq c), cq' as [cq'|]; try done.
    rewrite !isset_bit, Hq, decide_False by lia. done.
Qed.

(** The quote bit of one character. *)
Lemma quote_store c l ch :
  quotes_ok c -> 0 <= l < c_cn c ->
  exists cq' v, (match c_cq c with
       | None => Some c
       | Some cq =>
           cq ← (if decide (Z.land ch TTY_QUOTE <> 0) then setbit cq l else clrbit cq l);
           Some (set_cq c (Some cq))
       end) = Some (set_cq c cq') /\
    match c_cq c, cq' with
    | None, None => v = false
    | Some cq, Some cq' => bytes_ok cq' /\ length cq' = length cq /\ forall i, 0 <= i < c_cn c ->
        bit cq' i = if decide (l <= i < l + 1) then Some v else bit cq i
    | _, _ => False
    end /\
    item (quoting c) ch = (if v then Z.lor (Z.land ch 255) TTY_QUOTE else Z.land ch 255).
Proof.
  intros Hq Hl. unfold quotes_ok, quoting in *. destruct (c_cq c) as [cq|] eqn:Hcq.
  2: { exists None, false. split_and!; [|done|done]. destruct c; simpl in *. by subst. }
  destruct Hq as [Hok Hlen]. pose proof (QMEM_bits _ _ Hl) as Hbits.
  rewrite item_bits. destruct (decide (Z.land ch TTY_QUOTE <> 0)).
  - destruct (setbit_bits cq l) as (cq' & -> & Hl' & Hok' & Hb'); [done|lia|].
    exists (Some cq'), true. split_and!; try done. intros i Hi. rewrite Hb' by lia.
    repeat case_decide; lia || done.
  - destruct (clrbit_masked cq l) as (cq' & -> & Hl' & Hok' & Hb'); [done|lia|].
    exists (Some cq'), false. split_and!; try done. intros i Hi. rewrite Hb' by lia.
    pose proof (QMEM_bits _ _ Hi). destruct (bit_is_Some cq i) as [b ->]; [lia|]. simpl.
    case_bool_decide; case_decide; try lia; by rewrite ?andb_false_r, ?andb_true_r.
Qed.

Lemma byte_land_255 ch : byte_ok (Z.land ch 255).
Proof. change 255 with (Z.ones 8). rewrite Z.land_ones by lia. by apply wrap_range. Qed.

Lemma putc_spec ch c q h :
  holds c q ->
  exists c', putc ch c h = Some (if decide (Z.of_nat (length q) < c_cn c) then 0 else -1, c', h) /\
    quoting c' = quoting c /\ c_cn c' = c_cn c /\
    holds c' (if decide (Z.of_nat (length q) < c_cn c) then q ++ [item (quoting c) ch] else q).
Proof.
  intros Hc. destruct (refill_spec c q h Hc) as (c1 & f & Hre & Hat & Hcq & Hcn).
  assert (quoting c1 = quoting c) as Hqc by (unfold quoting; by rewrite Hcq).
  unfold putc. rewrite Hre. change (negb true) with false. cbv iota beta zeta. rewrite <-Hcn, <-Hqc.
  pose proof Hat as (Hok & Hf & Hcc & Hle & Hcf & Hcl & _).
  destruct (decide (Z.of_nat (length q) < c_cn c1)) as [Hroom|Hfull].
  2: { rewrite decide_True by lia. exists c1. split_and!; [done..|].
       right. split; [intros ->; destruct Hok as (_ & _ & ? & _); simpl in *; lia|]. by exists f. }
  rewrite decide_False by lia. pose proof Hok as ((cs & Hcs & Hcsok & Hlen) & He & Hn & Hq).
  remember (pos (c_cn c1) (f + c_cc c1)) as l eqn:Hldef.
  assert (0 <= l < c_cn c1) as Hl by (subst l; unfold pos; case_decide; lia).
  rewrite Hcl, Hcs. simpl. rewrite zset_in, insert_overwrite by lia. simpl. rewrite decide_False by lia.
  set (cs' := overwrite _ _ _).
  destruct (quote_store (set_cs c1 (Live cs')) l ch) as (cq' & v & Hstore & Hbits & Hitem); [done..|].
  simpl in Hstore, Hbits. rewrite Hstore. simpl. eexists. split; [done|]. split_and!.
  - unfold quoting. simpl. by destruct (c_cq c1), cq'.
  - done.
  - right. split; [by destruct q|]. exists f.
    apply (ring_append c1 _ f q _ l); simpl; try done; try lia.
    + apply (store_ok c1 cs cs' cq' _ 1); try done.
      * apply overwrite_ok; [done|]. apply Forall_singleton, byte_land_255.
      * unfold cs'. rewrite length_overwrite; simpl; lia.
      * destruct (c_cq c1), cq'; naive_solver.
    + f_equal. apply (wrapped_pos c1); [done|lia].
    + intros p Hp.
      etrans; [apply (store_cells c1 cs cq' l (Some (wrapped c1 (l + 1))) [Z.land ch 255] v p)|];
        simpl; try done; try lia.
      * apply Forall_singleton, byte_land_255.
      * destruct (c_cq c1), cq'; naive_solver.
      * destruct (decide (l <= p < l + Z.of_nat 1)); [|done].
        replace (Z.to_nat (p - l)) with 0%nat by lia. simpl.
        change (quoting (set_cs c1 (Live cs'))) with (quoting c1) in Hitem. by rewrite Hitem.
Qed.

(** The next run of [b_to_q]: what is free and contiguous from [c_cl] on. *)
Lemma fill_run_eq c f q count l :
  ring_at c f q -> c_cc c < c_cn c -> 0 < count <= INT_MAX -> c_cl c = Some l ->
  exists k : nat, fill_run c f l count = Z.of_nat k /\ (0 < k)%nat /\ Z.of_nat k <= count /\
    l + Z.of_nat k <= c_cn c /\ c_cc c + Z.of_nat k <= c_cn c.
Proof.
  intros (Hok & Hf & Hcc & Hle & Hcf & Hcl & _) Hfree Hcount Hl. rewrite Hcl in Hl. simplify_eq/=.
  pose proof Hok as (_ & He & Hn & _). exists (Z.to_nat (fill_run c f (pos (c_cn c) (f + c_cc c)) count)).
  unfold fill_run. rewrite He. unfold INT_MAX in *. set (l := pos _ _).
  assert (0 <= l < c_cn c) by (subst l; unfold pos; case_decide; lia).
  destruct (decide (l < f)).
  - rewrite (wrap_small 64) by (unfold in_word; lia). subst l. unfold pos in *. repeat case_decide; lia.
  - rewrite (wrap_small 64) by (unfold in_word; lia). subst l. unfold pos in *. repeat case_decide; lia.
Qed.

(** The quote bits of a run are cleared. *)
Lemma clear_quotes c l (n : nat) :
  quotes_ok c -> 0 <= l -> (0 < n)%nat -> l + Z.of_nat n <= c_cn c ->
  exists cq', match c_cq c with
    | None => cq' = None
    | Some cq => exists a, clrbits cq l (Z.of_nat n) = Some a /\ cq' = Some a
    end /\ match c_cq c, cq' with
    | None, None => True
    | Some cq, Some cq' => (bytes_ok cq' /\ length cq' = length cq) /\ forall i, 0 <= i < c_cn c ->
      bit cq' i = if decide (l <= i < l + Z.of_nat n) then Some false else bit cq i
    | _, _ => False
    end.
Proof.
  intros Hq Hl Hn Hend. unfold quotes_ok in Hq. destruct (c_cq c) as [cq|]; [|by exists None].
  destruct Hq as [Hcqok Hcqlen]. pose proof (QMEM_bits (c_cn c) (c_cn c - 1) ltac:(lia)) as Hb.
  destruct (clrbits_masked cq l (Z.of_nat n)) as (a & Ha & Hal & Haok & Hab); [done|lia|lia|lia|].
  exists (Some a). split; [by exists a|]. split; [done|]. intros i Hi. rewrite Hab by lia.
  destruct (bit_is_Some cq i) as [b ->]; [lia|]. simpl.
  case_bool_decide; case_decide; try lia; by rewrite ?andb_false_r, ?andb_true_r.
Qed.

(** One turn of the loop of [b_to_q], the bit map included. *)
Lemma b_to_q_turn c f q l s :
  ring_at c f q -> c_cl c = Some l -> bytes_ok s -> (0 < length s)%nat -> c_cc c < c_cn c ->
  l + Z.of_nat (length s) <= c_cn c -> c_cc c + Z.of_nat (length s) <= c_cn c ->
  exists cs cq', c_cs c = Live cs /\ Z.of_nat (length cs) = c_cn c /\
    match c_cq c with
    | None => cq' = None
    | Some cq => exists a, clrbits cq l (Z.of_nat (length s)) = Some a /\ cq' = Some a
    end /\
    ring_at (Clist (c_cc c + Z.of_nat (length s)) (c_cn c) (c_cf c)
               (Some (wrapped c (l + Z.of_nat (length s))))
               (Live (overwrite cs (Z.to_nat l) s)) (c_ce c) cq') f (q ++ s).
Proof.
  intros Hat Hl Hs Hpos Hfree Hend Hroom. pose proof Hat as (Hok & Hf & Hcc & Hle & Hcf & Hcl & _).
  pose proof Hok as ((cs & Hcs & Hcsok & Hlen) & He & Hn & Hq).
  assert (0 <= l) as Hl0 by (rewrite Hl in Hcl; simplify_eq; unfold pos; case_decide; lia).
  destruct (clear_quotes c l (length s)) as (cq' & Hclr & Hbits); [done..|].
  exists cs, cq'. split_and!; [done..|].
  apply (ring_append c _ f q s l); simpl; try done; try lia.
  - apply (store_ok c cs _ cq'); try done.
    + by apply overwrite_ok.
    + apply length_overwrite. lia.
    + destruct (c_cq c), cq'; naive_solver.
  - f_equal. by apply wrapped_pos.
  - intros p Hp. etrans; [apply (store_cells c cs cq' l _ s false p)|]; try done; try lia.
    + destruct (c_cq c), cq'; naive_solver.
    + simpl. case_decide; [|done]. by destruct (s !! _).
Qed.

Lemma b_to_q_loop_spec fuel cp (p : nat) count c f q :
  ring_at c f q -> bytes_ok cp -> count <= INT_MAX -> 0 <= count ->
  (p + Z.to_nat count <= length cp)%nat -> (Z.to_nat count < fuel)%nat ->
  let k := Nat.min (Z.to_nat count) (Z.to_nat (c_cn c) - length q) in
  exists c', b_to_q_loop fuel cp (Z.of_nat p) count c = Some (count - Z.of_nat k, c') /\
    quoting c' = quoting c /\ c_cn c' = c_cn c /\ ring_at c' f (q ++ take k (drop p cp)).
Proof.
  revert p count c q. induction fuel as [|fuel IH];
    intros p count c q Hat Hcp Hmax Hcount Hlen Hfuel; [lia|]. cbv zeta. cbn [b_to_q_loop].
  pose proof Hat as (Hok & Hf & Hcc & Hle & Hcf & Hcl & _).
  destruct (decide (0 < count /\ c_cc c < c_cn c)) as [[Hgo Hfree]|Hstop].
  2: { replace (_ `min` _)%nat with 0%nat by lia. rewrite Z.sub_0_r, take_0, app_nil_r. by exists c. }
  destruct (fill_run_eq c f q count _ Hat Hfree ltac:(lia) Hcl)
    as (k & Hrun & Hk & Hkc & Hend & Hroom).
  assert (length (take k (drop p cp)) = k) as Hs by (rewrite length_take, length_drop; lia).
  destruct (b_to_q_turn c f q _ (take k (drop p cp)) Hat Hcl) as (cs & cq' & Hcs & Hcslen & Hcq & Hat');
    rewrite ?Hs; [by apply Forall_take, Forall_drop|done..|].
  rewrite Hs in *. rewrite Hcl, Hcf. simpl. rewrite Hrun, Hcs. simpl.
  assert (0 <= pos (c_cn c) (f + c_cc c) < c_cn c) as Hl by (unfold pos; case_decide; lia).
  rewrite bcopy_overwrite by lia. rewrite !Nat2Z.id. simpl.
  destruct (IH (p + k)%nat (count - Z.of_nat k) _ _ Hat') as (c' & Hloop & Hqu & Hcn & Hfin);
    [done|lia|lia|lia|lia|].
  simpl in Hqu, Hcn, Hloop, Hfin. rewrite length_app, Hs in Hloop, Hfin.
  set (k' := Nat.min _ _) in Hloop, Hfin.
  assert (Z.to_nat count `min` (Z.to_nat (c_cn c) - length q) = k + k')%nat as -> by lia.
  rewrite <-app_assoc, <-drop_drop, take_take_drop in Hfin.
  rewrite Nat2Z.inj_add in Hloop. exists c'. split_and!; try done.
  - rewrite Nat2Z.inj_add, Z.sub_add_distr. destruct (c_cq c) as [cq|] eqn:Hcq0.
    + destruct Hcq as (a & Ha & ->). rewrite decide_False by (destruct Hok as (_ & _ & ? & _); lia).
      rewrite Ha. exact Hloop.
    + subst cq'. unfold set_cl, set_cc, set_cs. simpl. by rewrite Hcq0.
  - rewrite Hqu. unfold quoting. simpl. destruct (c_cq c); naive_solver.
Qed.

Lemma ring_holds c f q : ring_at c f q -> q <> [] -> holds c q.
Proof. intros Hat Hq. right. eauto. Qed.

Lemma b_to_q_spec cp count c q h :
  holds c q -> bytes_ok cp -> count <= INT_MAX -> (Z.to_nat count <= length cp)%nat ->
  let k := Nat.min (Z.to_nat count) (Z.to_nat (c_cn c) - length q) in
  exists c', b_to_q cp count c h = Some (Z.max 0 count - Z.of_nat k, c', h) /\
    quoting c' = quoting c /\ c_cn c' = c_cn c /\ holds c' (q ++ take k cp).
Proof.
  intros Hc Hcp Hmax Hlen. cbv zeta. unfold b_to_q. destruct (decide (count <= 0)) as [Hneg|Hgo].
  { replace (Z.to_nat count) with 0%nat by lia. simpl. rewrite take_0, app_nil_r, Z.max_l by lia.
    by exists c. }
  destruct (refill_spec c q h Hc) as (c1 & f & Hre & Hat & Hcq & Hcn).
  assert (quoting c1 = quoting c) as Hqc by (unfold quoting; by rewrite Hcq).
  rewrite Hre. change (negb true) with false. cbv iota beta zeta. rewrite <-Hcn, <-Hqc.
  pose proof Hat as (Hok & Hf & Hcc & Hle & _). pose proof Hok as (_ & _ & Hn & _).
  rewrite Z.max_r by lia. destruct (decide (c_cc c1 = c_cn c1)) as [Hfull|Hfree].
  { replace (_ `min` _)%nat with 0%nat by lia. rewrite Z.sub_0_r, take_0, app_nil_r.
    exists c1. split_and!; try done. apply (ring_holds _ f); [done|]. intros ->. simpl in *; lia. }
  destruct (b_to_q_loop_spec (S (Z.to_nat count)) cp 0 count c1 f q)
    as (c' & Hloop & Hqu & Hcn' & Hat'); try done; try lia.
  change (Z.of_nat 0) with 0 in Hloop. rewrite Hloop. simpl. exists c'. split_and!; try done.
  apply (ring_holds _ f); [done|].
  intros [-> Hnil]%app_eq_nil. simpl in *. destruct cp; simpl in *; [lia|].
  destruct (Z.to_nat count `min` _)%nat eqn:Hk; [lia|done].
Qed.

(** ** The abstract queue *)

Inductive op :=
| Putc (ch : Z)
| Getc
| Unputc
| BtoQ (bytes : list Z)
| QtoB (count : Z)
| Flush (count : Z).

Definition op_ok (o : op) : Prop :=
  match o with
  | BtoQ bytes => bytes_ok bytes /\ Z.of_nat (length bytes) <= INT_MAX
  | QtoB count | Flush count => count <= INT_MAX
  | _ => True
  end.

#[export] Instance op_ok_dec o : Decision (op_ok o).
Proof. destruct o; unfold op_ok; apply _. Defined.

(** An operation of the code: its result, and the bytes it copied out. *)
Definition run_op (o : op) (c : clist) (h : kheap) : option (Z * list Z * clist * kheap) :=
  match o with
  | Putc ch => '(r, c, h) ← putc ch c h; Some (r, [], c, h)
  | Getc => '(r, c) ← getc c; Some (r, [], c, h)
  | Unputc => '(r, c) ← unputc c; Some (r, [], c, h)
  | BtoQ bytes => '(r, c, h) ← b_to_q bytes (Z.of_nat (length bytes)) c h; Some (r, [], c, h)
  | QtoB count =>
      '(r, c, buf) ← q_to_b c (replicate (Z.to_nat count) 0) count;
      Some (r, take (Z.to_nat r) buf, c, h)
  | Flush count => c ← ndflush c count; Some (0, [], c, h)
  end.

(** The same on a queue of at most [n] characters. *)
Definition spec_op (n : Z) (quot : bool) (o : op) (q : list Z) : Z * list Z * list Z :=
  match o with
  | Putc ch =>
      if decide (Z.of_nat (length q) < n) then (0, [], q ++ [item quot ch]) else (-1, [], q)
  | Getc => match q with [] => (-1, [], []) | x :: q => (x, [], q) end
  | Unputc => match last q with None => (-1, [], q) | Some x => (x, [], take (length q - 1) q) end
  | BtoQ bytes =>
      let k := Nat.min (length bytes) (Z.to_nat n - length q) in
      (Z.of_nat (length bytes - k), [], q ++ take k bytes)
  | QtoB count =>
      let k := Nat.min (Z.to_nat count) (length q) in
      (Z.of_nat k, (fun x => Z.land x 255) <$> take k q, drop k q)
  | Flush count => (0, [], drop (Z.to_nat count) q)
  end.

Fixpoint run_ops (os : list op) (c : clist) (h : kheap) : option (list (Z * list Z) * clist * kheap) :=
  match os with
  | [] => Some ([], c, h)
  | o :: os =>
      '(r, bytes, c, h) ← run_op o c h;
      '(rs, c, h) ← run_ops os c h;
      Some ((r, bytes) :: rs, c, h)
  end.

Fixpoint spec_ops (n : Z) (quot : bool) (os : list op) (q : list Z) : list (Z * list Z) * list Z :=
  match os with
  | [] => ([], q)
  | o :: os =>
      let '(r, bytes, q) := spec_op n quot o q in
      let '(rs, q) := spec_ops n quot os q in
      ((r, bytes) :: rs, q)
  end.

Lemma reset_same c : c_cn (reset_if_empty c) = c_cn c /\ quoting (reset_if_empty c) = quoting c.
Proof. unfold reset_if_empty. by case_decide. Qed.

Lemma q_to_b_loop_same fuel c buf p count c' buf' p' :
  q_to_b_loop fuel c buf p count = Some (c', buf', p') ->
  c_cn c' = c_cn c /\ quoting c' = quoting c.
Proof.
  revert c buf p count. induction fuel as [|fuel IH]; intros c buf p count; simpl; [done|].
  case_decide; [|by intros; simplify_eq]. intros (l & _ & (f & _ & (cs & _ & (b & _ & Hl)%bind_Some)
    %bind_Some)%bind_Some)%bind_Some. by apply IH in Hl.
Qed.

Lemma ndflush_loop_same fuel c count c' :
  ndflush_loop fuel c count = Some c' -> c_cn c' = c_cn c /\ quoting c' = quoting c.
Proof.
  revert c count. induction fuel as [|fuel IH]; intros c count; simpl; [done|].
  case_decide; [|by intros; simplify_eq].
  intros (l & _ & (f & _ & Hl)%bind_Some)%bind_Some. by apply IH in Hl.
Qed.

(** No operation changes the size of a ring or whether it has quote bits. *)
Lemma taking_same c c' r :
  (getc c = Some (r, c') \/ unputc c = Some (r, c') \/
   (exists buf buf' count, q_to_b c buf count = Some (r, c', buf')) \/
   (exists count, ndflush c count = Some c')) ->
  c_cn c' = c_cn c /\ quoting c' = quoting c.
Proof.
  intros [H|[H|[(buf & buf' & count & H)|(count & H)]]].
  - unfold getc in H. case_decide; [by simplify_eq|].
    apply bind_Some in H as (f & _ & (ch & _ & Hr)%bind_Some). simplify_eq.
    match goal with |- context [reset_if_empty ?x] => apply (reset_same x) end.
  - unfold unputc in H. case_decide; [by simplify_eq|].
    apply bind_Some in H as (l & _ & (ch & _ & Hr)%bind_Some). simplify_eq.
    match goal with |- context [reset_if_empty ?x] => apply (reset_same x) end.
  - unfold q_to_b in H. apply bind_Some in H as ([[c1 b1] p1] & Hl & Hr). simplify_eq.
    apply q_to_b_loop_same in Hl as [<- <-]. apply reset_same.
  - unfold ndflush in H. case_decide; [by simplify_eq|].
    apply bind_Some in H as (c1 & Hl & Hr). simplify_eq.
    apply ndflush_loop_same in Hl as [<- <-]. apply reset_same.
Qed.

Lemma run_op_spec o c h q :
  holds c q -> op_ok o ->
  let '(r, bytes, q') := spec_op (c_cn c) (quoting c) o q in
  exists c', run_op o c h = Some (r, bytes, c', h) /\ holds c' q' /\
    c_cn c' = c_cn c /\ quoting c' = quoting c.
Proof.
  intros Hc Ho. destruct o as [ch| | |bytes|count|count]; simpl.
  - destruct (putc_spec ch c q h Hc) as (c' & -> & Hqu & Hcn & Hc'). simpl.
    case_decide; eauto.
  - destruct q as [|x q]; [rewrite getc_nil by done; eauto|].
    destruct (getc_cons c x q Hc) as (c' & Hg & Hc'). rewrite Hg. simpl.
    exists c'. split_and!; try done; eapply (taking_same c c'); eauto.
  - destruct (last q) as [x|] eqn:Hlast.
    + apply last_Some in Hlast as [q' ->].
      destruct (unputc_snoc c x q' Hc) as (c' & Hg & Hc'). rewrite Hg. simpl.
      rewrite length_app, Nat.add_sub, take_app_length.
      exists c'. split_and!; try done; eapply (taking_same c c'); eauto.
    + apply last_None in Hlast as ->. rewrite unputc_nil by done. eauto.
  - destruct Ho as [Hok Hmax]. destruct (b_to_q_spec bytes (Z.of_nat (length bytes)) c q h)
      as (c' & Hb & Hqu & Hcn & Hc'); [done..|lia|].
    rewrite Hb. simpl. rewrite Nat2Z.id in *. exists c'. split_and!; try done.
    do 4 f_equal. lia.
  - destruct (q_to_b_spec c q (replicate (Z.to_nat count) 0) count) as (c' & Hb & Hc');
      [done..|by rewrite length_replicate|].
    rewrite Hb. simpl. rewrite Nat2Z.id. exists c'.
    assert (length ((fun x => Z.land x 255) <$> take (Z.to_nat count `min` length q) q)
            = Z.to_nat count `min` length q)%nat as Hlen by (rewrite length_fmap, length_take; lia).
    split_and!; try done; try (eapply (taking_same c c'); eauto 10).
    unfold overwrite. simpl. by rewrite take_app_length' by done.
  - destruct (ndflush_spec c q count Hc Ho) as (c' & Hb & Hc'). rewrite Hb. simpl.
    exists c'. split_and!; try done; eapply (taking_same c c' 0); eauto 10.
Qed.

Lemma run_ops_spec os c h q :
  holds c q -> Forall op_ok os ->
  let '(rs, q') := spec_ops (c_cn c) (quoting c) os q in
  exists c', run_ops os c h = Some (rs, c', h) /\ holds c' q'.
Proof.
  revert c q. induction os as [|o os IH]; intros c q Hc Hos; simpl; [by exists c|].
  inversion_clear Hos as [|?? Ho Hrest]. pose proof (run_op_spec o c h q Hc Ho) as Hop.
  destruct (spec_op (c_cn c) (quoting c) o q) as [[r bytes] q1].
  destruct Hop as (c1 & -> & Hc1 & Hcn & Hqu). rewrite bind_some.
  specialize (IH c1 q1 Hc1 Hrest). rewrite Hcn, Hqu in IH.
  destruct (spec_ops (c_cn c) (quoting c) os q1) as [rs q2].
  destruct IH as (c2 & -> & Hc2). by exists c2.
Qed.

Lemma clalloc_holds c0 size quot h c h' :
  0 < size <= INT_MAX -> clalloc c0 size quot h = (0, c, h') ->
  holds c [] /\ c_cn c = size /\ quoting c = quot.
Proof.
  intros Hsize. unfold clalloc, kalloc_data. cbv zeta beta iota.
  destruct (default true (head (answers h))); [|intros; simplify_eq].
  assert (forall n, 0 <= n -> bytes_ok (replicate (Z.to_nat n) 0) /\
    Z.of_nat (length (replicate (Z.to_nat n) 0)) = n) as Hzero.
  { intros n Hn. rewrite length_replicate. split; [by apply Forall_replicate|lia]. }
  assert (0 <= QMEM size) by (unfold QMEM, NBBY; lia).
  destruct quot; [destruct (default true (head (answers _))); [|intros; simplify_eq]|];
    intros; simplify_eq/=; (split; [left; split_and!; try done|done]); split_and!; simpl;
    try done; try lia.
  - eexists. split; [done|]. apply Hzero. lia.
  - by apply Hzero.
  - eexists. split; [done|]. apply Hzero. lia.
Qed.

Lemma holds_nonneg c q : holds c q -> Forall (fun x => 0 <= x) q.
Proof.
  intros [(-> & _)|(_ & f & Hok & Hf & Hcc & Hle & Hcf & Hcl & Hcells)]; [done|].
  apply Forall_lookup. intros i x Hx. apply lookup_lt_Some in Hx as Hlt.
  pose proof Hok as ((cs & Hcs & _) & _).
  apply (cell_byte c cs (pos (c_cn c) (f + Z.of_nat i))); [done|done| |by apply Hcells].
  unfold pos. case_decide; lia.
Qed.

Lemma catq_loop_spec fuel from to h q r :
  holds from q -> holds to r -> (length q < fuel)%nat ->
  exists from' to', catq_loop fuel from to h = Some (from', to', h) /\ holds from' [] /\
    holds to' (r ++ take (Z.to_nat (c_cn to) - length r) (item (quoting to) <$> q)).
Proof.
  revert from to q r. induction fuel as [|fuel IH]; intros from to q r Hfrom Hto Hfuel; [lia|].
  cbn [catq_loop]. destruct q as [|x q].
  { rewrite getc_nil by done. simpl. rewrite take_nil, app_nil_r. by exists from, to. }
  pose proof (holds_nonneg _ _ Hfrom) as Hx. apply Forall_cons in Hx as [Hx _].
  destruct (getc_cons from x q Hfrom) as (from' & -> & Hfrom'). simpl.
  rewrite decide_False by lia. destruct (putc_spec x to r h Hto) as (to' & -> & Hqu & Hcn & Hto'). simpl.
  destruct (IH from' to' q _ Hfrom' Hto') as (f2 & t2 & -> & Hf2 & Ht2); [simpl in Hfuel; lia|].
  exists f2, t2. split_and!; [done..|]. rewrite Hqu, Hcn in Ht2.
  destruct (decide (Z.of_nat (length r) < c_cn to)) as [Hroom|Hfull].
  - rewrite length_app, <-app_assoc in Ht2. simpl in Ht2.
    replace (Z.to_nat (c_cn to) - length r)%nat
      with (S (Z.to_nat (c_cn to) - (length r + 1)))%nat by lia. done.
  - replace (Z.to_nat (c_cn to) - length r)%nat with 0%nat in * by lia. done.
Qed.

(** ** Walking a queue *)

Fixpoint nexts (fuel : nat) (c : clist) (p cc : Z) : option (list Z) :=
  match fuel with
  | O => None
  | S fuel =>
      '(r, cc) ← nextc c (Some p) cc;
      match r with
      | None => Some []
      | Some (p, ch) => l ← nexts fuel c p cc; Some (ch :: l)
      end
  end.

(** The characters a caller of [firstc] and [nextc] sees, the first one included. *)
Definition walk (c : clist) : option (list Z) :=
  '(r, cc) ← firstc c;
  match r with
  | None => Some []
  | Some (p, ch) => l ← nexts (S (Z.to_nat cc)) c p cc; Some (ch :: l)
  end.

Lemma nexts_spec fuel c f q (i : nat) :
  ring_at c f q -> (i < length q)%nat -> (length q - i <= fuel)%nat ->
  nexts fuel c (pos (c_cn c) (f + Z.of_nat i)) (c_cc c - Z.of_nat i) = Some (drop (S i) q).
Proof.
  intros Hat. pose proof Hat as (Hok & Hf & Hcc & Hle & Hcf & Hcl & Hcells).
  revert i. induction fuel as [|fuel IH]; intros i Hi Hfuel; [lia|]. cbn [nexts].
  unfold nextc. rewrite Hcf.
  replace (if decide (Some f = _) then c_cc c else c_cc c - Z.of_nat i) with (c_cc c - Z.of_nat i).
  2: { case_decide as Hsame; [|done]. simplify_eq. unfold pos in Hsame. case_decide; lia. }
  cbv zeta. rewrite decide_False by lia. destruct (decide (c_cc c - Z.of_nat i - 1 = 0)) as [Hlast|Hmore].
  - rewrite bind_some. by rewrite drop_ge by lia.
  - assert (wrapped c (pos (c_cn c) (f + Z.of_nat i) + 1) = pos (c_cn c) (f + Z.of_nat (S i))) as Hnext.
    { rewrite wrapped_pos; [|apply Hok|]; unfold pos; repeat case_decide; lia. }
    rewrite Hnext. destruct (lookup_lt_is_Some_2 q (S i)) as [x Hx]; [lia|].
    rewrite (Hcells _ _ Hx). simpl.
    replace (c_cc c - Z.of_nat i - 1) with (c_cc c - Z.of_nat (S i)) by lia.
    rewrite IH by lia. simpl. by rewrite (drop_S _ _ _ Hx).
Qed.

(** ** Properties *)

(** C13. A clist implements a bounded double-ended queue: after a successful
    [clalloc] of any size, every sequence of [putc], [getc], [unputc], [b_to_q],
    [q_to_b] and [ndflush] runs without an access outside the ring, its bit map
    or the caller's buffer, and returns the results, and copies out the bytes, of
    the same operations on a list of at most [size] characters, however the
    contents wrap around the ring and however the quote bits are packed. *)
Theorem clist_refines_queue c0 size quot h c h' os :
  0 < size <= INT_MAX -> clalloc c0 size quot h = (0, c, h') -> Forall op_ok os ->
  exists c', run_ops os c h' = Some ((spec_ops size quot os []).1, c', h') /\
    holds c' (spec_ops size quot os []).2.
Proof.
  intros Hsize Halloc Hos. destruct (clalloc_holds _ _ _ _ _ _ Hsize Halloc) as (Hc & Hcn & Hqu).
  pose proof (run_ops_spec os c h' [] Hc Hos) as Hrun. rewrite Hcn, Hqu in Hrun.
  by destruct (spec_ops size quot os []) as [rs q].
Qed.

Definition empty_clist : clist := Clist 0 0 None None Null 0 None.

Definition demo_ops : list op :=
  [BtoQ [97; 98; 99]; Putc (100 + 256); Getc; Getc; BtoQ [101; 102; 103; 104];
   Unputc; QtoB 3; Getc; Flush 5; Getc].

Lemma clist_refines_queue_witness :
  exists c', run_ops demo_ops (Clist 0 5 None None (Live [0; 0; 0; 0; 0]) 5 (Some [0])) (KHeap [] []) =
      Some ([(0, []); (0, []); (97, []); (98, []); (1, []); (103, []); (3, [99; 100; 101]); (102, []);
             (0, []); (-1, [])], c', KHeap [] []) /\ holds c' [].
Proof.
  apply (clist_refines_queue empty_clist 5 true (KHeap [] []) _ _ demo_ops);
    [unfold INT_MAX; lia|reflexivity|].
  apply (bool_decide_unpack _). vm_compute. exact I.
Defined.

(** The bit-map routine does what the loop it replaces does: on a map that
    has the bits, [clrbits] clears the [len] bits from [off] on, one or many, in
    one byte or across several, and no other bit, and it never touches a byte
    outside the map, in particular the one after it when the run ends there. *)
Theorem clrbits_clears a off len :
  bytes_ok a -> 0 <= off -> 1 <= len -> off + len <= 8 * Z.of_nat (length a) ->
  exists a', clrbits a off len = Some a' /\
    for_range (Z.to_nat len) (fun i cp => clrbit cp (off + Z.of_nat i)) a = Some a' /\
    forall i, 0 <= i -> isset a' i =
      (if decide (off <= i < off + len) then Some false else isset a i).
Proof.
  intros Ha Hoff Hlen Hend.
  destruct (clrbits_masked a off len Ha Hoff Hlen Hend) as (a' & Hclr & Hm).
  destruct (clrbit_loop_masked a off (Z.to_nat len)) as (b & Hloop & Hb); [done|lia|lia|].
  rewrite Z2Nat.id in Hb by lia. exists a'. split_and!; [done| |].
  - rewrite Hloop. f_equal. by apply (masked_unique _ _ _ _ Hb).
  - intros i Hi. rewrite !isset_bit. destruct Hm as (_ & _ & ->); [|done].
    case_decide.
    + destruct (bit_is_Some a i) as [x ->]; [lia|]. simpl. by rewrite bool_decide_true, andb_false_r.
    + rewrite bool_decide_false by done. destruct (bit a i); simpl; [|done]. by rewrite andb_true_r.
Qed.

Lemma clrbits_clears_witness :
  exists a', clrbits [255; 255; 255; 255] 5 19 = Some a' /\
    for_range 19 (fun i cp => clrbit cp (5 + Z.of_nat i)) [255; 255; 255; 255] = Some a' /\
    forall i, 0 <= i -> isset a' i =
      (if decide (5 <= i < 5 + 19) then Some false else isset [255; 255; 255; 255] i).
Proof.
  apply (clrbits_clears [255; 255; 255; 255] 5 19); [|lia|lia|simpl; lia].
  apply (bool_decide_unpack _). vm_compute. exact I.
Defined.

(** [firstc] and then [nextc] until it returns NULL visit the characters of a
    queue, with their quote bits, in order and each of them once, through the end
    of the ring; the counter they share is not set back on the way. *)
Theorem clist_walk c q : holds c q -> walk c = Some q.
Proof.
  intros Hc. pose proof (holds_length _ _ Hc) as Hcc. unfold walk, firstc. destruct q as [|x q].
  - by rewrite decide_True.
  - destruct Hc as [[? _]|(_ & f & Hat)]; [done|]. pose proof Hat as (_ & Hf & _ & _ & Hcf & _ & Hcells).
    simpl in Hcc. rewrite decide_False, Hcf by lia. rewrite bind_some.
    pose proof (Hcells 0%nat x eq_refl) as Hx.
    pose proof (nexts_spec (S (Z.to_nat (c_cc c))) c f (x :: q) 0 Hat) as Hn.
    replace (pos _ _) with f in Hx, Hn by (unfold pos; case_decide; lia).
    rewrite Z.sub_0_r in Hn. rewrite Hx, !bind_some, Hn by (simpl; lia). done.
Qed.

Lemma clist_walk_witness :
  walk (Clist 3 4 (Some 2) (Some 1) (Live [99; 0; 97; 98]) 4 (Some [8])) = Some [97; 98 + 256; 99].
Proof.
  apply (clist_walk (Clist 3 4 (Some 2) (Some 1) (Live [99; 0; 97; 98]) 4 (Some [8]))).
  right. split; [done|]. exists 2. split_and!; simpl; try done; try lia.
  - split_and!; simpl; try done; try (unfold INT_MAX; lia).
    + exists [99; 0; 97; 98]. split_and!; [done| |done].
      apply (bool_decide_unpack _). vm_compute. exact I.
    + split; [|done]. apply (bool_decide_unpack _). vm_compute. exact I.
  - intros i x Hi. destruct i as [|[|[|i]]]; simplify_eq/=; reflexivity.
Defined.

(** [catq] moves every character: the source is left empty, and the
    destination gets its characters in order, as far as they fit; what does not
    fit is lost, as is the quote bit in a destination without a bit map. *)
Theorem catq_appends from to h q r :
  holds from q -> holds to r ->
  exists from' to', catq from to h = Some (from', to', h) /\ holds from' [] /\
    holds to' (r ++ take (Z.to_nat (c_cn to) - length r) (item (quoting to) <$> q)).
Proof.
  intros Hfrom Hto. apply catq_loop_spec; [done..|]. rewrite (holds_length _ _ Hfrom). lia.
Qed.

(** A ring of one cell, which holds one character, and an empty one of three. *)
Lemma catq_appends_witness :
  exists from' to', catq (Clist 1 1 (Some 0) (Some 0) (Live [65]) 1 None)
        (Clist 0 3 None None (Live [0; 0; 0]) 3 None) (KHeap [] []) = Some (from', to', KHeap [] []) /\
      holds from' [] /\ holds to' [65].
Proof.
  apply (catq_appends (Clist 1 1 (Some 0) (Some 0) (Live [65]) 1 None)
           (Clist 0 3 None None (Live [0; 0; 0]) 3 None) (KHeap [] []) [65] []).
  - right. split; [done|]. exists 0. split_and!; simpl; try done; try lia.
    + split_and!; simpl; try done; try (unfold INT_MAX; lia). exists [65]. split_and!; [done| |done].
      apply (bool_decide_unpack _). vm_compute. exact I.
    + intros i x Hi. destruct i as [|i]; simplify_eq/=; reflexivity.
  - left. split_and!; simpl; try done. split_and!; simpl; try done; try (unfold INT_MAX; lia).
    exists [0; 0; 0]. split_and!; [done| |done]. apply (bool_decide_unpack _). vm_compute. exact I.
Defined.

(** [ndqb] with [TTY_QUOTE] looks up the quote bit after the character: it reads
    past the bit map at the end of a ring whose size is a multiple of 8, and it
    stops before the character that precedes a quoted one. *)
Theorem ndqb_quote_overread :
  ndqb (Clist 1 8 (Some 7) (Some 0) (Live [0; 0; 0; 0; 0; 0; 0; 65]) 8 (Some [0])) TTY_QUOTE = None /\
  ndqb (Clist 2 8 (Some 0) (Some 2) (Live [65; 66; 0; 0; 0; 0; 0; 0]) 8 (Some [2])) TTY_QUOTE = Some 0.
Proof. split; vm_compute; reflexivity. Qed.

(** A [clalloc] whose second request fails leaves [c_cs] pointing to what it
    freed; the next [putc] on a queue that had been in use writes there. *)
Theorem clalloc_failure_dangles :
  let '(_, c, h) := clalloc empty_clist 1024 true (KHeap [true; true; true; false] []) in
  let '(c, h) := clfree c h in
  exists c' h', putc 65 c h = Some (-1, c', h') /\ c_cs c' = Freed /\ putc 65 c' h' = None.
Proof. vm_compute. eauto. Qed.
