(* ===== verification/KmOutput.v ===== *)
(** * The console driver's output

    [kmputc], [kmoutput] and [kmstart] of [bsd/dev/i386/km.c] (the arm driver has
    the same code): the client of a clist that drains the output queue of the
    console terminal, asking [ndqb] for what is contiguous and copying at most
    80 characters at a time.  It is shown to write out the whole of a queue that
    does not reach the end of its ring, and to make no progress at all on one
    that does without filling it. *)
From S2P Require Import Prelude Clist.

Local Open Scope Z_scope.

(** What the driver asks of its environment, in order. *)
Inductive km_event :=
| ConsoleWrite (buf : list Z)
| ConsoleWriteChar (c : Z)
| Timeout
| LStart.

Abbreviation TS_BUSY := (4)%Z.
Abbreviation TS_TIMEOUT := (128)%Z.
Abbreviation TS_TTSTOP := (256)%Z.

(** The fields of a [struct tty] that the driver uses. *)
Record tty := Tty { t_outq : clist; t_state : Z }.

Definition kmputc (initialized : bool) (c : Z) : list km_event :=
  if initialized then
    (if decide (c = 10) then [ConsoleWriteChar 13] else []) ++ [ConsoleWriteChar c]
  else [].

(** The size of [buf]. *)
Abbreviation sizeof_buf := (80)%Z.

(** The loop; each turn takes a character at least. *)
Fixpoint kmoutput_loop (fuel : nat) (initialized : bool) (q : clist) : option (clist * list km_event) :=
  match fuel with
  | O => None
  | S fuel =>
      if decide (0 < c_cc q) then
        cc ← ndqb q 0;
        if decide (cc = 0) then Some (q, []) else
        let cc := Z.min cc sizeof_buf in
        '(_, q, buf) ← q_to_b q (replicate (Z.to_nat sizeof_buf) 0) cc;
        let buf := (fun c => Z.land c 127) <$> take (Z.to_nat cc) buf in
        evs ← (if decide (1 < cc) then Some [ConsoleWrite buf]
               else c ← head buf; Some (kmputc initialized c));
        '(q, rest) ← kmoutput_loop fuel initialized q;
        Some (q, evs ++ rest)
      else Some (q, [])
  end.

Definition kmoutput (initialized : bool) (tp : tty) : option (tty * list km_event) :=
  '(q, evs) ← kmoutput_loop (S (Z.to_nat (c_cc (t_outq tp)))) initialized (t_outq tp);
  let evs := if decide (0 < c_cc q) then evs ++ [Timeout] else evs in
  Some (Tty q (Z.land (t_state tp) (Z.lnot TS_BUSY)), evs ++ [LStart]).

Definition kmstart (initialized : bool) (tp : tty) : option (tty * list km_event) :=
  if decide (Z.land (t_state tp) (Z.lor (Z.lor TS_TIMEOUT TS_BUSY) TS_TTSTOP) <> 0)
  then Some (tp, [LStart]) else
  if decide (c_cc (t_outq tp) = 0) then Some (tp, [LStart]) else
  kmoutput initialized (Tty (t_outq tp) (Z.lor (t_state tp) TS_BUSY)).

(** The lock around the call is not modelled. *)
Definition kmtimeout (initialized : bool) (tp : tty) : option (tty * list km_event) := kmoutput initialized tp.

(** ** What reaches the console *)

Definition text (evs : list km_event) : list Z :=
  mjoin ((fun e => match e with
          | ConsoleWrite buf => buf
          | ConsoleWriteChar c => [c]
          | _ => []
          end) <$> evs).

(** The text without the carriage returns, which [kmputc] may add. *)
Definition no_cr (l : list Z) : list Z := filter (fun c => c <> 13) l.

(** The 7-bit characters of a queue. *)
Definition low7 (q : list Z) : list Z := (fun c => Z.land c 127) <$> q.

Lemma text_app e1 e2 : text (e1 ++ e2) = text e1 ++ text e2.
Proof. unfold text. by rewrite fmap_app, join_app. Qed.

Lemma text_write buf : text [ConsoleWrite buf] = buf.
Proof. unfold text. simpl. apply app_nil_r. Qed.

Lemma kmputc_text c : no_cr (text (kmputc true c)) = no_cr [c].
Proof. unfold kmputc. by destruct (decide (c = 10)). Qed.

Lemma land_127_255 x : Z.land (Z.land x 255) 127 = Z.land x 127.
Proof. by rewrite <-Z.land_assoc. Qed.

(** The exact value of [ndqb] without flags: the length of the contiguous part,
    but 0 when the contents reach the end of the ring and do not fill it. *)
Lemma ndqb_plain_eq c f q :
  ring_at c f q -> q <> [] ->
  ndqb c 0 = Some (if decide (f + c_cc c < c_cn c \/ c_cc c = c_cn c)
                   then Z.min (c_cc c) (c_cn c - f) else 0).
Proof.
  intros (Hok & Hf & Hcc & Hle & Hcf & Hcl & _) Hq. pose proof Hok as (_ & He & Hn & _).
  destruct q as [|x q]; [done|]. simpl in Hcc. unfold ndqb.
  rewrite decide_False, decide_True, Hcl, Hcf, He by lia. simpl. f_equal.
  unfold INT_MAX, pos in *.
  assert (forall d, 0 <= d < c_cn c -> u64 d = d) as Hsmall.
  { intros d Hd. apply wrap_small. unfold in_word. lia. }
  assert (u64 (c_cn c - f) = c_cn c - f) as Hend by (apply wrap_small; unfold in_word; lia).
  destruct (decide (f + c_cc c < c_cn c \/ c_cc c = c_cn c)) as [Hgood|Hbad].
  - destruct (decide (f + c_cc c < c_cn c)).
    + rewrite (Hsmall (f + c_cc c - f)) by lia. repeat case_decide; lia.
    + replace (f + c_cc c - c_cn c - f) with 0 by lia. rewrite Hend.
      change (u64 0) with 0. repeat case_decide; lia.
  - rewrite (decide_False (P := f + c_cc c < c_cn c)) by lia.
    replace (u64 (f + c_cc c - c_cn c - f)) with (2 ^ 64 + (c_cc c - c_cn c)).
    2: { unfold wrap. apply Z.mod_unique with (-1); lia. }
    rewrite (decide_False (P := _ = 0)) by lia. rewrite decide_True by lia. done.
Qed.

(** A copy of contiguous characters is one run. *)
Lemma q_to_b_contiguous c f q (k : nat) :
  ring_at c f q -> (0 < k <= length q)%nat -> f + Z.of_nat k <= c_cn c -> Z.of_nat k <= sizeof_buf ->
  exists buf', q_to_b c (replicate (Z.to_nat sizeof_buf) 0) (Z.of_nat k)
      = Some (Z.of_nat k, reset_if_empty (drained c f (Z.of_nat k)), buf') /\
    take k buf' = (fun x => Z.land x 255) <$> take k q.
Proof.
  intros Hat Hk Hend Hbuf.
  pose proof Hat as (Hok & Hf & Hcc & Hle & Hcf & Hcl & _). pose proof Hok as ((cs & Hcs & _ & Hlen) & _).
  unfold q_to_b. rewrite Nat2Z.id. cbn [q_to_b_loop]. rewrite decide_True by lia.
  rewrite Hcl, Hcf. simpl.
  rewrite (drain_run_eq c f q); [|done|destruct q; simpl in *; [lia|done]|unfold INT_MAX; lia|done].
  rewrite Z.min_l, Hcs by lia. simpl. rewrite bcopy_overwrite; [|lia|lia|lia|lia|simpl; lia].
  rewrite Nat2Z.id, (run_bytes c f q) by (done || lia). simpl.
  destruct k as [|k]; [lia|]. rewrite Z.sub_diag. cbn [q_to_b_loop]. rewrite decide_False by lia. simpl.
  eexists. split; [do 3 f_equal; unfold INT_MAX; lia|].
  unfold overwrite. change (Z.to_nat 0) with 0%nat. rewrite take_0, app_nil_l.
  apply take_app_length'. rewrite length_fmap, length_take. lia.
Qed.

Lemma kmoutput_loop_drains fuel c f q :
  ring_at c f q -> f + c_cc c < c_cn c -> (length q < fuel)%nat ->
  exists c' evs, kmoutput_loop fuel true (reset_if_empty c) = Some (c', evs) /\ holds c' [] /\
    no_cr (text evs) = no_cr (low7 q).
Proof.
  revert c f q. induction fuel as [|fuel IH]; intros c f q Hat Hend Hfuel; [lia|].
  pose proof Hat as (Hok & Hf & Hcc & Hle & Hcf & Hcl & _). cbn [kmoutput_loop].
  destruct q as [|x q].
  { pose proof (settle _ _ _ Hat) as Hh. pose proof (holds_length _ _ Hh) as Hz.
    rewrite decide_False by (rewrite Hz; simpl; lia). by exists (reset_if_empty c), []. }
  assert (reset_if_empty c = c) as ->.
  { unfold reset_if_empty. rewrite decide_False; [done|]. simpl in Hcc. lia. }
  simpl in Hcc. rewrite decide_True, (ndqb_plain_eq c f (x :: q)) by (done || lia).
  rewrite decide_True, bind_some, decide_False by lia. cbv zeta.
  replace (Z.min (Z.min (c_cc c) (c_cn c - f)) sizeof_buf)
    with (Z.of_nat (Nat.min (length (x :: q)) 80)) by (simpl length; lia).
  set (k := Nat.min (length (x :: q)) 80).
  assert (0 < k <= length (x :: q))%nat as Hk by (subst k; simpl; lia).
  assert (Z.of_nat k <= sizeof_buf) as Hk80 by (subst k; lia).
  assert (f + Z.of_nat k < c_cn c) as Hfk by (simpl in Hk; lia).
  destruct (q_to_b_contiguous c f (x :: q) k) as (buf & -> & Hbuf); [done..|lia|done|].
  rewrite bind_some, Nat2Z.id, Hbuf. clearbody k.
  assert (forall l, (fun c => Z.land c 127) <$> ((fun x => Z.land x 255) <$> l) = low7 l) as Hlow.
  { intros l. unfold low7. rewrite <-list_fmap_compose. apply list_fmap_ext. intros i y _.
    apply land_127_255. }
  rewrite Hlow. pose proof (ring_drop c f (x :: q) k Hat ltac:(lia) ltac:(lia)) as Hat'.
  destruct (IH _ _ _ Hat') as (c' & rest & -> & Hc' & Htext).
  { unfold pos. simpl. rewrite decide_True by lia. lia. }
  { rewrite length_drop. lia. }
  assert (low7 (x :: q) = low7 (take k (x :: q)) ++ low7 (drop k (x :: q))) as Hsplit.
  { unfold low7. by rewrite <-fmap_app, take_drop. }
  rewrite Hsplit. unfold no_cr in *. rewrite filter_app, <-Htext. case_decide as Hone.
  - rewrite !bind_some. eexists _, _. split; [done|]. split; [done|].
    by rewrite text_app, text_write, filter_app.
  - assert (k = 1%nat) as -> by lia.
    change (head (low7 (take 1 (x :: q)))) with (Some (Z.land x 127)). rewrite !bind_some. eexists _, _. split; [done|]. split; [done|].
    rewrite text_app, filter_app. f_equal. apply kmputc_text.
Qed.

(** ** Properties *)

(** A queue whose contents stop short of the end of its ring is written out
    completely: one call of [kmoutput] leaves it empty, shows its characters in
    order, cut to 7 bits, with at most carriage returns added, asks for no
    timeout and calls the line discipline last. *)
Theorem kmoutput_drains c f q state :
  ring_at c f q -> q <> [] -> f + c_cc c < c_cn c ->
  exists c' evs, kmoutput true (Tty c state) =
      Some (Tty c' (Z.land state (Z.lnot TS_BUSY)), evs ++ [LStart]) /\
    holds c' [] /\ no_cr (text evs) = no_cr (low7 q).
Proof.
  intros Hat Hq Hend. pose proof Hat as (_ & _ & Hcc & _). unfold kmoutput. simpl t_outq.
  destruct (kmoutput_loop_drains (S (Z.to_nat (c_cc c))) c f q) as (c' & evs & Hloop & Hc' & Htext);
    [done..|lia|].
  assert (reset_if_empty c = c) as Hr.
  { unfold reset_if_empty. rewrite decide_False; [done|]. destruct q; [done|]. simpl in Hcc. lia. }
  rewrite Hr in Hloop. rewrite Hloop, bind_some.
  rewrite decide_False by (rewrite (holds_length _ _ Hc'); simpl; lia). by exists c', evs.
Qed.

Lemma kmoutput_drains_witness :
  exists c' evs, kmoutput true (Tty (Clist 2 4 (Some 1) (Some 3) (Live [0; 72; 10; 0]) 4 None) 5) =
      Some (Tty c' (Z.land 5 (Z.lnot TS_BUSY)), evs ++ [LStart]) /\
    holds c' [] /\ no_cr (text evs) = no_cr (low7 [72; 10]).
Proof.
  apply (kmoutput_drains (Clist 2 4 (Some 1) (Some 3) (Live [0; 72; 10; 0]) 4 None) 1 [72; 10] 5);
    [|done|done].
  split_and!; simpl; try done; try lia.
  - split_and!; simpl; try done; try (unfold INT_MAX; lia).
    exists [0; 72; 10; 0]. split_and!; [done| |done]. apply (bool_decide_unpack _). vm_compute. exact I.
  - intros i x Hi. destruct i as [|[|i]]; simplify_eq/=; reflexivity.
Defined.

(** A queue whose contents reach the end of its ring without filling it is
    never written out: [ndqb] computes the distance of the pointers in an unsigned
    type and answers 0, so [kmoutput] shows nothing, leaves the queue as it is and
    asks to be called again, which changes nothing. *)
Theorem kmoutput_stalls initialized c f q state :
  ring_at c f q -> c_cn c <= f + c_cc c -> c_cc c < c_cn c ->
  ndqb c 0 = Some 0 /\
  kmoutput initialized (Tty c state) =
    Some (Tty c (Z.land state (Z.lnot TS_BUSY)), [Timeout; LStart]).
Proof.
  intros Hat Hend Hfree. pose proof Hat as (_ & Hf & Hcc & _).
  assert (q <> []) as Hq by (intros ->; simpl in *; lia).
  assert (ndqb c 0 = Some 0) as Hnd.
  { by rewrite (ndqb_plain_eq c f q), decide_False by (done || lia). }
  split; [done|]. unfold kmoutput. simpl t_outq. cbn [kmoutput_loop].
  rewrite decide_True, Hnd, bind_some, decide_True by lia. rewrite bind_some.
  by rewrite decide_True by lia.
Qed.

(** Four characters put into a ring of four, one taken: three are left, none of
    them beyond the end of the ring. *)
Lemma kmoutput_stalls_witness :
  run_ops [BtoQ [72; 105; 33; 10]; Getc] (Clist 0 4 None None (Live [0; 0; 0; 0]) 4 None) (KHeap [] [])
  = Some ([(0, []); (72, [])], Clist 3 4 (Some 1) (Some 0) (Live [72; 105; 33; 10]) 4 None, KHeap [] [])
  /\ kmoutput true (Tty (Clist 3 4 (Some 1) (Some 0) (Live [72; 105; 33; 10]) 4 None) 4) =
     Some (Tty (Clist 3 4 (Some 1) (Some 0) (Live [72; 105; 33; 10]) 4 None) 0, [Timeout; LStart]).
Proof.
  split; [reflexivity|].
  apply (kmoutput_stalls true (Clist 3 4 (Some 1) (Some 0) (Live [72; 105; 33; 10]) 4 None) 1
           [105; 33; 10] 4); simpl; try lia.
  split_and!; simpl; try done; try lia.
  - split_and!; simpl; try done; try (unfold INT_MAX; lia).
    exists [72; 105; 33; 10]. split_and!; [done| |done].
    apply (bool_decide_unpack _). vm_compute. exact I.
  - intros i x Hi. destruct i as [|[|[|i]]]; simplify_eq/=; reflexivity.
Defined.
