(* ===== verification/InCksum.v ===== *)
(** * The Internet checksum

    [bsd/netinet/cpu_in_cksum_gen.c] (the 64-bit version of
    [os_cpu_in_cksum_mbuf], and [os_cpu_in_cksum]), the routines of
    [bsd/netinet/in_cksum.c] built on it, [m_sum16] of [bsd/kern/uipc_mbuf2.c] and
    [pbuf_inet_cksum] of [bsd/net/pf_pbuf.c].  The machine is little-endian.  The
    optimised accumulation, with its 64-bit partial sums, its alignment steps and
    its byte swaps, is shown to compute the one's complement sum of RFC 1071 for
    every mbuf chain and every alignment of its data, and a packet that carries
    the computed checksum is shown to be accepted whatever chain it is in. *)
From S2P Require Import Prelude.

Local Open Scope Z_scope.

(** The fields of an mbuf that the checksum looks at; the data is an address and
    the bytes from there on. *)
Record mbuf := Mbuf { m_addr : Z; m_data : list Z; m_len : Z }.

(** ** Little-endian loads *)

Definition read16 (bs : list Z) (d : Z) : option Z :=
  b0 ← zget bs d; b1 ← zget bs (d + 1); Some (b0 + 256 * b1).

Definition read32 (bs : list Z) (d : Z) : option Z :=
  w0 ← read16 bs d; w1 ← read16 bs (d + 2); Some (w0 + 65536 * w1).

(** [n] times, the 32-bit word at [data] is added and [data] moves on by 4. *)
Definition add_words (n : nat) (bs : list Z) (data partial : Z) : option Z :=
  for_range n (fun i partial => w ← read32 bs (data + 4 * Z.of_nat i); Some (u64 (partial + w))) partial.

(** ** One mbuf *)

(** [(partial << 8) + (partial >> 56)]. *)
Definition swap_bytes (needs_swap : bool) (partial : Z) : Z :=
  if needs_swap then u64 (u64 (Z.shiftl partial 8) + Z.shiftr partial 56) else partial.

(** [(x >> 32) + (x & 0xffffffff)]. *)
Definition fold32 (x : Z) : Z := u64 (Z.shiftr x 32 + Z.land x 4294967295).

Fixpoint cksum_blocks (fuel : nat) (bs : list Z) (needs_swap : bool) (data mlen partial sum : Z)
    : option (Z * Z * Z * Z) :=
  match fuel with
  | O => None
  | S fuel =>
      if decide (64 <= mlen) then
        partial ← add_words 16 bs data partial;
        let data := data + 64 in
        let mlen := mlen - 64 in
        if decide (Z.land partial (Z.shiftl 3 62) <> 0) then
          let partial := swap_bytes needs_swap partial in
          let sum := u64 (sum + Z.shiftr partial 32) in
          let sum := u64 (sum + Z.land partial 4294967295) in
          cksum_blocks fuel bs needs_swap data mlen 0 sum
        else cksum_blocks fuel bs needs_swap data mlen partial sum
      else Some (data, mlen, partial, sum)
  end.

(** [if (mlen & n)], [n] bytes are added as words. *)
Definition cksum_part (n : Z) (bs : list Z) (mlen : Z) (st : Z * Z) : option (Z * Z) :=
  let '(data, partial) := st in
  if decide (Z.land mlen n <> 0) then
    partial ← add_words (Z.to_nat (n / 4)) bs data partial; Some (data + n, partial)
  else Some (data, partial).

(** The code from [trailing_bytes] to the end of the turn. *)
Definition cksum_trailing (bs : list Z) (needs_swap started_on_odd : bool) (data mlen partial sum : Z)
    : option (Z * bool) :=
  '(partial, started_on_odd) ←
    (if decide (Z.land mlen 1 <> 0)
     then b ← zget bs data; Some (u64 (partial + b), negb started_on_odd)
     else Some (partial, started_on_odd));
  let partial := swap_bytes needs_swap partial in
  let sum := u64 (sum + fold32 partial) in
  Some (fold32 sum, started_on_odd).

(** The code after the alignment to 4 bytes. *)
Definition cksum_aligned (bs : list Z) (needs_swap started_on_odd : bool) (data mlen partial sum : Z)
    : option (Z * bool) :=
  '(data, mlen, partial, sum) ←
    cksum_blocks (S (Z.to_nat (mlen / 64))) bs needs_swap data mlen partial sum;
  st ← cksum_part 32 bs mlen (data, partial);
  st ← cksum_part 16 bs mlen st;
  st ← cksum_part 8 bs mlen st;
  '(data, partial) ← cksum_part 4 bs mlen st;
  '(data, partial) ←
    (if decide (Z.land mlen 2 <> 0)
     then w ← read16 bs data; Some (data + 2, u64 (partial + w))
     else Some (data, partial));
  cksum_trailing bs needs_swap started_on_odd data mlen partial sum.

(** The turn of the loop for the [mlen] bytes of [m] from [data] on. *)
Definition cksum_segment (m : mbuf) (data mlen : Z) (started_on_odd : bool) (sum : Z)
    : option (Z * bool) :=
  let bs := m_data m in
  '(data, mlen, partial, started_on_odd) ←
    (if decide (Z.land (m_addr m + data) 1 <> 0)
     then b ← zget bs data; Some (data + 1, mlen - 1, Z.shiftl b 8, negb started_on_odd)
     else Some (data, mlen, 0, started_on_odd));
  let needs_swap := started_on_odd in
  if decide (Z.land (m_addr m + data) 2 <> 0) then
    if decide (mlen < 2)
    then cksum_trailing bs needs_swap started_on_odd data mlen partial sum
    else
      w ← read16 bs data;
      cksum_aligned bs needs_swap started_on_odd (data + 2) (mlen - 2) (u64 (partial + w)) sum
  else cksum_aligned bs needs_swap started_on_odd data mlen partial sum.

(** ** The chain *)

(** [final_acc], an [unsigned int]. *)
Definition cksum_final (sum : Z) : Z :=
  let acc := u32 (Z.shiftr sum 48 + Z.land (Z.shiftr sum 32) 65535
                  + Z.land (Z.shiftr sum 16) 65535 + Z.land sum 65535) in
  let acc := u32 (Z.shiftr acc 16 + Z.land acc 65535) in
  let acc := u32 (Z.shiftr acc 16 + Z.land acc 65535) in
  Z.land acc 65535.

(** [(uint32_t)-1], the answer when the chain is too short. *)
Definition OUT_OF_DATA : Z := 4294967295.

(** The loop of [os_cpu_in_cksum_mbuf]; its body from [post_initial_offset] on is
    the first branch of [cksum_step]. *)
Definition cksum_step (m : mbuf) (data mlen len : Z) (started_on_odd : bool) (sum : Z)
    : option (Z * bool * Z) :=
  if decide (mlen = 0) then Some (len, started_on_odd, sum) else
  let mlen := if decide (len < mlen) then len else mlen in
  let len := len - mlen in
  '(sum, started_on_odd) ← cksum_segment m data mlen started_on_odd sum;
  Some (len, started_on_odd, sum).

Fixpoint cksum_loop (ms : list mbuf) (len : Z) (started_on_odd : bool) (sum : Z) : option Z :=
  if decide (0 < len) then
    match ms with
    | [] => Some OUT_OF_DATA
    | m :: ms =>
        '(len, started_on_odd, sum) ← cksum_step m 0 (m_len m) len started_on_odd sum;
        cksum_loop ms len started_on_odd sum
    end
  else Some (cksum_final sum).

(** The search for the mbuf that holds [off]. *)
Fixpoint cksum_seek (ms : list mbuf) (len off sum : Z) : option Z :=
  match ms with
  | [] => Some OUT_OF_DATA
  | m :: ms =>
      if decide (off < m_len m) then
        '(len, started_on_odd, sum) ← cksum_step m off (m_len m - off) len false sum;
        cksum_loop ms len started_on_odd sum
      else if decide (len = 0) then Some (cksum_final sum)
      else cksum_seek ms len (off - m_len m) sum
  end.

(** [VERIFY] panics: [None]. *)
Definition os_cpu_in_cksum_mbuf (ms : list mbuf) (len off initial_sum : Z) : option Z :=
  if decide (0 <= len /\ 0 <= off) then cksum_seek ms len off initial_sum else None.

(** ** A contiguous buffer *)

(** [fold 64-bit to 16-bit], an [x += y] per word before it. *)
Definition cksum_short (bs : list Z) (len initial_sum : Z) : option Z :=
  sum ← add_words (Z.to_nat (len / 4)) bs 0 initial_sum;
  let sum := fold32 sum in
  let sum := Z.shiftr sum 16 + Z.land sum 65535 in
  let sum := Z.shiftr sum 16 + Z.land sum 65535 in
  let sum := Z.shiftr sum 16 + Z.land sum 65535 in
  Some (Z.land sum 65535).

(** The [int] that a [uint32_t] becomes. *)
Definition int_of (x : Z) : Z := if decide (x < 2 ^ 31) then x else x - 2 ^ 32.

(** [len] is a [uint32_t], and an [int] in the call of the mbuf version. *)
Definition os_cpu_in_cksum (addr : Z) (bs : list Z) (len initial_sum : Z) : option Z :=
  if decide (len <= 64 /\ Z.land len 3 = 0) then cksum_short bs len initial_sum
  else
    os_cpu_in_cksum_mbuf [Mbuf addr bs (int_of len)] (int_of len) 0 initial_sum.

Definition b_sum16 (addr : Z) (bs : list Z) (len : Z) : option Z :=
  s ← os_cpu_in_cksum addr bs (u32 len) 0; Some (u16 s).

(** ** in_cksum.c *)

(** [while (x >> 16) x = (x >> 16) + (x & 0xffff)], with the turns that a 64-bit
    number may need. *)
Fixpoint ADDCARRY_loop (fuel : nat) (x : Z) : option Z :=
  match fuel with
  | O => None
  | S fuel =>
      if decide (Z.shiftr x 16 <> 0)
      then ADDCARRY_loop fuel (Z.shiftr x 16 + Z.land x 65535) else Some x
  end.

Definition ADDCARRY (x : Z) : option Z := ADDCARRY_loop 6 x.

(** [REDUCE16]: the four halves of [sum], then the two of the result. *)
Definition REDUCE16 (sum : Z) : option Z :=
  let s i := Z.land (Z.shiftr sum (16 * i)) 65535 in
  let l := s 0 + s 1 + s 2 + s 3 in
  ADDCARRY (Z.land l 65535 + Z.land (Z.shiftr l 16) 65535).

Definition in_addword (a b : Z) : option Z := s ← ADDCARRY (a + b); Some (u16 s).

Definition in_pseudo (a b c : Z) : option Z := s ← REDUCE16 (a + b + c); Some (u16 s).

Definition in_pseudo64 (a b c : Z) : option Z := s ← REDUCE16 (u64 (a + b + c)); Some (u16 s).

(** [~sum & 0xffff]. *)
Definition complement16 (sum : Z) : Z := Z.land (Z.lnot sum) 65535.

Definition sizeof_ip : Z := 20.

(** The header starts with the version and the length in words. *)
Definition in_cksum_hdr_opt (addr : Z) (ip : list Z) : option Z :=
  vhl ← zget ip 0;
  let hdrlen := Z.shiftl (Z.land vhl 15) 2 in
  s ← b_sum16 addr ip hdrlen; Some (complement16 s).

Definition in_cksum_hdr (addr : Z) (ip : list Z) : option Z :=
  s ← b_sum16 addr ip sizeof_ip; Some (complement16 s).

Definition m_length2 (ms : list mbuf) : Z := foldr (fun m n => u32 (m_len m + n)) 0 ms.

(** The length that [m_length2] returns is kept in an [int] and compared as an
    [unsigned int]. *)
Definition m_sum16 (ms : list mbuf) (off len : Z) : option Z :=
  if decide (m_length2 ms < u32 (off + len)) then None else
  s ← os_cpu_in_cksum_mbuf ms (int_of len) (int_of off) 0; Some (u16 s).

Definition htonl (x : Z) : Z :=
  Z.lor (Z.lor (Z.lor (Z.shiftr (Z.land x 4278190080) 24) (Z.shiftr (Z.land x 16711680) 8))
               (Z.shiftl (Z.land x 65280) 8))
        (Z.shiftl (Z.land x 255) 24).

Definition IP_HDR_ALIGNED_P (addr : Z) : bool := bool_decide (Z.land addr 3 = 0).

(** The pseudo header of the header at [ip] is added to [sum]. *)
Definition add_pseudo (ip : list Z) (nxt len sum : Z) : option Z :=
  src ← read32 ip 12;
  dst ← read32 ip 16;
  p ← in_pseudo src dst (htonl (u32 (len + nxt)));
  ADDCARRY (sum + p).

(** The bytes that [m_copydata] copies from the start of a chain that has them. *)
Definition flat (ms : list mbuf) : list Z := mjoin ((fun m => take (Z.to_nat (m_len m)) (m_data m)) <$> ms).

(** A [panic] is [None]. *)
Definition inet_cksum (ms : list mbuf) (nxt off len : Z) : option Z :=
  sum ← m_sum16 ms off len;
  if decide (nxt <> 0) then
    if decide (m_length2 ms < sizeof_ip) then None else
    m ← head ms;
    let ip := if decide (m_len m < sizeof_ip \/ IP_HDR_ALIGNED_P (m_addr m) = false)
              then take (Z.to_nat sizeof_ip) (flat ms) else m_data m in
    sum ← add_pseudo ip nxt len sum;
    Some (complement16 sum)
  else Some (complement16 sum).

Definition inet_cksum_simple (ms : list mbuf) (len : Z) : option Z := inet_cksum ms 0 0 (u32 len).

Definition inet_cksum_buffer (addr : Z) (buffer : list Z) (nxt off len : Z) : option Z :=
  if decide (len <= off) then None else
  sum ← b_sum16 (addr + off) (drop (Z.to_nat off) buffer) len;
  if decide (nxt <> 0) then
    let ip := if IP_HDR_ALIGNED_P addr then buffer else take (Z.to_nat sizeof_ip) buffer in
    sum ← add_pseudo ip nxt len sum;
    Some (complement16 sum)
  else Some (complement16 sum).

(** The checksum counters of [ipstat], 32 bits each. *)
Record swcsum := Swcsum { snd_swcsum : Z; snd_swcsum_bytes : Z; rcv_swcsum : Z; rcv_swcsum_bytes : Z }.

Definition count_swcsum (st : swcsum) (out : bool) (hlen : Z) : swcsum :=
  if out
  then Swcsum (u32 (snd_swcsum st + 1)) (u32 (snd_swcsum_bytes st + hlen)) (rcv_swcsum st) (rcv_swcsum_bytes st)
  else Swcsum (snd_swcsum st) (snd_swcsum_bytes st) (u32 (rcv_swcsum st + 1)) (u32 (rcv_swcsum_bytes st + hlen)).

Definition ip_cksum_hdr_dir (ms : list mbuf) (hlen : Z) (out : bool) (st : swcsum) : option (Z * swcsum) :=
  m ← head ms;
  let st := count_swcsum st out hlen in
  r ← (if decide (hlen = sizeof_ip /\ sizeof_ip <= m_len m /\ IP_HDR_ALIGNED_P (m_addr m) = true)
       then in_cksum_hdr (m_addr m) (m_data m)
       else inet_cksum ms 0 0 hlen);
  Some (r, st).

Definition ip_cksum_hdr_dir_buffer (addr : Z) (buffer : list Z) (hlen len : Z) (out : bool) (st : swcsum)
    : option (Z * swcsum) :=
  let st := count_swcsum st out hlen in
  r ← (if decide (hlen = sizeof_ip /\ sizeof_ip <= len /\ IP_HDR_ALIGNED_P addr = true)
       then in_cksum_hdr addr buffer
       else inet_cksum_buffer addr buffer 0 0 hlen);
  Some (r, st).

(** ** pf_pbuf.c *)

(** A packet of the packet filter: destroyed, a chain, or one piece of memory. *)
Inductive pbuf := PBUF_TYPE_ZOMBIE | PBUF_TYPE_MBUF (ms : list mbuf) | PBUF_TYPE_MEMORY (addr : Z) (bs : list Z).

Definition pbuf_inet_cksum (p : pbuf) (nxt off len : Z) : option Z :=
  match p with
  | PBUF_TYPE_ZOMBIE => None
  | PBUF_TYPE_MBUF ms => inet_cksum ms nxt off len
  | PBUF_TYPE_MEMORY addr bs => inet_cksum_buffer addr bs nxt off len
  end.

(** ** One's complement arithmetic *)

(** The 16-bit one's complement value of a number: it is 0 for 0 only. *)
Definition ones (x : Z) : Z := if decide (x = 0) then 0 else (x - 1) mod 65535 + 1.

(** Two non-negative numbers with the same one's complement value. *)
Definition oc (x y : Z) : Prop :=
  0 <= x /\ 0 <= y /\ (x = 0 <-> y = 0) /\ (65535 | x - y).

#[export] Instance oc_sym : Symmetric oc.
Proof.
  intros x y (? & ? & ? & Hd). split_and!; [done..|naive_solver|].
  replace (y - x) with (- (x - y)) by lia. by apply Z.divide_opp_r.
Qed.

#[export] Instance oc_trans : Transitive oc.
Proof.
  intros x y z (? & ? & ? & Hd1) (? & ? & ? & Hd2). split_and!; [done..|naive_solver|].
  replace (x - z) with ((x - y) + (y - z)) by lia. by apply Z.divide_add_r.
Qed.

Lemma oc_refl x : 0 <= x -> oc x x.
Proof. intros Hx. split_and!; [done..|]. rewrite Z.sub_diag. apply Z.divide_0_r. Qed.

Lemma oc_add x x' y y' : oc x x' -> oc y y' -> oc (x + y) (x' + y').
Proof.
  intros (? & ? & ? & Hd1) (? & ? & ? & Hd2). split_and!; try lia.
  replace (x + y - (x' + y')) with ((x - x') + (y - y')) by lia. by apply Z.divide_add_r.
Qed.

Lemma oc_mul k x x' : 0 < k -> oc x x' -> oc (k * x) (k * x').
Proof.
  intros Hk (? & ? & ? & Hd1). split_and!; try nia.
  replace (k * x - k * x') with (k * (x - x')) by lia. by apply Z.divide_mul_r.
Qed.

#[export] Instance oc_add_proper : Proper (oc ==> oc ==> oc) Z.add.
Proof. intros x x' Hx y y' Hy. by apply oc_add. Qed.

(** The value decides the relation, and the other way round. *)
Lemma ones_oc x y : oc x y -> ones x = ones y.
Proof.
  intros (? & ? & Hz & (k & Hk)). unfold ones. repeat case_decide; try naive_solver.
  f_equal. replace (x - 1) with (y - 1 + k * 65535) by lia. by rewrite Z.mod_add.
Qed.

Lemma oc_ones x : 0 <= x -> oc (ones x) x.
Proof.
  intros Hx. unfold ones. case_decide as Hz; [subst; by apply oc_refl|].
  pose proof (Z.mod_pos_bound (x - 1) 65535 ltac:(lia)). split_and!; try lia.
  exists (- ((x - 1) / 65535)). pose proof (Z.div_mod (x - 1) 65535). lia.
Qed.

(** A 16-bit number is its own value. *)
Lemma ones_small x : in_word 16 x -> ones x = x.
Proof.
  intros Hx. unfold in_word in Hx. change (2 ^ 16) with 65536 in Hx. unfold ones.
  case_decide; [done|]. rewrite Z.mod_small by lia. lia.
Qed.

Lemma oc_unique x y : in_word 16 x -> oc x y -> x = ones y.
Proof. intros Hx Hoc. by rewrite <-(ones_oc _ _ Hoc), ones_small. Qed.

(** Adding a multiple of [2^16 - 1]. *)
Lemma oc_high a b k : 0 <= a -> 0 <= b -> (65535 | k - 1) -> 0 < k -> oc (a + b) (k * a + b).
Proof.
  intros Ha Hb Hk Hpos. split_and!; try nia.
  replace (a + b - (k * a + b)) with (- a * (k - 1)) by lia. by apply Z.divide_mul_r.
Qed.

Lemma pow_ones n : 0 <= n -> (65535 | 2 ^ (16 * n) - 1).
Proof.
  intros Hn. rewrite Z.pow_mul_r by lia. change (2 ^ 16) with 65536. revert n Hn.
  apply natlike_ind; [by exists 0|]. intros n Hn [k Hk]. rewrite Z.pow_succ_r by done.
  exists (65536 * k + 1). lia.
Qed.

(** Folding: the part above bit [16 n] is added to the part below. *)
Lemma oc_fold n x : 0 < n -> 0 <= x -> oc (Z.shiftr x (16 * n) + Z.land x (Z.ones (16 * n))) x.
Proof.
  intros Hn Hx. rewrite Z.shiftr_div_pow2, Z.land_ones by lia.
  assert (0 < 2 ^ (16 * n)) as Hp by (apply Z.pow_pos_nonneg; lia).
  pose proof (Z.mod_pos_bound x (2 ^ (16 * n)) Hp). pose proof (Z.div_pos x (2 ^ (16 * n)) Hx Hp).
  rewrite (Z.div_mod x (2 ^ (16 * n))) at 3 by lia.
  apply oc_high; [done|lia|apply pow_ones; lia|done].
Qed.

Lemma oc_fold16 x : 0 <= x -> oc (Z.shiftr x 16 + Z.land x 65535) x.
Proof. apply (oc_fold 1). lia. Qed.

Lemma fold32_small x : in_word 64 x -> fold32 x = Z.shiftr x 32 + Z.land x 4294967295.
Proof.
  intros Hx. unfold fold32. apply wrap_small. unfold in_word in *.
  rewrite Z.shiftr_div_pow2 by lia. change 4294967295 with (Z.ones 32). rewrite Z.land_ones by lia.
  word_lia.
Qed.

Lemma fold32_oc x : in_word 64 x -> oc (fold32 x) x.
Proof. intros Hx. rewrite fold32_small by done. apply (oc_fold 2); [lia|apply Hx]. Qed.

Lemma fold32_range x : in_word 64 x -> 0 <= fold32 x < 2 ^ 33.
Proof.
  intros Hx. rewrite fold32_small by done. change 4294967295 with (Z.ones 32).
  rewrite Z.shiftr_div_pow2, Z.land_ones by lia. unfold in_word in *. word_lia.
Qed.

(** The byte swap is a multiplication by 256. *)
Lemma swap_bytes_oc s p :
  in_word 64 p -> in_word 64 (swap_bytes s p) /\ oc (swap_bytes s p) ((if s then 256 else 1) * p).
Proof.
  intros Hp. unfold swap_bytes. destruct s.
  - rewrite wrap_shiftl, Z.shiftr_div_pow2 by lia. change (64 - 8) with 56.
    assert (in_word 64 (p mod 2 ^ 56 * 2 ^ 8 + p / 2 ^ 56)) as Hr.
    { unfold in_word in *. change (2 ^ 56) with 72057594037927936. change (2 ^ 8) with 256.
      change (2 ^ 64) with 18446744073709551616 in *. Z.to_euclidean_division_equations; lia. }
    rewrite wrap_small by done. split; [done|].
    rewrite (Z.div_mod p (2 ^ 56)) at 3 by lia.
    replace (256 * (2 ^ 56 * (p / 2 ^ 56) + p mod 2 ^ 56))
      with (2 ^ 64 * (p / 2 ^ 56) + p mod 2 ^ 56 * 2 ^ 8) by lia.
    rewrite Z.add_comm. destruct Hp.
    apply oc_high; [apply Z.div_pos; lia| |apply (pow_ones 4); lia|lia].
    pose proof (Z.mod_pos_bound p (2 ^ 56)). lia.
  - split; [done|]. rewrite Z.mul_1_l. apply oc_refl, Hp.
Qed.

(** ** The sum of RFC 1071 *)

(** The sum of the 16-bit words of a list of bytes, the first byte being the low
    one, or, for [p], the high one. *)
Fixpoint lanes (p : bool) (l : list Z) : Z :=
  match l with
  | [] => 0
  | b :: l => (if p then 256 else 1) * b + lanes (negb p) l
  end.

Lemma lanes_nonneg p l : bytes_ok l -> 0 <= lanes p l.
Proof.
  intros Hl. revert p. induction Hl as [|b l Hb Hl IH]; intros p; simpl; [lia|].
  specialize (IH (negb p)). destruct Hb. destruct p; lia.
Qed.

Lemma lanes_app p l1 l2 :
  lanes p (l1 ++ l2) = lanes p l1 + lanes (xorb p (Nat.odd (length l1))) l2.
Proof.
  revert p. induction l1 as [|b l1 IH]; intros p.
  - simpl. by rewrite xorb_false_r.
  - cbn [lanes app length]. rewrite IH, Nat.odd_succ, <-Nat.negb_odd.
    rewrite <-negb_xorb_r, negb_xorb_l. lia.
Qed.

(** Swapping the lanes multiplies by 256. *)
Lemma lanes_swap p l : bytes_ok l -> oc (lanes (negb p) l) (256 * lanes p l).
Proof.
  intros Hl. revert p. induction Hl as [|b l Hb Hl IH]; intros p; simpl; [by apply oc_refl|].
  rewrite Z.mul_add_distr_l. destruct Hb. apply oc_add; [|apply IH].
  destruct p; simpl.
  - replace (256 * (256 * b)) with (65536 * b + 0) by lia. rewrite Z.mul_1_l, <-(Z.add_0_r b) at 1.
    apply oc_high; [lia|lia|by exists 1|lia].
  - rewrite Z.mul_1_l. apply oc_refl. lia.
Qed.

(** The [k] bytes from [d] on. *)
Definition seg (bs : list Z) (d k : Z) : list Z := take (Z.to_nat k) (drop (Z.to_nat d) bs).

Lemma seg_split bs d k j :
  0 <= d -> 0 <= j <= k -> seg bs d k = seg bs d j ++ seg bs (d + j) (k - j).
Proof.
  intros Hd Hj. unfold seg. rewrite Z2Nat.inj_add, <-drop_drop, take_take_drop by lia. f_equal. lia.
Qed.

Lemma seg_ok bs d k : bytes_ok bs -> bytes_ok (seg bs d k).
Proof. intros. by apply Forall_take, Forall_drop. Qed.

Lemma length_seg bs d k :
  0 <= d -> 0 <= k -> d + k <= Z.of_nat (length bs) -> length (seg bs d k) = Z.to_nat k.
Proof. intros. unfold seg. rewrite length_take, length_drop. lia. Qed.

Lemma seg_cons bs d k :
  0 <= d -> 0 < k -> d + k <= Z.of_nat (length bs) ->
  exists b, zget bs d = Some b /\ seg bs d k = b :: seg bs (d + 1) (k - 1).
Proof.
  intros Hd Hk Hend. destruct (zget_is_Some bs d) as [b Hb]; [lia|]. exists b. split; [done|].
  rewrite (seg_split bs d k 1) by lia. f_equal.
  apply zget_Some in Hb as [_ Hb]. unfold seg. by rewrite (drop_S _ _ _ Hb).
Qed.

(** A run of an even number of bytes leaves the lanes as they are. *)
Lemma lanes_split bs d k j :
  0 <= d -> 0 <= j <= k -> d + k <= Z.of_nat (length bs) -> j mod 2 = 0 ->
  lanes false (seg bs d k) = lanes false (seg bs d j) + lanes false (seg bs (d + j) (k - j)).
Proof.
  intros Hd Hj Hend Heven. rewrite (seg_split bs d k j), lanes_app, length_seg by lia.
  replace (Nat.odd (Z.to_nat j)) with false; [done|].
  symmetry. apply Bool.not_true_iff_false. rewrite Nat.odd_spec. intros [i Hi].
  Z.to_euclidean_division_equations. lia.
Qed.

Lemma byte_at bs d b : bytes_ok bs -> zget bs d = Some b -> 0 <= b < 256.
Proof. intros Hbs [_ Hb]%zget_Some. by apply (Forall_lookup_1 _ _ _ _ Hbs Hb). Qed.

Lemma read16_spec bs d :
  bytes_ok bs -> 0 <= d -> d + 2 <= Z.of_nat (length bs) ->
  exists w, read16 bs d = Some w /\ 0 <= w < 65536 /\ w = lanes false (seg bs d 2).
Proof.
  intros Hbs Hd Hend. destruct (seg_cons bs d 2) as (b0 & Hb0 & ->); [lia..|].
  destruct (seg_cons bs (d + 1) (2 - 1)) as (b1 & Hb1 & ->); [lia..|].
  unfold read16. rewrite Hb0. simpl. rewrite Hb1. simpl. eexists. split; [done|].
  pose proof (byte_at _ _ _ Hbs Hb0). pose proof (byte_at _ _ _ Hbs Hb1). split; lia.
Qed.

Lemma read32_spec bs d :
  bytes_ok bs -> 0 <= d -> d + 4 <= Z.of_nat (length bs) ->
  exists w, read32 bs d = Some w /\ 0 <= w < 2 ^ 32 /\ oc w (lanes false (seg bs d 4)).
Proof.
  intros Hbs Hd Hend. unfold read32.
  destruct (read16_spec bs d) as (w0 & -> & Hw0 & Hl0); [done|lia|lia|].
  destruct (read16_spec bs (d + 2)) as (w1 & Hr1 & Hw1 & Hl1); [done|lia|lia|].
  simpl. rewrite Hr1. simpl. eexists. split; [done|]. split; [lia|].
  rewrite (lanes_split bs d 4 2), <-Hl0 by (lia || done). replace (4 - 2) with 2 by lia. rewrite <-Hl1.
  rewrite (Z.add_comm w0), (Z.add_comm w0 w1). symmetry. apply oc_high; [lia|lia|by exists 1|lia].
Qed.

(** ** Accumulating words *)

(** [partial] stands for the part of [total] before [data], with [r] bytes to go. *)
Definition acc_ok (bs : list Z) (data r partial bound total : Z) : Prop :=
  0 <= data /\ 0 <= r /\ data + r <= Z.of_nat (length bs) /\ 0 <= partial < bound /\
  oc (partial + lanes false (seg bs data r)) total.

Lemma add_words_spec n bs data partial :
  bytes_ok bs -> 0 <= data -> data + 4 * Z.of_nat n <= Z.of_nat (length bs) ->
  0 <= partial -> partial + 2 ^ 32 * Z.of_nat n < 2 ^ 64 ->
  exists p, add_words n bs data partial = Some p /\
    partial <= p <= partial + 2 ^ 32 * Z.of_nat n /\
    oc p (partial + lanes false (seg bs data (4 * Z.of_nat n))).
Proof.
  intros Hbs Hd Hend Hp Hmax.
  apply (for_range_inv (fun i p => partial <= p <= partial + 2 ^ 32 * Z.of_nat i /\
    oc p (partial + lanes false (seg bs data (4 * Z.of_nat i))))).
  - split; [lia|]. change (seg bs data (4 * Z.of_nat 0)) with (@nil Z). simpl.
    rewrite Z.add_0_r. by apply oc_refl.
  - intros i p Hi [Hb Hoc].
    destruct (read32_spec bs (data + 4 * Z.of_nat i)) as (w & -> & Hw & Hwoc); [done|lia|lia|].
    eexists. split; [done|]. rewrite wrap_small by (unfold in_word; lia). split; [lia|].
    rewrite (lanes_split bs data (4 * Z.of_nat (S i)) (4 * Z.of_nat i)); [|lia|lia|lia|].
    2: { replace (4 * Z.of_nat i) with (0 + 2 * Z.of_nat i * 2) by lia. apply Z.mod_add. lia. }
    replace (4 * Z.of_nat (S i) - 4 * Z.of_nat i) with 4 by lia.
    rewrite Z.add_assoc. by apply oc_add.
Qed.

(** The bits of the length say which runs are left. *)
Lemma mod_bit mlen k :
  0 <= k -> mlen mod (2 * 2 ^ k) = (if decide (Z.land mlen (2 ^ k) <> 0) then 2 ^ k else 0) + mlen mod 2 ^ k.
Proof.
  intros Hk. assert (0 < 2 ^ k) as Hp by (apply Z.pow_pos_nonneg; lia).
  assert (Z.land mlen (2 ^ k) = (mlen / 2 ^ k) mod 2 * 2 ^ k) as ->.
  { rewrite <-Z.shiftl_mul_pow2 by done. apply Z.bits_inj'. intros i Hi.
    rewrite Z.land_spec, Z.pow2_bits_eqb, Z.shiftl_spec by lia. destruct (Z.eqb_spec k i) as [<-|Hne].
    - rewrite Z.sub_diag, andb_true_r. change 2 with (2 ^ 1) at 2. rewrite Z.mod_pow2_bits_low by lia.
      rewrite <-Z.shiftr_div_pow2, Z.shiftr_spec by lia. done.
    - rewrite andb_false_r. symmetry. destruct (decide (i < k)).
      + by rewrite Z.testbit_neg_r by lia.
      + change 2 with (2 ^ 1) at 2. by rewrite Z.mod_pow2_bits_high by lia. }
  rewrite (Z.mul_comm 2), Z.rem_mul_r by lia.
  pose proof (Z.mod_pos_bound (mlen / 2 ^ k) 2 ltac:(lia)).
  assert ((mlen / 2 ^ k) mod 2 = 0 \/ (mlen / 2 ^ k) mod 2 = 1) as [Hm|Hm] by lia;
    rewrite Hm; case_decide; lia.
Qed.

Lemma acc_split bs data r j partial bound total :
  acc_ok bs data r partial bound total -> 0 <= j <= r -> j mod 2 = 0 ->
  oc (partial + lanes false (seg bs data j) + lanes false (seg bs (data + j) (r - j))) total.
Proof.
  intros (Hd & Hr & Hend & Hp & Hoc) Hj He. rewrite <-Z.add_assoc, <-(lanes_split bs data r j); done || lia.
Qed.

Lemma part_spec k bs mlen data partial bound total :
  acc_ok bs data (mlen mod (2 * 2 ^ k)) partial bound total ->
  bytes_ok bs -> 2 <= k <= 5 -> bound + 2 ^ k * 2 ^ 30 <= 2 ^ 64 ->
  exists data' partial', cksum_part (2 ^ k) bs mlen (data, partial) = Some (data', partial') /\
    acc_ok bs data' (mlen mod 2 ^ k) partial' (bound + 2 ^ k * 2 ^ 30) total.
Proof.
  intros Hacc Hbs Hk Hmax. pose proof (mod_bit mlen k ltac:(lia)) as Hbit.
  assert (0 < 2 ^ k) as Hpow by (apply Z.pow_pos_nonneg; lia).
  pose proof (Z.mod_pos_bound mlen (2 ^ k) Hpow) as Hmod.
  assert (2 ^ k = 4 * (2 ^ k / 4)) as H4.
  { replace k with (2 + (k - 2)) by lia. rewrite Z.pow_add_r by lia. change (2 ^ 2) with 4.
    rewrite (Z.mul_comm 4 (2 ^ (k - 2))), Z.div_mul by lia. lia. }
  pose proof Hacc as (Hd & Hr & Hend & Hp & Hoc). unfold cksum_part. rewrite Hbit in *.
  destruct (decide (Z.land mlen (2 ^ k) <> 0)).
  - destruct (add_words_spec (Z.to_nat (2 ^ k / 4)) bs data partial) as (p & -> & Hpr & Hpoc); try done; try lia.
    eexists _, _. split; [done|]. split_and!; try lia.
    replace (4 * Z.of_nat (Z.to_nat (2 ^ k / 4))) with (2 ^ k) in Hpoc by lia.
    etrans; [apply oc_add; [exact Hpoc|apply oc_refl, lanes_nonneg, seg_ok, Hbs]|].
    replace (mlen mod 2 ^ k) with (2 ^ k + mlen mod 2 ^ k - 2 ^ k) by lia.
    apply (acc_split bs data _ (2 ^ k) partial bound); [done|lia|].
    rewrite H4. replace (4 * (2 ^ k / 4)) with (0 + 2 * (2 ^ k / 4) * 2) by lia. apply Z.mod_add. lia.
  - eexists _, _. split; [done|]. rewrite Z.add_0_l in *. split_and!; try done; try lia.
Qed.

(** The weight of the words of a turn. *)
Abbreviation swap_factor s := (if (s : bool) then 256 else 1).

Lemma flush_oc s partial sum :
  in_word 64 partial -> 0 <= sum -> sum + 2 ^ 33 <= 2 ^ 64 ->
  let p := swap_bytes s partial in
  let sum1 := u64 (sum + Z.shiftr p 32) in
  let sum2 := u64 (sum1 + Z.land p 4294967295) in
  0 <= sum2 < sum + 2 ^ 33 /\ oc sum2 (sum + swap_factor s * partial).
Proof.
  intros Hp Hs Hmax. cbv zeta. destruct (swap_bytes_oc s partial Hp) as [Hw Hoc].
  pose proof (fold32_range _ Hw) as Hf. rewrite fold32_small in Hf by done.
  pose proof (fold32_oc _ Hw) as Hfoc. rewrite fold32_small in Hfoc by done.
  rewrite wrap_add_l, <-Z.add_assoc, wrap_small by (unfold in_word; lia). split; [lia|].
  apply oc_add; [by apply oc_refl|]. by etrans.
Qed.

Lemma top_bits p : in_word 64 p -> Z.land p (Z.shiftl 3 62) = 0 -> p < 2 ^ 62.
Proof.
  intros Hp Hz. change 3 with (Z.ones (64 - 62)) in Hz. rewrite (land_high 64 62) in Hz by (done || lia).
  unfold in_word in Hp. change (2 ^ 62) with 4611686018427387904 in *.
  change (2 ^ 64) with 18446744073709551616 in *. Z.to_euclidean_division_equations. lia.
Qed.

(** The loop of 64 bytes; it flushes [partial] before it can overflow. *)
Lemma blocks_spec fuel bs s data mlen partial sum total :
  bytes_ok bs -> 0 <= sum -> sum + 2 ^ 33 * (mlen / 64 + 1) <= 2 ^ 64 -> (Z.to_nat (mlen / 64) < fuel)%nat ->
  acc_ok bs data mlen partial (2 ^ 62) total ->
  exists data' partial' sum' total',
    cksum_blocks fuel bs s data mlen partial sum = Some (data', mlen mod 64, partial', sum') /\
    acc_ok bs data' (mlen mod 64) partial' (2 ^ 62) total' /\ 0 <= sum' /\
    sum' + 2 ^ 33 <= sum + 2 ^ 33 * (mlen / 64 + 1) /\
    oc (sum' + swap_factor s * total') (sum + swap_factor s * total).
Proof.
  intros Hbs. revert data mlen partial sum total. induction fuel as [|fuel IH];
    intros data mlen partial sum total Hsum Hmax Hfuel Hacc; [lia|].
  pose proof Hacc as (Hd & Hr & Hend & Hp & Hoc). cbn [cksum_blocks].
  assert (0 <= total) as Ht by apply Hoc.
  destruct (decide (64 <= mlen)) as [Hge|Hlt].
  2: { rewrite Z.mod_small by lia. exists data, partial, sum, total. split_and!; try done.
       - rewrite Z.div_small by lia. lia.
       - apply oc_refl. destruct s; lia. }
  assert (mlen / 64 = (mlen - 64) / 64 + 1) as Hdiv
    by (replace mlen with (mlen - 64 + 1 * 64) at 1 by lia; apply Z.div_add; lia).
  assert (mlen mod 64 = (mlen - 64) mod 64) as ->
    by (replace mlen with (mlen - 64 + 1 * 64) at 1 by lia; apply Z.mod_add; lia).
  pose proof (Z.div_pos (mlen - 64) 64 ltac:(lia) ltac:(lia)).
  destruct (add_words_spec 16 bs data partial) as (p & -> & Hpr & Hpoc); [done|lia|lia|lia|lia|].
  change (4 * Z.of_nat 16) with 64 in Hpoc. rewrite bind_some. cbv zeta.
  pose proof (acc_split bs data mlen 64 partial (2 ^ 62) total Hacc ltac:(lia) eq_refl) as Hsplit.
  set (rest := lanes false (seg bs (data + 64) (mlen - 64))) in *.
  assert (0 <= rest) as Hrest by (by apply lanes_nonneg, seg_ok).
  assert (oc (p + rest) total) as Htot by (etrans; [apply oc_add; [exact Hpoc|by apply oc_refl]|done]).
  assert (in_word 64 p) as Hpw by (unfold in_word; lia).
  destruct (decide (Z.land p (Z.shiftl 3 62) <> 0)) as [Htop|Htop].
  - destruct (flush_oc s p sum) as [Hs2 Hs2oc]; [done|lia|lia|].
    set (sum2 := u64 (u64 _ + _)) in *.
    destruct (IH (data + 64) (mlen - 64) 0 sum2 rest) as (d' & p' & s' & t' & -> & Hacc' & Hs' & Hsb & Hfin);
      [lia|lia|lia| |].
    { split_and!; try lia. rewrite Z.add_0_l. by apply oc_refl. }
    exists d', p', s', t'. split_and!; try done; try lia.
    etrans; [exact Hfin|]. etrans; [apply oc_add; [exact Hs2oc|apply oc_refl; destruct s; lia]|].
    rewrite <-Z.add_assoc, <-Z.mul_add_distr_l. apply oc_add; [by apply oc_refl|].
    apply oc_mul; [destruct s; lia|done].
  - apply dec_stable in Htop. pose proof (top_bits p Hpw Htop).
    destruct (IH (data + 64) (mlen - 64) p sum total) as (d' & p' & s' & t' & -> & Hacc' & Hs' & Hsb & Hfin);
      [lia|lia|lia| |].
    { by split_and!; try lia. }
    exists d', p', s', t'. split_and!; try done; try lia.
Qed.

Lemma land_1 x : Z.land x 1 = if Z.odd x then 1 else 0.
Proof. rewrite <-Zmod_odd. exact (Z.land_ones x 1 ltac:(lia)). Qed.

Lemma trailing_spec bs s odd data mlen partial sum total :
  bytes_ok bs -> 0 <= sum -> sum + 2 ^ 33 <= 2 ^ 64 ->
  acc_ok bs data (mlen mod 2) partial (2 ^ 63) total ->
  exists sum', cksum_trailing bs s odd data mlen partial sum = Some (sum', xorb odd (Z.odd mlen)) /\
    0 <= sum' < 2 ^ 33 /\ oc sum' (sum + swap_factor s * total).
Proof.
  intros Hbs Hsum Hmax (Hd & Hr & Hend & Hp & Hoc). unfold cksum_trailing.
  assert (exists p, (if decide (Z.land mlen 1 <> 0)
     then b ← zget bs data; Some (u64 (partial + b), negb odd) else Some (partial, odd))
     = Some (p, xorb odd (Z.odd mlen)) /\ in_word 64 p /\ oc p total) as (p & -> & Hpw & Hpoc).
  { rewrite Zmod_odd in *. rewrite land_1. destruct (Z.odd mlen).
    - destruct (seg_cons bs data 1) as (b & Hb & Hseg); [lia..|]. rewrite Hb. simpl.
      pose proof (byte_at _ _ _ Hbs Hb). rewrite Hseg in Hoc.
      change (seg bs (data + 1) (1 - 1)) with (@nil Z) in Hoc. simpl lanes in Hoc.
      rewrite Z.mul_1_l, Z.add_0_r in Hoc. rewrite wrap_small by (unfold in_word; lia).
      exists (partial + b). rewrite xorb_true_r. split_and!; [done|unfold in_word; lia|done].
    - exists partial. rewrite xorb_false_r. change (seg bs data 0) with (@nil Z) in Hoc. simpl in Hoc.
      rewrite Z.add_0_r in Hoc. split_and!; [done|unfold in_word; lia|done]. }
  rewrite bind_some. cbv zeta beta iota. destruct (swap_bytes_oc s p Hpw) as [Hsw Hswoc].
  pose proof (fold32_range _ Hsw). rewrite (wrap_small 64) by (unfold in_word; lia).
  assert (in_word 64 (sum + fold32 (swap_bytes s p))) as Hw by (unfold in_word; lia).
  eexists. split; [done|]. split; [by apply fold32_range|].
  etrans; [by apply fold32_oc|]. apply oc_add; [by apply oc_refl|].
  etrans; [by apply fold32_oc|]. etrans; [exact Hswoc|]. apply oc_mul; [destruct s; lia|done].
Qed.

(** The 16-bit word that may precede the last byte. *)
Lemma half_spec bs mlen data partial bound total :
  acc_ok bs data (mlen mod 4) partial bound total -> bytes_ok bs -> bound + 2 ^ 16 <= 2 ^ 64 ->
  exists data' partial', (if decide (Z.land mlen 2 <> 0)
      then w ← read16 bs data; Some (data + 2, u64 (partial + w)) else Some (data, partial))
      = Some (data', partial') /\ acc_ok bs data' (mlen mod 2) partial' (bound + 2 ^ 16) total.
Proof.
  intros Hacc Hbs Hmax. pose proof (mod_bit mlen 1 ltac:(lia)) as Hbit.
  change (2 * 2 ^ 1) with 4 in Hbit. change (2 ^ 1) with 2 in Hbit.
  pose proof (Z.mod_pos_bound mlen 2 ltac:(lia)).
  pose proof Hacc as (Hd & Hr & Hend & Hp & Hoc). rewrite Hbit in *. destruct (decide (Z.land mlen 2 <> 0)).
  - destruct (read16_spec bs data) as (w & -> & Hw & Hwl); [done|lia|lia|].
    eexists _, _. split; [done|]. rewrite wrap_small by (unfold in_word; lia). split_and!; try lia.
    rewrite Hwl. replace (mlen mod 2) with (2 + mlen mod 2 - 2) by lia.
    by apply (acc_split bs data _ 2 partial bound); [|lia|].
  - eexists _, _. split; [done|]. rewrite Z.add_0_l in *. split_and!; try done; lia.
Qed.

Lemma aligned_spec bs s odd data mlen partial sum total :
  bytes_ok bs -> 0 <= sum < 2 ^ 33 -> mlen < 2 ^ 31 -> acc_ok bs data mlen partial (2 ^ 62) total ->
  exists sum', cksum_aligned bs s odd data mlen partial sum = Some (sum', xorb odd (Z.odd mlen)) /\
    0 <= sum' < 2 ^ 33 /\ oc sum' (sum + swap_factor s * total).
Proof.
  intros Hbs Hsum Hlen Hacc. unfold cksum_aligned.
  assert (0 <= mlen) as Hm by apply Hacc.
  assert (mlen / 64 <= 2 ^ 25) as Hdiv by (Z.to_euclidean_division_equations; lia).
  pose proof (Z.div_pos mlen 64 Hm ltac:(lia)).
  destruct (blocks_spec (S (Z.to_nat (mlen / 64))) bs s data mlen partial sum total)
    as (d0 & p0 & s0 & t0 & -> & Hacc0 & Hs0 & Hs0b & Hoc); [done|lia|lia|lia|done|].
  rewrite bind_some. cbv beta iota zeta.
  assert (Z.odd (mlen mod 64) = Z.odd mlen) as Hodd.
  { rewrite (Z.div_mod mlen 64) at 2 by lia. rewrite Z.odd_add, Z.odd_mul. by rewrite xorb_false_l. }
  rewrite <-Hodd. set (r := mlen mod 64) in *.
  assert (r mod (2 * 2 ^ 5) = r) as Hr by (apply Z.mod_mod; lia).
  rewrite <-Hr in Hacc0.
  destruct (part_spec 5 _ _ _ _ _ _ Hacc0 Hbs ltac:(lia) ltac:(lia)) as (d1 & p1 & H1 & Hacc1).
  destruct (part_spec 4 _ _ _ _ _ _ Hacc1 Hbs ltac:(lia) ltac:(lia)) as (d2 & p2 & H2 & Hacc2).
  destruct (part_spec 3 _ _ _ _ _ _ Hacc2 Hbs ltac:(lia) ltac:(lia)) as (d3 & p3 & H3 & Hacc3).
  destruct (part_spec 2 _ _ _ _ _ _ Hacc3 Hbs ltac:(lia) ltac:(lia)) as (d4 & p4 & H4 & Hacc4).
  destruct (half_spec _ _ _ _ _ _ Hacc4 Hbs ltac:(lia)) as (d5 & p5 & H5 & Hacc5).
  change (2 ^ 5) with 32 in H1. change (2 ^ 4) with 16 in H2.
  change (2 ^ 3) with 8 in H3. change (2 ^ 2) with 4 in H4.
  rewrite H1, bind_some, H2, bind_some, H3, bind_some, H4, bind_some, H5, bind_some.
  destruct (trailing_spec bs s odd d5 r p5 s0 t0) as (sum' & -> & Hb & Hfin); [done|lia|lia| |].
  { destruct Hacc5 as (? & ? & ? & ? & ?). split_and!; try done; lia. }
  exists sum'. split_and!; [done|lia|lia|]. by etrans.
Qed.

(** ** A segment at any address *)

(** The first byte is taken alone when its address is odd. *)
Lemma odd_address bs addr data mlen odd :
  bytes_ok bs -> 0 <= data -> 0 < mlen < 2 ^ 31 -> data + mlen <= Z.of_nat (length bs) ->
  let a := Z.odd (addr + data) in
  exists d1 l1 p1, (if decide (Z.land (addr + data) 1 <> 0)
     then b ← zget bs data; Some (data + 1, mlen - 1, Z.shiftl b 8, negb odd)
     else Some (data, mlen, 0, odd)) = Some (d1, l1, p1, xorb odd a) /\
     acc_ok bs d1 l1 p1 (2 ^ 61) (lanes a (seg bs data mlen)) /\
     xorb (xorb odd a) (Z.odd l1) = xorb odd (Z.odd mlen) /\ l1 < 2 ^ 31.
Proof.
  intros Hbs Hd Hlen Hend. cbv zeta. rewrite land_1. destruct (Z.odd (addr + data)).
  - destruct (seg_cons bs data mlen) as (b & Hb & Hseg); [lia..|]. rewrite Hb. simpl.
    pose proof (byte_at _ _ _ Hbs Hb). rewrite xorb_true_r. eexists _, _, _. split; [done|].
    rewrite Hseg, Z.shiftl_mul_pow2 by lia. change (2 ^ 8) with 256. split; [|split; [|lia]].
    + split_and!; try lia. cbn [lanes]. change (negb true) with false. rewrite (Z.mul_comm b). apply oc_refl.
      pose proof (lanes_nonneg false _ (seg_ok bs (data + 1) (mlen - 1) Hbs)). lia.
    + rewrite Z.odd_sub. by destruct odd, (Z.odd mlen).
  - exists data, mlen, 0. rewrite xorb_false_r. split; [done|]. split; [|split; [done|lia]].
    split_and!; try lia. rewrite Z.add_0_l. by apply oc_refl, lanes_nonneg, seg_ok.
Qed.

Lemma segment_spec m data mlen odd sum :
  bytes_ok (m_data m) -> 0 <= data -> 0 < mlen < 2 ^ 31 ->
  data + mlen <= Z.of_nat (length (m_data m)) -> 0 <= sum < 2 ^ 33 ->
  exists sum', cksum_segment m data mlen odd sum = Some (sum', xorb odd (Z.odd mlen)) /\
    0 <= sum' < 2 ^ 33 /\ oc sum' (sum + lanes odd (seg (m_data m) data mlen)).
Proof.
  intros Hbs Hd Hlen Hend Hsum. unfold cksum_segment. set (bs := m_data m) in *. cbv zeta.
  set (a := Z.odd (m_addr m + data)).
  destruct (odd_address bs (m_addr m) data mlen odd) as (d1 & l1 & p1 & -> & Hacc & Hpar & Hl1);
    [done..|]. fold a in Hacc, Hpar |- *.
  rewrite bind_some. cbv beta iota zeta. rewrite <-Hpar.
  assert (forall sum', oc sum' (sum + swap_factor (xorb odd a) * lanes a (seg bs data mlen)) ->
    oc sum' (sum + lanes odd (seg bs data mlen))) as Hswap.
  { intros sum' Hs. etrans; [exact Hs|]. apply oc_add; [apply oc_refl; lia|].
    pose proof (seg_ok bs data mlen Hbs) as Hok. pose proof (lanes_nonneg a _ Hok).
    destruct odd, a; simpl xorb; cbv iota; rewrite ?Z.mul_1_l; try (by apply oc_refl);
      symmetry; first [exact (lanes_swap false _ Hok)|exact (lanes_swap true _ Hok)]. }
  pose proof Hacc as (Hd1 & Hr1 & Hend1 & Hp1 & Hoc1).
  destruct (decide (Z.land (m_addr m + d1) 2 <> 0)) as [H2|H2].
  - destruct (decide (l1 < 2)) as [Hlt|Hge].
    + destruct (trailing_spec bs (xorb odd a) (xorb odd a) d1 l1 p1 sum
        (lanes a (seg bs data mlen))) as (sum' & -> & Hb & Hfin); [done|lia|lia| |by eauto].
      rewrite Z.mod_small by lia. by split_and!; try lia.
    + destruct (read16_spec bs d1) as (w & -> & Hw & Hwl); [done|lia|lia|]. rewrite bind_some.
      rewrite wrap_small by (unfold in_word; lia).
      replace (Z.odd l1) with (Z.odd (l1 - 2)) by (rewrite Z.odd_sub; apply xorb_false_r).
      destruct (aligned_spec bs (xorb odd a) (xorb odd a) (d1 + 2) (l1 - 2) (p1 + w) sum
        (lanes a (seg bs data mlen))) as (sum' & -> & Hb & Hfin); [done|lia|lia| |by eauto].
      split_and!; try lia. rewrite Hwl. by apply (acc_split bs d1 l1 2 p1 (2 ^ 61)); [|lia|].
  - destruct (aligned_spec bs (xorb odd a) (xorb odd a) d1 l1 p1 sum
      (lanes a (seg bs data mlen))) as (sum' & -> & Hb & Hfin); [done|lia|lia| |by eauto].
    by split_and!; try lia.
Qed.

(** ** The chain *)

(** The memory from the data pointer on may go beyond the data. *)
Definition mbuf_ok (m : mbuf) : Prop :=
  bytes_ok (m_data m) /\ 0 <= m_len m <= Z.of_nat (length (m_data m)).

#[export] Instance mbuf_ok_dec m : Decision (mbuf_ok m).
Proof. unfold mbuf_ok. apply _. Defined.

Lemma flat_cons m ms : flat (m :: ms) = seg (m_data m) 0 (m_len m) ++ flat ms.
Proof. reflexivity. Qed.

(** A part of the data of an mbuf. *)
Lemma seg_data m d k :
  mbuf_ok m -> 0 <= d -> 0 <= k -> d + k <= m_len m ->
  seg (m_data m) d k = seg (seg (m_data m) 0 (m_len m)) d k.
Proof.
  intros [_ Hlen] Hd Hk Hend. unfold seg. rewrite drop_0, skipn_firstn_comm, take_take.
  f_equal. lia.
Qed.

Lemma length_data m : mbuf_ok m -> length (seg (m_data m) 0 (m_len m)) = Z.to_nat (m_len m).
Proof. intros [_ Hlen]. apply length_seg; lia. Qed.

Lemma flat_ok ms : Forall mbuf_ok ms -> bytes_ok (flat ms).
Proof.
  induction 1 as [|m ms Hm Hms IH]; [done|]. rewrite flat_cons.
  apply Forall_app. split; [apply seg_ok, Hm|done].
Qed.

Lemma fold_div x : Z.shiftr x 16 + Z.land x 65535 = x / 65536 + x mod 65536.
Proof. rewrite Z.shiftr_div_pow2 by lia. f_equal. exact (Z.land_ones x 16 ltac:(lia)). Qed.

Lemma fold_bound x b : 0 <= x < b * 65536 -> 0 <= Z.shiftr x 16 + Z.land x 65535 < b + 65535.
Proof.
  intros Hx. rewrite fold_div. Z.to_euclidean_division_equations. lia.
Qed.

Lemma fold_small x : 0 <= x < 65536 -> Z.shiftr x 16 + Z.land x 65535 = x.
Proof.
  intros Hx. rewrite fold_div, Z.div_small, Z.mod_small; lia.
Qed.

(** Two foldings are enough for a number below [2^32 - 2^16]. *)
Lemma fold_twice x :
  0 <= x < 65535 * 65536 ->
  let y := Z.shiftr x 16 + Z.land x 65535 in
  let z := Z.shiftr y 16 + Z.land y 65535 in
  in_word 16 z /\ oc z x.
Proof.
  intros Hx. cbv zeta. pose proof (fold_bound x 65535 ltac:(lia)) as Hy.
  pose proof (oc_fold16 x ltac:(lia)) as Hyoc. set (y := Z.shiftr x 16 + _) in *.
  pose proof (oc_fold16 y ltac:(lia)) as Hzoc. split; [|by etrans].
  unfold in_word. change (2 ^ 16) with 65536. rewrite fold_div. Z.to_euclidean_division_equations. lia.
Qed.

Lemma land_word w x : 0 <= w -> in_word w x -> Z.land x (Z.ones w) = x.
Proof. intros Hw Hx. rewrite Z.land_ones by done. by apply wrap_small. Qed.

(** The four halves of a 64-bit number. *)
Lemma halves_oc x :
  in_word 64 x ->
  exists acc, Z.shiftr x 48 + Z.land (Z.shiftr x 32) 65535
    + Z.land (Z.shiftr x 16) 65535 + Z.land x 65535 = acc /\ 0 <= acc < 2 ^ 18 /\ oc acc x.
Proof.
  intros Hx. eexists. split; [done|].
  change 65535 with (Z.ones 16). rewrite !Z.land_ones, !Z.shiftr_div_pow2 by lia. unfold in_word in Hx.
  change (2 ^ 48) with 281474976710656. change (2 ^ 32) with 4294967296. change (2 ^ 16) with 65536.
  change (2 ^ 64) with 18446744073709551616 in Hx. change (2 ^ 18) with 262144.
  split; [Z.to_euclidean_division_equations; lia|].
  split_and!; [Z.to_euclidean_division_equations; lia..|].
  exists (- (x / 65536 mod 65536 + 65537 * (x / 4294967296 mod 65536) + 4295032833 * (x / 281474976710656))).
  Z.to_euclidean_division_equations. lia.
Qed.

Lemma cksum_final_ones x : 0 <= x < 2 ^ 33 -> cksum_final x = ones x.
Proof.
  intros Hx. unfold cksum_final.
  destruct (halves_oc x) as (acc & -> & Hacc & Hoc); [unfold in_word; lia|].
  rewrite (wrap_small 32 acc) by (unfold in_word; lia).
  destruct (fold_twice acc ltac:(lia)) as [Hz Hzoc]. cbv zeta in Hz, Hzoc.
  pose proof (fold_bound acc 4 ltac:(lia)).
  rewrite (wrap_small 32 (Z.shiftr acc 16 + _)) by (unfold in_word; lia).
  set (z := Z.shiftr (_ + _) 16 + _) in *.
  rewrite wrap_small by (eapply in_word_mono; [|exact Hz]; lia).
  change 65535 with (Z.ones 16). rewrite land_word by (done || lia).
  apply oc_unique; [done|]. by etrans.
Qed.

Lemma step_spec m data mlen len odd sum :
  mbuf_ok m -> 0 <= data -> 0 <= mlen -> data + mlen = m_len m -> 0 < len < 2 ^ 31 -> 0 <= sum < 2 ^ 33 ->
  exists sum', cksum_step m data mlen len odd sum
      = Some (len - Z.min len mlen, xorb odd (Z.odd (Z.min len mlen)), sum') /\
    0 <= sum' < 2 ^ 33 /\ oc sum' (sum + lanes odd (seg (m_data m) data (Z.min len mlen))).
Proof.
  intros [Hbs Hml] Hd Hm Hend Hlen Hsum. unfold cksum_step. destruct (decide (mlen = 0)) as [->|Hne].
  - rewrite Z.min_r, Z.sub_0_r, xorb_false_r by lia. exists sum. split_and!; [done|lia|lia|].
    change (seg (m_data m) data 0) with (@nil Z). simpl. rewrite Z.add_0_r. apply oc_refl. lia.
  - cbv zeta. replace (if decide (len < mlen) then len else mlen) with (Z.min len mlen)
      by (case_decide; lia).
    destruct (segment_spec m data (Z.min len mlen) odd sum) as (sum' & -> & Hb & Hoc); [done|lia..|].
    by exists sum'.
Qed.

Lemma lanes_odd_app p l1 l2 k :
  k = Z.of_nat (length l1) -> lanes p (l1 ++ l2) = lanes p l1 + lanes (xorb p (Z.odd k)) l2.
Proof.
  intros ->. rewrite lanes_app. do 3 f_equal.
  rewrite <-Nat.negb_even, <-Z.negb_even. f_equal.
  apply Bool.eq_iff_eq_true. rewrite Nat.even_spec, Z.even_spec. split.
  - intros [i ->]. exists (Z.of_nat i). lia.
  - intros [i Hi]. exists (Z.to_nat i). lia.
Qed.

(** What a step leaves is the sum of the rest. *)
Lemma take_split (l1 l2 : list Z) len :
  0 <= len -> take (Z.to_nat len) (l1 ++ l2)
  = take (Z.to_nat (Z.min len (Z.of_nat (length l1)))) l1
    ++ take (Z.to_nat (len - Z.min len (Z.of_nat (length l1)))) l2.
Proof.
  intros Hlen. rewrite take_app. f_equal.
  - destruct (decide (len <= Z.of_nat (length l1))).
    + by rewrite Z.min_l.
    + rewrite Z.min_r by lia. rewrite !take_ge by lia. done.
  - f_equal. lia.
Qed.

Lemma loop_spec ms len odd sum :
  Forall mbuf_ok ms -> 0 <= len < 2 ^ 31 -> len <= Z.of_nat (length (flat ms)) -> 0 <= sum < 2 ^ 33 ->
  cksum_loop ms len odd sum = Some (ones (sum + lanes odd (take (Z.to_nat len) (flat ms)))).
Proof.
  intros Hms. revert len odd sum. induction Hms as [|m ms Hm Hms IH]; intros len odd sum Hlen Htot Hsum;
    cbn [cksum_loop]; destruct (decide (0 < len)) as [Hpos|Hz].
  - change (flat []) with (@nil Z) in Htot. simpl in Htot. lia.
  - change (flat []) with (@nil Z). rewrite take_nil. simpl. by rewrite Z.add_0_r, cksum_final_ones.
  - pose proof Hm as [Hbs Hml]. pose proof (length_data m Hm) as Hl.
    destruct (step_spec m 0 (m_len m) len odd sum) as (s' & -> & Hs' & Hoc); [done|lia..|].
    rewrite bind_some. rewrite flat_cons in *. rewrite length_app, Hl in Htot.
    rewrite IH by lia. f_equal. apply ones_oc.
    rewrite take_split, Hl, Z2Nat.id by lia.
    rewrite (lanes_odd_app _ _ _ (Z.min len (m_len m))) by (rewrite length_take; lia).
    rewrite Z.add_assoc. rewrite seg_data in Hoc by (done || lia). apply oc_add; [exact Hoc|].
    apply oc_refl, lanes_nonneg, Forall_take, flat_ok, Hms.
  - replace (Z.to_nat len) with 0%nat by lia. rewrite take_0. simpl.
    by rewrite Z.add_0_r, cksum_final_ones.
Qed.

Lemma seek_spec ms len off sum :
  Forall mbuf_ok ms -> 0 < len < 2 ^ 31 -> 0 <= off -> off + len <= Z.of_nat (length (flat ms)) ->
  0 <= sum < 2 ^ 33 ->
  cksum_seek ms len off sum
  = Some (ones (sum + lanes false (take (Z.to_nat len) (drop (Z.to_nat off) (flat ms))))).
Proof.
  intros Hms Hlen. revert off sum. induction Hms as [|m ms Hm Hms IH]; intros off sum Hoff Htot Hsum.
  { change (flat []) with (@nil Z) in Htot. simpl in Htot. lia. }
  cbn [cksum_seek]. rewrite flat_cons in *. pose proof Hm as [Hbs Hml].
  pose proof (length_data m Hm) as Hl. rewrite length_app, Hl in Htot. destruct (decide (off < m_len m)) as [Hin|Hout].
  - destruct (step_spec m off (m_len m - off) len false sum) as (s' & -> & Hs' & Hoc);
      [done|lia|lia|lia|lia|done|].
    rewrite bind_some, loop_spec by (done || lia). f_equal. apply ones_oc.
    rewrite drop_app_le, take_split by lia. rewrite length_drop, Hl.
    replace (Z.of_nat (Z.to_nat (m_len m) - Z.to_nat off)) with (m_len m - off) by lia.
    rewrite (lanes_odd_app _ _ _ (Z.min len (m_len m - off))) by (rewrite length_take, length_drop; lia).
    rewrite Z.add_assoc. rewrite seg_data in Hoc by (done || lia). apply oc_add; [exact Hoc|].
    apply oc_refl, lanes_nonneg, Forall_take, flat_ok, Hms.
  - rewrite decide_False, IH by lia. rewrite drop_app_ge by lia.
    rewrite Hl. by replace (Z.to_nat off - Z.to_nat (m_len m))%nat with (Z.to_nat (off - m_len m)) by lia.
Qed.

(** ** A contiguous buffer *)

Lemma cksum_short_spec bs len initial :
  bytes_ok bs -> 0 <= len <= 64 -> Z.land len 3 = 0 -> len <= Z.of_nat (length bs) ->
  in_word 32 initial ->
  cksum_short bs len initial = Some (ones (initial + lanes false (seg bs 0 len))).
Proof.
  intros Hbs Hlen H4 Hend Hi. unfold cksum_short, in_word in *.
  assert (len = 4 * (len / 4)) as Hdiv.
  { change 3 with (Z.ones 2) in H4. rewrite Z.land_ones in H4 by lia. change (2 ^ 2) with 4 in H4.
    Z.to_euclidean_division_equations. lia. }
  destruct (add_words_spec (Z.to_nat (len / 4)) bs 0 initial) as (p & -> & Hp & Hoc); [done|lia..|].
  rewrite Z2Nat.id, <-Hdiv in Hoc by lia. rewrite bind_some. cbv zeta. f_equal.
  assert (in_word 64 p) as Hpw by (unfold in_word; lia).
  pose proof (fold32_oc p Hpw) as Hf. pose proof (fold32_range p Hpw).
  assert (fold32 p < 65537 * 65536) as Hsmall.
  { rewrite fold32_small by done. change 4294967295 with (Z.ones 32).
    rewrite Z.shiftr_div_pow2, Z.land_ones by lia. change (2 ^ 32) with 4294967296 in *.
    Z.to_euclidean_division_equations. lia. }
  pose proof (fold_bound (fold32 p) 65537 ltac:(lia)) as Hy.
  pose proof (oc_fold16 (fold32 p) ltac:(lia)) as Hyoc.
  destruct (fold_twice (Z.shiftr (fold32 p) 16 + Z.land (fold32 p) 65535)) as [Hz Hzoc]; [lia|]. cbv zeta in Hz, Hzoc.
  etrans; [exact (land_word 16 _ ltac:(lia) Hz)|].
  apply oc_unique; [done|]. etrans; [exact Hzoc|]. etrans; [exact Hyoc|]. by etrans.
Qed.

Lemma os_cpu_in_cksum_spec addr bs len initial :
  bytes_ok bs -> 0 < len < 2 ^ 31 -> len <= Z.of_nat (length bs) -> in_word 32 initial ->
  os_cpu_in_cksum addr bs len initial = Some (ones (initial + lanes false (seg bs 0 len))).
Proof.
  intros Hbs Hlen Hend Hi. unfold os_cpu_in_cksum. case_decide as Hshort.
  - apply cksum_short_spec; done || lia.
  - unfold int_of. rewrite (decide_True (P := len < 2 ^ 31)) by lia. unfold os_cpu_in_cksum_mbuf. rewrite decide_True by lia.
    assert (flat [Mbuf addr bs len] = seg bs 0 len) as Hflat by (rewrite flat_cons; apply app_nil_r).
    rewrite seek_spec; rewrite ?Hflat, ?length_seg; try lia.
    + simpl. by rewrite drop_0, (firstn_all2 (seg bs 0 len)) by (rewrite length_seg; lia).
    + constructor; [|done]. split; [done|simpl; lia].
    + unfold in_word in Hi. lia.
Qed.

Lemma ones_range x : 0 <= x -> in_word 16 (ones x).
Proof.
  intros Hx. unfold ones, in_word. change (2 ^ 16) with 65536. case_decide; [lia|].
  pose proof (Z.mod_pos_bound (x - 1) 65535). lia.
Qed.

Lemma b_sum16_spec addr bs len :
  bytes_ok bs -> 0 < len < 2 ^ 31 -> len <= Z.of_nat (length bs) ->
  b_sum16 addr bs len = Some (ones (lanes false (seg bs 0 len))).
Proof.
  intros Hbs Hlen Hend. unfold b_sum16. rewrite (wrap_small 32) by (unfold in_word; lia).
  rewrite os_cpu_in_cksum_spec by (done || lia). rewrite bind_some, Z.add_0_l. f_equal.
  by apply wrap_small, ones_range, lanes_nonneg, seg_ok.
Qed.

(** ** Carries *)

(** The numbers that a number of turns is enough for. *)
Lemma addcarry_S fuel bound b :
  (forall x, 0 <= x < bound -> exists z, ADDCARRY_loop fuel x = Some z /\ in_word 16 z /\ oc z x) ->
  b + 65535 <= bound ->
  forall x, 0 <= x < b * 65536 -> exists z, ADDCARRY_loop (S fuel) x = Some z /\ in_word 16 z /\ oc z x.
Proof.
  intros IH Hb x Hx. cbn [ADDCARRY_loop]. case_decide as Hhigh.
  - pose proof (fold_bound x b ltac:(lia)) as Hf.
    destruct (IH (Z.shiftr x 16 + Z.land x 65535)) as (z & -> & Hz & Hoc); [lia|].
    exists z. split_and!; [done..|]. etrans; [exact Hoc|]. apply oc_fold16. lia.
  - rewrite Z.shiftr_div_pow2 in Hhigh by lia. exists x.
    split; [done|]. split; [|apply oc_refl; lia]. unfold in_word. change (2 ^ 16) with 65536 in *.
    Z.to_euclidean_division_equations. lia.
Qed.

Lemma ADDCARRY_spec x : 0 <= x < 2 ^ 64 -> ADDCARRY x = Some (ones x).
Proof.
  assert (forall y, 0 <= y < 65536 -> exists z, ADDCARRY_loop 1 y = Some z /\ in_word 16 z /\ oc z y) as H1.
  { intros y Hy. exists y. cbn [ADDCARRY_loop]. rewrite decide_False.
    - split_and!; [done|unfold in_word; lia|apply oc_refl; lia].
    - rewrite Z.shiftr_div_pow2 by lia. change (2 ^ 16) with 65536. rewrite Z.div_small; lia. }
  assert (forall y, 0 <= y < 65537 -> exists z, ADDCARRY_loop 2 y = Some z /\ in_word 16 z /\ oc z y) as H2.
  { intros y Hy. destruct (decide (y = 65536)) as [->|Hne].
    - exists 1. split; [done|]. split; [done|]. split_and!; [done|done|done|by exists (-1)].
    - apply (addcarry_S 1 65536 1); [done|lia|lia]. }
  pose proof (addcarry_S 2 _ 2 H2 ltac:(lia)) as H3.
  pose proof (addcarry_S 3 _ 65537 H3 ltac:(lia)) as H4.
  pose proof (addcarry_S 4 _ 4294967297 H4 ltac:(lia)) as H5.
  pose proof (addcarry_S 5 _ 281474976710657 H5 ltac:(lia)) as H6.
  intros Hx. destruct (H6 x) as (z & Hz & Hw & Hoc); [lia|].
  unfold ADDCARRY. rewrite Hz. f_equal. by apply oc_unique.
Qed.

Lemma REDUCE16_spec x : in_word 64 x -> REDUCE16 x = Some (ones x).
Proof.
  intros Hx. unfold REDUCE16. cbv zeta. change (16 * 0) with 0. change (16 * 1) with 16.
  change (16 * 2) with 32. change (16 * 3) with 48. rewrite Z.shiftr_0_r.
  assert (Z.land (Z.shiftr x 48) 65535 = Z.shiftr x 48) as ->.
  { change 65535 with (Z.ones 16). apply land_word; [lia|]. rewrite Z.shiftr_div_pow2 by lia.
    unfold in_word in *. change (2 ^ 48) with 281474976710656. change (2 ^ 16) with 65536.
    change (2 ^ 64) with 18446744073709551616 in Hx. Z.to_euclidean_division_equations. lia. }
  destruct (halves_oc x Hx) as (acc & Hacc & Hb & Hoc).
  replace (Z.land x 65535 + _ + _ + _) with acc by lia.
  assert (Z.land (Z.shiftr acc 16) 65535 = Z.shiftr acc 16) as ->.
  { change 65535 with (Z.ones 16). apply land_word; [lia|]. rewrite Z.shiftr_div_pow2 by lia.
    unfold in_word. change (2 ^ 16) with 65536. change (2 ^ 18) with 262144 in Hb.
    Z.to_euclidean_division_equations. lia. }
  rewrite Z.add_comm. pose proof (fold_bound acc 4 ltac:(lia)).
  rewrite ADDCARRY_spec by lia. f_equal. apply ones_oc. etrans; [|exact Hoc]. apply oc_fold16. lia.
Qed.

Lemma in_pseudo_spec a b c :
  in_word 32 a -> in_word 32 b -> in_word 32 c -> in_pseudo a b c = Some (ones (a + b + c)).
Proof.
  intros Ha Hb Hc. unfold in_pseudo, in_word in *. rewrite REDUCE16_spec by (unfold in_word; lia).
  rewrite bind_some. f_equal. apply wrap_small, ones_range. lia.
Qed.

(** ** The pseudo header *)

Lemma land_field x k : 0 <= k -> Z.land x (Z.shiftl 255 k) = x / 2 ^ k mod 256 * 2 ^ k.
Proof.
  intros Hk. rewrite <-Z.shiftl_mul_pow2, <-Z.shiftr_div_pow2 by done.
  change 256 with (2 ^ 8). rewrite <-Z.land_ones by lia. change (Z.ones 8) with 255.
  apply Z.bits_inj'. intros i Hi. rewrite Z.land_spec, !Z.shiftl_spec, Z.land_spec by done.
  destruct (decide (i < k)).
  - rewrite !(Z.testbit_neg_r _ (i - k)) by lia. by rewrite !andb_false_r.
  - rewrite Z.shiftr_spec by lia. by replace (i - k + k) with i by lia.
Qed.

Lemma htonl_bytes x :
  in_word 32 x ->
  htonl x = x / 2 ^ 24 mod 256 + x / 2 ^ 16 mod 256 * 2 ^ 8 + x / 2 ^ 8 mod 256 * 2 ^ 16 + x mod 256 * 2 ^ 24.
Proof.
  intros Hx. unfold htonl. assert (Z.land x 255 = x mod 256) as -> by exact (Z.land_ones x 8 ltac:(lia)).
  change 4278190080 with (Z.shiftl 255 24). change 16711680 with (Z.shiftl 255 16).
  change 65280 with (Z.shiftl 255 8). rewrite !land_field by lia.
  rewrite !Z.shiftr_div_pow2, !Z.shiftl_mul_pow2 by lia.
  pose proof (Z.mod_pos_bound (x / 2 ^ 24) 256). pose proof (Z.mod_pos_bound (x / 2 ^ 16) 256).
  pose proof (Z.mod_pos_bound (x / 2 ^ 8) 256). pose proof (Z.mod_pos_bound x 256).
  set (b3 := x / 2 ^ 24 mod 256) in *. set (b2 := x / 2 ^ 16 mod 256) in *.
  set (b1 := x / 2 ^ 8 mod 256) in *. set (b0 := x mod 256) in *.
  rewrite Z.div_mul by lia. change (2 ^ 16) with (2 ^ 8 * 2 ^ 8). rewrite Z.mul_assoc, Z.div_mul by lia.
  rewrite <-(Z.mul_assoc b1). change (2 ^ 8 * 2 ^ 8) with (2 ^ 16).
  rewrite (lor_low_high 8 b3), (lor_low_high 16 (_ + _)), (lor_low_high 24 (_ + _)) by lia. lia.
Qed.

(** In network order a number is multiplied by 256. *)
Lemma htonl_oc x : in_word 32 x -> in_word 32 (htonl x) /\ oc (htonl x) (256 * x).
Proof.
  intros Hx. rewrite htonl_bytes by done. unfold in_word in *.
  change (2 ^ 24) with 16777216. change (2 ^ 16) with 65536. change (2 ^ 8) with 256.
  change (2 ^ 32) with 4294967296 in *. split; [Z.to_euclidean_division_equations; lia|].
  split_and!; [Z.to_euclidean_division_equations; lia..|].
  exists (x mod 256 * 256 - x / 65536 mod 256 * 256 - x / 16777216 mod 256 * 65537).
  Z.to_euclidean_division_equations. lia.
Qed.

(** The pseudo header of RFC 768 and RFC 793: the addresses of the IP header, a
    zero byte, the protocol and the length of the segment. *)
Definition pseudo_header (packet : list Z) (nxt len : Z) : list Z :=
  seg packet 12 4 ++ seg packet 16 4 ++ [0; nxt; len / 256; len mod 256].

Lemma lanes_pseudo packet nxt len :
  (20 <= length packet)%nat -> lanes false (pseudo_header packet nxt len)
  = lanes false (seg packet 12 4) + lanes false (seg packet 16 4) + (256 * nxt + len / 256 + 256 * (len mod 256)).
Proof.
  intros Hlen. unfold pseudo_header. rewrite lanes_app, length_seg by lia.
  change (xorb false (Nat.odd (Z.to_nat 4))) with false. rewrite lanes_app, length_seg by lia.
  change (xorb false (Nat.odd (Z.to_nat 4))) with false. simpl. lia.
Qed.

Lemma add_pseudo_spec ip nxt len sum :
  bytes_ok ip -> (20 <= length ip)%nat -> 0 <= nxt < 256 -> in_word 16 len -> in_word 16 sum ->
  add_pseudo ip nxt len sum = Some (ones (sum + lanes false (pseudo_header ip nxt len))).
Proof.
  intros Hip Hlen Hn Hl Hs. unfold add_pseudo, in_word in *. change (2 ^ 16) with 65536 in *.
  destruct (read32_spec ip 12) as (src & -> & Hsrc & Hsoc); [done|lia|lia|].
  destruct (read32_spec ip 16) as (dst & Hr & Hdst & Hdoc); [done|lia|lia|].
  rewrite bind_some, Hr, bind_some. rewrite (wrap_small 32) by (unfold in_word; lia).
  destruct (htonl_oc (len + nxt)) as [Hh Hhoc]; [unfold in_word; lia|].
  rewrite in_pseudo_spec by (unfold in_word in *; lia). rewrite bind_some.
  assert (0 <= src + dst + htonl (len + nxt)) as Hnn by (unfold in_word in Hh; lia).
  pose proof (ones_range _ Hnn) as Hr16. unfold in_word in Hr16. change (2 ^ 16) with 65536 in Hr16.
  rewrite ADDCARRY_spec by lia. f_equal. apply ones_oc. apply oc_add; [apply oc_refl; lia|].
  etrans; [by apply oc_ones|]. rewrite lanes_pseudo by done.
  apply oc_add; [by apply oc_add|]. etrans; [exact Hhoc|].
  pose proof (Z.div_mod len 256 ltac:(lia)). pose proof (Z.mod_pos_bound len 256 ltac:(lia)).
  pose proof (Z.div_pos len 256 ltac:(lia) ltac:(lia)).
  symmetry. replace (256 * (len + nxt)) with (65536 * (len / 256) + (256 * nxt + 256 * (len mod 256))) by lia.
  replace (256 * nxt + len / 256 + 256 * (len mod 256))
    with (len / 256 + (256 * nxt + 256 * (len mod 256))) by lia.
  apply oc_high; [lia|lia|by exists 1|lia].
Qed.

(** ** The checksums of packets *)

(** What a checksum covers: the pseudo header, if a protocol is given, and the
    segment. *)
Definition covered (packet : list Z) (nxt off len : Z) : list Z :=
  (if decide (nxt = 0) then [] else pseudo_header packet nxt len) ++ seg packet off len.

(** The checksum of RFC 1071. *)
Definition rfc1071 (bytes : list Z) : Z := 65535 - ones (lanes false bytes).

Lemma complement16_spec x : in_word 16 x -> complement16 x = 65535 - x.
Proof.
  intros Hx. unfold complement16. change 65535 with (Z.ones 16) at 1.
  rewrite Z.land_ones by lia. by apply wrap_lnot.
Qed.

Lemma m_length2_flat ms :
  Forall mbuf_ok ms -> Z.of_nat (length (flat ms)) < 2 ^ 32 -> m_length2 ms = Z.of_nat (length (flat ms)).
Proof.
  induction 1 as [|m ms Hm Hms IH]; intros Hlen; [done|]. cbn [m_length2 foldr].
  change (foldr _ 0 ms) with (m_length2 ms). rewrite flat_cons, length_app, length_data in * by done.
  destruct Hm as [_ Hm]. rewrite IH by lia. rewrite wrap_small by (unfold in_word; lia). lia.
Qed.

Lemma lanes_covered packet nxt off len :
  (nxt <> 0 -> (20 <= length packet)%nat) ->
  lanes false (covered packet nxt off len) =
  lanes false (seg packet off len) + (if decide (nxt = 0) then 0 else lanes false (pseudo_header packet nxt len)).
Proof.
  intros Hlen. unfold covered. case_decide as Hn; [simpl; lia|]. rewrite lanes_app.
  assert (length (pseudo_header packet nxt len) = 12%nat) as ->.
  { specialize (Hlen Hn). unfold pseudo_header. rewrite !length_app, !length_seg by lia. done. }
  change (xorb false (Nat.odd 12)) with false. lia.
Qed.

Lemma pseudo_header_prefix p q nxt len :
  take 20 p = take 20 q -> pseudo_header p nxt len = pseudo_header q nxt len.
Proof.
  intros Hpq. assert (forall (l : list Z) d, (d <= 16)%nat -> take 4 (drop d l) = take 4 (drop d (take 20 l))) as Hd.
  { intros l d Hd. rewrite skipn_firstn_comm, take_take. f_equal. lia. }
  unfold pseudo_header, seg. change (Z.to_nat 4) with 4%nat.
  change (Z.to_nat 12) with 12%nat. change (Z.to_nat 16) with 16%nat.
  rewrite !(Hd p), !(Hd q), Hpq by lia. done.
Qed.

Lemma finish_spec ip packet nxt off len :
  bytes_ok packet -> bytes_ok ip -> (nxt <> 0 -> (20 <= length ip)%nat /\ (20 <= length packet)%nat) ->
  take 20 ip = take 20 packet -> 0 <= nxt < 256 -> (nxt <> 0 -> in_word 16 len) ->
  (if decide (nxt <> 0)
   then sum ← add_pseudo ip nxt len (ones (lanes false (seg packet off len))); Some (complement16 sum)
   else Some (complement16 (ones (lanes false (seg packet off len)))))
  = Some (rfc1071 (covered packet nxt off len)).
Proof.
  intros Hp Hip Hlen Hsame Hn Hl. unfold rfc1071. rewrite lanes_covered by naive_solver.
  pose proof (lanes_nonneg false _ (seg_ok packet off len Hp)) as Hseg.
  pose proof (ones_range _ Hseg) as Hr. destruct (decide (nxt <> 0)) as [Hnz|Hz].
  - rewrite decide_False by done. destruct (Hlen Hnz) as [Hi Hk].
    rewrite add_pseudo_spec by auto. rewrite bind_some, (pseudo_header_prefix ip packet) by done.
    assert (0 <= lanes false (pseudo_header packet nxt len)).
    { rewrite lanes_pseudo by done. specialize (Hl Hnz). unfold in_word in Hl.
      pose proof (lanes_nonneg false _ (seg_ok packet 12 4 Hp)).
      pose proof (lanes_nonneg false _ (seg_ok packet 16 4 Hp)).
      pose proof (Z.mod_pos_bound len 256). pose proof (Z.div_pos len 256). lia. }
    rewrite complement16_spec by (apply ones_range; unfold in_word in Hr; lia). do 2 f_equal.
    apply ones_oc, oc_add; [by apply oc_ones|by apply oc_refl].
  - rewrite decide_True, Z.add_0_r by lia. by rewrite complement16_spec.
Qed.

(** The conditions under which a checksum may be asked for. *)
Definition request_ok (packet : list Z) (nxt off len : Z) : Prop :=
  0 <= nxt < 256 /\ 0 <= off /\ 0 < len /\ off + len <= Z.of_nat (length packet) /\
  Z.of_nat (length packet) < 2 ^ 31 /\ (nxt <> 0 -> len < 65536 /\ (20 <= length packet)%nat).

#[export] Instance request_ok_dec packet nxt off len : Decision (request_ok packet nxt off len).
Proof. unfold request_ok. apply _. Defined.

(** [m_sum16] is the sum of the bytes of the segment. *)
Lemma m_sum16_spec ms off len :
  Forall mbuf_ok ms -> 0 <= off -> 0 < len -> off + len <= Z.of_nat (length (flat ms)) ->
  Z.of_nat (length (flat ms)) < 2 ^ 31 ->
  m_sum16 ms off len = Some (ones (lanes false (seg (flat ms) off len))).
Proof.
  intros Hms Hoff Hlen Hend Hmax. unfold m_sum16, int_of.
  rewrite (m_length2_flat ms) by (done || lia). rewrite (wrap_small 32) by (unfold in_word; lia).
  rewrite decide_False by lia. rewrite (decide_True (P := len < 2 ^ 31)), (decide_True (P := off < 2 ^ 31)) by lia.
  unfold os_cpu_in_cksum_mbuf. rewrite decide_True by lia.
  rewrite seek_spec by (done || lia). rewrite !bind_some, Z.add_0_l.
  fold (seg (flat ms) off len). pose proof (flat_ok ms Hms) as Hf.
  by rewrite wrap_small by (by apply ones_range, lanes_nonneg, seg_ok).
Qed.

Lemma inet_cksum_spec ms nxt off len :
  Forall mbuf_ok ms -> request_ok (flat ms) nxt off len ->
  inet_cksum ms nxt off len = Some (rfc1071 (covered (flat ms) nxt off len)).
Proof.
  intros Hms (Hn & Hoff & Hlen & Hend & Hmax & Hnx). unfold inet_cksum.
  rewrite m_sum16_spec, bind_some by (done || lia). rewrite (m_length2_flat ms) by (done || lia).
  pose proof (flat_ok ms Hms) as Hf.
  destruct (decide (nxt = 0)) as [Hz|Hnz].
  - rewrite <-(finish_spec (flat ms) (flat ms) nxt off len); try done; [|naive_solver..].
    by rewrite !(decide_False (P := nxt <> 0)) by naive_solver.
  - destruct (Hnx Hnz) as [Hl H20]. rewrite (decide_True (P := nxt <> 0)) by done.
    rewrite decide_False by (unfold sizeof_ip; lia). destruct ms as [|m ms]; [simpl in H20; lia|].
    change (head (m :: ms)) with (Some m). rewrite bind_some. cbv zeta. apply Forall_cons in Hms as [Hm Hms].
    set (ip := if decide _ then _ else _).
    assert (bytes_ok ip /\ (20 <= length ip)%nat /\ take 20 ip = take 20 (flat (m :: ms))) as (Hi1 & Hi2 & Hi3).
    { unfold ip. case_decide as Hc.
      - change (Z.to_nat sizeof_ip) with 20%nat.
        split_and!; [by apply Forall_take|rewrite length_take; lia|by rewrite take_take].
      - unfold sizeof_ip in Hc. destruct Hm as [Hb Hml]. split_and!; [done|lia|].
        rewrite flat_cons. unfold seg. rewrite drop_0, take_app_le by (rewrite length_take; lia).
        rewrite take_take. f_equal. lia. }
    pose proof (finish_spec ip (flat (m :: ms)) nxt off len) as Hfin.
    rewrite (decide_True (P := nxt <> 0)) in Hfin by done. apply Hfin; try done.
    intros _. unfold in_word. change (2 ^ 16) with 65536. lia.
Qed.

Lemma seg_drop packet off len : 0 <= off -> seg (drop (Z.to_nat off) packet) 0 len = seg packet off len.
Proof. intros. unfold seg. by rewrite drop_0. Qed.

Lemma inet_cksum_buffer_spec addr packet nxt off len :
  bytes_ok packet -> request_ok packet nxt off len -> off < len ->
  inet_cksum_buffer addr packet nxt off len = Some (rfc1071 (covered packet nxt off len)).
Proof.
  intros Hp (Hn & Hoff & Hlen & Hend & Hmax & Hnx) Hlt. unfold inet_cksum_buffer.
  rewrite decide_False by lia. rewrite b_sum16_spec; [|by apply Forall_drop|lia|rewrite length_drop; lia].
  rewrite bind_some, seg_drop by done. cbv zeta.
  set (ip := if IP_HDR_ALIGNED_P addr then packet else _).
  apply (finish_spec ip packet); try done.
  - unfold ip. destruct (IP_HDR_ALIGNED_P addr); [done|by apply Forall_take].
  - intros Hnz. destruct (Hnx Hnz). split; [|lia]. unfold ip.
    change (Z.to_nat sizeof_ip) with 20%nat.
    destruct (IP_HDR_ALIGNED_P addr); [lia|rewrite length_take; lia].
  - unfold ip. destruct (IP_HDR_ALIGNED_P addr); [done|].
    change (Z.to_nat sizeof_ip) with 20%nat. by rewrite take_take.
  - intros Hnz. destruct (Hnx Hnz). unfold in_word. change (2 ^ 16) with 65536. lia.
Qed.

Lemma loop_short ms len odd sum :
  Forall mbuf_ok ms -> 0 < len < 2 ^ 31 -> Z.of_nat (length (flat ms)) < len -> 0 <= sum < 2 ^ 33 ->
  cksum_loop ms len odd sum = Some OUT_OF_DATA.
Proof.
  intros Hms. revert len odd sum. induction Hms as [|m ms Hm Hms IH]; intros len odd sum Hlen Htot Hsum;
    cbn [cksum_loop]; rewrite decide_True by lia; [done|].
  pose proof (length_data m Hm) as Hl. rewrite flat_cons, length_app, Hl in Htot. pose proof Hm as [_ Hml].
  destruct (step_spec m 0 (m_len m) len odd sum) as (s' & -> & Hs' & _); [done|lia..|].
  rewrite bind_some. apply IH; lia.
Qed.

Lemma seek_short ms len off sum :
  Forall mbuf_ok ms -> 0 < len < 2 ^ 31 -> 0 <= off -> Z.of_nat (length (flat ms)) < off + len ->
  0 <= sum < 2 ^ 33 -> cksum_seek ms len off sum = Some OUT_OF_DATA.
Proof.
  intros Hms Hlen. revert off sum. induction Hms as [|m ms Hm Hms IH]; intros off sum Hoff Htot Hsum;
    cbn [cksum_seek]; [done|].
  pose proof (length_data m Hm) as Hl. rewrite flat_cons, length_app, Hl in Htot. pose proof Hm as [_ Hml].
  case_decide.
  - destruct (step_spec m off (m_len m - off) len false sum) as (s' & -> & Hs' & _); [done|lia..|].
    rewrite bind_some. apply loop_short; done || lia.
  - rewrite decide_False by lia. apply IH; lia.
Qed.

(** The checksum field is filled in: two bytes at an even distance. *)
Lemma lanes_field l1 l2 a b :
  Nat.even (length l1) = true -> lanes false (l1 ++ [a; b] ++ l2) = lanes false (l1 ++ [0; 0] ++ l2) + (a + 256 * b).
Proof.
  intros He. rewrite !lanes_app, <-Nat.negb_even, He. simpl. lia.
Qed.

Lemma seg_middle pre s post :
  seg (pre ++ s ++ post) (Z.of_nat (length pre)) (Z.of_nat (length s)) = s.
Proof. unfold seg. by rewrite !Nat2Z.id, drop_app_length, take_app_length. Qed.

Lemma ones_complement x : 0 <= x -> ones (x + (65535 - ones x)) = 65535.
Proof.
  intros Hx. pose proof (ones_range x Hx) as Hr. unfold in_word in Hr. change (2 ^ 16) with 65536 in Hr.
  rewrite (ones_oc _ (ones x + (65535 - ones x))).
  - by replace (ones x + (65535 - ones x)) with 65535 by lia.
  - apply oc_add; [symmetry; by apply oc_ones|apply oc_refl; lia].
Qed.

Lemma covered_ok packet nxt off len :
  bytes_ok packet -> 0 <= nxt < 256 /\ (nxt <> 0 -> 0 <= len < 65536) -> bytes_ok (covered packet nxt off len).
Proof.
  intros Hp [Hn Hl]. unfold covered. apply Forall_app. split; [|by apply seg_ok]. case_decide as Hz; [done|].
  specialize (Hl Hz). unfold pseudo_header. repeat apply Forall_app_2; [by apply seg_ok..|].
  pose proof (Z.mod_pos_bound len 256). pose proof (Z.div_pos len 256).
  assert (len / 256 < 256) by (apply Z.div_lt_upper_bound; lia).
  repeat constructor; lia.
Qed.

(** ** Properties *)

(** C14. The 64-bit checksum routine is right for every mbuf chain: whatever the
    addresses and the lengths of the pieces, odd ones included, and whatever the
    initial sum, the result for the [len] bytes from [off] on, where [len] is not 0, is
    the one's complement value of the initial sum plus the 16-bit words of those bytes; no
    carry is lost and no byte outside the data is read.  A chain that is too
    short gives the error value. *)
Theorem os_cpu_in_cksum_mbuf_correct ms len off initial :
  Forall mbuf_ok ms -> 0 < len < 2 ^ 31 -> 0 <= off -> in_word 32 initial ->
  os_cpu_in_cksum_mbuf ms len off initial =
  Some (if decide (off + len <= Z.of_nat (length (flat ms)))
        then ones (initial + lanes false (seg (flat ms) off len)) else OUT_OF_DATA).
Proof.
  intros Hms Hlen Hoff Hi. unfold os_cpu_in_cksum_mbuf, in_word in *. rewrite decide_True by lia.
  case_decide; [apply seek_spec|apply seek_short]; done || lia.
Qed.

(** Three pieces, at an even, an odd and an even address, of odd lengths. *)
Definition demo_chain : list mbuf :=
  [Mbuf 4096 [69; 0; 0] 3; Mbuf 8193 [60; 28; 70; 64; 0; 255] 5; Mbuf 12290 [64; 6; 177; 230; 172] 5].

Lemma os_cpu_in_cksum_mbuf_correct_witness :
  os_cpu_in_cksum_mbuf demo_chain 11 1 7 = Some (ones (7 + lanes false [0; 0; 60; 28; 70; 64; 0; 64; 6; 177; 230])).
Proof.
  apply (os_cpu_in_cksum_mbuf_correct demo_chain 11 1 7); [|lia|lia|done].
  apply (bool_decide_unpack _). vm_compute. exact I.
Defined.

(** C29. [inet_cksum] computes the checksum of RFC 1071 over the segment and, when
    a protocol is given, over the pseudo header made of the addresses in the IP
    header, the protocol and the length, also when the IP header is spread over
    several mbufs or not aligned. *)
Theorem inet_cksum_rfc1071 ms nxt off len :
  Forall mbuf_ok ms -> request_ok (flat ms) nxt off len ->
  inet_cksum ms nxt off len = Some (rfc1071 (covered (flat ms) nxt off len)).
Proof. apply inet_cksum_spec. Qed.

(** A UDP datagram of 10 bytes after a header of 20, in two pieces. *)
Definition demo_packet : list Z :=
  [69; 0; 0; 30; 0; 1; 0; 0; 64; 17; 0; 0; 10; 0; 0; 1; 10; 0; 0; 2]
  ++ [4; 210; 0; 53; 0; 10; 0; 0; 104; 105].

Definition demo_packet_chain : list mbuf :=
  [Mbuf 4099 (take 15 demo_packet) 15; Mbuf 8192 (drop 15 demo_packet) 15].

Lemma inet_cksum_rfc1071_witness :
  inet_cksum demo_packet_chain 17 20 10
  = Some (rfc1071 ([10; 0; 0; 1; 10; 0; 0; 2; 0; 17; 0; 10] ++ [4; 210; 0; 53; 0; 10; 0; 0; 104; 105])).
Proof.
  apply (inet_cksum_rfc1071 demo_packet_chain 17 20 10).
  - apply (bool_decide_unpack _). vm_compute. exact I.
  - apply (bool_decide_unpack _). vm_compute. exact I.
Defined.

(** A receiver accepts what a sender computed: when the checksum of a packet
    whose checksum field is zero is stored in that field, at an even distance
    from the start of the segment, the checksum of the packet is 0, whatever the
    mbuf chains that the sender and the receiver keep it in. *)
Theorem inet_cksum_verifies ms ms' nxt pre l1 l2 post c :
  let off := Z.of_nat (length pre) in
  let len := Z.of_nat (length (l1 ++ [0; 0] ++ l2)) in
  Forall mbuf_ok ms -> Forall mbuf_ok ms' -> Nat.even (length l1) = true ->
  flat ms = pre ++ (l1 ++ [0; 0] ++ l2) ++ post ->
  flat ms' = pre ++ (l1 ++ [c mod 256; c / 256] ++ l2) ++ post ->
  request_ok (flat ms) nxt off len -> (nxt <> 0 -> (20 <= length pre)%nat) ->
  inet_cksum ms nxt off len = Some c -> inet_cksum ms' nxt off len = Some 0.
Proof.
  intros off len Hms Hms' He Hf Hf' Hreq Hpre Hc.
  rewrite (inet_cksum_spec ms) in Hc by done. simplify_eq.
  assert (length (flat ms') = length (flat ms)) as Hlen by (rewrite Hf, Hf', !length_app; done).
  assert (request_ok (flat ms') nxt off len) as Hreq' by (unfold request_ok in *; by rewrite Hlen).
  rewrite (inet_cksum_spec ms') by done. f_equal. unfold rfc1071 in *.
  pose proof (flat_ok _ Hms) as Hok. pose proof (flat_ok _ Hms') as Hok'.
  set (c := 65535 - ones _) in *.
  assert (seg (flat ms) off len = l1 ++ [0; 0] ++ l2) as Hseg by (unfold off, len; rewrite Hf; apply seg_middle).
  assert (seg (flat ms') off len = l1 ++ [c mod 256; c / 256] ++ l2) as Hseg'.
  { unfold off, len. rewrite Hf'. etrans; [|apply (seg_middle pre _ post)]. f_equal. by rewrite !length_app. }
  assert (nxt <> 0 -> (20 <= length (flat ms))%nat) as H20.
  { intros Hn. destruct Hreq as (_ & _ & _ & _ & _ & H20). by apply H20. }
  assert (lanes false (covered (flat ms') nxt off len) = lanes false (covered (flat ms) nxt off len) + c) as ->.
  { rewrite !lanes_covered, Hseg, Hseg', lanes_field by (done || by rewrite ?Hlen).
    pose proof (Z.div_mod c 256 ltac:(lia)). destruct (decide (nxt = 0)) as [|Hn]; [lia|].
    rewrite (pseudo_header_prefix (flat ms') (flat ms)); [lia|].
    specialize (Hpre Hn). by rewrite Hf, Hf', !take_app_le by done. }
  unfold c. rewrite ones_complement; [lia|]. apply lanes_nonneg, covered_ok; [done|].
  destruct Hreq as (Hn & _ & Hl & _ & _ & Hx). split; [lia|]. intros Hnz. destruct (Hx Hnz). lia.
Qed.

(** The checksum of the datagram above, stored by a sender that keeps it in two
    pieces, and checked by a receiver that has it in one. *)
Lemma inet_cksum_verifies_witness :
  exists c, inet_cksum demo_packet_chain 17 20 10 = Some c /\
    inet_cksum [Mbuf 4097 (take 26 demo_packet ++ [c mod 256; c / 256] ++ drop 28 demo_packet) 30] 17 20 10 = Some 0.
Proof.
  eexists. split; [vm_compute; reflexivity|].
  eapply (inet_cksum_verifies demo_packet_chain _ 17 (take 20 demo_packet) [4; 210; 0; 53; 0; 10] [104; 105] []).
  - apply (bool_decide_unpack _). vm_compute. exact I.
  - apply (bool_decide_unpack _). vm_compute. exact I.
  - reflexivity.
  - reflexivity.
  - reflexivity.
  - apply (bool_decide_unpack _). vm_compute. exact I.
  - intros _. simpl. lia.
  - vm_compute. reflexivity.
Defined.

(** The packet filter gets the same checksum for a packet in one piece of
    memory as for a chain with the same bytes, as long as the segment is longer
    than the part before it; for a shorter segment the chain still gives the
    checksum, but the piece of memory panics. *)
Theorem pbuf_inet_cksum_layouts ms addr packet nxt off len :
  Forall mbuf_ok ms -> flat ms = packet -> request_ok packet nxt off len ->
  pbuf_inet_cksum (PBUF_TYPE_MBUF ms) nxt off len = Some (rfc1071 (covered packet nxt off len)) /\
  pbuf_inet_cksum (PBUF_TYPE_MEMORY addr packet) nxt off len =
    (if decide (off < len) then Some (rfc1071 (covered packet nxt off len)) else None).
Proof.
  intros Hms <- Hreq. split; [by apply inet_cksum_spec|]. simpl. case_decide as Hlt.
  - apply inet_cksum_buffer_spec; [by apply flat_ok|done|done].
  - unfold inet_cksum_buffer. by rewrite decide_True by lia.
Qed.

(** The datagram above: 10 bytes after 20. *)
Lemma pbuf_inet_cksum_layouts_witness :
  pbuf_inet_cksum (PBUF_TYPE_MBUF demo_packet_chain) 17 20 10 = Some (rfc1071 (covered demo_packet 17 20 10)) /\
  pbuf_inet_cksum (PBUF_TYPE_MEMORY 4096 demo_packet) 17 20 10 = None.
Proof.
  apply (pbuf_inet_cksum_layouts demo_packet_chain 4096 demo_packet 17 20 10).
  - apply (bool_decide_unpack _). vm_compute. exact I.
  - reflexivity.
  - apply (bool_decide_unpack _). vm_compute. exact I.
Defined.

(** The checksum of the header of a packet, by the fast path or not, is the one
    of RFC 1071, and one packet of [hlen] bytes is counted. *)
Theorem ip_cksum_hdr_dir_correct m ms hlen out st :
  Forall mbuf_ok (m :: ms) -> request_ok (flat (m :: ms)) 0 0 hlen ->
  ip_cksum_hdr_dir (m :: ms) hlen out st =
  Some (rfc1071 (seg (flat (m :: ms)) 0 hlen), count_swcsum st out hlen).
Proof.
  intros Hms Hreq. unfold ip_cksum_hdr_dir. change (head (m :: ms)) with (Some m). rewrite bind_some. cbv zeta.
  case_decide as Hfast.
  - destruct Hfast as (-> & Hl & _). unfold in_cksum_hdr. apply Forall_cons in Hms as [Hm Hms].
    pose proof Hm as [Hb Hml]. unfold sizeof_ip in *. rewrite b_sum16_spec by (done || lia).
    rewrite !bind_some, complement16_spec by (by apply ones_range, lanes_nonneg, seg_ok).
    assert (seg (flat (m :: ms)) 0 20 = seg (m_data m) 0 20) as ->; [|done].
    rewrite flat_cons. unfold seg. rewrite !drop_0, take_app_le by (rewrite length_take; lia).
    rewrite take_take. f_equal. lia.
  - rewrite inet_cksum_spec by done. rewrite bind_some. unfold covered. by rewrite decide_True by done.
Qed.

(** A length of 0 at an odd address: the first byte is taken all the same and the
    length becomes -1, whose bits ask for one more byte or for 63 more. *)
Theorem cksum_zero_length_odd :
  os_cpu_in_cksum_mbuf [Mbuf 4096 [1; 2; 3; 4] 4] 0 0 0 = Some 0 /\
  os_cpu_in_cksum_mbuf [Mbuf 4097 [1; 2; 3; 4] 4] 0 0 0 = Some 513 /\
  os_cpu_in_cksum_mbuf [Mbuf 4099 [1; 2; 3; 4] 4] 0 0 0 = None.
Proof. split_and!; vm_compute; reflexivity. Qed.

(** [in_pseudo64] adds three 64-bit numbers in 64 bits and loses the carry. *)
Theorem in_pseudo64_loses_carry :
  in_pseudo64 (2 ^ 64 - 1) 1 0 = Some 0 /\ ones (2 ^ 64 - 1 + 1 + 0) = 1.
Proof. split; vm_compute; reflexivity. Qed.
