(* ===== verification/In6Cksum.v ===== *)
(** * The checksums of IPv6 packets

    [bsd/netinet6/in6_cksum.c], the scope macros of [bsd/netinet6/in6.h] it uses and
    [pbuf_inet6_cksum] of [bsd/net/pf_pbuf.c].  The sums over the segments are those
    of InCksum.  A header is a list of bytes with the addresses at 8 and at 24; a
    [panic] or a read outside the packet is [None].  The checksum is shown to be the
    one of RFC 2460 over the addresses as they are on the wire, without the
    interface the kernel keeps in the second word of an address with a link or
    interface scope, unless the sum of the pseudo header leaves 32 bits. *)
From S2P Require Import Prelude InCksum.

Local Open Scope Z_scope.

(** ** in6.h *)

Definition IN6_IS_ADDR_LINKLOCAL (a : list Z) : option bool :=
  b0 ← zget a 0; b1 ← zget a 1; Some (bool_decide (b0 = 254) && bool_decide (Z.land b1 192 = 128)).

Definition IN6_IS_ADDR_MULTICAST (a : list Z) : option bool := b0 ← zget a 0; Some (bool_decide (b0 = 255)).

Definition IPV6_ADDR_MC_FLAGS (a : list Z) : option Z := b1 ← zget a 1; Some (Z.land b1 240).

Definition IPV6_ADDR_MC_SCOPE (a : list Z) : option Z := b1 ← zget a 1; Some (Z.land b1 15).

Abbreviation IPV6_ADDR_SCOPE_INTFACELOCAL := (1)%Z.
Abbreviation IPV6_ADDR_SCOPE_LINKLOCAL := (2)%Z.
Abbreviation IPV6_ADDR_MC_FLAGS_TRANSIENT := (16)%Z.
Abbreviation IPV6_ADDR_MC_FLAGS_PREFIX := (32)%Z.
Definition IPV6_ADDR_MC_FLAGS_UNICAST_BASED : Z :=
  Z.lor IPV6_ADDR_MC_FLAGS_TRANSIENT IPV6_ADDR_MC_FLAGS_PREFIX.

Definition IN6_IS_ADDR_MC_INTFACELOCAL (a : list Z) : option bool :=
  m ← IN6_IS_ADDR_MULTICAST a;
  s ← IPV6_ADDR_MC_SCOPE a;
  Some (m && bool_decide (s = IPV6_ADDR_SCOPE_INTFACELOCAL)).

Definition IN6_IS_ADDR_MC_LINKLOCAL (a : list Z) : option bool :=
  m ← IN6_IS_ADDR_MULTICAST a;
  f ← IPV6_ADDR_MC_FLAGS a;
  s ← IPV6_ADDR_MC_SCOPE a;
  Some (m && negb (bool_decide (f = IPV6_ADDR_MC_FLAGS_UNICAST_BASED)) &&
        bool_decide (s = IPV6_ADDR_SCOPE_LINKLOCAL)).

(** The addresses whose second word the kernel uses for the interface. *)
Definition IN6_IS_SCOPE_EMBED (a : list Z) : option bool :=
  l ← IN6_IS_ADDR_LINKLOCAL a;
  m ← IN6_IS_ADDR_MC_LINKLOCAL a;
  i ← IN6_IS_ADDR_MC_INTFACELOCAL a;
  Some (l || m || i).

(** ** in6_cksum.c *)

(** One address is added to the 32-bit [sum]: [w[0]], then [w[1]] if no scope is
    embedded, then the other words. *)
Definition add_address (a : list Z) (sum : Z) : option Z :=
  w0 ← read16 a 0;
  e ← IN6_IS_SCOPE_EMBED a;
  w1 ← (if (e : bool) then Some 0 else read16 a 2);
  w2 ← read16 a 4; w3 ← read16 a 6; w4 ← read16 a 8;
  w5 ← read16 a 10; w6 ← read16 a 12; w7 ← read16 a 14;
  Some (foldl (fun s w => u32 (s + w)) sum [w0; w1; w2; w3; w4; w5; w6; w7]).

Definition in6_pseudo (src dst : list Z) (x : Z) : option Z :=
  sum ← add_address src 0;
  sum ← add_address dst sum;
  sum ← ADDCARRY (u32 (sum + x));
  Some (u16 sum).

Abbreviation sizeof_ip6 := (40)%Z.

Definition IP6_HDR_ALIGNED_P (addr : Z) : bool := bool_decide (Z.land addr 3 = 0).

(** The pseudo header of the header at [ip6] is added to [sum]. *)
Definition add_pseudo6 (ip6 : list Z) (nxt len sum : Z) : option Z :=
  p ← in6_pseudo (drop 8 ip6) (drop 24 ip6) (htonl (u32 (nxt + len)));
  ADDCARRY (u32 (sum + p)).

Definition inet6_cksum (ms : list mbuf) (nxt off len : Z) : option Z :=
  sum ← m_sum16 ms off len;
  if decide (nxt <> 0) then
    if decide (m_length2 ms < sizeof_ip6) then None else
    m ← head ms;
    let ip6 := if decide (m_len m < sizeof_ip6 \/ IP6_HDR_ALIGNED_P (m_addr m) = false)
               then take (Z.to_nat sizeof_ip6) (flat ms) else m_data m in
    sum ← add_pseudo6 ip6 nxt len sum;
    Some (complement16 sum)
  else Some (complement16 sum).

Definition inet6_cksum_buffer (addr : Z) (buffer : list Z) (nxt off len buffer_len : Z) : option Z :=
  if decide (buffer_len <= off) then None else
  if decide (len = 0 \/ buffer_len < len) then None else
  if decide (2 ^ 32 <= off + len) then None else
  if decide (buffer_len < off + len) then None else
  sum ← b_sum16 (addr + off) (drop (Z.to_nat off) buffer) len;
  if decide (nxt <> 0) then
    let ip6 := if IP6_HDR_ALIGNED_P addr then buffer else take (Z.to_nat sizeof_ip6) buffer in
    sum ← add_pseudo6 ip6 nxt len sum;
    Some (complement16 sum)
  else Some (complement16 sum).

(** [pb_contig_len] of a packet in memory is the length of that memory. *)
Definition pbuf_inet6_cksum (p : pbuf) (nxt off len : Z) : option Z :=
  match p with
  | PBUF_TYPE_ZOMBIE => None
  | PBUF_TYPE_MBUF ms => inet6_cksum ms nxt off len
  | PBUF_TYPE_MEMORY addr bs => inet6_cksum_buffer addr bs nxt off len (Z.of_nat (length bs))
  end.

(** ** The pseudo header *)

(** An address as it is on the wire: a scope the kernel has embedded is 0. *)
Definition on_wire (a : list Z) : list Z :=
  match IN6_IS_SCOPE_EMBED a with
  | Some true => take 2 a ++ [0; 0] ++ drop 4 a
  | _ => a
  end.

(** The pseudo header of RFC 2460: the addresses, the length of the segment in four
    bytes, three zero bytes and the protocol. *)
Definition pseudo_header6 (packet : list Z) (nxt len : Z) : list Z :=
  on_wire (seg packet 8 16) ++ on_wire (seg packet 24 16) ++ [0; 0; len / 256; len mod 256; 0; 0; 0; nxt].

Definition covered6 (packet : list Z) (nxt off len : Z) : list Z :=
  (if decide (nxt = 0) then [] else pseudo_header6 packet nxt len) ++ seg packet off len.

(** The 32-bit number that [htonl] makes of the protocol and the length leaves room
    for the sixteen words of the addresses. *)
Definition leaves_room (nxt len : Z) : Prop := (nxt + len) mod 256 <> 255 \/ (nxt + len) / 256 mod 256 < 240.

#[export] Instance leaves_room_dec nxt len : Decision (leaves_room nxt len).
Proof. unfold leaves_room. apply _. Defined.

(** Sixteen bytes, one by one. *)
Lemma sixteen (l : list Z) :
  length l = 16%nat -> exists b0 b1 b2 b3 b4 b5 b6 b7 b8 b9 b10 b11 b12 b13 b14 b15,
  l = [b0; b1; b2; b3; b4; b5; b6; b7; b8; b9; b10; b11; b12; b13; b14; b15].
Proof. intros Hl. do 16 (destruct l as [|? l]; [done|]). destruct l; [|done]. by repeat eexists. Qed.

Lemma zget_drop (l : list Z) n i :
  (Z.to_nat (Z.of_nat n + 16) <= length l)%nat -> 0 <= i < 16 -> zget (drop n l) i = zget (seg l (Z.of_nat n) 16) i.
Proof.
  intros Hl Hi. unfold seg, zget. rewrite Nat2Z.id. case_decide; [|done].
  rewrite lookup_take_lt by lia. done.
Qed.

Lemma add_address_seg (l : list Z) n sum :
  (Z.to_nat (Z.of_nat n + 16) <= length l)%nat ->
  add_address (drop n l) sum = add_address (seg l (Z.of_nat n) 16) sum.
Proof.
  intros Hl. unfold add_address, IN6_IS_SCOPE_EMBED, IN6_IS_ADDR_LINKLOCAL, IN6_IS_ADDR_MC_LINKLOCAL,
    IN6_IS_ADDR_MC_INTFACELOCAL, IN6_IS_ADDR_MULTICAST, IPV6_ADDR_MC_FLAGS, IPV6_ADDR_MC_SCOPE, read16.
  by rewrite !zget_drop by (done || lia).
Qed.

(** Adding eight words that fit is adding their sum. *)
Lemma foldl_u32 ws sum :
  Forall (in_word 16) ws -> 0 <= sum -> sum + 65536 * Z.of_nat (length ws) <= 2 ^ 32 ->
  foldl (fun s w => u32 (s + w)) sum ws = sum + foldr Z.add 0 ws.
Proof.
  intros Hws. revert sum. induction Hws as [|w ws Hw Hws IH]; intros sum Hs Hb; [simpl; lia|].
  unfold in_word in Hw. change (2 ^ 16) with 65536 in Hw. cbn [foldl foldr length] in *.
  rewrite wrap_small by (unfold in_word; lia). rewrite IH by lia. lia.
Qed.

(** The words that are added. *)
Definition words (e : bool) (l : list Z) : list Z :=
  match l with
  | [b0; b1; b2; b3; b4; b5; b6; b7; b8; b9; b10; b11; b12; b13; b14; b15] =>
      [b0 + 256 * b1; if e then 0 else b2 + 256 * b3; b4 + 256 * b5; b6 + 256 * b7;
       b8 + 256 * b9; b10 + 256 * b11; b12 + 256 * b13; b14 + 256 * b15]
  | _ => []
  end.

Lemma add_address_words a sum :
  length a = 16%nat -> exists e, IN6_IS_SCOPE_EMBED a = Some e /\
  add_address a sum = Some (foldl (fun s w => u32 (s + w)) sum (words e a)).
Proof.
  intros Hl. destruct (sixteen a Hl) as (? & ? & ? & ? & ? & ? & ? & ? & ? & ? & ? & ? & ? & ? & ? & ? & ->).
  eexists. split; [reflexivity|]. unfold add_address. set (e := IN6_IS_SCOPE_EMBED _).
  destruct e as [[]|] eqn:He; try done; unfold e in He; injection He as ->; reflexivity.
Qed.

Lemma words_spec e a :
  bytes_ok a -> length a = 16%nat ->
  Forall (in_word 16) (words e a) /\ length (words e a) = 8%nat /\
  foldr Z.add 0 (words e a) = lanes false (if e then take 2 a ++ [0; 0] ++ drop 4 a else a).
Proof.
  intros Ha Hl. destruct (sixteen a Hl) as (? & ? & ? & ? & ? & ? & ? & ? & ? & ? & ? & ? & ? & ? & ? & ? & ->).
  rewrite !Forall_cons in Ha. unfold in_word in Ha. change (2 ^ 8) with 256 in Ha. split_and!.
  - unfold words. rewrite !Forall_cons, Forall_nil. unfold in_word. change (2 ^ 16) with 65536.
    destruct e; split_and!; lia || done.
  - done.
  - destruct e; cbn -[Z.mul Z.add]; lia.
Qed.

Lemma add_address_spec a sum :
  bytes_ok a -> length a = 16%nat -> 0 <= sum <= 2 ^ 31 ->
  add_address a sum = Some (sum + lanes false (on_wire a)) /\ length (on_wire a) = 16%nat /\
  0 <= lanes false (on_wire a) <= 8 * 65535.
Proof.
  intros Ha Hl Hs. destruct (add_address_words a sum Hl) as (e & He & ->).
  destruct (words_spec e a Ha Hl) as (Hw & Hw8 & Hsum).
  assert (on_wire a = if e then take 2 a ++ [0; 0] ++ drop 4 a else a) as -> by (unfold on_wire; rewrite He; by destruct e).
  rewrite <-Hsum, foldl_u32 by (done || lia). split_and!; [done|..].
  - destruct e; [|done]. rewrite !length_app, length_take, length_drop, Hl. done.
  - clear -Hw. induction Hw as [|w ws [Hw _] _ IH]; simpl; lia.
  - change 65535 with (2 ^ 16 - 1). change 8 with (Z.of_nat 8). rewrite <-Hw8. clear -Hw.
    induction Hw as [|w ws [_ Hw] _ IH]; cbn [foldr length]; lia.
Qed.

(** Up to the reduction to 32 bits, the sum of the pseudo header is the one's
    complement sum of the addresses and [x]. *)
Lemma in6_pseudo_exact packet x :
  bytes_ok packet -> (40 <= length packet)%nat -> 0 <= x ->
  in6_pseudo (drop 8 packet) (drop 24 packet) x =
  Some (ones (u32 (lanes false (on_wire (seg packet 8 16)) + lanes false (on_wire (seg packet 24 16)) + x))).
Proof.
  intros Hp Hl Hx. unfold in6_pseudo. rewrite (add_address_seg packet 8) by lia.
  change (Z.of_nat 8) with 8.
  destruct (add_address_spec (seg packet 8 16) 0) as (-> & _ & Hs); [by apply seg_ok|by rewrite length_seg by lia|lia|].
  rewrite bind_some, (add_address_seg packet 24) by lia. change (Z.of_nat 24) with 24.
  destruct (add_address_spec (seg packet 24 16) (0 + lanes false (on_wire (seg packet 8 16)))) as (-> & _ & Hd);
    [by apply seg_ok|by rewrite length_seg by lia|lia|].
  rewrite bind_some, Z.add_0_l. set (s := u32 _). assert (in_word 32 s) as Hw by (by apply wrap_range).
  unfold in_word in Hw. rewrite ADDCARRY_spec by lia. rewrite bind_some.
  rewrite wrap_small; [done|]. apply ones_range. lia.
Qed.

Lemma htonl_room nxt len :
  0 <= nxt < 256 -> in_word 16 len -> leaves_room nxt len -> htonl (nxt + len) < 2 ^ 32 - 2 ^ 20.
Proof.
  intros Hn Hl Hr. unfold in_word in Hl. change (2 ^ 16) with 65536 in Hl. rewrite htonl_bytes by (unfold in_word; lia).
  unfold leaves_room in Hr. change (2 ^ 32 - 2 ^ 20) with 4293918720. change (2 ^ 24) with 16777216.
  change (2 ^ 16) with 65536. change (2 ^ 8) with 256.
  Z.to_euclidean_division_equations. lia.
Qed.

Lemma lanes_pseudo6 packet nxt len :
  bytes_ok packet -> (40 <= length packet)%nat ->
  lanes false (pseudo_header6 packet nxt len) =
  lanes false (on_wire (seg packet 8 16)) + lanes false (on_wire (seg packet 24 16)) +
  (len / 256 + 256 * (len mod 256) + 256 * nxt).
Proof.
  intros Hp Hl. unfold pseudo_header6.
  destruct (add_address_spec (seg packet 8 16) 0) as (_ & Hs & _); [by apply seg_ok|by rewrite length_seg by lia|lia|].
  destruct (add_address_spec (seg packet 24 16) 0) as (_ & Hd & _); [by apply seg_ok|by rewrite length_seg by lia|lia|].
  rewrite !lanes_app, Hs, Hd. change (Nat.odd 16) with false. cbn -[Z.mul Z.add Z.div Z.modulo]. lia.
Qed.

Lemma add_pseudo6_spec ip6 nxt len sum :
  bytes_ok ip6 -> (40 <= length ip6)%nat -> 0 <= nxt < 256 -> in_word 16 len -> in_word 16 sum -> leaves_room nxt len ->
  add_pseudo6 ip6 nxt len sum = Some (ones (sum + lanes false (pseudo_header6 ip6 nxt len))).
Proof.
  intros Hip Hlen Hn Hl Hs Hr. pose proof (htonl_room nxt len Hn Hl Hr) as Hroom.
  unfold add_pseudo6, in_word in *. change (2 ^ 16) with 65536 in *.
  rewrite (wrap_small 32 (nxt + len)) by (unfold in_word; lia).
  destruct (htonl_oc (nxt + len)) as [Hh Hhoc]; [unfold in_word; lia|]. unfold in_word in Hh.
  rewrite in6_pseudo_exact, bind_some, lanes_pseudo6 by (done || lia).
  destruct (add_address_spec (seg ip6 8 16) 0) as (_ & _ & Hsrc); [by apply seg_ok|by rewrite length_seg by lia|lia|].
  destruct (add_address_spec (seg ip6 24 16) 0) as (_ & _ & Hdst); [by apply seg_ok|by rewrite length_seg by lia|lia|].
  set (s := lanes false (on_wire (seg ip6 8 16))) in *. set (d := lanes false (on_wire (seg ip6 24 16))) in *.
  rewrite (wrap_small 32 (s + d + _)) by (unfold in_word; lia).
  assert (0 <= s + d + htonl (nxt + len)) as Hnn by lia. pose proof (ones_range _ Hnn) as Ho.
  unfold in_word in Ho. change (2 ^ 16) with 65536 in Ho.
  rewrite (wrap_small 32) by (unfold in_word; lia). rewrite ADDCARRY_spec by lia. f_equal.
  apply ones_oc. apply oc_add; [apply oc_refl; lia|]. etrans; [by apply oc_ones|].
  apply oc_add; [apply oc_refl; lia|]. etrans; [exact Hhoc|].
  pose proof (Z.div_mod len 256 ltac:(lia)). pose proof (Z.mod_pos_bound len 256 ltac:(lia)).
  pose proof (Z.div_pos len 256 ltac:(lia) ltac:(lia)). symmetry.
  replace (256 * (nxt + len)) with (65536 * (len / 256) + (256 * (len mod 256) + 256 * nxt)) by lia.
  rewrite <-Z.add_assoc. apply oc_high; [lia|lia|by exists 1|lia].
Qed.

(** ** The checksums of packets *)

Lemma pseudo_header6_prefix p q nxt len :
  take 40 p = take 40 q -> pseudo_header6 p nxt len = pseudo_header6 q nxt len.
Proof.
  intros Hpq. assert (forall (l : list Z) d, (d <= 24)%nat -> take 16 (drop d l) = take 16 (drop d (take 40 l))) as Hd.
  { intros l d Hd. rewrite skipn_firstn_comm, take_take. f_equal. lia. }
  unfold pseudo_header6, seg. change (Z.to_nat 8) with 8%nat.
  change (Z.to_nat 16) with 16%nat. change (Z.to_nat 24) with 24%nat.
  rewrite !(Hd p), !(Hd q), Hpq by lia. done.
Qed.

Lemma length_pseudo6 packet nxt len :
  bytes_ok packet -> (40 <= length packet)%nat -> length (pseudo_header6 packet nxt len) = 40%nat.
Proof.
  intros Hp Hl. unfold pseudo_header6. rewrite !length_app.
  destruct (add_address_spec (seg packet 8 16) 0) as (_ & -> & _); [by apply seg_ok|by rewrite length_seg by lia|lia|].
  destruct (add_address_spec (seg packet 24 16) 0) as (_ & -> & _); [by apply seg_ok|by rewrite length_seg by lia|lia|].
  done.
Qed.

(** The conditions under which a checksum may be asked for; a length in the pseudo
    header is below 65536, jumbo payloads are not covered. *)
Definition request6_ok (packet : list Z) (nxt off len : Z) : Prop :=
  0 <= nxt < 256 /\ 0 <= off /\ 0 < len /\ off + len <= Z.of_nat (length packet) /\
  Z.of_nat (length packet) < 2 ^ 31 /\
  (nxt <> 0 -> len < 65536 /\ (40 <= length packet)%nat /\ leaves_room nxt len).

#[export] Instance request6_ok_dec packet nxt off len : Decision (request6_ok packet nxt off len).
Proof. unfold request6_ok. apply _. Defined.

(** The end that [inet6_cksum] and [inet6_cksum_buffer] share. *)
Lemma finish6_spec ip6 packet nxt off len :
  bytes_ok packet -> request6_ok packet nxt off len ->
  (nxt <> 0 -> bytes_ok ip6 /\ (40 <= length ip6)%nat /\ take 40 ip6 = take 40 packet) ->
  (if decide (nxt <> 0)
   then sum ← add_pseudo6 ip6 nxt len (ones (lanes false (seg packet off len))); Some (complement16 sum)
   else Some (complement16 (ones (lanes false (seg packet off len)))))
  = Some (rfc1071 (covered6 packet nxt off len)).
Proof.
  intros Hp (Hn & _ & Hl0 & _ & _ & Hnx) Hip. unfold rfc1071, covered6.
  pose proof (lanes_nonneg false _ (seg_ok packet off len Hp)) as Hseg.
  pose proof (ones_range _ Hseg) as Hr. destruct (decide (nxt <> 0)) as [Hnz|Hz].
  - rewrite decide_False by done. destruct (Hip Hnz) as (Hi & Hi40 & Hsame). destruct (Hnx Hnz) as (Hl & H40 & Hroom).
    assert (in_word 16 len) as Hw by (unfold in_word; change (2 ^ 16) with 65536; lia).
    rewrite add_pseudo6_spec, bind_some, (pseudo_header6_prefix ip6 packet) by done.
    assert (0 <= lanes false (pseudo_header6 packet nxt len)) as Hph.
    { rewrite lanes_pseudo6 by done.
      destruct (add_address_spec (seg packet 8 16) 0) as (_ & _ & ?); [by apply seg_ok|by rewrite length_seg by lia|lia|].
      destruct (add_address_spec (seg packet 24 16) 0) as (_ & _ & ?); [by apply seg_ok|by rewrite length_seg by lia|lia|].
      pose proof (Z.mod_pos_bound len 256). pose proof (Z.div_pos len 256). lia. }
    rewrite complement16_spec by (apply ones_range; unfold in_word in Hr; lia).
    rewrite lanes_app, length_pseudo6 by done. change (xorb false (Nat.odd 40)) with false.
    do 2 f_equal. rewrite Z.add_comm. apply ones_oc, oc_add; [by apply oc_refl|by apply oc_ones].
  - rewrite decide_True by lia. by rewrite complement16_spec.
Qed.

Lemma inet6_cksum_spec ms nxt off len :
  Forall mbuf_ok ms -> request6_ok (flat ms) nxt off len ->
  inet6_cksum ms nxt off len = Some (rfc1071 (covered6 (flat ms) nxt off len)).
Proof.
  intros Hms Hreq. pose proof Hreq as (Hn & Hoff & Hlen & Hend & Hmax & Hnx). pose proof (flat_ok ms Hms) as Hf.
  unfold inet6_cksum. rewrite m_sum16_spec, bind_some by (done || lia). rewrite (m_length2_flat ms) by (done || lia).
  destruct (decide (nxt = 0)) as [Hz|Hnz].
  - rewrite <-(finish6_spec (flat ms) (flat ms) nxt off len) by done.
    by rewrite !(decide_False (P := nxt <> 0)) by naive_solver.
  - destruct (Hnx Hnz) as (Hl & H40 & _). rewrite (decide_True (P := nxt <> 0)) by done.
    rewrite decide_False by lia. destruct ms as [|m ms]; [simpl in H40; lia|].
    change (head (m :: ms)) with (Some m). rewrite bind_some. cbv zeta. apply Forall_cons in Hms as [Hm Hms].
    set (ip6 := if decide _ then _ else _).
    pose proof (finish6_spec ip6 (flat (m :: ms)) nxt off len Hf Hreq) as Hfin.
    rewrite (decide_True (P := nxt <> 0)) in Hfin by done. apply Hfin. intros _.
    unfold ip6. change (Z.to_nat sizeof_ip6) with 40%nat. case_decide as Hc.
    + split_and!; [by apply Forall_take|rewrite length_take; lia|by rewrite take_take].
    + destruct Hm as [Hb Hml]. split_and!; [done|lia|].
      rewrite flat_cons. unfold seg. rewrite drop_0, take_app_le by (rewrite length_take; lia).
      rewrite take_take. f_equal. lia.
Qed.

Lemma inet6_cksum_buffer_spec addr packet nxt off len :
  bytes_ok packet -> request6_ok packet nxt off len ->
  inet6_cksum_buffer addr packet nxt off len (Z.of_nat (length packet)) = Some (rfc1071 (covered6 packet nxt off len)).
Proof.
  intros Hp Hreq. pose proof Hreq as (Hn & Hoff & Hlen & Hend & Hmax & Hnx). unfold inet6_cksum_buffer.
  rewrite !decide_False by lia. rewrite b_sum16_spec; [|by apply Forall_drop|lia|rewrite length_drop; lia].
  rewrite bind_some, seg_drop by done. cbv zeta. apply (finish6_spec _ packet); [done..|].
  intros Hnz. destruct (Hnx Hnz) as (_ & H40 & _). change (Z.to_nat sizeof_ip6) with 40%nat.
  destruct (IP6_HDR_ALIGNED_P addr); [done|].
  split_and!; [by apply Forall_take|rewrite length_take; lia|by rewrite take_take].
Qed.

(** ** The theorems *)

(** A packet has the same checksum as an mbuf chain, cut and aligned in any way,
    and as one piece of memory at any address: the RFC 1071 checksum of the segment
    and, if a protocol is given, of the IPv6 pseudo header, whose addresses are those
    on the wire, without the embedded interface.  No request of the form described,
    which leaves room for the addresses in 32 bits, panics. *)
Theorem pbuf_inet6_cksum_rfc2460 addr ms packet nxt off len :
  Forall mbuf_ok ms -> flat ms = packet -> request6_ok packet nxt off len ->
  pbuf_inet6_cksum (PBUF_TYPE_MBUF ms) nxt off len = Some (rfc1071 (covered6 packet nxt off len)) /\
  pbuf_inet6_cksum (PBUF_TYPE_MEMORY addr packet) nxt off len = Some (rfc1071 (covered6 packet nxt off len)).
Proof.
  intros Hms <- Hreq. split; [by apply inet6_cksum_spec|].
  apply inet6_cksum_buffer_spec; [by apply flat_ok|done].
Qed.

(** A UDP datagram of ten bytes from fe80::1 on interface 5 to ff02::2 on interface
    5, in three mbufs. *)
Definition demo_packet6 : list Z :=
  [96; 0; 0; 0; 0; 10; 17; 64] ++ [254; 128; 0; 5; 0; 0; 0; 0; 0; 0; 0; 0; 0; 0; 0; 1] ++
  [255; 2; 0; 5; 0; 0; 0; 0; 0; 0; 0; 0; 0; 0; 0; 2] ++ [4; 210; 0; 53; 0; 10; 0; 0; 104; 105].

Definition demo_chain6 : list mbuf :=
  [Mbuf 1001 (take 13 demo_packet6) 13; Mbuf 2002 (take 30 (drop 13 demo_packet6)) 30; Mbuf 3000 (drop 43 demo_packet6) 7].

Lemma pbuf_inet6_cksum_rfc2460_witness :
  pbuf_inet6_cksum (PBUF_TYPE_MBUF demo_chain6) 17 40 10 =
  Some (rfc1071 ([254; 128; 0; 0; 0; 0; 0; 0; 0; 0; 0; 0; 0; 0; 0; 1] ++
                 [255; 2; 0; 0; 0; 0; 0; 0; 0; 0; 0; 0; 0; 0; 0; 2] ++ [0; 0; 0; 10; 0; 0; 0; 17] ++
                 [4; 210; 0; 53; 0; 10; 0; 0; 104; 105])) /\
  pbuf_inet6_cksum (PBUF_TYPE_MEMORY 7 demo_packet6) 17 40 10 =
  pbuf_inet6_cksum (PBUF_TYPE_MBUF demo_chain6) 17 40 10.
Proof.
  destruct (pbuf_inet6_cksum_rfc2460 7 demo_chain6 demo_packet6 17 40 10) as [H1 H2].
  - apply (bool_decide_unpack _). vm_compute. exact I.
  - reflexivity.
  - apply (bool_decide_unpack _). vm_compute. exact I.
  - split; [exact H1|]. rewrite H1. exact H2.
Defined.

(** A datagram of 65518 bytes between two addresses of a documentation prefix: the
    32-bit sum loses its carry, and the pseudo header is one short. *)
Theorem in6_pseudo_loses_carry :
  let src := [32; 1; 13; 184; 0; 0; 0; 0; 0; 0; 0; 0; 0; 0; 0; 1] in
  let dst := [32; 1; 13; 184; 0; 0; 0; 0; 0; 0; 0; 0; 0; 0; 0; 2] in
  exists s, in6_pseudo src dst (htonl (17 + 65518)) = Some s /\
            ones (lanes false (src ++ dst ++ [0; 0; 255; 238; 0; 0; 0; 17])) = s + 1.
Proof. eexists. split; vm_compute; reflexivity. Qed.
