(* ===== verification/InetAddr.v ===== *)
(** * Internet addresses as text

    [libkern/net/inet_ntop.c] and [libkern/net/inet_pton.c]: the conversions
    between IPv4 and IPv6 addresses and their text.  A string is the object a
    [char *] points to; reading past its end, as when the NUL is missing, is
    [None].  Every address is shown to survive being written out and read back,
    with the abbreviation of the longest run of zeros and with the embedded IPv4
    forms, and the reader of dotted quads to accept exactly the canonical ones. *)
From S2P Require Import Prelude.

Local Open Scope Z_scope.

Definition AF_INET : Z := 2.
Definition AF_INET6 : Z := 30.

(** The characters of ':' and '.'. *)
Definition COLON : Z := 58.
Definition DOT : Z := 46.

(** ** Library functions *)

(** The index of the first [c] of a string, [c] not being the NUL. *)
Fixpoint strchr_from (i : Z) (s : list Z) (c : Z) : option Z :=
  match s with
  | [] => None
  | x :: s => if decide (x = c) then Some i else strchr_from (i + 1) s c
  end.

Definition strchr (s : list Z) (c : Z) : option Z := strchr_from 0 s c.

Definition digits : list Z := bytes_of_string "0123456789".
Definition xdigits_l : list Z := bytes_of_string "0123456789abcdef".
Definition xdigits_u : list Z := bytes_of_string "0123456789ABCDEF".

(** The digits that [%u] and [%x] print, the last one first computed. *)
Fixpoint format_digits (fuel : nat) (base n : Z) (acc : list Z) : list Z :=
  match fuel with
  | O => acc
  | S fuel =>
      let acc := default 0 (zget xdigits_l (n mod base)) :: acc in
      if decide (n < base) then acc else format_digits fuel base (n / base) acc
  end.

(** The values printed are below [2^16], which has 5 decimal digits. *)
Definition fmt_u (n : Z) : list Z := format_digits 5 10 n [].
Definition fmt_x (n : Z) : list Z := format_digits 4 16 n [].

(** [strlcpy] to a buffer of [size] bytes that holds zeros. *)
Definition strlcpy (text : list Z) (size : Z) : list Z :=
  let kept := take (Z.to_nat (size - 1)) text in
  kept ++ replicate (Z.to_nat size - length kept) 0.

(** ** inet_ntop *)

Definition dotted (a b c d : Z) : list Z :=
  fmt_u a ++ [DOT] ++ fmt_u b ++ [DOT] ++ fmt_u c ++ [DOT] ++ fmt_u d.

(** The text that is copied to a buffer of [size] bytes, or NULL. *)
Definition inet_ntop4 (src : list Z) (size : Z) : option (option (list Z)) :=
  a ← zget src 0; b ← zget src 1; c ← zget src 2; d ← zget src 3;
  let tmp := dotted a b c d in
  let l := Z.of_nat (length tmp) in
  if decide (l <= 0 \/ size <= l) then Some None else Some (Some tmp).

(** [sizeof tmp]. *)
Abbreviation sizeof_tmp := (46)%Z.

(** The text written to [tmp] so far; a store past its end is a fault, and
    [scnprintf] stores a NUL too. *)
Definition put (c : Z) (tmp : list Z) : option (list Z) :=
  if decide (Z.of_nat (length tmp) < sizeof_tmp) then Some (tmp ++ [c]) else None.

Definition print (text : list Z) (tmp : list Z) : option (list Z) :=
  if decide (Z.of_nat (length tmp) + Z.of_nat (length text) < sizeof_tmp) then Some (tmp ++ text) else None.

Definition words_of (src : list Z) : option (list Z) :=
  for_range 16 (fun i words =>
    b ← zget src (Z.of_nat i);
    w ← zget words (Z.of_nat i / 2);
    zset words (Z.of_nat i / 2) (Z.lor w (Z.shiftl b (Z.shiftl (1 - Z.of_nat i mod 2) 3))))
    (replicate 8 0).

(** [struct { int base, len; }]. *)
Record run := Run { base : Z; len : Z }.

Definition longer (best cur : run) : run :=
  if decide (base best = -1 \/ len best < len cur) then cur else best.

Definition scan_word (w i : Z) (st : run * run) : run * run :=
  let '(best, cur) := st in
  if decide (w = 0) then
    if decide (base cur = -1) then (best, Run i 1) else (best, Run (base cur) (len cur + 1))
  else if decide (base cur <> -1) then (longer best cur, Run (-1) (len cur))
  else (best, cur).

Fixpoint scan_words (words : list Z) (i : Z) (st : run * run) : run * run :=
  match words with
  | [] => st
  | w :: words => scan_words words (i + 1) (scan_word w i st)
  end.

Definition best_run (words : list Z) : run :=
  let '(best, cur) := scan_words words 0 (Run (-1) 0, Run (-1) 0) in
  let best := if decide (base cur <> -1) then longer best cur else best in
  if decide (base best <> -1 /\ len best < 2) then Run (-1) (len best) else best.

(** [Are we inside the best run of 0x00's?] *)
Definition in_run (best : run) (i : Z) : Prop :=
  base best <> -1 /\ base best <= i /\ i < base best + len best.

#[export] Instance in_run_dec best i : Decision (in_run best i).
Proof. unfold in_run. apply _. Defined.

(** [Is this address an encapsulated IPv4?] *)
Definition encapsulated (words : list Z) (best : run) (i : Z) : option bool :=
  w7 ← zget words 7;
  w5 ← zget words 5;
  Some (bool_decide (i = 6 /\ base best = 0 /\
    (len best = 6 \/ (len best = 7 /\ w7 <> 1) \/ (len best = 5 /\ w5 = 65535)))).

(** The loop over the words from [i] on, [n] of them. *)
Fixpoint format_words (n : nat) (src words : list Z) (best : run) (i : Z) (tmp : list Z)
    : option (option (list Z)) :=
  match n with
  | O => Some (Some tmp)
  | S n =>
      if decide (in_run best i) then
        tmp ← (if decide (i = base best) then put COLON tmp else Some tmp);
        format_words n src words best (i + 1) tmp
      else
        tmp ← (if decide (i <> 0) then put COLON tmp else Some tmp);
        e ← encapsulated words best i;
        if (e : bool) then
          r ← inet_ntop4 (drop 12 src) (sizeof_tmp - Z.of_nat (length tmp));
          match r with
          | None => Some None
          | Some text => Some (Some (tmp ++ text))
          end
        else
          w ← zget words i;
          tmp ← print (fmt_x w) tmp;
          format_words n src words best (i + 1) tmp
  end.

Definition inet_ntop6 (src : list Z) (size : Z) : option (option (list Z)) :=
  words ← words_of src;
  let best := best_run words in
  r ← format_words 8 src words best 0 [];
  match r with
  | None => Some None
  | Some tmp =>
      tmp ← (if decide (base best <> -1 /\ base best + len best = 8) then put COLON tmp else Some tmp);
      _ ← put 0 tmp;
      if decide (size < Z.of_nat (length tmp) + 1) then Some None else Some (Some tmp)
  end.

(** The buffer [dst] of [size] bytes is cleared first; the result is whether it is
    returned, and what it holds. *)
Definition inet_ntop (af : Z) (src : list Z) (size : Z) : option (bool * list Z) :=
  let done r := match r with
                | None => (false, replicate (Z.to_nat size) 0)
                | Some text => (true, strlcpy text size)
                end in
  if decide (af = AF_INET) then done <$> inet_ntop4 src size
  else if decide (af = AF_INET6) then done <$> inet_ntop6 src size
  else Some (false, replicate (Z.to_nat size) 0).

(** ** inet_pton *)

(** [Some None] is the result 0. *)
Fixpoint pton4_loop (src tmp : list Z) (tp : Z) (saw_digit : bool) (octets : Z)
    : option (option (list Z * Z)) :=
  match src with
  | [] => None
  | ch :: src =>
      if decide (ch = 0) then Some (Some (tmp, octets)) else
      match strchr digits ch with
      | Some d =>
          v ← zget tmp tp;
          let new := v * 10 + d in
          if decide (saw_digit = true /\ v = 0) then Some None else
          if decide (255 < new) then Some None else
          tmp ← zset tmp tp (u8 new);
          if saw_digit then pton4_loop src tmp tp true octets
          else if decide (4 < octets + 1) then Some None
          else pton4_loop src tmp tp true (octets + 1)
      | None =>
          if decide (ch = DOT /\ saw_digit = true) then
            if decide (octets = 4) then Some None else
            tmp ← zset tmp (tp + 1) 0;
            pton4_loop src tmp (tp + 1) false octets
          else Some None
      end
  end.

(** [stack] is the uninitialised array [tmp]; the result is the 4 bytes that are
    copied to [dst], or 0. *)
Definition inet_pton4 (src stack : list Z) : option (option (list Z)) :=
  tmp ← zset stack 0 0;
  r ← pton4_loop src tmp 0 false 0;
  match r with
  | None => Some None
  | Some (tmp, octets) => if decide (octets < 4) then Some None else Some (Some (take 4 tmp))
  end.

Record parser6 := Parser6 { p_tmp : list Z; p_tp : Z; colonp : option Z; seen_xdigits : Z; val : Z }.

Definition xdigit (ch : Z) : option Z :=
  match strchr xdigits_l ch with
  | Some d => Some d
  | None => strchr xdigits_u ch
  end.

(** [*tp++ = val >> 8; *tp++ = val], [Some None] when there is no room. *)
Definition store_word (p : parser6) : option (option parser6) :=
  if decide (16 < p_tp p + 2) then Some None else
  tmp ← zset (p_tmp p) (p_tp p) (Z.land (u8 (Z.shiftr (val p) 8)) 255);
  tmp ← zset tmp (p_tp p + 1) (Z.land (u8 (val p)) 255);
  Some (Some (Parser6 tmp (p_tp p + 2) (colonp p) 0 0)).

(** [memcpy] of 4 bytes to [tp]. *)
Definition store4 (tmp : list Z) (tp : Z) (bytes : list Z) : option (list Z) :=
  for_range 4 (fun i tmp => b ← zget bytes (Z.of_nat i); zset tmp (tp + Z.of_nat i) b) tmp.

(** The loop, up to the NUL or the end of an embedded IPv4 address. *)
Fixpoint pton6_loop (src curtok stack : list Z) (p : parser6) : option (option parser6) :=
  match src with
  | [] => None
  | ch :: src =>
      if decide (ch = 0) then Some (Some p) else
      match xdigit ch with
      | Some d =>
          let v := Z.lor (u32 (Z.shiftl (val p) 4)) d in
          if decide (4 < seen_xdigits p + 1) then Some None
          else pton6_loop src curtok stack
                 (Parser6 (p_tmp p) (p_tp p) (colonp p) (seen_xdigits p + 1) v)
      | None =>
          if decide (ch = COLON) then
            if decide (seen_xdigits p = 0) then
              match colonp p with
              | Some _ => Some None
              | None => pton6_loop src src stack
                          (Parser6 (p_tmp p) (p_tp p) (Some (p_tp p)) (seen_xdigits p) (val p))
              end
            else
              next ← head src;
              if decide (next = 0) then Some None else
              r ← store_word p;
              match r with None => Some None | Some p => pton6_loop src src stack p end
          else if decide (ch = DOT /\ p_tp p + 4 <= 16) then
            r ← inet_pton4 curtok stack;
            match r with
            | None => Some None
            | Some bytes =>
                tmp ← store4 (p_tmp p) (p_tp p) bytes;
                Some (Some (Parser6 tmp (p_tp p + 4) (colonp p) 0 (val p)))
            end
          else Some None
      end
  end.

(** The bytes from [c] to [tp] are moved to the end of the address. *)
Definition shift_tail (tmp : list Z) (c tp : Z) : option (list Z) :=
  let n := tp - c in
  for_range (Z.to_nat n) (fun k tmp =>
    let i := Z.of_nat k + 1 in
    x ← zget tmp (c + (n - i));
    tmp ← zset tmp (16 - i) x;
    zset tmp (c + (n - i)) 0) tmp.

Definition pton6_end (p : parser6) : option (option (list Z)) :=
  r ← (if decide (seen_xdigits p <> 0) then store_word p else Some (Some p));
  match r with
  | None => Some None
  | Some p =>
      match colonp p with
      | Some c =>
          if decide (p_tp p = 16) then Some None else
          tmp ← shift_tail (p_tmp p) c (p_tp p); Some (Some tmp)
      | None => if decide (p_tp p <> 16) then Some None else Some (Some (p_tmp p))
      end
  end.

Definition inet_pton6 (src stack : list Z) : option (option (list Z)) :=
  c0 ← head src;
  src ← (if decide (c0 = COLON) then
           c1 ← head (tail src); if decide (c1 <> COLON) then Some None else Some (Some (tail src))
         else Some (Some src));
  match src with
  | None => Some None
  | Some src =>
      r ← pton6_loop src src stack (Parser6 (replicate 16 0) 0 None 0 0);
      match r with None => Some None | Some p => pton6_end p end
  end.

(** 1, 0 or -1, and the bytes stored in [dst] with 1. *)
Definition inet_pton (af : Z) (src stack : list Z) : option (Z * list Z) :=
  let done r := match r with None => (0, []) | Some bytes => (1, bytes) end in
  if decide (af = AF_INET) then done <$> inet_pton4 src stack
  else if decide (af = AF_INET6) then done <$> inet_pton6 src stack
  else Some (-1, []).

(** ** Digits *)

(** The character of a digit. *)
Definition xd (d : Z) : Z := default 0 (zget xdigits_l d).

(** The number a list of digits stands for, after [v]. *)
Definition number (base v : Z) (ds : list Z) : Z := foldl (fun v d => v * base + d) v ds.

Lemma number_app base v ds es : number base v (ds ++ es) = number base (number base v ds) es.
Proof. apply foldl_app. Qed.

Lemma number_ge base v ds :
  0 < base -> 0 <= v -> Forall (fun d => 0 <= d) ds -> v <= number base v ds.
Proof.
  intros Hb Hv Hds. revert v Hv. induction Hds as [|d ds Hd Hds IH]; intros v Hv; simpl; [lia|].
  assert (v <= v * base + d) as Hle by nia. etrans; [exact Hle|]. apply IH. lia.
Qed.

(** The digits of a number: no more than needed, without a leading zero. *)
Lemma format_digits_spec fuel base n acc :
  2 <= base <= 16 -> 0 <= n < base ^ Z.of_nat fuel -> (0 < fuel)%nat ->
  exists d ds, format_digits fuel base n acc = (xd <$> d :: ds) ++ acc /\
    Forall (fun d => 0 <= d < base) (d :: ds) /\ (length (d :: ds) <= fuel)%nat /\
    number base 0 (d :: ds) = n /\ (ds <> [] -> 0 < d).
Proof.
  intros Hb. revert n acc. induction fuel as [|fuel IH]; intros n acc Hn Hf; [lia|].
  cbn [format_digits]. fold (xd (n mod base)). pose proof (Z.mod_pos_bound n base ltac:(lia)) as Hm.
  destruct (decide (n < base)) as [Hlt|Hge].
  - rewrite Z.mod_small in * by lia. exists n, []. split_and!; try done. apply Forall_singleton. lia.
  - assert (0 < fuel)%nat as Hf' by (destruct fuel; [simpl in Hn; lia|lia]).
    assert (0 <= n / base < base ^ Z.of_nat fuel) as Hq.
    { rewrite Nat2Z.inj_succ, Z.pow_succ_r in Hn by lia. split; [apply Z.div_pos; lia|].
      apply Z.div_lt_upper_bound; lia. }
    destruct (IH (n / base) (xd (n mod base) :: acc) Hq Hf') as (d & ds & Heq & Hds & Hlen & Hval & Hlead).
    exists d, (ds ++ [n mod base]). rewrite Heq. split_and!.
    + by rewrite app_comm_cons, fmap_app, <-app_assoc.
    + rewrite app_comm_cons. apply Forall_app. split; [done|]. by apply Forall_singleton.
    + rewrite app_comm_cons, length_app. simpl in *. lia.
    + rewrite app_comm_cons, number_app, Hval. simpl. pose proof (Z.div_mod n base). lia.
    + intros _. destruct ds as [|d' ds]; [|by apply Hlead].
      simpl in Hval. assert (0 < n / base) by (apply Z.div_str_pos; lia). lia.
Qed.

Lemma fmt_x_spec w :
  0 <= w < 65536 -> exists d ds, fmt_x w = xd <$> d :: ds /\ Forall (fun d => 0 <= d < 16) (d :: ds) /\
    (length (d :: ds) <= 4)%nat /\ number 16 0 (d :: ds) = w.
Proof.
  intros Hw. destruct (format_digits_spec 4 16 w []) as (d & ds & Heq & Hds & Hlen & Hval & _); [lia..|].
  exists d, ds. split_and!; try done. unfold fmt_x. by rewrite Heq, app_nil_r.
Qed.

Lemma fmt_u_spec n :
  0 <= n < 256 -> exists d ds, fmt_u n = xd <$> d :: ds /\ Forall (fun d => 0 <= d < 10) (d :: ds) /\
    (length (d :: ds) <= 3)%nat /\ number 10 0 (d :: ds) = n /\ (ds <> [] -> 0 < d).
Proof.
  intros Hn. destruct (format_digits_spec 5 10 n []) as (d & ds & Heq & Hds & Hlen & Hval & Hlead); [lia..|].
  exists d, ds. split_and!; try done.
  - unfold fmt_u. by rewrite Heq, app_nil_r.
  - destruct ds as [|d1 [|d2 [|d3 ds]]]; simpl; try lia. specialize (Hlead ltac:(done)).
    apply Forall_cons in Hds as [_ Hds]. apply Forall_cons in Hds as [H1 Hds].
    apply Forall_cons in Hds as [H2 Hds]. apply Forall_cons in Hds as [H3 Hds]. simpl in Hval.
    pose proof (number_ge 10 ((((0 * 10 + d) * 10 + d1) * 10 + d2) * 10 + d3) ds) as Hge.
    assert (Forall (fun d => 0 <= d) ds) as Hnn by (eapply Forall_impl; [exact Hds|simpl; lia]).
    specialize (Hge ltac:(lia) ltac:(lia) Hnn). lia.
Qed.

(** The readers' tables agree with the printer's. *)
Definition xdigit_agrees (d : Z) : bool :=
  bool_decide (xdigit (xd d) = Some d /\ xd d <> 0 /\ (d < 10 -> strchr digits (xd d) = Some d)).

Lemma xdigit_xd d :
  0 <= d < 16 -> xdigit (xd d) = Some d /\ xd d <> 0 /\ (d < 10 -> strchr digits (xd d) = Some d).
Proof.
  intros Hd. assert (forallb xdigit_agrees (seqZ 0 16) = true) as Hall by (vm_compute; reflexivity).
  rewrite forallb_forall in Hall. specialize (Hall d). apply bool_decide_eq_true in Hall; [done|].
  apply list_elem_of_In, elem_of_seqZ. lia.
Qed.

(** ** Dotted quads *)

Lemma zget_middle {A} (pre : list A) x post i :
  i = Z.of_nat (length pre) -> zget (pre ++ x :: post) i = Some x.
Proof. intros ->. by rewrite zget_nat, list_lookup_middle. Qed.

Lemma zset_middle {A} (pre : list A) x y post i :
  i = Z.of_nat (length pre) -> zset (pre ++ x :: post) i y = Some (pre ++ y :: post).
Proof.
  intros ->. rewrite zset_nat by (rewrite length_app; simpl; lia).
  by rewrite <-(Nat.add_0_r (length pre)), insert_app_r.
Qed.

Lemma zset_after {A} (pre mid : list A) x y post i :
  i = Z.of_nat (length pre) + Z.of_nat (length mid) ->
  zset (pre ++ mid ++ x :: post) i y = Some (pre ++ mid ++ y :: post).
Proof. intros ->. rewrite !app_assoc. apply zset_middle. rewrite length_app. lia. Qed.

(** The further digits of an octet. *)
Lemma pton4_more ds rest pre v post octets :
  Forall (fun d => 0 <= d < 10) ds -> (ds <> [] -> 0 < v) -> 0 <= v -> number 10 v ds < 256 ->
  pton4_loop ((xd <$> ds) ++ rest) (pre ++ v :: post) (Z.of_nat (length pre)) true octets
  = pton4_loop rest (pre ++ number 10 v ds :: post) (Z.of_nat (length pre)) true octets.
Proof.
  intros Hds. revert v. induction Hds as [|d ds Hd Hds IH]; intros v Hv Hv0 Hmax; [done|].
  rewrite fmap_cons. cbn [app pton4_loop]. destruct (xdigit_xd d) as (_ & Hnz & Hdig); [lia|].
  assert (v * 10 + d <= number 10 (v * 10 + d) ds) as Hge.
  { apply number_ge; [lia|lia|]. eapply Forall_impl; [exact Hds|simpl; lia]. }
  change (number 10 v (d :: ds)) with (number 10 (v * 10 + d) ds) in *.
  rewrite decide_False, Hdig, (zget_middle pre) by (done || lia). rewrite bind_some. cbv zeta.
  rewrite decide_False by (specialize (Hv ltac:(done)); lia). rewrite decide_False by lia.
  rewrite zset_middle by done. rewrite bind_some, wrap_small by (unfold in_word; lia).
  apply IH; [specialize (Hv ltac:(done)); lia|lia|done].
Qed.

(** One octet, whatever the array holds before. *)
Lemma pton4_octet n rest pre post octets :
  0 <= n < 256 -> 0 <= octets < 4 ->
  pton4_loop (fmt_u n ++ rest) (pre ++ 0 :: post) (Z.of_nat (length pre)) false octets
  = pton4_loop rest (pre ++ n :: post) (Z.of_nat (length pre)) true (octets + 1).
Proof.
  intros Hn Ho. destruct (fmt_u_spec n Hn) as (d & ds & -> & Hds & _ & Hval & Hlead).
  apply Forall_cons in Hds as [Hd Hds]. rewrite fmap_cons. cbn [app pton4_loop].
  destruct (xdigit_xd d) as (_ & Hnz & Hdig); [lia|].
  rewrite decide_False, Hdig, (zget_middle pre) by (done || lia). rewrite bind_some. cbv zeta.
  rewrite decide_False by naive_solver. rewrite decide_False by lia.
  rewrite zset_middle by done. rewrite bind_some, wrap_small by (unfold in_word; lia).
  rewrite decide_False by lia. change (number 10 0 (d :: ds)) with (number 10 (0 * 10 + d) ds) in Hval.
  rewrite pton4_more, Hval by (done || lia || naive_solver). done.
Qed.

Lemma pton4_dot rest pre v x post octets :
  octets <> 4 ->
  pton4_loop ([DOT] ++ rest) (pre ++ v :: x :: post) (Z.of_nat (length pre)) true octets
  = pton4_loop rest ((pre ++ [v]) ++ 0 :: post) (Z.of_nat (length (pre ++ [v]))) false octets.
Proof.
  intros Ho. cbn [app pton4_loop]. change (strchr digits DOT) with (@None Z).
  rewrite decide_False by done. rewrite decide_True by done. rewrite decide_False by done.
  replace (pre ++ v :: x :: post) with ((pre ++ [v]) ++ x :: post) by (by rewrite <-app_assoc).
  rewrite zset_middle by (rewrite length_app; simpl; lia). rewrite bind_some.
  f_equal. rewrite length_app. simpl. lia.
Qed.

Lemma inet_pton4_dotted a b c d junk stack :
  length stack = 4%nat -> 0 <= a < 256 -> 0 <= b < 256 -> 0 <= c < 256 -> 0 <= d < 256 ->
  inet_pton4 (dotted a b c d ++ 0 :: junk) stack = Some (Some [a; b; c; d]).
Proof.
  intros Hs Ha Hb Hc Hd. destruct stack as [|s0 [|s1 [|s2 [|s3 [|]]]]]; try done.
  unfold inet_pton4, dotted. change (zset [s0; s1; s2; s3] 0 0) with (Some ([] ++ 0 :: [s1; s2; s3])).
  rewrite bind_some, <-!app_assoc. change 0 with (Z.of_nat (length (@nil Z))) at 2.
  do 3 (rewrite pton4_octet by lia; rewrite pton4_dot by lia).
  rewrite pton4_octet by lia. reflexivity.
Qed.

(** ** What the reader of dotted quads has read *)

Lemma strchr_digits ch d : strchr digits ch = Some d -> ch = xd d /\ 0 <= d < 10.
Proof.
  unfold strchr. change digits with [48; 49; 50; 51; 52; 53; 54; 55; 56; 57]. cbn [strchr_from].
  repeat (destruct (decide (_ = ch)) as [<-|_]; [intros [= <-]; split; [reflexivity|lia]|]). done.
Qed.

Lemma fmt_u_digit d : 0 <= d < 10 -> fmt_u d = [xd d].
Proof. intros Hd. unfold fmt_u. cbn [format_digits]. by rewrite decide_True, Z.mod_small by lia. Qed.

Lemma fmt_u_snoc v d : 0 < v -> 0 <= d < 10 -> v * 10 + d < 256 -> fmt_u (v * 10 + d) = fmt_u v ++ [xd d].
Proof.
  intros Hv Hd Hmax.
  assert (Forall (fun v => Forall (fun d => fmt_u (v * 10 + d) = fmt_u v ++ [xd d]) (seqZ 0 10)) (seqZ 1 25)) as Hall.
  { apply (bool_decide_unpack _). vm_compute. exact I. }
  rewrite Forall_forall in Hall. specialize (Hall v ltac:(apply elem_of_seqZ; lia)).
  rewrite Forall_forall in Hall. apply Hall. apply elem_of_seqZ. lia.
Qed.

(** The octets that are complete, each with its dot. *)
Definition octets_text (qs : list Z) : list Z := mjoin ((fun q => fmt_u q ++ [DOT]) <$> qs).

Lemma octets_text_snoc qs q : octets_text (qs ++ [q]) = octets_text qs ++ fmt_u q ++ [DOT].
Proof. unfold octets_text. rewrite fmap_app, join_app. cbn. by rewrite app_nil_r. Qed.

(** The state of [pton4_loop] after the text [t]. *)
Definition read4 (t tmp : list Z) (tp : Z) (saw_digit : bool) (octets : Z) : Prop :=
  exists qs v post, tmp = qs ++ v :: post /\ length tmp = 4%nat /\ tp = Z.of_nat (length qs) /\
    Forall (fun q => 0 <= q < 256) (qs ++ [v]) /\
    t = octets_text qs ++ (if saw_digit then fmt_u v else []) /\
    octets = tp + (if saw_digit then 1 else 0) /\ (saw_digit = false -> v = 0).

Lemma read4_digit t tmp tp saw octets d :
  read4 t tmp tp saw octets -> 0 <= d < 10 ->
  exists v, zget tmp tp = Some v /\ octets + (if saw then 0 else 1) <= 4 /\
    (~ (saw = true /\ v = 0) -> v * 10 + d <= 255 ->
     exists tmp', zset tmp tp (u8 (v * 10 + d)) = Some tmp' /\
       read4 (t ++ [xd d]) tmp' tp true (octets + (if saw then 0 else 1))).
Proof.
  intros (qs & v & post & -> & Hlen & -> & Hok & -> & -> & Hv0) Hd. exists v.
  rewrite length_app in Hlen. simpl in Hlen. apply Forall_app in Hok as [Hqs Hv]. rewrite Forall_singleton in Hv.
  split_and!; [by apply zget_middle|by destruct saw; lia|]. intros Hlead Hmax.
  exists (qs ++ (v * 10 + d) :: post). split; [rewrite zset_middle by done; by rewrite wrap_small by (unfold in_word; lia)|].
  exists qs, (v * 10 + d), post. split_and!; try done.
  - rewrite length_app. simpl. lia.
  - apply Forall_app. split; [done|]. apply Forall_singleton. lia.
  - rewrite <-app_assoc. f_equal. destruct saw.
    + rewrite fmt_u_snoc; [done| |done|lia]. assert (v <> 0) by naive_solver. lia.
    + rewrite Hv0 by done. by rewrite fmt_u_digit.
  - destruct saw; lia.
Qed.

Lemma read4_dot t tmp tp octets :
  read4 t tmp tp true octets -> octets <> 4 ->
  exists tmp', zset tmp (tp + 1) 0 = Some tmp' /\ read4 (t ++ [DOT]) tmp' (tp + 1) false octets.
Proof.
  intros (qs & v & post & -> & Hlen & -> & Hok & -> & Ho & _) Hne. rewrite length_app in Hlen. simpl in Hlen.
  destruct post as [|x post]; [simpl in Hlen; lia|]. simpl in Hlen.
  exists ((qs ++ [v]) ++ 0 :: post). replace (qs ++ v :: x :: post) with ((qs ++ [v]) ++ x :: post) by (by rewrite <-app_assoc).
  split; [apply zset_middle; rewrite length_app; simpl; lia|].
  exists (qs ++ [v]), 0, post. split_and!; try done.
  - rewrite !length_app. simpl. lia.
  - rewrite length_app. simpl. lia.
  - apply Forall_app. split; [done|]. apply Forall_singleton. lia.
  - by rewrite octets_text_snoc, app_nil_r, app_assoc.
  - lia.
Qed.

(** The loop reads up to the NUL without a fault, and has accepted what it read or
    refuses the string. *)
Lemma pton4_loop_reads rest junk t tmp tp saw octets :
  0 ∉ rest -> read4 t tmp tp saw octets ->
  pton4_loop (rest ++ 0 :: junk) tmp tp saw octets = Some None \/
  exists tmp' tp' saw' octets', pton4_loop (rest ++ 0 :: junk) tmp tp saw octets = Some (Some (tmp', octets')) /\
    read4 (t ++ rest) tmp' tp' saw' octets'.
Proof.
  revert t tmp tp saw octets. induction rest as [|ch rest IH]; intros t tmp tp saw octets Hnz Hr.
  { right. exists tmp, tp, saw, octets. by rewrite app_nil_r. }
  apply not_elem_of_cons in Hnz as [Hch Hnz]. cbn [app pton4_loop]. rewrite decide_False by done.
  destruct (strchr digits ch) as [d|] eqn:Hd.
  - apply strchr_digits in Hd as [-> Hd]. destruct (read4_digit _ _ _ _ _ d Hr Hd) as (v & -> & Ho & Hset).
    rewrite bind_some. cbv zeta. destruct (decide (saw = true /\ v = 0)) as [|Hlead]; [by left|].
    destruct (decide (255 < v * 10 + d)); [by left|]. destruct Hset as (tmp' & -> & Hr'); [done|lia|].
    rewrite bind_some. specialize (IH _ _ _ _ _ Hnz Hr'). rewrite <-app_assoc in IH. destruct saw.
    + by rewrite Z.add_0_r in IH.
    + by rewrite decide_False by lia.
  - destruct (decide (ch = DOT /\ saw = true)) as [[-> ->]|]; [|by left].
    destruct (decide (octets = 4)); [by left|]. destruct (read4_dot _ _ _ _ Hr) as (tmp' & -> & Hr'); [done|].
    rewrite bind_some. specialize (IH _ _ _ _ _ Hnz Hr'). by rewrite <-app_assoc in IH.
Qed.

Lemma read4_four t tmp tp saw octets :
  read4 t tmp tp saw octets -> octets < 4 \/
  exists a b c d, tmp = [a; b; c; d] /\ bytes_ok [a; b; c; d] /\ t = dotted a b c d.
Proof.
  intros (qs & v & post & -> & Hlen & -> & Hok & -> & -> & _). rewrite length_app in Hlen. simpl in Hlen.
  destruct (decide (Z.of_nat (length qs) + (if saw then 1 else 0) < 4)) as [|Hge]; [by left|right].
  destruct saw; [|lia]. destruct qs as [|a [|b [|c [|]]]]; simpl in *; try lia. destruct post; [|simpl in Hlen; lia].
  exists a, b, c, v. split_and!; [done|done|]. unfold octets_text, dotted. cbn.
  by rewrite <-!app_assoc.
Qed.

(** A string is read as an address exactly when it is the address's dotted quad. *)
Lemma inet_pton4_reads t junk stack :
  length stack = 4%nat -> 0 ∉ t ->
  inet_pton4 (t ++ 0 :: junk) stack = Some None /\ (forall a b c d, bytes_ok [a; b; c; d] -> t <> dotted a b c d) \/
  exists a b c d, inet_pton4 (t ++ 0 :: junk) stack = Some (Some [a; b; c; d]) /\ bytes_ok [a; b; c; d] /\
    t = dotted a b c d.
Proof.
  intros Hs Hnz. destruct stack as [|s0 [|s1 [|s2 [|s3 [|]]]]]; try done.
  assert (inet_pton4 (t ++ 0 :: junk) [s0; s1; s2; s3] = Some None ->
    forall a b c d, bytes_ok [a; b; c; d] -> t <> dotted a b c d) as Hno.
  { intros Hr a b c d Hok ->. repeat (apply Forall_cons in Hok as [? Hok]).
    by rewrite inet_pton4_dotted in Hr by done. }
  assert (read4 [] [0; s1; s2; s3] 0 false 0) as Hstart.
  { exists [], 0, [s1; s2; s3]. split_and!; try done. apply Forall_singleton. lia. }
  revert Hno. unfold inet_pton4. change (zset [s0; s1; s2; s3] 0 0) with (Some [0; s1; s2; s3]). rewrite bind_some.
  destruct (pton4_loop_reads t junk _ _ _ _ _ Hnz Hstart) as [->|(tmp & tp & saw & octets & -> & Hr)]; intros Hno.
  { left. split; [done|]. by apply Hno. }
  rewrite bind_some in Hno |- *. destruct (decide (octets < 4)); [left; split; [done|by apply Hno]|right].
  rewrite app_nil_l in Hr. destruct (read4_four _ _ _ _ _ Hr) as [|(a & b & c & d & -> & Hok & Ht)]; [lia|].
  by exists a, b, c, d.
Qed.

(** ** Reading groups *)

Definition word_bytes (ws : list Z) : list Z := mjoin ((fun w => [w / 256; w mod 256]) <$> ws).

Lemma word_bytes_cons w ws : word_bytes (w :: ws) = [w / 256; w mod 256] ++ word_bytes ws.
Proof. reflexivity. Qed.

Lemma length_word_bytes ws : length (word_bytes ws) = (2 * length ws)%nat.
Proof. induction ws as [|w ws IH]; [done|]. rewrite word_bytes_cons, length_app, IH. simpl. lia. Qed.

(** The bytes [l] are stored, the rest of the address is zero. *)
Definition stored (l : list Z) : list Z := l ++ replicate (16 - length l) 0.

(** A parser that has stored [l], between two groups. *)
Definition between (l : list Z) (colonp : option Z) : parser6 :=
  Parser6 (stored l) (Z.of_nat (length l)) colonp 0 0.

(** A parser that has stored [l] and read the digits of [w]. *)
Definition inside (l : list Z) (colonp : option Z) (n w : Z) : parser6 :=
  Parser6 (stored l) (Z.of_nat (length l)) colonp n w.

Lemma hex_step v d : 0 <= v < 4096 -> 0 <= d < 16 -> Z.lor (u32 (Z.shiftl v 4)) d = v * 16 + d.
Proof.
  intros Hv Hd. rewrite Z.shiftl_mul_pow2, wrap_small by (unfold in_word; lia).
  rewrite lor_high_low by lia. lia.
Qed.

Lemma number_bound v ds n :
  0 <= v < 16 ^ n -> 0 <= n -> Forall (fun d => 0 <= d < 16) ds ->
  0 <= number 16 v ds < 16 ^ (n + Z.of_nat (length ds)).
Proof.
  intros Hv Hn Hds. revert v n Hv Hn. induction Hds as [|d ds Hd Hds IH]; intros v n Hv Hn.
  - simpl. by rewrite Z.add_0_r.
  - change (number 16 v (d :: ds)) with (number 16 (v * 16 + d) ds).
    replace (n + Z.of_nat (length (d :: ds))) with (n + 1 + Z.of_nat (length ds)) by (simpl; lia).
    apply IH; [|lia]. rewrite Z.pow_add_r by lia. lia.
Qed.

Lemma pton6_digits ds rest curtok stack l cp n v :
  Forall (fun d => 0 <= d < 16) ds -> 0 <= n -> n + Z.of_nat (length ds) <= 4 -> 0 <= v < 16 ^ n ->
  pton6_loop ((xd <$> ds) ++ rest) curtok stack (inside l cp n v)
  = pton6_loop rest curtok stack (inside l cp (n + Z.of_nat (length ds)) (number 16 v ds)).
Proof.
  intros Hds. revert n v. induction Hds as [|d ds Hd Hds IH]; intros n v Hn Hlen Hv.
  { simpl. by rewrite Z.add_0_r. }
  rewrite fmap_cons. cbn [app pton6_loop]. destruct (xdigit_xd d Hd) as (Hx & Hnz & _).
  simpl length in Hlen. rewrite decide_False, Hx by done. cbv zeta. simpl seen_xdigits.
  rewrite decide_False by lia. simpl val.
  assert (16 ^ n <= 16 ^ 3) by (apply Z.pow_le_mono_r; lia).
  rewrite hex_step by lia. change (number 16 v (d :: ds)) with (number 16 (v * 16 + d) ds).
  replace (n + Z.of_nat (length (d :: ds))) with (n + 1 + Z.of_nat (length ds)) by (simpl; lia).
  apply IH; [lia|lia|]. rewrite Z.pow_add_r by lia. lia.
Qed.

Lemma pton6_word w rest curtok stack l cp :
  0 <= w < 65536 -> exists n, 0 < n <= 4 /\
  pton6_loop (fmt_x w ++ rest) curtok stack (between l cp) = pton6_loop rest curtok stack (inside l cp n w).
Proof.
  intros Hw. destruct (fmt_x_spec w Hw) as (d & ds & -> & Hds & Hlen & Hval).
  exists (0 + Z.of_nat (length (d :: ds))). split; [simpl in *; lia|].
  rewrite <-Hval. apply pton6_digits; [done|lia|lia|lia].
Qed.

Lemma low_byte w : Z.land (u8 w) 255 = w mod 256.
Proof.
  change 255 with (Z.ones 8). rewrite Z.land_ones by lia. unfold wrap. change (2 ^ 8) with 256.
  apply Zmod_mod.
Qed.

Lemma store_word_spec l cp n w :
  (length l <= 14)%nat -> 0 <= w < 65536 ->
  store_word (inside l cp n w) = Some (Some (between (l ++ [w / 256; w mod 256]) cp)).
Proof.
  intros Hl Hw. unfold store_word, inside, between. cbn [p_tp p_tmp val colonp].
  rewrite decide_False by lia. rewrite !low_byte, Z.shiftr_div_pow2 by lia. change (2 ^ 8) with 256.
  rewrite (Z.mod_small (w / 256)) by (Z.to_euclidean_division_equations; lia).
  unfold stored. destruct (16 - length l)%nat as [|[|k]] eqn:Hk; [lia|lia|]. cbn [replicate].
  rewrite zset_middle by done. rewrite bind_some.
  rewrite (cons_middle (w / 256)), app_assoc, zset_middle by (rewrite length_app; simpl; lia).
  rewrite bind_some, <-!app_assoc, length_app. cbn [app length].
  replace (16 - (length l + 2))%nat with k by lia.
  do 3 f_equal. simpl. lia.
Qed.

(** A group and the colon after it, when the string goes on. *)
Lemma pton6_group w c rest curtok stack l cp :
  0 <= w < 65536 -> (length l <= 14)%nat -> c <> 0 ->
  pton6_loop (fmt_x w ++ COLON :: c :: rest) curtok stack (between l cp)
  = pton6_loop (c :: rest) (c :: rest) stack (between (l ++ [w / 256; w mod 256]) cp).
Proof.
  intros Hw Hl Hc. destruct (pton6_word w (COLON :: c :: rest) curtok stack l cp Hw) as (n & Hn & ->).
  cbn [pton6_loop]. change (xdigit COLON) with (@None Z). rewrite decide_False by done.
  rewrite decide_True by done. simpl seen_xdigits. rewrite decide_False by lia.
  change (head (c :: rest)) with (Some c). rewrite bind_some, decide_False by done.
  rewrite store_word_spec by done. reflexivity.
Qed.

(** The double colon. *)
Lemma pton6_double rest curtok stack l :
  pton6_loop (COLON :: rest) curtok stack (between l None)
  = pton6_loop rest rest stack (between l (Some (Z.of_nat (length l)))).
Proof. reflexivity. Qed.

(** Groups separated by colons. *)
Fixpoint join (ws : list Z) : list Z :=
  match ws with
  | [] => []
  | [w] => fmt_x w
  | w :: ws => fmt_x w ++ COLON :: join ws
  end.

(** The rest of [inet_pton6], once the string has been read. *)
Definition finish (stack : list Z) (src curtok : list Z) (p : parser6) : option (option (list Z)) :=
  r ← pton6_loop src curtok stack p;
  match r with None => Some None | Some p => pton6_end p end.

Lemma join_head ws : ws <> [] -> Forall (fun w => 0 <= w < 65536) ws -> exists c rest, join ws = c :: rest /\ c <> 0.
Proof.
  intros Hne Hws. destruct ws as [|w ws]; [done|]. apply Forall_cons in Hws as [Hw _].
  destruct (fmt_x_spec w Hw) as (d & ds & Hf & Hds & _). apply Forall_cons in Hds as [Hd _].
  destruct (xdigit_xd d Hd) as (_ & Hnz & _).
  destruct ws as [|w' ws]; cbn [join]; rewrite Hf; rewrite fmap_cons; eauto.
Qed.

Section reading.
(** What is in memory after the NUL of the string. *)
Context (junk : list Z).

Lemma finish_join ws curtok stack l cp :
  Forall (fun w => 0 <= w < 65536) ws -> (length l + 2 * length ws <= 16)%nat ->
  finish stack (join ws ++ 0 :: junk) curtok (between l cp) = pton6_end (between (l ++ word_bytes ws) cp).
Proof.
  intros Hws. revert l curtok. induction Hws as [|w ws Hw Hws IH]; intros l curtok Hlen.
  { by rewrite app_nil_r. }
  simpl in Hlen. destruct ws as [|w' ws].
  - cbn [join]. unfold finish. destruct (pton6_word w (0 :: junk) curtok stack l cp Hw) as (n & Hn & ->).
    cbn [pton6_loop]. rewrite decide_True, bind_some by done. unfold pton6_end.
    simpl seen_xdigits. rewrite decide_True, store_word_spec by (done || lia). reflexivity.
  - destruct (join_head (w' :: ws)) as (c & rest & Hj & Hc); [done..|].
    change (join (w :: w' :: ws)) with (fmt_x w ++ COLON :: join (w' :: ws)).
    rewrite word_bytes_cons, app_assoc, <-IH with (curtok := join (w' :: ws) ++ 0 :: junk).
    + unfold finish. rewrite Hj, <-app_assoc. cbn [app]. by rewrite pton6_group by (done || lia).
    + rewrite length_app. simpl in *. lia.
Qed.

(** Groups that are each followed by a colon, before another character. *)
Definition each_colon (ws : list Z) : list Z := mjoin ((fun w => fmt_x w ++ [COLON]) <$> ws).

Lemma each_colon_cons w ws : each_colon (w :: ws) = fmt_x w ++ COLON :: each_colon ws.
Proof.
  unfold each_colon. rewrite fmap_cons. change (mjoin (?x :: ?l)) with (x ++ mjoin l).
  by rewrite <-app_assoc.
Qed.

Lemma finish_left ws c rest curtok stack l :
  Forall (fun w => 0 <= w < 65536) ws -> (length l + 2 * length ws <= 16)%nat -> c <> 0 ->
  exists curtok', finish stack (each_colon ws ++ c :: rest) curtok (between l None)
    = finish stack (c :: rest) curtok' (between (l ++ word_bytes ws) None).
Proof.
  intros Hws. revert l curtok. induction Hws as [|w ws Hw Hws IH]; intros l curtok Hlen Hc.
  { exists curtok. by rewrite app_nil_r. }
  simpl in Hlen.
  assert (exists c' rest', each_colon ws ++ c :: rest = c' :: rest' /\ c' <> 0) as (c' & rest' & Hs & Hc').
  { destruct ws as [|w' ws]; [by exists c, rest|]. apply Forall_cons in Hws as [Hw' _].
    destruct (fmt_x_spec w' Hw') as (d & ds & Hf & Hds & _). apply Forall_cons in Hds as [Hd _].
    destruct (xdigit_xd d Hd) as (_ & Hnz & _). rewrite each_colon_cons, Hf, fmap_cons.
    eexists _, _. split; [reflexivity|done]. }
  destruct (IH (l ++ [w / 256; w mod 256]) (c' :: rest')) as (ct & Hfin); [rewrite length_app; simpl; lia|done|].
  exists ct. rewrite word_bytes_cons, app_assoc, <-Hfin, each_colon_cons, <-app_assoc. cbn [app].
  rewrite Hs. unfold finish. by rewrite pton6_group by (done || lia).
Qed.

(** The move of the groups after the double colon to the end. *)
Lemma shift_tail_spec left right k :
  (length left + length right + k = 16)%nat -> (0 < k)%nat ->
  shift_tail (left ++ right ++ replicate k 0) (Z.of_nat (length left)) (Z.of_nat (length left + length right))
  = Some (left ++ replicate k 0 ++ right).
Proof.
  intros Hlen Hk. unfold shift_tail. cbv zeta.
  replace (Z.of_nat (length left + length right) - Z.of_nat (length left)) with (Z.of_nat (length right)) by lia.
  rewrite Nat2Z.id.
  destruct (for_range_inv (fun i tmp => tmp = left ++ take (length right - i) right ++ replicate k 0
    ++ drop (length right - i) right) (length right)
    (fun i tmp => x ← zget tmp (Z.of_nat (length left) + (Z.of_nat (length right) - (Z.of_nat i + 1)));
       tmp ← zset tmp (16 - (Z.of_nat i + 1)) x;
       zset tmp (Z.of_nat (length left) + (Z.of_nat (length right) - (Z.of_nat i + 1))) 0)
    (left ++ right ++ replicate k 0)) as (tmp & Hloop & ->).
  - rewrite Nat.sub_0_r, firstn_all, drop_all, app_nil_r. done.
  - intros i tmp Hi ->. set (r := (length right - S i)%nat).
    destruct (lookup_lt_is_Some_2 right r) as [x Hx]; [lia|].
    replace (length right - i)%nat with (S r) by lia.
    rewrite (take_S_r _ _ _ Hx), (drop_S _ _ _ Hx). destruct k as [|k]; [lia|].
    assert (length (take r right) = r) as Hr by (rewrite length_take; lia).
    assert (length (drop (S r) right) = i) as Hd by (rewrite length_drop; lia).
    rewrite <-!app_assoc. cbn [app]. rewrite (app_assoc left).
    rewrite zget_middle by (rewrite length_app; lia). rewrite bind_some.
    rewrite (replicate_S_end k 0), <-(app_assoc (replicate k 0)). cbn [app].
    rewrite (cons_middle x), !(app_assoc (_ ++ _)).
    rewrite zset_middle by (rewrite !length_app, length_replicate; simpl; lia). rewrite bind_some.
    rewrite <-!(app_assoc (left ++ take r right)). cbn [app].
    rewrite zset_middle by (rewrite length_app; lia).
    eexists. split; [done|]. rewrite <-!app_assoc. do 2 f_equal.
    by rewrite (app_assoc (replicate k 0)), <-replicate_S_end.
  - rewrite Nat.sub_diag, take_0, drop_0 in Hloop. exact Hloop.
Qed.

Lemma pton6_end_none l : length l = 16%nat -> pton6_end (between l None) = Some (Some l).
Proof.
  intros Hl. unfold pton6_end, between, stored. simpl seen_xdigits.
  rewrite (decide_False (P := 0 <> 0)) by lia. rewrite bind_some. cbn [colonp p_tp p_tmp].
  rewrite decide_False by lia. by rewrite Hl, app_nil_r.
Qed.

Lemma pton6_end_double left right :
  (length left + length right < 16)%nat ->
  pton6_end (between (left ++ right) (Some (Z.of_nat (length left))))
  = Some (Some (left ++ replicate (16 - length left - length right) 0 ++ right)).
Proof.
  intros Hl. unfold pton6_end, between, stored. simpl seen_xdigits.
  rewrite (decide_False (P := 0 <> 0)) by lia. rewrite bind_some. cbn [colonp p_tp p_tmp].
  rewrite length_app, decide_False by lia. rewrite <-app_assoc, <-Nat.sub_add_distr.
  rewrite shift_tail_spec by lia. done.
Qed.

Lemma store4_spec l a b c d :
  (length l <= 12)%nat ->
  store4 (stored l) (Z.of_nat (length l)) [a; b; c; d] = Some (stored (l ++ [a; b; c; d])).
Proof.
  intros Hl. unfold stored, store4.
  destruct (16 - length l)%nat as [|[|[|[|k]]]] eqn:Hk; try lia. cbn [replicate].
  rewrite length_app. cbn [length]. replace (16 - (length l + 4))%nat with k by lia.
  unfold for_range. rewrite for_from_S. change (zget [a; b; c; d] (Z.of_nat 0)) with (Some a).
  rewrite bind_some, zset_middle, bind_some, for_from_S by lia.
  change (zget [a; b; c; d] (Z.of_nat 1)) with (Some b).
  change (l ++ a :: 0 :: ?t) with (l ++ [a] ++ 0 :: t).
  rewrite bind_some, zset_after, bind_some, for_from_S by (simpl; lia).
  change (zget [a; b; c; d] (Z.of_nat 2)) with (Some c).
  change (l ++ [a] ++ b :: 0 :: ?t) with (l ++ [a; b] ++ 0 :: t).
  rewrite bind_some, zset_after, bind_some, for_from_S by (simpl; lia).
  change (zget [a; b; c; d] (Z.of_nat 3)) with (Some d).
  change (l ++ [a; b] ++ c :: 0 :: ?t) with (l ++ [a; b; c] ++ 0 :: t).
  rewrite bind_some, zset_after by (simpl; lia). by rewrite bind_some, <-app_assoc.
Qed.

(** An embedded IPv4 address. *)
Lemma finish_dotted a b c d stack l cp :
  length stack = 4%nat -> (length l <= 12)%nat ->
  0 <= a < 256 -> 0 <= b < 256 -> 0 <= c < 256 -> 0 <= d < 256 ->
  let s := dotted a b c d ++ 0 :: junk in
  finish stack s s (between l cp) = pton6_end (between (l ++ [a; b; c; d]) cp).
Proof.
  intros Hs Hl Ha Hb Hc Hd. cbv zeta. unfold finish.
  pose proof (inet_pton4_dotted a b c d junk stack Hs Ha Hb Hc Hd) as Hp4.
  remember (dotted a b c d ++ 0 :: junk) as s eqn:Heq. rewrite Heq at 1. unfold dotted. rewrite <-!app_assoc.
  destruct (fmt_u_spec a Ha) as (x & ds & Hf & Hds & Hlen & _). rewrite Hf.
  change (between l cp) with (inside l cp 0 0).
  rewrite pton6_digits; [|eapply Forall_impl; [exact Hds|simpl; lia]|lia|lia|lia].
  cbn [app pton6_loop]. change (xdigit DOT) with (@None Z). rewrite decide_False by done.
  rewrite (decide_False (P := DOT = COLON)) by done. simpl p_tp. rewrite decide_True by (split; [done|lia]).
  rewrite Hp4. rewrite bind_some. unfold inside. cbn [p_tmp p_tp colonp val].
  rewrite store4_spec by done.
  rewrite !bind_some. unfold between. rewrite length_app, Nat2Z.inj_add. reflexivity.
Qed.

(** ** Writing *)

Lemma word_pair a b : 0 <= a < 256 -> 0 <= b < 256 ->
  Z.lor (Z.lor 0 (Z.shiftl a (Z.shiftl 1 3))) (Z.shiftl b (Z.shiftl 0 3)) = a * 256 + b.
Proof.
  intros Ha Hb. change (Z.shiftl 1 3) with 8. change (Z.shiftl 0 3) with 0.
  rewrite Z.shiftl_0_r, Z.lor_0_l, Z.shiftl_mul_pow2 by lia. change 256 with (2 ^ 8). by apply lor_high_low.
Qed.

Lemma pair_div a b : 0 <= b < 256 -> (a * 256 + b) / 256 = a.
Proof. intros. rewrite Z.div_add_l, Z.div_small; lia. Qed.

Lemma pair_mod a b : 0 <= b < 256 -> (a * 256 + b) mod 256 = b.
Proof. intros. rewrite Z.add_comm, Z.mod_add, Z.mod_small; lia. Qed.

(** The words of an address. *)
Lemma words_of_spec src :
  length src = 16%nat -> bytes_ok src ->
  exists ws, words_of src = Some ws /\ length ws = 8%nat /\ Forall (fun w => 0 <= w < 65536) ws /\
    word_bytes ws = src.
Proof.
  intros Hlen Hok.
  destruct src as [|b0 [|b1 [|b2 [|b3 [|b4 [|b5 [|b6 [|b7 [|b8 [|b9 [|b10 [|b11 [|b12 [|b13 [|b14 [|b15 src]]]]]]]]]]]]]]]]; try done. destruct src; [|done].
  repeat (apply Forall_cons in Hok as [? Hok]). unfold in_word in *. change (2 ^ 8) with 256 in *.
  assert (words_of [b0; b1; b2; b3; b4; b5; b6; b7; b8; b9; b10; b11; b12; b13; b14; b15] = Some [Z.lor (Z.lor 0 (Z.shiftl b0 (Z.shiftl 1 3))) (Z.shiftl b1 (Z.shiftl 0 3));
      Z.lor (Z.lor 0 (Z.shiftl b2 (Z.shiftl 1 3))) (Z.shiftl b3 (Z.shiftl 0 3));
      Z.lor (Z.lor 0 (Z.shiftl b4 (Z.shiftl 1 3))) (Z.shiftl b5 (Z.shiftl 0 3));
      Z.lor (Z.lor 0 (Z.shiftl b6 (Z.shiftl 1 3))) (Z.shiftl b7 (Z.shiftl 0 3));
      Z.lor (Z.lor 0 (Z.shiftl b8 (Z.shiftl 1 3))) (Z.shiftl b9 (Z.shiftl 0 3));
      Z.lor (Z.lor 0 (Z.shiftl b10 (Z.shiftl 1 3))) (Z.shiftl b11 (Z.shiftl 0 3));
      Z.lor (Z.lor 0 (Z.shiftl b12 (Z.shiftl 1 3))) (Z.shiftl b13 (Z.shiftl 0 3));
      Z.lor (Z.lor 0 (Z.shiftl b14 (Z.shiftl 1 3))) (Z.shiftl b15 (Z.shiftl 0 3))]) as Hw by reflexivity.
  rewrite !word_pair in Hw by done. eexists. split; [exact Hw|]. split_and!; [done| |].
  - repeat (apply Forall_cons; split; [lia|]). done.
  - cbv [word_bytes mjoin list_join fmap list_fmap app]. by rewrite !pair_div, !pair_mod by done.
Qed.

(** A run of zeros of [ws], of length [m] at least and within the first [n]. *)
Definition zero_run (ws : list Z) (m n : Z) (r : run) : Prop :=
  0 <= base r /\ m <= len r /\ base r + len r <= n /\
  forall j, base r <= j < base r + len r -> zget ws j = Some 0.

Definition scan_ok (ws : list Z) (i : Z) (st : run * run) : Prop :=
  (base st.1 = -1 \/ zero_run ws 1 i st.1) /\
  (base st.2 = -1 \/ (zero_run ws 1 i st.2 /\ base st.2 + len st.2 = i)).

Lemma zero_run_mono ws m n n' r : n <= n' -> zero_run ws m n r -> zero_run ws m n' r.
Proof. intros ? (? & ? & ? & ?). split_and!; try done; lia. Qed.

Lemma longer_ok ws i best cur :
  (base best = -1 \/ zero_run ws 1 i best) -> zero_run ws 1 i cur ->
  base (longer best cur) = -1 \/ zero_run ws 1 i (longer best cur).
Proof. intros Hb Hc. unfold longer. case_decide; [by right|]. naive_solver. Qed.

Lemma scan_word_ok ws i w st :
  zget ws i = Some w -> 0 <= i -> scan_ok ws i st -> scan_ok ws (i + 1) (scan_word w i st).
Proof.
  intros Hw Hi. destruct st as [best cur]. intros [Hb Hc]. simpl in Hb, Hc. unfold scan_word.
  assert (base best = -1 \/ zero_run ws 1 (i + 1) best) as Hb'
    by (destruct Hb; [by left|right; eapply zero_run_mono; [|done]; lia]).
  destruct (decide (w = 0)) as [->|Hnz].
  - destruct (decide (base cur = -1)) as [Hn|Hn].
    + split; simpl; [done|]. right. split; [|lia]. split_and!; simpl; try lia.
      intros j Hj. by replace j with i by lia.
    + destruct Hc as [?|[(H0 & H1 & H2 & H3) He]]; [done|]. split; simpl; [done|]. right.
      split; [|lia]. split_and!; simpl; try lia.
      intros j Hj. destruct (decide (j = i)) as [->|]; [done|]. apply H3. lia.
  - destruct (decide (base cur <> -1)) as [Hn|Hn].
    + destruct Hc as [?|[Hr _]]; [done|]. split; simpl; [|by left].
      apply longer_ok; [done|]. eapply zero_run_mono; [|done]. lia.
    + split; simpl; [done|]. left. lia.
Qed.

Lemma scan_words_ok pre ws st :
  scan_ok (pre ++ ws) (Z.of_nat (length pre)) st ->
  scan_ok (pre ++ ws) (Z.of_nat (length (pre ++ ws))) (scan_words ws (Z.of_nat (length pre)) st).
Proof.
  revert pre st. induction ws as [|w ws IH]; intros pre st Hst; cbn [scan_words].
  - by rewrite app_nil_r in *.
  - apply (scan_word_ok _ _ w) in Hst; [|by apply zget_middle|lia].
    rewrite (cons_middle w), app_assoc in *.
    replace (Z.of_nat (length pre) + 1) with (Z.of_nat (length (pre ++ [w]))) in *
      by (rewrite length_app; simpl; lia). by apply IH.
Qed.

(** The run that is abbreviated is a run of two zero words or more. *)
Lemma best_run_ok ws :
  base (best_run ws) = -1 \/ zero_run ws 2 (Z.of_nat (length ws)) (best_run ws).
Proof.
  unfold best_run. pose proof (scan_words_ok [] ws (Run (-1) 0, Run (-1) 0)) as Hs.
  simpl in Hs. change (Z.of_nat 0) with 0 in Hs. destruct (scan_words ws 0 (Run (-1) 0, Run (-1) 0)) as [best cur].
  destruct Hs as [Hb Hc]; [split; by left|]. simpl in Hb, Hc.
  set (b := if decide (base cur <> -1) then longer best cur else best).
  assert (base b = -1 \/ zero_run ws 1 (Z.of_nat (length ws)) b) as Hok.
  { unfold b. destruct (decide (base cur <> -1)); [|exact Hb]. apply longer_ok; [done|]. by destruct Hc as [?|[? _]]. }
  case_decide as Hshort; [by left|]. destruct Hok as [?|(H0 & H1 & H2 & H3)]; [by left|]. right.
  split_and!; try done. destruct (decide (len b < 2)); [|lia]. exfalso. apply Hshort. split; lia.
Qed.

(** ** The text of an address *)

(** What the loop writes for the word [w] at [i]. *)
Definition piece (best : run) (w i : Z) : list Z :=
  if decide (in_run best i) then (if decide (i = base best) then [COLON] else [])
  else (if decide (i <> 0) then [COLON] else []) ++ fmt_x w.

Fixpoint pieces (best : run) (ws : list Z) (i : Z) : list Z :=
  match ws with
  | [] => []
  | w :: ws => piece best w i ++ pieces best ws (i + 1)
  end.

Lemma pieces_app best l1 l2 i :
  pieces best (l1 ++ l2) i = pieces best l1 i ++ pieces best l2 (i + Z.of_nat (length l1)).
Proof.
  revert i. induction l1 as [|w l1 IH]; intros i; simpl; [by rewrite Z.add_0_r|].
  rewrite IH, <-app_assoc. do 3 f_equal. lia.
Qed.

Lemma length_fmt_x w : 0 <= w < 65536 -> (length (fmt_x w) <= 4)%nat.
Proof. intros Hw. destruct (fmt_x_spec w Hw) as (d & ds & -> & _ & Hlen & _). by rewrite length_fmap. Qed.

Lemma length_piece best w i : 0 <= w < 65536 -> (length (piece best w i) <= 5)%nat.
Proof.
  intros Hw. pose proof (length_fmt_x w Hw). unfold piece.
  repeat case_decide; rewrite ?length_app; simpl; lia.
Qed.

(** The loop writes the pieces, as long as no IPv4 address is embedded. *)
Lemma format_words_pieces n src words pre ws rest best tmp :
  words = pre ++ ws ++ rest -> Forall (fun w => 0 <= w < 65536) ws -> (length pre + length ws <= 8)%nat ->
  (length tmp <= 5 * length pre)%nat ->
  (forall j, Z.of_nat (length pre) <= j < Z.of_nat (length pre + length ws) -> ~ in_run best j ->
     encapsulated words best j = Some false) ->
  format_words (length ws + n) src words best (Z.of_nat (length pre)) tmp
  = format_words n src words best (Z.of_nat (length pre + length ws))
      (tmp ++ pieces best ws (Z.of_nat (length pre))).
Proof.
  intros Hwords Hws. revert pre tmp Hwords. induction Hws as [|w ws Hw Hws IH]; intros pre tmp Hwords Hlen Htmp Hno.
  { simpl. by rewrite app_nil_r, Nat.add_0_r. }
  cbn [length Nat.add format_words pieces]. simpl length in *.
  pose proof (length_piece best w (Z.of_nat (length pre)) Hw) as Hp.
  assert (zget words (Z.of_nat (length pre)) = Some w) as Hget by (rewrite Hwords; by apply zget_middle).
  assert (forall t, t = tmp ++ piece best w (Z.of_nat (length pre)) ->
    format_words (length ws + n) src words best (Z.of_nat (length pre) + 1) t
    = format_words n src words best (Z.of_nat (length pre + S (length ws)))
        (tmp ++ piece best w (Z.of_nat (length pre)) ++ pieces best ws (Z.of_nat (length pre) + 1))) as Hnext.
  { intros t ->. specialize (IH (pre ++ [w]) (tmp ++ piece best w (Z.of_nat (length pre)))).
    rewrite !length_app, <-!app_assoc in IH. cbn [length app] in IH.
    replace (Z.of_nat (length pre + 1)) with (Z.of_nat (length pre) + 1) in IH by lia.
    replace (length pre + 1 + length ws)%nat with (length pre + S (length ws))%nat in IH by lia.
    apply IH; [done|lia|lia|]. intros j Hj. apply Hno. lia. }
  unfold piece in *. unfold put, print.
  destruct (decide (in_run best (Z.of_nat (length pre)))) as [Hin|Hout].
  - destruct (decide (Z.of_nat (length pre) = base best)).
    + rewrite decide_True, bind_some by lia. by apply Hnext.
    + rewrite bind_some. apply Hnext. by rewrite app_nil_r.
  - pose proof (length_fmt_x w Hw). rewrite (Hno (Z.of_nat (length pre))) by (done || lia).
    destruct (decide (Z.of_nat (length pre) <> 0)).
    + rewrite decide_True, !bind_some, Hget, bind_some by (done || lia).
      rewrite decide_True, bind_some by (rewrite length_app; simpl; lia). apply Hnext.
      by rewrite <-app_assoc.
    + rewrite !bind_some, Hget, bind_some. rewrite decide_True, bind_some by lia. by apply Hnext.
Qed.

(** Each group after a colon. *)
Definition colon_each (ws : list Z) : list Z := mjoin ((fun w => COLON :: fmt_x w) <$> ws).

Lemma colon_each_cons w ws : colon_each (w :: ws) = COLON :: fmt_x w ++ colon_each ws.
Proof. reflexivity. Qed.

Lemma join_cons w ws : join (w :: ws) = fmt_x w ++ colon_each ws.
Proof.
  revert w. induction ws as [|w' ws IH]; intros w; [by rewrite app_nil_r|].
  change (join (w :: w' :: ws)) with (fmt_x w ++ COLON :: join (w' :: ws)).
  by rewrite IH, colon_each_cons.
Qed.

Lemma join_colon w ws : join (w :: ws) ++ [COLON] = each_colon (w :: ws).
Proof.
  revert w. induction ws as [|w' ws IH]; intros w.
  - rewrite each_colon_cons. done.
  - change (join (w :: w' :: ws)) with (fmt_x w ++ COLON :: join (w' :: ws)).
    by rewrite <-app_assoc, <-app_comm_cons, IH, (each_colon_cons w).
Qed.

Lemma pieces_right best ws i :
  0 < i -> (forall j, i <= j < i + Z.of_nat (length ws) -> ~ in_run best j) ->
  pieces best ws i = colon_each ws.
Proof.
  revert i. induction ws as [|w ws IH]; intros i Hi Hno; [done|]. cbn [pieces]. simpl in Hno.
  rewrite colon_each_cons, IH by (lia || (intros j Hj; apply Hno; lia)).
  unfold piece. rewrite (decide_False (P := in_run _ _)) by (apply Hno; lia).
  by rewrite decide_True by lia.
Qed.

Lemma pieces_left best ws :
  (forall j, 0 <= j < Z.of_nat (length ws) -> ~ in_run best j) -> pieces best ws 0 = join ws.
Proof.
  intros Hno. destruct ws as [|w ws]; [done|]. simpl in Hno. rewrite join_cons. cbn [pieces]. unfold piece.
  rewrite (decide_False (P := in_run _ _)) by (apply Hno; lia). rewrite decide_False by lia.
  cbn [app]. by rewrite pieces_right by (lia || (intros j Hj; apply Hno; lia)).
Qed.

Lemma pieces_zeros best ws i :
  base best <> -1 -> base best <= i -> i + Z.of_nat (length ws) = base best + len best ->
  pieces best ws i = if decide (i = base best /\ ws <> []) then [COLON] else [].
Proof.
  intros Hb. revert i. induction ws as [|w ws IH]; intros i Hi Hend; cbn [pieces].
  - by rewrite decide_False by naive_solver.
  - simpl in Hend. rewrite IH by lia. rewrite (decide_False (P := i + 1 = base best /\ _)) by lia.
    unfold piece. rewrite (decide_True (P := in_run _ _)) by (split_and!; lia || done).
    rewrite app_nil_r. destruct (decide (i = base best)).
    + by rewrite decide_True.
    + by rewrite decide_False by naive_solver.
Qed.

Lemma length_dotted a b c d :
  0 <= a < 256 -> 0 <= b < 256 -> 0 <= c < 256 -> 0 <= d < 256 -> (0 < length (dotted a b c d) <= 15)%nat.
Proof.
  assert (forall n, 0 <= n < 256 -> (length (fmt_u n) <= 3)%nat) as Hf.
  { intros n Hn. destruct (fmt_u_spec n Hn) as (x & ds & -> & _ & Hlen & _). by rewrite length_fmap. }
  intros Ha Hb Hc Hd. pose proof (Hf a Ha). pose proof (Hf b Hb). pose proof (Hf c Hc). pose proof (Hf d Hd).
  unfold dotted. rewrite !length_app. simpl. lia.
Qed.

(** The text of an address whose best run splits its words. *)
Definition split_text (left right : list Z) : list Z :=
  (match left with [] => [COLON] | _ => each_colon left end) ++ COLON :: join right.

Lemma pieces_split best left zeros right :
  base best = Z.of_nat (length left) -> len best = Z.of_nat (length zeros) -> zeros <> [] ->
  pieces best (left ++ zeros ++ right) 0 ++ (match right with [] => [COLON] | _ => [] end) = split_text left right.
Proof.
  intros Hb Hl Hz. assert (0 < len best) by (destruct zeros; [done|simpl in Hl; lia]).
  rewrite !pieces_app, pieces_left by (intros j Hj [_ Hr]; lia).
  rewrite pieces_zeros by lia. rewrite decide_True by (split; [lia|done]).
  unfold split_text. destruct right as [|w right].
  - cbn [pieces]. rewrite app_nil_r. destruct left as [|x left]; [done|]. by rewrite join_colon.
  - rewrite pieces_right, app_nil_r by (lia || (intros j Hj [_ Hr]; lia)).
    rewrite colon_each_cons, join_cons. destruct left as [|x left]; [done|].
    rewrite <-join_colon, <-app_assoc. done.
Qed.

(** ** Round trips *)

Lemma inet_pton6_finish src stack c rest :
  src = c :: rest -> c <> COLON -> inet_pton6 src stack = finish stack src src (between [] None).
Proof.
  intros -> Hc. unfold inet_pton6. change (head (c :: rest)) with (Some c).
  rewrite bind_some, decide_False, bind_some by done. done.
Qed.

Lemma inet_pton6_double rest stack :
  inet_pton6 (COLON :: COLON :: rest) stack = finish stack rest rest (between [] (Some 0)).
Proof. reflexivity. Qed.

Lemma fmt_x_head w rest : 0 <= w < 65536 -> exists c r, fmt_x w ++ rest = c :: r /\ c <> COLON.
Proof.
  intros Hw. destruct (fmt_x_spec w Hw) as (d & ds & -> & Hds & _). apply Forall_cons in Hds as [Hd _].
  destruct (xdigit_xd d Hd) as (Hx & _). rewrite fmap_cons. eexists _, _. split; [reflexivity|].
  intros Hc. by rewrite Hc in Hx.
Qed.

Lemma inet_pton6_split left right stack :
  Forall (fun w => 0 <= w < 65536) left -> Forall (fun w => 0 <= w < 65536) right ->
  (length left + length right < 8)%nat ->
  inet_pton6 (split_text left right ++ 0 :: junk) stack
  = Some (Some (word_bytes left ++ replicate (16 - 2 * length left - 2 * length right) 0 ++ word_bytes right)).
Proof.
  intros Hl Hr Hlen. rewrite <-!length_word_bytes.
  rewrite <-pton6_end_double by (rewrite !length_word_bytes; lia).
  rewrite <-(finish_join right (join right ++ 0 :: junk) stack) by (done || rewrite length_word_bytes; lia).
  unfold split_text. destruct left as [|w left]; [done|].
  rewrite <-app_assoc. cbn [app]. rewrite each_colon_cons.
  destruct (fmt_x_head w ((COLON :: each_colon left) ++ COLON :: join right ++ 0 :: junk)) as (c & r & Hs & Hc);
    [by apply Forall_cons in Hl as [? _]|].
  rewrite (inet_pton6_finish _ _ c r) by (by rewrite <-?app_assoc). rewrite <-each_colon_cons.
  destruct (finish_left (w :: left) COLON (join right ++ 0 :: junk)
    (each_colon (w :: left) ++ COLON :: join right ++ 0 :: junk) stack []) as (ct & Hfin); [done|simpl in *; lia|done|].
  rewrite Hfin. reflexivity.
Qed.

Lemma inet_pton6_full ws stack :
  Forall (fun w => 0 <= w < 65536) ws -> length ws = 8%nat ->
  inet_pton6 (join ws ++ 0 :: junk) stack = Some (Some (word_bytes ws)).
Proof.
  intros Hws Hlen. destruct ws as [|w ws]; [done|]. pose proof Hws as Hw. apply Forall_cons in Hw as [Hw _].
  destruct (fmt_x_head w (colon_each ws ++ 0 :: junk) Hw) as (c & r & Hs & Hc).
  rewrite (inet_pton6_finish _ _ c r); [|by rewrite join_cons, <-app_assoc|done].
  rewrite finish_join by (done || simpl in *; lia). apply pton6_end_none.
  rewrite length_word_bytes, Hlen. done.
Qed.

Lemma length_pieces best ws i :
  Forall (fun w => 0 <= w < 65536) ws -> (length (pieces best ws i) <= 5 * length ws)%nat.
Proof.
  intros Hws. revert i. induction Hws as [|w ws Hw Hws IH]; intros i; simpl; [lia|].
  rewrite length_app. pose proof (length_piece best w i Hw). specialize (IH (i + 1)). lia.
Qed.

(** The words of an address, cut by a run. *)
Lemma run_split ws r :
  zero_run ws 2 (Z.of_nat (length ws)) r ->
  exists left zeros right, ws = left ++ zeros ++ right /\ base r = Z.of_nat (length left) /\
    len r = Z.of_nat (length zeros) /\ (2 <= length zeros)%nat /\ zeros = replicate (length zeros) 0.
Proof.
  intros (Hb & Hl & Hend & Hz).
  assert (exists b n, base r = Z.of_nat b /\ len r = Z.of_nat n) as (b & n & Hrb & Hrn).
  { exists (Z.to_nat (base r)), (Z.to_nat (len r)). lia. }
  assert (length (take b ws) = b) as Hlb by (rewrite length_take; lia).
  assert (length (take n (drop b ws)) = n) as Hln by (rewrite length_take, length_drop; lia).
  exists (take b ws), (take n (drop b ws)), (drop n (drop b ws)). rewrite Hlb, Hln.
  split_and!; [by rewrite !take_drop|lia|lia|lia|].
  apply list_eq_same_length with n; [by rewrite length_replicate|done|].
  intros i x y Hi Hx Hy. rewrite lookup_replicate_2 in Hy by done. simplify_eq.
  rewrite lookup_take_lt, lookup_drop in Hx by done.
  specialize (Hz (Z.of_nat (b + i)) ltac:(lia)). rewrite zget_nat in Hz. congruence.
Qed.

Lemma word_bytes_app ws vs : word_bytes (ws ++ vs) = word_bytes ws ++ word_bytes vs.
Proof. unfold word_bytes. by rewrite fmap_app, join_app. Qed.

Lemma word_bytes_zeros n : word_bytes (replicate n 0) = replicate (2 * n) 0.
Proof.
  induction n as [|n IH]; [done|]. replace (2 * S n)%nat with (S (S (2 * n))) by lia.
  cbn [replicate]. by rewrite word_bytes_cons, IH.
Qed.

Lemma encapsulated_false ws best j :
  length ws = 8%nat ->
  ~ (j = 6 /\ base best = 0 /\ (len best = 6 \/ len best = 7 \/ (len best = 5 /\ zget ws 5 = Some 65535))) ->
  encapsulated ws best j = Some false.
Proof.
  intros Hlen Hno. unfold encapsulated. destruct (zget_is_Some ws 7) as [w7 ->]; [lia|].
  destruct (zget_is_Some ws 5) as [w5 H5]; [lia|]. rewrite H5, !bind_some. f_equal.
  apply bool_decide_eq_false. intros (H1 & H2 & H3). apply Hno. rewrite H5.
  split_and!; [done..|]. destruct H3 as [?|[[? _]|[? ->]]]; auto.
Qed.

(** What [inet_ntop6] does once the loop has written [tmp]. *)
Definition written (src : list Z) (text : list Z) : Prop :=
  (length text <= 45)%nat /\
  forall size, inet_ntop6 src size = Some (if decide (size < Z.of_nat (length text) + 1) then None else Some text).

Lemma ntop6_end src ws tmp extra :
  words_of src = Some ws ->
  format_words 8 src ws (best_run ws) 0 [] = Some (Some tmp) -> (length tmp <= 40)%nat ->
  extra = (if decide (base (best_run ws) <> -1 /\ base (best_run ws) + len (best_run ws) = 8) then [COLON] else []) ->
  written src (tmp ++ extra).
Proof.
  intros Hws Hf Htmp ->. split; [rewrite length_app; case_decide; simpl; lia|]. intros size.
  unfold inet_ntop6. rewrite Hws, bind_some. cbv zeta. rewrite Hf, bind_some. unfold put.
  assert (forall (l : list Z) (x : option (option (list Z))), (length l <= 41)%nat ->
    (_ ← (if decide (Z.of_nat (length l) < 46) then Some (l ++ [0]) else None); x) = x) as Hput.
  { intros l x Hl. by rewrite decide_True by lia. }
  destruct (decide (base (best_run ws) <> -1 /\ base (best_run ws) + len (best_run ws) = 8)).
  - rewrite (decide_True (P := Z.of_nat (length tmp) < 46)), bind_some by lia.
    rewrite Hput by (rewrite length_app; simpl; lia). by destruct (decide (size < _)).
  - rewrite app_nil_r, bind_some, Hput by lia. by destruct (decide (size < _)).
Qed.

(** No run of zeros, or one that is abbreviated, without an IPv4 address. *)
Lemma ntop6_plain src ws :
  words_of src = Some ws -> length ws = 8%nat -> Forall (fun w => 0 <= w < 65536) ws ->
  (forall j, 0 <= j < 8 -> ~ in_run (best_run ws) j -> encapsulated ws (best_run ws) j = Some false) ->
  written src (pieces (best_run ws) ws 0 ++
    (if decide (base (best_run ws) <> -1 /\ base (best_run ws) + len (best_run ws) = 8) then [COLON] else [])).
Proof.
  intros Hw Hlen Hws Hno. eapply ntop6_end; [done| | |done].
  - pose proof (format_words_pieces 0 src ws [] ws [] (best_run ws) []) as Hf.
    rewrite Nat.add_0_r, Hlen in Hf. apply Hf; [by rewrite app_nil_r|done|simpl; lia|simpl; lia|].
    intros j Hj. apply Hno. simpl in Hj. lia.
  - pose proof (length_pieces (best_run ws) ws 0 Hws). lia.
Qed.

(** An IPv4 address is embedded: [pre] are the first six words. *)
Lemma ntop6_embedded src ws pre w6 w7 a b c d :
  words_of src = Some ws -> ws = pre ++ [w6; w7] -> length pre = 6%nat -> Forall (fun w => 0 <= w < 65536) pre ->
  drop 12 src = [a; b; c; d] -> 0 <= a < 256 -> 0 <= b < 256 -> 0 <= c < 256 -> 0 <= d < 256 ->
  base (best_run ws) = 0 -> (len (best_run ws) = 6 \/ (len (best_run ws) = 5 /\ zget ws 5 = Some 65535)) ->
  (length (pieces (best_run ws) pre 0) <= 6)%nat ->
  written src (pieces (best_run ws) pre 0 ++ [COLON] ++ dotted a b c d).
Proof.
  intros Hw Hws Hpre Hok Hsrc Ha Hb Hc Hd Hbase Hlen Hpl.
  pose proof (length_dotted a b c d Ha Hb Hc Hd) as Hdl.
  assert (length ws = 8%nat) as H8 by (rewrite Hws, length_app, Hpre; done).
  rewrite <-(app_nil_r (_ ++ [COLON] ++ _)). apply (ntop6_end src ws); [done| | |].
  - pose proof (format_words_pieces 2 src ws [] pre [w6; w7] (best_run ws) []) as Hf.
    rewrite Hpre in Hf. etrans; [apply Hf; [done|done|simpl; lia|simpl; lia|]|].
    { intros j Hj _. apply encapsulated_false; [done|]. intros [-> _]. simpl in Hj. lia. }
    cbn [length app Nat.add]. change (Z.of_nat 6) with 6. change (Z.of_nat 0) with 0. cbn [format_words].
    rewrite decide_False by (intros (_ & _ & Hr); lia). rewrite (decide_True (P := 6 <> 0)) by lia.
    unfold put. rewrite decide_True, bind_some by lia.
    assert (encapsulated ws (best_run ws) 6 = Some true) as ->.
    { unfold encapsulated. destruct (zget_is_Some ws 7) as [x7 ->]; [lia|].
      destruct (zget_is_Some ws 5) as [x5 H5]; [lia|]. rewrite H5 in *. rewrite !bind_some. f_equal.
      apply bool_decide_eq_true. split_and!; [done..|]. destruct Hlen as [?|[? ?]]; [by left|]. right; right.
      by simplify_eq. }
    rewrite bind_some. cbv iota. unfold inet_ntop4. rewrite Hsrc.
    change (zget [a; b; c; d] 0) with (Some a). change (zget [a; b; c; d] 1) with (Some b).
    change (zget [a; b; c; d] 2) with (Some c). change (zget [a; b; c; d] 3) with (Some d).
    rewrite !bind_some. cbv zeta. rewrite decide_False by (rewrite length_app; simpl; lia).
    rewrite bind_some, <-app_assoc. done.
  - rewrite !length_app. simpl. lia.
  - rewrite decide_False; [done|]. intros [_ Hx]. lia.
Qed.

(** The text of every address, and what reading it gives. *)
Lemma ntop6_split src ws left zeros right stack :
  words_of src = Some ws -> length ws = 8%nat -> Forall (fun w => 0 <= w < 65536) ws -> word_bytes ws = src ->
  ws = left ++ zeros ++ right -> base (best_run ws) = Z.of_nat (length left) ->
  len (best_run ws) = Z.of_nat (length zeros) -> (2 <= length zeros)%nat -> zeros = replicate (length zeros) 0 ->
  (forall j, 0 <= j < 8 -> ~ in_run (best_run ws) j -> encapsulated ws (best_run ws) j = Some false) ->
  exists text, written src text /\ inet_pton6 (text ++ 0 :: junk) stack = Some (Some src).
Proof.
  intros Hw H8 Hws Hsrc Hsplit Hb Hl H2 Hz Hno. exists (split_text left right).
  assert (length left + length zeros + length right = 8)%nat as Hsum by (rewrite Hsplit, !length_app in H8; lia).
  split.
  - assert (zeros <> []) by (intros H0; rewrite H0 in H2; simpl in H2; lia).
    rewrite <-(pieces_split (best_run ws) left zeros right) by done.
    rewrite <-Hsplit. pose proof (ntop6_plain src ws Hw H8 Hws Hno) as Hp.
    destruct right as [|w right].
    + rewrite decide_True in Hp by (simpl in Hsum; lia). done.
    + rewrite decide_False in Hp by (simpl in Hsum; lia). done.
  - rewrite Hsplit in Hws. apply Forall_app in Hws as [Hwl Hws]. apply Forall_app in Hws as [_ Hwr].
    rewrite inet_pton6_split by (done || lia). do 2 f_equal.
    rewrite <-Hsrc, Hsplit, !word_bytes_app, Hz, word_bytes_zeros.
    do 3 f_equal. lia.
Qed.

(** The cut of the words at an embedded IPv4 address. *)
Lemma embedded_words ws best :
  length ws = 8%nat -> zero_run ws 2 8 best -> base best = 0 ->
  (len best = 6 \/ (len best = 5 /\ zget ws 5 = Some 65535)) ->
  exists w5 w6 w7, ws = replicate 5 0 ++ [w5; w6; w7] /\
    ((len best = 6 /\ w5 = 0) \/ (len best = 5 /\ w5 = 65535)).
Proof.
  intros H8 (_ & _ & _ & Hz) Hb Hl.
  assert (forall i : nat, Z.of_nat i < len best -> ws !! i = Some 0) as Hi.
  { intros i Hi. rewrite <-zget_nat. apply Hz. lia. }
  assert (len best = 5 -> ws !! 5%nat = Some 65535) as H5.
  { intros H. destruct Hl as [?|[_ H5]]; [lia|]. by apply zget_Some in H5 as [_ H5]. }
  clear Hz. do 8 (destruct ws as [|? ws]; [done|]). destruct ws; [|done].
  pose proof (Hi 0%nat ltac:(lia)). pose proof (Hi 1%nat ltac:(lia)). pose proof (Hi 2%nat ltac:(lia)).
  pose proof (Hi 3%nat ltac:(lia)). pose proof (Hi 4%nat ltac:(lia)). simplify_eq/=.
  eexists _, _, _. split; [reflexivity|]. destruct Hl as [Hl|[Hl _]]; [left|right]; (split; [done|]).
  - pose proof (Hi 5%nat ltac:(lia)). by simplify_eq/=.
  - specialize (H5 Hl). by simplify_eq/=.
Qed.

Lemma dotted_head a b c d : 0 <= a < 256 -> exists x r, dotted a b c d = x :: r /\ x <> 0.
Proof.
  intros Ha. destruct (fmt_u_spec a Ha) as (x & ds & Hf & Hds & _). apply Forall_cons in Hds as [Hx _].
  destruct (xdigit_xd x) as (_ & Hnz & _); [lia|]. unfold dotted. rewrite Hf, fmap_cons. eexists _, _. done.
Qed.

Lemma ntop6_dotted src ws stack :
  words_of src = Some ws -> length ws = 8%nat -> Forall (fun w => 0 <= w < 65536) ws -> word_bytes ws = src ->
  bytes_ok src -> length stack = 4%nat -> zero_run ws 2 8 (best_run ws) -> base (best_run ws) = 0 ->
  (len (best_run ws) = 6 \/ (len (best_run ws) = 5 /\ zget ws 5 = Some 65535)) ->
  exists text, written src text /\ inet_pton6 (text ++ 0 :: junk) stack = Some (Some src).
Proof.
  intros Hw H8 Hws Hsrc Hok Hst Hrun Hb Hl.
  destruct (embedded_words ws (best_run ws) H8 Hrun Hb Hl) as (w5 & w6 & w7 & Hsplit & Hcase).
  assert (src = word_bytes (replicate 5 0 ++ [w5]) ++ [w6 / 256; w6 mod 256; w7 / 256; w7 mod 256]) as Hbytes
    by (rewrite <-Hsrc, Hsplit; done).
  assert (0 <= w6 / 256 < 256 /\ 0 <= w6 mod 256 < 256 /\ 0 <= w7 / 256 < 256 /\ 0 <= w7 mod 256 < 256)
    as (Ha & Hb' & Hc & Hd).
  { rewrite Hbytes in Hok. apply Forall_app in Hok as [_ Hok]. repeat (apply Forall_cons in Hok as [? Hok]). done. }
  set (text := pieces (best_run ws) (replicate 5 0 ++ [w5]) 0).
  assert (text = [COLON] ++ (if decide (w5 = 0) then [] else COLON :: fmt_x 65535)) as Htext.
  { unfold text. rewrite pieces_app. destruct Hcase as [[H6 ->]|[H5 ->]].
    - rewrite <-pieces_app. rewrite pieces_zeros by (simpl; lia). by rewrite decide_True by done.
    - rewrite pieces_zeros by (simpl; lia). rewrite decide_True by done. rewrite decide_False by done.
      rewrite pieces_right; [done|simpl; lia|]. intros j Hj [_ Hr]. simpl in Hj. lia. }
  exists (text ++ [COLON] ++ dotted (w6 / 256) (w6 mod 256) (w7 / 256) (w7 mod 256)). split.
  - apply (ntop6_embedded src ws _ w6 w7); try done.
    + rewrite Hsplit in Hws. apply Forall_app. apply Forall_app in Hws as [? Hws]. split; [done|].
      apply Forall_cons in Hws as [? _]. by apply Forall_singleton.
    + by rewrite Hbytes.
    + fold text. rewrite Htext. destruct (decide (w5 = 0)); [simpl; lia|].
      rewrite length_app. pose proof (length_fmt_x 65535 ltac:(lia)). simpl length at 1. cbn [length]. lia.
  - rewrite Htext. destruct Hcase as [[_ ->]|[_ ->]].
    + rewrite decide_True by done. rewrite <-!app_assoc. cbn [app]. rewrite inet_pton6_double.
      rewrite finish_dotted by first [done|simpl; lia]. rewrite Hbytes.
      apply (pton6_end_double [] [_; _; _; _]). simpl; lia.
    + rewrite decide_False by done. rewrite <-!app_assoc. cbn [app].
      rewrite inet_pton6_double. destruct (dotted_head (w6 / 256) (w6 mod 256) (w7 / 256) (w7 mod 256) Ha)
        as (c & r & Hdot & Hnz). unfold finish. rewrite Hdot at 1. cbn [app].
      rewrite pton6_group by first [done|simpl; lia].
      change (c :: r ++ 0 :: junk) with ((c :: r) ++ 0 :: junk). rewrite <-Hdot.
      pose proof (finish_dotted (w6 / 256) (w6 mod 256) (w7 / 256) (w7 mod 256) stack ([] ++ [255; 255]) (Some 0))
        as Hfin. unfold finish in Hfin. etrans; [apply Hfin; first [done|simpl; lia]|].
      rewrite Hbytes. apply (pton6_end_double [] [_; _; _; _; _; _]). simpl; lia.
Qed.

(** Every address has a text, which reads back as the address. *)
Lemma inet_ntop6_text src stack :
  length src = 16%nat -> bytes_ok src -> length stack = 4%nat ->
  exists text, written src text /\ inet_pton6 (text ++ 0 :: junk) stack = Some (Some src).
Proof.
  intros Hlen Hok Hst. destruct (words_of_spec src Hlen Hok) as (ws & Hw & H8 & Hws & Hsrc).
  pose proof (best_run_ok ws) as Hrun. rewrite H8 in Hrun. change (Z.of_nat 8) with 8 in Hrun.
  destruct Hrun as [Hnone|Hrun].
  - exists (join ws). split; [|by rewrite inet_pton6_full, Hsrc].
    pose proof (ntop6_plain src ws Hw H8 Hws) as Hp. rewrite decide_False in Hp by lia.
    rewrite app_nil_r, pieces_left in Hp by (intros j _ [? _]; lia). apply Hp.
    intros j _ _. apply encapsulated_false; [done|]. intros (_ & H0 & _). lia.
  - destruct (decide (base (best_run ws) = 0 /\
      (len (best_run ws) = 6 \/ (len (best_run ws) = 5 /\ zget ws 5 = Some 65535)))) as [[Hb He]|Hne].
    + by apply (ntop6_dotted src ws).
    + destruct (run_split ws (best_run ws)) as (left & zeros & right & Heq & Hb & Hl & H2 & Hz).
      { rewrite H8. done. }
      apply (ntop6_split src ws left zeros right); try done.
      intros j Hj Hout. apply encapsulated_false; [done|]. intros (-> & H0 & Hc).
      destruct Hc as [Hc|[Hc|Hc]]; [naive_solver|apply Hout; split_and!; lia|naive_solver].
Qed.

End reading.

(** ** Properties *)

Lemma strlcpy_fits text size :
  Z.of_nat (length text) + 1 <= size ->
  strlcpy text size = text ++ 0 :: replicate (Z.to_nat size - S (length text)) 0.
Proof.
  intros Hs. unfold strlcpy. rewrite take_ge by lia. f_equal.
  by replace (Z.to_nat size - length text)%nat with (S (Z.to_nat size - S (length text))) by lia.
Qed.

Lemma inet_ntop4_dotted a b c d size :
  inet_ntop AF_INET [a; b; c; d] size
  = Some (if decide (size <= Z.of_nat (length (dotted a b c d))) then (false, replicate (Z.to_nat size) 0)
          else (true, strlcpy (dotted a b c d) size)).
Proof.
  unfold inet_ntop. rewrite decide_True by done. unfold inet_ntop4. cbn [zget]. cbv zeta.
  change (zget [a; b; c; d] 0) with (Some a). change (zget [a; b; c; d] 1) with (Some b).
  change (zget [a; b; c; d] 2) with (Some c). change (zget [a; b; c; d] 3) with (Some d). rewrite !bind_some.
  assert (0 < length (dotted a b c d))%nat by (unfold dotted; rewrite !length_app; simpl; lia).
  destruct (decide (_ \/ _)) as [[?|Hs]|Hs]; [lia|by rewrite decide_True by done|].
  rewrite decide_False by (intros Hle; apply Hs; by right). done.
Qed.

Lemma until_nul (s t : list Z) x y : s ++ 0 :: x = t ++ 0 :: y -> 0 ∉ t -> (length s <= length t)%nat -> t = s.
Proof.
  revert t. induction s as [|c s IH]; intros [|d t] Heq Hnz Hlen; simpl in *; try done; [|lia|].
  - injection Heq as <- _. exfalso. apply Hnz. left.
  - injection Heq as <- Heq. f_equal. apply IH; [done| |lia]. intros ?. apply Hnz. by right.
Qed.

(** Reading an IPv4 address, whatever follows the string in memory and whatever
    the stack held, is never a fault, and succeeds with an address exactly when the
    string is the text [inet_ntop] writes for the address: the reader accepts one
    spelling of each address and rejects signs, spaces, leading zeros, octets above
    255 and any other number of parts. *)
Theorem inet_pton_dotted_exact (t junk stack : list Z) :
  length stack = 4%nat -> 0 ∉ t ->
  exists result bytes, inet_pton AF_INET (t ++ 0 :: junk) stack = Some (result, bytes) /\ (result = 0 \/ result = 1) /\
    forall src, result = 1 /\ bytes = src <->
      length src = 4%nat /\ bytes_ok src /\
      inet_ntop AF_INET src (Z.of_nat (length t) + 1) = Some (true, t ++ [0]).
Proof.
  intros Hs Hnz. unfold inet_pton. rewrite decide_True by done.
  assert (forall a b c d, t = dotted a b c d <->
    inet_ntop AF_INET [a; b; c; d] (Z.of_nat (length t) + 1) = Some (true, t ++ [0])) as Htext.
  { intros a b c d. rewrite inet_ntop4_dotted. split.
    - intros ->. rewrite decide_False, strlcpy_fits by lia. do 3 f_equal. f_equal. by rewrite (proj2 (Nat.sub_0_le _ _)) by lia.
    - case_decide as Hle; [done|]. rewrite strlcpy_fits by lia. intros [= Heq].
      apply (until_nul _ _ _ _ Heq Hnz). lia. }
  destruct (inet_pton4_reads t junk stack Hs Hnz) as [[-> Hno]|(a & b & c & d & -> & Hok & Ht)].
  - exists 0, []. split_and!; [done|by left|]. intros src. split; [by intros [? _]|].
    intros (Hlen & Hok & Hn). destruct src as [|a [|b [|c [|d [|]]]]]; try done. exfalso. by apply (Hno a b c d), Htext.
  - exists 1, [a; b; c; d]. split_and!; [done|by right|]. intros src. split.
    + intros [_ <-]. split_and!; [done|done|by apply Htext].
    + intros (Hlen & Hok' & Hn). split; [done|]. destruct src as [|a' [|b' [|c' [|d' [|]]]]]; try done.
      apply Htext in Hn. repeat (apply Forall_cons in Hok as [? Hok]). repeat (apply Forall_cons in Hok' as [? Hok']).
      pose proof (inet_pton4_dotted a b c d junk stack Hs ltac:(done) ltac:(done) ltac:(done) ltac:(done)) as H1'.
      rewrite <-Ht, Hn, inet_pton4_dotted in H1' by done. by injection H1' as -> -> -> ->.
Qed.

Lemma inet_pton_dotted_exact_witness :
  exists result bytes, inet_pton AF_INET (bytes_of_string "10.0.2.15" ++ [0]) [7; 7; 7; 7] = Some (result, bytes) /\
    (result = 0 \/ result = 1) /\
    forall src, result = 1 /\ bytes = src <->
      length src = 4%nat /\ bytes_ok src /\
      inet_ntop AF_INET src (Z.of_nat (length (bytes_of_string "10.0.2.15")) + 1)
      = Some (true, bytes_of_string "10.0.2.15" ++ [0]).
Proof.
  apply (inet_pton_dotted_exact (bytes_of_string "10.0.2.15") [] [7; 7; 7; 7]); [done|].
  apply (bool_decide_unpack _). vm_compute. exact I.
Defined.

(** C21. Every IPv6 address is written to any buffer long enough for its text, at most
    46 bytes with the NUL, and the text reads back as the address, whatever the
    stack held; a shorter buffer is refused and left zero.  This covers the
    abbreviation of the longest run of zero groups at every place, and the
    IPv4-compatible and IPv4-mapped addresses whose tail is a dotted quad. *)
Theorem inet6_roundtrip (src stack : list Z) :
  length src = 16%nat -> bytes_ok src -> length stack = 4%nat ->
  exists n, 0 < n <= 46 /\ forall size, 0 <= size ->
    if decide (size < n) then inet_ntop AF_INET6 src size = Some (false, replicate (Z.to_nat size) 0)
    else exists dst, inet_ntop AF_INET6 src size = Some (true, dst) /\ length dst = Z.to_nat size /\
           inet_pton AF_INET6 dst stack = Some (1, src).
Proof.
  intros Hlen Hok Hst. destruct (inet_ntop6_text [] src stack Hlen Hok Hst) as (text & [Hmax Hw] & _).
  exists (Z.of_nat (length text) + 1). split; [lia|]. intros size Hsize. unfold inet_ntop, inet_pton.
  rewrite !(decide_False (P := AF_INET6 = AF_INET)), !(decide_True (P := AF_INET6 = AF_INET6)) by done.
  rewrite Hw. case_decide as Hfit; [done|]. exists (strlcpy text size). split_and!; [done| |].
  - rewrite strlcpy_fits, length_app by lia. cbn [length]. rewrite length_replicate. lia.
  - rewrite strlcpy_fits by lia.
    destruct (inet_ntop6_text (replicate (Z.to_nat size - S (length text)) 0) src stack Hlen Hok Hst)
      as (text' & [Hmax' Hw'] & Hr).
    specialize (Hw' 46). rewrite Hw, !decide_False in Hw' by lia. injection Hw' as <-. by rewrite Hr.
Qed.

Lemma inet6_roundtrip_witness :
  exists n, 0 < n <= 46 /\ forall size, 0 <= size ->
    let src := [254; 128; 0; 0; 0; 0; 0; 0; 0; 0; 0; 0; 10; 0; 0; 1] in
    if decide (size < n) then inet_ntop AF_INET6 src size = Some (false, replicate (Z.to_nat size) 0)
    else exists dst, inet_ntop AF_INET6 src size = Some (true, dst) /\ length dst = Z.to_nat size /\
           inet_pton AF_INET6 dst [7; 7; 7; 7] = Some (1, src).
Proof.
  apply (inet6_roundtrip [254; 128; 0; 0; 0; 0; 0; 0; 0; 0; 0; 0; 10; 0; 0; 1] [7; 7; 7; 7]); [done| |done].
  repeat constructor; done.
Defined.

