(* ===== verification/StrTo.v ===== *)
(** * Numbers from text

    [iokit/Kernel/IOStringFuncs.c]: [strtol], [strtoul], [strtoq] and [strtouq],
    which read a number in a base of 2 to 36, or of the base that a prefix selects.
    A string is the object [nptr] points to; a read past its end is [None].  The
    four functions are shown to compute the number the digits stand for, limited to
    the range of their type, and to stop where the number stops. *)
From S2P Require Import Prelude.

Local Open Scope Z_scope.

(** ** Character classes *)

Definition isupper (c : Z) : bool := bool_decide (65 <= c <= 90).
Definition isalpha (c : Z) : bool := bool_decide (65 <= c <= 90 \/ 97 <= c <= 122).
Definition isspace (c : Z) : bool := bool_decide (c = 32 \/ c = 9 \/ c = 10).
Definition isdigit (c : Z) : bool := bool_decide (48 <= c <= 57).

(** ** The parts the four functions share *)

Abbreviation LONG_MIN := (- 2 ^ 63)%Z.
Abbreviation LONG_MAX := (2 ^ 63 - 1)%Z.
Abbreviation ULONG_MAX := (2 ^ 64 - 1)%Z.

(** Conversions to [int] and to [long]. *)
Definition s32 (x : Z) : Z := if decide (u32 x < 2 ^ 31) then u32 x else u32 x - 2 ^ 32.
Definition s64 (x : Z) : Z := if decide (u64 x < 2 ^ 63) then u64 x else u64 x - 2 ^ 64.

(** [c = *s++]. *)
Definition fetch (s : list Z) : option (Z * list Z) :=
  match s with [] => None | c :: s => Some (c, s) end.

Fixpoint skip_space (s : list Z) : option (Z * list Z) :=
  match s with
  | [] => None
  | c :: s => if isspace c then skip_space s else Some (c, s)
  end.

(** [neg], and the character after the sign. *)
Definition take_sign (c : Z) (s : list Z) : option (bool * Z * list Z) :=
  if decide (c = 45) then '(c, s) ← fetch s; Some (true, c, s)
  else if decide (c = 43) then '(c, s) ← fetch s; Some (false, c, s)
  else Some (false, c, s).

(** Whether [c] and [s] start with the prefix of [radix], spelled with [l] or [u]. *)
Definition has_prefix (radix l u base c : Z) (s : list Z) : option bool :=
  if decide ((base = 0 \/ base = radix) /\ c = 48) then
    x ← zget s 0; Some (bool_decide (x = l \/ x = u))
  else Some false.

(** [c = s[1]; s += 2]. *)
Definition after_prefix (s : list Z) : option (Z * list Z) := c ← zget s 1; Some (c, drop 2 s).

Definition default_base (c base : Z) : Z := if decide (base = 0) then (if decide (c = 48) then 8 else 10) else base.

(** The prefixes of [strtol] and [strtoul]. *)
Definition take_prefix (base c : Z) (s : list Z) : option (Z * list Z * Z) :=
  hex ← has_prefix 16 120 88 base c s;
  if (hex : bool) then '(c, s) ← after_prefix s; Some (c, s, 16) else
  bin ← has_prefix 2 98 66 base c s;
  if (bin : bool) then '(c, s) ← after_prefix s; Some (c, s, 2) else
  Some (c, s, default_base c base).

(** The prefix of [strtoq] and [strtouq]. *)
Definition take_qprefix (base c : Z) (s : list Z) : option (Z * list Z * Z) :=
  hex ← has_prefix 16 120 88 base c s;
  if (hex : bool) then '(c, s) ← after_prefix s; Some (c, s, 16) else
  Some (c, s, default_base c base).

Definition digit (c : Z) : option Z :=
  if isdigit c then Some (c - 48)
  else if isalpha c then Some (c - (if isupper c then 65 - 10 else 97 - 10))
  else None.

(** The loop over the digits; [qbase] is the base as the type of [acc].  The result
    is [acc], [any] and the string after [s]. *)
Fixpoint strto_loop (base qbase cutoff cutlim : Z) (s : list Z) (c acc any : Z) : option (Z * Z * list Z) :=
  let next acc any :=
    match s with [] => None | c :: s => strto_loop base qbase cutoff cutlim s c acc any end in
  match digit c with
  | None => Some (acc, any, s)
  | Some d =>
      if decide (base <= d) then Some (acc, any, s) else
      if decide (any < 0 \/ cutoff < acc \/ (acc = cutoff /\ cutlim < d)) then next acc (-1)
      else next (u64 (acc * qbase + d)) 1
  end.

(** [*endptr] as an offset from [nptr]. *)
Definition end_offset (nptr s : list Z) (any : Z) : Z :=
  if decide (any = 0) then 0 else Z.of_nat (length nptr) - Z.of_nat (length s) - 1.

(** ** The functions *)

Definition strtol (nptr : list Z) (base : Z) : option (Z * Z) :=
  '(c, s) ← skip_space nptr;
  '(neg, c, s) ← take_sign c s;
  '(c, s, base) ← take_prefix base c s;
  let cutoff := if (neg : bool) then u64 (- u64 LONG_MIN) else LONG_MAX in
  let cutlim := s32 (cutoff mod u64 base) in
  '(acc, any, s) ← strto_loop base (u64 base) (cutoff / u64 base) cutlim s c 0 0;
  let acc := if decide (any < 0) then u64 (if neg then LONG_MIN else LONG_MAX)
             else if neg then u64 (- acc) else acc in
  Some (s64 acc, end_offset nptr s any).

Definition strtoul (nptr : list Z) (base : Z) : option (Z * Z) :=
  '(c, s) ← skip_space nptr;
  '(neg, c, s) ← take_sign c s;
  '(c, s, base) ← take_prefix base c s;
  let cutlim := s32 (ULONG_MAX mod u64 base) in
  '(acc, any, s) ← strto_loop base (u64 base) (ULONG_MAX / u64 base) cutlim s c 0 0;
  let acc := if decide (any < 0) then ULONG_MAX else if (neg : bool) then u64 (- acc) else acc in
  Some (acc, end_offset nptr s any).

Definition strtoq (nptr : list Z) (base : Z) : option (Z * Z) :=
  '(c, s) ← skip_space nptr;
  '(neg, c, s) ← take_sign c s;
  '(c, s, base) ← take_qprefix base c s;
  let qbase := u32 base in
  let cutoff := if (neg : bool) then u64 (- u64 LONG_MIN) else LONG_MAX in
  let cutlim := s32 (cutoff mod qbase) in
  '(acc, any, s) ← strto_loop base qbase (cutoff / qbase) cutlim s c 0 0;
  let acc := if decide (any < 0) then u64 (if neg then LONG_MIN else LONG_MAX)
             else if neg then u64 (- acc) else acc in
  Some (s64 acc, end_offset nptr s any).

Definition strtouq (nptr : list Z) (base : Z) : option (Z * Z) :=
  '(c, s) ← skip_space nptr;
  '(neg, c, s) ← take_sign c s;
  '(c, s, base) ← take_qprefix base c s;
  let qbase := u32 base in
  let cutlim := s32 (ULONG_MAX mod qbase) in
  '(acc, any, s) ← strto_loop base qbase (ULONG_MAX / qbase) cutlim s c 0 0;
  let acc := if decide (any < 0) then ULONG_MAX else if (neg : bool) then u64 (- acc) else acc in
  Some (acc, end_offset nptr s any).

(** ** The text of a number *)

(** A digit of the base, and a character that ends the digits. *)
Definition is_digit (base c : Z) : Prop := exists d, digit c = Some d /\ d < base.
Definition stops (base c : Z) : Prop := forall d, digit c = Some d -> base <= d.

(** The number the characters stand for, after [v]. *)
Definition value (base v : Z) (ds : list Z) : Z := foldl (fun v c => v * base + default 0 (digit c)) v ds.

(** A prefix and the base it stands for; [bin] is whether there is a prefix of base
    2.  Without a prefix the text must not be taken for one. *)
Definition selects (bin : bool) (base : Z) (prefix text : list Z) (radix : Z) : Prop :=
  (radix = 16 /\ (base = 0 \/ base = 16) /\ (prefix = [48; 120] \/ prefix = [48; 88])) \/
  (bin = true /\ radix = 2 /\ (base = 0 \/ base = 2) /\ (prefix = [48; 98] \/ prefix = [48; 66])) \/
  (prefix = [] /\ radix = default_base (default 0 (head text)) base /\
   ((base = 0 \/ base = 16) -> take 2 text <> [48; 120] /\ take 2 text <> [48; 88]) /\
   (bin = true -> (base = 0 \/ base = 2) -> take 2 text <> [48; 98] /\ take 2 text <> [48; 66])).

(** ** The loop *)

Lemma digit_range c d : digit c = Some d -> 0 <= d < 36.
Proof.
  unfold digit, isdigit, isalpha, isupper. repeat case_bool_decide; intros [= <-]; lia.
Qed.

(** [acc] and [any] when digits of the value [v] were read and [max] is the limit. *)
Definition saturated (max v acc any : Z) : Prop :=
  (any = -1 /\ max < v) \/ (any = 1 /\ v <= max /\ acc = v).

Lemma value_mono base v ds : 1 <= base -> 0 <= v -> Forall (is_digit base) ds -> v <= value base v ds.
Proof.
  intros Hb Hv Hds. revert v Hv. induction Hds as [|c ds (d & Hd & _) _ IH]; intros v Hv; [simpl; lia|].
  change (value base v (c :: ds)) with (value base (v * base + default 0 (digit c)) ds). rewrite Hd. change (default 0 (Some d)) with d.
  apply digit_range in Hd. etrans; [|apply IH]; nia.
Qed.

Lemma cutoff_exact base max acc d :
  2 <= base -> 0 <= max -> 0 <= acc -> 0 <= d < base ->
  (max / base < acc \/ (acc = max / base /\ max mod base < d)) <-> max < acc * base + d.
Proof.
  intros Hb Hm Ha Hd. pose proof (Z.div_mod max base ltac:(lia)). pose proof (Z.mod_pos_bound max base ltac:(lia)).
  split; [nia|]. intros Hlt. destruct (decide (max / base < acc)); [by left|right]. nia.
Qed.

Lemma strto_loop_stop base qbase cutoff cutlim s c acc any :
  stops base c -> strto_loop base qbase cutoff cutlim s c acc any = Some (acc, any, s).
Proof.
  intros Hst. destruct s; cbn [strto_loop]; (destruct (digit c) as [d|] eqn:Hd; [|done]);
    by rewrite decide_True by (by apply Hst).
Qed.

(** One digit. *)
Lemma strto_loop_digit base max s c c' v acc any :
  2 <= base -> 0 <= max < 2 ^ 64 -> is_digit base c -> 0 <= v -> (any = 0 /\ acc = 0 /\ v = 0) \/ saturated max v acc any ->
  exists acc' any', saturated max (v * base + default 0 (digit c)) acc' any' /\
    strto_loop base base (max / base) (max mod base) (c' :: s) c acc any
    = strto_loop base base (max / base) (max mod base) s c' acc' any'.
Proof.
  intros Hb Hm (d & Hd & Hlt) Hv Hst. cbn [strto_loop]. rewrite Hd. change (default 0 (Some d)) with d. rewrite decide_False by lia.
  apply digit_range in Hd as Hd'. destruct (decide (any < 0)) as [Hneg|Hpos].
  - rewrite decide_True by tauto. exists acc, (-1). split; [|done]. left. unfold saturated in Hst. split; [done|nia].
  - assert (acc = v /\ v <= max) as [-> Hle] by (unfold saturated in Hst; lia).
    pose proof (cutoff_exact base max v d Hb ltac:(lia) Hv ltac:(lia)) as Hcut.
    destruct (decide (any < 0 \/ _)) as [Hover|Hfit].
    + exists v, (-1). split; [left; split; [done|]|done]. apply Hcut. tauto.
    + exists (u64 (v * base + d)), 1. split; [|done]. right.
      assert (v * base + d <= max) by (apply Z.nlt_ge; intros ?; apply Hfit; right; by apply Hcut).
      rewrite wrap_small by (unfold in_word; nia). done.
Qed.

(** All the digits, up to the character that stops them. *)
Lemma strto_loop_digits base max c ds stop rest v acc any :
  2 <= base -> 0 <= max < 2 ^ 64 -> Forall (is_digit base) (c :: ds) -> stops base stop -> 0 <= v ->
  (any = 0 /\ acc = 0 /\ v = 0) \/ saturated max v acc any ->
  exists acc' any', saturated max (value base v (c :: ds)) acc' any' /\
    strto_loop base base (max / base) (max mod base) (ds ++ stop :: rest) c acc any = Some (acc', any', rest).
Proof.
  intros Hb Hm. revert c v acc any. induction ds as [|c' ds IH]; intros c v acc any Hds Hstop Hv Hst;
    apply Forall_cons in Hds as [Hc Hds].
  - destruct (strto_loop_digit base max rest c stop v acc any Hb Hm Hc Hv Hst) as (acc' & any' & Hs & Heq).
    exists acc', any'. split; [done|]. cbn [app]. rewrite Heq. by apply strto_loop_stop.
  - destruct (strto_loop_digit base max (ds ++ stop :: rest) c c' v acc any Hb Hm Hc Hv Hst)
      as (acc' & any' & Hs & Heq).
    destruct (IH c' (v * base + default 0 (digit c)) acc' any') as (acc2 & any2 & Hs2 & Heq2); try done.
    + destruct Hc as (d & Hd & _). rewrite Hd. change (default 0 (Some d)) with d. apply digit_range in Hd. nia.
    + by right.
    + exists acc2, any2. split; [done|]. cbn [app]. by rewrite Heq, Heq2.
Qed.

(** ** Before the digits *)

Lemma digit_plain base c : is_digit base c -> isspace c = false /\ c <> 45 /\ c <> 43.
Proof.
  intros (d & Hd & _). unfold digit, isdigit, isalpha, isupper in Hd. unfold isspace.
  repeat case_bool_decide; simplify_eq; lia.
Qed.

Lemma skip_space_app sp c s : forallb isspace sp = true -> isspace c = false -> skip_space (sp ++ c :: s) = Some (c, s).
Proof.
  intros Hsp Hc. induction sp as [|x sp IH]; cbn [app skip_space forallb] in *; [by rewrite Hc|].
  apply andb_prop in Hsp as [-> Hsp]. by apply IH.
Qed.

Lemma sign_skipped sp sign c s {A} (k : bool * Z * list Z -> option A) :
  forallb isspace sp = true -> In sign [[]; [43]; [45]] -> isspace c = false -> c <> 45 -> c <> 43 ->
  ('(c, s) ← skip_space (sp ++ sign ++ c :: s); r ← take_sign c s; k r) = k (bool_decide (sign = [45]), c, s).
Proof.
  intros Hsp Hsign Hc Hm Hp. destruct Hsign as [<-|[<-|[<-|[]]]]; cbn [app].
  - rewrite skip_space_app by done. rewrite bind_some. unfold take_sign. by rewrite !decide_False by done.
  - rewrite skip_space_app by done. rewrite bind_some. reflexivity.
  - rewrite skip_space_app by done. rewrite bind_some. reflexivity.
Qed.

Lemma no_prefix radix l u base c s :
  ((base = 0 \/ base = radix) -> take 2 (c :: s) <> [48; l] /\ take 2 (c :: s) <> [48; u]) -> s <> [] ->
  has_prefix radix l u base c s = Some false.
Proof.
  intros Hno Hs. unfold has_prefix. destruct (decide _) as [[Hb ->]|]; [|done]. destruct s as [|x s]; [done|].
  change (zget (x :: s) 0) with (Some x). rewrite bind_some. f_equal. apply bool_decide_eq_false.
  destruct (Hno Hb) as [Hl Hu]. intros [-> | ->]; [by apply Hl|by apply Hu].
Qed.

Lemma with_prefix radix l u base x s :
  base = 0 \/ base = radix -> x = l \/ x = u -> has_prefix radix l u base 48 (x :: s) = Some true.
Proof.
  intros Hb Hx. unfold has_prefix. rewrite decide_True by done. change (zget (x :: s) 0) with (Some x).
  by rewrite bind_some, bool_decide_true.
Qed.

Lemma take_prefix_selects base prefix c s radix x y :
  selects true base prefix (c :: s) radix -> s <> [] -> prefix ++ c :: s = x :: y ->
  take_prefix base x y = Some (c, s, radix).
Proof.
  intros Hsel Hs Heq. unfold take_prefix.
  destruct Hsel as [(-> & Hb & Hp)|[(_ & -> & Hb & Hp)|(-> & -> & H16 & H2)]].
  - destruct Hp as [-> | ->]; injection Heq as <- <-; (rewrite (with_prefix 16) by first [done|by left|by right]); reflexivity.
  - rewrite (no_prefix 16) by (destruct Hp as [-> | ->]; injection Heq as <- <-; done). rewrite bind_some.
    destruct Hp as [-> | ->]; injection Heq as <- <-; (rewrite (with_prefix 2) by first [done|by left|by right]); reflexivity.
  - injection Heq as <- <-. rewrite (no_prefix 16), bind_some by done.
    rewrite (no_prefix 2), bind_some by first [done|by apply H2]. reflexivity.
Qed.

Lemma take_qprefix_selects base prefix c s radix x y :
  selects false base prefix (c :: s) radix -> s <> [] -> prefix ++ c :: s = x :: y ->
  take_qprefix base x y = Some (c, s, radix).
Proof.
  intros Hsel Hs Heq. unfold take_qprefix.
  destruct Hsel as [(-> & Hb & Hp)|[[? _]|(-> & -> & H16 & _)]]; [|done|].
  - destruct Hp as [-> | ->]; injection Heq as <- <-; (rewrite (with_prefix 16) by first [done|by left|by right]); reflexivity.
  - injection Heq as <- <-. by rewrite no_prefix by done.
Qed.

(** The first character of the prefix and the digits. *)
Lemma selects_head bin base prefix c s radix :
  selects bin base prefix (c :: s) radix -> is_digit radix c ->
  exists x y, prefix ++ c :: s = x :: y /\ isspace x = false /\ x <> 45 /\ x <> 43.
Proof.
  intros Hsel Hc.
  destruct Hsel as [(_ & _ & [-> | ->])|[(_ & _ & _ & [-> | ->])|(-> & _)]]; [by eexists _, _..|].
  exists c, s. destruct (digit_plain _ _ Hc) as (? & ? & ?). done.
Qed.

Lemma selects_radix bin base prefix text radix :
  base = 0 \/ 2 <= base <= 36 -> selects bin base prefix text radix -> 2 <= radix <= 36.
Proof.
  intros Hb [(-> & _)|[(_ & -> & _)|(_ & -> & _)]]; [lia..|]. unfold default_base. repeat case_decide; lia.
Qed.

(** ** The whole functions *)

Lemma s64_small x : - 2 ^ 63 <= x < 2 ^ 63 -> s64 (u64 x) = x.
Proof.
  intros Hx. unfold s64. rewrite wrap_wrap. unfold wrap. destruct (decide (0 <= x)) as [Hp|Hn].
  - rewrite Z.mod_small by lia. by rewrite decide_True by lia.
  - replace (x mod 2 ^ 64) with (x + 2 ^ 64); [rewrite decide_False by lia; lia|].
    rewrite <-(Z.mod_add x 1) by lia. rewrite Z.mod_small; lia.
Qed.

Section text.
Context (sp sign prefix ds rest : list Z) (c stop base radix : Z).
Hypothesis Hsp : forallb isspace sp = true.
Hypothesis Hsign : In sign [[]; [43]; [45]].
Hypothesis Hbase : base = 0 \/ 2 <= base <= 36.
Hypothesis Hds : Forall (is_digit radix) (c :: ds).
Hypothesis Hstop : stops radix stop.

Let text : list Z := sp ++ sign ++ prefix ++ c :: ds ++ stop :: rest.
Let neg : bool := bool_decide (sign = [45]).
Let stop_offset : Z := Z.of_nat (length (sp ++ sign ++ prefix ++ c :: ds)).

Lemma scan_long {A} (k : bool -> Z -> list Z -> Z -> option A) :
  selects true base prefix (c :: ds ++ stop :: rest) radix ->
  ('(c, s) ← skip_space text; '(neg, c, s) ← take_sign c s; '(c, s, base) ← take_prefix base c s; k neg c s base)
  = k neg c (ds ++ stop :: rest) radix.
Proof.
  intros Hsel. destruct (selects_head _ _ _ _ _ _ Hsel (Forall_inv Hds)) as (x & y & Heq & Hx1 & Hx2 & Hx3).
  unfold text. rewrite Heq, (sign_skipped sp sign x y) by done.
  rewrite (take_prefix_selects _ _ _ _ _ _ _ Hsel) by (done || by destruct ds). done.
Qed.

Lemma scan_quad {A} (k : bool -> Z -> list Z -> Z -> option A) :
  selects false base prefix (c :: ds ++ stop :: rest) radix ->
  ('(c, s) ← skip_space text; '(neg, c, s) ← take_sign c s; '(c, s, base) ← take_qprefix base c s; k neg c s base)
  = k neg c (ds ++ stop :: rest) radix.
Proof.
  intros Hsel. destruct (selects_head _ _ _ _ _ _ Hsel (Forall_inv Hds)) as (x & y & Heq & Hx1 & Hx2 & Hx3).
  unfold text. rewrite Heq, (sign_skipped sp sign x y) by done.
  rewrite (take_qprefix_selects _ _ _ _ _ _ _ Hsel) by (done || by destruct ds). done.
Qed.

Lemma end_offset_text any : any <> 0 -> end_offset text rest any = stop_offset.
Proof.
  intros Hany. unfold end_offset, text, stop_offset. rewrite decide_False by done.
  rewrite !length_app. cbn [length]. rewrite length_app. cbn [length]. lia.
Qed.

(** The loop with the limits of the type. *)
Lemma loop_text max :
  2 <= radix <= 36 -> 0 <= max < 2 ^ 64 ->
  exists acc any, saturated max (value radix 0 (c :: ds)) acc any /\ any <> 0 /\
    strto_loop radix radix (max / radix) (s32 (max mod radix)) (ds ++ stop :: rest) c 0 0 = Some (acc, any, rest).
Proof.
  intros Hr Hm. destruct (strto_loop_digits radix max c ds stop rest 0 0 0) as (acc & any & Hs & Heq);
    [lia|done|done|done|lia|by left|].
  exists acc, any. split_and!; [done|unfold saturated in Hs; lia|]. rewrite <-Heq. f_equal.
  pose proof (Z.mod_pos_bound max radix ltac:(lia)). unfold s32.
  rewrite wrap_small by (unfold in_word; lia). by rewrite decide_True by lia.
Qed.

Let v : Z := value radix 0 (c :: ds).

(** The results of the signed and of the unsigned functions. *)
Definition limited : Z := Z.max LONG_MIN (Z.min LONG_MAX (if neg then - v else v)).
Definition limited_u : Z := if decide (v <= ULONG_MAX) then u64 (if neg then - v else v) else ULONG_MAX.

Lemma limited_u_saturated acc any :
  saturated ULONG_MAX v acc any -> 0 <= v ->
  (if decide (any < 0) then ULONG_MAX else if neg then u64 (- acc) else acc) = limited_u.
Proof.
  unfold saturated, limited_u. intros [[-> Hv]|(-> & Hv & ->)] H0.
  - by rewrite decide_True, decide_False by lia.
  - rewrite decide_False, decide_True by lia. destruct neg; [done|]. by rewrite wrap_small by (unfold in_word; lia).
Qed.

Lemma limited_saturated acc any :
  saturated (if neg then u64 (- u64 LONG_MIN) else LONG_MAX) v acc any -> 0 <= v ->
  s64 (if decide (any < 0) then u64 (if neg then LONG_MIN else LONG_MAX)
       else if neg then u64 (- acc) else acc) = limited.
Proof.
  change (u64 (- u64 LONG_MIN)) with (2 ^ 63). unfold saturated, limited.
  intros [[-> Hv]|(-> & Hv & ->)] H0.
  - rewrite decide_True by lia. destruct neg; rewrite s64_small; lia.
  - rewrite decide_False by lia. destruct neg; [rewrite s64_small; lia|].
    rewrite <-(wrap_small 64 v) at 1 by (unfold in_word; lia). rewrite s64_small; lia.
Qed.

Lemma value_text : 2 <= radix <= 36 -> 0 <= v.
Proof. intros Hr. apply value_mono; [lia|lia|done]. Qed.

Lemma strtoul_text :
  selects true base prefix (c :: ds ++ stop :: rest) radix -> strtoul text base = Some (limited_u, stop_offset).
Proof.
  intros Hsel. pose proof (selects_radix _ _ _ _ _ Hbase Hsel) as Hr.
  unfold strtoul. etrans; [apply (scan_long (fun neg c s base => _) Hsel)|]. cbv beta zeta.
  rewrite !(wrap_small 64 radix) by (unfold in_word; lia).
  destruct (loop_text ULONG_MAX Hr) as (acc & any & Hs & Hany & ->); [lia|]. rewrite bind_some.
  by rewrite limited_u_saturated, end_offset_text by auto using value_text.
Qed.

Lemma signed_limit : 0 <= (if neg then u64 (- u64 LONG_MIN) else LONG_MAX) < 2 ^ 64.
Proof. destruct neg; [by change (u64 (- u64 LONG_MIN)) with (2 ^ 63)|done]. Qed.

Lemma strtol_text :
  selects true base prefix (c :: ds ++ stop :: rest) radix -> strtol text base = Some (limited, stop_offset).
Proof.
  intros Hsel. pose proof (selects_radix _ _ _ _ _ Hbase Hsel) as Hr.
  unfold strtol. etrans; [apply (scan_long (fun neg c s base => _) Hsel)|]. cbv beta zeta.
  rewrite !(wrap_small 64 radix) by (unfold in_word; lia).
  destruct (loop_text _ Hr signed_limit) as (acc & any & Hs & Hany & ->). rewrite bind_some.
  by rewrite limited_saturated, end_offset_text by auto using value_text.
Qed.

Lemma strtouq_text :
  selects false base prefix (c :: ds ++ stop :: rest) radix -> strtouq text base = Some (limited_u, stop_offset).
Proof.
  intros Hsel. pose proof (selects_radix _ _ _ _ _ Hbase Hsel) as Hr.
  unfold strtouq. etrans; [apply (scan_quad (fun neg c s base => _) Hsel)|]. cbv beta zeta.
  rewrite !(wrap_small 32 radix) by (unfold in_word; lia).
  destruct (loop_text ULONG_MAX Hr) as (acc & any & Hs & Hany & ->); [lia|]. rewrite bind_some.
  by rewrite limited_u_saturated, end_offset_text by auto using value_text.
Qed.

Lemma strtoq_text :
  selects false base prefix (c :: ds ++ stop :: rest) radix -> strtoq text base = Some (limited, stop_offset).
Proof.
  intros Hsel. pose proof (selects_radix _ _ _ _ _ Hbase Hsel) as Hr.
  unfold strtoq. etrans; [apply (scan_quad (fun neg c s base => _) Hsel)|]. cbv beta zeta.
  rewrite !(wrap_small 32 radix) by (unfold in_word; lia).
  destruct (loop_text _ Hr signed_limit) as (acc & any & Hs & Hany & ->). rewrite bind_some.
  by rewrite limited_saturated, end_offset_text by auto using value_text.
Qed.

End text.

(** ** Strings that end in NUL *)

(** [c] and the rest of the string, where at most [n] characters precede the NUL. *)
Definition before_nul (junk : list Z) (n : nat) (c : Z) (s : list Z) : Prop :=
  exists t, c :: s = t ++ 0 :: junk /\ (length t <= n)%nat.

Lemma before_nul_next junk n c s :
  before_nul junk n c s -> c <> 0 -> exists c' s', s = c' :: s' /\ before_nul junk n c' s'.
Proof.
  intros ([|x t] & Heq & Hlen) Hc; [by injection Heq|]. injection Heq as _ ->. simpl in Hlen.
  destruct t as [|y t]; [exists 0, junk|exists y, (t ++ 0 :: junk)]; (split; [done|]); [exists []|exists (y :: t)];
    (split; [done|simpl in *; lia]).
Qed.

Lemma skip_space_nul junk t : exists c s, skip_space (t ++ 0 :: junk) = Some (c, s) /\ before_nul junk (length t) c s.
Proof.
  induction t as [|x t IH]; cbn [app skip_space].
  - exists 0, junk. split; [done|]. exists []. split; [done|simpl; lia].
  - destruct (isspace x).
    + destruct IH as (c & s & Hs & t' & Ht & Hlen). exists c, s. split; [done|]. exists t'. split; [done|simpl; lia].
    + exists x, (t ++ 0 :: junk). split; [done|]. by exists (x :: t).
Qed.

Lemma take_sign_nul junk n c s :
  before_nul junk n c s -> exists neg c' s', take_sign c s = Some (neg, c', s') /\ before_nul junk n c' s'.
Proof.
  intros Hn. unfold take_sign.
  destruct (decide (c = 45)) as [->|]; [|destruct (decide (c = 43)) as [->|]; [|by exists false, c, s]];
    (destruct (before_nul_next _ _ _ _ Hn) as (c' & s' & -> & Hn'); [done|]); [by exists true, c', s'|by exists false, c', s'].
Qed.

Lemma has_prefix_nul radix l u base junk n c s :
  before_nul junk n c s -> l <> 0 -> u <> 0 ->
  has_prefix radix l u base c s = Some false \/
  has_prefix radix l u base c s = Some true /\ exists c' s', after_prefix s = Some (c', s') /\ before_nul junk n c' s'.
Proof.
  intros Hn Hl Hu. unfold has_prefix. destruct (decide _) as [[_ ->]|]; [|by left].
  destruct (before_nul_next _ _ _ _ Hn) as (x & s' & -> & Hx); [done|].
  change (zget (x :: s') 0) with (Some x). rewrite bind_some.
  case_bool_decide as Hlu; [right|by left]. split; [done|].
  destruct (before_nul_next _ _ _ _ Hx) as (y & s'' & -> & Hy); [naive_solver|]. exists y, s''. done.
Qed.

Lemma strto_loop_nul base qbase cutoff cutlim junk n s c acc any :
  before_nul junk n c s ->
  exists acc' any' c' s', strto_loop base qbase cutoff cutlim s c acc any = Some (acc', any', s') /\ before_nul junk n c' s'.
Proof.
  revert c acc any. induction s as [|x s IH]; intros c acc any Hn.
  - assert (c = 0) as ->. { destruct (decide (c = 0)); [done|]. by destruct (before_nul_next _ _ _ _ Hn) as (? & ? & ? & _). }
    by exists acc, any, 0, [].
  - assert (digit c = None \/ before_nul junk n x s) as Hnext.
    { destruct (decide (c = 0)) as [-> | Hc]; [by left|right].
      by destruct (before_nul_next _ _ _ _ Hn Hc) as (? & ? & [= -> ->] & ?). }
    cbn [strto_loop]. destruct (digit c) as [d|]; [|by exists acc, any, c, (x :: s)].
    destruct Hnext as [?|Hx]; [done|]. destruct (decide (base <= d)); [by exists acc, any, c, (x :: s)|].
    destruct (decide _); by apply IH.
Qed.

Lemma end_offset_nul junk t c s any :
  before_nul junk (length t) c s -> 0 <= end_offset (t ++ 0 :: junk) s any <= Z.of_nat (length t).
Proof.
  intros (t' & Heq & Hlen). unfold end_offset. case_decide; [lia|].
  apply (f_equal length) in Heq. rewrite length_app in Heq |- *. cbn [length] in *. lia.
Qed.

Lemma take_prefix_nul junk n base c s :
  before_nul junk n c s -> exists c' s' base', take_prefix base c s = Some (c', s', base') /\ before_nul junk n c' s'.
Proof.
  intros Hn. unfold take_prefix.
  destruct (has_prefix_nul 16 120 88 base junk n c s) as [-> | [-> (c' & s' & -> & Hn')]]; [done..| |by exists c', s', 16].
  destruct (has_prefix_nul 2 98 66 base junk n c s) as [-> | [-> (c' & s' & -> & Hn')]]; [done..| |by exists c', s', 2].
  by exists c, s, (default_base c base).
Qed.

Lemma take_qprefix_nul junk n base c s :
  before_nul junk n c s -> exists c' s' base', take_qprefix base c s = Some (c', s', base') /\ before_nul junk n c' s'.
Proof.
  intros Hn. unfold take_qprefix.
  destruct (has_prefix_nul 16 120 88 base junk n c s) as [-> | [-> (c' & s' & -> & Hn')]]; [done..| |by exists c', s', 16].
  by exists c, s, (default_base c base).
Qed.

(** Follows a function that reads its prefix with [prefix] to its result. *)
Ltac follow t junk prefix prefix_nul :=
  let Hs := fresh in let Hs1 := fresh in let Hs2 := fresh in let Hs3 := fresh in
  destruct (skip_space_nul junk t) as (? & ? & -> & Hs); rewrite bind_some;
  destruct (take_sign_nul _ _ _ _ Hs) as (? & ? & ? & -> & Hs1); rewrite bind_some;
  match goal with |- context [prefix ?b _ _] =>
    destruct (prefix_nul _ _ b _ _ Hs1) as (? & ? & ? & -> & Hs2) end; rewrite bind_some; cbv zeta;
  match goal with |- context [strto_loop ?b ?q ?o ?l ?s ?c 0 0] =>
    destruct (strto_loop_nul b q o l _ _ s c 0 0 Hs2) as (? & ? & ? & ? & -> & Hs3) end; rewrite bind_some;
  eexists _, _; split; [reflexivity|]; exact (end_offset_nul _ _ _ _ _ Hs3).

Lemma strtoul_nul t junk base :
  exists x e, strtoul (t ++ 0 :: junk) base = Some (x, e) /\ 0 <= e <= Z.of_nat (length t).
Proof. unfold strtoul. follow t junk take_prefix take_prefix_nul. Qed.

(** ** Properties *)

(** C30. The functions that read numbers give the value of the digits.  On white
    space, a sign, the prefix of the base and digits of the base, in upper or lower
    case, followed by a character that is not one, all four functions stop at that
    character; [strtol] and [strtoq] return the signed value limited to the range of
    64-bit integers, [strtoul] and [strtouq] the value, negated modulo 2^64 after a
    minus sign, or the largest number where it does not fit.  Base 0 selects base 16,
    2, 8 or 10 by the prefix; [strtoq] and [strtouq] have no prefix for base 2. *)
Theorem strto_value (sp sign prefix ds rest : list Z) (stop base radix : Z) :
  forallb isspace sp = true -> In sign [[]; [43]; [45]] -> base = 0 \/ 2 <= base <= 36 ->
  ds <> [] -> Forall (is_digit radix) ds -> stops radix stop ->
  let text := sp ++ sign ++ prefix ++ ds ++ stop :: rest in
  let v := value radix 0 ds in
  let n := if decide (sign = [45]) then - v else v in
  let e := Z.of_nat (length (sp ++ sign ++ prefix ++ ds)) in
  let signed := Z.max LONG_MIN (Z.min LONG_MAX n) in
  let unsigned := if decide (v <= ULONG_MAX) then u64 n else ULONG_MAX in
  (selects true base prefix (ds ++ stop :: rest) radix ->
   strtol text base = Some (signed, e) /\ strtoul text base = Some (unsigned, e)) /\
  (selects false base prefix (ds ++ stop :: rest) radix ->
   strtoq text base = Some (signed, e) /\ strtouq text base = Some (unsigned, e)).
Proof.
  intros Hsp Hsign Hbase Hne Hds Hstop. destruct ds as [|c ds]; [done|]. cbv zeta.
  assert ((if decide (sign = [45]) then - value radix 0 (c :: ds) else value radix 0 (c :: ds)) =
    (if bool_decide (sign = [45]) then - value radix 0 (c :: ds) else value radix 0 (c :: ds))) as ->
    by (case_bool_decide; [by rewrite decide_True|by rewrite decide_False]).
  split; intros Hsel; split.
  - by apply (strtol_text sp sign prefix ds rest c stop base radix).
  - by apply (strtoul_text sp sign prefix ds rest c stop base radix).
  - by apply (strtoq_text sp sign prefix ds rest c stop base radix).
  - by apply (strtouq_text sp sign prefix ds rest c stop base radix).
Qed.

Lemma strto_value_witness :
  let text := bytes_of_string " -0x7fz" ++ [0] in
  (strtol text 0 = Some (-127, 6) /\ strtoul text 0 = Some (2 ^ 64 - 127, 6)) /\
  (strtoq text 0 = Some (-127, 6) /\ strtouq text 0 = Some (2 ^ 64 - 127, 6)).
Proof.
  destruct (strto_value [32] [45] (bytes_of_string "0x") (bytes_of_string "7f") [0] 122 0 16) as [Hl Hq];
    [done|simpl; tauto|by left|done|repeat constructor; by eexists|by intros d [= <-]|].
  assert (forall bin, selects bin 0 (bytes_of_string "0x") (bytes_of_string "7f" ++ 122 :: [0]) 16) as Hsel.
  { intros bin. left. split; [done|]. split; left; done. }
  split; [exact (Hl (Hsel true))|exact (Hq (Hsel false))].
Defined.

(** On every string that ends in NUL, and for every base, the four functions
    return without reading past the NUL, and the end they report is not past the
    NUL either. *)
Theorem strto_within (t junk : list Z) (base : Z) (f : list Z -> Z -> option (Z * Z)) :
  In f [strtol; strtoul; strtoq; strtouq] ->
  exists x e, f (t ++ 0 :: junk) base = Some (x, e) /\ 0 <= e <= Z.of_nat (length t).
Proof.
  intros [<-|[<-|[<-|[<-|[]]]]].
  - unfold strtol. follow t junk take_prefix take_prefix_nul.
  - apply strtoul_nul.
  - unfold strtoq. follow t junk take_qprefix take_qprefix_nul.
  - unfold strtouq. follow t junk take_qprefix take_qprefix_nul.
Qed.

Lemma strto_within_witness :
  exists x e, strtol (bytes_of_string "12 monkeys" ++ 0 :: [57]) 0 = Some (x, e) /\ 0 <= e <= 10.
Proof. apply (strto_within (bytes_of_string "12 monkeys") [57] 0 strtol). by left. Defined.

(** A prefix without digits after it is no number, although a zero precedes the
    [x]: the end reported is the start of the string. *)
Theorem strtol_bare_prefix :
  strtol (bytes_of_string "0xg" ++ [0]) 16 = Some (0, 0) /\ strtol (bytes_of_string "0g" ++ [0]) 16 = Some (0, 1).
Proof. split; vm_compute; reflexivity. Qed.
