(* ===== verification/InetAton.v ===== *)
(** * IPv4 addresses as text, the traditional functions

    [libkern/net/inet_aton.c] and [libkern/net/inet_ntoa.c].  [inet_aton] reads its
    parts with [strtoul], so that it accepts more spellings than [inet_pton]; the
    two are shown to agree on the dotted quads, which are also what [inet_ntoa]
    writes. *)
From S2P Require Import Prelude InCksum InetAddr StrTo.

Local Open Scope Z_scope.

(** [snprintf] of [text] to [buf]: the text, cut to [n] bytes with the NUL. *)
Definition snprintf (buf : list Z) (n : Z) (text : list Z) : option (list Z) :=
  if decide (n <= 0) then Some buf else
  let kept := take (Z.to_nat (n - 1)) text in
  if decide (Z.of_nat (length kept) < Z.of_nat (length buf))
  then Some (kept ++ 0 :: drop (S (length kept)) buf) else None.

Definition ntoa_text (ina : list Z) : option (list Z) :=
  a ← zget ina 0; b ← zget ina 1; c ← zget ina 2; d ← zget ina 3;
  Some (dotted (Z.land a 255) (Z.land b 255) (Z.land c 255) (Z.land d 255)).

(** [ina] is the address in memory, [buf] the static buffer. *)
Definition inet_ntoa (buf ina : list Z) : option (list Z) :=
  text ← ntoa_text ina; snprintf buf 16 text.

Definition inet_ntoa_r (ina buf : list Z) (buflen : Z) : option (list Z) :=
  text ← ntoa_text ina; snprintf buf buflen text.

(** The loop over the parts; the result is [n], [val] and [parts], or failure. *)
Fixpoint aton_loop (fuel : nat) (c : list Z) (n : Z) (parts : list Z) : option (option (Z * Z * list Z)) :=
  match fuel with
  | O => None
  | S fuel =>
      '(l, endptr) ← strtoul c 0;
      if decide (l = ULONG_MAX \/ (l = 0 /\ endptr = 0)) then Some None else
      let val := u32 l in
      if decide (endptr = 0) then Some None else
      parts ← zset parts n val;
      let c := drop (Z.to_nat endptr) c in
      ch ← zget c 0;
      if decide (ch = DOT) then
        if decide (n = 3) then Some None else aton_loop fuel (drop 1 c) (n + 1) parts
      else if decide (ch = 0) then Some (Some (n, val, parts))
      else if isspace ch then Some (Some (n, val, parts)) else Some None
  end.

(** The address of [n] and the parts. *)
Definition aton_value (n val : Z) (parts : list Z) : option (option Z) :=
  if decide (n = 1) then
    p0 ← zget parts 0;
    if decide (16777215 < val \/ 255 < p0) then Some None else Some (Some (u32 (Z.lor val (u64 (Z.shiftl p0 24)))))
  else if decide (n = 2) then
    p0 ← zget parts 0; p1 ← zget parts 1;
    if decide (65535 < val \/ 255 < p0 \/ 255 < p1) then Some None
    else Some (Some (u32 (Z.lor val (Z.lor (u64 (Z.shiftl p0 24)) (u64 (Z.shiftl p1 16))))))
  else if decide (n = 3) then
    p0 ← zget parts 0; p1 ← zget parts 1; p2 ← zget parts 2;
    if decide (255 < val \/ 255 < p0 \/ 255 < p1 \/ 255 < p2) then Some None
    else Some (Some (u32 (Z.lor val (Z.lor (Z.lor (u64 (Z.shiftl p0 24)) (u64 (Z.shiftl p1 16)))
                                           (u64 (Z.shiftl p2 8))))))
  else Some (Some val).

(** [stack] is the uninitialised array [parts]; the result is [s_addr], or failure. *)
Definition inet_aton (cp stack : list Z) : option (option Z) :=
  r ← aton_loop 4 cp 0 stack;
  match r : option (Z * Z * list Z) with
  | None => Some None
  | Some (n, val, parts) => v ← aton_value n val parts; Some (option_map htonl v)
  end.

(** ** One part *)

Lemma digit_xd d : 0 <= d < 10 -> digit (xd d) = Some d /\ (xd d = 48 -> d = 0).
Proof.
  intros Hd. assert (Forall (fun d => digit (xd d) = Some d /\ (xd d = 48 -> d = 0)) (seqZ 0 10)) as Hall.
  { repeat (apply Forall_cons; split; [split; [reflexivity|vm_compute; congruence]|]). done. }
  rewrite Forall_forall in Hall. apply Hall, elem_of_seqZ. lia.
Qed.

Lemma value_xd base v ds :
  Forall (fun d => 0 <= d < 10) ds -> value base v (xd <$> ds) = number base v ds.
Proof.
  intros Hds. revert v. induction Hds as [|d ds Hd Hds IH]; intros v; [done|].
  rewrite fmap_cons. change (value base v (xd d :: (xd <$> ds))) with (value base (v * base + default 0 (digit (xd d))) (xd <$> ds)).
  destruct (digit_xd d Hd) as [-> _]. by rewrite IH.
Qed.

(** A number of an address, in decimal without leading zeros. *)
Lemma strtoul_octet n stop rest :
  0 <= n < 256 -> stop = DOT \/ stop = 0 ->
  strtoul (fmt_u n ++ stop :: rest) 0 = Some (n, Z.of_nat (length (fmt_u n))).
Proof.
  intros Hn Hstop. destruct (fmt_u_spec n Hn) as (d & ds & -> & Hds & Hlen & Hval & Hlead).
  assert (exists radix, 8 <= radix <= 10 /\ radix = default_base (xd d) 0 /\ Forall (is_digit radix) (xd <$> d :: ds) /\
    number radix 0 (d :: ds) = n /\ (xd d = 48 -> ds = [])) as (radix & Hr & Hdef & Hdig & Hnum & Hzero).
  { destruct (decide (d = 0)) as [-> | Hd0].
    - destruct ds as [|d1 ds]; [|specialize (Hlead ltac:(done)); lia]. exists 8. split_and!; try done.
      apply Forall_singleton. exists 0. split; [reflexivity|lia].
    - assert (xd d <> 48) as Hne by (intros H48; apply Forall_cons in Hds as [Hd _]; by apply (digit_xd d Hd) in H48).
      exists 10. split_and!; try done.
      + unfold default_base. by rewrite decide_True, decide_False by done.
      + apply Forall_fmap. eapply Forall_impl; [exact Hds|]. intros x Hx. cbv beta in Hx. exists x. split; [by apply digit_xd|lia]. }
  assert (value radix 0 (xd <$> d :: ds) = n) as Hv by (by rewrite value_xd).
  rewrite fmap_cons in *. rewrite <-app_comm_cons.
  pose proof (strtoul_text [] [] [] (xd <$> ds) rest (xd d) stop 0 radix) as Htext. cbn [app] in Htext.
  rewrite Htext; clear Htext; try done; [|by left|by left| |].
  - f_equal. f_equal. unfold limited_u. rewrite Hv. unfold ULONG_MAX. rewrite decide_True by lia.
    rewrite bool_decide_false by done. apply wrap_small. unfold in_word. lia.
  - intros x. destruct Hstop as [-> | ->]; done.
  - right; right. split_and!; [done|done|intros _|intros _ _];
      (destruct (decide (xd d = 48)) as [H48|]; [rewrite (Hzero H48); destruct Hstop as [-> | ->]|]);
      unfold DOT; cbn [fmap list_fmap app take]; split; congruence.
Qed.

(** ** Four parts *)

Lemma aton_part fuel k stop rest n parts :
  0 <= k < 256 -> stop = DOT \/ stop = 0 -> 0 <= n < Z.of_nat (length parts) -> (stop = DOT -> n <> 3) ->
  aton_loop (S fuel) (fmt_u k ++ stop :: rest) n parts
  = if decide (stop = DOT) then aton_loop fuel rest (n + 1) (<[Z.to_nat n := k]> parts)
    else Some (Some (n, k, <[Z.to_nat n := k]> parts)).
Proof.
  intros Hk Hstop Hn H3. destruct (fmt_u_spec k Hk) as (d & ds & Heq & _).
  assert (Z.of_nat (length (fmt_u k)) <> 0) as Hlen by (rewrite Heq, fmap_cons; cbn [length]; lia).
  cbn [aton_loop]. rewrite strtoul_octet, bind_some by done. unfold ULONG_MAX.
  rewrite !(decide_False (P := k = _ \/ _)), (decide_False (P := _ = 0)) by lia. cbv zeta.
  rewrite (wrap_small 32 k) by (unfold in_word; lia). rewrite zset_in, bind_some by done.
  rewrite Nat2Z.id, drop_app_length. change (zget (stop :: rest) 0) with (Some stop). rewrite bind_some.
  destruct Hstop as [-> | ->]; [|done]. by rewrite !(decide_True (P := DOT = DOT)), decide_False by auto.
Qed.

Lemma aton_join a b c d :
  byte_ok a -> byte_ok b -> byte_ok c -> byte_ok d ->
  Z.lor d (Z.lor (Z.lor (u64 (Z.shiftl a 24)) (u64 (Z.shiftl b 16))) (u64 (Z.shiftl c 8)))
  = a * 2 ^ 24 + b * 2 ^ 16 + c * 2 ^ 8 + d.
Proof.
  unfold in_word. intros Ha Hb Hc Hd. rewrite !Z.shiftl_mul_pow2, !wrap_small by (unfold in_word; lia).
  rewrite (lor_high_low 24) by lia. replace (a * 2 ^ 24 + b * 2 ^ 16) with ((a * 256 + b) * 2 ^ 16) by lia.
  rewrite (lor_high_low 16) by lia. replace ((a * 256 + b) * 2 ^ 16 + c * 2 ^ 8) with ((a * 65536 + b * 256 + c) * 2 ^ 8) by lia.
  rewrite (lor_low_high 8) by lia. lia.
Qed.

(** What [s_addr] is, read from the bytes of the address. *)
Lemma htonl_read32 a b c d :
  byte_ok a -> byte_ok b -> byte_ok c -> byte_ok d ->
  read32 [a; b; c; d] 0 = Some (htonl (a * 2 ^ 24 + b * 2 ^ 16 + c * 2 ^ 8 + d)).
Proof.
  unfold in_word. intros Ha Hb Hc Hd. rewrite htonl_bytes by (unfold in_word; lia).
  change (read32 [a; b; c; d] 0) with (Some (a + 256 * b + 65536 * (c + 256 * d))). f_equal.
  Z.to_euclidean_division_equations. lia.
Qed.

Lemma inet_aton_dotted a b c d junk stack :
  bytes_ok [a; b; c; d] -> length stack = 4%nat ->
  exists s_addr, inet_aton (dotted a b c d ++ 0 :: junk) stack = Some (Some s_addr) /\ read32 [a; b; c; d] 0 = Some s_addr.
Proof.
  intros Hok Hs. repeat (apply Forall_cons in Hok as [? Hok]).
  destruct stack as [|s0 [|s1 [|s2 [|s3 [|]]]]]; try done.
  eexists. split; [|by apply htonl_read32]. unfold inet_aton, dotted. rewrite <-!app_assoc. cbn [app].
  do 3 (rewrite aton_part by (done || lia || auto || simpl; lia); rewrite decide_True by done).
  rewrite aton_part by (done || lia || auto || simpl; lia). rewrite decide_False by done. rewrite bind_some.
  change (aton_value _ _ _) with (if decide (255 < d \/ 255 < a \/ 255 < b \/ 255 < c) then Some None
    else Some (Some (u32 (Z.lor d (Z.lor (Z.lor (u64 (Z.shiftl a 24)) (u64 (Z.shiftl b 16))) (u64 (Z.shiftl c 8))))))).
  unfold in_word in *. rewrite decide_False, bind_some by lia. rewrite aton_join by done. by rewrite wrap_small by (unfold in_word; lia).
Qed.

(** ** Properties *)

(** The loop never faults on a string that ends in NUL. *)
Lemma aton_loop_total fuel t junk n parts :
  length parts = 4%nat -> 0 <= n -> 4 <= n + Z.of_nat fuel -> n <= 3 ->
  aton_loop fuel (t ++ 0 :: junk) n parts = Some None \/
  exists n' val parts', aton_loop fuel (t ++ 0 :: junk) n parts = Some (Some (n', val, parts')) /\
    length parts' = 4%nat /\ 0 <= n' <= 3.
Proof.
  revert t n parts. induction fuel as [|fuel IH]; intros t n parts Hp Hn Hf H3; [lia|].
  cbn [aton_loop]. destruct (strtoul_nul t junk 0) as (l & e & -> & He). rewrite bind_some.
  destruct (decide (l = _ \/ _)); [by left|]. cbv zeta. destruct (decide (e = 0)); [by left|].
  rewrite zset_in, bind_some by lia.
  assert (drop (Z.to_nat e) (t ++ 0 :: junk) = drop (Z.to_nat e) t ++ 0 :: junk) as ->
    by (rewrite drop_app_le by lia; done).
  remember (drop (Z.to_nat e) t) as t' eqn:Ht. clear Ht.
  assert (exists ch, zget (t' ++ 0 :: junk) 0 = Some ch /\ (ch = 0 \/ exists t2, t' = ch :: t2)) as (ch & -> & Hch).
  { destruct t' as [|ch t2]; [exists 0|exists ch]; (split; [done|]); [by left|right; by exists t2]. }
  rewrite bind_some. destruct (decide (ch = DOT)) as [->|].
  - destruct (decide (n = 3)); [by left|]. destruct Hch as [?|(t2 & ->)]; [done|]. cbn [app drop].
    apply IH; [by rewrite length_insert|lia..].
  - assert (length (<[Z.to_nat n:=u32 l]> parts) = 4%nat) by (by rewrite length_insert).
    destruct (decide (ch = 0)); [right; by exists n, (u32 l), (<[Z.to_nat n:=u32 l]> parts)|].
    destruct (isspace ch); [right; by exists n, (u32 l), (<[Z.to_nat n:=u32 l]> parts)|by left].
Qed.

Lemma aton_value_total n val parts : length parts = 4%nat -> exists r, aton_value n val parts = Some r.
Proof.
  intros Hp. destruct parts as [|p0 [|p1 [|p2 [|p3 [|]]]]]; try done. unfold aton_value.
  change (zget [p0; p1; p2; p3] 0) with (Some p0). change (zget [p0; p1; p2; p3] 1) with (Some p1).
  change (zget [p0; p1; p2; p3] 2) with (Some p2). rewrite !bind_some. repeat case_decide; by eexists.
Qed.

(** [inet_aton] never faults on a string that ends in NUL, whatever follows the
    string and whatever the array of parts held before, and it reads every string
    that [inet_pton] accepts for IPv4 as the same address. *)
Theorem inet_aton_agrees (t junk stack parts : list Z) :
  0 ∉ t -> length stack = 4%nat -> length parts = 4%nat ->
  exists r, inet_aton (t ++ 0 :: junk) parts = Some r /\
    forall src, inet_pton AF_INET (t ++ 0 :: junk) stack = Some (1, src) ->
      exists s_addr, r = Some s_addr /\ read32 src 0 = Some s_addr.
Proof.
  intros Hnz Hst Hp.
  assert (exists r, inet_aton (t ++ 0 :: junk) parts = Some r) as (r & Hr).
  { unfold inet_aton. destruct (aton_loop_total 4 t junk 0 parts) as [-> | (n & val & ps & -> & Hlen & _)]; [lia..| |].
    - by eexists.
    - rewrite bind_some. destruct (aton_value_total n val ps Hlen) as (v & ->). by eexists. }
  exists r. split; [done|]. intros src. unfold inet_pton. rewrite decide_True by done.
  destruct (inet_pton4_reads t junk stack Hst Hnz) as [[-> _]|(a & b & c & d & -> & Hok & ->)]; intros [= <-].
  destruct (inet_aton_dotted a b c d junk parts Hok Hp) as (s_addr & Ha & Hread).
  exists s_addr. split; [congruence|done].
Qed.

Lemma inet_aton_agrees_witness :
  exists r, inet_aton (bytes_of_string "192.168.0.1" ++ [0]) [7; 7; 7; 7] = Some r /\
    forall src, inet_pton AF_INET (bytes_of_string "192.168.0.1" ++ [0]) [9; 9; 9; 9] = Some (1, src) ->
      exists s_addr, r = Some s_addr /\ read32 src 0 = Some s_addr.
Proof.
  apply (inet_aton_agrees (bytes_of_string "192.168.0.1") [] [9; 9; 9; 9] [7; 7; 7; 7]); [|done..].
  apply (bool_decide_unpack _). vm_compute. exact I.
Defined.

(** The static buffer of [inet_ntoa] holds the text of every address, and both
    [inet_aton] and [inet_pton] read the address back from it; [inet_ntoa_r] does the
    same with every buffer of 16 bytes or more. *)
Theorem inet_ntoa_roundtrip (ina buf parts stack : list Z) (buflen : Z) :
  length ina = 4%nat -> bytes_ok ina -> length parts = 4%nat -> length stack = 4%nat ->
  Z.of_nat (length buf) = buflen -> 16 <= buflen ->
  exists buf', inet_ntoa_r ina buf buflen = Some buf' /\ (buflen = 16 -> inet_ntoa buf ina = Some buf') /\
    length buf' = length buf /\ inet_pton AF_INET buf' stack = Some (1, ina) /\
    exists s_addr, inet_aton buf' parts = Some (Some s_addr) /\ read32 ina 0 = Some s_addr.
Proof.
  intros Hlen Hok Hp Hst Hbuf H16. destruct ina as [|a [|b [|c [|d [|]]]]]; try done.
  assert (length (dotted a b c d) <= 15)%nat as Hdot.
  { repeat (apply Forall_cons in Hok as [? Hok]). by apply length_dotted. }
  assert (ntoa_text [a; b; c; d] = Some (dotted a b c d)) as Htext.
  { change (ntoa_text [a; b; c; d]) with (Some (dotted (Z.land a 255) (Z.land b 255) (Z.land c 255) (Z.land d 255))).
    repeat (apply Forall_cons in Hok as [? Hok]). f_equal. change 255 with (Z.ones 8).
    by rewrite !Z.land_ones, !Z.mod_small by first [done|lia]. }
  assert (snprintf buf buflen (dotted a b c d)
    = Some (dotted a b c d ++ 0 :: drop (S (length (dotted a b c d))) buf)) as Hsn.
  { unfold snprintf. rewrite decide_False by lia. cbv zeta. rewrite take_ge by lia. by rewrite decide_True by lia. }
  eexists. unfold inet_ntoa_r, inet_ntoa. rewrite Htext, !bind_some, Hsn. split_and!; [done|by intros ->| | |].
  - rewrite length_app. cbn [length]. rewrite length_drop. lia.
  - unfold inet_pton. rewrite decide_True by done. repeat (apply Forall_cons in Hok as [? Hok]).
    by rewrite inet_pton4_dotted by done.
  - by apply inet_aton_dotted.
Qed.

Lemma inet_ntoa_roundtrip_witness :
  exists buf', inet_ntoa_r [10; 0; 2; 255] (replicate 16 0) 16 = Some buf' /\
    (16 = 16 -> inet_ntoa (replicate 16 0) [10; 0; 2; 255] = Some buf') /\
    length buf' = 16%nat /\ inet_pton AF_INET buf' [9; 9; 9; 9] = Some (1, [10; 0; 2; 255]) /\
    exists s_addr, inet_aton buf' [7; 7; 7; 7] = Some (Some s_addr) /\ read32 [10; 0; 2; 255] 0 = Some s_addr.
Proof.
  apply (inet_ntoa_roundtrip [10; 0; 2; 255] (replicate 16 0) [7; 7; 7; 7] [9; 9; 9; 9] 16); try done.
  repeat constructor; done.
Defined.

(** A number of more than 32 bits is accepted and cut to 32, as the whole address
    and as a part of one. *)
Theorem inet_aton_truncates :
  inet_aton (bytes_of_string "4294967297" ++ [0]) [7; 7; 7; 7]
  = inet_aton (bytes_of_string "0.0.0.1" ++ [0]) [7; 7; 7; 7] /\
  inet_aton (bytes_of_string "10.4294967298" ++ [0]) [7; 7; 7; 7]
  = inet_aton (bytes_of_string "10.0.0.2" ++ [0]) [7; 7; 7; 7] /\
  inet_aton (bytes_of_string "0.0.0.1" ++ [0]) [7; 7; 7; 7] = Some (Some 16777216).
Proof. split_and!; vm_compute; reflexivity. Qed.
