(* ===== verification/KextVersion.v ===== *)
(** * Versions of kernel extensions

    [libkern/OSKextVersion.c]: [OSKextParseVersionString], which packs a version
    like [10.4.2b3] into one 64-bit number, and [OSKextVersionGetString], which
    prints the number.  A string is the object a [char *] points to.  Every version
    that parses is shown to survive being printed and parsed, and the numbers to be
    ordered as the versions are. *)
From S2P Require Import Prelude InetAddr.

Local Open Scope Z_scope.

Abbreviation VERS_MAJOR_DIGITS := (4)%nat.
Abbreviation VERS_MINOR_DIGITS := (4)%nat.
Abbreviation VERS_REVISION_DIGITS := (4)%nat.
Abbreviation VERS_STAGE_LEVEL_DIGITS := (3)%nat.
Abbreviation VERS_MAJOR_MAX := (9999)%Z.
Abbreviation VERS_STAGE_LEVEL_MAX := (255)%Z.
Abbreviation VERS_MAJOR_MULT := (1000000000000)%Z.
Abbreviation VERS_MINOR_MULT := (100000000)%Z.
Abbreviation VERS_REVISION_MULT := (10000)%Z.
Abbreviation VERS_STAGE_MULT := (1000)%Z.

Abbreviation kOSKextVersionStageInvalid := (0)%Z.
Abbreviation kOSKextVersionStageDevelopment := (1)%Z.
Abbreviation kOSKextVersionStageAlpha := (3)%Z.
Abbreviation kOSKextVersionStageBeta := (5)%Z.
Abbreviation kOSKextVersionStageCandidate := (7)%Z.
Abbreviation kOSKextVersionStageRelease := (9)%Z.

Abbreviation kOSKextVersionMaxLength := (20)%Z.

(** ** Characters *)

Definition vers_isdigit (c : Z) : bool := bool_decide (48 <= c <= 57).
Definition vers_isspace (c : Z) : bool := bool_decide (c = 32 \/ c = 9 \/ c = 13 \/ c = 10).
Definition vers_digit_for_char (c : Z) : Z := if decide (48 <= c <= 57) then c - 48 else -1.

(** The letters d, a, b and f. *)
Definition VERS_isreleasestate (c : Z) : bool := bool_decide (c = 100 \/ c = 97 \/ c = 98 \/ c = 102).

(** [__vers_isspace(c) || c == 0]. *)
Definition version_ends (c : Z) : bool := vers_isspace c || bool_decide (c = 0).

(** The stage at the start of a string, and the string after it. *)
Definition OSKextVersionStageForString (string : list Z) : option (Z * list Z) :=
  c ← head string;
  let lettered stage :=
    c1 ← zget string 1;
    Some (if vers_isdigit c1 then (stage, drop 1 string) else (kOSKextVersionStageInvalid, string)) in
  if version_ends c then Some (kOSKextVersionStageRelease, string)
  else if decide (c = 100) then lettered kOSKextVersionStageDevelopment
  else if decide (c = 97) then lettered kOSKextVersionStageAlpha
  else if decide (c = 98) then lettered kOSKextVersionStageBeta
  else if decide (c = 102) then
    c1 ← zget string 1;
    if vers_isdigit c1 then Some (kOSKextVersionStageCandidate, drop 1 string)
    else if decide (c1 = 99) then
      c2 ← zget string 2;
      Some (if vers_isdigit c2 then (kOSKextVersionStageCandidate, drop 2 string)
            else (kOSKextVersionStageInvalid, string))
    else Some (kOSKextVersionStageInvalid, string)
  else Some (kOSKextVersionStageInvalid, string).

Definition OSKextVersionStringForStage (stage : Z) : option (list Z) :=
  if decide (stage = kOSKextVersionStageDevelopment) then Some [100]
  else if decide (stage = kOSKextVersionStageAlpha) then Some [97]
  else if decide (stage = kOSKextVersionStageBeta) then Some [98]
  else if decide (stage = kOSKextVersionStageCandidate) then Some [102]
  else if decide (stage = kOSKextVersionStageRelease) then Some []
  else None.

(** ** OSKextParseVersionString *)

(** Where the scan of a number goes on: at [finish] with a release, at
    [release_state], at the label after the number, past the loop because the
    digits are used up, or at [return -1]. *)
Inductive scan_end :=
| Finish (v : Z)
| ReleaseState (v : Z) (s : list Z)
| NextLabel (v : Z) (s : list Z)
| Full (v : Z) (s : list Z)
| Bad.

(** A loop of at most [n] digits; [dots] is whether a period may end them. *)
Fixpoint scan_loop (n : nat) (dots : bool) (v : Z) (s : list Z) : option scan_end :=
  match n with
  | O => Some (Full v s)
  | S n =>
      c ← head s;
      if version_ends c then Some (Finish v)
      else if vers_isdigit c then
        let vers_digit := vers_digit_for_char c in
        if decide (vers_digit < 0) then Some Bad else scan_loop n dots (v * 10 + vers_digit) (tail s)
      else if VERS_isreleasestate c then Some (ReleaseState v s)
      else if dots && bool_decide (c = 46) then Some (NextLabel v (tail s))
      else Some Bad
  end.

(** The loop and the check for too many digits after it. *)
Definition scan_number (n : nat) (dots : bool) (v : Z) (s : list Z) : option scan_end :=
  r ← scan_loop n dots v s;
  match r with
  | Full v s =>
      c ← head s;
      if decide (c = 46) then Some (NextLabel v (tail s))
      else if vers_isdigit c then Some Bad
      else Some (NextLabel v s)
  | _ => Some r
  end.

Record version := Version {
  vers_major : Z;
  vers_minor : Z;
  vers_revision : Z;
  vers_stage : Z;
  vers_stage_level : Z
}.

Definition pack (v : version) : Z :=
  vers_major v * VERS_MAJOR_MULT + vers_minor v * VERS_MINOR_MULT + vers_revision v * VERS_REVISION_MULT
  + vers_stage v * VERS_STAGE_MULT + vers_stage_level v.

Definition vers_finish (v : version) : Z :=
  if decide (vers_stage v = kOSKextVersionStageCandidate /\ vers_stage_level v = 0) then -1 else pack v.

(** The loop over the stage level; [None] inside is [return -1], and a string is
    there when the digits are used up. *)
Fixpoint level_loop (n : nat) (scanned : bool) (level : Z) (s : list Z) : option (option (Z * option (list Z))) :=
  match n with
  | O => Some (Some (level, Some s))
  | S n =>
      c ← head s;
      if version_ends c then Some (if scanned then Some (level, None) else None)
      else if vers_isdigit c then
        let vers_digit := vers_digit_for_char c in
        if decide (vers_digit < 0) then Some None else level_loop n true (level * 10 + vers_digit) (tail s)
      else Some None
  end.

(** From [release_state] on. *)
Definition release_state (major minor revision : Z) (s : list Z) : option Z :=
  c ← head s;
  if version_ends c then Some (vers_finish (Version major minor revision kOSKextVersionStageRelease 0)) else
  '(stage, s) ← OSKextVersionStageForString s;
  if decide (stage = kOSKextVersionStageInvalid) then Some (-1) else
  r ← level_loop VERS_STAGE_LEVEL_DIGITS false 0 s;
  match r with
  | None => Some (-1)
  | Some (level, None) => Some (vers_finish (Version major minor revision stage level))
  | Some (level, Some s) =>
      c ← head s;
      if negb (version_ends c) then Some (-1)
      else if decide (VERS_STAGE_LEVEL_MAX < level) then Some (-1)
      else Some (vers_finish (Version major minor revision stage level))
  end.

Definition parse_revision (major minor : Z) (s : list Z) : option Z :=
  r ← scan_number VERS_REVISION_DIGITS false 0 s;
  match r with
  | Finish v => Some (vers_finish (Version major minor v kOSKextVersionStageRelease 0))
  | ReleaseState v s | NextLabel v s => release_state major minor v s
  | _ => Some (-1)
  end.

Definition parse_minor (major : Z) (s : list Z) : option Z :=
  r ← scan_number VERS_MINOR_DIGITS true 0 s;
  match r with
  | Finish v => Some (vers_finish (Version major v 0 kOSKextVersionStageRelease 0))
  | ReleaseState v s => release_state major v 0 s
  | NextLabel v s => parse_revision major v s
  | _ => Some (-1)
  end.

(** A null pointer is [None]. *)
Definition OSKextParseVersionString (versionString : option (list Z)) : option Z :=
  match versionString with
  | None => Some (-1)
  | Some s =>
      c ← head s;
      if decide (c = 0) then Some (-1) else
      let major := vers_digit_for_char c in
      if decide (major < 0) then Some (-1) else
      r ← scan_number (VERS_MAJOR_DIGITS - 1) true major (tail s);
      match r with
      | Finish v => Some (vers_finish (Version v 0 0 kOSKextVersionStageRelease 0))
      | ReleaseState v s => release_state v 0 0 s
      | NextLabel v s => parse_minor v s
      | _ => Some (-1)
      end
  end.

(** ** OSKextVersionGetString *)

(** Bytes stored at an offset of a buffer. *)
Definition store_at (buf : list Z) (pos : Z) (bytes : list Z) : option (list Z) :=
  if decide (0 <= pos /\ pos + Z.of_nat (length bytes) <= Z.of_nat (length buf))
  then Some (take (Z.to_nat pos) buf ++ bytes ++ drop (Z.to_nat pos + length bytes) buf)
  else None.

(** [scnprintf(buf + pos, n, ...)] of a text: what is stored without the NUL, and
    the buffer. *)
Definition scnprintf (buf : list Z) (pos n : Z) (text : list Z) : option (Z * list Z) :=
  if decide (n <= 0) then Some (0, buf) else
  let kept := take (Z.to_nat (n - 1)) text in
  buf ← store_at buf pos (kept ++ [0]);
  Some (Z.of_nat (length kept), buf).

(** [strlcat(buf, text, n)], the NUL of [buf] being among its first [n] bytes. *)
Definition strlcat (buf text : list Z) (n : Z) : option (list Z) :=
  pos ← strchr buf 0;
  snd <$> scnprintf buf pos (n - pos) text.

(** [strlcpy] over the whole buffer. *)
Definition set_string (buf : list Z) (bufferLength : Z) (text : list Z) : option (bool * list Z) :=
  '(_, buf) ← scnprintf buf 0 bufferLength text; Some (true, buf).

Definition unpack (aVersion : Z) : version :=
  let major := aVersion / VERS_MAJOR_MULT in
  let minor := (aVersion - major * VERS_MAJOR_MULT) / VERS_MINOR_MULT in
  let revision := (aVersion - (major * VERS_MAJOR_MULT + minor * VERS_MINOR_MULT)) / VERS_REVISION_MULT in
  let stage := (aVersion - (major * VERS_MAJOR_MULT + minor * VERS_MINOR_MULT + revision * VERS_REVISION_MULT))
               / VERS_STAGE_MULT in
  Version major minor revision stage
    (aVersion - (major * VERS_MAJOR_MULT + minor * VERS_MINOR_MULT + revision * VERS_REVISION_MULT
                 + stage * VERS_STAGE_MULT)).

Definition INVALID : list Z := bytes_of_string "(invalid)".
Definition MISSING : list Z := bytes_of_string "(missing)".

(** A period, and a number after it. *)
Definition dot_number (buf : list Z) (bufferLength cpos n : Z) : option (Z * list Z) :=
  buf ← zset buf cpos 46;
  '(k, buf) ← scnprintf buf (cpos + 1) (bufferLength - (cpos + 1)) (fmt_u (u32 n));
  Some (cpos + 1 + k, buf).

(** The number is not negative where the parts are computed, so that C's division
    and [Z.div] agree. *)
Definition OSKextVersionGetString (aVersion : Z) (buffer : option (list Z)) (bufferLength : Z)
    : option (bool * list Z) :=
  match buffer with
  | None => Some (false, [])
  | Some buffer =>
      if decide (bufferLength < kOSKextVersionMaxLength) then Some (false, buffer) else
      buffer ← store_at buffer 0 (replicate (Z.to_nat bufferLength) 0);
      if decide (aVersion < 0) then set_string buffer bufferLength INVALID else
      if decide (aVersion = 0) then set_string buffer bufferLength MISSING else
      let v := unpack aVersion in
      if decide (VERS_MAJOR_MAX < vers_major v) then set_string buffer bufferLength INVALID else
      if decide (VERS_STAGE_LEVEL_MAX < vers_stage_level v) then set_string buffer bufferLength INVALID else
      '(cpos, buffer) ← scnprintf buffer 0 bufferLength (fmt_u (u32 (vers_major v)));
      '(cpos, buffer) ← dot_number buffer bufferLength cpos (vers_minor v);
      '(cpos, buffer) ← (if decide (vers_revision v <> 0) then dot_number buffer bufferLength cpos (vers_revision v)
                         else Some (cpos, buffer));
      match OSKextVersionStringForStage (vers_stage v) with
      | None => set_string buffer bufferLength INVALID
      | Some stage_string =>
          buffer ← (if decide (stage_string <> []) then strlcat buffer stage_string bufferLength else Some buffer);
          let cpos := cpos + Z.of_nat (length stage_string) in
          if decide (vers_stage v < kOSKextVersionStageRelease) then
            '(_, buffer) ← scnprintf buffer cpos (bufferLength - cpos) (fmt_u (u32 (vers_stage_level v)));
            Some (true, buffer)
          else Some (true, buffer)
      end
  end.

(** ** Valid versions *)

(** What a version that parses is made of. *)
Definition valid (v : version) : Prop :=
  0 <= vers_major v <= 9999 /\ 0 <= vers_minor v <= 9999 /\ 0 <= vers_revision v <= 9999 /\
  vers_stage v ∈ [1; 3; 5; 7; 9] /\ 0 <= vers_stage_level v <= 255 /\
  (vers_stage v = 9 -> vers_stage_level v = 0) /\ (vers_stage v = 7 -> vers_stage_level v <> 0).

Lemma valid_stage v : valid v -> 1 <= vers_stage v <= 9.
Proof. intros (_ & _ & _ & Hs & _). repeat (apply elem_of_cons in Hs as [-> | Hs]; [lia|]). by apply not_elem_of_nil in Hs. Qed.

Lemma unpack_pack v : valid v -> unpack (pack v) = v.
Proof.
  intros Hv. pose proof (valid_stage v Hv) as Hst. destruct Hv as (Hma & Hmi & Hre & _ & Hle & _).
  destruct v as [ma mi re st le]. unfold unpack, pack. cbn [vers_major vers_minor vers_revision vers_stage vers_stage_level] in *.

  assert ((ma * 1000000000000 + mi * 100000000 + re * 10000 + st * 1000 + le) / 1000000000000 = ma) as ->
    by (Z.to_euclidean_division_equations; lia).
  assert ((ma * 1000000000000 + mi * 100000000 + re * 10000 + st * 1000 + le - ma * 1000000000000) / 100000000 = mi) as ->
    by (Z.to_euclidean_division_equations; lia).
  assert ((ma * 1000000000000 + mi * 100000000 + re * 10000 + st * 1000 + le
           - (ma * 1000000000000 + mi * 100000000)) / 10000 = re) as ->
    by (Z.to_euclidean_division_equations; lia).
  assert ((ma * 1000000000000 + mi * 100000000 + re * 10000 + st * 1000 + le
           - (ma * 1000000000000 + mi * 100000000 + re * 10000)) / 1000 = st) as ->
    by (Z.to_euclidean_division_equations; lia).
  f_equal. lia.
Qed.

(** ** Parsing any string *)

Definition terminated (s : list Z) : Prop := exists t junk, s = t ++ 0 :: junk.

Lemma terminated_head s : terminated s -> exists c, head s = Some c /\ (version_ends c = false -> terminated (tail s) /\ s = c :: tail s).
Proof.
  intros ([|c t] & junk & ->); [exists 0|exists c]; (split; [done|]); [done|]. intros _. split; [by exists t, junk|done].
Qed.

Lemma vers_digit_ok c : vers_isdigit c = true -> 0 <= vers_digit_for_char c <= 9.
Proof. unfold vers_isdigit, vers_digit_for_char. case_bool_decide; [|done]. rewrite decide_True by done. lia. Qed.

Lemma digit_not_end c : vers_isdigit c = true -> version_ends c = false.
Proof. unfold vers_isdigit, version_ends, vers_isspace. repeat case_bool_decide; simpl; try done; lia. Qed.

(** What a scan that starts with [v] and at most [n] digits gives. *)
Definition scan_ok (v : Z) (n : nat) (r : scan_end) : Prop :=
  match r with
  | Finish v' => 0 <= v' < (v + 1) * 10 ^ Z.of_nat n
  | ReleaseState v' s | NextLabel v' s | Full v' s => 0 <= v' < (v + 1) * 10 ^ Z.of_nat n /\ terminated s
  | Bad => True
  end.

Lemma scan_ok_mono v v' n m r :
  (v + 1) * 10 ^ Z.of_nat n <= (v' + 1) * 10 ^ Z.of_nat m -> scan_ok v n r -> scan_ok v' m r.
Proof. intros Hle. destruct r; simpl; try done; try lia; intros [? ?]; (split; [lia|done]). Qed.

Lemma scan_loop_ok n dots v s :
  terminated s -> 0 <= v -> exists r, scan_loop n dots v s = Some r /\ scan_ok v n r.
Proof.
  revert v s. induction n as [|n IH]; intros v s Hs Hv.
  { exists (Full v s). split; [done|]. simpl. split; [lia|done]. }
  assert (0 <= v < (v + 1) * 10 ^ Z.of_nat (S n)) as Hin.
  { pose proof (Z.pow_pos_nonneg 10 (Z.of_nat (S n)) ltac:(lia) ltac:(lia)). nia. }
  destruct (terminated_head s Hs) as (c & Hc & Hnext). cbn [scan_loop]. rewrite Hc, bind_some.
  destruct (version_ends c) eqn:He; [by exists (Finish v)|]. destruct (Hnext eq_refl) as [Ht _].
  destruct (vers_isdigit c) eqn:Hd.
  - apply vers_digit_ok in Hd. cbv zeta. rewrite decide_False by lia.
    destruct (IH (v * 10 + vers_digit_for_char c) (tail s) Ht ltac:(lia)) as (r & -> & Hr).
    exists r. split; [done|]. eapply scan_ok_mono; [|exact Hr].
    rewrite Nat2Z.inj_succ, Z.pow_succ_r by lia. pose proof (Z.pow_pos_nonneg 10 (Z.of_nat n) ltac:(lia) ltac:(lia)). nia.
  - destruct (VERS_isreleasestate c); [by exists (ReleaseState v s)|].
    destruct (dots && _); [by exists (NextLabel v (tail s))|by exists Bad].
Qed.

Lemma scan_number_ok n dots v s :
  terminated s -> 0 <= v -> exists r, scan_number n dots v s = Some r /\ scan_ok v n r.
Proof.
  intros Hs Hv. unfold scan_number. destruct (scan_loop_ok n dots v s Hs Hv) as (r & -> & Hr). rewrite bind_some.
  destruct r as [| | |v' s'|]; try (by eexists). destruct Hr as [Hv' Hs'].
  destruct (terminated_head s' Hs') as (c & Hc & Hnext). rewrite Hc, bind_some. destruct (decide (c = 46)) as [-> |].
  - exists (NextLabel v' (tail s')). destruct (Hnext eq_refl). done.
  - destruct (vers_isdigit c); [by exists Bad|]. by exists (NextLabel v' s').
Qed.

(** The result of a parse. *)
Definition parsed (r : Z) : Prop := r = -1 \/ exists v, valid v /\ r = pack v.

Lemma parsed_finish ma mi re st le :
  0 <= ma <= 9999 -> 0 <= mi <= 9999 -> 0 <= re <= 9999 -> st ∈ [1; 3; 5; 7; 9] -> 0 <= le <= 255 ->
  (st = 9 -> le = 0) -> parsed (vers_finish (Version ma mi re st le)).
Proof.
  intros. unfold vers_finish. case_decide as Hc; [by left|right]. eexists. split; [|done].
  unfold valid. cbn in *. split_and!; try lia; try done.
Qed.

Lemma stage_ok s c :
  terminated s -> head s = Some c -> version_ends c = false ->
  exists st s', OSKextVersionStageForString s = Some (st, s') /\ (st = 0 \/ (terminated s' /\ st ∈ [1; 3; 5; 7])).
Proof.
  intros Hs Hc He. unfold OSKextVersionStageForString. destruct (terminated_head s Hs) as (c' & Hc' & Hnext).
  assert (c' = c) as -> by congruence. rewrite Hc, bind_some. cbv zeta. rewrite He.
  destruct (Hnext He) as [Ht Heq]. destruct (terminated_head _ Ht) as (c1 & Hc1 & Hnext1).
  assert (zget s 1 = Some c1) as Hz1.
  { rewrite Heq. change (zget (c :: tail s) 1) with (tail s !! 0%nat). by rewrite <-head_lookup. }
  assert (drop 1 s = tail s) as Hd1 by (by destruct s). rewrite Hz1, !bind_some, Hd1.
  assert (forall st, st ∈ [1; 3; 5; 7] -> exists st' s',
    Some (if vers_isdigit c1 then (st, tail s) else (kOSKextVersionStageInvalid, s)) = Some (st', s') /\
    (st' = 0 \/ (terminated s' /\ st' ∈ [1; 3; 5; 7]))) as Hlet.
  { intros st Hst. destruct (vers_isdigit c1); [exists st, (tail s)|exists 0, s]; (split; [done|]); [by right|by left]. }
  assert (exists st' s', Some (kOSKextVersionStageInvalid, s) = Some (st', s') /\
    (st' = 0 \/ (terminated s' /\ st' ∈ [1; 3; 5; 7]))) as Hinv by (exists 0, s; split; [done|by left]).
  destruct (decide (c = 100)); [apply Hlet; set_solver|]. destruct (decide (c = 97)); [apply Hlet; set_solver|].
  destruct (decide (c = 98)); [apply Hlet; set_solver|]. destruct (decide (c = 102)); [|done].
  destruct (vers_isdigit c1) eqn:Hdig1.
  { exists 7, (tail s). split; [done|right]. split; [done|set_solver]. }
  destruct (decide (c1 = 99)) as [->|]; [|done].
  destruct (Hnext1 eq_refl) as [Ht2 Heq2]. destruct (terminated_head _ Ht2) as (c2 & Hc2 & _).
  assert (zget s 2 = Some c2) as ->.
  { rewrite Heq, Heq2. change (zget (c :: 99 :: tail (tail s)) 2) with (tail (tail s) !! 0%nat). by rewrite <-head_lookup. }
  rewrite bind_some. destruct (vers_isdigit c2); [|done].
  exists 7, (drop 2 s). split; [done|right]. split; [|set_solver]. by rewrite Heq, Heq2.
Qed.

Lemma level_loop_ok n scanned level s :
  terminated s -> 0 <= level ->
  exists r, level_loop n scanned level s = Some r /\
    match r with
    | None => True
    | Some (l, None) => 0 <= l < (level + 1) * 10 ^ (Z.of_nat n - 1)
    | Some (l, Some s') => 0 <= l /\ terminated s'
    end.
Proof.
  revert scanned level s. induction n as [|n IH]; intros scanned level s Hs Hl.
  { exists (Some (level, Some s)). done. }
  destruct (terminated_head s Hs) as (c & Hc & Hnext). cbn [level_loop]. rewrite Hc, bind_some.
  destruct (version_ends c) eqn:He.
  - eexists. split; [done|]. destruct scanned; [|done].
    pose proof (Z.pow_pos_nonneg 10 (Z.of_nat (S n) - 1) ltac:(lia) ltac:(lia)). nia.
  - destruct (Hnext eq_refl) as [Ht _]. destruct (vers_isdigit c) eqn:Hd; [|by exists None].
    apply vers_digit_ok in Hd. cbv zeta. rewrite decide_False by lia.
    destruct (IH true (level * 10 + vers_digit_for_char c) (tail s) Ht ltac:(lia)) as (r & -> & Hr).
    exists r. split; [done|]. destruct r as [[l [s'|]]|]; [done| |done]. split; [lia|].
    destruct n as [|n]; [simpl in Hr; lia|].
    replace (Z.of_nat (S (S n)) - 1) with (Z.succ (Z.of_nat (S n) - 1)) by lia.
    rewrite Z.pow_succ_r by lia. pose proof (Z.pow_pos_nonneg 10 (Z.of_nat (S n) - 1) ltac:(lia) ltac:(lia)). nia.
Qed.

Lemma release_state_ok ma mi re s :
  terminated s -> 0 <= ma <= 9999 -> 0 <= mi <= 9999 -> 0 <= re <= 9999 ->
  exists r, release_state ma mi re s = Some r /\ parsed r.
Proof.
  intros Hs Hma Hmi Hre. unfold release_state. destruct (terminated_head s Hs) as (c & Hc & _). rewrite Hc, bind_some.
  destruct (version_ends c) eqn:He. { eexists. split; [done|]. apply parsed_finish; try done. set_solver. }
  destruct (stage_ok s c Hs Hc He) as (st & s' & -> & Hst). rewrite bind_some.
  destruct (decide (st = kOSKextVersionStageInvalid)); [eexists; split; [done|by left]|].
  destruct Hst as [?|(Hs' & Hin)]; [done|]. assert (st ∈ [1; 3; 5; 7; 9] /\ st <> 9) as [Hin9 H9] by set_solver.
  destruct (level_loop_ok VERS_STAGE_LEVEL_DIGITS false 0 s' Hs' ltac:(lia)) as (r & -> & Hr). rewrite bind_some.
  destruct r as [[l [s2|]]|]; [| |eexists; split; [done|by left]].
  - destruct Hr as [Hl Hs2]. destruct (terminated_head s2 Hs2) as (c2 & -> & _). rewrite bind_some.
    destruct (negb (version_ends c2)); [eexists; split; [done|by left]|].
    destruct (decide (VERS_STAGE_LEVEL_MAX < l)) as [|Hmax]; [eexists; split; [done|by left]|].
    eexists. split; [done|]. apply parsed_finish; first [done|lia|naive_solver].
  - change (0 <= l < 100) in Hr. eexists. split; [done|]. apply parsed_finish; first [done|lia|naive_solver].
Qed.

Lemma parse_revision_ok ma mi s :
  terminated s -> 0 <= ma <= 9999 -> 0 <= mi <= 9999 -> exists r, parse_revision ma mi s = Some r /\ parsed r.
Proof.
  intros Hs Hma Hmi. unfold parse_revision.
  destruct (scan_number_ok VERS_REVISION_DIGITS false 0 s Hs ltac:(lia)) as (r & -> & Hr). rewrite bind_some.
  destruct r as [v|v s'|v s'|v s'|]; [| | |eexists; split; [done|by left]..].
  - change (0 <= v < 10000) in Hr. eexists. split; [done|]. apply parsed_finish; try lia. set_solver.
  - destruct Hr as [Hv Hs']. change (0 <= v < 10000) in Hv. apply release_state_ok; done || lia.
  - destruct Hr as [Hv Hs']. change (0 <= v < 10000) in Hv. apply release_state_ok; done || lia.
Qed.

Lemma parse_minor_ok ma s :
  terminated s -> 0 <= ma <= 9999 -> exists r, parse_minor ma s = Some r /\ parsed r.
Proof.
  intros Hs Hma. unfold parse_minor.
  destruct (scan_number_ok VERS_MINOR_DIGITS true 0 s Hs ltac:(lia)) as (r & -> & Hr). rewrite bind_some.
  destruct r as [v|v s'|v s'|v s'|]; [| | |eexists; split; [done|by left]..].
  - change (0 <= v < 10000) in Hr. eexists. split; [done|]. apply parsed_finish; try lia. set_solver.
  - destruct Hr as [Hv Hs']. change (0 <= v < 10000) in Hv. apply release_state_ok; done || lia.
  - destruct Hr as [Hv Hs']. change (0 <= v < 10000) in Hv. apply parse_revision_ok; done || lia.
Qed.

Lemma parse_ok s : terminated s -> exists r, OSKextParseVersionString (Some s) = Some r /\ parsed r.
Proof.
  intros Hs. unfold OSKextParseVersionString. destruct (terminated_head s Hs) as (c & Hc & Hnext).
  rewrite Hc, bind_some. destruct (decide (c = 0)); [eexists; split; [done|by left]|].
  destruct (decide (vers_digit_for_char c < 0)) as [|Hd]; [eexists; split; [done|by left]|].
  assert (vers_isdigit c = true) as Hdig.
  { unfold vers_digit_for_char in Hd. unfold vers_isdigit. case_decide; [by apply bool_decide_eq_true|lia]. }
  destruct (Hnext (digit_not_end c Hdig)) as [Ht _]. apply vers_digit_ok in Hdig.
  destruct (scan_number_ok (VERS_MAJOR_DIGITS - 1) true (vers_digit_for_char c) (tail s) Ht ltac:(lia)) as (r & -> & Hr).
  rewrite bind_some. change (10 ^ Z.of_nat (VERS_MAJOR_DIGITS - 1)) with 1000 in Hr.
  destruct r as [v|v s'|v s'|v s'|]; [| | |eexists; split; [done|by left]..]; unfold scan_ok in Hr;
    change (10 ^ Z.of_nat (VERS_MAJOR_DIGITS - 1)) with 1000 in Hr.
  - eexists. split; [done|]. apply parsed_finish; try lia. set_solver.
  - destruct Hr as [Hv Hs']. apply release_state_ok; done || lia.
  - destruct Hr as [Hv Hs']. apply parse_minor_ok; done || lia.
Qed.

(** ** Parsing what is printed *)

Lemma fmt_u_digits n :
  0 <= n < 10000 -> exists d ds, fmt_u n = xd <$> d :: ds /\ Forall (fun d => 0 <= d < 10) (d :: ds) /\
    (length (d :: ds) <= 4)%nat /\ number 10 0 (d :: ds) = n.
Proof.
  intros Hn. destruct (format_digits_spec 5 10 n []) as (d & ds & Heq & Hds & Hlen & Hval & Hlead); [lia..|].
  exists d, ds. split_and!; try done; [unfold fmt_u; by rewrite Heq, app_nil_r|].
  destruct ds as [|d1 [|d2 [|d3 [|d4 ds]]]]; simpl; try lia. specialize (Hlead ltac:(done)).
  repeat (apply Forall_cons in Hds as [? Hds]). simpl in Hlen. assert (ds = []) as -> by (by destruct ds; [|simpl in Hlen; lia]).
  unfold number in Hval. simpl in Hval. lia.
Qed.

Lemma xd_digit d : 0 <= d < 10 -> vers_isdigit (xd d) = true /\ vers_digit_for_char (xd d) = d.
Proof.
  intros Hd. assert (Forall (fun d => vers_isdigit (xd d) = true /\ vers_digit_for_char (xd d) = d) (seqZ 0 10)) as Hall.
  { repeat (apply Forall_cons; split; [split; reflexivity|]). done. }
  rewrite Forall_forall in Hall. apply Hall, elem_of_seqZ. lia.
Qed.

(** The digits of a number, as far as the loop goes. *)
Lemma scan_loop_digits ds n dots v rest :
  Forall (fun d => 0 <= d < 10) ds ->
  scan_loop (length ds + n) dots v ((xd <$> ds) ++ rest) = scan_loop n dots (number 10 v ds) rest.
Proof.
  intros Hds. revert v. induction Hds as [|d ds Hd Hds IH]; intros v; [done|].
  destruct (xd_digit d Hd) as [Hdig Hval]. rewrite fmap_cons. cbn [length Nat.add app scan_loop head].
  rewrite bind_some, (digit_not_end _ Hdig), Hdig, Hval. cbv zeta. rewrite decide_False by lia. apply IH.
Qed.

Lemma level_loop_digits ds n scanned v rest :
  Forall (fun d => 0 <= d < 10) ds ->
  level_loop (length ds + n) scanned v ((xd <$> ds) ++ rest)
  = level_loop n (match ds with [] => scanned | _ => true end) (number 10 v ds) rest.
Proof.
  intros Hds. revert scanned v. induction Hds as [|d ds Hd Hds IH]; intros scanned v; [done|].
  destruct (xd_digit d Hd) as [Hdig Hval]. rewrite fmap_cons. cbn [length Nat.add app level_loop head].
  rewrite bind_some, (digit_not_end _ Hdig), Hdig, Hval. cbv zeta. rewrite decide_False by lia.
  cbn [tail]. rewrite IH. by destruct ds.
Qed.

(** A string that starts with the end or with the letter of a stage. *)
Definition at_stage (T : list Z) : Prop := exists c rest, T = c :: rest /\ c ∈ [0; 100; 97; 98; 102].

Lemma scan_loop_stage n dots v T :
  at_stage T -> scan_loop (S n) dots v T = Some (if decide (head T = Some 0) then Finish v else ReleaseState v T).
Proof.
  intros (c & rest & -> & Hc). cbn [scan_loop head]. rewrite bind_some.
  repeat (apply elem_of_cons in Hc as [-> | Hc]; [reflexivity|]). by apply not_elem_of_nil in Hc.
Qed.

(** Digits, and then a stage or the end. *)
Lemma scan_number_stage ds n dots v T :
  Forall (fun d => 0 <= d < 10) ds -> (length ds <= n)%nat -> at_stage T ->
  exists r, scan_number n dots v ((xd <$> ds) ++ T) = Some r /\
    ((r = Finish (number 10 v ds) /\ head T = Some 0) \/ r = ReleaseState (number 10 v ds) T \/ r = NextLabel (number 10 v ds) T).
Proof.
  intros Hds Hn HT. unfold scan_number. replace n with (length ds + (n - length ds))%nat by lia.
  rewrite scan_loop_digits by done. destruct (n - length ds)%nat as [|k].
  - destruct HT as (c & rest & -> & Hc). cbn [scan_loop]. rewrite bind_some. cbn [head]. rewrite bind_some.
    eexists. split; [|by right; right].
    repeat (apply elem_of_cons in Hc as [-> | Hc]; [reflexivity|]). by apply not_elem_of_nil in Hc.
  - rewrite scan_loop_stage, bind_some by done. case_decide; eexists; (split; [done|]); [by left|by right; left].
Qed.

Lemma scan_number_dot ds n v rest :
  Forall (fun d => 0 <= d < 10) ds -> (length ds <= n)%nat ->
  scan_number n true v ((xd <$> ds) ++ 46 :: rest) = Some (NextLabel (number 10 v ds) rest).
Proof.
  intros Hds Hn. unfold scan_number. replace n with (length ds + (n - length ds))%nat by lia.
  rewrite scan_loop_digits by done. by destruct (n - length ds)%nat as [|k].
Qed.

Lemma release_state_end ma mi re T :
  head T = Some 0 -> release_state ma mi re T = Some (vers_finish (Version ma mi re 9 0)).
Proof. intros HT. unfold release_state. by rewrite HT. Qed.

Lemma parse_revision_stage ma mi ds T :
  Forall (fun d => 0 <= d < 10) ds -> (length ds <= 4)%nat -> at_stage T ->
  parse_revision ma mi ((xd <$> ds) ++ T) = release_state ma mi (number 10 0 ds) T.
Proof.
  intros Hds Hn HT. unfold parse_revision.
  destruct (scan_number_stage ds 4 false 0 T Hds Hn HT) as (r & -> & Hr). rewrite bind_some.
  destruct Hr as [[-> He]|[-> | ->]]; [by rewrite release_state_end|done..].
Qed.

Lemma parse_minor_stage ma ds T :
  Forall (fun d => 0 <= d < 10) ds -> (length ds <= 4)%nat -> at_stage T ->
  parse_minor ma ((xd <$> ds) ++ T) = release_state ma (number 10 0 ds) 0 T.
Proof.
  intros Hds Hn HT. unfold parse_minor.
  destruct (scan_number_stage ds 4 true 0 T Hds Hn HT) as (r & -> & Hr). rewrite bind_some.
  destruct Hr as [[-> He]|[-> | ->]]; [by rewrite release_state_end|done|].
  apply (parse_revision_stage ma (number 10 0 ds) [] T); [done|simpl; lia|done].
Qed.

(** The text of a version. *)
Definition stage_text (v : version) : list Z :=
  default [] (OSKextVersionStringForStage (vers_stage v)) ++
  (if decide (vers_stage v < 9) then fmt_u (vers_stage_level v) else []).

Definition version_text (v : version) : list Z :=
  fmt_u (vers_major v) ++ [46] ++ fmt_u (vers_minor v) ++
  (if decide (vers_revision v <> 0) then 46 :: fmt_u (vers_revision v) else []) ++ stage_text v.

Lemma finish_valid v : valid v -> vers_finish v = pack v.
Proof. intros (_ & _ & _ & _ & _ & _ & H7). unfold vers_finish. rewrite decide_False; [done|]. intros [? ?]. by apply H7. Qed.

(** A stage letter and the level after it. *)
Lemma release_state_level ma mi re letter st le junk :
  (letter, st) ∈ [(100, 1); (97, 3); (98, 5); (102, 7)] -> 0 <= le <= 255 ->
  release_state ma mi re (letter :: fmt_u le ++ 0 :: junk) = Some (vers_finish (Version ma mi re st le)).
Proof.
  intros Hst Hle. destruct (fmt_u_spec le ltac:(lia)) as (d & ds & -> & Hds & Hlen & Hval & _).
  unfold release_state. cbn [head]. rewrite bind_some.
  assert (version_ends letter = false /\ st <> 0 /\
    OSKextVersionStageForString (letter :: (xd <$> d :: ds) ++ 0 :: junk) = Some (st, (xd <$> d :: ds) ++ 0 :: junk))
    as (-> & Hst0 & ->).
  { apply Forall_cons in Hds as [Hd _]. destruct (xd_digit d Hd) as [Hdig _].
    rewrite fmap_cons. unfold OSKextVersionStageForString. cbn [head app].
    change (zget (letter :: xd d :: (xd <$> ds) ++ 0 :: junk) 1) with (Some (xd d)). rewrite !bind_some, Hdig.
    repeat (apply elem_of_cons in Hst as [[= -> ->]|Hst]; [split_and!; reflexivity || done|]).
    by apply not_elem_of_nil in Hst. }
  rewrite bind_some, decide_False by done.
  replace 3%nat with (length (d :: ds) + (3 - length (d :: ds)))%nat by lia.
  rewrite level_loop_digits, Hval by done. destruct (3 - length (d :: ds))%nat; [|done].
  cbn [level_loop]. rewrite !bind_some. cbn [head]. rewrite bind_some.
  change (negb (version_ends 0)) with false. cbv iota. by rewrite decide_False by lia.
Qed.

Lemma stage_cases v :
  valid v -> (vers_stage v = 9 /\ vers_stage_level v = 0 /\ stage_text v = []) \/
  exists letter, (letter, vers_stage v) ∈ [(100, 1); (97, 3); (98, 5); (102, 7)] /\ vers_stage v < 9 /\
    OSKextVersionStringForStage (vers_stage v) = Some [letter] /\ stage_text v = letter :: fmt_u (vers_stage_level v).
Proof.
  intros (_ & _ & _ & Hs & _ & H9 & _). unfold stage_text. destruct v as [ma mi re st le]. cbn in *.
  repeat (apply elem_of_cons in Hs as [-> | Hs]; [first [left; by auto|right; eexists; split_and!; [|done|done|done]; set_solver]|]).
  by apply not_elem_of_nil in Hs.
Qed.

Lemma release_state_text v ma mi re junk :
  valid v ->
  at_stage (stage_text v ++ 0 :: junk) /\
  release_state ma mi re (stage_text v ++ 0 :: junk) = Some (vers_finish (Version ma mi re (vers_stage v) (vers_stage_level v))).
Proof.
  intros Hv. destruct (stage_cases v Hv) as [(H9 & H0 & ->)|(letter & Hin & _ & _ & ->)].
  - split; [exists 0, junk; split; [done|set_solver]|]. by rewrite H9, H0, release_state_end.
  - split.
    + exists letter, (fmt_u (vers_stage_level v) ++ 0 :: junk). split; [done|set_solver].
    + destruct Hv as (_ & _ & _ & _ & Hle & _). by apply release_state_level.
Qed.

Lemma parse_text v junk : valid v -> OSKextParseVersionString (Some (version_text v ++ 0 :: junk)) = Some (pack v).
Proof.
  intros Hv. rewrite <-(finish_valid v Hv). pose proof Hv as (Hma & Hmi & Hre & _).
  destruct (fmt_u_digits (vers_major v) ltac:(lia)) as (d & ds & Hmaj & Hds & Hlen & Hnum).
  destruct (fmt_u_digits (vers_minor v) ltac:(lia)) as (e & es & Hmin & Hes & Helen & Henum).
  destruct (fmt_u_digits (vers_revision v) ltac:(lia)) as (f & fs & Hrev & Hfs & Hflen & Hfnum).
  apply Forall_cons in Hds as [Hd Hds]. destruct (xd_digit d Hd) as [Hdig Hdval].
  unfold version_text. rewrite Hmaj, <-!app_assoc, fmap_cons. unfold OSKextParseVersionString.
  cbn [app head tail]. rewrite bind_some, Hdval.
  rewrite decide_False by (intros H0; by rewrite H0 in Hdig). rewrite decide_False by lia.
  change (4 - 1)%nat with 3%nat. rewrite scan_number_dot by (done || simpl in Hlen; lia).
  rewrite bind_some. change (number 10 d ds) with (number 10 0 (d :: ds)). rewrite Hnum, Hmin.
  case_decide as Hr0.
  - cbn [app]. unfold parse_minor. rewrite scan_number_dot, bind_some by done.
    rewrite Henum, Hrev. destruct (release_state_text v (vers_major v) (vers_minor v) (vers_revision v) junk Hv) as [Hat Hrel].
    rewrite parse_revision_stage, Hfnum, Hrel by done. by destruct v.
  - destruct (release_state_text v (vers_major v) (vers_minor v) 0 junk Hv) as [Hat Hrel].
    cbn [app]. rewrite parse_minor_stage, Henum, Hrel by done. do 3 f_equal. destruct v; cbn in *. f_equal. lia.
Qed.

(** ** Printing *)

(** A buffer of [n] bytes that holds a text and zeros. *)
Definition padded (text : list Z) (n : Z) : list Z := text ++ replicate (Z.to_nat n - length text) 0.

Lemma padded_store text more n :
  Z.of_nat (length text) + Z.of_nat (length more) < n ->
  store_at (padded text n) (Z.of_nat (length text)) (more ++ [0]) = Some (padded (text ++ more) n).
Proof.
  intros Hn. unfold store_at, padded. rewrite decide_True by (rewrite !length_app, length_replicate; simpl; lia).
  rewrite Nat2Z.id, take_app_length, drop_app_add, drop_replicate, <-!app_assoc, !length_app. cbn [length].
  replace (Z.to_nat n - (length text + length more))%nat
    with (S (Z.to_nat n - length text - (length more + 1)))%nat by lia. done.
Qed.

Lemma padded_scnprintf text more n :
  Z.of_nat (length text) + Z.of_nat (length more) < n ->
  scnprintf (padded text n) (Z.of_nat (length text)) (n - Z.of_nat (length text)) more
  = Some (Z.of_nat (length more), padded (text ++ more) n).
Proof.
  intros Hn. unfold scnprintf. rewrite decide_False by lia. cbv zeta. rewrite take_ge by lia.
  by rewrite padded_store, bind_some.
Qed.

Lemma padded_zset text c n :
  Z.of_nat (length text) < n -> zset (padded text n) (Z.of_nat (length text)) c = Some (padded (text ++ [c]) n).
Proof.
  intros Hn. unfold padded. replace (Z.to_nat n - length text)%nat with (S (Z.to_nat n - S (length text))) by lia.
  cbn [replicate]. rewrite zset_middle by done. rewrite <-app_assoc, length_app. cbn [length app].
  by replace (length text + 1)%nat with (S (length text)) by lia.
Qed.

Lemma padded_dot_number text k n :
  Z.of_nat (length text) + Z.of_nat (length (fmt_u k)) + 1 < n -> 0 <= k < 10000 ->
  dot_number (padded text n) n (Z.of_nat (length text)) k
  = Some (Z.of_nat (length (text ++ 46 :: fmt_u k)), padded (text ++ 46 :: fmt_u k) n).
Proof.
  intros Hn Hk. unfold dot_number. rewrite padded_zset, bind_some by lia. rewrite wrap_small by (unfold in_word; lia).
  pose proof (padded_scnprintf (text ++ [46]) (fmt_u k) n) as Hp. rewrite length_app in Hp. cbn [length] in Hp.
  rewrite Nat2Z.inj_add in Hp. change (Z.of_nat 1) with 1 in Hp. rewrite Hp by lia. rewrite bind_some.
  rewrite <-app_assoc, length_app. cbn [app length]. do 2 f_equal. lia.
Qed.

Lemma strchr_from_padded text n i :
  0 ∉ text -> Z.of_nat (length text) < n -> strchr_from i (padded text n) 0 = Some (i + Z.of_nat (length text)).
Proof.
  unfold padded. revert i n. induction text as [|c text IH]; intros i n Hnz Hn.
  - simpl in *. replace (Z.to_nat n - 0)%nat with (S (Z.to_nat n - 1)) by lia. simpl. f_equal. lia.
  - apply not_elem_of_cons in Hnz as [Hc Hnz]. cbn [app strchr_from length] in *. rewrite decide_False by done.
    replace (Z.to_nat n - S (length text))%nat with (Z.to_nat (n - 1) - length text)%nat by lia.
    rewrite (IH (i + 1) (n - 1)) by (done || lia). f_equal. lia.
Qed.

Lemma padded_strlcat text more n :
  0 ∉ text -> Z.of_nat (length text) + Z.of_nat (length more) < n ->
  strlcat (padded text n) more n = Some (padded (text ++ more) n).
Proof.
  intros Hnz Hn. unfold strlcat, strchr. rewrite strchr_from_padded, bind_some by (done || lia).
  by rewrite Z.add_0_l, padded_scnprintf.
Qed.

Lemma fmt_u_plain n : 0 <= n < 10000 -> (0 ∉ fmt_u n) /\ (length (fmt_u n) <= 4)%nat.
Proof.
  intros Hn. destruct (fmt_u_digits n Hn) as (d & ds & -> & Hds & Hlen & _). split; [|by rewrite length_fmap].
  intros (x & Hx & Hin)%list_elem_of_fmap. rewrite Forall_forall in Hds. specialize (Hds x Hin).
  destruct (xd_digit x Hds) as [Hdig _]. by rewrite <-Hx in Hdig.
Qed.

Lemma fmt_u_level n : 0 <= n < 256 -> (length (fmt_u n) <= 3)%nat.
Proof. intros Hn. destruct (fmt_u_spec n Hn) as (d & ds & -> & _ & Hlen & _). by rewrite length_fmap. Qed.

Lemma store_zeros buffer n :
  Z.of_nat (length buffer) = n -> store_at buffer 0 (replicate (Z.to_nat n) 0) = Some (padded [] n).
Proof.
  intros Hn. unfold store_at, padded. rewrite length_replicate, decide_True by lia. cbn [app length].
  rewrite drop_ge by lia. rewrite app_nil_r. cbn. by rewrite Nat.sub_0_r.
Qed.

(** The numbers of a version, before its stage. *)
Definition numbers_text (v : version) : list Z :=
  fmt_u (vers_major v) ++ 46 :: fmt_u (vers_minor v) ++
  (if decide (vers_revision v <> 0) then 46 :: fmt_u (vers_revision v) else []).

Lemma numbers_text_plain v : valid v -> (0 ∉ numbers_text v) /\ (length (numbers_text v) <= 14)%nat.
Proof.
  intros (Hma & Hmi & Hre & _). unfold numbers_text.
  destruct (fmt_u_plain (vers_major v) ltac:(lia)) as [Hz1 Hl1]. destruct (fmt_u_plain (vers_minor v) ltac:(lia)) as [Hz2 Hl2].
  destruct (fmt_u_plain (vers_revision v) ltac:(lia)) as [Hz3 Hl3]. split.
  - case_decide; set_solver.
  - rewrite length_app. cbn [length]. rewrite length_app. case_decide; cbn [length]; lia.
Qed.

(** The part of the function that prints the numbers. *)
Lemma print_numbers v n {A} (k : Z -> list Z -> option A) :
  valid v -> 20 <= n ->
  ('(cpos, buffer) ← scnprintf (padded [] n) 0 n (fmt_u (u32 (vers_major v)));
   '(cpos, buffer) ← dot_number buffer n cpos (vers_minor v);
   '(cpos, buffer) ← (if decide (vers_revision v <> 0) then dot_number buffer n cpos (vers_revision v)
                      else Some (cpos, buffer));
   k cpos buffer)
  = k (Z.of_nat (length (numbers_text v))) (padded (numbers_text v) n).
Proof.
  intros Hv Hn. pose proof (numbers_text_plain v Hv) as [_ Hlen]. destruct Hv as (Hma & Hmi & Hre & _).
  pose proof (fmt_u_plain (vers_major v) ltac:(lia)) as [_ Hl1]. pose proof (fmt_u_plain (vers_minor v) ltac:(lia)) as [_ Hl2].
  pose proof (fmt_u_plain (vers_revision v) ltac:(lia)) as [_ Hl3].
  rewrite (wrap_small 32) by (unfold in_word; lia).
  pose proof (padded_scnprintf [] (fmt_u (vers_major v)) n) as Hfirst. change (Z.of_nat (length (@nil Z))) with 0 in Hfirst.
  rewrite Z.sub_0_r in Hfirst. rewrite Hfirst, bind_some by lia. cbn [app].
  rewrite padded_dot_number, bind_some by lia. unfold numbers_text. case_decide; [|by rewrite app_nil_r].
  rewrite padded_dot_number, bind_some by (rewrite ?length_app; cbn [length]; lia). by rewrite <-!app_assoc.
Qed.

Lemma getstring_text v buffer n :
  valid v -> Z.of_nat (length buffer) = n -> 20 <= n ->
  OSKextVersionGetString (pack v) (Some buffer) n = Some (true, padded (version_text v) n).
Proof.
  intros Hv Hlen Hn. pose proof Hv as (Hma & Hmi & Hre & _ & Hle & _). pose proof (valid_stage v Hv) as Hst.
  pose proof (numbers_text_plain v Hv) as [Hzb Hlb]. pose proof (fmt_u_level (vers_stage_level v) ltac:(lia)) as Hl4.
  unfold OSKextVersionGetString. rewrite decide_False by lia.
  rewrite store_zeros, bind_some by done.
  assert (0 < pack v) as Hpos by (unfold pack; lia).
  rewrite (decide_False (P := pack v < 0)), (decide_False (P := pack v = 0)) by lia. cbv zeta.
  rewrite unpack_pack by done.
  rewrite (decide_False (P := 9999 < vers_major v)), (decide_False (P := 255 < vers_stage_level v)) by lia.
  etrans; [by apply (print_numbers v n (fun cpos buffer => _))|]. cbv beta.
  assert (version_text v = numbers_text v ++ stage_text v) as ->.
  { unfold version_text, numbers_text. rewrite <-!app_assoc. cbn [app]. by rewrite <-!app_assoc. }
  destruct (stage_cases v Hv) as [(H9 & _ & ->)|(letter & _ & Hlt & -> & ->)].
  - rewrite H9, app_nil_r. reflexivity.
  - rewrite decide_True by done. rewrite padded_strlcat, bind_some by (done || simpl; lia).
    rewrite decide_True, (wrap_small 32) by (done || unfold in_word; lia).
    pose proof (padded_scnprintf (numbers_text v ++ [letter]) (fmt_u (vers_stage_level v)) n) as Hlast.
    rewrite length_app, Nat2Z.inj_add in Hlast. rewrite Hlast by (simpl; lia). rewrite bind_some.
    by rewrite <-app_assoc.
Qed.

(** ** Properties *)

Lemma padded_terminated text n :
  Z.of_nat (length text) < n -> exists junk, padded text n = text ++ 0 :: junk.
Proof.
  intros Hn. exists (replicate (Z.to_nat n - S (length text)) 0). unfold padded.
  by replace (Z.to_nat n - length text)%nat with (S (Z.to_nat n - S (length text))) by lia.
Qed.

Lemma version_text_length v : valid v -> Z.of_nat (length (version_text v)) <= 18.
Proof.
  intros Hv. pose proof (numbers_text_plain v Hv) as [_ Hl]. pose proof Hv as (_ & _ & _ & _ & Hle & _).
  pose proof (fmt_u_level (vers_stage_level v) ltac:(lia)) as Hl4.
  assert (version_text v = numbers_text v ++ stage_text v) as ->.
  { unfold version_text, numbers_text. rewrite <-!app_assoc. cbn [app]. by rewrite <-!app_assoc. }
  rewrite length_app. destruct (stage_cases v Hv) as [(_ & _ & ->)|(letter & _ & _ & _ & ->)]; cbn [length]; lia.
Qed.

(** C34. A version string that ends in NUL is parsed without a fault, and what is
    accepted survives: [OSKextVersionGetString] prints the number to every buffer of
    20 bytes or more, and parsing the buffer gives the number again. *)
Theorem kext_version_roundtrip (t junk buffer : list Z) (n : Z) :
  Z.of_nat (length buffer) = n -> kOSKextVersionMaxLength <= n ->
  exists r, OSKextParseVersionString (Some (t ++ 0 :: junk)) = Some r /\
    (r = -1 \/ 0 < r < 2 ^ 63 /\ exists buffer', OSKextVersionGetString r (Some buffer) n = Some (true, buffer') /\
       length buffer' = length buffer /\ OSKextParseVersionString (Some buffer') = Some r).
Proof.
  intros Hlen Hn.
  destruct (parse_ok (t ++ 0 :: junk)) as (r & Hr & [-> | (v & Hv & ->)]); [by exists t, junk|exists (-1); auto|].
  exists (pack v). split; [done|right]. pose proof (version_text_length v Hv) as Hl. split.
  { pose proof (valid_stage v Hv). destruct Hv as (? & ? & ? & _ & ? & _).
    unfold pack. lia. }
  exists (padded (version_text v) n). split; [by apply getstring_text|]. split.
  - unfold padded. rewrite length_app, length_replicate. lia.
  - destruct (padded_terminated (version_text v) n ltac:(lia)) as (rest & ->). by apply parse_text.
Qed.

Lemma kext_version_roundtrip_witness :
  exists r, OSKextParseVersionString (Some (bytes_of_string "10.4.2fc12" ++ 0 :: [])) = Some r /\
    (r = -1 \/ 0 < r < 2 ^ 63 /\ exists buffer', OSKextVersionGetString r (Some (replicate 20 7)) 20 = Some (true, buffer') /\
       length buffer' = 20%nat /\ OSKextParseVersionString (Some buffer') = Some r).
Proof. by apply (kext_version_roundtrip (bytes_of_string "10.4.2fc12") [] (replicate 20 7) 20). Defined.

(** Older: by the first part that differs. *)
Definition older (x y : version) : Prop :=
  vers_major x < vers_major y \/ (vers_major x = vers_major y /\
  (vers_minor x < vers_minor y \/ (vers_minor x = vers_minor y /\
  (vers_revision x < vers_revision y \/ (vers_revision x = vers_revision y /\
  (vers_stage x < vers_stage y \/ (vers_stage x = vers_stage y /\ vers_stage_level x < vers_stage_level y))))))).

(** The numbers of two versions are ordered as the versions are: by major
    version, then minor version, revision, stage (development, alpha, beta, candidate,
    release) and level. *)
Theorem kext_version_order (x y : version) :
  valid x -> valid y ->
  exists r s, OSKextParseVersionString (Some (version_text x ++ [0])) = Some r /\
    OSKextParseVersionString (Some (version_text y ++ [0])) = Some s /\ (r < s <-> older x y) /\ (r = s <-> x = y).
Proof.
  intros Hx Hy. exists (pack x), (pack y). split_and!; [by apply parse_text|by apply parse_text| |].
  - pose proof (valid_stage x Hx). pose proof (valid_stage y Hy).
    destruct Hx as (? & ? & ? & _ & ? & _), Hy as (? & ? & ? & _ & ? & _). unfold older, pack.
    lia.
  - split; [|by intros ->]. intros Heq. by rewrite <-(unpack_pack x Hx), Heq, unpack_pack.
Qed.

Lemma kext_version_order_witness :
  exists r s, OSKextParseVersionString (Some (version_text (Version 1 2 0 5 3) ++ [0])) = Some r /\
    OSKextParseVersionString (Some (version_text (Version 1 2 0 9 0) ++ [0])) = Some s /\
    (r < s <-> older (Version 1 2 0 5 3) (Version 1 2 0 9 0)) /\ (r = s <-> Version 1 2 0 5 3 = Version 1 2 0 9 0).
Proof.
  apply (kext_version_order (Version 1 2 0 5 3) (Version 1 2 0 9 0)); unfold valid; cbn;
    (split_and!; try lia; apply (bool_decide_unpack _); vm_compute; exact I).
Defined.

(** A revision of four digits may be followed by a period, and by nothing or a
    stage after it, which shorter revisions may not. *)
Theorem kext_version_stray_period :
  OSKextParseVersionString (Some (bytes_of_string "1.2.3456.d1" ++ [0])) = Some (pack (Version 1 2 3456 1 1)) /\
  OSKextParseVersionString (Some (bytes_of_string "1.2.345.d1" ++ [0])) = Some (-1).
Proof. split; vm_compute; reflexivity. Qed.
