(* ===== verification/Mkext.v ===== *)
(** * Extension archives: checksum and decompression

    [mkext_adler32] and [decompress_lzss] of [libkern/mkext.c], which check and
    unpack the archives of kernel extensions.  The checksum is shown to be Adler-32.
    The decompressor is shown never to leave its buffers, whatever the compressed
    data are, and to invert the LZSS format: from the encoding of literals and back
    references it recovers what they stand for. *)
From S2P Require Import Prelude.

Local Open Scope Z_scope.

(** ** Adler-32 *)

Abbreviation BASE := (65521)%Z.
Abbreviation NMAX := (5552)%Z.

(** [DO1]: [s1] and [s2] are [unsigned long]. *)
Definition DO1 (buf : list Z) (i : Z) (st : Z * Z) : option (Z * Z) :=
  let '(s1, s2) := st in
  b ← zget buf i;
  let s1 := u64 (s1 + b) in
  Some (s1, u64 (s2 + s1)).

(** [n] bytes from [pos] on. *)
Definition DO (n : nat) (buf : list Z) (pos : Z) (st : Z * Z) : option (Z * Z) :=
  for_range n (fun i st => DO1 buf (pos + Z.of_nat i) st) st.

(** The inner loop over blocks of 16 bytes; the result is the position, what is
    left of [k] and the sums. *)
Fixpoint adler_blocks (fuel : nat) (buf : list Z) (pos k : Z) (st : Z * Z) : option (Z * Z * (Z * Z)) :=
  match fuel with
  | O => None
  | S fuel =>
      if decide (16 <= k) then
        st ← DO 16 buf pos st;
        adler_blocks fuel buf (pos + 16) (k - 16) st
      else Some (pos, k, st)
  end.

Fixpoint adler_loop (fuel : nat) (buf : list Z) (pos len : Z) (st : Z * Z) : option (Z * Z) :=
  match fuel with
  | O => None
  | S fuel =>
      if decide (0 < len) then
        let k := if decide (len < NMAX) then len else NMAX in
        let len := len - k in
        '(pos, k, st) ← adler_blocks (S (Z.to_nat (k / 16))) buf pos k st;
        '(s1, s2) ← (if decide (k <> 0) then DO (Z.to_nat k) buf pos st else Some st);
        adler_loop fuel buf (pos + k) len (s1 mod BASE, s2 mod BASE)
      else Some st
  end.

Definition mkext_adler32 (buf : list Z) (len : Z) : option Z :=
  '(s1, s2) ← adler_loop (S (Z.to_nat (len / NMAX + 1))) buf 0 len (1, 0);
  Some (u32 (Z.lor (u64 (Z.shiftl s2 16)) s1)).

(** ** LZSS *)

Abbreviation N := (4096)%Z.
Abbreviation F := (18)%Z.
Abbreviation THRESHOLD := (2)%Z.

(** What has been stored at [dst], the ring [text_buf], [r] and [flags], and the
    part of the source that is left. *)
Record lzss := Lzss { out : list Z; text_buf : list Z; r : Z; flags : Z; src : list Z }.

(** Either the output at [finish], or the state in which the code goes on. *)
Definition outcome : Type := list Z + lzss.

(** [*dst++ = c; if (dst >= dstend) goto finish; text_buf[r++] = c; r &= N - 1]; a
    store outside of the [dstlen] bytes is a fault. *)
Definition emit_byte (dstlen c : Z) (st : lzss) : option outcome :=
  if decide (Z.of_nat (length (out st)) < dstlen) then
    let out := out st ++ [c] in
    if decide (dstlen <= Z.of_nat (length out)) then Some (inl out) else
    text_buf ← zset (text_buf st) (r st) c;
    Some (inr (Lzss out text_buf (Z.land (r st + 1) (N - 1)) (flags st) (src st)))
  else None.

(** The copy of [n] bytes from the ring; [k] is its counter. *)
Fixpoint copy_loop (n : nat) (dstlen i k : Z) (st : lzss) : option outcome :=
  match n with
  | O => Some (inr st)
  | S n =>
      c ← zget (text_buf st) (Z.land (i + k) (N - 1));
      res ← emit_byte dstlen c st;
      match res with
      | inl out => Some (inl out)
      | inr st => copy_loop n dstlen i (k + 1) st
      end
  end.

Definition set_src (st : lzss) (src : list Z) : lzss := Lzss (out st) (text_buf st) (r st) (flags st) src.
Definition set_flags (st : lzss) (flags : Z) : lzss := Lzss (out st) (text_buf st) (r st) flags (src st).

(** A literal or a reference, when the flags are there; [inl] also stands for
    [break] when the source is used up. *)
Definition lzss_item (dstlen : Z) (st : lzss) : option outcome :=
  if decide (Z.land (flags st) 1 <> 0) then
    match src st with
    | [] => Some (inl (out st))
    | c :: s => emit_byte dstlen c (set_src st s)
    end
  else
    match src st with
    | i :: j :: s =>
        let i := Z.lor i (Z.shiftl (Z.land j 240) 4) in
        let j := Z.land j 15 + THRESHOLD in
        copy_loop (Z.to_nat (j + 1)) dstlen i 0 (set_src st s)
    | _ => Some (inl (out st))
    end.

Fixpoint lzss_loop (fuel : nat) (dstlen : Z) (st : lzss) : option (list Z) :=
  match fuel with
  | O => None
  | S fuel =>
      let flags := Z.shiftr (flags st) 1 in
      let st := set_flags st flags in
      st' ← (if decide (Z.land flags 256 = 0) then
               match src st with
               | [] => Some None
               | c :: s => Some (Some (set_flags (set_src st s) (Z.lor c 65280)))
               end
             else Some (Some st));
      match st' with
      | None => Some (out st)
      | Some st =>
          res ← lzss_item dstlen st;
          match res with inl out => Some out | inr st => lzss_loop fuel dstlen st end
      end
  end.

(** [stack] is the uninitialised array [text_buf]; the result is what is stored at
    [dst]. *)
Definition decompress_lzss (dstlen : Z) (srcbuf : list Z) (srclen : Z) (stack : list Z) : option (list Z) :=
  text_buf ← for_range (Z.to_nat (N - F)) (fun i tb => zset tb (Z.of_nat i) 32) stack;
  if decide (0 <= srclen <= Z.of_nat (length srcbuf)) then
    let src := take (Z.to_nat srclen) srcbuf in
    lzss_loop (S (S (length src))) dstlen (Lzss [] text_buf (N - F) 0 src)
  else None.

(** ** The checksum as specified *)

(** RFC 1950: the sum of the bytes plus 1, and the sum of the sums. *)
Definition adler_step (ab : Z * Z) (x : Z) : Z * Z :=
  let a := (ab.1 + x) mod BASE in (a, (ab.2 + a) mod BASE).

Definition adler_sums (bytes : list Z) : Z * Z := foldl adler_step (1, 0) bytes.

Definition adler32 (bytes : list Z) : Z := let '(a, b) := adler_sums bytes in b * 65536 + a.

Lemma adler_sums_snoc bytes x :
  (adler_sums (bytes ++ [x])).1 = ((adler_sums bytes).1 + x) mod BASE /\
  (adler_sums (bytes ++ [x])).2 = ((adler_sums bytes).2 + ((adler_sums bytes).1 + x) mod BASE) mod BASE.
Proof. unfold adler_sums. by rewrite foldl_app. Qed.

Lemma adler_sums_range bytes :
  0 <= (adler_sums bytes).1 < BASE /\ 0 <= (adler_sums bytes).2 < BASE.
Proof.
  unfold adler_sums. induction bytes as [|x bytes IH] using rev_ind; [done|]. rewrite foldl_app. cbn.
  split; apply Z.mod_pos_bound; done.
Qed.

(** The sums after [i] bytes since the last reduction, [pos] bytes in all. *)
Definition sums_ok (buf : list Z) (pos i : Z) (st : Z * Z) : Prop :=
  0 <= st.1 <= 65520 + 255 * i /\ 0 <= st.2 <= 65520 + 1481280 * i /\
  st.1 mod BASE = (adler_sums (take (Z.to_nat pos) buf)).1 /\
  st.2 mod BASE = (adler_sums (take (Z.to_nat pos) buf)).2.

Lemma DO1_ok buf pos i st :
  bytes_ok buf -> 0 <= pos < Z.of_nat (length buf) -> 0 <= i < NMAX -> sums_ok buf pos i st ->
  exists st', DO1 buf pos st = Some st' /\ sums_ok buf (pos + 1) (i + 1) st'.
Proof.
  intros Hbuf Hpos Hi (H1 & H2 & Ha & Hb). destruct st as [s1 s2]. cbn [fst snd] in *.
  destruct (zget_is_Some buf pos) as [x Hx]; [lia|]. unfold DO1. rewrite Hx, bind_some.
  assert (byte_ok x) as Hxb by (apply zget_Some in Hx as [_ Hx]; by eapply Forall_lookup_1). unfold in_word in Hxb.
  rewrite !wrap_small by (unfold in_word; rewrite ?wrap_small by (unfold in_word; lia); lia).
  eexists. split; [done|].
  unfold sums_ok. replace (Z.to_nat (pos + 1)) with (S (Z.to_nat pos)) by lia.
  apply zget_Some in Hx as [_ Hx]. rewrite (take_S_r _ _ x Hx).
  destruct (adler_sums_snoc (take (Z.to_nat pos) buf) x) as [-> ->]. rewrite <-Ha, <-Hb. cbn [fst snd].
  split_and!; [lia..| |].
  - by rewrite Zplus_mod_idemp_l.
  - rewrite Zplus_mod_idemp_l. rewrite Zplus_mod_idemp_l, Zplus_mod_idemp_r. done.
Qed.

Lemma DO_ok n buf pos i st :
  bytes_ok buf -> 0 <= pos -> pos + Z.of_nat n <= Z.of_nat (length buf) -> 0 <= i -> i + Z.of_nat n <= NMAX ->
  sums_ok buf pos i st ->
  exists st', DO n buf pos st = Some st' /\ sums_ok buf (pos + Z.of_nat n) (i + Z.of_nat n) st'.
Proof.
  intros Hbuf Hpos Hend Hi Hmax Hst.
  apply (for_range_inv (fun j st => sums_ok buf (pos + Z.of_nat j) (i + Z.of_nat j) st)).
  - by rewrite !Z.add_0_r.
  - intros j t Hj Ht. destruct (DO1_ok buf (pos + Z.of_nat j) (i + Z.of_nat j) t) as (t' & -> & Ht'); [done|lia..|done|].
    exists t'. split; [done|]. rewrite Nat2Z.inj_succ. by rewrite <-!Z.add_1_r, !Z.add_assoc.
Qed.

Lemma adler_blocks_ok fuel buf pos i k st :
  bytes_ok buf -> 0 <= pos -> 0 <= k -> pos + k <= Z.of_nat (length buf) -> 0 <= i -> i + k <= NMAX ->
  k / 16 < Z.of_nat fuel -> sums_ok buf pos i st ->
  exists m st', adler_blocks fuel buf pos k st = Some (pos + m, k - m, st') /\ 0 <= m <= k /\
    sums_ok buf (pos + m) (i + m) st'.
Proof.
  intros Hbuf. revert pos i k st. induction fuel as [|fuel IH]; intros pos i k st Hpos Hk Hend Hi Hmax Hf Hst.
  { pose proof (Z.div_pos k 16). lia. }
  cbn [adler_blocks]. destruct (decide (16 <= k)) as [H16|].
  - destruct (DO_ok 16 buf pos i st) as (st1 & -> & Hst1); [done|lia..|done|]. rewrite bind_some.
    destruct (IH (pos + 16) (i + 16) (k - 16) st1) as (m & st' & -> & Hm & Hst'); try done; try lia.
    { replace k with (k - 16 + 1 * 16) in Hf by lia. rewrite Z.div_add in Hf by lia. lia. }
    exists (16 + m), st'. split_and!; [do 3 f_equal; lia|lia..|]. by rewrite !Z.add_assoc.
  - exists 0, st. rewrite !Z.add_0_r, Z.sub_0_r. done.
Qed.

Lemma sums_ok_reduce buf pos i st : sums_ok buf pos i st -> sums_ok buf pos 0 (st.1 mod BASE, st.2 mod BASE).
Proof.
  intros (H1 & H2 & Ha & Hb). unfold sums_ok. cbn [fst snd]. rewrite !Z.mod_mod by done.
  pose proof (Z.mod_pos_bound st.1 BASE ltac:(done)). pose proof (Z.mod_pos_bound st.2 BASE ltac:(done)).
  split_and!; done || lia.
Qed.

Lemma adler_loop_ok fuel buf pos len st :
  bytes_ok buf -> 0 <= pos -> 0 <= len -> pos + len <= Z.of_nat (length buf) -> len <= NMAX * (Z.of_nat fuel - 1) -> (0 < fuel)%nat ->
  sums_ok buf pos 0 st -> 0 <= st.1 < BASE -> 0 <= st.2 < BASE ->
  adler_loop fuel buf pos len st = Some (adler_sums (take (Z.to_nat (pos + len)) buf)).
Proof.
  intros Hbuf. revert pos len st. induction fuel as [|fuel IH]; intros pos len st Hpos Hlen Hend Hf Hfuel Hst H1 H2; [lia|].
  cbn [adler_loop]. destruct (decide (0 < len)) as [Hl|].
  - cbv zeta. remember (if decide (len < NMAX) then len else NMAX) as k eqn:Hk.
    assert (0 < k <= len /\ k <= NMAX /\ len - k <= NMAX * (Z.of_nat fuel - 1) /\ (0 < fuel)%nat) as (Hk1 & Hk2 & Hf' & Hf0).
    { destruct (decide (len < NMAX)) as [Hs|Hs]; subst k; split_and!; lia. }
    destruct (adler_blocks_ok (S (Z.to_nat (k / 16))) buf pos 0 k st) as (m & st1 & -> & Hm & Hst1); try done; try lia.
    rewrite bind_some.
    assert (exists st2, (if decide (k - m <> 0) then DO (Z.to_nat (k - m)) buf (pos + m) st1 else Some st1) = Some st2 /\
      sums_ok buf (pos + k) k st2) as ([s1 s2] & -> & Hst2).
    { destruct (decide (k - m <> 0)) as [Hkm|Hkm].
      - destruct (DO_ok (Z.to_nat (k - m)) buf (pos + m) (0 + m) st1) as (st2 & -> & Hst2); try done; try lia.
        exists st2. split; [done|]. rewrite Z2Nat.id in Hst2 by lia.
        replace (pos + m + (k - m)) with (pos + k) in Hst2 by lia. by replace (0 + m + (k - m)) with k in Hst2 by lia.
      - exists st1. split; [done|]. assert (m = k) as -> by lia. by rewrite Z.add_0_l in Hst1. }
    rewrite bind_some. replace (pos + m + (k - m)) with (pos + k) by lia.
    rewrite (IH (pos + k) (len - k)); try done; try lia.
    + do 4 f_equal. lia.
    + by apply sums_ok_reduce in Hst2.
    + cbn. apply Z.mod_pos_bound. done.
    + cbn. apply Z.mod_pos_bound. done.
  - assert (len = 0) as -> by lia. rewrite Z.add_0_r. destruct Hst as (_ & _ & Ha & Hb).
    rewrite Z.mod_small in Ha by done. rewrite Z.mod_small in Hb by done. f_equal.
    rewrite (surjective_pairing (adler_sums _)), <-Ha, <-Hb. by destruct st.
Qed.

(** ** The LZSS format *)

(** A byte, or [len] bytes that are repeated from [distance] before. *)
Inductive token := Literal (c : Z) | Match (distance len : Z).

Definition token_ok (t : token) : Prop :=
  match t with
  | Literal c => byte_ok c
  | Match d l => 1 <= d <= 4096 /\ 3 <= l <= 18
  end.

#[export] Instance token_ok_dec t : Decision (token_ok t).
Proof. destruct t; unfold token_ok; apply _. Defined.

(** What the tokens stand for: the text [h] goes on with a byte, or with bytes that
    are repeated one by one. *)
Fixpoint copy_back (n : nat) (d : Z) (h : list Z) : option (list Z) :=
  match n with
  | O => Some h
  | S n => c ← zget h (Z.of_nat (length h) - d); copy_back n d (h ++ [c])
  end.

Definition expand (h : list Z) (t : token) : option (list Z) :=
  match t with Literal c => Some (h ++ [c]) | Match d l => copy_back (Z.to_nat l) d h end.

Fixpoint expand_all (h : list Z) (ts : list token) : option (list Z) :=
  match ts with [] => Some h | t :: ts => h ← expand h t; expand_all h ts end.

(** The text that precedes every archive. *)
Definition SPACES : list Z := replicate 4078 32.

(** The bytes of a token at position [n] of the text: a reference is the position
    in the ring, 12 bits, and the length minus 3, 4 bits. *)
Definition token_size (t : token) : Z := match t with Literal _ => 1 | Match _ l => l end.

Definition token_bytes (n : Z) (t : token) : list Z :=
  match t with
  | Literal c => [c]
  | Match d l => let pos := (n - d) mod 4096 in [pos mod 256; pos / 256 * 16 + (l - 3)]
  end.

(** Which of up to eight tokens are literals, a bit each. *)
Definition flag (t : token) : Z := match t with Literal _ => 1 | Match _ _ => 0 end.
Definition flag_byte (ts : list token) : Z := foldr (fun t f => flag t + 2 * f) 0 ts.

(** The stream: before every eight tokens there is the byte with their flags; [k] is
    the number of tokens that the last such byte still covers. *)
Fixpoint encode (k : nat) (n : Z) (ts : list token) : list Z :=
  match ts with
  | [] => []
  | t :: ts' =>
      (match k with O => [flag_byte (take 8 ts)] | S _ => [] end) ++ token_bytes n t
      ++ encode (match k with O => 7 | S k => k end) (n + token_size t) ts'
  end.

(** ** The ring *)

(** The state after the text [h], which starts with [SPACES]. *)
Definition follows (h : list Z) (st : lzss) : Prop :=
  length (text_buf st) = 4113%nat /\ (4078 <= length h)%nat /\ r st = Z.of_nat (length h) mod 4096 /\
  out st = drop 4078 h /\
  forall j, 0 <= j -> Z.of_nat (length h) - 4096 <= j < Z.of_nat (length h) ->
    zget (text_buf st) (j mod 4096) = zget h j.

(** The output stopped inside of the text [h], when it was full. *)
Definition full_within (dstlen : Z) (h o : list Z) : Prop :=
  exists h1, h1 `prefix_of` h /\ (4078 <= length h1)%nat /\ o = drop 4078 h1 /\ Z.of_nat (length o) = dstlen.

(** Both outcomes of a step that lengthens the text to [h]. *)
Definition reaches (dstlen : Z) (h : list Z) (fl : Z) (s : list Z) (res : outcome) : Prop :=
  match res with
  | inl o => full_within dstlen h o
  | inr st => follows h st /\ flags st = fl /\ src st = s /\ Z.of_nat (length (out st)) < dstlen
  end.

Lemma land_4095 x : Z.land x (N - 1) = x mod 4096.
Proof. change (N - 1) with (Z.ones 12). by rewrite Z.land_ones. Qed.

Lemma emit_ok dstlen h c st :
  follows h st -> Z.of_nat (length (out st)) < dstlen ->
  exists res, emit_byte dstlen c st = Some res /\ reaches dstlen (h ++ [c]) (flags st) (src st) res.
Proof.
  intros (Htb & Hh & Hr & Ho & Hring) Hlen. unfold emit_byte. rewrite decide_True by done. cbv zeta.
  assert (out st ++ [c] = drop 4078 (h ++ [c])) as Hout by (by rewrite Ho, drop_app_le).
  assert (length (out st ++ [c]) = S (length (out st))) as HS by (rewrite length_app; simpl; lia).
  destruct (decide _) as [Hfull|Hfree].
  - eexists. split; [done|]. exists (h ++ [c]). split_and!; [done|rewrite length_app; lia|done|lia].
  - pose proof (Z.mod_pos_bound (Z.of_nat (length h)) 4096 ltac:(lia)) as Hb.
    rewrite zset_in, bind_some by lia. eexists. split; [done|]. cbn [reaches flags src out]. split_and!; [|done|done|lia].
    unfold follows. cbn [text_buf r out]. rewrite length_insert, length_app. cbn [length]. split_and!; [done|lia| |done|].
    + rewrite land_4095, Hr, Zplus_mod_idemp_l. f_equal. lia.
    + intros j Hj Hwin. destruct (decide (j = Z.of_nat (length h))) as [->|Hne].
      * rewrite zget_nat, list_lookup_middle by done. rewrite <-Hr. rewrite (proj2 (zget_Some _ _ c)); [done|].
        rewrite Hr. split; [lia|]. apply list_lookup_insert_eq. lia.
      * pose proof (Z.mod_pos_bound j 4096 ltac:(lia)) as Hbj.
        assert (j mod 4096 <> r st) as Hmod.
        { rewrite Hr. intros Heq. Z.to_euclidean_division_equations. lia. }
        transitivity (zget (text_buf st) (j mod 4096)).
        -- unfold zget. rewrite !decide_True by lia. apply list_lookup_insert_ne. lia.
        -- rewrite Hring by lia. unfold zget. rewrite !decide_True by lia. by rewrite lookup_app_l by lia.
Qed.

Lemma full_within_mono dstlen h h' o : full_within dstlen h o -> h `prefix_of` h' -> full_within dstlen h' o.
Proof. intros (h1 & Hp & ?) Hh. exists h1. split; [by etrans|done]. Qed.

Lemma copy_back_prefix n d h h' : copy_back n d h = Some h' -> h `prefix_of` h'.
Proof.
  revert h. induction n as [|n IH]; intros h; cbn [copy_back]; [by intros [= ->]|].
  destruct (zget h _) as [c|]; [|done]. cbn. intros Hc. etrans; [|by apply IH]. by apply prefix_app_r.
Qed.

Lemma copy_loop_ok n dstlen d i k h h' st :
  follows h st -> Z.of_nat (length (out st)) < dstlen -> 1 <= d <= 4096 ->
  (i + k) mod 4096 = (Z.of_nat (length h) - d) mod 4096 -> copy_back n d h = Some h' ->
  exists res, copy_loop n dstlen i k st = Some res /\ reaches dstlen h' (flags st) (src st) res.
Proof.
  revert k h st. induction n as [|n IH]; intros k h st Hst Hlen Hd Hik Hcopy.
  { injection Hcopy as <-. by exists (inr st). }
  cbn [copy_back] in Hcopy. destruct (zget h (Z.of_nat (length h) - d)) as [c|] eqn:Hc; [|done]. cbn in Hcopy.
  cbn [copy_loop]. rewrite land_4095, Hik.
  assert (zget (text_buf st) ((Z.of_nat (length h) - d) mod 4096) = Some c) as ->.
  { destruct Hst as (_ & _ & _ & _ & Hring). rewrite Hring; [done|apply zget_Some in Hc; lia|lia]. }
  rewrite bind_some. destruct (emit_ok dstlen h c st Hst Hlen) as ([o|st1] & -> & Hres); rewrite bind_some.
  - exists (inl o). split; [done|]. eapply full_within_mono; [exact Hres|]. by eapply copy_back_prefix.
  - destruct Hres as (Hst1 & Hf & Hs & Hlen1).
    destruct (IH (k + 1) (h ++ [c]) st1) as (res & -> & Hr); try done.
    { rewrite length_app. cbn [length]. rewrite Z.add_assoc, <-Zplus_mod_idemp_l, Hik, Zplus_mod_idemp_l. f_equal. lia. }
    exists res. split; [done|]. by rewrite Hf, Hs in Hr.
Qed.

Lemma nibbles a b :
  0 <= a < 16 -> 0 <= b < 16 -> Z.land (a * 16 + b) 240 = a * 16 /\ Z.land (a * 16 + b) 15 = b.
Proof.
  intros Ha Hb.
  assert (Forall (fun a => Forall (fun b => Z.land (a * 16 + b) 240 = a * 16 /\ Z.land (a * 16 + b) 15 = b)
    (seqZ 0 16)) (seqZ 0 16)) as Hall by (apply (bool_decide_unpack _); vm_compute; exact I).
  rewrite Forall_forall in Hall. specialize (Hall a ltac:(apply elem_of_seqZ; lia)).
  rewrite Forall_forall in Hall. apply Hall, elem_of_seqZ. lia.
Qed.

(** The two bytes of a reference. *)
Lemma match_bytes pos l :
  0 <= pos < 4096 -> 3 <= l <= 18 ->
  Z.lor (pos mod 256) (Z.shiftl (Z.land (pos / 256 * 16 + (l - 3)) 240) 4) = pos /\
  Z.land (pos / 256 * 16 + (l - 3)) 15 + THRESHOLD = l - 1.
Proof.
  intros Hp Hl. pose proof (Z.div_pos pos 256 ltac:(lia) ltac:(lia)).
  assert (pos / 256 < 16) by (apply Z.div_lt_upper_bound; lia).
  destruct (nibbles (pos / 256) (l - 3)) as [-> ->]; [lia..|].
  split; [|lia]. rewrite Z.shiftl_mul_pow2 by lia.
  replace (pos / 256 * 16 * 2 ^ 4) with (pos / 256 * 2 ^ 8) by lia.
  rewrite (lor_low_high 8) by (try lia; apply Z.mod_pos_bound; lia). pose proof (Z.div_mod pos 256). lia.
Qed.

Lemma item_ok dstlen h h' t rest st :
  follows h st -> Z.of_nat (length (out st)) < dstlen -> token_ok t -> expand h t = Some h' ->
  Z.land (flags st) 1 = flag t -> src st = token_bytes (Z.of_nat (length h)) t ++ rest ->
  exists res, lzss_item dstlen st = Some res /\ reaches dstlen h' (flags st) rest res.
Proof.
  intros Hst Hlen Ht Hex Hfl Hsrc. unfold lzss_item. rewrite Hfl, Hsrc. destruct t as [c|d l]; cbn [flag token_bytes app].
  - injection Hex as <-. rewrite decide_True by done. by apply (emit_ok dstlen h c (set_src st rest)).
  - rewrite decide_False by lia. destruct Ht as [Hd Hl]. cbv zeta.
    pose proof (Z.mod_pos_bound (Z.of_nat (length h) - d) 4096 ltac:(lia)) as Hp.
    destruct (match_bytes _ l Hp Hl) as [-> ->]. replace (l - 1 + 1) with l by lia.
    apply (copy_loop_ok (Z.to_nat l) dstlen d _ 0 h h' (set_src st rest)); try done.
    by rewrite Z.add_0_r, Z.mod_mod.
Qed.

(** ** The flags *)

Lemma flag_range t : 0 <= flag t <= 1.
Proof. destruct t; simpl; lia. Qed.

Lemma flag_byte_range ts : 0 <= flag_byte ts < 2 ^ Z.of_nat (length ts).
Proof.
  induction ts as [|t ts IH]; [done|]. cbn [flag_byte foldr length]. fold (flag_byte ts).
  rewrite Nat2Z.inj_succ, Z.pow_succ_r by lia. pose proof (flag_range t). lia.
Qed.

(** The flags when [k] of the tokens that are covered are left, [ts] being the
    tokens to come. *)
Definition flags_at (k : nat) (ts : list token) : Z := flag_byte (take k ts) + 255 * 2 ^ Z.of_nat k.

Lemma flags_at_bits k t ts :
  (1 <= k <= 8)%nat ->
  Z.land (flags_at k (t :: ts)) 1 = flag t /\ Z.shiftr (flags_at k (t :: ts)) 1 = flags_at (k - 1) ts.
Proof.
  intros Hk. destruct k as [|k]; [lia|]. unfold flags_at. cbn [take flag_byte foldr]. fold (flag_byte (take k ts)).
  rewrite Nat2Z.inj_succ, Z.pow_succ_r, Nat.sub_succ, Nat.sub_0_r by lia. pose proof (flag_range t) as Hf.
  replace (flag t + 2 * flag_byte (take k ts) + 255 * (2 * 2 ^ Z.of_nat k))
    with (flag t + (flag_byte (take k ts) + 255 * 2 ^ Z.of_nat k) * 2) by lia. split.
  - change 1 with (Z.ones 1) at 1. rewrite Z.land_ones by lia. change (2 ^ 1) with 2. rewrite Z.mod_add by lia. apply Z.mod_small. lia.
  - rewrite Z.shiftr_div_pow2 by lia. change (2 ^ 1) with 2. rewrite Z.div_add by lia. rewrite Z.div_small by lia. lia.
Qed.

Lemma land_256 x : Z.land x 256 = 0 <-> (x / 256) mod 2 = 0.
Proof.
  assert (Z.testbit x 8 = Z.odd (x / 256)) as Hbit
    by (rewrite Z.testbit_odd, Z.shiftr_div_pow2 by lia; done).
  rewrite Zmod_odd, <-Hbit. change 256 with (2 ^ 8). split.
  - intros H0. apply (f_equal (fun y => Z.testbit y 8)) in H0.
    rewrite Z.land_spec, Z.bits_0, Z.pow2_bits_true, andb_true_r in H0 by lia. by rewrite H0.
  - intros H0. apply Z.bits_inj'. intros n Hn. rewrite Z.land_spec, Z.bits_0, Z.pow2_bits_eqb by lia.
    destruct (Z.eqb_spec 8 n) as [<-|]; [|apply andb_false_r]. by destruct (Z.testbit x 8).
Qed.

(** The bit that says whether flags are left. *)
Lemma flags_at_count k ts : (k <= 8)%nat -> Z.land (flags_at k ts) 256 = 0 <-> k = 0%nat.
Proof.
  intros Hk. unfold flags_at. pose proof (flag_byte_range (take k ts)) as Hr. rewrite length_take in Hr.
  assert (flag_byte (take k ts) < 2 ^ Z.of_nat k) as Hlt.
  { eapply Z.lt_le_trans; [apply Hr|]. apply Z.pow_le_mono_r; lia. }
  rewrite land_256. destruct k as [|[|[|[|[|[|[|[|[|k]]]]]]]]]; try lia; simpl Z.of_nat in *; simpl Z.pow in *;
    (split; [|try done]); intros; try done; Z.to_euclidean_division_equations; lia.
Qed.

(** ** The whole stream *)

Lemma expand_prefix h t h' : expand h t = Some h' -> h `prefix_of` h'.
Proof. destruct t; simpl; [intros [= <-]; by apply prefix_app_r|apply copy_back_prefix]. Qed.

Lemma expand_all_prefix h ts h' : expand_all h ts = Some h' -> h `prefix_of` h'.
Proof.
  revert h. induction ts as [|t ts IH]; intros h; cbn [expand_all]; [by intros [= ->]|].
  destruct (expand h t) as [h1|] eqn:Ht; [|done]. cbn. intros Hall. etrans; [by eapply expand_prefix|by apply IH].
Qed.

Lemma expand_length h t h' : token_ok t -> expand h t = Some h' -> Z.of_nat (length h') = Z.of_nat (length h) + token_size t.
Proof.
  assert (forall n d h h', copy_back n d h = Some h' -> length h' = (length h + n)%nat) as Hcopy.
  { clear. intros n d. induction n as [|n IH]; intros h h'; cbn [copy_back]; [intros [= ->]; lia|].
    destruct (zget h _); [|done]. cbn. intros ->%IH. rewrite length_app. simpl. lia. }
  destruct t as [c|d l]; simpl.
  - intros _ [= <-]. rewrite length_app. simpl. lia.
  - intros [_ Hl] ->%Hcopy. lia.
Qed.

Lemma full_within_take dstlen h o : full_within dstlen h o -> o = take (Z.to_nat dstlen) (drop 4078 h).
Proof.
  intros (h1 & (rest & ->) & Hh1 & -> & Hlen). rewrite drop_app_le by lia.
  rewrite take_app_le by lia. by rewrite take_ge by lia.
Qed.

(** The flags between two tokens: [k] of the covered ones are left. *)
Definition flags_before (k : nat) (ts : list token) (x : Z) : Prop :=
  if decide (k = 0%nat) then Z.land (Z.shiftr x 1) 256 = 0 else Z.shiftr x 1 = flags_at k ts.

Lemma flag_byte_load ts : Z.lor (flag_byte (take 8 ts)) 65280 = flags_at 8 ts.
Proof.
  unfold flags_at. pose proof (flag_byte_range (take 8 ts)) as Hr. rewrite length_take in Hr.
  change 65280 with (255 * 2 ^ 8). apply lor_low_high; [lia|]. split; [lia|].
  eapply Z.lt_le_trans; [apply Hr|]. apply Z.pow_le_mono_r; lia.
Qed.

(** A turn in which a token is read. *)
Lemma lzss_turn fuel dstlen k h t ts n st :
  flags_before k (t :: ts) (flags st) -> (k <= 8)%nat -> src st = encode k n (t :: ts) ->
  exists k' st', lzss_loop (S fuel) dstlen st
      = (res ← lzss_item dstlen st'; match res with inl out => Some out | inr st => lzss_loop fuel dstlen st end) /\
    (1 <= k' <= 8)%nat /\ flags st' = flags_at k' (t :: ts) /\
    src st' = token_bytes n t ++ encode (k' - 1) (n + token_size t) ts /\ out st' = out st /\
    (follows h st -> follows h st').
Proof.
  intros Hfl Hk Hsrc. unfold flags_before in Hfl. cbn [lzss_loop encode] in *. destruct k as [|k].
  - rewrite decide_True in Hfl by done. rewrite decide_True by done. cbn [set_flags src]. rewrite Hsrc. cbn [app].
    rewrite bind_some. exists 8%nat. eexists. split; [done|]. split_and!; [lia..| |done|done|].
    + cbn [set_flags flags]. apply flag_byte_load.
    + by intros (? & ? & ? & ? & ?).
  - rewrite decide_False in Hfl by done. rewrite Hfl.
    rewrite decide_False by (intros H0; by apply flags_at_count in H0). rewrite bind_some.
    exists (S k). eexists. split; [done|]. split_and!; [lia..|done| |done|].
    + cbn [set_flags src]. rewrite Hsrc. cbn [app]. by rewrite Nat.sub_succ, Nat.sub_0_r.
    + by intros (? & ? & ? & ? & ?).
Qed.

(** A turn after the last token. *)
Lemma lzss_last fuel dstlen k n st :
  flags_before k [] (flags st) -> (k <= 8)%nat -> src st = encode k n [] -> lzss_loop (S fuel) dstlen st = Some (out st).
Proof.
  intros Hfl Hk Hsrc. unfold flags_before in Hfl. cbn [lzss_loop encode] in *.
  destruct k as [|k]; [rewrite decide_True in Hfl by done|rewrite decide_False in Hfl by done].
  - rewrite decide_True by done. cbn [set_flags src]. by rewrite Hsrc.
  - rewrite Hfl. rewrite decide_False by (intros H0; by apply flags_at_count in H0). rewrite bind_some.
    unfold lzss_item. cbn [set_flags src flags]. rewrite Hsrc. by destruct (decide _).
Qed.

Lemma lzss_loop_decodes ts fuel dstlen k h h' st :
  follows h st -> Z.of_nat (length (out st)) < dstlen -> Forall token_ok ts -> expand_all h ts = Some h' ->
  flags_before k ts (flags st) -> (k <= 8)%nat -> src st = encode k (Z.of_nat (length h)) ts -> (length ts < fuel)%nat ->
  lzss_loop fuel dstlen st = Some (take (Z.to_nat dstlen) (drop 4078 h')).
Proof.
  revert fuel k h st. induction ts as [|t ts IH]; intros fuel k h st Hst Hlen Hok Hall Hfl Hk Hsrc Hfuel;
    (destruct fuel as [|fuel]; [lia|]).
  - injection Hall as <-. rewrite (lzss_last fuel dstlen k (Z.of_nat (length h)) st Hfl Hk Hsrc).
    destruct Hst as (_ & _ & _ & Ho & _). rewrite <-Ho. by rewrite take_ge by lia.
  - cbn [length] in Hfuel. apply Forall_cons in Hok as [Ht Hok]. cbn [expand_all] in Hall. destruct (expand h t) as [h1|] eqn:Hex; [|done].
    cbn in Hall. destruct (lzss_turn fuel dstlen k h t ts _ st Hfl Hk Hsrc) as (k' & st' & -> & Hk' & Hf' & Hs' & Ho' & Hst').
    destruct (flags_at_bits k' t ts Hk') as [Hbit Hshift].
    destruct (item_ok dstlen h h1 t (encode (k' - 1) (Z.of_nat (length h) + token_size t) ts) st')
      as ([o|st1] & -> & Hres); rewrite ?bind_some; try done.
    { by apply Hst'. } { by rewrite Ho'. } { by rewrite Hf'. }
    + f_equal. apply full_within_take. eapply full_within_mono; [exact Hres|]. by eapply expand_all_prefix.
    + destruct Hres as (Hst1 & Hf1 & Hs1 & Hlen1). apply (IH fuel (k' - 1)%nat h1); try done; try lia.
      * unfold flags_before. rewrite Hf1, Hf', Hshift. case_decide as Hz; [|done]. by apply flags_at_count; [lia|].
      * by rewrite Hs1, (expand_length h t h1).
Qed.

(** ** Any stream *)

Lemma fill_spaces stack :
  length stack = 4113%nat ->
  exists tb, for_range (Z.to_nat (N - F)) (fun i tb => zset tb (Z.of_nat i) 32) stack = Some tb /\
    length tb = 4113%nat /\ (forall j, 0 <= j < 4078 -> zget tb j = Some 32) /\
    (forall j, 4078 <= j -> zget tb j = zget stack j).
Proof.
  intros Hs. change (Z.to_nat (N - F)) with 4078%nat.
  destruct (for_range_inv (fun i tb => length tb = 4113%nat /\ (forall j, 0 <= j < Z.of_nat i -> zget tb j = Some 32) /\
    (forall j, Z.of_nat i <= j -> zget tb j = zget stack j)) 4078
    (fun i tb => zset tb (Z.of_nat i) 32) stack) as (tb & Htb & Hl & Hlow & Hhigh).
  - split_and!; [done|lia|done].
  - intros i tb Hi (Hl & Hlow & Hhigh). rewrite zset_nat by lia. eexists. split; [done|].
    rewrite length_insert. split_and!; [done| |].
    + intros j Hj. destruct (decide (j = Z.of_nat i)) as [->|].
      * rewrite zget_nat. apply list_lookup_insert_eq. lia.
      * transitivity (zget tb j); [|apply Hlow; lia]. unfold zget. rewrite !decide_True by lia.
        apply list_lookup_insert_ne. lia.
    + intros j Hj. rewrite <-Hhigh by lia. unfold zget. rewrite !decide_True by lia. apply list_lookup_insert_ne. lia.
  - by exists tb.
Qed.

(** What every step keeps, whatever the source is. *)
Definition within (dstlen : Z) (st : lzss) : Prop :=
  length (text_buf st) = 4113%nat /\ 0 <= r st < 4096 /\ Z.of_nat (length (out st)) < dstlen.

(** A step either stops with a full buffer, or goes on with the source [s]. *)
Definition safe (dstlen : Z) (s : list Z) (res : outcome) : Prop :=
  match res with
  | inl o => Z.of_nat (length o) <= dstlen
  | inr st => within dstlen st /\ src st = s
  end.

Lemma emit_safe dstlen c st : within dstlen st -> exists res, emit_byte dstlen c st = Some res /\ safe dstlen (src st) res.
Proof.
  intros (Htb & Hr & Hlen). unfold emit_byte. rewrite decide_True by done. cbv zeta.
  assert (length (out st ++ [c]) = S (length (out st))) as HS by (rewrite length_app; simpl; lia).
  destruct (decide _) as [|Hfree]; [eexists; split; [done|simpl; lia]|].
  rewrite zset_in, bind_some by lia. eexists. split; [done|]. cbn [safe]. split; [|done]. unfold within. cbn [text_buf r out].
  rewrite length_insert, land_4095. pose proof (Z.mod_pos_bound (r st + 1) 4096 ltac:(lia)). split_and!; done || lia.
Qed.

Lemma copy_loop_safe n dstlen i k st :
  within dstlen st -> exists res, copy_loop n dstlen i k st = Some res /\ safe dstlen (src st) res.
Proof.
  revert k st. induction n as [|n IH]; intros k st Hst; [by exists (inr st)|]. cbn [copy_loop]. rewrite land_4095.
  pose proof (Z.mod_pos_bound (i + k) 4096 ltac:(lia)) as Hb. pose proof Hst as (Htb & _).
  destruct (zget_is_Some (text_buf st) ((i + k) mod 4096)) as [c ->]; [lia|]. rewrite bind_some.
  destruct (emit_safe dstlen c st Hst) as ([o|st1] & -> & Hres); rewrite bind_some; [by exists (inl o)|].
  destruct Hres as [Hst1 <-]. by apply IH.
Qed.

(** An item uses up a byte of the source at least. *)
Lemma lzss_item_safe dstlen st :
  within dstlen st -> exists res, lzss_item dstlen st = Some res /\
    ((exists o, res = inl o /\ Z.of_nat (length o) <= dstlen) \/
     exists s, safe dstlen s res /\ (length s < length (src st))%nat).
Proof.
  intros Hst. pose proof Hst as (_ & _ & Hlen). unfold lzss_item. destruct (decide _) as [Hlit|Hmatch].
  - destruct (src st) as [|c s] eqn:Hs; [eexists; split; [done|left]; exists (out st); split; [done|lia]|].
    destruct (emit_safe dstlen c (set_src st s) Hst) as (res & -> & Hres). exists res. split; [done|right].
    exists s. split; [done|simpl; lia].
  - destruct (src st) as [|i [|j s]] eqn:Hs; [eexists; split; [done|left]; exists (out st); split; [done|lia]..|].
    cbv zeta. match goal with |- context [copy_loop ?n _ ?p 0 _] =>
      destruct (copy_loop_safe n dstlen p 0 (set_src st s) Hst) as (res & -> & Hres) end.
    exists res. split; [done|right]. exists s. split; [done|simpl; lia].
Qed.

Lemma lzss_loop_safe fuel dstlen st :
  within dstlen st -> (length (src st) + 1 < fuel)%nat ->
  exists o, lzss_loop fuel dstlen st = Some o /\ Z.of_nat (length o) <= dstlen.
Proof.
  revert st. induction fuel as [|fuel IH]; intros st Hst Hf; [lia|]. pose proof Hst as (_ & _ & Hlen).
  cbn [lzss_loop]. cbv zeta.
  assert (exists st', (if decide (Z.land (Z.shiftr (flags st) 1) 256 = 0) then
      match src (set_flags st (Z.shiftr (flags st) 1)) with
      | [] => Some None
      | c :: s => Some (Some (set_flags (set_src (set_flags st (Z.shiftr (flags st) 1)) s) (Z.lor c 65280)))
      end else Some (Some (set_flags st (Z.shiftr (flags st) 1)))) = Some st' /\
    forall st1, st' = Some st1 -> within dstlen st1 /\ (length (src st1) <= length (src st))%nat) as (st' & -> & Hst').
  { destruct (decide _); cbn [set_flags src]; [destruct (src st) as [|c s] eqn:Hs|]; eexists; (split; [done|]);
      intros st1 [= <-]; split; try done; simpl; rewrite ?Hs; simpl; lia. }
  rewrite bind_some. destruct st' as [st1|]; [|exists (out st); split; [done|lia]].
  destruct (Hst' st1 eq_refl) as [Hst1 Hs1].
  destruct (lzss_item_safe dstlen st1 Hst1) as (res & -> & [(o & -> & Ho)|(s & Hres & Hshort)]);
    rewrite bind_some; [by exists o|]. destruct res as [o|st2]; [by exists o|]. destruct Hres as [Hst2 Hs2]. apply IH; [done|]. rewrite Hs2. lia.
Qed.

(** ** Properties *)

Lemma sums_ok_start buf : sums_ok buf 0 0 (1, 0).
Proof. unfold sums_ok. cbn. split_and!; done || lia. Qed.

(** The checksum of an archive is its Adler-32: the sums are kept without
    reduction for up to 5552 bytes, in blocks of 16, and do not overflow. *)
Theorem mkext_adler32_correct (buf : list Z) (len : Z) :
  bytes_ok buf -> 0 <= len <= Z.of_nat (length buf) ->
  mkext_adler32 buf len = Some (adler32 (take (Z.to_nat len) buf)).
Proof.
  intros Hbuf Hlen. unfold mkext_adler32.
  rewrite (adler_loop_ok _ buf 0 len (1, 0)); [|done|lia|lia|lia| |lia|apply sums_ok_start|done|done].
  - rewrite bind_some, Z.add_0_l. unfold adler32. pose proof (adler_sums_range (take (Z.to_nat len) buf)) as [Ha Hb].
    destruct (adler_sums _) as [a b]. cbn in Ha, Hb.
    rewrite Z.shiftl_mul_pow2, (wrap_small 64) by (unfold in_word; lia).
    rewrite (lor_high_low 16), wrap_small by (unfold in_word; lia). done.
  - pose proof (Z.div_pos len 5552 ltac:(lia) ltac:(lia)). pose proof (Z.div_mod len 5552 ltac:(lia)).
    pose proof (Z.mod_pos_bound len 5552 ltac:(lia)). lia.
Qed.

Lemma mkext_adler32_correct_witness :
  mkext_adler32 (bytes_of_string "Wikipedia") 9 = Some (adler32 (bytes_of_string "Wikipedia")) /\
  adler32 (bytes_of_string "Wikipedia") = 300286872.
Proof.
  split; [|vm_compute; reflexivity].
  apply (mkext_adler32_correct (bytes_of_string "Wikipedia") 9); [apply bytes_of_string_ok|done].
Defined.

Lemma encode_length k n ts : (length ts <= length (encode k n ts))%nat.
Proof.
  revert k n. induction ts as [|t ts IH]; intros k n; [done|]. cbn [encode length]. rewrite !length_app.
  specialize (IH (match k with O => 7%nat | S k => k end) (n + token_size t)). destruct t; cbn [token_bytes length]; lia.
Qed.

(** C27. The decompressor inverts the format: from the encoding of any literals and
    back references it recovers the text that they stand for, or as much of it as
    the output has room for, whatever the uninitialised part of the ring held. *)
Theorem decompress_lzss_decodes (ts : list token) (text stack : list Z) (dstlen : Z) :
  Forall token_ok ts -> expand_all SPACES ts = Some (SPACES ++ text) -> length stack = 4113%nat -> 0 < dstlen ->
  let stream := encode 0 4078 ts in
  decompress_lzss dstlen stream (Z.of_nat (length stream)) stack = Some (take (Z.to_nat dstlen) text).
Proof.
  intros Hok Hall Hstack Hdst. cbv zeta. unfold decompress_lzss.
  destruct (fill_spaces stack Hstack) as (tb & -> & Htb & Hlow & _). rewrite bind_some, decide_True by lia. cbv zeta.
  rewrite Nat2Z.id, firstn_all.
  rewrite (lzss_loop_decodes ts _ dstlen 0 SPACES (SPACES ++ text)); try done.
  - unfold follows. cbn [text_buf r out]. split_and!; [done|done..|].
    intros j Hj Hwin. change (Z.of_nat (length SPACES)) with 4078 in Hwin. rewrite Z.mod_small, Hlow by lia.
    symmetry. apply zget_Some. split; [done|]. apply lookup_replicate. split; [done|lia].
  - lia.
  - pose proof (encode_length 0 4078 ts). lia.
Qed.

Lemma decompress_lzss_decodes_witness :
  decompress_lzss 100 (encode 0 4078 [Literal 97; Literal 98; Match 2 5; Match 4000 3; Literal 33])
    (Z.of_nat (length (encode 0 4078 [Literal 97; Literal 98; Match 2 5; Match 4000 3; Literal 33]))) (replicate 4113 7)
  = Some (bytes_of_string "abababa   !").
Proof.
  apply (decompress_lzss_decodes [Literal 97; Literal 98; Match 2 5; Match 4000 3; Literal 33]
           (bytes_of_string "abababa   !") (replicate 4113 7) 100); [| |done|done].
  - apply (bool_decide_unpack _). vm_compute. exact I.
  - vm_compute. reflexivity.
Defined.

(** C28. Whatever the compressed data are, the decompressor ends, and reads and writes
    only its buffers: the source up to its length, the ring, and at most [dstlen]
    bytes of the output, provided that there is one byte. *)
Theorem decompress_lzss_safe (dstlen : Z) (srcbuf stack : list Z) (srclen : Z) :
  0 <= srclen <= Z.of_nat (length srcbuf) -> length stack = 4113%nat -> 0 < dstlen ->
  exists o, decompress_lzss dstlen srcbuf srclen stack = Some o /\ Z.of_nat (length o) <= dstlen.
Proof.
  intros Hsrc Hstack Hdst. unfold decompress_lzss.
  destruct (fill_spaces stack Hstack) as (tb & -> & Htb & _ & _). rewrite bind_some, decide_True by done. cbv zeta.
  apply lzss_loop_safe; [|cbn [src]; lia]. unfold within. cbn [text_buf r out length]. split_and!; done || lia.
Qed.

Lemma decompress_lzss_safe_witness :
  exists o, decompress_lzss 5 [0; 255; 255; 1; 2; 3] 6 (replicate 4113 7) = Some o /\ Z.of_nat (length o) <= 5.
Proof. by apply (decompress_lzss_safe 5 [0; 255; 255; 1; 2; 3] (replicate 4113 7) 6). Defined.

(** With an output of no bytes at all a byte is stored before the end is tested. *)
Theorem decompress_lzss_zero_length : decompress_lzss 0 [1; 65] 2 (replicate 4113 7) = None.
Proof. vm_compute. reflexivity. Qed.

(** A reference to the part of the ring that was not initialised copies what was on
    the stack to the output. *)
Theorem decompress_lzss_reads_stack :
  decompress_lzss 100 [0; 238; 240] 3 (replicate 4078 0 ++ [83; 69; 67] ++ replicate 32 0) = Some [83; 69; 67].
Proof. vm_compute. reflexivity. Qed.
