(* ===== verification/Crc32.v ===== *)
(** * CRC-32

    [crc32] of [bsd/libkern/crc32.c], which takes a byte at a time from a table.  It
    is shown to compute the remainder of the polynomial division bit by bit, to be
    resumable, and to tell apart any two buffers that differ within four
    consecutive bytes only. *)
From S2P Require Import Prelude.

Local Open Scope Z_scope.

Definition crc32_tab : list Z :=
  [0x00000000; 0x77073096; 0xee0e612c; 0x990951ba; 0x076dc419; 0x706af48f; 0xe963a535; 0x9e6495a3;
   0x0edb8832; 0x79dcb8a4; 0xe0d5e91e; 0x97d2d988; 0x09b64c2b; 0x7eb17cbd; 0xe7b82d07; 0x90bf1d91;
   0x1db71064; 0x6ab020f2; 0xf3b97148; 0x84be41de; 0x1adad47d; 0x6ddde4eb; 0xf4d4b551; 0x83d385c7;
   0x136c9856; 0x646ba8c0; 0xfd62f97a; 0x8a65c9ec; 0x14015c4f; 0x63066cd9; 0xfa0f3d63; 0x8d080df5;
   0x3b6e20c8; 0x4c69105e; 0xd56041e4; 0xa2677172; 0x3c03e4d1; 0x4b04d447; 0xd20d85fd; 0xa50ab56b;
   0x35b5a8fa; 0x42b2986c; 0xdbbbc9d6; 0xacbcf940; 0x32d86ce3; 0x45df5c75; 0xdcd60dcf; 0xabd13d59;
   0x26d930ac; 0x51de003a; 0xc8d75180; 0xbfd06116; 0x21b4f4b5; 0x56b3c423; 0xcfba9599; 0xb8bda50f;
   0x2802b89e; 0x5f058808; 0xc60cd9b2; 0xb10be924; 0x2f6f7c87; 0x58684c11; 0xc1611dab; 0xb6662d3d;
   0x76dc4190; 0x01db7106; 0x98d220bc; 0xefd5102a; 0x71b18589; 0x06b6b51f; 0x9fbfe4a5; 0xe8b8d433;
   0x7807c9a2; 0x0f00f934; 0x9609a88e; 0xe10e9818; 0x7f6a0dbb; 0x086d3d2d; 0x91646c97; 0xe6635c01;
   0x6b6b51f4; 0x1c6c6162; 0x856530d8; 0xf262004e; 0x6c0695ed; 0x1b01a57b; 0x8208f4c1; 0xf50fc457;
   0x65b0d9c6; 0x12b7e950; 0x8bbeb8ea; 0xfcb9887c; 0x62dd1ddf; 0x15da2d49; 0x8cd37cf3; 0xfbd44c65;
   0x4db26158; 0x3ab551ce; 0xa3bc0074; 0xd4bb30e2; 0x4adfa541; 0x3dd895d7; 0xa4d1c46d; 0xd3d6f4fb;
   0x4369e96a; 0x346ed9fc; 0xad678846; 0xda60b8d0; 0x44042d73; 0x33031de5; 0xaa0a4c5f; 0xdd0d7cc9;
   0x5005713c; 0x270241aa; 0xbe0b1010; 0xc90c2086; 0x5768b525; 0x206f85b3; 0xb966d409; 0xce61e49f;
   0x5edef90e; 0x29d9c998; 0xb0d09822; 0xc7d7a8b4; 0x59b33d17; 0x2eb40d81; 0xb7bd5c3b; 0xc0ba6cad;
   0xedb88320; 0x9abfb3b6; 0x03b6e20c; 0x74b1d29a; 0xead54739; 0x9dd277af; 0x04db2615; 0x73dc1683;
   0xe3630b12; 0x94643b84; 0x0d6d6a3e; 0x7a6a5aa8; 0xe40ecf0b; 0x9309ff9d; 0x0a00ae27; 0x7d079eb1;
   0xf00f9344; 0x8708a3d2; 0x1e01f268; 0x6906c2fe; 0xf762575d; 0x806567cb; 0x196c3671; 0x6e6b06e7;
   0xfed41b76; 0x89d32be0; 0x10da7a5a; 0x67dd4acc; 0xf9b9df6f; 0x8ebeeff9; 0x17b7be43; 0x60b08ed5;
   0xd6d6a3e8; 0xa1d1937e; 0x38d8c2c4; 0x4fdff252; 0xd1bb67f1; 0xa6bc5767; 0x3fb506dd; 0x48b2364b;
   0xd80d2bda; 0xaf0a1b4c; 0x36034af6; 0x41047a60; 0xdf60efc3; 0xa867df55; 0x316e8eef; 0x4669be79;
   0xcb61b38c; 0xbc66831a; 0x256fd2a0; 0x5268e236; 0xcc0c7795; 0xbb0b4703; 0x220216b9; 0x5505262f;
   0xc5ba3bbe; 0xb2bd0b28; 0x2bb45a92; 0x5cb36a04; 0xc2d7ffa7; 0xb5d0cf31; 0x2cd99e8b; 0x5bdeae1d;
   0x9b64c2b0; 0xec63f226; 0x756aa39c; 0x026d930a; 0x9c0906a9; 0xeb0e363f; 0x72076785; 0x05005713;
   0x95bf4a82; 0xe2b87a14; 0x7bb12bae; 0x0cb61b38; 0x92d28e9b; 0xe5d5be0d; 0x7cdcefb7; 0x0bdbdf21;
   0x86d3d2d4; 0xf1d4e242; 0x68ddb3f8; 0x1fda836e; 0x81be16cd; 0xf6b9265b; 0x6fb077e1; 0x18b74777;
   0x88085ae6; 0xff0f6a70; 0x66063bca; 0x11010b5c; 0x8f659eff; 0xf862ae69; 0x616bffd3; 0x166ccf45;
   0xa00ae278; 0xd70dd2ee; 0x4e048354; 0x3903b3c2; 0xa7672661; 0xd06016f7; 0x4969474d; 0x3e6e77db;
   0xaed16a4a; 0xd9d65adc; 0x40df0b66; 0x37d83bf0; 0xa9bcae53; 0xdebb9ec5; 0x47b2cf7f; 0x30b5ffe9;
   0xbdbdf21c; 0xcabac28a; 0x53b39330; 0x24b4a3a6; 0xbad03605; 0xcdd70693; 0x54de5729; 0x23d967bf;
   0xb3667a2e; 0xc4614ab8; 0x5d681b02; 0x2a6f2b94; 0xb40bbe37; 0xc30c8ea1; 0x5a05df1b; 0x2d02ef8d].

(** The loop over the buffer; [crc] is a [uint32_t]. *)
Fixpoint crc32_loop (crc : Z) (buf : list Z) : option Z :=
  match buf with
  | [] => Some crc
  | x :: buf =>
      t ← zget crc32_tab (Z.land (Z.lxor crc x) 255);
      crc32_loop (Z.lxor t (Z.shiftr crc 8)) buf
  end.

(** [size] bytes of [buf]; a buffer that is too short is a fault. *)
Definition crc32 (crc : Z) (buf : list Z) (size : Z) : option Z :=
  if decide (0 <= size <= Z.of_nat (length buf)) then
    crc ← crc32_loop (Z.lxor crc (2 ^ 32 - 1)) (take (Z.to_nat size) buf);
    Some (Z.lxor crc (2 ^ 32 - 1))
  else None.

(** ** The division *)

(** A step of the division by x^32 + x^26 + x^23 + x^22 + x^16 + x^12 + x^11 + x^10 +
    x^8 + x^7 + x^5 + x^4 + x^2 + x + 1, the coefficients in the order of the bits,
    the lowest one first. *)
Definition POLY : Z := 0xedb88320.
Definition step (x : Z) : Z := Z.lxor (Z.shiftr x 1) (if Z.odd x then POLY else 0).

Fixpoint steps (n : nat) (x : Z) : Z := match n with O => x | S n => step (steps n x) end.

(** The remainder after a byte, and after bytes. *)
Definition crc_byte (crc x : Z) : Z := steps 8 (Z.lxor crc x).
Definition crc_bytes (crc : Z) (bytes : list Z) : Z := foldl crc_byte crc bytes.

Lemma step_lxor x y : step (Z.lxor x y) = Z.lxor (step x) (step y).
Proof.
  unfold step. assert (Z.odd (Z.lxor x y) = xorb (Z.odd x) (Z.odd y)) as -> by (by rewrite <-!Z.bit0_odd, Z.lxor_spec).
  rewrite Z.shiftr_lxor. apply Z.bits_inj'. intros n Hn. rewrite !Z.lxor_spec.
  destruct (Z.odd x), (Z.odd y); simpl xorb; rewrite ?Z.bits_0;
    destruct (Z.testbit (Z.shiftr x 1) n), (Z.testbit (Z.shiftr y 1) n), (Z.testbit POLY n); done.
Qed.

Lemma steps_lxor n x y : steps n (Z.lxor x y) = Z.lxor (steps n x) (steps n y).
Proof. induction n as [|n IH]; [done|]. cbn [steps]. by rewrite IH, step_lxor. Qed.

Lemma steps_add m n x : steps (m + n) x = steps m (steps n x).
Proof. induction m as [|m IH]; [done|]. cbn [steps Nat.add]. by rewrite IH. Qed.

Lemma step_word x : in_word 32 x -> in_word 32 (step x).
Proof.
  intros Hx. unfold step. apply in_word_lxor; [lia|by apply in_word_shiftr|]. destruct (Z.odd x); done.
Qed.

Lemma steps_word n x : in_word 32 x -> in_word 32 (steps n x).
Proof. intros Hx. induction n as [|n IH]; [done|]. cbn [steps]. by apply step_word. Qed.

(** Zeros at the low end are only shifted out. *)
Lemma steps_shiftl n x : steps n (Z.shiftl x (Z.of_nat n)) = x.
Proof.
  induction n as [|n IH]; [apply Z.shiftl_0_r|]. rewrite <-Nat.add_1_r, steps_add, Nat.add_1_r. cbn [steps].
  rewrite <-IH at 2. f_equal. unfold step.
  assert (Z.odd (Z.shiftl x (Z.of_nat (S n))) = false) as ->.
  { rewrite <-Z.bit0_odd. apply Z.shiftl_spec_low. lia. }
  rewrite Z.lxor_0_r. rewrite Z.shiftr_shiftl_l by lia. f_equal. lia.
Qed.

(** The highest bit tells whether the polynomial was added, so that a step can be
    undone. *)
Lemma step_inj x y : in_word 32 x -> in_word 32 y -> step x = step y -> x = y.
Proof.
  intros Hx Hy Heq.
  assert (forall z, in_word 32 z -> Z.testbit (step z) 31 = Z.odd z) as Htop.
  { intros z Hz. unfold step. rewrite Z.lxor_spec, Z.shiftr_spec by lia.
    rewrite (proj2 (proj1 (in_word_bits 32 z ltac:(lia)) Hz)) by lia. by destruct (Z.odd z). }
  assert (Z.odd x = Z.odd y) as Hodd by (rewrite <-(Htop x Hx), <-(Htop y Hy); by rewrite Heq).
  unfold step in Heq. rewrite Hodd in Heq. apply (f_equal (fun z => Z.lxor z (if Z.odd y then POLY else 0))) in Heq.
  rewrite !Z.lxor_assoc, Z.lxor_nilpotent, !Z.lxor_0_r in Heq.
  rewrite !Z.shiftr_div_pow2 in Heq by lia. change (2 ^ 1) with 2 in Heq.
  rewrite (Z.div_mod x 2), (Z.div_mod y 2), !Zmod_odd, Hodd, Heq by lia. done.
Qed.

Lemma steps_inj n x y : in_word 32 x -> in_word 32 y -> steps n x = steps n y -> x = y.
Proof.
  intros Hx Hy. induction n as [|n IH]; [done|]. cbn [steps]. intros Heq. apply IH.
  apply step_inj; [by apply steps_word..|done].
Qed.

(** ** The table *)

Lemma steps_byte y : in_word 32 y -> steps 8 y = Z.lxor (steps 8 (Z.land y 255)) (Z.shiftr y 8).
Proof.
  intros Hy. rewrite <-(steps_shiftl 8 (Z.shiftr y 8)). rewrite <-steps_lxor. f_equal.
  apply Z.bits_inj'. intros n Hn. rewrite Z.lxor_spec, Z.land_spec. change 255 with (Z.ones 8). change (Z.of_nat 8) with 8.
  destruct (decide (n < 8)) as [Hlt|Hge].
  - by rewrite Z.ones_spec_low, Z.shiftl_spec_low, andb_true_r, xorb_false_r by lia.
  - rewrite Z.ones_spec_high, Z.shiftl_spec, Z.shiftr_spec, andb_false_r by lia. rewrite xorb_false_l. f_equal. lia.
Qed.

Lemma crc32_tab_steps i : 0 <= i < 256 -> zget crc32_tab i = Some (steps 8 i).
Proof.
  intros Hi. assert (Forall (fun i => zget crc32_tab i = Some (steps 8 i)) (seqZ 0 256)) as Hall
    by (apply (bool_decide_unpack _); vm_compute; exact I).
  rewrite Forall_forall in Hall. apply Hall, elem_of_seqZ. lia.
Qed.

Lemma crc_bytes_word crc bytes : in_word 32 crc -> bytes_ok bytes -> in_word 32 (crc_bytes crc bytes).
Proof.
  intros Hc Hb. revert crc Hc. induction Hb as [|x bytes Hx Hb IH]; intros crc Hc; [done|]. apply IH.
  apply steps_word, in_word_lxor; [lia|done|]. by apply (in_word_mono 8).
Qed.

Lemma crc32_loop_spec crc buf :
  in_word 32 crc -> bytes_ok buf -> crc32_loop crc buf = Some (crc_bytes crc buf).
Proof.
  intros Hc Hb. revert crc Hc. induction Hb as [|x buf Hx Hb IH]; intros crc Hc; [done|]. cbn [crc32_loop].
  assert (in_word 32 (Z.lxor crc x)) as Hy by (apply in_word_lxor; [lia|done|by apply (in_word_mono 8)]).
  assert (0 <= Z.land (Z.lxor crc x) 255 < 256) as Hi.
  { change 255 with (Z.ones 8). rewrite Z.land_ones by lia. by apply Z.mod_pos_bound. }
  rewrite crc32_tab_steps, bind_some by done.
  assert (Z.lxor (steps 8 (Z.land (Z.lxor crc x) 255)) (Z.shiftr crc 8) = crc_byte crc x) as ->.
  { unfold crc_byte. rewrite (steps_byte (Z.lxor crc x)) by done. f_equal. rewrite Z.shiftr_lxor.
    rewrite (Z.shiftr_div_pow2 x 8), (Z.div_small x) by (unfold in_word in Hx; lia). by rewrite Z.lxor_0_r. }
  apply IH. by apply steps_word.
Qed.

(** ** Four bytes *)

(** The word that bytes make, the first one lowest. *)
Definition word_of (bytes : list Z) : Z := foldr (fun x w => Z.lxor x (Z.shiftl w 8)) 0 bytes.

Lemma crc_bytes_word_of crc bytes :
  crc_bytes crc bytes = steps (8 * length bytes) (Z.lxor crc (word_of bytes)).
Proof.
  revert crc. induction bytes as [|x bytes IH]; intros crc; [cbn; by rewrite Z.lxor_0_r|].
  change (crc_bytes crc (x :: bytes)) with (crc_bytes (crc_byte crc x) bytes). rewrite IH.
  cbn [length word_of foldr]. fold (word_of bytes). rewrite Nat.mul_succ_r, steps_add. f_equal.
  rewrite <-Z.lxor_assoc, steps_lxor. unfold crc_byte. f_equal. symmetry. apply (steps_shiftl 8).
Qed.

Lemma word_of_app_inj a b : bytes_ok a -> bytes_ok b -> length a = length b -> word_of a = word_of b -> a = b.
Proof.
  intros Ha. revert b. induction Ha as [|x a Hx Ha IH]; intros [|y b] Hb Hlen Heq; try done.
  apply Forall_cons in Hb as [Hy Hb]. cbn [word_of foldr] in Heq. fold (word_of a) (word_of b) in Heq.
  assert (forall z w, byte_ok z -> Z.land (Z.lxor z (Z.shiftl w 8)) 255 = z /\ Z.shiftr (Z.lxor z (Z.shiftl w 8)) 8 = w) as Hsplit.
  { intros z w Hz. split.
    - apply Z.bits_inj'. intros n Hn. rewrite Z.land_spec, Z.lxor_spec. change 255 with (Z.ones 8).
      destruct (decide (n < 8)).
      + by rewrite Z.ones_spec_low, Z.shiftl_spec_low, andb_true_r, xorb_false_r by lia.
      + rewrite Z.ones_spec_high, andb_false_r by lia. symmetry. apply (in_word_bits 8 z); [lia|done|lia].
    - rewrite Z.shiftr_lxor, Z.shiftr_shiftl_l, Z.shiftl_0_r by lia.
      rewrite Z.shiftr_div_pow2, Z.div_small by (unfold in_word in Hz; lia). apply Z.lxor_0_l. }
  destruct (Hsplit x (word_of a) Hx) as [Hx1 Hx2]. destruct (Hsplit y (word_of b) Hy) as [Hy1 Hy2].
  rewrite Heq in Hx1, Hx2. f_equal; [congruence|]. apply IH; [done|by injection Hlen|congruence].
Qed.

Lemma word_of_word bytes : bytes_ok bytes -> (length bytes <= 4)%nat -> in_word 32 (word_of bytes).
Proof.
  intros Hb Hlen. assert (forall n, (length bytes <= n)%nat -> in_word (8 * Z.of_nat n) (word_of bytes)) as Hn; [|by apply (Hn 4%nat)].
  clear Hlen. induction Hb as [|x bytes Hx Hb IH]; intros n Hlen; [split; [done|apply Z.pow_pos_nonneg; lia]|].
  destruct n as [|n]; [simpl in Hlen; lia|]. cbn [word_of foldr]. fold (word_of bytes).
  apply in_word_lxor; [lia|apply (in_word_mono 8); [lia|done]|]. specialize (IH n ltac:(simpl in Hlen; lia)).
  unfold in_word in *. rewrite Z.shiftl_mul_pow2 by lia. replace (8 * Z.of_nat (S n)) with (8 * Z.of_nat n + 8) by lia.
  rewrite Z.pow_add_r by lia. nia.
Qed.

Lemma crc_bytes_inj crc1 crc2 bytes :
  in_word 32 crc1 -> in_word 32 crc2 -> bytes_ok bytes -> crc_bytes crc1 bytes = crc_bytes crc2 bytes -> crc1 = crc2.
Proof.
  intros H1 H2 Hb. revert crc1 crc2 H1 H2. induction Hb as [|x bytes Hx Hb IH]; intros crc1 crc2 H1 H2 Heq; [done|].
  assert (in_word 32 x) as Hx32 by (by apply (in_word_mono 8)).
  assert (in_word 32 (Z.lxor crc1 x) /\ in_word 32 (Z.lxor crc2 x)) as [? ?] by (split; by apply in_word_lxor).
  apply IH in Heq; [|by apply steps_word..]. apply steps_inj in Heq; [|done..].
  apply (f_equal (fun z => Z.lxor z x)) in Heq. by rewrite !Z.lxor_assoc, Z.lxor_nilpotent, !Z.lxor_0_r in Heq.
Qed.

(** ** Properties *)

Lemma not_word x : in_word 32 x -> in_word 32 (Z.lxor x (2 ^ 32 - 1)).
Proof. intros Hx. by apply in_word_lxor. Qed.

Lemma crc32_spec crc buf :
  in_word 32 crc -> bytes_ok buf ->
  crc32 crc buf (Z.of_nat (length buf)) = Some (Z.lxor (crc_bytes (Z.lxor crc (2 ^ 32 - 1)) buf) (2 ^ 32 - 1)).
Proof.
  intros Hc Hb. unfold crc32. rewrite decide_True by lia. rewrite Nat2Z.id, firstn_all.
  by rewrite crc32_loop_spec, bind_some by (done || by apply not_word).
Qed.

(** C35. The table-driven routine computes the remainder of the division of the bits
    of the buffer by the CRC-32 polynomial, with the complements before and after,
    and can be resumed: the checksum of two pieces is the checksum of the second
    one started with that of the first. *)
Theorem crc32_divides (crc : Z) (a b : list Z) :
  in_word 32 crc -> bytes_ok a -> bytes_ok b ->
  exists r1 r2, crc32 crc a (Z.of_nat (length a)) = Some r1 /\ crc32 r1 b (Z.of_nat (length b)) = Some r2 /\
    crc32 crc (a ++ b) (Z.of_nat (length (a ++ b))) = Some r2 /\ in_word 32 r2 /\
    r2 = Z.lxor (crc_bytes (Z.lxor crc (2 ^ 32 - 1)) (a ++ b)) (2 ^ 32 - 1).
Proof.
  intros Hc Ha Hb. pose proof (crc_bytes_word _ _ (not_word crc Hc) Ha) as Hra. eexists _, _. split; [by apply crc32_spec|].
  assert (bytes_ok (a ++ b)) as Hab by (by apply Forall_app).
  split; [by apply crc32_spec; [apply not_word|]|]. rewrite crc32_spec by done. unfold crc_bytes. rewrite foldl_app.
  rewrite Z.lxor_assoc, Z.lxor_nilpotent, Z.lxor_0_r. split_and!; [done| |done].
  apply not_word. by apply crc_bytes_word.
Qed.

Lemma crc32_divides_witness :
  exists r1 r2, crc32 0 (bytes_of_string "1234") 4 = Some r1 /\ crc32 r1 (bytes_of_string "56789") 5 = Some r2 /\
    crc32 0 (bytes_of_string "123456789") 9 = Some r2 /\ in_word 32 r2 /\
    r2 = Z.lxor (crc_bytes (Z.lxor 0 (2 ^ 32 - 1)) (bytes_of_string "123456789")) (2 ^ 32 - 1).
Proof.
  apply (crc32_divides 0 (bytes_of_string "1234") (bytes_of_string "56789")); [done|apply bytes_of_string_ok..].
Defined.

(** Two buffers that differ, but only within four consecutive bytes, have
    different checksums. *)
Theorem crc32_detects_bursts (crc : Z) (a b b' s : list Z) :
  in_word 32 crc -> bytes_ok a -> bytes_ok b -> bytes_ok b' -> bytes_ok s ->
  length b = length b' -> (length b <= 4)%nat -> b <> b' ->
  crc32 crc (a ++ b ++ s) (Z.of_nat (length (a ++ b ++ s))) <> crc32 crc (a ++ b' ++ s) (Z.of_nat (length (a ++ b' ++ s))).
Proof.
  intros Hc Ha Hb Hb' Hs Hlen H4 Hne Heq. rewrite !crc32_spec in Heq by (done || by rewrite !Forall_app).
  injection Heq as Heq. apply (f_equal (fun z => Z.lxor z (2 ^ 32 - 1))) in Heq.
  rewrite !Z.lxor_assoc, Z.lxor_nilpotent, !Z.lxor_0_r in Heq. unfold crc_bytes in Heq. rewrite !foldl_app in Heq.
  fold (crc_bytes (Z.lxor crc (2 ^ 32 - 1)) a) in Heq. pose proof (crc_bytes_word _ _ (not_word crc Hc) Ha) as Hra.
  remember (crc_bytes (Z.lxor crc (2 ^ 32 - 1)) a) as r eqn:Hr. clear Hr.
  apply (crc_bytes_inj (crc_bytes r b) (crc_bytes r b') s) in Heq; [|by apply crc_bytes_word..|done].
  rewrite !crc_bytes_word_of, <-Hlen in Heq. pose proof (word_of_word b Hb H4) as Hw. pose proof (word_of_word b' Hb' ltac:(lia)) as Hw'.
  apply steps_inj in Heq; [|by apply in_word_lxor..].
  apply Hne, word_of_app_inj; [done..|]. apply (f_equal (Z.lxor r)) in Heq.
  by rewrite <-!Z.lxor_assoc, Z.lxor_nilpotent, !Z.lxor_0_l in Heq.
Qed.

Lemma crc32_detects_bursts_witness :
  crc32 0 (bytes_of_string "a" ++ bytes_of_string "bcde" ++ bytes_of_string "f") 6
  <> crc32 0 (bytes_of_string "a" ++ bytes_of_string "bXYe" ++ bytes_of_string "f") 6.
Proof.
  apply (crc32_detects_bursts 0 (bytes_of_string "a") (bytes_of_string "bcde") (bytes_of_string "bXYe") (bytes_of_string "f"));
    first [done|apply bytes_of_string_ok|simpl; lia].
Defined.
