(* ===== verification/CcDigest.v ===== *)
(** * Digests of corecrypto

    [ccdigest_init], [ccdigest_update] and [ccdigest_final_64be] of
    [osfmk/corecrypto], over the descriptor [struct ccdigest_info] and the accessors
    of [EXTERNAL_HEADERS/corecrypto/ccdigest.h].  A context is a record: its bit
    count, the chaining value as 32-bit words, the block buffer, and the count of
    bytes in that buffer.

    [DigestLaws] is what a descriptor promises to its clients.  Against this
    interface a context is shown to stand for the bytes that have been hashed
    ([absorbed]), whatever the pieces they came in.  The instance for SHA-256 is in
    CcSha256, the client HMAC in CcHmac. *)
From S2P Require Import Prelude.

Local Open Scope Z_scope.

(** ** Copying *)

(** [cc_memcpy(dst + off, src, n)]. *)
Definition cc_memcpy (dst : list Z) (off : Z) (src : list Z) (n : Z) : option (list Z) :=
  if decide (0 <= off /\ 0 <= n /\ off + n <= Z.of_nat (length dst) /\ n <= Z.of_nat (length src))
  then Some (take (Z.to_nat off) dst ++ take (Z.to_nat n) src ++ drop (Z.to_nat (off + n)) dst)
  else None.

(** [cc_memset(dst + off, c, n)]. *)
Definition cc_memset (dst : list Z) (off c n : Z) : option (list Z) :=
  cc_memcpy dst off (replicate (Z.to_nat n) c) n.

Definition cc_store32_be (x : Z) (y : list Z) (off : Z) : option (list Z) :=
  y ← zset y off (u8 (Z.shiftr x 24));
  y ← zset y (off + 1) (u8 (Z.shiftr x 16));
  y ← zset y (off + 2) (u8 (Z.shiftr x 8));
  zset y (off + 3) (u8 x).

Definition cc_store64_be (x : Z) (y : list Z) (off : Z) : option (list Z) :=
  y ← zset y off (u8 (Z.shiftr x 56));
  y ← zset y (off + 1) (u8 (Z.shiftr x 48));
  y ← zset y (off + 2) (u8 (Z.shiftr x 40));
  y ← zset y (off + 3) (u8 (Z.shiftr x 32));
  y ← zset y (off + 4) (u8 (Z.shiftr x 24));
  y ← zset y (off + 5) (u8 (Z.shiftr x 16));
  y ← zset y (off + 6) (u8 (Z.shiftr x 8));
  zset y (off + 7) (u8 x).

Definition cc_load32_be (y : list Z) (off : Z) : option Z :=
  b0 ← zget y off;
  b1 ← zget y (off + 1);
  b2 ← zget y (off + 2);
  b3 ← zget y (off + 3);
  Some (Z.lor (Z.lor (Z.lor (u32 (Z.shiftl b0 24)) (u32 (Z.shiftl b1 16))) (u32 (Z.shiftl b2 8))) b3).

(** ** Contexts and descriptors *)

Record ccdigest_ctx := CcdigestCtx { nbits : Z; state : list Z; data : list Z; num : Z }.

(** [compress] and [final] are the function pointers of the descriptor; [final]
    gives the context after the call and the bytes that it writes to the digest.  The
    descriptor it receives in C is part of the function here. *)
Record ccdigest_info := CcdigestInfo {
  output_size : Z;
  state_size : Z;
  block_size : Z;
  initial_state : list Z;
  compress : list Z -> Z -> list Z -> option (list Z);
  final : ccdigest_ctx -> option (ccdigest_ctx * list Z)
}.

(** [state_size] bytes of words. *)
Definition ccdigest_copy_state (di : ccdigest_info) (src : list Z) : list Z :=
  take (Z.to_nat (state_size di / 4)) src.

Definition set_num (ctx : ccdigest_ctx) (n : Z) : ccdigest_ctx :=
  CcdigestCtx (nbits ctx) (state ctx) (data ctx) n.

(** The sanity check that [update] and [final] start with. *)
Definition recover_num (bs : Z) (ctx : ccdigest_ctx) : ccdigest_ctx :=
  if decide (bs <= num ctx) then set_num ctx 0 else ctx.

(** ** Operations *)

Definition ccdigest_init (di : ccdigest_info) (ctx : ccdigest_ctx) : ccdigest_ctx :=
  CcdigestCtx 0 (ccdigest_copy_state di (initial_state di)) (data ctx) 0.

(** The blocks, and their bytes, that are hashed in place. *)
Definition whole_blocks (bs len : Z) : Z * Z :=
  if decide (bs = Z.shiftl 1 6) then (Z.shiftr len 6, Z.shiftl (Z.shiftr len 6) 6)
  else if decide (bs = Z.shiftl 1 7) then (Z.shiftr len 7, Z.shiftl (Z.shiftr len 7) 7)
  else (len / bs, len / bs * bs).

(** The body of the loop: the context and how many bytes were used. *)
Definition update_step (di : ccdigest_info) (ctx : ccdigest_ctx) (len : Z) (data_ptr : list Z)
    : option (ccdigest_ctx * Z) :=
  let bs := block_size di in
  if decide (num ctx = 0 /\ bs < len) then
    let '(nblocks, nbytes) := whole_blocks bs len in
    st ← compress di (state ctx) nblocks data_ptr;
    Some (CcdigestCtx (u64 (nbits ctx + u64 (nbytes * 8))) st (data ctx) (num ctx), nbytes)
  else
    let n := Z.min (bs - num ctx) len in
    d ← cc_memcpy (data ctx) (num ctx) data_ptr n;
    let num' := u32 (num ctx + n) in
    if decide (num' = bs) then
      st ← compress di (state ctx) 1 d;
      Some (CcdigestCtx (u64 (nbits ctx + u32 (num' * 8))) st d 0, n)
    else Some (CcdigestCtx (nbits ctx) (state ctx) d num', n).

Fixpoint update_loop (fuel : nat) (di : ccdigest_info) (ctx : ccdigest_ctx) (len : Z) (data_ptr : list Z)
    : option ccdigest_ctx :=
  match fuel with
  | O => None
  | S fuel =>
      if decide (0 < len) then
        '(ctx, n) ← update_step di ctx len data_ptr;
        update_loop fuel di ctx (len - n) (drop (Z.to_nat n) data_ptr)
      else Some ctx
  end.

Definition ccdigest_update (di : ccdigest_info) (ctx : ccdigest_ctx) (len : Z) (data : list Z)
    : option ccdigest_ctx :=
  update_loop (S (Z.to_nat len)) di (recover_num (block_size di) ctx) len data.

Definition ccdigest_final (di : ccdigest_info) (ctx : ccdigest_ctx) : option (ccdigest_ctx * list Z) :=
  final di ctx.

(** [while (num < n) data[num++] = 0]. *)
Definition pad_zero (n : Z) (tmp : ccdigest_ctx) : option ccdigest_ctx :=
  d ← for_range (Z.to_nat (n - num tmp)) (fun i d => zset d (num tmp + Z.of_nat i) 0) (data tmp);
  Some (CcdigestCtx (nbits tmp) (state tmp) d (Z.max (num tmp) n)).

Definition compress_data (f : list Z -> Z -> list Z -> option (list Z)) (tmp : ccdigest_ctx) (n : Z)
    : option ccdigest_ctx :=
  st ← f (state tmp) 1 (data tmp);
  Some (CcdigestCtx (nbits tmp) st (data tmp) n).

Definition ccdigest_final_64be (f : list Z -> Z -> list Z -> option (list Z)) (bs out : Z) (ctx : ccdigest_ctx)
    : option (ccdigest_ctx * list Z) :=
  let ctx := recover_num bs ctx in
  d ← zset (data ctx) (num ctx) 128;
  let tmp := CcdigestCtx (u64 (nbits ctx + u32 (num ctx * 8))) (state ctx) d (u32 (num ctx + 1)) in
  tmp ← (if decide (64 - 8 < num tmp) then tmp ← pad_zero 64 tmp; compress_data f tmp 0 else Some tmp);
  tmp ← pad_zero (64 - 8) tmp;
  d ← cc_store64_be (nbits tmp) (data tmp) (64 - 8);
  tmp ← compress_data f (CcdigestCtx (nbits tmp) (state tmp) d (num tmp)) (num tmp);
  digest ← for_range (Z.to_nat (out / 4)) (fun i digest =>
             w ← state tmp !! i; cc_store32_be w digest (4 * Z.of_nat i)) (replicate (Z.to_nat out) 0);
  Some (ctx, digest).

(** The pieces of a message, one call after the other. *)
Fixpoint ccdigest_updates (di : ccdigest_info) (ctx : ccdigest_ctx) (pieces : list (list Z)) : option ccdigest_ctx :=
  match pieces with
  | [] => Some ctx
  | d :: pieces => ctx ← ccdigest_update di ctx (Z.of_nat (length d)) d; ccdigest_updates di ctx pieces
  end.

(** ** Copying, as list equations *)

Lemma cc_memcpy_spec dst off src n :
  0 <= off -> 0 <= n -> off + n <= Z.of_nat (length dst) -> n <= Z.of_nat (length src) ->
  cc_memcpy dst off src n
  = Some (take (Z.to_nat off) dst ++ take (Z.to_nat n) src ++ drop (Z.to_nat (off + n)) dst).
Proof. intros. unfold cc_memcpy. by rewrite decide_True. Qed.

(** A copy over the start of a buffer. *)
Lemma cc_memcpy_start dst src n :
  n = Z.of_nat (length src) -> n <= Z.of_nat (length dst) ->
  cc_memcpy dst 0 src n = Some (src ++ drop (length src) dst).
Proof.
  intros -> Hd. rewrite cc_memcpy_spec by lia. rewrite Z.add_0_l, Nat2Z.id, firstn_all. done.
Qed.

(** Writing cell after cell is replacing a stretch. *)
Lemma zset_stretch (f : nat -> Z) (P Q : list Z) (k n : nat) :
  length P = k -> (n <= length Q)%nat ->
  for_range n (fun i d => zset d (Z.of_nat k + Z.of_nat i) (f i)) (P ++ Q) =
  Some (P ++ (f <$> seq 0 n) ++ drop n Q).
Proof.
  intros HP HQ.
  destruct (for_range_inv (fun i d => d = P ++ (f <$> seq 0 i) ++ drop i Q) n
    (fun i d => zset d (Z.of_nat k + Z.of_nat i) (f i)) (P ++ Q)) as (d & -> & ->); [done| |done].
  intros j t Hj ->.
  destruct (lookup_lt_is_Some_2 Q j) as [x Hx]; [lia|].
  rewrite (drop_S _ _ _ Hx).
  rewrite zset_in by (rewrite !length_app, length_fmap, length_seq; simpl; lia).
  replace (Z.to_nat (Z.of_nat k + Z.of_nat j)) with (length (P ++ (f <$> seq 0 j)) + 0)%nat
    by (rewrite length_app, length_fmap, length_seq; lia).
  eexists. split; [done|]. rewrite app_assoc, insert_app_r, seq_S, fmap_app, <-!app_assoc. done.
Qed.

(** ** The interface *)

(** The blocks of [M] are compressed into [H] one after the other. *)
Definition blocks (C : list Z -> list Z -> list Z) (bs : nat) (M H : list Z) : list Z :=
  fold_left (fun H i => C H (take bs (drop (bs * i) M))) (seq 0 (length M / bs)) H.

Section Blocks.
Context (C : list Z -> list Z -> list Z) (bs : nat) (Hbs : (0 < bs)%nat).

Lemma blocks_nil H : blocks C bs [] H = H.
Proof. unfold blocks. simpl length. by rewrite Nat.Div0.div_0_l. Qed.

Lemma blocks_app k a b H :
  length a = (bs * k)%nat -> blocks C bs (a ++ b) H = blocks C bs b (blocks C bs a H).
Proof.
  intros Ha. unfold blocks. rewrite length_app, Ha.
  replace (bs * k + length b)%nat with (k * bs + length b)%nat by lia.
  rewrite Nat.div_add_l by lia. rewrite (Nat.mul_comm bs k), Nat.div_mul by lia.
  rewrite seq_app, fold_left_app, Nat.add_0_l.
  assert (forall l H, Forall (fun i => (i < k)%nat) l ->
    fold_left (fun H i => C H (take bs (drop (bs * i) (a ++ b)))) l H =
    fold_left (fun H i => C H (take bs (drop (bs * i) a))) l H) as Hl.
  { induction l as [|i l IH]; intros G Hf; [done|]. apply Forall_cons in Hf as [Hi Hf]. simpl.
    assert (bs * i + bs <= bs * k)%nat by nia.
    rewrite drop_app_le by lia. rewrite take_app_le by (rewrite length_drop; lia). by apply IH. }
  rewrite (Hl (seq 0 k)) by (apply Forall_forall; intros i Hi%elem_of_seq; lia).
  generalize (fold_left (fun H i => C H (take bs (drop (bs * i) a))) (seq 0 k) H). clear H Hl.
  generalize (length b / bs)%nat as n. intros n H.
  rewrite <-(Nat.add_0_r k) at 1. generalize 0%nat as s. revert H.
  induction n as [|n IH]; intros H s; [done|]. simpl. rewrite <-Nat.add_succ_r, IH. do 2 f_equal.
  rewrite drop_app_ge by nia. do 2 f_equal. nia.
Qed.

Lemma blocks_one a H : length a = bs -> blocks C bs a H = C H a.
Proof.
  intros Ha. unfold blocks. rewrite Ha, Nat.div_same by lia. simpl. rewrite Nat.mul_0_r, drop_0.
  by rewrite take_ge by lia.
Qed.
End Blocks.

(** A chaining value of the right size. *)
Definition state_ok (di : ccdigest_info) (st : list Z) : Prop :=
  length st = Z.to_nat (state_size di / 4) /\ Forall (in_word 32) st.

(** The context has hashed the message [m]: whole blocks are compressed, the rest is
    in the buffer. *)
Definition absorbed (di : ccdigest_info) (C : list Z -> list Z -> list Z) (ctx : ccdigest_ctx) (m : list Z) : Prop :=
  exists full rest k, m = full ++ rest /\ bytes_ok m /\
    length full = (Z.to_nat (block_size di) * k)%nat /\ Z.of_nat (length rest) < block_size di /\
    state ctx = blocks C (Z.to_nat (block_size di)) full (initial_state di) /\ state_ok di (state ctx) /\
    nbits ctx = u64 (8 * Z.of_nat (length full)) /\ num ctx = Z.of_nat (length rest) /\
    take (length rest) (data ctx) = rest /\ Z.of_nat (length (data ctx)) = block_size di.

(** What a descriptor promises: [compress] iterates the compression function [C], and
    [final] computes the hash [H]. *)
Class DigestLaws (di : ccdigest_info) (C : list Z -> list Z -> list Z) (H : list Z -> list Z) := {
  law_block : 0 < block_size di < 2 ^ 24;
  law_output : 0 < output_size di < block_size di;
  law_initial : state_ok di (initial_state di);
  law_hash m : bytes_ok (H m) /\ Z.of_nat (length (H m)) = output_size di;
  law_compress st n d :
    state_ok di st -> bytes_ok d -> (Z.to_nat (block_size di) * n <= length d)%nat ->
    let st' := blocks C (Z.to_nat (block_size di)) (take (Z.to_nat (block_size di) * n) d) st in
    compress di st (Z.of_nat n) d = Some st' /\ state_ok di st';
  law_final ctx m :
    absorbed di C ctx m -> 8 * Z.of_nat (length m) < 2 ^ 64 -> final di ctx = Some (ctx, H m)
}.

Section Laws.
Context (di : ccdigest_info) (C : list Z -> list Z -> list Z) (H : list Z -> list Z) {L : DigestLaws di C H}.

Local Abbreviation bs := (Z.to_nat (block_size di)).

Lemma copy_initial : ccdigest_copy_state di (initial_state di) = initial_state di.
Proof. destruct law_initial as [Hl _]. unfold ccdigest_copy_state. by rewrite take_ge by lia. Qed.

Lemma init_absorbed ctx :
  Z.of_nat (length (data ctx)) = block_size di -> absorbed di C (ccdigest_init di ctx) [].
Proof.
  intros Hd. pose proof law_block. exists [], [], 0%nat. cbn. rewrite copy_initial.
  split_and!; try done; try lia. - by rewrite blocks_nil. - apply law_initial.
Qed.

Lemma whole_blocks_spec b len : 0 < b -> whole_blocks b len = (len / b, len / b * b).
Proof.
  intros Hb. unfold whole_blocks. repeat case_decide; subst; try done;
    rewrite Z.shiftl_mul_pow2, Z.shiftr_div_pow2 by lia; done.
Qed.

Lemma absorbed_num ctx m : absorbed di C ctx m -> 0 <= num ctx < block_size di.
Proof. intros (full & rest & k & Hm). naive_solver lia. Qed.

Lemma recover_absorbed ctx m : absorbed di C ctx m -> recover_num (block_size di) ctx = ctx.
Proof. intros Hr. pose proof (absorbed_num _ _ Hr). unfold recover_num. by rewrite decide_False by lia. Qed.

(** One turn of the loop takes some bytes. *)
Lemma update_step_absorbs ctx m d len :
  absorbed di C ctx m -> bytes_ok d -> (0 < len <= length d)%nat ->
  exists ctx' n, update_step di ctx (Z.of_nat len) d = Some (ctx', Z.of_nat n) /\
    (0 < n <= len)%nat /\ absorbed di C ctx' (m ++ take n d).
Proof.
  intros (full & rest & k & -> & Hm & Hfull & Hrest & Hst & Hsok & Hnb & Hnum & Htake & Hdata) Hd Hlen.
  pose proof law_block as Hbs. assert (0 < bs)%nat as Hpos by lia. apply Forall_app in Hm as [Hmf Hmr].
  unfold update_step. cbv zeta. destruct (decide (num ctx = 0 /\ block_size di < Z.of_nat len)) as [[Hz Hlt]|Hc].
  - assert (rest = []) as -> by (destruct rest; [done|simpl in Hnum; lia]).
    rewrite whole_blocks_spec by lia. set (n := Z.to_nat (Z.of_nat len / block_size di)).
    assert (1 <= Z.of_nat len / block_size di) by (apply Z.div_le_lower_bound; lia).
    assert (block_size di * (Z.of_nat len / block_size di) <= Z.of_nat len) by (apply Z.mul_div_le; lia).
    replace (Z.of_nat len / block_size di) with (Z.of_nat n) in * by lia.
    destruct (law_compress (state ctx) n d) as [-> Hok]; [done|done|nia|]. rewrite bind_some.
    exists (CcdigestCtx (u64 (nbits ctx + u64 (Z.of_nat n * block_size di * 8)))
      (blocks C bs (take (bs * n) d) (state ctx)) (data ctx) (num ctx)), (bs * n)%nat.
    split; [do 2 f_equal; nia|]. split; [nia|].
    exists (full ++ take (bs * n) d), [], (k + n)%nat. cbn [state nbits num data]. rewrite !app_nil_r.
    assert (length (take (bs * n) d) = (bs * n)%nat) as Htl by (rewrite length_take; nia).
    split_and!; try done.
    + apply Forall_app; split; [done|by apply Forall_take].
    + rewrite length_app, Htl. lia.
    + rewrite Hst. symmetry. by apply (blocks_app C bs Hpos k).
    + rewrite Hnb, length_app, Htl. rewrite wrap_add_l, wrap_add_r. f_equal. nia.
  - set (n := Nat.min (bs - length rest) len).
    replace (Z.min (block_size di - num ctx) (Z.of_nat len)) with (Z.of_nat n) by (rewrite Hnum; lia).
    assert (0 < n <= len)%nat by lia. assert (n <= bs - length rest)%nat as Hnr by lia.
    rewrite cc_memcpy_spec by lia. rewrite bind_some, Hnum, !Nat2Z.id.
    replace (Z.to_nat (Z.of_nat (length rest) + Z.of_nat n)) with (length rest + n)%nat by lia. rewrite Htake.
    set (d' := rest ++ take n d ++ drop (length rest + n) (data ctx)).
    assert (length (take n d) = n) as Htl by (rewrite length_take; lia).
    assert (length d' = bs) as Hd' by (unfold d'; rewrite !length_app, length_drop, Htl; lia).
    assert (take (length (rest ++ take n d)) d' = rest ++ take n d) as Htk.
    { unfold d'. rewrite app_assoc. by rewrite take_app_length. }
    assert (bytes_ok (rest ++ take n d)) as Hbo by (apply Forall_app; split; [done|by apply Forall_take]).
    rewrite (wrap_small 32 (_ + _)) by (unfold in_word; lia).
    destruct (decide (Z.of_nat (length rest) + Z.of_nat n = block_size di)) as [Heq|Hne'].
    + assert (d' = rest ++ take n d) as ->.
      { unfold d'. rewrite app_assoc, (drop_ge (data ctx)) by lia. by rewrite app_nil_r. }
      destruct (law_compress (state ctx) 1 (rest ++ take n d)) as [Hcm Hok]; [done|done|rewrite length_app, Htl; lia|].
      assert (length (rest ++ take n d) = bs) as Hl by (rewrite length_app, Htl; lia).
      rewrite Nat.mul_1_r, (take_ge (rest ++ take n d)) in Hcm, Hok by lia. change (Z.of_nat 1) with 1 in Hcm. rewrite Hcm, bind_some.
      eexists _, n. split; [done|]. split; [done|].
      exists (full ++ rest ++ take n d), [], (k + 1)%nat. cbn [state nbits num data]. rewrite !app_nil_r, <-!app_assoc.
      split_and!; try done.
      * by rewrite !Forall_app in *.
      * rewrite length_app, Hl. lia.
      * simpl. lia.
      * rewrite Hst. symmetry. by apply (blocks_app C bs Hpos k).
      * rewrite Hnb, (wrap_small 32) by (unfold in_word; lia). rewrite wrap_add_l, length_app, Hl. f_equal. lia.
      * rewrite Hl. lia.
    + eexists _, n. split; [done|]. split; [done|].
      exists full, (rest ++ take n d), k. cbn [state nbits num data].
      split_and!; try done.
      * by rewrite app_assoc.
      * rewrite <-app_assoc. by apply Forall_app.
      * rewrite length_app, Htl. lia.
      * rewrite length_app, Htl. lia.
      * lia.
Qed.

Lemma update_loop_absorbs fuel ctx m d len :
  absorbed di C ctx m -> bytes_ok d -> (len < fuel)%nat -> (len <= length d)%nat ->
  exists ctx', update_loop fuel di ctx (Z.of_nat len) d = Some ctx' /\ absorbed di C ctx' (m ++ take len d).
Proof.
  revert ctx m d len. induction fuel as [|fuel IH]; intros ctx m d len Hr Hd Hf Hl; [lia|]. cbn [update_loop].
  case_decide as Hz.
  - destruct (update_step_absorbs ctx m d len) as (ctx' & n & -> & Hn & Hr'); [done|done|lia|].
    rewrite bind_some. cbv beta iota. rewrite Nat2Z.id.
    replace (Z.of_nat len - Z.of_nat n) with (Z.of_nat (len - n)) by lia.
    destruct (IH ctx' (m ++ take n d) (drop n d) (len - n)%nat) as (ctx'' & -> & Hr'');
      [done|by apply Forall_drop|lia|rewrite length_drop; lia|].
    exists ctx''. split; [done|]. rewrite <-app_assoc, take_take_drop in Hr''.
    by replace (n + (len - n))%nat with len in Hr'' by lia.
  - replace len with 0%nat by lia. exists ctx. by rewrite take_0, app_nil_r.
Qed.

(** Hashing the start of an array [d] on top of [m]. *)
Lemma update_absorbs_take ctx m d len :
  absorbed di C ctx m -> bytes_ok d -> 0 <= len <= Z.of_nat (length d) ->
  exists ctx', ccdigest_update di ctx len d = Some ctx' /\ absorbed di C ctx' (m ++ take (Z.to_nat len) d).
Proof.
  intros Hr Hd Hl. unfold ccdigest_update. rewrite (recover_absorbed _ _ Hr).
  destruct (update_loop_absorbs (S (Z.to_nat len)) ctx m d (Z.to_nat len)) as (ctx' & Hu & Ha); [done|done|lia|lia|].
  rewrite Z2Nat.id in Hu by lia. by exists ctx'.
Qed.

Lemma update_absorbs ctx m d :
  absorbed di C ctx m -> bytes_ok d ->
  exists ctx', ccdigest_update di ctx (Z.of_nat (length d)) d = Some ctx' /\ absorbed di C ctx' (m ++ d).
Proof.
  intros Hr Hd. destruct (update_absorbs_take ctx m d (Z.of_nat (length d))) as (ctx' & Hu & Ha); [done|done|lia|].
  exists ctx'. split; [done|]. by rewrite Nat2Z.id, firstn_all in Ha.
Qed.

Lemma updates_absorb ctx m pieces :
  absorbed di C ctx m -> Forall bytes_ok pieces ->
  exists ctx', ccdigest_updates di ctx pieces = Some ctx' /\ absorbed di C ctx' (m ++ mjoin pieces).
Proof.
  intros Hr Hp. revert ctx m Hr. induction Hp as [|d pieces Hd Hp IH]; intros ctx m Hr; cbn [ccdigest_updates].
  - exists ctx. split; [done|]. cbn. by rewrite app_nil_r.
  - destruct (update_absorbs ctx m d Hr Hd) as (ctx1 & -> & Hr1). rewrite bind_some.
    destruct (IH ctx1 _ Hr1) as (ctx2 & -> & Hr2). exists ctx2. split; [done|].
    cbn. by rewrite app_assoc.
Qed.

Lemma final_hash ctx m :
  absorbed di C ctx m -> 8 * Z.of_nat (length m) < 2 ^ 64 -> ccdigest_final di ctx = Some (ctx, H m).
Proof. apply law_final. Qed.
End Laws.
