(* ===== verification/CcSha256.v ===== *)
(** * SHA-256 of corecrypto

    The portable compression function of [osfmk/corecrypto/ccsha256_ltc_compress.c],
    which unrolls eight rounds and renames the working variables instead of moving
    them, with the constants of [ccsha256_K.c] and [ccsha256_initial_state.c], and the
    descriptor of [ccsha256_ltc_di.c].  It is an instance of [DigestLaws] for the
    hash of FIPS 180-4 as Sha256 defines it, so that a message hashed in any number of
    pieces has the digest of the standard. *)
From S2P Require Import Prelude Sha256 CcDigest.

Local Open Scope Z_scope.

(** ** The compression function *)

(** The round constants, which the source has in hexadecimal. *)
Definition ccsha256_K : list Z :=
  [1116352408; 1899447441; 3049323471; 3921009573; 961987163;
   1508970993; 2453635748; 2870763221; 3624381080; 310598401;
   607225278; 1426881987; 1925078388; 2162078206; 2614888103;
   3248222580; 3835390401; 4022224774; 264347078; 604807628;
   770255983; 1249150122; 1555081692; 1996064986; 2554220882;
   2821834349; 2952996808; 3210313671; 3336571891; 3584528711;
   113926993; 338241895; 666307205; 773529912; 1294757372;
   1396182291; 1695183700; 1986661051; 2177026350; 2456956037;
   2730485921; 2820302411; 3259730800; 3345764771; 3516065817;
   3600352804; 4094571909; 275423344; 430227734; 506948616;
   659060556; 883997877; 958139571; 1322822218; 1537002063;
   1747873779; 1955562222; 2024104815; 2227730452; 2361852424;
   2428436474; 2756734187; 3204031479; 3329325298].

Definition ccsha256_initial_state : list Z :=
  [0x6A09E667; 0xBB67AE85; 0x3C6EF372; 0xA54FF53A;
   0x510E527F; 0x9B05688C; 0x1F83D9AB; 0x5BE0CD19].

Definition CC_ROR (word i : Z) : Z :=
  Z.lor (Z.shiftr word (Z.land i 31)) (u32 (Z.shiftl word (Z.land (32 - Z.land i 31) 31))).

Definition Ch (x y z : Z) : Z := Z.lxor z (Z.land x (Z.lxor y z)).
Definition Maj (x y z : Z) : Z := Z.lor (Z.land (Z.lor x y) z) (Z.land x y).
Definition Sigma0 (x : Z) : Z := Z.lxor (Z.lxor (CC_ROR x 2) (CC_ROR x 13)) (CC_ROR x 22).
Definition Sigma1 (x : Z) : Z := Z.lxor (Z.lxor (CC_ROR x 6) (CC_ROR x 11)) (CC_ROR x 25).
Definition Gamma0 (x : Z) : Z := Z.lxor (Z.lxor (CC_ROR x 7) (CC_ROR x 18)) (Z.shiftr x 3).
Definition Gamma1 (x : Z) : Z := Z.lxor (Z.lxor (CC_ROR x 17) (CC_ROR x 19)) (Z.shiftr x 10).

(** The schedule [W]; the entries are assigned in order, one that is not assigned
    yet cannot be read. *)
Definition schedule_W (buf : list Z) (base : Z) : option (list Z) :=
  W ← for_range 16 (fun i W => x ← cc_load32_be buf (base + 4 * Z.of_nat i); Some (W ++ [x])) [];
  for_from 16 48 (fun i W =>
    w2 ← W !! (i - 2)%nat;
    w7 ← W !! (i - 7)%nat;
    w15 ← W !! (i - 15)%nat;
    w16 ← W !! (i - 16)%nat;
    Some (W ++ [u32 (Gamma1 w2 + w7 + Gamma0 w15 + w16)])) W.

(** [RND] on the cells of the array [S] that are named. *)
Definition RND (W : list Z) (a b c d e f g h : nat) (i : nat) (s : list Z) : option (list Z) :=
  va ← s !! a; vb ← s !! b; vc ← s !! c; vd ← s !! d;
  ve ← s !! e; vf ← s !! f; vg ← s !! g; vh ← s !! h;
  k ← ccsha256_K !! i;
  w ← W !! i;
  let t0 := u32 (vh + Sigma1 ve + Ch ve vf vg + k + w) in
  let t1 := u32 (Sigma0 va + Maj va vb vc) in
  Some (<[h := u32 (t0 + t1)]> (<[d := u32 (vd + t0)]> s)).

(** The body of the loop over [i], in steps of eight. *)
Definition rounds8 (W : list Z) (i : nat) (s : list Z) : option (list Z) :=
  s ← RND W 0 1 2 3 4 5 6 7 (i + 0) s;
  s ← RND W 7 0 1 2 3 4 5 6 (i + 1) s;
  s ← RND W 6 7 0 1 2 3 4 5 (i + 2) s;
  s ← RND W 5 6 7 0 1 2 3 4 (i + 3) s;
  s ← RND W 4 5 6 7 0 1 2 3 (i + 4) s;
  s ← RND W 3 4 5 6 7 0 1 2 (i + 5) s;
  s ← RND W 2 3 4 5 6 7 0 1 (i + 6) s;
  RND W 1 2 3 4 5 6 7 0 (i + 7) s.

Definition compress_block (s buf : list Z) (base : Z) : option (list Z) :=
  W ← schedule_W buf base;
  t ← for_range 8 (fun j t => rounds8 W (8 * j) t) (take 8 s);
  Some (zip_with (fun x y => u32 (x + y)) s t).

Definition ccsha256_ltc_compress (st : list Z) (nblocks : Z) (buf : list Z) : option (list Z) :=
  for_range (Z.to_nat nblocks) (fun i s => compress_block s buf (64 * Z.of_nat i)) st.

Abbreviation CCSHA256_BLOCK_SIZE := (64)%Z.
Abbreviation CCSHA256_OUTPUT_SIZE := (32)%Z.
Abbreviation CCSHA256_STATE_SIZE := (32)%Z.

Definition ccsha256_ltc_di : ccdigest_info :=
  CcdigestInfo CCSHA256_OUTPUT_SIZE CCSHA256_STATE_SIZE CCSHA256_BLOCK_SIZE ccsha256_initial_state
    ccsha256_ltc_compress
    (ccdigest_final_64be ccsha256_ltc_compress CCSHA256_BLOCK_SIZE CCSHA256_OUTPUT_SIZE).

(** ** The functions of the standard *)

Lemma K_standard : ccsha256_K = FIPS180.K.
Proof. rewrite <-sha256_k_K. vm_compute. reflexivity. Qed.

Lemma initial_standard : ccsha256_initial_state = FIPS180.H0.
Proof. vm_compute. reflexivity. Qed.

Lemma Ch_standard x y z : in_word 32 x -> in_word 32 y -> in_word 32 z -> Ch x y z = FIPS180.Ch x y z.
Proof.
  intros Hx Hy Hz. rewrite <-(ch_Ch x y z) by done. unfold Ch, sha256_ch. apply Z.bits_inj'. intros i Hi.
  rewrite !Z.lxor_spec, !Z.land_spec, Z.lxor_spec, testbit_wrap, Z.lnot_spec by lia. case_bool_decide.
  - by destruct (Z.testbit x i), (Z.testbit y i), (Z.testbit z i).
  - apply in_word_bits in Hx as [_ ->]; [|lia..]. apply in_word_bits in Hz as [_ ->]; [|lia..]. done.
Qed.

Lemma Maj_standard x y z : Maj x y z = FIPS180.Maj x y z.
Proof.
  unfold Maj, FIPS180.Maj. apply Z.bits_inj'. intros i Hi.
  rewrite !Z.lor_spec, !Z.lxor_spec, !Z.land_spec, Z.lor_spec.
  by destruct (Z.testbit x i), (Z.testbit y i), (Z.testbit z i).
Qed.

Lemma Sigma0_standard x : in_word 32 x -> Sigma0 x = FIPS180.Sigma0 x.
Proof. intros Hx. by rewrite <-ep0_Sigma0. Qed.

Lemma Sigma1_standard x : in_word 32 x -> Sigma1 x = FIPS180.Sigma1 x.
Proof. intros Hx. by rewrite <-ep1_Sigma1. Qed.

(** The same loads and the same schedule as in Sha256. *)
Lemma schedule_W_eq buf base : schedule_W buf base = sha256_schedule buf base.
Proof. reflexivity. Qed.

(** Where the working variables [v] are in the array before round [j] of eight:
    variable number [t] is in cell [t - j]. *)
Definition place (j : nat) (v : list Z) : list Z := drop j v ++ take j v.

Definition cell (j t : nat) : nat := Nat.modulo (t + 8 - j) 8.

Lemma RND_step W i k w j v :
  (j < 8)%nat -> length v = 8%nat -> Forall (in_word 32) v -> ccsha256_K !! i = Some k -> W !! i = Some w ->
  RND W (cell j 0) (cell j 1) (cell j 2) (cell j 3) (cell j 4) (cell j 5) (cell j 6) (cell j 7) i (place j v) =
  Some (place (S j) (FIPS180.step v (k, w))) /\
  length (FIPS180.step v (k, w)) = 8%nat /\ Forall (in_word 32) (FIPS180.step v (k, w)).
Proof.
  intros Hj Hl Hv Hk Hw.
  destruct v as [|a [|b [|c [|d [|e [|f [|g [|h [|]]]]]]]]]; try done.
  rewrite !Forall_cons in Hv. destruct Hv as (Ha & Hb & Hc & Hd & He & Hf & Hg & Hh & _).
  split_and!.
  - unfold RND. rewrite Hk, Hw.
    do 8 (destruct j as [|j]; [cbn -[u32 Sigma0 Sigma1 Ch Maj Z.add FIPS180.step];
      rewrite Sigma1_standard, Sigma0_standard, Ch_standard, Maj_standard by done; reflexivity|]). lia.
  - done.
  - cbn. repeat apply Forall_cons_2; try done; apply Z.mod_pos_bound; lia.
Qed.

(** Eight rounds, after which the variables are at home again. *)
Lemma rounds8_step W ks i v :
  length v = 8%nat -> Forall (in_word 32) v -> ks = zip ccsha256_K W -> (i + 8 <= length ks)%nat ->
  let v' := fold_left FIPS180.step (take 8 (drop i ks)) v in
  rounds8 W i v = Some v' /\ length v' = 8%nat /\ Forall (in_word 32) v'.
Proof.
  intros Hl Hv Hks Hi. cbv zeta.
  assert (forall j, (j <= 8)%nat -> let u := fold_left FIPS180.step (take j (drop i ks)) v in
    length u = 8%nat /\ Forall (in_word 32) u) as Hu.
  { intros j Hj. generalize (take j (drop i ks)). intros l. revert v Hl Hv.
    clear. induction l as [|kw l IH]; intros v Hl Hv; [done|]. simpl. apply IH.
    - destruct v as [|? [|? [|? [|? [|? [|? [|? [|? [|]]]]]]]]]; done.
    - destruct v as [|? [|? [|? [|? [|? [|? [|? [|? [|]]]]]]]]]; try done.
      rewrite !Forall_cons in Hv. cbn. repeat apply Forall_cons_2; try naive_solver; apply Z.mod_pos_bound; lia. }
  assert (forall j, (j < 8)%nat ->
    RND W (cell j 0) (cell j 1) (cell j 2) (cell j 3) (cell j 4) (cell j 5) (cell j 6) (cell j 7) (i + j)
      (place j (fold_left FIPS180.step (take j (drop i ks)) v)) =
    Some (place (S j) (fold_left FIPS180.step (take (S j) (drop i ks)) v))) as Hstep.
  { intros j Hj. destruct (Hu j) as [Hul Huw]; [lia|].
    destruct (lookup_lt_is_Some_2 ks (i + j)) as [[k w] Hkw]; [lia|].
    rewrite (take_S_r _ _ (k, w)) by (by rewrite lookup_drop). rewrite fold_left_app.
    subst ks. apply lookup_zip_with_Some in Hkw as (k' & w' & [= -> ->] & Hk & Hw).
    by destruct (RND_step W (i + j) k' w' j _ Hj Hul Huw Hk Hw) as [-> _]. }
  split; [|by apply Hu]. unfold rounds8.
  pose (u := fun j => fold_left FIPS180.step (take j (drop i ks)) v).
  assert (v = place 0 (u 0%nat)) as Hv0 by (unfold place, u; cbn; by rewrite app_nil_r).
  assert (place 8 (u 8%nat) = u 8%nat) as Hhome.
  { destruct (Hu 8%nat) as [H8 _]; [lia|]. unfold place. by rewrite drop_ge, take_ge by (unfold u in *; lia). }
  change (fold_left FIPS180.step (take 8 (drop i ks)) v) with (u 8%nat). rewrite <-Hhome, Hv0.
  assert (forall j, (j < 8)%nat ->
    RND W (cell j 0) (cell j 1) (cell j 2) (cell j 3) (cell j 4) (cell j 5) (cell j 6) (cell j 7) (i + j)
      (place j (u j)) = Some (place (S j) (u (S j)))) as Hs by exact Hstep. clearbody u.
  rewrite (Hs 0%nat ltac:(lia) : RND W 0 1 2 3 4 5 6 7 (i + 0) _ = _), bind_some.
  rewrite (Hs 1%nat ltac:(lia) : RND W 7 0 1 2 3 4 5 6 (i + 1) _ = _), bind_some.
  rewrite (Hs 2%nat ltac:(lia) : RND W 6 7 0 1 2 3 4 5 (i + 2) _ = _), bind_some.
  rewrite (Hs 3%nat ltac:(lia) : RND W 5 6 7 0 1 2 3 4 (i + 3) _ = _), bind_some.
  rewrite (Hs 4%nat ltac:(lia) : RND W 4 5 6 7 0 1 2 3 (i + 4) _ = _), bind_some.
  rewrite (Hs 5%nat ltac:(lia) : RND W 3 4 5 6 7 0 1 2 (i + 5) _ = _), bind_some.
  rewrite (Hs 6%nat ltac:(lia) : RND W 2 3 4 5 6 7 0 1 (i + 6) _ = _), bind_some.
  exact (Hs 7%nat ltac:(lia)).
Qed.

Lemma rounds_step W v :
  length v = 8%nat -> Forall (in_word 32) v -> length W = 64%nat ->
  let v' := fold_left FIPS180.step (zip ccsha256_K W) v in
  for_range 8 (fun j t => rounds8 W (8 * j) t) v = Some v' /\ length v' = 8%nat /\ Forall (in_word 32) v'.
Proof.
  intros Hl Hv HW v'. assert (length (zip ccsha256_K W) = 64%nat) as Hz by (by rewrite length_zip_with, HW).
  enough (exists t, for_range 8 (fun j t => rounds8 W (8 * j) t) v = Some t /\
    t = v' /\ length t = 8%nat /\ Forall (in_word 32) t) as (t & -> & -> & ?) by done.
  apply (for_range_post (fun j t => t = fold_left FIPS180.step (take (8 * j) (zip ccsha256_K W)) v /\
    length t = 8%nat /\ Forall (in_word 32) t)); [done| |].
  - intros j t Hj (-> & Htl & Htw).
    destruct (rounds8_step W (zip ccsha256_K W) (8 * j) _ Htl Htw eq_refl) as (-> & Hl' & Hw'); [lia|].
    eexists. split; [done|]. split; [|done]. rewrite <-fold_left_app. f_equal.
    replace (8 * S j)%nat with (8 * j + 8)%nat by lia. by rewrite take_take_drop.
  - intros t (-> & Ht). split; [|done]. unfold v'. by rewrite (take_ge (zip _ _)) by lia.
Qed.

(** One block is one application of the compression function of the standard. *)
Lemma compress_block_standard s buf base :
  length s = 8%nat -> Forall (in_word 32) s -> bytes_ok buf -> (base + 64 <= length buf)%nat ->
  let s' := FIPS180.compress s (take 64 (drop base buf)) in
  compress_block s buf (Z.of_nat base) = Some s' /\ length s' = 8%nat /\ Forall (in_word 32) s'.
Proof.
  intros Hl Hs Hb Hbase s'. unfold compress_block. rewrite schedule_W_eq.
  destruct (sha256_schedule_spec buf base Hb Hbase) as [-> HM]. rewrite bind_some, (take_ge s) by lia.
  set (W := FIPS180.schedule _ 48) in *.
  destruct (rounds_step W s Hl Hs) as (-> & Hl' & Hw'); [by unfold W; rewrite length_schedule|].
  rewrite bind_some, K_standard. split_and!.
  - done.
  - unfold s', FIPS180.compress. rewrite <-K_standard. fold W. rewrite length_zip_with. lia.
  - unfold s', FIPS180.compress. apply Forall_lookup_2.
    intros i x (? & ? & -> & _)%lookup_zip_with_Some. apply Z.mod_pos_bound. lia.
Qed.

(** ** The instance *)

Lemma compress_law st n d :
  state_ok ccsha256_ltc_di st -> bytes_ok d -> (64 * n <= length d)%nat ->
  let st' := blocks FIPS180.compress 64 (take (64 * n) d) st in
  ccsha256_ltc_compress st (Z.of_nat n) d = Some st' /\ state_ok ccsha256_ltc_di st'.
Proof.
  intros [Hl Hw] Hd Hn st'. change (Z.to_nat (state_size ccsha256_ltc_di / 4)) with 8%nat in Hl.
  enough (exists t, ccsha256_ltc_compress st (Z.of_nat n) d = Some t /\ t = st' /\ state_ok ccsha256_ltc_di t)
    as (t & -> & -> & ?) by done.
  unfold ccsha256_ltc_compress. rewrite Nat2Z.id.
  apply (for_range_post (fun j t => t = blocks FIPS180.compress 64 (take (64 * j) d) st /\
    length t = 8%nat /\ Forall (in_word 32) t)).
  - rewrite take_0, blocks_nil by lia. done.
  - intros j t Hj (-> & Htl & Htw).
    replace (64 * Z.of_nat j) with (Z.of_nat (64 * j)) by lia.
    destruct (compress_block_standard _ d (64 * j) Htl Htw Hd) as (-> & Hl' & Hw'); [lia|].
    eexists. split; [done|]. split; [|done].
    replace (64 * S j)%nat with (64 * j + 64)%nat by lia. rewrite <-take_take_drop.
    rewrite (blocks_app _ 64 ltac:(lia) j) by (rewrite length_take; lia).
    rewrite (blocks_one _ 64 ltac:(lia) (take 64 (drop (64 * j) d))); [done|].
    rewrite length_take, length_drop. lia.
  - intros t (-> & Ht1 & Ht2). done.
Qed.

Lemma zset_at (P Q : list Z) x y i :
  i = Z.of_nat (length P) -> zset (P ++ x :: Q) i y = Some (P ++ y :: Q).
Proof.
  intros ->. rewrite zset_nat by (rewrite length_app; simpl; lia).
  by rewrite <-(Nat.add_0_r (length P)), insert_app_r.
Qed.

Lemma byte_of_shiftr x k : 0 <= k -> u8 (Z.shiftr x (8 * k)) = (x / 256 ^ k) mod 256.
Proof.
  intros Hk. unfold wrap. rewrite Z.shiftr_div_pow2 by lia. rewrite Z.pow_mul_r by lia. done.
Qed.

(** Storing a word replaces its bytes. *)
Lemma store32_spec x P Q a b c d off :
  off = Z.of_nat (length P) ->
  cc_store32_be x (P ++ a :: b :: c :: d :: Q) off = Some (P ++ FIPS180.bytes_of 4 x ++ Q).
Proof.
  intros ->. unfold cc_store32_be.
  rewrite zset_at, bind_some by done.
  rewrite (cons_middle _ P), app_assoc, zset_at, bind_some by (rewrite length_app; simpl; lia).
  rewrite (cons_middle _ (P ++ _)), app_assoc, zset_at, bind_some by (rewrite !length_app; simpl; lia).
  rewrite (cons_middle _ ((P ++ _) ++ _)), app_assoc, zset_at by (rewrite !length_app; simpl; lia).
  rewrite <-!app_assoc. cbn [app FIPS180.bytes_of].
  rewrite <-!byte_of_shiftr by lia. by rewrite Z.shiftr_0_r.
Qed.

Lemma store64_spec x P a b c d e f g h off :
  off = Z.of_nat (length P) ->
  cc_store64_be x (P ++ [a; b; c; d; e; f; g; h]) off = Some (P ++ FIPS180.bytes_of 8 x).
Proof.
  intros ->. unfold cc_store64_be.
  rewrite zset_at, bind_some by done.
  do 7 (rewrite (cons_middle _ (_ : list Z)), app_assoc, zset_at, ?bind_some by (rewrite !length_app; simpl; lia)).
  rewrite <-!app_assoc. cbn [app FIPS180.bytes_of].
  rewrite <-!byte_of_shiftr by lia. by rewrite Z.shiftr_0_r.
Qed.

Lemma zeros_seq s n : (fun _ : nat => 0) <$> seq s n = replicate n 0.
Proof. revert s. induction n as [|n IH]; intros s; [done|]. simpl. by rewrite IH. Qed.

Lemma pad_zero_spec n nb st P Q k :
  k = Z.of_nat (length P) -> k <= n -> n <= k + Z.of_nat (length Q) ->
  pad_zero n (CcdigestCtx nb st (P ++ Q) k) =
  Some (CcdigestCtx nb st (P ++ replicate (Z.to_nat (n - k)) 0 ++ drop (Z.to_nat (n - k)) Q) n).
Proof.
  intros -> Hn HQ. unfold pad_zero. cbn [num data nbits state].
  rewrite (zset_stretch (fun _ => 0)) by (done || lia). rewrite bind_some, zeros_seq. do 2 f_equal. lia.
Qed.

(** The digest that is written out. *)
Lemma digest_out st :
  length st = 8%nat ->
  for_range (Z.to_nat (CCSHA256_OUTPUT_SIZE / 4)) (fun i digest =>
    w ← st !! i; cc_store32_be w digest (4 * Z.of_nat i)) (replicate (Z.to_nat CCSHA256_OUTPUT_SIZE) 0) =
  Some (mjoin (FIPS180.bytes_of 4 <$> st)).
Proof.
  intros Hl. change (Z.to_nat (CCSHA256_OUTPUT_SIZE / 4)) with 8%nat.
  change (Z.to_nat CCSHA256_OUTPUT_SIZE) with 32%nat.
  edestruct (for_range_inv (fun i d => d = mjoin (FIPS180.bytes_of 4 <$> take i st) ++ replicate (4 * (8 - i)) 0) 8)
    as (d & -> & ->); [done| |].
  - intros j t Hj ->. destruct (lookup_lt_is_Some_2 st j) as [w Hw]; [lia|]. rewrite Hw, bind_some.
    replace (4 * (8 - j))%nat with (4 + 4 * (8 - S j))%nat by lia. rewrite replicate_add. cbn [replicate app].
    rewrite store32_spec by (rewrite length_words, length_take; lia). eexists. split; [done|].
    rewrite (take_S_r _ _ _ Hw), fmap_app, join_app, <-app_assoc. cbn [fmap list_fmap mjoin list_join]. by rewrite app_nil_r.
  - rewrite take_ge by lia. by rewrite app_nil_r.
Qed.

Lemma compress_data_spec nb st B n n' :
  state_ok ccsha256_ltc_di st -> bytes_ok B -> length B = 64%nat ->
  compress_data ccsha256_ltc_compress (CcdigestCtx nb st B n) n' =
  Some (CcdigestCtx nb (blocks FIPS180.compress 64 B st) B n') /\
  state_ok ccsha256_ltc_di (blocks FIPS180.compress 64 B st).
Proof.
  intros Hst HB Hl. unfold compress_data. cbn [state data nbits].
  destruct (compress_law st 1 B Hst HB) as [Hc Hs]; [lia|]. rewrite (take_ge B) in Hc, Hs by lia.
  change (Z.of_nat 1) with 1 in Hc. by rewrite Hc.
Qed.

(** The end that both cases share: padding to the length, the length, the last block. *)
Lemma last_block nb st P Q p ctx :
  state_ok ccsha256_ltc_di st -> bytes_ok P -> p = Z.of_nat (length P) -> (length P <= 56)%nat ->
  (length P + length Q = 64)%nat ->
  (tmp ← pad_zero (64 - 8) (CcdigestCtx nb st (P ++ Q) p);
   d ← cc_store64_be (nbits tmp) (data tmp) (64 - 8);
   tmp ← compress_data ccsha256_ltc_compress (CcdigestCtx (nbits tmp) (state tmp) d (num tmp)) (num tmp);
   digest ← for_range (Z.to_nat (CCSHA256_OUTPUT_SIZE / 4)) (fun i digest =>
              w ← state tmp !! i; cc_store32_be w digest (4 * Z.of_nat i))
              (replicate (Z.to_nat CCSHA256_OUTPUT_SIZE) 0);
   Some (ctx : ccdigest_ctx, digest)) =
  Some (ctx, mjoin (FIPS180.bytes_of 4 <$>
    blocks FIPS180.compress 64 (P ++ replicate (56 - length P) 0 ++ FIPS180.bytes_of 8 nb) st)).
Proof.
  intros Hst HP -> Hp HQ. rewrite pad_zero_spec, bind_some by (done || lia). cbn [data nbits state num].
  replace (Z.to_nat (64 - 8 - Z.of_nat (length P))) with (56 - length P)%nat by lia.
  assert (length (drop (56 - length P) Q) = 8%nat) as H8 by (rewrite length_drop; lia).
  destruct (drop (56 - length P) Q) as [|a [|b [|c [|d [|e [|f [|g [|h [|]]]]]]]]]; try done.
  rewrite app_assoc, store64_spec, bind_some by (rewrite length_app, length_replicate; lia).
  set (B := (P ++ replicate (56 - length P) 0) ++ FIPS180.bytes_of 8 nb).
  assert (length B = 64%nat) as HB.
  { unfold B. rewrite !length_app, length_replicate, length_bytes_of. lia. }
  assert (bytes_ok B) as HBo.
  { unfold B. rewrite !Forall_app. split_and!; [done| |apply bytes_of_ok].
    apply Forall_replicate. unfold in_word. lia. }
  destruct (compress_data_spec nb st B (64 - 8) (64 - 8) Hst HBo HB) as [-> [Hl _]]. rewrite bind_some. cbn [state].
  rewrite digest_out, bind_some by exact Hl. unfold B. by rewrite <-app_assoc.
Qed.

Lemma sha256_blocks m :
  FIPS180.sha256 m = mjoin (FIPS180.bytes_of 4 <$> blocks FIPS180.compress 64 (FIPS180.pad m) FIPS180.H0).
Proof. reflexivity. Qed.

Section Final.
Context (full rest : list Z) (k : nat).
Context (Hfull : length full = (64 * k)%nat) (Hrest : (length rest < 64)%nat).
Context (Hok : bytes_ok (full ++ rest)) (Hbits : 8 * Z.of_nat (length (full ++ rest)) < 2 ^ 64).

Local Abbreviation bits := (8 * Z.of_nat (length (full ++ rest))).

(** The last block or the last two. *)
Lemma pad_tail :
  FIPS180.pad (full ++ rest) = full ++ rest ++ [128] ++
    (if decide (length rest < 56)%nat then replicate (55 - length rest) 0
     else replicate (63 - length rest) 0 ++ replicate 56 0) ++ FIPS180.bytes_of 8 bits.
Proof.
  unfold FIPS180.pad. rewrite <-!app_assoc. do 4 f_equal. rewrite length_app, Hfull.
  replace (55 - Z.of_nat (64 * k + length rest)) with (55 - Z.of_nat (length rest) + (- Z.of_nat k) * 64) by lia.
  rewrite Z.mod_add by lia. case_decide.
  - rewrite Z.mod_small by lia. f_equal. lia.
  - rewrite <-replicate_add. rewrite <-(Z.mod_add _ 1) by lia. rewrite Z.mod_small by lia. f_equal. lia.
Qed.

Lemma final_spec st junk :
  st = blocks FIPS180.compress 64 full ccsha256_initial_state -> state_ok ccsha256_ltc_di st ->
  (length rest + length junk = 64)%nat ->
  let ctx := CcdigestCtx (u64 (8 * Z.of_nat (length full))) st (rest ++ junk) (Z.of_nat (length rest)) in
  ccdigest_final_64be ccsha256_ltc_compress CCSHA256_BLOCK_SIZE CCSHA256_OUTPUT_SIZE ctx =
  Some (ctx, FIPS180.sha256 (full ++ rest)).
Proof.
  intros Hst Hsok Hjunk ctx. unfold ccdigest_final_64be.
  assert (recover_num CCSHA256_BLOCK_SIZE ctx = ctx) as -> by
    (unfold recover_num; cbn [num ctx]; by rewrite decide_False by lia).
  cbn [data num nbits state ctx]. destruct junk as [|x junk]; [simpl in Hjunk; lia|]. simpl length in Hjunk.
  rewrite zset_at, bind_some by done. cbv zeta.
  rewrite (wrap_small 32), (wrap_small 32) by (unfold in_word; lia). rewrite wrap_add_l.
  replace (u64 _) with bits by (rewrite wrap_small, length_app; unfold in_word; rewrite ?length_app in *; lia).
  rewrite (cons_middle 128 rest), app_assoc. cbn [num].
  assert (bytes_ok (rest ++ [128])) as Hro.
  { apply Forall_app in Hok as [_ Hr]. apply Forall_app. split; [done|]. apply Forall_singleton. unfold in_word. lia. }
  assert (length (rest ++ [128]) = S (length rest)) as Hrl by (rewrite length_app; simpl; lia).
  rewrite sha256_blocks, <-initial_standard, pad_tail, (blocks_app _ 64 ltac:(lia) k), <-Hst by done.
  destruct (decide (64 - 8 < Z.of_nat (length rest) + 1)) as [Hlong|Hshort].
  - rewrite pad_zero_spec, bind_some by lia.
    replace (Z.to_nat (64 - (Z.of_nat (length rest) + 1))) with (63 - length rest)%nat by lia.
    rewrite (drop_ge junk), app_nil_r by lia. set (B := (rest ++ [128]) ++ replicate (63 - length rest) 0).
    assert (length B = 64%nat) as HB by (unfold B; rewrite length_app, Hrl, length_replicate; lia).
    assert (bytes_ok B) as HBo.
    { apply Forall_app. split; [done|]. apply Forall_replicate. unfold in_word. lia. }
    destruct (compress_data_spec bits st B 64 0 Hsok HBo HB) as [-> Hs1]. rewrite bind_some.
    rewrite (last_block bits _ [] B) by (try done; simpl; lia). do 3 f_equal.
    rewrite decide_False by lia. rewrite <-(blocks_app _ 64 ltac:(lia) 1) by (rewrite HB; lia).
    f_equal. unfold B. rewrite <-!app_assoc. done.
  - rewrite bind_some. rewrite last_block by (try done; lia). do 3 f_equal.
    rewrite decide_True by lia. rewrite Hrl, <-!app_assoc. do 4 f_equal.
Qed.
End Final.

#[export] Instance ccsha256_laws : DigestLaws ccsha256_ltc_di FIPS180.compress FIPS180.sha256.
Proof.
  split.
  - done.
  - done.
  - split; [done|]. by apply (bool_decide_unpack _).
  - intros m. split; [|by rewrite sha256_length]. apply Forall_join, Forall_fmap, Forall_true. intros x. apply bytes_of_ok.
  - intros st n d. apply compress_law.
  - intros ctx m (full & rest & k & -> & Hm & Hf & Hr & Hst & Hsok & Hnb & Hnum & Ht & Hd) Hbits.
    change (block_size ccsha256_ltc_di) with 64 in *. change (Z.to_nat 64) with 64%nat in *.
    destruct ctx as [nb st d n]. cbn [state nbits data num] in *. subst nb n.
    rewrite <-(take_drop (length rest) d), Ht. apply (final_spec full rest k); try done; [lia|].
    rewrite length_drop. lia.
Qed.

(** ** The theorem *)

(** C15. SHA-256 in pieces: a context of any previous content, initialised, updated
    with the pieces of a message one after the other and finalised, gives the digest
    of FIPS 180-4 of the message, however it was cut (messages below 2^61 bytes). *)
Theorem ccsha256_pieces (ctx : ccdigest_ctx) (pieces : list (list Z)) :
  length (data ctx) = 64%nat -> Forall bytes_ok pieces -> Z.of_nat (length (mjoin pieces)) < 2 ^ 61 ->
  exists ctx', ccdigest_updates ccsha256_ltc_di (ccdigest_init ccsha256_ltc_di ctx) pieces = Some ctx' /\
    ccdigest_final ccsha256_ltc_di ctx' = Some (ctx', FIPS180.sha256 (mjoin pieces)).
Proof.
  intros Hd Hp Hl.
  destruct (updates_absorb ccsha256_ltc_di FIPS180.compress FIPS180.sha256 (ccdigest_init ccsha256_ltc_di ctx) [] pieces)
    as (ctx' & Hu & Ha); [|done|].
  - apply (init_absorbed _ _ FIPS180.sha256). by rewrite Hd.
  - exists ctx'. split; [done|]. apply (final_hash _ _ _ _ _ Ha). simpl. lia.
Qed.

Lemma ccsha256_pieces_witness :
  exists ctx', ccdigest_updates ccsha256_ltc_di
      (ccdigest_init ccsha256_ltc_di (CcdigestCtx 7 [] (replicate 64 255) 99)) [[97]; []; [98; 99]] = Some ctx' /\
    ccdigest_final ccsha256_ltc_di ctx' = Some (ctx', FIPS180.sha256 [97; 98; 99]).
Proof.
  apply (ccsha256_pieces (CcdigestCtx 7 [] (replicate 64 255) 99) [[97]; []; [98; 99]]).
  - reflexivity.
  - apply (bool_decide_unpack _). vm_compute. exact I.
  - reflexivity.
Defined.
