(* ===== verification/CcHmac.v ===== *)
(** * HMAC and HKDF of corecrypto

    [cchmac_init], [cchmac_update], [cchmac_final], [cchmac] and the functions of
    [osfmk/corecrypto/cchkdf.c].  A context is that of the inner digest and the
    chaining value of the outer one; the buffer of the inner digest serves for the
    padded key and for the inner digest too, and the contexts on the stack start with
    arbitrary content.  For every descriptor that satisfies [DigestLaws] the
    functions are HMAC as RFC 2104 defines it and HKDF as RFC 5869 does; the
    theorems are stated for SHA-256. *)
From S2P Require Import Prelude Sha256 CcDigest CcSha256.

Local Open Scope Z_scope.

(** ** cchmac *)

Record cchmac_ctx := CchmacCtx { digest_ctx : ccdigest_ctx; ostate : list Z }.

Definition set_data (ctx : ccdigest_ctx) (d : list Z) : ccdigest_ctx :=
  CcdigestCtx (nbits ctx) (state ctx) d (num ctx).

(** [for (byte = 0; byte < n; ++byte) d[byte] ^= c]. *)
Definition xor_loop (n c : Z) (d : list Z) : option (list Z) :=
  for_range (Z.to_nat n) (fun byte d => b ← zget d (Z.of_nat byte); zset d (Z.of_nat byte) (Z.lxor b c)) d.

(** The key, or its digest if it is longer than a block, xor the outer pad. *)
Definition key_block (di : ccdigest_info) (ctx : ccdigest_ctx) (key_len : Z) (key : list Z)
    : option (ccdigest_ctx * Z) :=
  if decide (key_len <= block_size di) then
    d ← for_range (Z.to_nat key_len) (fun byte d =>
          k ← zget key (Z.of_nat byte); zset d (Z.of_nat byte) (Z.lxor k 92)) (data ctx);
    Some (set_data ctx d, key_len)
  else
    ctx ← ccdigest_update di (ccdigest_init di ctx) key_len key;
    '(ctx, digest) ← ccdigest_final di ctx;
    d ← cc_memcpy (data ctx) 0 digest (output_size di);
    d ← xor_loop (output_size di) 92 d;
    Some (set_data ctx d, output_size di).

Definition cchmac_init (di : ccdigest_info) (hc : cchmac_ctx) (key_len : Z) (key : list Z) : option cchmac_ctx :=
  '(ctx, key_len) ← key_block di (digest_ctx hc) key_len key;
  d ← (if decide (key_len < block_size di)
       then cc_memset (data ctx) key_len 92 (block_size di - key_len) else Some (data ctx));
  ost ← compress di (ccdigest_copy_state di (initial_state di)) 1 d;
  d ← xor_loop (block_size di) (Z.lxor 92 54) d;
  ist ← compress di (ccdigest_copy_state di (initial_state di)) 1 d;
  Some (CchmacCtx (CcdigestCtx (u64 (block_size di * 8)) ist d 0) ost).

Definition cchmac_update (di : ccdigest_info) (hc : cchmac_ctx) (data_len : Z) (data : list Z) : option cchmac_ctx :=
  ctx ← ccdigest_update di (digest_ctx hc) data_len data;
  Some (CchmacCtx ctx (ostate hc)).

(** The context afterwards and the bytes written to [mac]. *)
Definition cchmac_final (di : ccdigest_info) (hc : cchmac_ctx) : option (cchmac_ctx * list Z) :=
  '(ctx, digest) ← ccdigest_final di (digest_ctx hc);
  d ← cc_memcpy (data ctx) 0 digest (output_size di);
  let ctx := CcdigestCtx (u64 (block_size di * 8)) (ccdigest_copy_state di (ostate hc)) d (u32 (output_size di)) in
  '(ctx, mac) ← ccdigest_final di ctx;
  Some (CchmacCtx ctx (ostate hc), mac).

(** [hc] is the context on the stack. *)
Definition cchmac (di : ccdigest_info) (hc : cchmac_ctx) (key_len : Z) (key : list Z) (data_len : Z) (data : list Z)
    : option (list Z) :=
  hc ← cchmac_init di hc key_len key;
  hc ← cchmac_update di hc data_len data;
  '(_, mac) ← cchmac_final di hc;
  Some mac.

(** The pieces of a message, one call after the other. *)
Fixpoint cchmac_updates (di : ccdigest_info) (hc : cchmac_ctx) (pieces : list (list Z)) : option cchmac_ctx :=
  match pieces with
  | [] => Some hc
  | d :: pieces => hc ← cchmac_update di hc (Z.of_nat (length d)) d; cchmac_updates di hc pieces
  end.

(** ** cchkdf *)

Abbreviation CCERR_OK := (0)%Z.
Abbreviation CCERR_PARAMETER := (-7)%Z.
Abbreviation MAX_DIGEST_OUTPUT_SIZE := (64)%Z.

Definition cc_ceiling (a b : Z) : Z := u64 (a + (b - 1)) / b.

Definition cchkdf_extract (di : ccdigest_info) (hc : cchmac_ctx) (salt_nbytes : Z) (salt : list Z)
    (ikm_nbytes : Z) (ikm : list Z) : option (Z * list Z) :=
  let '(salt, salt_nbytes) :=
    if decide (salt_nbytes = 0) then (replicate (Z.to_nat MAX_DIGEST_OUTPUT_SIZE) 0, output_size di)
    else (salt, salt_nbytes) in
  prk ← cchmac di hc salt_nbytes salt ikm_nbytes ikm;
  Some (CCERR_OK, prk).

(** The locals of the loop of [cchkdf_expand]. *)
Record expansion := Expansion { T : list Z; Tlen : Z; offset : Z; dk : list Z }.

Definition expand_turn (di : ccdigest_info) (hci : cchmac_ctx) (info_nbytes : Z) (info : list Z)
    (dk_nbytes n i : Z) (s : expansion) : option expansion :=
  hc ← cchmac_update di hci (Tlen s) (T s);
  hc ← cchmac_update di hc info_nbytes info;
  hc ← cchmac_update di hc 1 [u8 i];
  '(_, mac) ← cchmac_final di hc;
  t ← cc_memcpy (T s) 0 mac (output_size di);
  dk ← (if decide (i = n) then cc_memcpy (dk s) (offset s) t (u64 (dk_nbytes - offset s))
        else cc_memcpy (dk s) (offset s) t (output_size di));
  Some (Expansion t (output_size di) (u64 (offset s + output_size di)) dk).

(** [hc] is the context and [t] the array on the stack. *)
Definition cchkdf_expand (di : ccdigest_info) (hc : cchmac_ctx) (t : list Z) (prk_nbytes : Z) (prk : list Z)
    (info_nbytes : Z) (info : list Z) (dk_nbytes : Z) (out : list Z) : option (Z * list Z) :=
  let n := cc_ceiling dk_nbytes (output_size di) in
  if decide (255 < n) then Some (CCERR_PARAMETER, out) else
  if decide (prk_nbytes < output_size di) then Some (CCERR_PARAMETER, out) else
  hci ← cchmac_init di hc prk_nbytes prk;
  s ← for_range (Z.to_nat n) (fun j s =>
        expand_turn di hci info_nbytes info dk_nbytes n (Z.of_nat j + 1) s) (Expansion t 0 0 out);
  Some (CCERR_OK, dk s).

Definition cchkdf (di : ccdigest_info) (hc : cchmac_ctx) (t : list Z) (ikm_nbytes : Z) (ikm : list Z)
    (salt_nbytes : Z) (salt : list Z) (info_nbytes : Z) (info : list Z) (dk_nbytes : Z) (out : list Z)
    : option (Z * list Z) :=
  '(result, prk) ← cchkdf_extract di hc salt_nbytes salt ikm_nbytes ikm;
  if decide (result = CCERR_OK)
  then cchkdf_expand di hc t (output_size di) prk info_nbytes info dk_nbytes out
  else Some (result, out).

(** ** RFC 2104 and RFC 5869 *)

Section Standards.
Context (H : list Z -> list Z) (bs : nat).

Definition rfc2104_key (K : list Z) : list Z :=
  let K := if decide (bs < length K)%nat then H K else K in K ++ replicate (bs - length K) 0.

Definition pad_with (c : Z) (K : list Z) : list Z := (fun b => Z.lxor b c) <$> rfc2104_key K.

Definition rfc2104 (K text : list Z) : list Z := H (pad_with 92 K ++ H (pad_with 54 K ++ text)).

(** [T(1)], ..., [T(n)], the last one first, and their concatenation. *)
Fixpoint rfc5869_T (PRK info : list Z) (n : nat) : list (list Z) :=
  match n with
  | O => []
  | S n =>
      let Ts := rfc5869_T PRK info n in
      rfc2104 PRK (default [] (head Ts) ++ info ++ [Z.of_nat (S n)]) :: Ts
  end.

Definition rfc5869_expand (hash_len : nat) (PRK info : list Z) (L : nat) : list Z :=
  take L (mjoin (reverse (rfc5869_T PRK info ((L + (hash_len - 1)) / hash_len)))).

(** Without a salt, [hash_len] zero bytes. *)
Definition rfc5869 (hash_len : nat) (IKM salt info : list Z) (L : nat) : list Z :=
  let salt := if decide (salt = []) then replicate hash_len 0 else salt in
  rfc5869_expand hash_len (rfc2104 salt IKM) info L.
End Standards.

(** ** HMAC is RFC 2104 *)

Lemma key_loop_spec (f : Z -> Z) n (key d : list Z) :
  (n <= length key)%nat -> (n <= length d)%nat ->
  for_range n (fun byte d => k ← zget key (Z.of_nat byte); zset d (Z.of_nat byte) (f k)) d =
  Some ((f <$> take n key) ++ drop n d).
Proof.
  intros Hk Hd.
  edestruct (for_range_inv (fun i t => t = (f <$> take i key) ++ drop i d) n) as (t & -> & ->); [done| |done].
  intros j t Hj ->. destruct (lookup_lt_is_Some_2 key j) as [k Hkj]; [lia|].
  destruct (lookup_lt_is_Some_2 d j) as [x Hx]; [lia|]. rewrite zget_nat, Hkj, bind_some, (drop_S _ _ _ Hx).
  rewrite zset_at by (rewrite length_fmap, length_take; lia). eexists. split; [done|].
  by rewrite (take_S_r _ _ _ Hkj), fmap_app, <-app_assoc.
Qed.

Lemma xor_loop_spec n c d :
  0 <= n <= Z.of_nat (length d) ->
  xor_loop n c d = Some (((fun b => Z.lxor b c) <$> take (Z.to_nat n) d) ++ drop (Z.to_nat n) d).
Proof.
  intros Hn. unfold xor_loop.
  edestruct (for_range_inv (fun i t => t = ((fun b => Z.lxor b c) <$> take i d) ++ drop i d) (Z.to_nat n))
    as (t & -> & ->); [done| |done].
  intros j t Hj ->. destruct (lookup_lt_is_Some_2 d j) as [x Hx]; [lia|]. rewrite zget_nat, (drop_S _ _ _ Hx).
  rewrite lookup_app_r by (rewrite length_fmap, length_take; lia).
  replace (j - length _)%nat with 0%nat by (rewrite length_fmap, length_take; lia).
  cbn [lookup list_lookup]. rewrite bind_some.
  rewrite zset_at by (rewrite length_fmap, length_take; lia). eexists. split; [done|].
  by rewrite (take_S_r _ _ _ Hx), fmap_app, <-app_assoc.
Qed.

Lemma xor_bytes_ok c l : in_word 8 c -> bytes_ok l -> bytes_ok ((fun b => Z.lxor b c) <$> l).
Proof.
  intros Hc Hl. apply Forall_fmap. eapply Forall_impl; [exact Hl|]. intros x Hx. cbn. auto with cword.
Qed.

Section Hmac.
Context (di : ccdigest_info) (C : list Z -> list Z -> list Z) (H : list Z -> list Z) {L : DigestLaws di C H}.

Local Abbreviation bs := (Z.to_nat (block_size di)).
Local Abbreviation hmac := (rfc2104 H bs).

(** The context has the padded key and the message [m] in its inner digest, and the
    other padded key in the outer one. *)
Definition hmac_absorbed (hc : cchmac_ctx) (K m : list Z) : Prop :=
  absorbed di C (digest_ctx hc) (pad_with H bs 54 K ++ m) /\
  ostate hc = blocks C bs (pad_with H bs 92 K) (initial_state di) /\ state_ok di (ostate hc).

Lemma rfc2104_key_ok K : bytes_ok K -> bytes_ok (rfc2104_key H bs K) /\ length (rfc2104_key H bs K) = bs.
Proof.
  intros HK. pose proof law_block as Hb. pose proof law_output as Ho. pose proof (law_hash K) as [Hh1 Hh2].
  unfold rfc2104_key. rewrite Forall_app, length_app, length_replicate. split_and!.
  - case_decide; done.
  - apply Forall_replicate. unfold in_word. lia.
  - case_decide; lia.
Qed.

Lemma pad_with_ok c K :
  in_word 8 c -> bytes_ok K -> bytes_ok (pad_with H bs c K) /\ length (pad_with H bs c K) = bs.
Proof.
  intros Hc HK. destruct (rfc2104_key_ok K HK). unfold pad_with. rewrite length_fmap.
  split; [by apply xor_bytes_ok|done].
Qed.

(** One block, from the initial value. *)
Lemma compress_initial d :
  bytes_ok d -> length d = bs ->
  compress di (ccdigest_copy_state di (initial_state di)) 1 d = Some (blocks C bs d (initial_state di)) /\
  state_ok di (blocks C bs d (initial_state di)).
Proof.
  intros Hd Hl. rewrite (copy_initial di C H). destruct (law_compress (initial_state di) 1 d) as [Hc Hs];
    [apply law_initial|done|lia|]. rewrite (take_ge d) in Hc, Hs by lia. done.
Qed.

Lemma key_block_spec ctx key n K :
  Z.of_nat (length (data ctx)) = block_size di -> bytes_ok key -> 0 <= n <= Z.of_nat (length key) ->
  K = take (Z.to_nat n) key -> 8 * n < 2 ^ 64 ->
  exists ctx' K0 junk, key_block di ctx n key = Some (ctx', Z.of_nat (length K0)) /\
    K0 = (if decide (bs < length K)%nat then H K else K) /\
    data ctx' = ((fun b => Z.lxor b 92) <$> K0) ++ junk /\ (length K0 + length junk = bs)%nat.
Proof.
  intros Hd Hkey Hn HK Hbits. pose proof law_block as Hb. pose proof law_output as Ho.
  pose proof (law_hash K) as [Hh1 Hh2]. assert (Z.of_nat (length K) = n) as Hl by (subst K; rewrite length_take; lia).
  unfold key_block. destruct (decide (n <= block_size di)) as [Hle|Hgt].
  - rewrite (key_loop_spec (fun b => Z.lxor b 92)) by lia. rewrite bind_some, <-HK.
    eexists _, K, _. rewrite decide_False, Hl by lia. split_and!; [done|done|done|].
    rewrite length_drop. lia.
  - destruct (update_absorbs_take di C H (ccdigest_init di ctx) [] key n) as (ctx1 & -> & Ha);
      [by apply (init_absorbed di C H)|done|lia|]. rewrite bind_some. rewrite <-HK in Ha.
    rewrite (final_hash di C H _ _ Ha) by (simpl; lia). rewrite bind_some. cbv beta iota.
    assert (Z.of_nat (length (data ctx1)) = block_size di) as Hd1 by (destruct Ha as (? & ? & ? & ?); naive_solver).
    rewrite cc_memcpy_start by (simpl; lia). rewrite bind_some.
    rewrite xor_loop_spec by (rewrite length_app; simpl; lia). rewrite bind_some, <-Hh2, Nat2Z.id.
    cbn [app]. rewrite take_app_length, drop_app_length.
    eexists _, (H K), _. rewrite decide_True by lia. split_and!; [done|done|done|]. rewrite length_drop. lia.
Qed.

Lemma cchmac_init_take hc key n K :
  Z.of_nat (length (data (digest_ctx hc))) = block_size di -> bytes_ok key -> 0 <= n <= Z.of_nat (length key) ->
  K = take (Z.to_nat n) key -> 8 * n < 2 ^ 64 ->
  exists hc', cchmac_init di hc n key = Some hc' /\ hmac_absorbed hc' K [].
Proof.
  intros Hd Hkey Hn HKn Hbits. pose proof law_block as Hb. unfold cchmac_init.
  assert (bytes_ok K) as HK by (subst K; by apply Forall_take).
  destruct (key_block_spec (digest_ctx hc) key n K Hd Hkey Hn HKn Hbits) as (ctx & K0 & junk & -> & HK0 & Hdata & Hjunk).
  rewrite bind_some. cbv beta iota.
  assert ((if decide (Z.of_nat (length K0) < block_size di)
     then cc_memset (data ctx) (Z.of_nat (length K0)) 92 (block_size di - Z.of_nat (length K0))
     else Some (data ctx)) = Some (pad_with H bs 92 K)) as ->.
  { unfold pad_with, rfc2104_key. rewrite <-HK0, fmap_app, fmap_replicate, Hdata. change (Z.lxor 0 92) with 92. clear HK0.
    case_decide.
    - unfold cc_memset. rewrite cc_memcpy_spec by (rewrite ?length_app, ?length_fmap, ?length_replicate; lia).
      rewrite Nat2Z.id, take_app_length' by (by rewrite length_fmap).
      rewrite (take_ge (replicate _ _)) by (rewrite length_replicate; lia).
      rewrite drop_ge by (rewrite length_app, length_fmap; lia). rewrite app_nil_r. do 3 f_equal. lia.
    - destruct junk; [|simpl in Hjunk; lia]. do 2 f_equal.
      replace (bs - length K0)%nat with 0%nat by lia. done. }
  rewrite bind_some. destruct (pad_with_ok 92 K) as [Hok Hol]; [unfold in_word; lia|done|].
  destruct (pad_with_ok 54 K) as [Hik Hil]; [unfold in_word; lia|done|].
  destruct (compress_initial _ Hok Hol) as [-> Hos]. rewrite bind_some.
  rewrite xor_loop_spec by lia. rewrite bind_some, (take_ge (pad_with H bs 92 K)), (drop_ge (pad_with H bs 92 K)), app_nil_r by lia.
  assert ((fun b => Z.lxor b (Z.lxor 92 54)) <$> pad_with H bs 92 K = pad_with H bs 54 K) as ->.
  { unfold pad_with. rewrite <-list_fmap_compose. apply list_fmap_ext. intros i x _. cbn.
    by rewrite <-(Z.lxor_assoc (Z.lxor x 92)), (Z.lxor_assoc x 92 92), Z.lxor_nilpotent, Z.lxor_0_r. }
  destruct (compress_initial _ Hik Hil) as [-> His]. rewrite bind_some.
  eexists. split; [done|]. split; [|done]. cbn [digest_ctx]. rewrite app_nil_r.
  exists (pad_with H bs 54 K), [], 1%nat. cbn [state nbits num data]. rewrite app_nil_r, Nat.mul_1_r.
  split_and!; try done; [simpl; lia| |lia]. rewrite Hil. f_equal. lia.
Qed.

Lemma cchmac_update_take hc K m d n :
  hmac_absorbed hc K m -> bytes_ok d -> 0 <= n <= Z.of_nat (length d) ->
  exists hc', cchmac_update di hc n d = Some hc' /\ hmac_absorbed hc' K (m ++ take (Z.to_nat n) d).
Proof.
  intros (Ha & Ho) Hd Hn. unfold cchmac_update.
  destruct (update_absorbs_take di C H _ _ d n Ha Hd Hn) as (ctx & -> & Ha'). rewrite bind_some.
  eexists. split; [done|]. split; [|done]. cbn. by rewrite app_assoc.
Qed.

Lemma cchmac_update_spec hc K m d :
  hmac_absorbed hc K m -> bytes_ok d ->
  exists hc', cchmac_update di hc (Z.of_nat (length d)) d = Some hc' /\ hmac_absorbed hc' K (m ++ d).
Proof.
  intros Ha Hd. destruct (cchmac_update_take hc K m d (Z.of_nat (length d)) Ha Hd) as (hc' & Hu & Ha'); [lia|].
  exists hc'. by rewrite Nat2Z.id, firstn_all in Ha'.
Qed.

Lemma cchmac_updates_spec hc K m pieces :
  hmac_absorbed hc K m -> Forall bytes_ok pieces ->
  exists hc', cchmac_updates di hc pieces = Some hc' /\ hmac_absorbed hc' K (m ++ mjoin pieces).
Proof.
  intros Ha Hp. revert hc m Ha. induction Hp as [|d pieces Hd Hp IH]; intros hc m Ha; cbn [cchmac_updates].
  - exists hc. cbn. by rewrite app_nil_r.
  - destruct (cchmac_update_spec hc K m d Ha Hd) as (hc1 & -> & Ha1). rewrite bind_some.
    destruct (IH hc1 _ Ha1) as (hc2 & -> & Ha2). exists hc2. cbn. by rewrite app_assoc.
Qed.

Lemma cchmac_final_spec hc K m :
  hmac_absorbed hc K m -> bytes_ok K -> 8 * (block_size di + Z.of_nat (length m)) < 2 ^ 64 ->
  exists hc', cchmac_final di hc = Some (hc', hmac K m) /\ Z.of_nat (length (data (digest_ctx hc'))) = block_size di.
Proof.
  intros (Ha & Ho & Hos) HK Hbits. pose proof law_block as Hb. pose proof law_output as Hout.
  destruct (pad_with_ok 92 K) as [Hok Hol]; [unfold in_word; lia|done|].
  destruct (pad_with_ok 54 K) as [Hik Hil]; [unfold in_word; lia|done|].
  unfold cchmac_final. rewrite (final_hash di C H _ _ Ha) by (rewrite length_app; lia). rewrite bind_some. cbv beta iota.
  set (inner := H (pad_with H bs 54 K ++ m)). destruct (law_hash (pad_with H bs 54 K ++ m)) as [Hh1 Hh2]. fold inner in Hh1, Hh2.
  assert (Z.of_nat (length (data (digest_ctx hc))) = block_size di) as Hd1 by (destruct Ha as (? & ? & ? & ?); naive_solver).
  rewrite cc_memcpy_start by lia. rewrite bind_some. cbv zeta.
  rewrite (final_hash di C H _ (pad_with H bs 92 K ++ inner)).
  - rewrite bind_some. cbv beta iota. eexists. split; [done|]. cbn. rewrite length_app, length_drop. lia.
  - exists (pad_with H bs 92 K), inner, 1%nat. cbn [state nbits num data].
    assert (ccdigest_copy_state di (ostate hc) = ostate hc) as ->.
    { unfold ccdigest_copy_state. by rewrite take_ge by (destruct Hos; lia). }
    rewrite Nat.mul_1_r. split_and!; try done.
    + by apply Forall_app.
    + lia.
    + rewrite Hol. f_equal. lia.
    + rewrite wrap_small by (unfold in_word; lia). lia.
    + by rewrite take_app_length.
    + rewrite length_app, length_drop. lia.
  - rewrite length_app. lia.
Qed.

Lemma cchmac_take hc key kn d n K m :
  Z.of_nat (length (data (digest_ctx hc))) = block_size di -> bytes_ok key -> bytes_ok d ->
  0 <= kn <= Z.of_nat (length key) -> 0 <= n <= Z.of_nat (length d) ->
  K = take (Z.to_nat kn) key -> m = take (Z.to_nat n) d ->
  8 * kn < 2 ^ 64 -> 8 * (block_size di + n) < 2 ^ 64 ->
  cchmac di hc kn key n d = Some (hmac K m).
Proof.
  intros Hd Hkey Hm Hkn Hn HK Hmd HKb Hmb. unfold cchmac.
  destruct (cchmac_init_take hc key kn K) as (hc1 & -> & Ha); [done..|]. rewrite bind_some.
  destruct (cchmac_update_take hc1 K [] d n Ha Hm Hn) as (hc2 & -> & Ha2). rewrite bind_some, <-Hmd in *.
  destruct (cchmac_final_spec hc2 K m Ha2) as (hc3 & -> & _); [subst K; by apply Forall_take| |done].
  subst m. rewrite length_take. lia.
Qed.

Lemma cchmac_spec hc K m :
  Z.of_nat (length (data (digest_ctx hc))) = block_size di -> bytes_ok K -> bytes_ok m ->
  8 * Z.of_nat (length K) < 2 ^ 64 -> 8 * (block_size di + Z.of_nat (length m)) < 2 ^ 64 ->
  cchmac di hc (Z.of_nat (length K)) K (Z.of_nat (length m)) m = Some (hmac K m).
Proof. intros. apply cchmac_take; try done; try lia; by rewrite Nat2Z.id, firstn_all. Qed.

Lemma hmac_ok K m : bytes_ok (hmac K m) /\ Z.of_nat (length (hmac K m)) = output_size di.
Proof. unfold rfc2104. apply law_hash. Qed.

(** ** HKDF is RFC 5869 *)

Local Abbreviation out := (Z.to_nat (output_size di)).
Local Abbreviation Ts := (rfc5869_T H bs).

Lemma length_Ts PRK info n : length (Ts PRK info n) = n.
Proof. induction n as [|n IH]; [done|]. simpl. by rewrite IH. Qed.

Lemma Ts_ok PRK info n : Forall (fun t => bytes_ok t /\ length t = out) (Ts PRK info n).
Proof.
  induction n as [|n IH]; cbn [rfc5869_T]; [done|]. apply Forall_cons. split; [|done].
  destruct (hmac_ok PRK (default [] (head (Ts PRK info n)) ++ info ++ [Z.of_nat (S n)])) as [? Hl].
  split; [done|]. lia.
Qed.

Lemma length_join_Ts PRK info n : length (mjoin (reverse (Ts PRK info n))) = (out * n)%nat.
Proof.
  pose proof law_output as Ho. induction n as [|n IH]; [cbn; lia|]. cbn [rfc5869_T].
  rewrite reverse_cons, join_app, length_app, IH. cbn. rewrite app_nil_r.
  destruct (hmac_ok PRK (default [] (head (Ts PRK info n)) ++ info ++ [Z.of_nat (S n)])) as [_ Hl]. lia.
Qed.

Lemma join_Ts_S PRK info n :
  mjoin (reverse (Ts PRK info (S n))) =
  mjoin (reverse (Ts PRK info n)) ++ hmac PRK (default [] (head (Ts PRK info n)) ++ info ++ [Z.of_nat (S n)]).
Proof. cbn [rfc5869_T]. rewrite reverse_cons, join_app. cbn. by rewrite app_nil_r. Qed.

Section Expand.
Context (PRK info dk0 : list Z) (hci : cchmac_ctx) (len : nat).
Context (HPRK : bytes_ok PRK) (Hinfo : bytes_ok info) (Hhci : hmac_absorbed hci PRK []).
Context (Hdk : (len <= length dk0)%nat).
Context (Hbits : 8 * (block_size di + output_size di + Z.of_nat (length info) + 1) < 2 ^ 64).

Local Abbreviation n := ((len + (out - 1)) / out)%nat.

(** Before turn [j]: [T(j)] is in the array and the output has the first [j] blocks. *)
Definition expanded (j : nat) (s : expansion) : Prop :=
  MAX_DIGEST_OUTPUT_SIZE <= Z.of_nat (length (T s)) /\ bytes_ok (T s) /\
  0 <= Tlen s <= output_size di /\ take (Z.to_nat (Tlen s)) (T s) = default [] (head (Ts PRK info j)) /\
  offset s = Z.of_nat (out * j) /\
  dk s = take len (mjoin (reverse (Ts PRK info j))) ++ drop (out * j) (take len dk0) ++ drop len dk0.

(** The next block, or what there is room for, goes to the end of the output. *)
Lemma expand_copy j mac (c : nat) t :
  (out * j <= len)%nat -> length mac = out -> (c = Nat.min out (len - out * j))%nat ->
  cc_memcpy (take len (mjoin (reverse (Ts PRK info j))) ++ drop (out * j) (take len dk0) ++ drop len dk0)
    (Z.of_nat (out * j)) (mac ++ t) (Z.of_nat c) =
  Some (take len (mjoin (reverse (Ts PRK info j)) ++ mac) ++ drop (out * S j) (take len dk0) ++ drop len dk0).
Proof.
  intros Hj Hm Hc. set (J := mjoin (reverse (Ts PRK info j))).
  assert (length J = (out * j)%nat) as HJ by apply length_join_Ts.
  rewrite (take_ge J), (take_app J), HJ by lia.
  rewrite cc_memcpy_spec by (rewrite ?length_app, ?length_drop, ?length_take; lia).
  rewrite !Nat2Z.id, take_app_length' by done. rewrite (take_ge J) by lia. rewrite <-app_assoc. do 2 f_equal.
  rewrite take_app_le by lia. f_equal; [rewrite Hc; destruct (decide (out <= len - out * j)%nat);
    [rewrite !take_ge by lia; done|f_equal; lia]|].
  replace (Z.to_nat (Z.of_nat (out * j) + Z.of_nat c)) with (length J + c)%nat by lia.
  rewrite <-drop_drop, drop_app_length. rewrite drop_app, drop_drop, length_drop, length_take.
  replace (c - (len `min` length dk0 - out * j))%nat with 0%nat by lia. rewrite drop_0. f_equal.
  destruct (decide (out <= len - out * j)%nat); [f_equal; lia|].
  by rewrite !drop_ge by (rewrite length_take; lia).
Qed.

Lemma expand_turn_spec j s :
  output_size di <= MAX_DIGEST_OUTPUT_SIZE -> (j < n)%nat -> (n <= 255)%nat -> expanded j s ->
  exists s', expand_turn di hci (Z.of_nat (length info)) info (Z.of_nat len) (Z.of_nat n) (Z.of_nat j + 1) s = Some s' /\
    expanded (S j) s'.
Proof.
  intros Hmax Hj Hn (Ht & Hto & Htl & Htake & Hoff & Hdks). pose proof law_block as Hb. pose proof law_output as Ho.
  assert (out * j < len)%nat as Hjl.
  { assert (out * S j <= len + (out - 1))%nat; [|lia].
    etrans; [apply Nat.mul_le_mono_l, Hj|]. apply Nat.Div0.mul_div_le. }
  assert (len <= out * n)%nat as Hln.
  { pose proof (Nat.div_mod_eq (len + (out - 1)) out). pose proof (Nat.mod_upper_bound (len + (out - 1)) out). lia. }
  assert (len <= out * 255)%nat as Hl255 by (etrans; [exact Hln|]; by apply Nat.mul_le_mono_l).
  unfold expand_turn.
  destruct (cchmac_update_take hci PRK [] (T s) (Tlen s) Hhci Hto) as (hc1 & -> & Ha1); [lia|].
  rewrite bind_some. rewrite Htake in Ha1.
  destruct (cchmac_update_spec hc1 PRK _ info Ha1 Hinfo) as (hc2 & -> & Ha2). rewrite bind_some.
  rewrite (wrap_small 8) by (unfold in_word; lia).
  destruct (cchmac_update_spec hc2 PRK _ [Z.of_nat j + 1] Ha2) as (hc3 & Hu3 & Ha3).
  { apply Forall_singleton. unfold in_word. lia. }
  change (Z.of_nat (length [Z.of_nat j + 1])) with 1 in Hu3. rewrite Hu3, bind_some. clear Hu3.
  replace (Z.of_nat j + 1) with (Z.of_nat (S j)) in * by lia.
  rewrite <-!app_assoc in Ha3. cbn [app] in Ha3.
  assert (length (default [] (head (Ts PRK info j))) <= out)%nat as Hhd.
  { rewrite <-Htake, length_take. lia. }
  set (m := default [] (head (Ts PRK info j)) ++ info ++ [Z.of_nat (S j)]) in *.
  destruct (cchmac_final_spec hc3 PRK m Ha3 HPRK) as (hc4 & -> & _).
  { unfold m. rewrite !length_app. simpl. lia. }
  rewrite bind_some. cbv beta iota. destruct (hmac_ok PRK m) as [Hmo Hml].
  rewrite cc_memcpy_start by lia. rewrite bind_some, Hdks, Hoff. rewrite (wrap_small 64 (Z.of_nat len - _)) by (unfold in_word; lia).
  assert ((if decide (Z.of_nat (S j) = Z.of_nat n)
    then cc_memcpy _ (Z.of_nat (out * j)) _ (Z.of_nat len - Z.of_nat (out * j))
    else cc_memcpy _ (Z.of_nat (out * j)) _ (output_size di)) =
    Some (take len (mjoin (reverse (Ts PRK info (S j)))) ++ drop (out * S j) (take len dk0) ++ drop len dk0)) as ->.
  { rewrite join_Ts_S. fold m. rewrite <-(expand_copy j (hmac PRK m) (Nat.min out (len - out * j))
      (drop (length (hmac PRK m)) (T s))) by lia.
    case_decide as Heq; f_equal; [|assert (S j < n)%nat as Hlt by lia].
    - assert (n = S j) as HSj by lia. rewrite HSj in Hln. lia.
    - assert (out * S (S j) <= len + (out - 1))%nat; [|lia].
      etrans; [apply Nat.mul_le_mono_l, Hlt|]. apply Nat.Div0.mul_div_le. }
  rewrite bind_some. eexists. split; [done|]. unfold expanded. cbn [T Tlen offset dk].
  split_and!; try done; try lia.
  - rewrite length_app, length_drop. lia.
  - apply Forall_app. split; [done|by apply Forall_drop].
  - rewrite <-Hml, Nat2Z.id, take_app_length. done.
  - rewrite wrap_small by (unfold in_word; lia). lia.
Qed.
End Expand.

Lemma cc_ceiling_spec len :
  Z.of_nat len + output_size di < 2 ^ 64 ->
  cc_ceiling (Z.of_nat len) (output_size di) = Z.of_nat ((len + (out - 1)) / out).
Proof.
  pose proof law_output as Ho. intros Hl. unfold cc_ceiling. rewrite wrap_small by (unfold in_word; lia).
  rewrite Nat2Z.inj_div. f_equal; lia.
Qed.

Lemma cchkdf_expand_spec hc t prk pn info len dk0 :
  Z.of_nat (length (data (digest_ctx hc))) = block_size di ->
  Z.of_nat (length t) = MAX_DIGEST_OUTPUT_SIZE -> output_size di <= MAX_DIGEST_OUTPUT_SIZE ->
  bytes_ok t -> bytes_ok prk -> bytes_ok info ->
  output_size di <= pn <= Z.of_nat (length prk) -> 8 * pn < 2 ^ 64 -> (len <= length dk0)%nat ->
  Z.of_nat len + output_size di < 2 ^ 64 ->
  8 * (block_size di + output_size di + Z.of_nat (length info) + 1) < 2 ^ 64 ->
  cchkdf_expand di hc t pn prk (Z.of_nat (length info)) info (Z.of_nat len) dk0 = Some
    (if decide (255 < (len + (out - 1)) / out)%nat then (CCERR_PARAMETER, dk0)
     else (CCERR_OK, rfc5869_expand H bs out (take (Z.to_nat pn) prk) info len ++ drop len dk0)).
Proof.
  intros Hhc Ht Hmax Hto Hprk Hinfo Hpn Hpb Hdk Hlen Hbits. unfold cchkdf_expand. cbv zeta. pose proof law_output as Ho.
  rewrite cc_ceiling_spec by done. set (n := ((len + (out - 1)) / out)%nat).
  destruct (decide (255 < n)%nat) as [Hbig|Hsmall]; [by rewrite decide_True by lia|].
  rewrite !decide_False by lia.
  destruct (cchmac_init_take hc prk pn (take (Z.to_nat pn) prk)) as (hci & -> & Ha); [done|done|lia|done|done|].
  rewrite bind_some, Nat2Z.id.
  destruct (for_range_inv (expanded (take (Z.to_nat pn) prk) info dk0 len) n
    (fun j s => expand_turn di hci (Z.of_nat (length info)) info (Z.of_nat len) (Z.of_nat n) (Z.of_nat j + 1) s)
    (Expansion t 0 0 dk0)) as (s & -> & (_ & _ & _ & _ & _ & Hs)).
  - unfold expanded. cbn [T Tlen offset dk]. rewrite Nat.mul_0_r, drop_0.
    split_and!; try done; try lia. cbn. by rewrite take_nil, take_drop.
  - intros j s' Hj He. apply expand_turn_spec; try done; [by apply Forall_take|lia].
  - rewrite bind_some, Hs. unfold rfc5869_expand. fold n. do 3 f_equal. rewrite drop_ge; [done|].
    rewrite length_take. pose proof (Nat.div_mod_eq (len + (out - 1)) out).
    pose proof (Nat.mod_upper_bound (len + (out - 1)) out). fold n in H0. lia.
Qed.

Lemma cchkdf_spec hc t ikm salt info len dk0 :
  Z.of_nat (length (data (digest_ctx hc))) = block_size di ->
  Z.of_nat (length t) = MAX_DIGEST_OUTPUT_SIZE -> output_size di <= MAX_DIGEST_OUTPUT_SIZE ->
  bytes_ok t -> bytes_ok ikm -> bytes_ok salt -> bytes_ok info -> (len <= length dk0)%nat ->
  8 * Z.of_nat (length salt) < 2 ^ 64 -> 8 * (block_size di + Z.of_nat (length ikm)) < 2 ^ 64 ->
  Z.of_nat len + output_size di < 2 ^ 64 ->
  8 * (block_size di + output_size di + Z.of_nat (length info) + 1) < 2 ^ 64 ->
  cchkdf di hc t (Z.of_nat (length ikm)) ikm (Z.of_nat (length salt)) salt (Z.of_nat (length info)) info
    (Z.of_nat len) dk0 = Some
    (if decide (255 < (len + (out - 1)) / out)%nat then (CCERR_PARAMETER, dk0)
     else (CCERR_OK, rfc5869 H bs out ikm salt info len ++ drop len dk0)).
Proof.
  intros Hhc Ht Hmax Hto Hikm Hsalt Hinfo Hdk Hsb Hib Hlen Hbits. pose proof law_block as Hb. pose proof law_output as Ho.
  set (salt' := if decide (salt = []) then replicate out 0 else salt).
  assert (cchkdf_extract di hc (Z.of_nat (length salt)) salt (Z.of_nat (length ikm)) ikm =
    Some (CCERR_OK, hmac salt' ikm)) as He.
  { unfold cchkdf_extract, salt'. destruct (decide (salt = [])) as [->|Hs].
    - cbn [length]. rewrite decide_True by done.
      rewrite (cchmac_take hc _ _ _ _ (replicate out 0) ikm); try done.
      + apply Forall_replicate. unfold in_word. lia.
      + rewrite length_replicate. lia.
      + lia.
      + by rewrite take_replicate, Nat.min_l by lia.
      + by rewrite Nat2Z.id, firstn_all.
      + lia.
    - rewrite decide_False by (destruct salt; [done|simpl; lia]). by rewrite cchmac_spec. }
  unfold cchkdf. rewrite He, bind_some. cbv beta iota. rewrite (decide_True (P := CCERR_OK = CCERR_OK)) by done.
  destruct (hmac_ok salt' ikm) as [Hpo Hpl]. rewrite cchkdf_expand_spec by (done || lia).
  unfold rfc5869. fold salt'. rewrite (take_ge (hmac salt' ikm)) by lia. done.
Qed.
End Hmac.

(** ** The theorems *)

(** C22. HMAC-SHA-256 in pieces: for every key, also one longer than a block, and every
    message in any number of pieces, initialising a context of any previous content,
    updating it with the pieces and finalising it gives the code of RFC 2104 over the
    hash of FIPS 180-4, and [cchmac] gives the same in one call. *)
Theorem cchmac_rfc2104 (hc : cchmac_ctx) (key : list Z) (pieces : list (list Z)) :
  length (data (digest_ctx hc)) = 64%nat -> bytes_ok key -> Forall bytes_ok pieces ->
  Z.of_nat (length key) < 2 ^ 60 -> Z.of_nat (length (mjoin pieces)) < 2 ^ 60 ->
  (hc ← cchmac_init ccsha256_ltc_di hc (Z.of_nat (length key)) key;
   hc ← cchmac_updates ccsha256_ltc_di hc pieces;
   '(_, mac) ← cchmac_final ccsha256_ltc_di hc; Some mac) = Some (rfc2104 FIPS180.sha256 64 key (mjoin pieces)) /\
  cchmac ccsha256_ltc_di hc (Z.of_nat (length key)) key (Z.of_nat (length (mjoin pieces))) (mjoin pieces) =
  Some (rfc2104 FIPS180.sha256 64 key (mjoin pieces)).
Proof.
  intros Hd Hk Hp Hkl Hml. assert (Z.of_nat (length (data (digest_ctx hc))) = block_size ccsha256_ltc_di) as Hd' by (by rewrite Hd).
  change 64%nat with (Z.to_nat (block_size ccsha256_ltc_di)). split.
  - destruct (cchmac_init_take ccsha256_ltc_di FIPS180.compress FIPS180.sha256 hc key (Z.of_nat (length key)) key)
      as (hc1 & -> & Ha); [done|done|lia|by rewrite Nat2Z.id, firstn_all|lia|]. rewrite bind_some.
    destruct (cchmac_updates_spec ccsha256_ltc_di FIPS180.compress FIPS180.sha256 hc1 key [] pieces Ha Hp) as (hc2 & -> & Ha2).
    rewrite bind_some.
    destruct (cchmac_final_spec ccsha256_ltc_di FIPS180.compress FIPS180.sha256 hc2 key _ Ha2 Hk) as (hc3 & -> & _);
      [|done]. cbn [app]. change (block_size ccsha256_ltc_di) with 64. lia.
  - apply (cchmac_spec ccsha256_ltc_di FIPS180.compress FIPS180.sha256); try done; [|lia|].
    + by apply Forall_join.
    + change (block_size ccsha256_ltc_di) with 64. lia.
Qed.

Definition demo_hc : cchmac_ctx := CchmacCtx (CcdigestCtx 0 [] (replicate 64 170) 0) [].

Lemma cchmac_rfc2104_witness :
  (hc ← cchmac_init ccsha256_ltc_di demo_hc (Z.of_nat (length [74; 101; 102; 101])) [74; 101; 102; 101];
   hc ← cchmac_updates ccsha256_ltc_di hc [[119; 104; 97]; [116]];
   '(_, mac) ← cchmac_final ccsha256_ltc_di hc; Some mac) =
  Some (rfc2104 FIPS180.sha256 64 [74; 101; 102; 101] (mjoin [[119; 104; 97]; [116]])).
Proof.
  destruct (cchmac_rfc2104 demo_hc [74; 101; 102; 101] [[119; 104; 97]; [116]]) as [Hw _]; [..|exact Hw].
  - reflexivity.
  - apply (bool_decide_unpack _). vm_compute. exact I.
  - apply (bool_decide_unpack _). vm_compute. exact I.
  - reflexivity.
  - reflexivity.
Defined.

(** C33. HKDF-SHA-256: [cchkdf] refuses more than 255 blocks without touching the
    output, and otherwise fills its first [len] bytes with the key material of
    RFC 5869, the rest of the buffer being unchanged. *)
Theorem cchkdf_rfc5869 (hc : cchmac_ctx) (t ikm salt info out : list Z) (len : nat) :
  length (data (digest_ctx hc)) = 64%nat -> length t = 64%nat ->
  bytes_ok t -> bytes_ok ikm -> bytes_ok salt -> bytes_ok info -> (len <= length out)%nat ->
  Z.of_nat (length salt) < 2 ^ 60 -> Z.of_nat (length ikm) < 2 ^ 60 -> Z.of_nat (length info) < 2 ^ 60 ->
  Z.of_nat len < 2 ^ 63 ->
  cchkdf ccsha256_ltc_di hc t (Z.of_nat (length ikm)) ikm (Z.of_nat (length salt)) salt
    (Z.of_nat (length info)) info (Z.of_nat len) out =
  Some (if decide (255 * 32 < len)%nat then (CCERR_PARAMETER, out)
        else (CCERR_OK, rfc5869 FIPS180.sha256 64 32 ikm salt info len ++ drop len out)).
Proof.
  intros Hhc Ht Hto Hikm Hsalt Hinfo Hlen Hs Hi Hf Hl.
  rewrite (cchkdf_spec ccsha256_ltc_di FIPS180.compress FIPS180.sha256); try done; try (by rewrite ?Hhc, ?Ht);
    change (block_size ccsha256_ltc_di) with 64; change (output_size ccsha256_ltc_di) with 32; try lia.
  change (Z.to_nat 32) with 32%nat. change (Z.to_nat 64) with 64%nat. f_equal.
  pose proof (Nat.div_mod_eq (len + (32 - 1)) 32). pose proof (Nat.mod_upper_bound (len + (32 - 1)) 32 ltac:(lia)).
  repeat case_decide; try done; lia.
Qed.

Lemma cchkdf_rfc5869_witness :
  cchkdf ccsha256_ltc_di demo_hc (replicate 64 9) (Z.of_nat (length [1; 2])) [1; 2] (Z.of_nat (length (@nil Z))) []
    (Z.of_nat (length [3])) [3] (Z.of_nat 33) (replicate 40 7) =
  Some (CCERR_OK, rfc5869 FIPS180.sha256 64 32 [1; 2] [] [3] 33 ++ drop 33 (replicate 40 7)).
Proof.
  pose proof (cchkdf_rfc5869 demo_hc (replicate 64 9) [1; 2] [] [3] (replicate 40 7) 33) as Hw.
  rewrite decide_False in Hw by lia. apply Hw; try reflexivity; try lia;
    apply (bool_decide_unpack _); vm_compute; exact I.
Defined.
