(* ===== verification/CcDrbg.v ===== *)
(** * The HMAC random bit generator of corecrypto

    [osfmk/corecrypto/ccdrbg_nisthmac.c], which the kernel's random number generator
    is built on, with [cc_cmp_safe].  The key and the value [V] are arrays of 64
    bytes of which the first [output_size] are used; contexts on the stack have
    arbitrary content ([hc]).  [cc_try_abort] panics in the kernel, so that the
    repetition of a block, the conditional test of FIPS 140-2, is [None].

    Module [SP800_90A] is HMAC_DRBG as the standard has it, and every sequence of
    requests is shown to give its results. *)
From S2P Require Import Prelude Sha256 CcDigest CcSha256 CcHmac.

Local Open Scope Z_scope.

(** ** cc_cmp_safe *)

Definition CC_HEAVISIDE_STEP (s : Z) : Z :=
  let t := Z.lor (Z.land s 4294967295) (Z.shiftr s 32) in
  u8 (Z.shiftr (u64 (t + 4294967295)) 32).

Definition cc_cmp_safe (num : Z) (s t : list Z) : option Z :=
  flag ← for_range (Z.to_nat num) (fun i flag =>
           a ← zget s (Z.of_nat i); b ← zget t (Z.of_nat i); Some (Z.lor flag (Z.lxor a b)))
           (if decide (num <= 0) then 1 else 0);
  Some (CC_HEAVISIDE_STEP flag).

(** ** ccdrbg_nisthmac.c *)

Abbreviation CCDRBG_STATUS_OK := (CCERR_OK)%Z.
Abbreviation CCDRBG_STATUS_NEED_RESEED := (-62)%Z.
Abbreviation CCDRBG_STATUS_PARAM_ERROR := (-63)%Z.
Abbreviation CCDRBG_MAX_ENTROPY_SIZE := (Z.shiftl 1 16)%Z.
Abbreviation CCDRBG_MAX_ADDITIONALINPUT_SIZE := (Z.shiftl 1 16)%Z.
Abbreviation CCDRBG_MAX_PSINPUT_SIZE := (Z.shiftl 1 16)%Z.
Abbreviation CCDRBG_MAX_REQUEST_SIZE := (Z.shiftl 1 16)%Z.
Abbreviation CCDRBG_RESEED_INTERVAL := (Z.shiftl 1 48)%Z.
Abbreviation DRBG_HMAC_MAX_OUTPUT_SIZE := (MAX_DIGEST_OUTPUT_SIZE)%Z.
Definition MIN_REQ_ENTROPY (di : ccdigest_info) : Z := output_size di / 2.

Record ccdrbg_nisthmac_custom := Custom { di : ccdigest_info; strictFIPS : bool }.

Record ccdrbg_nisthmac_state := DrbgState {
  custom : ccdrbg_nisthmac_custom; key : list Z; V : list Z; reseed_counter : Z
}.

Abbreviation UINT64_MAX := (2 ^ 64 - 1)%Z.

Definition drbg_done (ctx : ccdrbg_nisthmac_state) : ccdrbg_nisthmac_state :=
  DrbgState (custom ctx) (replicate (Z.to_nat DRBG_HMAC_MAX_OUTPUT_SIZE) 0)
    (replicate (Z.to_nat DRBG_HMAC_MAX_OUTPUT_SIZE) 0) UINT64_MAX.

(** The variable arguments of [update]: lengths and buffers. *)
Fixpoint update_args (info : ccdigest_info) (hc : cchmac_ctx) (args : list (Z * list Z)) : option cchmac_ctx :=
  match args with
  | [] => Some hc
  | (nbytes, buf) :: args => hc ← cchmac_update info hc nbytes buf; update_args info hc args
  end.

(** One turn of the loop over [b]; [hmac_ctx] is the context as the last turn left it. *)
Definition update_turn (hc hmac_ctx : cchmac_ctx) (ctx : ccdrbg_nisthmac_state) (b : Z) (args : list (Z * list Z))
    : option (cchmac_ctx * ccdrbg_nisthmac_state) :=
  let info := di (custom ctx) in
  let outlen := output_size info in
  hmac_ctx ← cchmac_init info hmac_ctx outlen (key ctx);
  hmac_ctx ← cchmac_update info hmac_ctx outlen (V ctx);
  hmac_ctx ← cchmac_update info hmac_ctx 1 [b];
  hmac_ctx ← update_args info hmac_ctx args;
  '(hmac_ctx, mac) ← cchmac_final info hmac_ctx;
  k ← cc_memcpy (key ctx) 0 mac outlen;
  mac ← cchmac info hc outlen k outlen (V ctx);
  v ← cc_memcpy (V ctx) 0 mac outlen;
  Some (hmac_ctx, DrbgState (custom ctx) k v (reseed_counter ctx)).

Definition drbg_update (hc : cchmac_ctx) (ctx : ccdrbg_nisthmac_state) (args : list (Z * list Z))
    : option ccdrbg_nisthmac_state :=
  '(hmac_ctx, ctx) ← update_turn hc hc ctx 0 args;
  let data_nbytes := foldl (fun n a => u64 (n + a.1)) 0 args in
  if decide (data_nbytes = 0) then Some ctx else
  '(_, ctx) ← update_turn hc hmac_ctx ctx 1 args;
  Some ctx.

Definition entropy_isvalid (entropy_nbytes : Z) (info : ccdigest_info) : bool :=
  bool_decide (entropy_nbytes <= CCDRBG_MAX_ENTROPY_SIZE) && bool_decide (MIN_REQ_ENTROPY info <= entropy_nbytes).

Definition set_counter (ctx : ccdrbg_nisthmac_state) (n : Z) : ccdrbg_nisthmac_state :=
  DrbgState (custom ctx) (key ctx) (V ctx) n.

(** The status, and the state afterwards. *)
Definition drbg_init (hc : cchmac_ctx) (info_custom : ccdrbg_nisthmac_custom) (ctx : ccdrbg_nisthmac_state)
    (entropy_nbytes : Z) (entropy : list Z) (nonce_nbytes : Z) (nonce : list Z) (ps_nbytes : Z) (ps : list Z)
    : option (Z * ccdrbg_nisthmac_state) :=
  let ctx := DrbgState info_custom (key ctx) (V ctx) (reseed_counter ctx) in
  let digest_info := di info_custom in
  let outlen := output_size digest_info in
  if negb (bool_decide (outlen <= DRBG_HMAC_MAX_OUTPUT_SIZE)) then Some (CCDRBG_STATUS_PARAM_ERROR, ctx) else
  if negb (entropy_isvalid entropy_nbytes digest_info) then Some (CCDRBG_STATUS_PARAM_ERROR, ctx) else
  if negb (bool_decide (ps_nbytes <= CCDRBG_MAX_PSINPUT_SIZE)) then Some (CCDRBG_STATUS_PARAM_ERROR, ctx) else
  k ← cc_memset (key ctx) 0 0 outlen;
  v ← cc_memset (V ctx) 0 1 outlen;
  ctx ← drbg_update hc (DrbgState (custom ctx) k v (reseed_counter ctx))
          [(entropy_nbytes, entropy); (nonce_nbytes, nonce); (ps_nbytes, ps)];
  Some (CCDRBG_STATUS_OK, set_counter ctx 1).

Definition add_isvalid (add_nbytes : Z) : bool := bool_decide (add_nbytes <= CCDRBG_MAX_ADDITIONALINPUT_SIZE).

Definition drbg_reseed (hc : cchmac_ctx) (ctx : ccdrbg_nisthmac_state) (entropy_nbytes : Z) (entropy : list Z)
    (add_nbytes : Z) (add : list Z) : option (Z * ccdrbg_nisthmac_state) :=
  let digest_info := di (custom ctx) in
  if negb (entropy_isvalid entropy_nbytes digest_info) then Some (CCDRBG_STATUS_PARAM_ERROR, ctx) else
  if negb (add_isvalid add_nbytes) then Some (CCDRBG_STATUS_PARAM_ERROR, ctx) else
  ctx ← drbg_update hc ctx [(entropy_nbytes, entropy); (add_nbytes, add)];
  Some (CCDRBG_STATUS_OK, set_counter ctx 1).

Definition must_reseed (ctx : ccdrbg_nisthmac_state) : bool :=
  strictFIPS (custom ctx) && bool_decide (CCDRBG_RESEED_INTERVAL < reseed_counter ctx).

(** The loop of [generate]: [out] from position [off] on. *)
Fixpoint generate_loop (fuel : nat) (hc : cchmac_ctx) (ctx : ccdrbg_nisthmac_state) (out_nbytes : Z)
    (out : list Z) (off : Z) : option (ccdrbg_nisthmac_state * list Z) :=
  match fuel with
  | O => None
  | S fuel =>
      if decide (0 < out_nbytes) then
        let info := di (custom ctx) in
        let outlen := output_size info in
        mac ← cchmac info hc outlen (key ctx) outlen (V ctx);
        v ← cc_memcpy (V ctx) 0 mac outlen;
        c ← cc_cmp_safe outlen (V ctx) v;
        if decide (c = 0) then None else
        let n := Z.min out_nbytes outlen in
        out ← cc_memcpy out off v n;
        generate_loop fuel hc (DrbgState (custom ctx) (key ctx) v (reseed_counter ctx)) (out_nbytes - n) out (off + n)
      else Some (ctx, out)
  end.

(** The status, the state and the output buffer afterwards. *)
Definition drbg_generate (hc : cchmac_ctx) (ctx : ccdrbg_nisthmac_state) (out_nbytes : Z) (out : list Z)
    (add_nbytes : Z) (add : list Z) : option (Z * ccdrbg_nisthmac_state * list Z) :=
  if negb (bool_decide (out_nbytes <= CCDRBG_MAX_REQUEST_SIZE)) then Some (CCDRBG_STATUS_PARAM_ERROR, ctx, out) else
  if negb (add_isvalid add_nbytes) then Some (CCDRBG_STATUS_PARAM_ERROR, ctx, out) else
  if must_reseed ctx then Some (CCDRBG_STATUS_NEED_RESEED, ctx, out) else
  ctx ← (if decide (0 < add_nbytes) then drbg_update hc ctx [(add_nbytes, add)] else Some ctx);
  '(ctx, out) ← generate_loop (S (Z.to_nat out_nbytes)) hc ctx out_nbytes out 0;
  ctx ← drbg_update hc ctx [(add_nbytes, add)];
  Some (CCDRBG_STATUS_OK, set_counter ctx (u64 (reseed_counter ctx + 1)), out).

(** ** NIST SP 800-90A, 10.1.2 *)

Module SP800_90A.
Section Mechanism.
Context (HMAC : list Z -> list Z -> list Z) (outlen : nat).

Record working := Working { Key : list Z; Value : list Z; counter : Z }.

(** HMAC_DRBG_Update. *)
Definition Update (provided_data K V : list Z) : list Z * list Z :=
  let K := HMAC K (V ++ [0] ++ provided_data) in
  let V := HMAC K V in
  if decide (provided_data = []) then (K, V) else
  let K := HMAC K (V ++ [1] ++ provided_data) in
  let V := HMAC K V in
  (K, V).

Definition Instantiate (entropy_input nonce personalization_string : list Z) : working :=
  let '(K, V) := Update (entropy_input ++ nonce ++ personalization_string)
                   (replicate outlen 0) (replicate outlen 1) in
  Working K V 1.

Definition Reseed (s : working) (entropy_input additional_input : list Z) : working :=
  let '(K, V) := Update (entropy_input ++ additional_input) (Key s) (Value s) in
  Working K V 1.

(** [n] blocks: their concatenation, the last value, and whether two consecutive
    values were equal. *)
Fixpoint Blocks (n : nat) (K V : list Z) : list Z * list Z * bool :=
  match n with
  | O => ([], V, false)
  | S n =>
      let V' := HMAC K V in
      let '(temp, Vn, repeated) := Blocks n K V' in
      (V' ++ temp, Vn, bool_decide (V = V') || repeated)
  end.

(** The bits and the state; the last component is the result of the continuous test. *)
Definition Generate (s : working) (requested : nat) (additional_input : list Z) : list Z * working * bool :=
  let '(K, V) := if decide (additional_input = []) then (Key s, Value s)
                 else Update additional_input (Key s) (Value s) in
  let '(temp, V, repeated) := Blocks ((requested + (outlen - 1)) / outlen) K V in
  let '(K, V) := Update additional_input K V in
  (take requested temp, Working K V (counter s + 1), repeated).
End Mechanism.
End SP800_90A.

(** ** Requests *)

(** A request to an instantiated generator; the output goes to the buffer [out]. *)
Inductive request :=
  | Reseed_request (entropy add : list Z)
  | Generate_request (out add : list Z).

(** The status and the output buffer afterwards. *)
Definition serve (hc : cchmac_ctx) (ctx : ccdrbg_nisthmac_state) (r : request)
    : option (Z * list Z * ccdrbg_nisthmac_state) :=
  match r with
  | Reseed_request entropy add =>
      '(st, ctx) ← drbg_reseed hc ctx (Z.of_nat (length entropy)) entropy (Z.of_nat (length add)) add;
      Some (st, [], ctx)
  | Generate_request out add =>
      '(st, ctx, out) ← drbg_generate hc ctx (Z.of_nat (length out)) out (Z.of_nat (length add)) add;
      Some (st, out, ctx)
  end.

(** The results of a sequence of requests. *)
Fixpoint serve_all {S : Type} (step : S -> request -> option (Z * list Z * S)) (s : S) (rs : list request)
    : option (list (Z * list Z)) :=
  match rs with
  | [] => Some []
  | r :: rs => '(st, out, s) ← step s r; l ← serve_all step s rs; Some ((st, out) :: l)
  end.

(** What the standard prescribes for a request, with the limits of the
    implementation: refusals change nothing, and the failure of the continuous test is
    [None]. *)
Definition prescribed (HMAC : list Z -> list Z -> list Z) (outlen : nat) (strict : bool)
    (s : SP800_90A.working) (r : request) : option (Z * list Z * SP800_90A.working) :=
  match r with
  | Reseed_request entropy add =>
      if decide ((outlen / 2 <= length entropy)%nat /\ Z.of_nat (length entropy) <= 65536 /\ Z.of_nat (length add) <= 65536)
      then Some (CCDRBG_STATUS_OK, [], SP800_90A.Reseed HMAC s entropy add)
      else Some (CCDRBG_STATUS_PARAM_ERROR, [], s)
  | Generate_request out add =>
      if decide (65536 < Z.of_nat (length out) \/ 65536 < Z.of_nat (length add))
      then Some (CCDRBG_STATUS_PARAM_ERROR, out, s)
      else if decide (strict = true /\ 2 ^ 48 < SP800_90A.counter s) then Some (CCDRBG_STATUS_NEED_RESEED, out, s)
      else let '(bits, s', repeated) := SP800_90A.Generate HMAC outlen s (length out) add in
           if repeated : bool then None else Some (CCDRBG_STATUS_OK, bits, s')
  end.

(** ** The comparison *)

Lemma heaviside_spec s : byte_ok s -> CC_HEAVISIDE_STEP s = if decide (s = 0) then 0 else 1.
Proof.
  intros [H0 H1]. change (2 ^ 8) with 256 in H1. unfold CC_HEAVISIDE_STEP.
  assert (Z.land s 4294967295 = s) as -> by (change 4294967295 with (Z.ones 32); rewrite Z.land_ones, Z.mod_small by lia; lia).
  rewrite (Z.shiftr_div_pow2 s), (Z.div_small s), Z.lor_0_r by lia.
  rewrite (wrap_small 64) by (unfold in_word; lia). rewrite Z.shiftr_div_pow2 by lia.
  change (2 ^ 32) with 4294967296. case_decide.
  - subst. done.
  - replace ((s + 4294967295) / 4294967296) with 1; [done|]. Z.to_euclidean_division_equations. lia.
Qed.

Lemma lor_eq_0 a b : 0 <= a -> 0 <= b -> Z.lor a b = 0 <-> a = 0 /\ b = 0.
Proof. intros Ha Hb. apply Z.lor_eq_0_iff. Qed.

Lemma cc_cmp_safe_spec n s t :
  0 < n -> n <= Z.of_nat (length s) -> n <= Z.of_nat (length t) -> bytes_ok s -> bytes_ok t ->
  cc_cmp_safe n s t = Some (if decide (take (Z.to_nat n) s = take (Z.to_nat n) t) then 0 else 1).
Proof.
  intros Hn Hs Ht Hso Hto. unfold cc_cmp_safe. rewrite decide_False by lia.
  edestruct (for_range_inv (fun i flag => byte_ok flag /\ (flag = 0 <-> take i s = take i t)) (Z.to_nat n))
    as (f & -> & Hf & Hiff); [by split; [unfold in_word; lia|]| |].
  - intros j f Hj [Hf Hiff]. destruct (lookup_lt_is_Some_2 s j) as [a Ha]; [lia|].
    destruct (lookup_lt_is_Some_2 t j) as [b Hb]; [lia|]. rewrite !zget_nat, Ha, Hb, !bind_some.
    pose proof (Forall_lookup_1 _ _ _ _ Hso Ha) as Hao. pose proof (Forall_lookup_1 _ _ _ _ Hto Hb) as Hbo.
    cbn in Hao, Hbo. assert (byte_ok (Z.lxor a b)) as Hx by auto with cword.
    eexists. split; [done|]. split; [auto with cword|].
    rewrite Z.lor_eq_0_iff, Z.lxor_eq_0_iff, Hiff, (take_S_r _ _ _ Ha), (take_S_r _ _ _ Hb).
    split; [intros [-> ->]; done|]. intros He. apply app_inj_2 in He as [-> [= ->]]; done.
  - rewrite bind_some, heaviside_spec by done. f_equal. repeat case_decide; naive_solver.
Qed.

(** ** The generator is that of the standard *)

Section Refinement.
Context (cu : ccdrbg_nisthmac_custom) (C : list Z -> list Z -> list Z) (H : list Z -> list Z).
Context {L : DigestLaws (di cu) C H} (Hmax : output_size (di cu) <= 64).

Local Abbreviation bs := (Z.to_nat (block_size (di cu))).
Local Abbreviation outlen := (Z.to_nat (output_size (di cu))).
Local Abbreviation HMAC := (rfc2104 H bs).
Local Abbreviation hc_ok hc := (Z.of_nat (length (data (digest_ctx hc))) = block_size (di cu)).

(** An array with [l] in its first [output_size] cells. *)
Definition holds (a l : list Z) : Prop := length a = 64%nat /\ bytes_ok a /\ take outlen a = l.

(** The state stands for a working state of the standard. *)
Definition drbg_rep (ctx : ccdrbg_nisthmac_state) (s : SP800_90A.working) : Prop :=
  custom ctx = cu /\ holds (key ctx) (SP800_90A.Key s) /\ holds (V ctx) (SP800_90A.Value s) /\
  reseed_counter ctx = SP800_90A.counter s.

(** An argument of [update]: a buffer and the length of the part that is used. *)
Definition arg_ok (a : Z * list Z) : Prop := 0 <= a.1 <= Z.of_nat (length a.2) /\ bytes_ok a.2.
Definition arg_bytes (a : Z * list Z) : list Z := take (Z.to_nat a.1) a.2.
Definition provided (args : list (Z * list Z)) : list Z := mjoin (arg_bytes <$> args).

Lemma holds_store a l mac :
  holds a l -> bytes_ok mac -> Z.of_nat (length mac) = output_size (di cu) ->
  exists a', cc_memcpy a 0 mac (output_size (di cu)) = Some a' /\ holds a' mac.
Proof.
  intros (Hl & Ha & _) Hm Hml. pose proof law_output as Ho. rewrite cc_memcpy_start by lia.
  eexists. split; [done|]. split_and!.
  - rewrite length_app, length_drop. lia.
  - apply Forall_app. split; [done|by apply Forall_drop].
  - rewrite <-Hml, Nat2Z.id. by rewrite take_app_length.
Qed.

Lemma drbg_holds_length a l : holds a l -> Z.of_nat (length l) = output_size (di cu) /\ bytes_ok l.
Proof.
  intros (Hl & Ha & <-). pose proof law_output as Ho. rewrite length_take.
  split; [lia|by apply Forall_take].
Qed.

Lemma hmac_output K m : bytes_ok (HMAC K m) /\ Z.of_nat (length (HMAC K m)) = output_size (di cu).
Proof. apply (hmac_ok (di cu) C H). Qed.

(** [cchmac] on the key and the value. *)
Lemma cchmac_holds hc k K v W :
  hc_ok hc -> holds k K -> holds v W ->
  cchmac (di cu) hc (output_size (di cu)) k (output_size (di cu)) v = Some (HMAC K W).
Proof.
  intros Hhc (Hk & Hko & <-) (Hv & Hvo & <-). pose proof law_output as Ho. pose proof law_block as Hb.
  apply (cchmac_take (di cu) C H); try done; lia.
Qed.

Lemma update_args_spec hc K m args :
  hmac_absorbed (di cu) C H hc K m -> Forall arg_ok args ->
  exists hc', update_args (di cu) hc args = Some hc' /\ hmac_absorbed (di cu) C H hc' K (m ++ provided args).
Proof.
  intros Ha Hargs. revert hc m Ha. induction Hargs as [|[n d] args [Hn Hd] Hargs IH]; intros hc m Ha; cbn [update_args].
  - exists hc. unfold provided. cbn. by rewrite app_nil_r.
  - destruct (cchmac_update_take (di cu) C H hc K m d n Ha Hd Hn) as (hc1 & -> & Ha1). rewrite bind_some.
    destruct (IH hc1 _ Ha1) as (hc2 & -> & Ha2). exists hc2. unfold provided in *. cbn in *. by rewrite app_assoc.
Qed.

Lemma update_turn_spec hc hmac_ctx ctx s b args :
  hc_ok hc -> hc_ok hmac_ctx -> drbg_rep ctx s -> byte_ok b -> Forall arg_ok args ->
  Z.of_nat (length (provided args)) < 2 ^ 60 ->
  let K := HMAC (SP800_90A.Key s) (SP800_90A.Value s ++ [b] ++ provided args) in
  exists hmac_ctx' ctx', update_turn hc hmac_ctx ctx b args = Some (hmac_ctx', ctx') /\ hc_ok hmac_ctx' /\
    drbg_rep ctx' (SP800_90A.Working K (HMAC K (SP800_90A.Value s)) (SP800_90A.counter s)).
Proof.
  intros Hhc Hmc (Hcu & Hk & Hv & Hc) Hb Hargs Hlen K. pose proof law_output as Ho. pose proof law_block as Hbs.
  unfold update_turn. rewrite Hcu. cbv zeta. pose proof Hk as (Hk1 & Hk2 & Hk3). pose proof Hv as (Hv1 & Hv2 & Hv3).
  destruct (cchmac_init_take (di cu) C H hmac_ctx (key ctx) (output_size (di cu)) (SP800_90A.Key s))
    as (h1 & -> & Ha1); [done|done|lia|done|lia|]. rewrite bind_some.
  destruct (cchmac_update_take (di cu) C H h1 _ _ (V ctx) (output_size (di cu)) Ha1 Hv2) as (h2 & -> & Ha2); [lia|].
  rewrite bind_some. rewrite Hv3 in Ha2.
  destruct (cchmac_update_spec (di cu) C H h2 _ _ [b] Ha2) as (h3 & Hu3 & Ha3); [by apply Forall_singleton|].
  change (Z.of_nat (length [b])) with 1 in Hu3. rewrite Hu3, bind_some.
  destruct (update_args_spec h3 _ _ args Ha3 Hargs) as (h4 & -> & Ha4). rewrite bind_some.
  cbn [app] in Ha4. rewrite <-app_assoc in Ha4. destruct (drbg_holds_length _ _ Hk) as [_ Hko].
  destruct (drbg_holds_length _ _ Hv) as [Hvl _].
  destruct (cchmac_final_spec (di cu) C H h4 _ _ Ha4 Hko) as (h5 & -> & Hh5).
  { rewrite !length_app. simpl. lia. }
  rewrite bind_some. cbv beta iota. fold K. destruct (hmac_output (SP800_90A.Key s) (SP800_90A.Value s ++ [b] ++ provided args)) as [Hm1 Hm2].
  destruct (holds_store _ _ K Hk Hm1 Hm2) as (k' & -> & Hk'). rewrite bind_some.
  rewrite (cchmac_holds hc k' K _ _ Hhc Hk' Hv), bind_some.
  destruct (hmac_output K (SP800_90A.Value s)) as [Hm3 Hm4].
  destruct (holds_store _ _ _ Hv Hm3 Hm4) as (v' & -> & Hv'). rewrite bind_some.
  eexists _, _. split; [done|]. split; [done|]. by split_and!.
Qed.

Lemma length_provided a args :
  arg_ok a -> Z.of_nat (length (provided (a :: args))) = a.1 + Z.of_nat (length (provided args)).
Proof.
  intros [Ha _]. change (provided (a :: args)) with (arg_bytes a ++ provided args).
  rewrite length_app. unfold arg_bytes. rewrite length_take. lia.
Qed.

Lemma sum_lengths args n :
  Forall arg_ok args -> 0 <= n -> n + Z.of_nat (length (provided args)) < 2 ^ 64 ->
  foldl (fun n a => u64 (n + a.1)) n args = n + Z.of_nat (length (provided args)).
Proof.
  intros Hargs. revert n. induction Hargs as [|a args Ha Hargs IH]; intros n Hn Hb; [cbn; lia|].
  rewrite length_provided in * by done. cbn [foldl]. destruct Ha as [Ha _].
  rewrite wrap_small by (unfold in_word; lia). rewrite IH by lia. lia.
Qed.

Lemma drbg_update_spec hc ctx s args :
  hc_ok hc -> drbg_rep ctx s -> Forall arg_ok args -> Z.of_nat (length (provided args)) < 2 ^ 60 ->
  let '(K, W) := SP800_90A.Update HMAC (provided args) (SP800_90A.Key s) (SP800_90A.Value s) in
  exists ctx', drbg_update hc ctx args = Some ctx' /\ drbg_rep ctx' (SP800_90A.Working K W (SP800_90A.counter s)).
Proof.
  intros Hhc Hrep Hargs Hlen. unfold drbg_update.
  destruct (update_turn_spec hc hc ctx s 0 args) as (h1 & ctx1 & -> & Hh1 & Hrep1); [done|done|done|by unfold in_word|done|done|].
  rewrite bind_some. cbv beta iota zeta. rewrite sum_lengths by (done || lia). rewrite Z.add_0_l.
  unfold SP800_90A.Update. cbv zeta. destruct (decide (provided args = [])) as [Hz|Hnz].
  - rewrite decide_True by (by rewrite Hz). by exists ctx1.
  - rewrite decide_False by (destruct (provided args); [done|simpl; lia]).
    destruct (update_turn_spec hc h1 ctx1 _ 1 args Hhc Hh1 Hrep1) as (h2 & ctx2 & -> & Hh2 & Hrep2);
      [by unfold in_word|done|done|]. rewrite bind_some. cbv beta iota. by exists ctx2.
Qed.
Lemma length_Blocks n K W :
  let '(temp, _, _) := SP800_90A.Blocks HMAC n K W in length temp = (outlen * n)%nat.
Proof.
  revert W. induction n as [|n IH]; intros W; cbn [SP800_90A.Blocks]; [cbn; lia|].
  specialize (IH (HMAC K W)). destruct (SP800_90A.Blocks HMAC n K (HMAC K W)) as [[temp Wn] rep].
  destruct (hmac_output K W) as [_ Hl]. rewrite length_app. lia.
Qed.

(** The number of blocks that are still needed, after one of them. *)
Lemma blocks_needed r :
  (0 < r)%nat ->
  ((r + (outlen - 1)) / outlen = S ((r - Nat.min r outlen + (outlen - 1)) / outlen))%nat.
Proof.
  pose proof law_output as Ho. intros Hr. destruct (decide (outlen <= r)%nat) as [Hle|Hlt].
  - rewrite Nat.min_r by lia. replace (r + (outlen - 1))%nat with (1 * outlen + (r - outlen + (outlen - 1)))%nat by lia.
    rewrite Nat.div_add_l by lia. lia.
  - rewrite Nat.min_l, Nat.sub_diag by lia. cbn [plus]. rewrite (Nat.div_small (outlen - 1)) by lia.
    symmetry. apply (Nat.div_unique _ _ 1 (r - 1)); lia.
Qed.

Lemma take_chunks (V' temp : list Z) r :
  length V' = outlen -> take (Nat.min r outlen) V' ++ take (r - Nat.min r outlen) temp = take r (V' ++ temp).
Proof.
  intros Hl. rewrite take_app, Hl. destruct (decide (outlen <= r)%nat).
  - rewrite Nat.min_r, !(take_ge V') by lia. done.
  - rewrite Nat.min_l by lia. f_equal. f_equal. lia.
Qed.

Lemma generate_loop_spec fuel hc ctx s r out (off : nat) :
  hc_ok hc -> drbg_rep ctx s -> (r < fuel)%nat -> (off + r <= length out)%nat ->
  let '(temp, W, repeated) :=
    SP800_90A.Blocks HMAC ((r + (outlen - 1)) / outlen) (SP800_90A.Key s) (SP800_90A.Value s) in
  if repeated : bool then generate_loop fuel hc ctx (Z.of_nat r) out (Z.of_nat off) = None else
  exists ctx', generate_loop fuel hc ctx (Z.of_nat r) out (Z.of_nat off) =
      Some (ctx', take off out ++ take r temp ++ drop (off + r) out) /\
    drbg_rep ctx' (SP800_90A.Working (SP800_90A.Key s) W (SP800_90A.counter s)).
Proof.
  intros Hhc. pose proof law_output as Ho. revert ctx s r out off.
  induction fuel as [|fuel IH]; intros ctx s r out off Hrep Hf Hout; [lia|].
  destruct (decide (r = 0)%nat) as [->|Hr].
  { rewrite Nat.add_0_l, (Nat.div_small (outlen - 1)) by lia. cbn [SP800_90A.Blocks generate_loop].
    exists ctx. split; [|by destruct s]. cbn. by rewrite Nat.add_0_r, take_drop. }
  rewrite blocks_needed by lia. cbn [SP800_90A.Blocks generate_loop].
  set (n := Nat.min r outlen). set (V' := HMAC (SP800_90A.Key s) (SP800_90A.Value s)).
  pose proof Hrep as (Hcu & Hk & Hv & Hc). rewrite decide_True by lia. rewrite Hcu. cbv zeta.
  rewrite (cchmac_holds hc _ _ _ _ Hhc Hk Hv), bind_some. fold V'.
  destruct (hmac_output (SP800_90A.Key s) (SP800_90A.Value s)) as [Hm1 Hm2]. fold V' in Hm1, Hm2.
  destruct (holds_store _ _ _ Hv Hm1 Hm2) as (v' & -> & Hv'). rewrite bind_some.
  pose proof Hv as (Hv1 & Hv2 & Hv3). pose proof Hv' as (Hv'1 & Hv'2 & Hv'3).
  rewrite cc_cmp_safe_spec by (done || lia). rewrite bind_some, Hv3, Hv'3.
  set (ctx1 := DrbgState cu (key ctx) v' (reseed_counter ctx)).
  assert (drbg_rep ctx1 (SP800_90A.Working (SP800_90A.Key s) V' (SP800_90A.counter s))) as Hrep1 by (by split_and!).
  set (out1 := take off out ++ take n V' ++ drop (off + n) out).
  assert (length out1 = length out) as Hl1.
  { unfold out1. rewrite !length_app, length_drop, !length_take. lia. }
  specialize (IH ctx1 _ (r - n)%nat out1 (off + n)%nat Hrep1 ltac:(lia) ltac:(lia)). cbn in IH. fold n.
  destruct (SP800_90A.Blocks HMAC ((r - n + (outlen - 1)) / outlen) (SP800_90A.Key s) V') as [[temp W] rep].
  destruct (decide (SP800_90A.Value s = V')) as [He|Hne].
  { rewrite bool_decide_true by done. cbn. by rewrite decide_True. }
  rewrite bool_decide_false by done. cbn [orb]. rewrite (decide_False (P := 1 = 0)) by done.
  replace (Z.min (Z.of_nat r) (output_size (di cu))) with (Z.of_nat n) by lia.
  rewrite cc_memcpy_spec by lia. rewrite bind_some, !Nat2Z.id.
  replace (Z.to_nat (Z.of_nat off + Z.of_nat n)) with (off + n)%nat by lia.
  assert (take n v' = take n V') as -> by (rewrite <-Hv'3, take_take; f_equal; lia). fold out1.
  replace (Z.of_nat r - Z.of_nat n) with (Z.of_nat (r - n)) by lia.
  replace (Z.of_nat off + Z.of_nat n) with (Z.of_nat (off + n)) by lia. fold ctx1.
  destruct rep; [done|]. destruct IH as (ctx' & -> & Hrep'). exists ctx'. split; [|done]. do 2 f_equal.
  rewrite <-(take_chunks V' temp r) by lia. fold n. rewrite <-app_assoc.
  assert (length (take off out ++ take n V') = (off + n)%nat) as Hlp by (rewrite length_app, !length_take; lia).
  unfold out1. rewrite !app_assoc, take_app_length' by done. rewrite <-!app_assoc. do 3 f_equal.
  replace (off + n + (r - n))%nat with (length (take off out ++ take n V') + (r - n))%nat by lia.
  rewrite app_assoc, <-drop_drop, drop_app_length, drop_drop. f_equal. lia.
Qed.
Lemma provided_one (d : list Z) : provided [(Z.of_nat (length d), d)] = d.
Proof. unfold provided, arg_bytes. cbn. by rewrite Nat2Z.id, firstn_all, app_nil_r. Qed.

Lemma arg_ok_all (d : list Z) : bytes_ok d -> arg_ok (Z.of_nat (length d), d).
Proof. intros Hd. split; [cbn; lia|done]. Qed.

Definition request_bytes_ok (r : request) : Prop :=
  match r with
  | Reseed_request entropy add => bytes_ok entropy /\ bytes_ok add
  | Generate_request out add => bytes_ok add
  end.

Lemma entropy_isvalid_spec n :
  entropy_isvalid (Z.of_nat n) (di cu) = bool_decide ((outlen / 2 <= n)%nat /\ Z.of_nat n <= 65536).
Proof.
  pose proof law_output as Ho. unfold entropy_isvalid, MIN_REQ_ENTROPY. change CCDRBG_MAX_ENTROPY_SIZE with 65536.
  assert (output_size (di cu) / 2 = Z.of_nat (outlen / 2)) as ->.
  { rewrite Nat2Z.inj_div, Z2Nat.id by lia. done. }
  repeat case_bool_decide; simpl; try done; lia.
Qed.

(** A request is served as the standard prescribes, panics included. *)
Lemma serve_reseed hc ctx s entropy add :
  hc_ok hc -> drbg_rep ctx s -> bytes_ok entropy -> bytes_ok add ->
  exists st out ctx' s', serve hc ctx (Reseed_request entropy add) = Some (st, out, ctx') /\
    prescribed HMAC outlen (strictFIPS cu) s (Reseed_request entropy add) = Some (st, out, s') /\ drbg_rep ctx' s'.
Proof.
  intros Hhc Hrep He Ha. unfold serve, prescribed, drbg_reseed. pose proof Hrep as (Hcu & _). rewrite Hcu. cbv zeta.
  rewrite entropy_isvalid_spec. unfold add_isvalid. change CCDRBG_MAX_ADDITIONALINPUT_SIZE with 65536.
  case_bool_decide as Hev; cbn [negb].
  2:{ rewrite bind_some. cbv beta iota. rewrite decide_False by naive_solver. by eexists _, _, _, _. }
  case_bool_decide as Hav; cbn [negb].
  2:{ rewrite bind_some. cbv beta iota. rewrite decide_False by naive_solver. by eexists _, _, _, _. }
  rewrite decide_True by naive_solver.
  set (args := [(Z.of_nat (length entropy), entropy); (Z.of_nat (length add), add)]).
  assert (provided args = entropy ++ add) as Hp.
  { unfold provided, arg_bytes, args. cbn. by rewrite !Nat2Z.id, !firstn_all, app_nil_r. }
  pose proof (drbg_update_spec hc ctx s args) as Hu. rewrite Hp in Hu. unfold SP800_90A.Reseed.
  destruct (SP800_90A.Update HMAC (entropy ++ add) _ _) as [K W].
  destruct Hu as (ctx' & -> & Hrep'); [done|done| |rewrite length_app; lia|].
  { repeat apply Forall_cons_2; [by apply arg_ok_all..|done]. }
  rewrite !bind_some. cbv beta iota. eexists _, _, _, _. split; [done|]. split; [done|].
  destruct Hrep' as (? & ? & ? & ?). by split_and!.
Qed.

Lemma serve_generate hc ctx s out add :
  hc_ok hc -> drbg_rep ctx s -> bytes_ok add -> 0 <= SP800_90A.counter s < 2 ^ 64 - 1 ->
  match prescribed HMAC outlen (strictFIPS cu) s (Generate_request out add) with
  | None => serve hc ctx (Generate_request out add) = None
  | Some (st, out', s') => exists ctx', serve hc ctx (Generate_request out add) = Some (st, out', ctx') /\ drbg_rep ctx' s'
  end.
Proof.
  intros Hhc Hrep Ha Hctr. pose proof Hrep as (Hcu & _ & _ & Hc). unfold serve, prescribed, drbg_generate.
  unfold add_isvalid. change CCDRBG_MAX_ADDITIONALINPUT_SIZE with 65536. change CCDRBG_MAX_REQUEST_SIZE with 65536.
  case_bool_decide as Hov; cbn [negb].
  2:{ rewrite bind_some. rewrite decide_True by lia. by eexists. }
  case_bool_decide as Hav; cbn [negb].
  2:{ rewrite bind_some. rewrite decide_True by lia. by eexists. }
  rewrite decide_False by lia. unfold must_reseed. rewrite Hcu, Hc. change CCDRBG_RESEED_INTERVAL with (2 ^ 48).
  destruct (decide (strictFIPS cu = true /\ 2 ^ 48 < SP800_90A.counter s)) as [[-> Hlt]|Hno].
  { rewrite bool_decide_true by done. cbn [andb]. rewrite bind_some. by eexists. }
  replace (strictFIPS cu && bool_decide (2 ^ 48 < SP800_90A.counter s)) with false
    by (destruct (strictFIPS cu); case_bool_decide; naive_solver).
  set (args := [(Z.of_nat (length add), add)]).
  assert (Forall arg_ok args) as Hargs by (repeat apply Forall_cons_2; [by apply arg_ok_all|done]).
  assert (provided args = add) as Hp by apply provided_one.
  unfold SP800_90A.Generate.
  set (KV := if decide (add = []) then (SP800_90A.Key s, SP800_90A.Value s) else _).
  assert (exists ctx1, (if decide (0 < Z.of_nat (length add)) then drbg_update hc ctx args else Some ctx) = Some ctx1 /\
    drbg_rep ctx1 (SP800_90A.Working KV.1 KV.2 (SP800_90A.counter s))) as (ctx1 & -> & Hrep1).
  { unfold KV. pose proof (drbg_update_spec hc ctx s args Hhc Hrep Hargs) as Hu. rewrite Hp in Hu.
    destruct (decide (add = [])) as [->|Hne]; [rewrite decide_False by (simpl; lia); exists ctx; by destruct s|].
    rewrite decide_True by (destruct add; [done|simpl; lia]).
    destruct (SP800_90A.Update HMAC add _ _) as [K W]. apply Hu. lia. }
  rewrite bind_some. destruct KV as [K W]. cbn [fst snd] in Hrep1.
  pose proof (generate_loop_spec (S (Z.to_nat (Z.of_nat (length out)))) hc ctx1 _ (length out) out 0 Hhc Hrep1
    ltac:(lia) ltac:(lia)) as Hg. cbn [SP800_90A.Key SP800_90A.Value SP800_90A.counter] in Hg. change (Z.of_nat 0) with 0 in Hg.
  destruct (SP800_90A.Blocks HMAC ((length out + (outlen - 1)) / outlen) K W) as [[temp Wn] rep].
  destruct rep.
  { destruct (SP800_90A.Update HMAC add K Wn). by rewrite Hg. }
  destruct Hg as (ctx2 & -> & Hrep2). rewrite bind_some. cbv beta iota.
  pose proof (drbg_update_spec hc ctx2 _ args Hhc Hrep2 Hargs) as Hu. rewrite Hp in Hu.
  cbn [SP800_90A.Key SP800_90A.Value SP800_90A.counter] in Hu.
  destruct (SP800_90A.Update HMAC add K Wn) as [K' W']. destruct Hu as (ctx3 & -> & Hrep3); [lia|].
  rewrite !bind_some. rewrite take_0, drop_ge, app_nil_r by lia. cbn [app]. eexists. split; [done|].
  destruct Hrep3 as (? & ? & ? & Hc3). split_and!; try done. cbn in *. rewrite Hc3, wrap_small; [done|]. unfold in_word. lia.
Qed.

Lemma serve_all_spec hc ctx s rs :
  hc_ok hc -> drbg_rep ctx s -> Forall request_bytes_ok rs ->
  0 < SP800_90A.counter s -> SP800_90A.counter s + Z.of_nat (length rs) < 2 ^ 64 ->
  serve_all (serve hc) ctx rs = serve_all (prescribed HMAC outlen (strictFIPS cu)) s rs.
Proof.
  intros Hhc Hrep Hrs. revert ctx s Hrep. induction Hrs as [|r rs Hr Hrs IH]; intros ctx s Hrep Hpos Hmax'; [done|].
  cbn [serve_all length] in *. destruct r as [entropy add|out add].
  - destruct Hr as [He Ha].
    destruct (serve_reseed hc ctx s entropy add Hhc Hrep He Ha) as (st & o & ctx' & s' & -> & Hp & Hrep').
    assert (0 < SP800_90A.counter s' <= SP800_90A.counter s).
    { revert Hp. cbn. unfold SP800_90A.Reseed. case_decide; [|naive_solver lia].
      destruct (SP800_90A.Update HMAC _ _ _). intros. simplify_eq. cbn. lia. }
    rewrite Hp, !bind_some. cbv beta iota. by rewrite (IH ctx' s') by (done || lia).
  - pose proof (serve_generate hc ctx s out add Hhc Hrep Hr ltac:(lia)) as Hg.
    destruct (prescribed HMAC outlen (strictFIPS cu) s (Generate_request out add)) as [[[st o] s']|] eqn:Hp; [|by rewrite Hg].
    destruct Hg as (ctx' & -> & Hrep').
    assert (0 < SP800_90A.counter s' <= SP800_90A.counter s + 1).
    { revert Hp. cbn. case_decide; [naive_solver lia|]. case_decide; [naive_solver lia|].
      unfold SP800_90A.Generate. destruct (if decide (add = []) then _ else _) as [? ?].
      destruct (SP800_90A.Blocks _ _ _ _) as [[? ?] []], (SP800_90A.Update _ _ _ _); [done|].
      intros. simplify_eq. cbn. lia. }
    rewrite !bind_some. cbv beta iota. by rewrite (IH ctx' s') by (done || lia).
Qed.
Lemma holds_memset a c :
  length a = 64%nat -> bytes_ok a -> byte_ok c ->
  exists a', cc_memset a 0 c (output_size (di cu)) = Some a' /\ holds a' (replicate outlen c).
Proof.
  intros Hl Ha Hc. pose proof law_output as Ho. unfold cc_memset.
  apply (holds_store a (take outlen a)); [done|by apply Forall_replicate|rewrite length_replicate; lia].
Qed.

(** Instantiation: the parameters are checked, and the state becomes the initial
    working state. *)
Lemma drbg_init_spec hc ctx entropy nonce ps :
  hc_ok hc -> length (key ctx) = 64%nat -> length (V ctx) = 64%nat -> bytes_ok (key ctx) -> bytes_ok (V ctx) ->
  bytes_ok entropy -> bytes_ok nonce -> bytes_ok ps -> Z.of_nat (length nonce) < 2 ^ 59 ->
  let valid := (outlen / 2 <= length entropy)%nat /\ Z.of_nat (length entropy) <= 65536 /\ Z.of_nat (length ps) <= 65536 in
  exists st ctx', drbg_init hc cu ctx (Z.of_nat (length entropy)) entropy (Z.of_nat (length nonce)) nonce
      (Z.of_nat (length ps)) ps = Some (st, ctx') /\
    (valid -> st = CCDRBG_STATUS_OK /\ drbg_rep ctx' (SP800_90A.Instantiate HMAC outlen entropy nonce ps)) /\
    (~ valid -> st = CCDRBG_STATUS_PARAM_ERROR /\ key ctx' = key ctx /\ V ctx' = V ctx /\
       reseed_counter ctx' = reseed_counter ctx).
Proof.
  intros Hhc Hk Hv Hko Hvo He Hno Hps Hnl valid. unfold drbg_init. cbv zeta.
  rewrite bool_decide_true by done. cbn [negb]. rewrite entropy_isvalid_spec.
  change CCDRBG_MAX_PSINPUT_SIZE with 65536.
  case_bool_decide as Hev; cbn [negb]; [|by eexists _, _; split; [done|]; split; [unfold valid; naive_solver|]].
  case_bool_decide as Hpv; cbn [negb]; [|by eexists _, _; split; [done|]; split; [unfold valid; naive_solver|]].
  cbn [key V custom reseed_counter].
  destruct (holds_memset (key ctx) 0 Hk Hko) as (k & -> & Hk0); [by unfold in_word|]. rewrite bind_some.
  destruct (holds_memset (V ctx) 1 Hv Hvo) as (v & -> & Hv0); [by unfold in_word|]. rewrite bind_some.
  set (args := [(Z.of_nat (length entropy), entropy); (Z.of_nat (length nonce), nonce); (Z.of_nat (length ps), ps)]).
  assert (provided args = entropy ++ nonce ++ ps) as Hp.
  { unfold provided, arg_bytes, args. cbn. by rewrite !Nat2Z.id, !firstn_all, app_nil_r. }
  pose proof (drbg_update_spec hc (DrbgState cu k v (reseed_counter ctx))
    (SP800_90A.Working (replicate outlen 0) (replicate outlen 1) (reseed_counter ctx)) args) as Hu.
  rewrite Hp in Hu. unfold SP800_90A.Instantiate. cbn [SP800_90A.Key SP800_90A.Value SP800_90A.counter] in Hu.
  destruct (SP800_90A.Update HMAC (entropy ++ nonce ++ ps) _ _) as [K W].
  destruct Hu as (ctx' & -> & Hrep'); [done|by split_and!| |rewrite !length_app; lia|].
  { repeat apply Forall_cons_2; [by apply arg_ok_all..|done]. }
  rewrite bind_some. eexists _, _. split; [done|]. split; [|unfold valid; naive_solver].
  intros _. split; [done|]. destruct Hrep' as (? & ? & ? & ?). by split_and!.
Qed.
End Refinement.

(** ** The theorem *)

(** C8. The HMAC-SHA-256 generator is the one of NIST SP 800-90A: once instantiated
    with valid parameters it answers every sequence of reseed and generate requests
    with the statuses and the bytes that the standard prescribes, stopping exactly
    where two consecutive blocks are equal; requests with invalid parameters, and in
    strict mode requests beyond the reseed interval, are refused without a change of
    state, and so is instantiation with invalid parameters. *)
Theorem drbg_sp800_90a (strict : bool) (hc : cchmac_ctx) (ctx : ccdrbg_nisthmac_state)
    (entropy nonce ps : list Z) (rs : list request) :
  length (data (digest_ctx hc)) = 64%nat ->
  length (key ctx) = 64%nat -> length (V ctx) = 64%nat -> bytes_ok (key ctx) -> bytes_ok (V ctx) ->
  bytes_ok entropy -> bytes_ok nonce -> bytes_ok ps -> Z.of_nat (length nonce) < 2 ^ 59 ->
  Forall request_bytes_ok rs -> Z.of_nat (length rs) < 2 ^ 63 ->
  let HMAC := rfc2104 FIPS180.sha256 64 in
  exists st ctx',
    drbg_init hc (Custom ccsha256_ltc_di strict) ctx (Z.of_nat (length entropy)) entropy
      (Z.of_nat (length nonce)) nonce (Z.of_nat (length ps)) ps = Some (st, ctx') /\
    if decide ((16 <= length entropy)%nat /\ Z.of_nat (length entropy) <= 65536 /\ Z.of_nat (length ps) <= 65536)
    then st = CCDRBG_STATUS_OK /\
      serve_all (serve hc) ctx' rs =
      serve_all (prescribed HMAC 32 strict) (SP800_90A.Instantiate HMAC 32 entropy nonce ps) rs
    else st = CCDRBG_STATUS_PARAM_ERROR /\ key ctx' = key ctx /\ V ctx' = V ctx /\
      reseed_counter ctx' = reseed_counter ctx.
Proof.
  intros Hhc Hk Hv Hko Hvo He Hno Hps Hnl Hrs Hlen HMAC. set (cu := Custom ccsha256_ltc_di strict).
  destruct (drbg_init_spec cu FIPS180.compress FIPS180.sha256 ltac:(done) hc ctx entropy nonce ps)
    as (st & ctx' & Hi & Hvalid & Hinvalid); [by rewrite Hhc|done..|].
  exists st, ctx'. split; [exact Hi|].
  change (Z.to_nat (output_size (di cu))) with 32%nat in *. change (Z.to_nat (block_size (di cu))) with 64%nat in *.
  change (32 / 2)%nat with 16%nat in *. case_decide as Hd; [|by apply Hinvalid].
  destruct (Hvalid Hd) as [-> Hrep]. split; [done|].
  rewrite (serve_all_spec cu FIPS180.compress FIPS180.sha256 ltac:(done) hc ctx' _ rs ltac:(by rewrite Hhc) Hrep Hrs); [done|..];
    unfold SP800_90A.Instantiate; destruct (SP800_90A.Update _ _ _ _); cbn; lia.
Qed.

Definition demo_drbg : ccdrbg_nisthmac_state :=
  DrbgState (Custom ccsha256_ltc_di false) (replicate 64 3) (replicate 64 5) 9.

Lemma drbg_sp800_90a_witness :
  exists st ctx',
    drbg_init demo_hc (Custom ccsha256_ltc_di true) demo_drbg (Z.of_nat (length (replicate 16 7))) (replicate 16 7)
      (Z.of_nat (length [1])) [1] (Z.of_nat (length (@nil Z))) [] = Some (st, ctx') /\ st = CCDRBG_STATUS_OK /\
    serve_all (serve demo_hc) ctx' [Generate_request (replicate 33 0) []] =
    serve_all (prescribed (rfc2104 FIPS180.sha256 64) 32 true)
      (SP800_90A.Instantiate (rfc2104 FIPS180.sha256 64) 32 (replicate 16 7) [1] []) [Generate_request (replicate 33 0) []].
Proof.
  destruct (drbg_sp800_90a true demo_hc demo_drbg (replicate 16 7) [1] [] [Generate_request (replicate 33 0) []])
    as (st & ctx' & Hi & Hr); try (apply (bool_decide_unpack _); vm_compute; exact I).
  - apply Forall_cons; split; [apply Forall_nil; exact I|apply Forall_nil; exact I].
  - rewrite decide_True in Hr by (simpl; lia). exists st, ctx'. split; [exact Hi|exact Hr].
Defined.
