(* ===== verification/Lockf.v ===== *)
(** * Advisory byte-range locks

    [bsd/kern/kern_lockf.c]: the list of locks of a vnode and the requests that wait
    for one of them.  A [struct lockf] is a record with the address it lives at; the
    list [v_lockf] is the list of the granted locks, [lf_next] being the order.  The
    requests that sleep in [lf_setlock] are a finite map from addresses to their
    record and their [lf_next], the lock that blocks them; [None] after
    [lf_wakelock] has woken them.  [lf_blkhd] is the list of the addresses queued on a
    lock.  A failed assertion, a panic and a list that would become cyclic are [None];
    [zalloc] with [Z_NOFAIL] always succeeds, and the boosts of importance inheritance
    are not modelled.

    This file has the operations on one vnode and shows that the list implements, for
    every owner, a map from byte offsets to lock types: setting and clearing a lock
    change exactly the range, and [lf_getblock] finds a lock if and only if another
    owner's one conflicts.  LockfWait has the requests that sleep. *)
From S2P Require Import Prelude.
From stdpp Require Import gmap.

Local Open Scope Z_scope.

(** ** Constants *)

Abbreviation F_RDLCK := (1)%Z.
Abbreviation F_UNLCK := (2)%Z.
Abbreviation F_WRLCK := (3)%Z.
Abbreviation F_WAIT := (0x010)%Z.
Abbreviation F_FLOCK := (0x020)%Z.
Abbreviation F_POSIX := (0x040)%Z.
Abbreviation F_WAKE1_SAFE := (0x100)%Z.
Abbreviation F_ABORT := (0x200)%Z.
Abbreviation F_OFD_LOCK := (0x400)%Z.
Definition OFF_MAX : Z := 0x7fffffffffffffff.

Definition has (flags f : Z) : bool := bool_decide (Z.land flags f <> 0).

Inductive overlap_t :=
  | OVERLAP_NONE
  | OVERLAP_EQUALS_LOCK
  | OVERLAP_CONTAINS_LOCK
  | OVERLAP_CONTAINED_BY_LOCK
  | OVERLAP_STARTS_BEFORE_LOCK
  | OVERLAP_ENDS_AFTER_LOCK.

#[export] Instance overlap_t_eq_dec : EqDecision overlap_t.
Proof. solve_decision. Defined.

(** ** Locks *)

Record lockf := Lockf {
  lf_addr : nat;
  lf_flags : Z;
  lf_type : Z;
  lf_start : Z;
  lf_end : Z;
  lf_id : Z;
  lf_owner : option Z;
  lf_blkhd : list nat
}.

#[export] Instance lockf_eq_dec : EqDecision lockf.
Proof. solve_decision. Defined.

Definition LF_END (l : lockf) : Z := if decide (lf_end l = -1) then OFF_MAX else lf_end l.

Definition set_start (l : lockf) (x : Z) : lockf :=
  Lockf (lf_addr l) (lf_flags l) (lf_type l) x (lf_end l) (lf_id l) (lf_owner l) (lf_blkhd l).
Definition set_end (l : lockf) (x : Z) : lockf :=
  Lockf (lf_addr l) (lf_flags l) (lf_type l) (lf_start l) x (lf_id l) (lf_owner l) (lf_blkhd l).
Definition set_type (l : lockf) (x : Z) : lockf :=
  Lockf (lf_addr l) (lf_flags l) x (lf_start l) (lf_end l) (lf_id l) (lf_owner l) (lf_blkhd l).
Definition set_flags (l : lockf) (x : Z) : lockf :=
  Lockf (lf_addr l) x (lf_type l) (lf_start l) (lf_end l) (lf_id l) (lf_owner l) (lf_blkhd l).
Definition set_blkhd (l : lockf) (q : list nat) : lockf :=
  Lockf (lf_addr l) (lf_flags l) (lf_type l) (lf_start l) (lf_end l) (lf_id l) (lf_owner l) q.
Definition set_addr (l : lockf) (a : nat) : lockf :=
  Lockf a (lf_flags l) (lf_type l) (lf_start l) (lf_end l) (lf_id l) (lf_owner l) (lf_blkhd l).

(** A request that sleeps, and what blocks it. *)
Record sleeper := Sleeper { sl_lock : lockf; sl_next : option nat }.

Abbreviation sleepers := (gmap nat sleeper).

Definition set_next (n : option nat) (s : sleeper) : sleeper := Sleeper (sl_lock s) n.

(** [TAILQ_FOREACH(tlock, q) tlock->lf_next = n]. *)
Definition point_to (n : option nat) (q : list nat) (Q : sleepers) : sleepers :=
  foldr (fun w Q => alter (set_next n) w Q) Q q.

(** ** Queues *)

(** The queue of [from] moves to the end of the queue of [to]; the result is [to],
    the queue of [from] being empty afterwards. *)
Definition lf_move_blocked (to from : lockf) (Q : sleepers) : lockf * sleepers :=
  (set_blkhd to (lf_blkhd to ++ lf_blkhd from), point_to (Some (lf_addr to)) (lf_blkhd from) Q).

(** All waiters are woken, or the first one, which inherits the others. *)
Definition lf_wakelock (listhead : lockf) (force_all : bool) (Q : sleepers) : lockf * sleepers :=
  let wake_all := force_all || negb (has (lf_flags listhead) F_WAKE1_SAFE) in
  match lf_blkhd listhead with
  | [] => (listhead, Q)
  | w :: rest =>
      (set_blkhd listhead [],
       if wake_all then point_to None (w :: rest) Q
       else
         let Q := alter (fun s => Sleeper (set_blkhd (sl_lock s) (lf_blkhd (sl_lock s) ++ rest)) None) w Q in
         match rest with
         | [] => Q
         | _ => match Q !! w with
                | Some s => point_to (Some w) (lf_blkhd (sl_lock s)) Q
                | None => Q
                end
         end)
  end.

(** ** lf_findoverlap *)

Inductive check := SELF | OTHERS.

#[export] Instance check_eq_dec : EqDecision check.
Proof. solve_decision. Defined.

(** The case for two locks that have a byte in common. *)
Definition overlap_case (lf lock : lockf) : option overlap_t :=
  let start := lf_start lock in
  let end_ := LF_END lock in
  let lfstart := lf_start lf in
  let lfend := LF_END lf in
  if decide (lfstart = start /\ lfend = end_) then Some OVERLAP_EQUALS_LOCK
  else if decide (lfstart <= start /\ end_ <= lfend) then Some OVERLAP_CONTAINS_LOCK
  else if decide (start <= lfstart /\ lfend <= end_) then Some OVERLAP_CONTAINED_BY_LOCK
  else if decide (lfstart < start /\ start <= lfend) then Some OVERLAP_STARTS_BEFORE_LOCK
  else if decide (start < lfstart /\ end_ < lfend) then Some OVERLAP_ENDS_AFTER_LOCK
  else None.

(** The case, the locks that were passed, and the list from [*overlap] on. *)
Fixpoint lf_findoverlap (lf : list lockf) (lock : lockf) (type : check) (found_self : bool)
    : option (overlap_t * list lockf * list lockf) :=
  match lf with
  | [] => Some (OVERLAP_NONE, [], [])
  | l :: lf' =>
      let next found := '(ov, passed, rest) ← lf_findoverlap lf' lock type found; Some (ov, l :: passed, rest) in
      if decide ((type = SELF /\ lf_id l <> lf_id lock) \/ (type = OTHERS /\ lf_id l = lf_id lock)) then
        if decide (type = SELF /\ found_self = true) then Some (OVERLAP_NONE, [], lf) else next found_self
      else
        let found_self := if decide (type = SELF) then true else found_self in
        if decide (LF_END l < lf_start lock \/ LF_END lock < lf_start l) then
          if decide (type = SELF /\ LF_END lock < lf_start l) then Some (OVERLAP_NONE, [], lf) else next found_self
        else ov ← overlap_case l lock; Some (ov, [], lf)
  end.

(** ** lf_getblock *)

(** [pid] is [proc_pid] of an owner. *)
Fixpoint getblock_loop (fuel : nat) (pid : option Z -> Z) (lf : list lockf) (lock : lockf) (matchpid : Z)
    : option (option lockf) :=
  match fuel with
  | O => None
  | S fuel =>
      '(ov, _, rest) ← lf_findoverlap lf lock OTHERS false;
      match ov, rest with
      | OVERLAP_NONE, _ => Some None
      | _, [] => None
      | _, overlap :: next =>
          if decide (matchpid <> -1 /\ has (lf_flags overlap) (Z.lor F_POSIX F_OFD_LOCK) = true /\
                     pid (lf_owner overlap) <> matchpid)
          then getblock_loop fuel pid next lock matchpid
          else if decide (lf_type lock = F_WRLCK \/ lf_type overlap = F_WRLCK) then Some (Some overlap)
          else getblock_loop fuel pid next lock matchpid
      end
  end.

Definition lf_getblock (pid : option Z -> Z) (chain : list lockf) (lock : lockf) (matchpid : Z)
    : option (option lockf) :=
  getblock_loop (S (length chain)) pid chain lock matchpid.

(** ** lf_split *)

(** What takes the place of [lock1], [lock2] being linked in; [a] is the address of a
    new structure. *)
Definition lf_split (a : nat) (lock1 lock2 : lockf) : option (list lockf) :=
  if decide (lf_start lock1 = lf_start lock2) then
    if decide (LF_END lock2 < OFF_MAX) then Some [lock2; set_start lock1 (LF_END lock2 + 1)] else None
  else if decide (LF_END lock1 = LF_END lock2) then
    if decide (0 < lf_start lock2) then Some [set_end lock1 (lf_start lock2 - 1); lock2] else None
  else
    if decide (LF_END lock2 < OFF_MAX /\ 0 < lf_start lock2) then
      Some [set_end lock1 (lf_start lock2 - 1); lock2;
            set_blkhd (set_addr (set_start lock1 (LF_END lock2 + 1)) a) []]
    else None.

(** ** lf_clearlock *)

(** The loop: [before] is the list up to [*prev], [lf] the rest. *)
Fixpoint clearlock_loop (fuel : nat) (a : nat) (before lf : list lockf) (unlock : lockf) (Q : sleepers)
    : option (list lockf * sleepers) :=
  match fuel with
  | O => None
  | S fuel =>
      '(ov, passed, rest) ← lf_findoverlap lf unlock SELF false;
      match ov, rest with
      | OVERLAP_NONE, _ => Some (before ++ passed ++ rest, Q)
      | _, [] => None
      | ov, overlap :: next =>
          let before := before ++ passed in
          let '(overlap, Q) := lf_wakelock overlap false Q in
          match ov with
          | OVERLAP_EQUALS_LOCK => Some (before ++ next, Q)
          | OVERLAP_CONTAINS_LOCK =>
              if decide (lf_start overlap = lf_start unlock) then
                if decide (LF_END unlock < OFF_MAX)
                then Some (before ++ set_start overlap (LF_END unlock + 1) :: next, Q) else None
              else
                pieces ← lf_split a overlap unlock;
                match pieces with
                | overlap :: _ :: split => Some (before ++ overlap :: split ++ next, Q)
                | _ => None
                end
          | OVERLAP_CONTAINED_BY_LOCK => clearlock_loop fuel a before next unlock Q
          | OVERLAP_STARTS_BEFORE_LOCK =>
              if decide (0 < lf_start unlock)
              then clearlock_loop fuel a (before ++ [set_end overlap (lf_start unlock - 1)]) next unlock Q else None
          | OVERLAP_ENDS_AFTER_LOCK =>
              if decide (LF_END unlock < OFF_MAX)
              then Some (before ++ set_start overlap (LF_END unlock + 1) :: next, Q) else None
          | OVERLAP_NONE => None
          end
      end
  end.

Definition lf_clearlock (a : nat) (chain : list lockf) (unlock : lockf) (Q : sleepers)
    : option (list lockf * sleepers) :=
  clearlock_loop (S (length chain)) a [] chain unlock Q.

(** ** lf_setlock, once nothing blocks the request *)

(** The list when the locks up to [*prev] are [before], then [lock] and [mid] if it has
    been linked. *)
Definition assemble (linked : bool) (before : list lockf) (lock : lockf) (mid rest : list lockf) : list lockf :=
  before ++ (if linked then lock :: mid else []) ++ rest.

(** The loop over the owner's overlapping locks: the list, and the lock that is to be
    coalesced.  Linking or freeing a request that is already linked would corrupt the
    list. *)
Fixpoint grant_loop (fuel : nat) (a : nat) (linked : bool) (before : list lockf) (lock : lockf)
    (mid block : list lockf) (Q : sleepers) : option (list lockf * nat * sleepers) :=
  match fuel with
  | O => None
  | S fuel =>
      let lkend := LF_END lock in
      '(ov, passed, rest) ← lf_findoverlap block lock SELF false;
      let before := if linked then before else before ++ passed in
      let mid := if linked then mid ++ passed else [] in
      match ov, rest with
      | OVERLAP_NONE, _ => Some (assemble true before lock mid rest, lf_addr lock, Q)
      | _, [] => None
      | ov, overlap :: next =>
          match ov with
          | OVERLAP_NONE => None
          | OVERLAP_EQUALS_LOCK =>
              let '(overlap, Q) :=
                if decide (lf_type lock = F_RDLCK /\ lf_type overlap = F_WRLCK)
                then lf_wakelock overlap true Q else (overlap, Q) in
              let '(overlap, Q) := lf_move_blocked (set_type overlap (lf_type lock)) lock Q in
              if linked then None else Some (before ++ overlap :: next, lf_addr overlap, Q)
          | OVERLAP_CONTAINS_LOCK =>
              if linked then None else
              if decide (lf_type overlap = lf_type lock) then
                let '(overlap, Q) := lf_move_blocked overlap lock Q in
                Some (before ++ overlap :: next, lf_addr overlap, Q)
              else if decide (lf_start overlap = lf_start lock) then
                if decide (lkend < OFF_MAX) then
                  let '(overlap, Q) := lf_wakelock (set_start overlap (lkend + 1)) true Q in
                  Some (before ++ lock :: overlap :: next, lf_addr lock, Q)
                else None
              else
                pieces ← lf_split a overlap lock;
                match pieces with
                | overlap :: pieces =>
                    let '(overlap, Q) := lf_wakelock overlap true Q in
                    Some (before ++ overlap :: pieces ++ next, lf_addr lock, Q)
                | [] => None
                end
          | OVERLAP_CONTAINED_BY_LOCK =>
              let '(lock, Q) :=
                if decide (lf_type lock = F_RDLCK /\ lf_type overlap = F_WRLCK)
                then (lock, (lf_wakelock overlap true Q).2) else lf_move_blocked lock overlap Q in
              grant_loop fuel a true before lock mid next Q
          | OVERLAP_STARTS_BEFORE_LOCK =>
              if linked then None else
              if decide (0 < lf_start lock) then
                let '(overlap, Q) := lf_wakelock (set_end overlap (lf_start lock - 1)) true Q in
                grant_loop fuel a true (before ++ [overlap]) lock [] next Q
              else None
          | OVERLAP_ENDS_AFTER_LOCK =>
              if decide (lkend < OFF_MAX) then
                let '(overlap, Q) := lf_wakelock (set_start overlap (lkend + 1)) true Q in
                Some (assemble true before lock mid (overlap :: next), lf_addr lock, Q)
              else None
          end
      end
  end.

(** The lock at an address, with what is before and after it. *)
Fixpoint split_at (a : nat) (chain : list lockf) : option (list lockf * lockf * list lockf) :=
  match chain with
  | [] => None
  | l :: chain =>
      if decide (lf_addr l = a) then Some ([], l, chain)
      else '(p, x, q) ← split_at a chain; Some (l :: p, x, q)
  end.

(** [before] is the list up to [lf], [cur] starts with [*lf]; [a] is the address of the
    lock.  [*lf = lock] drops what is between the two, and so does
    [lock->lf_next = ( *lf)->lf_next]. *)
Fixpoint coalesce_loop (fuel : nat) (a : nat) (before cur : list lockf) (Q : sleepers) : option (list lockf * sleepers) :=
  match fuel with
  | O => None
  | S fuel =>
      match cur with
      | [] => Some (before, Q)
      | l :: cur =>
          '(_, lock, _) ← split_at a (before ++ l :: cur);
          if decide (lf_addr l = a \/ lf_id l <> lf_id lock \/ lf_type l <> lf_type lock)
          then coalesce_loop fuel a (before ++ [l]) cur Q
          else if decide (LF_END l < OFF_MAX /\ LF_END l + 1 = lf_start lock) then
            '(_, lock, after) ← split_at a cur;
            let '(lock, Q) := lf_move_blocked (set_start lock (lf_start l)) l Q in
            coalesce_loop fuel a (before ++ [lock]) after Q
          else if decide (LF_END lock < OFF_MAX /\ LF_END lock + 1 = lf_start l) then
            '(first, lock, _) ← split_at a before;
            let '(lock, Q) := lf_move_blocked (set_end lock (lf_end l)) l Q in
            coalesce_loop fuel a (first ++ [lock]) cur Q
          else coalesce_loop fuel a (before ++ [l]) cur Q
      end
  end.

Definition lf_coalesce_adjacent (chain : list lockf) (a : nat) (Q : sleepers) : option (list lockf * sleepers) :=
  coalesce_loop (S (length chain)) a [] chain Q.

(** The part of [lf_setlock] after the scan. *)
Definition lf_grant (a : nat) (chain : list lockf) (lock : lockf) (Q : sleepers) : option (list lockf * sleepers) :=
  '(chain, l, Q) ← grant_loop (S (length chain)) a false [] lock [] chain Q;
  lf_coalesce_adjacent chain l Q.

(** ** What the list stands for *)

Definition covers (l : lockf) (b : Z) : Prop := lf_start l <= b <= LF_END l.

#[export] Instance covers_dec l b : Decision (covers l b).
Proof. unfold covers. apply _. Defined.

(** The type of the lock that [id] holds on byte [b]. *)
Fixpoint held (chain : list lockf) (id b : Z) : option Z :=
  match chain with
  | [] => None
  | l :: chain => if decide (lf_id l = id /\ covers l b) then Some (lf_type l) else held chain id b
  end.

(** The locks of one owner: disjoint and in order, from beyond [x] on. *)
Fixpoint own (id x : Z) (mid : list lockf) : Prop :=
  match mid with
  | [] => True
  | l :: mid => lf_id l = id /\ x < lf_start l /\ lf_start l <= LF_END l <= OFF_MAX /\ own id (LF_END l) mid
  end.

Definition foreign (id : Z) (chain : list lockf) : Prop := Forall (fun l => lf_id l <> id) chain.

(** A list of locks: the locks of an owner are together, disjoint and in order, and no
    structure is in it twice. *)
Definition chain_wf (chain : list lockf) : Prop :=
  (exists gs : list (Z * list lockf), chain = mjoin gs.*2 /\ NoDup gs.*1 /\ Forall (fun g => own g.1 (-1) g.2) gs) /\
  NoDup (lf_addr <$> chain).

(** A lock or a request with a range. *)
Definition lock_ok (l : lockf) : Prop := 0 <= lf_start l <= LF_END l /\ LF_END l <= OFF_MAX.

Create HintDb lockf.

(** *** Fields *)

Lemma LF_END_set_end l x : 0 <= x -> LF_END (set_end l x) = x.
Proof. intros Hx. unfold LF_END. cbn. by rewrite decide_False by lia. Qed.

Lemma LF_END_copy_end l l' : LF_END (set_end l (lf_end l')) = LF_END l'.
Proof. reflexivity. Qed.

Lemma LF_END_set_start l x : LF_END (set_start l x) = LF_END l.
Proof. reflexivity. Qed.

(** Two structures with the same owner, type and range. *)
Definition same_lock (l l' : lockf) : Prop :=
  lf_id l = lf_id l' /\ lf_type l = lf_type l' /\ lf_start l = lf_start l' /\ LF_END l = LF_END l'.

Lemma wakelock_same l f Q : exists q, (lf_wakelock l f Q).1 = set_blkhd l q.
Proof.
  unfold lf_wakelock. destruct (lf_blkhd l) as [|w q] eqn:E; cbn.
  - exists []. destruct l. cbn in *. by subst.
  - by exists [].
Qed.

Lemma move_blocked_same to from Q : exists q, (lf_move_blocked to from Q).1 = set_blkhd to q.
Proof. by eexists. Qed.

(** *** Locks of one owner *)

Section Own.
Context (id : Z).

Lemma own_mono x y mid : y <= x -> own id x mid -> own id y mid.
Proof. intros Hy. destruct mid as [|l mid]; [done|]. cbn. intuition lia. Qed.

(** Where the last of the locks ends. *)
Definition last_end (x : Z) (mid : list lockf) : Z := foldl (fun _ l => LF_END l) x mid.

Lemma own_app x mid1 mid2 : own id x (mid1 ++ mid2) <-> own id x mid1 /\ own id (last_end x mid1) mid2.
Proof.
  revert x. induction mid1 as [|l mid1 IH]; intros x; cbn; [naive_solver|]. rewrite IH. unfold last_end. cbn. tauto.
Qed.

Lemma own_last_end x mid : own id x mid -> x <= last_end x mid.
Proof.
  revert x. induction mid as [|l mid IH]; intros x; cbn; [lia|]. intros (_ & Hx & Hl & Hm).
  specialize (IH _ Hm). unfold last_end in *. cbn. lia.
Qed.

Lemma own_ids x mid : own id x mid -> Forall (fun l => lf_id l = id) mid.
Proof. revert x. induction mid as [|l mid IH]; intros x; cbn; [done|]. intros (? & _ & _ & ?). constructor; eauto. Qed.

Lemma own_starts x mid : own id x mid -> Forall (fun l => x < lf_start l <= LF_END l) mid.
Proof.
  revert x. induction mid as [|l mid IH]; intros x; cbn; [done|]. intros (_ & Hx & Hl & Hm).
  constructor; [lia|]. eapply Forall_impl; [apply (IH _ Hm)|]. cbn. lia.
Qed.

Lemma own_earlier x A l B : own id x (A ++ l :: B) -> Forall (fun y => lf_start y <= LF_END y < lf_start l) A.
Proof.
  revert x. induction A as [|y A IH]; intros x; cbn; [done|]. intros (_ & _ & Hy & Ho). constructor; [|eauto].
  apply own_app in Ho as [Ho (_ & Hl & _)]. pose proof (own_last_end _ _ Ho). lia.
Qed.

Lemma held_app chain1 chain2 i b :
  held (chain1 ++ chain2) i b = match held chain1 i b with Some t => Some t | None => held chain2 i b end.
Proof. induction chain1 as [|l chain1 IH]; cbn; [done|]. by case_decide. Qed.

Lemma held_foreign chain b : foreign id chain -> held chain id b = None.
Proof. induction 1 as [|l chain Hl _ IH]; cbn; [done|]. rewrite decide_False by naive_solver. done. Qed.

Lemma held_other x mid i b : own id x mid -> i <> id -> held mid i b = None.
Proof.
  intros Hm Hi. apply own_ids in Hm. induction Hm as [|l mid Hl _ IH]; cbn; [done|].
  rewrite decide_False by naive_solver. done.
Qed.

Lemma held_before x mid b : own id x mid -> b <= x -> held mid id b = None.
Proof.
  intros Hm Hb. apply own_starts in Hm. induction Hm as [|l mid Hl _ IH]; cbn; [done|].
  unfold covers in *. rewrite decide_False by lia. done.
Qed.

Lemma held_after x mid b : own id x mid -> last_end x mid < b -> held mid id b = None.
Proof.
  revert x. induction mid as [|l mid IH]; intros x; cbn; [done|]. intros (_ & Hx & Hl & Hm) Hb.
  pose proof (own_last_end _ _ Hm). unfold last_end in *. cbn in Hb. unfold covers.
  rewrite decide_False by lia. eauto.
Qed.
End Own.

(** *** The list seen by an owner *)

Lemma groups_foreign id (gs : list (Z * list lockf)) :
  Forall (fun g => own g.1 (-1) g.2) gs -> id ∉ gs.*1 -> foreign id (mjoin gs.*2).
Proof.
  induction 1 as [|[i m] gs Hg _ IH]; intros Hid; [by apply Forall_nil|]. cbn in *.
  apply not_elem_of_cons in Hid as [Hi Hid]. apply Forall_app. split; [|by apply IH].
  eapply Forall_impl; [by eapply own_ids|]. cbn. congruence.
Qed.

(** The list is the locks of the owner between those of others, and the owner's part
    may be replaced. *)
Lemma chain_focus chain id :
  chain_wf chain -> exists pre mid post, chain = pre ++ mid ++ post /\ foreign id pre /\ foreign id post /\
    own id (-1) mid /\ (mid = [] -> post = []) /\
    (forall mid', own id (-1) mid' -> NoDup (lf_addr <$> pre ++ mid' ++ post) -> chain_wf (pre ++ mid' ++ post)).
Proof.
  intros [(gs & -> & Hnd & Hgs) _]. destruct (decide (id ∈ gs.*1)) as [Hin|Hout].
  - apply list_elem_of_fmap in Hin as ([i mid] & -> & (g1 & g2 & ->)%list_elem_of_split). cbn in *.
    rewrite !fmap_app, !fmap_cons in *. cbn in *. rewrite join_app. cbn.
    apply NoDup_app in Hnd as (Hn1 & Hn12 & [Hi Hn2]%NoDup_cons).
    apply Forall_app in Hgs as [Hg1 [Hg Hg2]%Forall_cons]. cbn in Hg.
    assert (i ∉ g1.*1) as Hi1. { intros Hi1. apply (Hn12 i Hi1). by left. }
    pose proof (groups_foreign i g1 Hg1 Hi1) as Hf1. pose proof (groups_foreign i g2 Hg2 Hi) as Hf2.
    destruct mid as [|l mid].
    + exists (mjoin g1.*2 ++ mjoin g2.*2), [], []. rewrite !app_nil_r. split_and!; try done.
      { by apply Forall_app. }
      { by apply Forall_nil. }
      intros mid' Hm Hna. rewrite app_nil_r in *. split; [|done].
      exists (g1 ++ g2 ++ [(i, mid')]). rewrite !fmap_app, !join_app. cbn. rewrite app_nil_r, app_assoc.
      split; [done|]. split.
      * rewrite app_assoc. apply NoDup_app. split; [|split; [|apply NoDup_singleton]].
        -- apply NoDup_app. split_and!; [done| |done]. intros j Hj Hj2. apply (Hn12 j Hj). by right.
        -- intros j Hj ->%list_elem_of_singleton. apply elem_of_app in Hj as [?|?]; done.
      * rewrite !Forall_app. split_and!; [done|done|]. by apply Forall_singleton.
    + exists (mjoin g1.*2), (l :: mid), (mjoin g2.*2). split_and!; try done.
      intros mid' Hm Hna. split; [|done]. exists (g1 ++ (i, mid') :: g2).
      rewrite !fmap_app, !fmap_cons, join_app. cbn. split; [done|]. split.
      * apply NoDup_app. split_and!; [done| |by apply NoDup_cons]. done.
      * apply Forall_app. split; [done|]. by apply Forall_cons.
  - exists (mjoin gs.*2), [], []. rewrite !app_nil_r.
    pose proof (groups_foreign id gs Hgs Hout) as Hf. split_and!; try done.
    { by apply Forall_nil. }
    intros mid' Hm Hna. rewrite app_nil_r in *. split; [|done]. exists (gs ++ [(id, mid')]).
    rewrite !fmap_app, join_app. cbn. rewrite app_nil_r. split; [done|]. split.
    + apply NoDup_app. split_and!; [done| |apply NoDup_singleton]. intros j Hj ->%list_elem_of_singleton. done.
    + apply Forall_app. split; [done|]. by apply Forall_singleton.
Qed.

(** The types that the owner and the others hold, in the three parts. *)
Lemma held_focus id pre mid post i b :
  foreign id pre -> foreign id post -> own id (-1) mid ->
  held (pre ++ mid ++ post) i b = if decide (i = id) then held mid id b else held (pre ++ post) i b.
Proof.
  intros Hpre Hpost Hmid. rewrite !held_app. case_decide as Hi.
  - subst. rewrite (held_foreign id pre), (held_foreign id post) by done. by destruct (held mid id b).
  - by rewrite (held_other id (-1) mid i b Hmid Hi).
Qed.

(** *** lf_findoverlap *)

Section Find.
Context (lock : lockf).
Local Abbreviation id := (lf_id lock).

Lemma find_foreign pre rest :
  foreign id pre ->
  lf_findoverlap (pre ++ rest) lock SELF false =
  ('(ov, passed, rest) ← lf_findoverlap rest lock SELF false; Some (ov, pre ++ passed, rest)).
Proof.
  induction 1 as [|l pre Hl Hpre IH].
  - cbn. by destruct (lf_findoverlap rest lock SELF false) as [[[? ?] ?]|].
  - cbn [app lf_findoverlap]. rewrite decide_True by auto. rewrite decide_False by naive_solver. rewrite IH.
    by destruct (lf_findoverlap rest lock SELF false) as [[[? ?] ?]|].
Qed.

Lemma find_none post : foreign id post -> lf_findoverlap post lock SELF false = Some (OVERLAP_NONE, post, []).
Proof. intros Hf. rewrite <-(app_nil_r post) at 1. rewrite find_foreign by done. cbn. by rewrite app_nil_r. Qed.

(** Two locks with a byte in common. *)
Definition overlaps (l : lockf) : Prop := lf_start lock <= LF_END l /\ lf_start l <= LF_END lock.

(** The search stops behind the locks before the range: at the first that meets it,
    or at the place of the range. *)
Lemma find_own x mid post found :
  own id x mid -> foreign id post -> found = true \/ mid <> [] \/ post = [] ->
  exists ov A B, lf_findoverlap (mid ++ post) lock SELF found = Some (ov, A, B ++ post) /\ mid = A ++ B /\
    Forall (fun l => LF_END l < lf_start lock) A /\
    match ov with
    | OVERLAP_NONE => match B with [] => True | l :: _ => LF_END lock < lf_start l end
    | _ => exists l B', B = l :: B' /\ overlaps l /\ overlap_case l lock = Some ov
    end.
Proof.
  intros Hm Hp. revert x found Hm. induction mid as [|l mid IH]; intros x found Hm Hfound.
  - exists OVERLAP_NONE, [], []. cbn. split_and!; try done.
    destruct post as [|p post]; [done|]. destruct Hfound as [->|[?|?]]; [|done..].
    apply Forall_cons in Hp as [Hp _]. cbn. by rewrite decide_True, decide_True by auto.
  - cbn in Hm. destruct Hm as (Hid & Hx & Hl & Hm). cbn [app lf_findoverlap].
    rewrite decide_False by naive_solver. rewrite (decide_True (P := SELF = SELF)) by done. cbv zeta.
    case_decide as Hno.
    + case_decide as Hbeyond.
      * exists OVERLAP_NONE, [], (l :: mid). naive_solver.
      * destruct (IH (LF_END l) true Hm ltac:(auto)) as (ov & A & B & -> & -> & HA & Hov). cbn.
        exists ov, (l :: A), B. split_and!; [done|done|constructor; [naive_solver lia|done]|done].
    + assert (overlaps l) as Hmeet by (unfold overlaps; lia).
      assert (exists ov, overlap_case l lock = Some ov /\ ov <> OVERLAP_NONE) as (ov & Hov & Hne).
      { unfold overlap_case, overlaps in *. repeat case_decide; try (eexists; split; [done|done]); lia. }
      rewrite Hov. cbn. exists ov, [], (l :: mid). split_and!; [done|done|done|].
      destruct ov; try done; by eexists _, _.
Qed.
End Find.

(** What the cases mean. *)
Lemma overlap_case_inv l lock ov :
  overlap_case l lock = Some ov ->
  match ov with
  | OVERLAP_NONE => False
  | OVERLAP_EQUALS_LOCK => lf_start l = lf_start lock /\ LF_END l = LF_END lock
  | OVERLAP_CONTAINS_LOCK =>
      lf_start l <= lf_start lock /\ LF_END lock <= LF_END l /\
      (lf_start l < lf_start lock \/ LF_END lock < LF_END l)
  | OVERLAP_CONTAINED_BY_LOCK =>
      lf_start lock <= lf_start l /\ LF_END l <= LF_END lock /\
      (lf_start lock < lf_start l \/ LF_END l < LF_END lock)
  | OVERLAP_STARTS_BEFORE_LOCK => lf_start l < lf_start lock <= LF_END l /\ LF_END l < LF_END lock
  | OVERLAP_ENDS_AFTER_LOCK => lf_start lock < lf_start l /\ LF_END lock < LF_END l
  end.
Proof. unfold overlap_case. repeat case_decide; intros [= <-]; lia. Qed.

(** *** lf_clearlock *)

Lemma held_earlier id A s b : Forall (fun l => LF_END l < s) A -> s <= b -> held A id b = None.
Proof.
  induction 1 as [|l A Hl _ IH]; intros Hb; cbn; [done|]. unfold covers. rewrite decide_False by lia. auto.
Qed.

(** [mid'] is [mid] without the bytes from [s] to [e]. *)
Definition cleared (id s e x : Z) (mid mid' : list lockf) : Prop :=
  own id x mid' /\ forall b, held mid' id b = if decide (s <= b <= e) then None else held mid id b.

Section Cleared.
Context (id s e x : Z) (A : list lockf) (l : lockf) (B : list lockf).
Context (Hse : s <= e) (Hown : own id x (A ++ l :: B)) (HA : Forall (fun l => LF_END l < s) A).
Context (Hmeet1 : s <= LF_END l) (Hmeet2 : lf_start l <= e).

Lemma cleared_parts :
  own id x A /\ lf_id l = id /\ last_end x A < lf_start l /\ lf_start l <= LF_END l <= OFF_MAX /\ own id (LF_END l) B /\
  (A <> [] -> last_end x A < s).
Proof.
  apply own_app in Hown as (H1 & Hid & Hx & Hl & HB). split_and!; try done; try lia. intros Hne.
  destruct A as [|y A' _] using rev_ind; [done|]. apply Forall_app in HA as [_ [Hy _]%Forall_cons].
  unfold last_end. rewrite foldl_app. done.
Qed.

(** A piece of [l] to the left of the range, a piece to the right, and what is made of
    the locks behind. *)
Lemma cleared_pieces left right B' :
  (left = [] /\ s <= lf_start l \/
   exists l1, left = [l1] /\ lf_id l1 = id /\ lf_type l1 = lf_type l /\ lf_start l1 = lf_start l /\ LF_END l1 = s - 1 /\
     lf_start l < s) ->
  (right = [] /\ LF_END l <= e \/
   exists l2, right = [l2] /\ lf_id l2 = id /\ lf_type l2 = lf_type l /\ lf_start l2 = e + 1 /\ LF_END l2 = LF_END l /\
     e < LF_END l) ->
  cleared id s e (LF_END l) B B' -> cleared id s e x (A ++ l :: B) (A ++ left ++ right ++ B').
Proof.
  destruct cleared_parts as (HoA & Hid & Hx & Hl & HB & HAs). intros Hleft Hright [HoB Hheld]. split.
  - apply own_app. split; [done|].
    assert (own id (Z.max (last_end x A) (LF_END l)) B' -> own id (last_end x A) B') as Hmono
      by (apply own_mono; lia).
    destruct Hleft as [[-> Hs]|(l1 & -> & ? & ? & ? & ? & ?)];
      destruct Hright as [[-> Hr]|(l2 & -> & ? & ? & ? & Hl2 & ?)]; cbn.
    + apply (own_mono id (LF_END l)); [lia|done].
    + split_and!; [done|lia|lia|lia|]. by rewrite Hl2.
    + split_and!; [done|lia|lia|lia|]. apply (own_mono id (LF_END l)); [lia|done].
    + split_and!; [done|lia|lia|lia|done|lia|lia|lia|]. by rewrite Hl2.
  - intros b. rewrite !held_app. cbn [held].
    pose proof (held_earlier id A s b HA) as HAb. rewrite Hheld.
    pose proof (held_before id (LF_END l) B b HB) as HBb.
    destruct (held A id b) as [t|] eqn:HAt.
    { rewrite decide_False; [done|]. intros [Hb _]. by specialize (HAb Hb). }
    clear HAb HAt. unfold covers in *.
    destruct Hleft as [[-> Hs]|(l1 & -> & Hi1 & Ht1 & Hs1 & He1 & ?)];
      destruct Hright as [[-> Hr]|(l2 & -> & Hi2 & Ht2 & Hs2 & He2 & ?)]; cbn [held app]; unfold covers;
      rewrite ?Hid, ?Hi1, ?Hi2, ?Ht1, ?Ht2, ?Hs1, ?Hs2, ?He1, ?He2;
      repeat case_decide; try done; try lia; try (by rewrite HBb by lia).
Qed.
End Cleared.

Lemma cleared_gap id s e x A B :
  own id x (A ++ B) -> Forall (fun l => LF_END l < s) A ->
  match B with [] => True | l :: _ => e < lf_start l end -> cleared id s e x (A ++ B) (A ++ B).
Proof.
  intros Ho HA HB. split; [done|]. intros b. case_decide as Hb; [|done]. rewrite held_app.
  rewrite (held_earlier id A s b) by (done || lia). apply own_app in Ho as [_ Ho].
  destruct B as [|l B]; [done|]. cbn in Ho. destruct Ho as (Hid & Hx & Hl & HoB). cbn [held]. unfold covers.
  rewrite decide_False by lia. apply (held_before id (LF_END l)); [done|lia].
Qed.

(** The addresses of [mid'] are among those of [mid] and [new]. *)
Definition addrs_from (new : list nat) (mid mid' : list lockf) : Prop :=
  (lf_addr <$> mid') ⊆+ new ++ (lf_addr <$> mid).

Lemma addrs_self new mid : addrs_from new mid mid.
Proof. by apply submseteq_inserts_l. Qed.
#[local] Hint Resolve addrs_self : core.

Lemma addrs_replace new A l B pieces B' :
  addrs_from new B B' -> (lf_addr <$> pieces) ⊆+ [lf_addr l] ->
  addrs_from new (A ++ l :: B) (A ++ pieces ++ B').
Proof.
  unfold addrs_from. intros HB Hp. rewrite !fmap_app, fmap_cons.
  rewrite (Permutation_app_swap_app new). apply submseteq_app; [done|].
  rewrite <-Permutation_middle. change (lf_addr l :: new ++ (lf_addr <$> B)) with ([lf_addr l] ++ new ++ (lf_addr <$> B)).
  by apply submseteq_app.
Qed.

Lemma NoDup_addrs new pre mid mid' post :
  NoDup (new ++ (lf_addr <$> pre ++ mid ++ post)) -> addrs_from new mid mid' ->
  NoDup (lf_addr <$> pre ++ mid' ++ post).
Proof.
  intros Hnd Hsub.
  assert ((lf_addr <$> pre ++ mid' ++ post) ⊆+ new ++ (lf_addr <$> pre ++ mid ++ post)) as (k & Hk)%submseteq_Permutation.
  { rewrite !fmap_app. rewrite (Permutation_app_swap_app new). apply submseteq_app; [done|].
    rewrite (app_assoc new). by apply submseteq_app. }
  rewrite Hk in Hnd. by apply NoDup_app in Hnd as [? _].
Qed.

Section Clear.
Context (a : nat) (unlock : lockf) (Hok : lock_ok unlock).
Local Abbreviation id := (lf_id unlock).
Local Abbreviation s := (lf_start unlock).
Local Abbreviation e := (LF_END unlock).

Lemma clear_own fuel x before mid post Q :
  -1 <= x -> own id x mid -> foreign id post -> (length mid < fuel)%nat ->
  exists mid' Q', clearlock_loop fuel a before (mid ++ post) unlock Q = Some (before ++ mid' ++ post, Q') /\
    cleared id s e x mid mid' /\ addrs_from [a] mid mid'.
Proof.
  revert x before mid Q. induction fuel as [|fuel IH]; intros x before mid Q Hx0 Ho Hp Hf; [lia|].
  cbn [clearlock_loop]. destruct (decide (mid = [] /\ post <> [])) as [[-> Hne]|Hcase].
  { cbn [app]. rewrite find_none by done. exists [], Q.
    split_and!; [cbn; by rewrite app_nil_r|split; [done|by intros b; case_decide]|apply addrs_self]. }
  destruct (find_own unlock x mid post false Ho Hp) as (ov & A & B & -> & -> & HA & Hov).
  { destruct mid; [|by right; left]. right. right. destruct post; [done|]. by destruct Hcase. }
  rewrite bind_some. cbv beta iota.
  destruct (decide (ov = OVERLAP_NONE)) as [->|Hn].
  { exists (A ++ B), Q. rewrite <-!app_assoc. split_and!; [done|by apply cleared_gap|done]. }
  assert (exists l B', B = l :: B' /\ overlaps unlock l /\ overlap_case l unlock = Some ov) as (l & B' & -> & [Hm1 Hm2] & Hc)
    by (by destruct ov). clear Hov.
  destruct Hok as [[Hs0 Hse] HeM].
  destruct (cleared_parts id s x A l B' Ho HA) as (HoA & Hid & Hx & Hl & HB & _).
  pose proof (own_last_end id x A HoA) as Hxl.
  rewrite length_app in Hf. cbn [length] in Hf. cbn [app].
  destruct (wakelock_same l false Q) as [q Hq]. destruct (lf_wakelock l false Q) as [l0 Q0]. cbn in Hq. subst l0.
  pose proof (fun left right B'' => cleared_pieces id s e x A l B' Hse Ho HA Hm1 Hm2 left right B'') as Hpieces.
  assert (cleared id s e (LF_END l) B' B' \/ LF_END l < e) as Hrest.
  { destruct (decide (LF_END l < e)); [by right|left]. split; [done|]. intros b. case_decide; [|done].
    apply (held_before id (LF_END l)); [done|lia]. }
  apply overlap_case_inv in Hc. destruct ov; [done|..].
  - (* equal *)
    exists (A ++ B'), Q0. rewrite <-!app_assoc. split_and!; [done| |].
    + apply (Hpieces [] []); [left; split; [done|lia]|left; split; [done|lia]|]. destruct Hrest; [done|lia].
    + apply (addrs_replace [a] A l B' []); [apply addrs_self|apply submseteq_nil_l].
  - (* contains *)
    cbn [lf_start set_blkhd]. case_decide as Hst.
    + rewrite decide_True by lia. eexists (A ++ [set_start (set_blkhd l q) (e + 1)] ++ B'), Q0.
      rewrite <-!app_assoc. split_and!; [done| |].
      * apply (Hpieces [] [_]); [left; split; [done|lia]|right|destruct Hrest; [done|lia]].
        eexists. split; [done|]. split_and!; done || lia.
      * by apply (addrs_replace [a] A l B' [_]).
    + unfold lf_split. cbn [lf_start set_blkhd]. rewrite decide_False by done.
      change (LF_END (set_blkhd l q)) with (LF_END l). case_decide as Hen.
      * rewrite decide_True by lia. cbn [mbind option_bind].
        exists (A ++ [set_end (set_blkhd l q) (s - 1)] ++ [] ++ B'), Q0. rewrite <-!app_assoc. split_and!; [done| |].
        -- apply (Hpieces [_] []); [right|left; split; [done|lia]|destruct Hrest; [done|lia]].
           eexists. split; [done|]. rewrite LF_END_set_end by lia. cbn. split_and!; done || lia.
        -- by apply (addrs_replace [a] A l B' [_]).
      * rewrite decide_True by lia. cbn [mbind option_bind].
        exists (A ++ [set_end (set_blkhd l q) (s - 1)] ++
          [set_blkhd (set_addr (set_start (set_blkhd l q) (e + 1)) a) []] ++ B'), Q0.
        rewrite <-!app_assoc. split_and!; [done| |].
        -- apply (Hpieces [_] [_]); [right|right|destruct Hrest; [done|lia]].
           ++ eexists. split; [done|]. rewrite LF_END_set_end by lia. cbn. split_and!; done || lia.
           ++ eexists. split; [done|]. split_and!; done || lia.
        -- unfold addrs_from. rewrite !fmap_app, !fmap_cons. cbn.
           apply Permutation_submseteq. rewrite (Permutation_swap a (lf_addr l)). symmetry. apply Permutation_middle.
  - (* contained by *)
    destruct (IH (LF_END l) (before ++ A) B' Q0 ltac:(lia) HB Hp) as (B'' & Q' & -> & Hcl & Hadr); [lia|].
    exists (A ++ B''), Q'. rewrite <-!app_assoc. split_and!; [done| |].
    + apply (Hpieces [] []); [left; split; [done|lia]|left; split; [done|lia]|done].
    + apply (addrs_replace [a] A l B' []); [done|apply submseteq_nil_l].
  - (* starts before *)
    rewrite decide_True by lia.
    destruct (IH (LF_END l) ((before ++ A) ++ [set_end (set_blkhd l q) (s - 1)]) B' Q0 ltac:(lia) HB Hp)
      as (B'' & Q' & -> & Hcl & Hadr); [lia|].
    exists (A ++ [set_end (set_blkhd l q) (s - 1)] ++ [] ++ B''), Q'. rewrite <-!app_assoc. split_and!; [done| |].
    + apply (Hpieces [_] []); [right|left; split; [done|lia]|done].
      eexists. split; [done|]. rewrite LF_END_set_end by lia. cbn. split_and!; done || lia.
    + by apply (addrs_replace [a] A l B' [_]).
  - (* ends after *)
    rewrite decide_True by lia. exists (A ++ [set_start (set_blkhd l q) (e + 1)] ++ B'), Q0.
    rewrite <-!app_assoc. split_and!; [done| |].
    + apply (Hpieces [] [_]); [left; split; [done|lia]|right|destruct Hrest; [done|lia]].
      eexists. split; [done|]. split_and!; done || lia.
    + by apply (addrs_replace [a] A l B' [_]).
Qed.
End Clear.

(** *** Granting a lock *)

(** [mid'] is [mid] with type [t] on the bytes from [s] to [e]. *)
Definition granted (id s e t x : Z) (mid mid' : list lockf) : Prop :=
  own id x mid' /\ forall b, held mid' id b = if decide (s <= b <= e) then Some t else held mid id b.

Lemma granted_insert x mid A lock C :
  lock_ok lock -> x < lf_start lock -> Forall (fun l => LF_END l < lf_start lock) A ->
  cleared (lf_id lock) (lf_start lock) (LF_END lock) x mid (A ++ C) -> own (lf_id lock) (LF_END lock) C ->
  granted (lf_id lock) (lf_start lock) (LF_END lock) (lf_type lock) x mid (A ++ lock :: C).
Proof.
  intros [[Hs0 Hse] HeM] Hx HA [Ho Hheld] HC. split.
  - apply own_app in Ho as [HoA _]. apply own_app. split; [done|]. cbn. split_and!; try done.
    destruct A as [|y A' _] using rev_ind; [done|]. apply Forall_app in HA as [_ [Hy _]%Forall_cons].
    unfold last_end. by rewrite foldl_app.
  - intros b. specialize (Hheld b). rewrite held_app in *. cbn [held]. unfold covers.
    destruct (decide (lf_start lock <= b <= LF_END lock)) as [Hb|Hb].
    + rewrite (held_earlier _ A (lf_start lock) b) by (done || lia). by rewrite decide_True.
    + rewrite (decide_False (P := lf_id lock = lf_id lock /\ _)) by tauto. done.
Qed.

Section Grant.
Context (a : nat).

Lemma addrs_drop new A l B B' : addrs_from new B B' -> addrs_from new (A ++ l :: B) (A ++ B').
Proof. intros HB. apply (addrs_replace new A l B []); [done|apply submseteq_nil_l]. Qed.

(** Once the lock is linked, the locks behind it lose what it covers. *)
Lemma grant_linked fuel x before lock behind m post Q :
  lock_ok lock -> lf_start lock <= x -> own (lf_id lock) x m -> foreign (lf_id lock) post -> (length m < fuel)%nat ->
  exists q m' Q', grant_loop fuel a true before lock behind (m ++ post) Q =
      Some (before ++ set_blkhd lock q :: behind ++ m' ++ post, lf_addr lock, Q') /\
    cleared (lf_id lock) (lf_start lock) (LF_END lock) x m m' /\ own (lf_id lock) (LF_END lock) m' /\
    addrs_from [] m m'.
Proof.
  revert x before lock behind m Q. induction fuel as [|fuel IH]; intros x before lock behind m Q Hok Hsx Ho Hp Hf; [lia|].
  assert (forall l : lockf, l = set_blkhd l (lf_blkhd l)) as Hid by (by intros []).
  cbn [grant_loop]. destruct (decide (m = [] /\ post <> [])) as [[-> Hne]|Hcase].
  { cbn [app]. rewrite find_none by done. exists (lf_blkhd lock), [], Q. rewrite <-Hid. unfold assemble. cbn.
    rewrite app_nil_r. split_and!; [done| |done|done].
    split; [done|]. by intros b; case_decide. }
  destruct (find_own lock x m post false Ho Hp) as (ov & A & B & -> & -> & HA & Hov).
  { destruct m; [|by right; left]. right. right. destruct post; [done|]. by destruct Hcase. }
  rewrite bind_some. cbv beta iota zeta.
  assert (A = []) as ->.
  { destruct A as [|y A]; [done|]. cbn in Ho. apply Forall_cons in HA as [HA _]. lia. }
  cbn [app] in *. rewrite app_nil_r.
  destruct (decide (ov = OVERLAP_NONE)) as [->|Hn].
  { exists (lf_blkhd lock), B, Q. rewrite <-Hid. unfold assemble. cbn. split_and!; [done| | |done].
    - by apply (cleared_gap _ _ _ x []).
    - destruct B as [|l B]; [done|]. cbn in *. intuition lia. }
  assert (exists l B', B = l :: B' /\ overlaps lock l /\ overlap_case l lock = Some ov) as (l & B' & -> & [Hm1 Hm2] & Hc)
    by (by destruct ov). clear Hov.
  destruct Hok as [[Hs0 Hse] HeM]. pose proof Ho as (Hlid & Hx & Hl & HB). cbn [app length] in *.
  pose proof (fun right B'' => cleared_pieces _ _ _ x [] l B' Hse Ho HA Hm1 Hm2 [] right B'') as Hpieces.
  apply overlap_case_inv in Hc. destruct ov; [done|lia|lia| |lia|].
  - (* contained by *)
    assert (exists q0 Q0, (if decide (lf_type lock = F_RDLCK /\ lf_type l = F_WRLCK)
      then (lock, (lf_wakelock l true Q).2) else lf_move_blocked lock l Q) = (set_blkhd lock q0, Q0)) as (q0 & Q0 & ->).
    { case_decide; [|by eexists _, _]. exists (lf_blkhd lock). eexists. by rewrite <-Hid. }
    destruct (IH (LF_END l) before (set_blkhd lock q0) behind B' Q0) as (q & m' & Q' & -> & Hcl & Ho' & Hadr); try done; [lia..|].
    exists q, m', Q'. split_and!; [done| |done|by apply (addrs_drop [] [])].
    apply (Hpieces []); [left; split; [done|lia]|left; split; [done|lia]|done].
  - (* ends after *)
    rewrite decide_True by lia. destruct (wakelock_same (set_start l (LF_END lock + 1)) true Q) as [q0 Hq0].
    destruct (lf_wakelock _ true Q) as [l0 Q0]. cbn in Hq0. subst l0.
    exists (lf_blkhd lock), (set_blkhd (set_start l (LF_END lock + 1)) q0 :: B'), Q0. rewrite <-Hid.
    unfold assemble. cbn [app]. split_and!; [done| | |by apply (addrs_replace [] [] l B' [_])].
    + apply (Hpieces [_]); [left; split; [done|lia]|right|].
      * eexists. split; [done|]. split_and!; done || lia.
      * split; [done|]. intros b. case_decide; [|done]. apply (held_before _ (LF_END l)); [done|lia].
    + cbn. change (LF_END (set_blkhd _ _)) with (LF_END l). split_and!; [done|lia|lia|lia|done].
Qed.

Context (lock : lockf) (Hok : lock_ok lock).
Local Abbreviation id := (lf_id lock).
Local Abbreviation s := (lf_start lock).
Local Abbreviation e := (LF_END lock).
Local Abbreviation earlier := (Forall (fun l => LF_END l < s)).

(** What the loop leaves of the owner's locks: the list, and the address of the lock
    to coalesce. *)
Definition grant_ok (mid mid' : list lockf) (l : nat) : Prop :=
  granted id s e (lf_type lock) (-1) mid mid' /\ addrs_from [a; lf_addr lock] mid mid' /\ l ∈ lf_addr <$> mid'.

Lemma grant_ok_link mid A q C :
  earlier A -> cleared id s e (-1) mid (A ++ C) -> own id e C -> addrs_from [a] mid (A ++ C) ->
  grant_ok mid (A ++ set_blkhd lock q :: C) (lf_addr lock).
Proof.
  intros HA Hc HC Hadr. split_and!.
  - apply (granted_insert (-1) mid A (set_blkhd lock q) C); try done. destruct Hok. cbn. lia.
  - unfold addrs_from in *. rewrite fmap_app, fmap_cons, <-Permutation_middle, <-fmap_app. cbn.
    rewrite (Permutation_swap (lf_addr lock) a). by apply submseteq_skip.
  - rewrite fmap_app, fmap_cons. set_solver.
Qed.

Lemma grant_ok_replace A l l' B :
  own id (-1) (A ++ l :: B) -> earlier A -> same_lock l' (set_type l (lf_type lock)) -> lf_addr l' = lf_addr l ->
  lf_start l = s -> LF_END l = e -> grant_ok (A ++ l :: B) (A ++ l' :: B) (lf_addr l').
Proof.
  intros Ho HA (Hi & Ht & Hst & Hen) Ha Hs He. destruct Hok as [Hse HeM]. cbn in *.
  destruct (cleared_parts id s (-1) A l B Ho HA) as (HoA & Hid & Hx & Hl & HB & _). split_and!.
  - assert (granted (lf_id l') (lf_start l') (LF_END l') (lf_type l') (-1) (A ++ l :: B) (A ++ l' :: B)) as Hg.
    { assert (LF_END l' = LF_END l) as Hen' by done.
      apply granted_insert; rewrite ?Hi, ?Hst, ?Hen', ?Hid, ?Hs; try done; [unfold lock_ok; lia|lia| ].
      apply (cleared_pieces id s (LF_END l) (-1) A l B ltac:(lia) Ho HA ltac:(lia) ltac:(lia) [] []);
        [left; split; [done|lia]..|]. split; [done|]. intros b. case_decide; [|done].
      apply (held_before id (LF_END l)); [done|lia]. }
    rewrite Hi, Ht, Hst, Hid, Hs, Hen in Hg. change (LF_END (set_type l _)) with (LF_END l) in Hg. by rewrite He in Hg.
  - apply (addrs_replace _ A l B [l']); [done|]. cbn. by rewrite Ha.
  - rewrite fmap_app, fmap_cons. set_solver.
Qed.
Lemma grant_ok_within A l q B :
  own id (-1) (A ++ l :: B) -> earlier A -> lf_type l = lf_type lock -> lf_start l <= s -> e <= LF_END l ->
  grant_ok (A ++ l :: B) (A ++ set_blkhd l q :: B) (lf_addr l).
Proof.
  intros Ho HA Ht Hs He. destruct Hok as [Hse HeM].
  destruct (cleared_parts id s (-1) A l B Ho HA) as (HoA & Hid & Hx & Hl & HB & _). split_and!.
  - split.
    + apply own_app in Ho as [? Ho]. by apply own_app.
    + intros b. rewrite !held_app. change (held (set_blkhd l q :: B) id b) with (held (l :: B) id b).
      case_decide as Hb; [|done]. rewrite (held_earlier id A s b) by (done || lia). cbn. unfold covers.
      rewrite decide_True by (split; [done|lia]). by rewrite Ht.
  - by apply (addrs_replace _ A l B [_]).
  - rewrite fmap_app, fmap_cons. set_solver.
Qed.

(** A lock of the owner is replaced by what remains to its left and to its right. *)
Lemma grant_ok_pieces A l B left right m q :
  own id (-1) (A ++ l :: B) -> earlier A -> overlaps lock l ->
  (left = [] /\ s <= lf_start l \/
   exists l1, left = [l1] /\ lf_id l1 = id /\ lf_type l1 = lf_type l /\ lf_start l1 = lf_start l /\ LF_END l1 = s - 1 /\
     lf_start l < s) ->
  (right = [] /\ LF_END l <= e \/
   exists l2, right = [l2] /\ lf_id l2 = id /\ lf_type l2 = lf_type l /\ lf_start l2 = e + 1 /\ LF_END l2 = LF_END l /\
     e < LF_END l) ->
  cleared id s e (LF_END l) B m -> own id (Z.max e (LF_END l)) m -> addrs_from [] B m ->
  (lf_addr <$> left ++ right) ⊆+ [a; lf_addr l] ->
  grant_ok (A ++ l :: B) (A ++ left ++ set_blkhd lock q :: right ++ m) (lf_addr lock).
Proof.
  intros Ho HA [Hm1 Hm2] Hleft Hright HB Hm Hadr Hlr. pose proof Hok as [[Hs0 Hse] HeM].
  destruct (cleared_parts id s (-1) A l B Ho HA) as (_ & _ & _ & Hl & _). rewrite app_assoc.
  apply grant_ok_link.
  - apply Forall_app. split; [done|]. destruct Hleft as [[-> _]|(l1 & -> & _ & _ & _ & Hl1 & _)]; [done|].
    apply Forall_singleton. lia.
  - rewrite <-app_assoc. by apply cleared_pieces.
  - destruct Hright as [[-> ?]|(l2 & -> & ? & _ & ? & Hl2 & ?)]; cbn.
    + by rewrite Z.max_l in Hm by lia.
    + rewrite Z.max_r in Hm by lia. split_and!; [done|lia|lia|lia|]. by rewrite Hl2.
  - unfold addrs_from in *. rewrite !fmap_app, fmap_cons in *. rewrite <-!app_assoc.
    rewrite (Permutation_app_swap_app [a]). apply submseteq_app; [done|]. rewrite app_assoc.
    change (lf_addr l :: (lf_addr <$> B)) with ([lf_addr l] ++ (lf_addr <$> B)). rewrite (app_assoc [a]).
    by apply submseteq_app.
Qed.

(** The case of a lock that contains the request, with another type. *)
Lemma grant_contains pre A l B post Q :
  own id (-1) (A ++ l :: B) -> earlier A -> overlaps lock l -> lf_start l <= s -> e <= LF_END l ->
  lf_start l < s \/ e < LF_END l ->
  exists mid' Q', (if decide (lf_start l = s) then
      if decide (e < OFF_MAX) then
        let '(overlap, Q) := lf_wakelock (set_start l (e + 1)) true Q in
        Some (pre ++ lock :: overlap :: B ++ post, lf_addr lock, Q)
      else None
    else
      pieces ← lf_split a l lock;
      match pieces with
      | overlap :: pieces =>
          let '(overlap, Q) := lf_wakelock overlap true Q in
          Some (pre ++ overlap :: pieces ++ B ++ post, lf_addr lock, Q)
      | [] => None
      end) = Some (pre ++ mid' ++ post, lf_addr lock, Q') /\ grant_ok (A ++ l :: B) (A ++ mid') (lf_addr lock).
Proof.
  intros Ho HA Hm Hs He Hne. pose proof Hok as [[Hs0 Hse] HeM].
  destruct (cleared_parts id s (-1) A l B Ho HA) as (HoA & Hid & Hx & Hl & HB & _).
  pose proof (own_last_end id (-1) A HoA) as Hxl.
  assert (lock = set_blkhd lock (lf_blkhd lock)) as Hself by (by destruct lock).
  assert (cleared id s e (LF_END l) B B) as Hrest.
  { split; [done|]. intros b. case_decide; [|done]. apply (held_before id (LF_END l)); [done|lia]. }
  assert (own id (Z.max e (LF_END l)) B) as HB' by by rewrite Z.max_r by lia.
  pose proof (fun left right Hl Hr => grant_ok_pieces A l B left right B (lf_blkhd lock) Ho HA Hm Hl Hr Hrest HB'
    (addrs_self [] B)) as Hpieces. rewrite <-Hself in Hpieces.
  destruct (decide (lf_start l = s)) as [Hst|Hst]; [|unfold lf_split; rewrite decide_False by done;
    destruct (decide (LF_END l = e)) as [Hen|Hen]]; rewrite decide_True by lia; rewrite ?bind_some; cbv iota.
  - destruct (wakelock_same (set_start l (e + 1)) true Q) as [q Hq]. destruct (lf_wakelock _ true Q) as [l0 Q0].
    cbn in Hq. subst l0. exists ([] ++ lock :: [set_blkhd (set_start l (e + 1)) q] ++ B), Q0. split; [done|].
    apply Hpieces; [left; split; [done|lia]|right|].
    + eexists. split; [done|]. split_and!; done || lia.
    + cbn. by apply submseteq_cons.
  - destruct (wakelock_same (set_end l (s - 1)) true Q) as [q Hq]. destruct (lf_wakelock _ true Q) as [l0 Q0].
    cbn in Hq. subst l0. exists ([set_blkhd (set_end l (s - 1)) q] ++ lock :: [] ++ B), Q0. split; [done|].
    apply Hpieces; [right|left; split; [done|lia]|].
    + eexists. split; [done|]. change (LF_END (set_blkhd ?x _)) with (LF_END x).
      rewrite LF_END_set_end by lia. split_and!; done || lia.
    + cbn. by apply submseteq_cons.
  - destruct (wakelock_same (set_end l (s - 1)) true Q) as [q Hq]. destruct (lf_wakelock _ true Q) as [l0 Q0].
    cbn in Hq. subst l0. eexists ([set_blkhd (set_end l (s - 1)) q] ++ lock :: [_] ++ B), Q0. split; [done|].
    apply Hpieces; [right|right|].
    + eexists. split; [done|]. change (LF_END (set_blkhd ?x _)) with (LF_END x).
      rewrite LF_END_set_end by lia. split_and!; done || lia.
    + eexists. split; [done|]. split_and!; done || lia.
    + cbn. by rewrite Permutation_swap.
Qed.

(** The loop from the head of the list on. *)
Lemma grant_own fuel pre mid post Q :
  foreign id pre -> own id (-1) mid -> foreign id post -> (mid = [] -> post = []) -> (length mid < fuel)%nat ->
  exists mid' l Q', grant_loop fuel a false [] lock [] (pre ++ mid ++ post) Q = Some (pre ++ mid' ++ post, l, Q') /\
    grant_ok mid mid' l.
Proof.
  intros Hpre Ho Hp Hcase Hf. destruct fuel as [|fuel]; [lia|]. cbn [grant_loop]. rewrite find_foreign by done.
  destruct (find_own lock (-1) mid post false Ho Hp) as (ov & A & B & -> & -> & HA & Hov).
  { destruct mid; [right; right; auto|by right; left]. }
  rewrite !bind_some. cbv beta iota zeta. cbn [app]. pose proof Hok as [[Hs0 Hse] HeM].
  assert (lock = set_blkhd lock (lf_blkhd lock)) as Hself by (by destruct lock).
  destruct (decide (ov = OVERLAP_NONE)) as [->|Hn].
  { exists (A ++ lock :: B), (lf_addr lock), Q. unfold assemble. cbn. rewrite <-!app_assoc. split; [done|].
    rewrite Hself. apply grant_ok_link; [done|by apply cleared_gap| |done].
    apply own_app in Ho as [_ Ho]. destruct B as [|l B]; [done|]. cbn in *. intuition lia. }
  assert (exists l B', B = l :: B' /\ overlaps lock l /\ overlap_case l lock = Some ov) as (l & B' & -> & [Hm1 Hm2] & Hc)
    by (by destruct ov). clear Hov.
  destruct (cleared_parts id s (-1) A l B' Ho HA) as (HoA & Hid & Hx & Hl & HB & _).
  pose proof (own_last_end id (-1) A HoA) as Hxl.
  rewrite length_app in Hf. cbn [length] in Hf. cbn [app].
  pose proof (fun left right B'' q => grant_ok_pieces A l B' left right B'' q Ho HA (conj Hm1 Hm2)) as Hpieces.
  apply overlap_case_inv in Hc. destruct ov; [done|..].
  - (* equal *)
    assert (exists q Q0, (if decide (lf_type lock = F_RDLCK /\ lf_type l = F_WRLCK)
      then lf_wakelock l true Q else (l, Q)) = (set_blkhd l q, Q0)) as (q & Q0 & ->).
    { case_decide; [|exists (lf_blkhd l), Q; by destruct l]. destruct (wakelock_same l true Q) as [q Hq].
      destruct (lf_wakelock l true Q) as [l0 Q0]. cbn in Hq. subst. by eexists _, _. }
    eexists (A ++ _ :: B'), _, _. unfold lf_move_blocked. cbv beta iota zeta. rewrite <-!app_assoc. split; [done|].
    apply (grant_ok_replace A l); try tauto; done.
  - (* contains *)
    case_decide as Ht.
    + eexists (A ++ _ :: B'), _, _. unfold lf_move_blocked. cbv beta iota zeta. rewrite <-!app_assoc. split; [done|].
      apply (grant_ok_within A l); done || lia.
    + destruct (grant_contains (pre ++ A) A l B' post Q) as (mid' & Q' & Hrun & Hg); [done|done|done|lia..|].
      exists (A ++ mid'), (lf_addr lock), Q'. rewrite <-!app_assoc in *. done.
  - (* contained by *)
    assert (exists q0 Q0, (if decide (lf_type lock = F_RDLCK /\ lf_type l = F_WRLCK)
      then (lock, (lf_wakelock l true Q).2) else lf_move_blocked lock l Q) = (set_blkhd lock q0, Q0)) as (q0 & Q0 & ->).
    { case_decide; [|by eexists _, _]. exists (lf_blkhd lock). eexists. by rewrite <-Hself. }
    destruct (grant_linked fuel (LF_END l) (pre ++ A) (set_blkhd lock q0) [] B' post Q0)
      as (q & m' & Q' & -> & Hcl & Ho' & Hadr); try done; [lia|].
    eexists (A ++ [] ++ set_blkhd lock q :: [] ++ m'), _, _. split; [cbn; by rewrite <-!app_assoc|].
    apply Hpieces; [left; split; [done|lia]..|done| |done|apply submseteq_nil_l]. by rewrite Z.max_l by lia.
  - (* starts before *)
    rewrite decide_True by lia. destruct (wakelock_same (set_end l (s - 1)) true Q) as [q0 Hq].
    destruct (lf_wakelock _ true Q) as [l0 Q0]. cbn in Hq. subst l0.
    destruct (grant_linked fuel (LF_END l) ((pre ++ A) ++ [set_blkhd (set_end l (s - 1)) q0]) lock [] B' post Q0)
      as (q & m' & Q' & -> & Hcl & Ho' & Hadr); try done; [lia|].
    eexists (A ++ [_] ++ set_blkhd lock q :: [] ++ m'), _, _. split; [cbn; by rewrite <-!app_assoc|].
    apply Hpieces; [right|left; split; [done|lia]|done| |done|cbn; by apply submseteq_cons].
    + eexists. split; [done|]. change (LF_END (set_blkhd ?x _)) with (LF_END x).
      rewrite LF_END_set_end by lia. split_and!; done || lia.
    + by rewrite Z.max_l by lia.
  - (* ends after *)
    rewrite decide_True by lia. destruct (wakelock_same (set_start l (e + 1)) true Q) as [q0 Hq].
    destruct (lf_wakelock _ true Q) as [l0 Q0]. cbn in Hq. subst l0.
    eexists (A ++ [] ++ lock :: [_] ++ B'), _, _. split; [unfold assemble; cbn; by rewrite <-!app_assoc|].
    rewrite Hself. apply Hpieces; [left; split; [done|lia]|right| | |done|cbn; by apply submseteq_cons].
    + eexists. split; [done|]. split_and!; done || lia.
    + split; [done|]. intros b. case_decide; [|done]. apply (held_before id (LF_END l)); [done|lia].
    + by rewrite Z.max_r by lia.
Qed.
End Grant.

(** *** lf_coalesce_adjacent *)

Lemma split_at_app a p lk q : a ∉ lf_addr <$> p -> lf_addr lk = a -> split_at a (p ++ lk :: q) = Some (p, lk, q).
Proof.
  intros Hp Ha. induction p as [|l p IH]; cbn in *.
  - by rewrite decide_True.
  - apply not_elem_of_cons in Hp as [Hl Hp]. rewrite decide_False by done. by rewrite IH.
Qed.

(** Two adjacent locks of a type are one. *)
Lemma own_merge id x A l1 l2 l B :
  own id x (A ++ l1 :: l2 :: B) -> LF_END l1 + 1 = lf_start l2 -> lf_type l1 = lf_type l2 ->
  lf_id l = id -> lf_type l = lf_type l1 -> lf_start l = lf_start l1 -> LF_END l = LF_END l2 ->
  own id x (A ++ l :: B) /\ forall i b, held (A ++ l :: B) i b = held (A ++ l1 :: l2 :: B) i b.
Proof.
  intros Ho Had Ht Hi Hty Hs He. apply own_app in Ho as (HA & H1 & ? & ? & H2 & ? & ? & HB). split.
  - apply own_app. cbn. rewrite He. split_and!; done || lia.
  - intros i b. rewrite !held_app. cbn. rewrite Hty, Ht. destruct (held A i b); [done|].
    unfold covers. repeat case_decide; done || lia.
Qed.

(** One merge, with the queues. *)
Inductive merge_step : list lockf * sleepers -> list lockf * sleepers -> Prop :=
  | merge_prev A l lock B Q :
      merge_step (A ++ l :: lock :: B, Q)
        (A ++ (lf_move_blocked (set_start lock (lf_start l)) l Q).1 :: B, (lf_move_blocked (set_start lock (lf_start l)) l Q).2)
  | merge_next A lock l B Q :
      merge_step (A ++ lock :: l :: B, Q)
        (A ++ (lf_move_blocked (set_end lock (lf_end l)) l Q).1 :: B, (lf_move_blocked (set_end lock (lf_end l)) l Q).2).

Section Coalesce.
Context (a : nat) (id : Z).

(** A lock that is left alone when the one at [a] is [lock]. *)
Definition apart (lock l : lockf) : Prop :=
  lf_addr l = a \/ lf_id l <> lf_id lock \/ lf_type l <> lf_type lock \/
  (LF_END l + 1 <> lf_start lock /\ LF_END lock + 1 <> lf_start l).

Lemma coalesce_skip lock c before cur fuel Q p q :
  split_at a (before ++ c ++ cur) = Some (p, lock, q) -> Forall (apart lock) c -> (length (c ++ cur) < fuel)%nat ->
  exists fuel', (length cur < fuel')%nat /\
    coalesce_loop fuel a before (c ++ cur) Q = coalesce_loop fuel' a (before ++ c) cur Q.
Proof.
  revert before fuel. induction c as [|l c IH]; intros before fuel Hs Hc Hf.
  { exists fuel. by rewrite app_nil_r. }
  apply Forall_cons in Hc as [Hl Hc]. destruct fuel as [|fuel]; [cbn in Hf; lia|]. cbn [app coalesce_loop length] in *.
  rewrite Hs, bind_some. cbv beta iota.
  assert (exists fuel', (length cur < fuel')%nat /\ coalesce_loop fuel a (before ++ [l]) (c ++ cur) Q =
    coalesce_loop fuel' a (before ++ l :: c) cur Q) as (fuel' & Hf' & Hrun).
  { destruct (IH (before ++ [l]) fuel) as (fuel' & ? & ->); [by rewrite <-app_assoc|done|lia|].
    exists fuel'. by rewrite <-app_assoc. }
  exists fuel'. split; [done|]. rewrite <-Hrun. destruct Hl as [?|[?|[?|[? ?]]]].
  1-3: by rewrite decide_True by auto.
  case_decide; [done|]. by rewrite !decide_False by tauto.
Qed.

Lemma coalesce_end lock before cur fuel Q p q :
  split_at a (before ++ cur) = Some (p, lock, q) -> Forall (apart lock) cur -> (length cur < fuel)%nat ->
  coalesce_loop fuel a before cur Q = Some (before ++ cur, Q).
Proof.
  intros Hs Hc Hf. destruct (coalesce_skip lock cur before [] fuel Q p q) as (fuel' & Hf' & Hrun).
  1-3: by rewrite ?app_nil_r.
  rewrite app_nil_r in Hrun. rewrite Hrun. by destruct fuel'; [cbn in Hf'; lia|].
Qed.

Lemma foreign_apart lock post : lf_id lock = id -> foreign id post -> Forall (apart lock) post.
Proof. intros Hid Hp. eapply Forall_impl; [exact Hp|]. intros l Hl. right. left. congruence. Qed.

(** Behind the lock. *)
Lemma coalesce_behind x M lock before post fuel Q :
  own id x (lock :: M) -> foreign id post -> lf_addr lock = a ->
  a ∉ lf_addr <$> before -> a ∉ lf_addr <$> M ->
  (length (M ++ post) < fuel)%nat ->
  exists lock' M' Q', coalesce_loop fuel a (before ++ [lock]) (M ++ post) Q = Some (before ++ lock' :: M' ++ post, Q') /\
    rtc merge_step (before ++ lock :: M ++ post, Q) (before ++ lock' :: M' ++ post, Q') /\
    lf_addr lock' = a /\ own id x (lock' :: M') /\ (forall i b, held (lock' :: M') i b = held (lock :: M) i b) /\
    addrs_from [] M M'.
Proof.
  revert lock fuel Q. induction M as [|l M IH]; intros lock fuel Q Ho Hp Ha Hb HM Hf; pose proof Ho as (Hid & Hx & Hlk & Ho2).
  - exists lock, [], Q. split; [|split; [apply rtc_refl|done]]. rewrite (coalesce_end lock _ _ fuel Q before post); [by rewrite <-app_assoc| |by apply foreign_apart|done].
    rewrite <-app_assoc. by apply split_at_app.
  - rewrite fmap_cons, not_elem_of_cons in HM. destruct HM as [Hla HM]. destruct Ho2 as (Hlid & Hl1 & Hl2 & HoM).
    assert (split_at a ((before ++ [lock]) ++ (l :: M) ++ post) = Some (before, lock, (l :: M) ++ post)) as Hsp.
    { rewrite <-app_assoc. by apply split_at_app. }
    destruct (decide (lf_type l = lf_type lock /\ LF_END lock + 1 = lf_start l)) as [[Ht Had]|Hno].
    + destruct fuel as [|fuel]; [cbn in Hf; lia|]. cbn [app coalesce_loop length] in *.
      rewrite Hsp, bind_some. cbv beta iota. rewrite decide_False by (intros [?|[?|?]]; congruence).
      rewrite decide_False by lia. rewrite decide_True by lia.
      rewrite (split_at_app a before lock []) by done. rewrite bind_some. unfold lf_move_blocked. cbv beta iota zeta.
      destruct (own_merge id x [] lock l (set_end lock (lf_end l)) M) as [Ho' Hheld]; try done.
      cbn [app] in *.
      pose proof (fun q Q => IH (set_blkhd (set_end lock (lf_end l)) q) fuel Q Ho' Hp Ha Hb HM ltac:(lia)) as IH'.
      destruct (IH' (lf_blkhd lock ++ lf_blkhd l) (point_to (Some (lf_addr lock)) (lf_blkhd l) Q))
        as (lock' & M' & Q' & Hrun & Hms & Ha' & Ho'' & Hheld' & Hadr).
      exists lock', M', Q'. split_and!; [exact Hrun| |done|done| |by apply (addrs_drop [] [])].
      { eapply rtc_l; [|exact Hms]. apply (merge_next before lock l). }
      intros i b. rewrite Hheld', <-Hheld. done.
    + exists lock, (l :: M), Q. split; [|split; [apply rtc_refl|done]]. rewrite (coalesce_end lock _ _ fuel Q _ _ Hsp); [by rewrite <-app_assoc| |done].
      apply Forall_app. split; [constructor|by apply foreign_apart].
      * unfold apart. destruct (decide (lf_type l = lf_type lock)); [|tauto]. right. right. right. split; [lia|tauto].
      * eapply Forall_impl; [by apply (own_starts id (LF_END l))|]. cbn. intros y Hy. right. right. right. lia.
Qed.

(** A lock with nothing to coalesce before it. *)
Lemma coalesce_apart x M lock before post fuel Q :
  own id x (lock :: M) -> foreign id post -> lf_addr lock = a -> a ∉ lf_addr <$> before -> a ∉ lf_addr <$> M ->
  Forall (apart lock) before -> (length (before ++ lock :: M ++ post) < fuel)%nat ->
  exists lock' M' Q', coalesce_loop fuel a [] (before ++ lock :: M ++ post) Q = Some (before ++ lock' :: M' ++ post, Q') /\
    rtc merge_step (before ++ lock :: M ++ post, Q) (before ++ lock' :: M' ++ post, Q') /\
    lf_addr lock' = a /\ own id x (lock' :: M') /\ (forall i b, held (lock' :: M') i b = held (lock :: M) i b) /\
    addrs_from [] M M'.
Proof.
  intros Ho Hp Ha Hb HM Hap Hf.
  destruct (coalesce_skip lock (before ++ [lock]) [] (M ++ post) fuel Q before (M ++ post)) as (fuel' & Hf' & Hrun).
  { rewrite <-app_assoc. by apply split_at_app. }
  { apply Forall_app. split; [done|]. apply Forall_singleton. by left. }
  { by rewrite <-app_assoc. }
  rewrite <-app_assoc in Hrun. cbn [app] in Hrun. rewrite Hrun. by apply coalesce_behind.
Qed.

(** A lock with an adjacent one before it. *)
Lemma coalesce_before x M l lock before post fuel Q :
  own id x (l :: lock :: M) -> foreign id post -> lf_addr lock = a ->
  a ∉ lf_addr <$> before ++ [l] -> a ∉ lf_addr <$> M ->
  Forall (apart lock) before -> lf_type l = lf_type lock -> LF_END l + 1 = lf_start lock ->
  (length (before ++ l :: lock :: M ++ post) < fuel)%nat ->
  exists lock' M' Q', coalesce_loop fuel a [] (before ++ l :: lock :: M ++ post) Q = Some (before ++ lock' :: M' ++ post, Q') /\
    rtc merge_step (before ++ l :: lock :: M ++ post, Q) (before ++ lock' :: M' ++ post, Q') /\
    lf_addr lock' = a /\ own id x (lock' :: M') /\ (forall i b, held (lock' :: M') i b = held (l :: lock :: M) i b) /\
    addrs_from [] M M'.
Proof.
  intros Ho Hp Ha Hb HM Hap Ht Had Hf.
  assert (split_at a (before ++ l :: lock :: M ++ post) = Some (before ++ [l], lock, M ++ post)) as Hsp.
  { change (l :: lock :: M ++ post) with ([l] ++ lock :: M ++ post). rewrite app_assoc. by apply split_at_app. }
  destruct (coalesce_skip lock before [] (l :: lock :: M ++ post) fuel Q _ _ Hsp Hap Hf) as (fuel' & Hf' & ->).
  destruct fuel' as [|fuel']; [cbn in Hf'; lia|]. cbn [app coalesce_loop length] in *. rewrite Hsp, bind_some. cbv beta iota.
  destruct (own_merge id x [] l lock (set_start lock (lf_start l)) M) as [Ho' Hheld]; try done. { by destruct Ho as (_ & _ & _ & ? & _). }
  rewrite fmap_app, not_elem_of_app in Hb. destruct Hb as [Hb Hl]. apply not_elem_of_cons in Hl as [Hl _].
  destruct Ho as (Hid & _ & _ & Hlid & _ & Hlk & _). 
  rewrite decide_False by (intros [?|[?|?]]; congruence). rewrite decide_True by lia.
  pose proof (split_at_app a [] lock (M ++ post) (not_elem_of_nil a) Ha) as Hsp'. cbn [app] in Hsp'.
  rewrite Hsp', bind_some. unfold lf_move_blocked. cbv beta iota zeta.
  pose proof (fun q Q => coalesce_behind x M (set_blkhd (set_start lock (lf_start l)) q) before post fuel' Q Ho' Hp Ha Hb HM ltac:(lia)) as Hrun.
  destruct (Hrun (lf_blkhd lock ++ lf_blkhd l) (point_to (Some (lf_addr lock)) (lf_blkhd l) Q))
    as (lock' & M' & Q' & Hr & Hms & Ha' & Ho'' & Hheld' & Hadr).
  exists lock', M', Q'. split_and!; [exact Hr| |done|done| |done].
  { eapply rtc_l; [|exact Hms]. apply (merge_prev before l lock). }
  intros i b. by rewrite Hheld', <-Hheld.
Qed.

(** A lock of the list. *)
Lemma coalesce_own pre mid post fuel Q :
  foreign id pre -> own id (-1) mid -> foreign id post -> NoDup (lf_addr <$> pre ++ mid ++ post) ->
  a ∈ lf_addr <$> mid -> (length (pre ++ mid ++ post) < fuel)%nat ->
  exists mid' Q', coalesce_loop fuel a [] (pre ++ mid ++ post) Q = Some (pre ++ mid' ++ post, Q') /\
    rtc merge_step (pre ++ mid ++ post, Q) (pre ++ mid' ++ post, Q') /\
    own id (-1) mid' /\ (forall i b, held mid' i b = held mid i b) /\ addrs_from [] mid mid'.
Proof.
  intros Hpre Ho Hp Hnd (lk & Ha & (M1 & M2 & ->)%list_elem_of_split)%list_elem_of_fmap Hf.
  rewrite <-app_assoc in *. cbn [app] in *. rewrite app_assoc in Hnd, Hf. rewrite (app_assoc pre M1).
  rewrite fmap_app, fmap_cons, (fmap_app _ M2) in Hnd.
  apply NoDup_app in Hnd as (_ & Hd & [Hnlk _]%NoDup_cons). apply not_elem_of_app in Hnlk as [Hn2 _].
  assert (lf_addr lk ∉ lf_addr <$> pre ++ M1) as Hn1. { intros Hin. apply (Hd _ Hin). by left. } clear Hd.
  rewrite <-Ha in Hn1, Hn2. pose proof Ho as Ho'. apply own_app in Ho' as [Ho1 Ho2]. pose proof Ho2 as (Hlid & Hlx & Hlk & _).
  assert (Forall (apart lk) pre) as Hap by by apply foreign_apart.
  assert (forall A, Forall (fun y => lf_start y <= LF_END y < lf_start lk /\ LF_END y + 1 <> lf_start lk) A ->
    Forall (apart lk) (pre ++ A)) as Hfar.
  { intros A HA. apply Forall_app. split; [done|]. eapply Forall_impl; [exact HA|]. cbn. intros y ?.
    right. right. right. lia. }
  pose proof (own_earlier id (-1) M1 lk M2 Ho) as He1.
  destruct (decide (Forall (apart lk) (pre ++ M1))) as [Hall|Hsome].
  { destruct (coalesce_apart _ M2 lk (pre ++ M1) post fuel Q Ho2) as (lk' & M' & Q' & -> & Hms & Ha' & Ho' & Hh & Hadr); try done.
    exists (M1 ++ lk' :: M'), Q'. rewrite <-!app_assoc in *. split_and!; try done.
    - by apply own_app.
    - intros i b. by rewrite !held_app, Hh.
    - apply (addrs_replace [] M1 lk M2 [lk']); [done|]. cbn. by rewrite Ha', Ha. }
  destruct M1 as [|l M1 _] using rev_ind. { by rewrite app_nil_r in Hsome. }
  apply Forall_app in He1 as [_ [Hl _]%Forall_cons]. rewrite <-app_assoc in Ho. cbn [app] in Ho.
  assert (Forall (apart lk) (pre ++ M1)) as Hall.
  { apply Hfar. eapply Forall_impl; [apply (own_earlier id (-1) M1 l (lk :: M2) Ho)|]. cbn. lia. }
  assert (lf_type l = lf_type lk /\ LF_END l + 1 = lf_start lk) as [Ht Had].
  { destruct (decide (lf_type l = lf_type lk /\ LF_END l + 1 = lf_start lk)) as [|Hno]; [done|]. destruct Hsome.
    rewrite app_assoc. apply Forall_app. split; [done|]. apply Forall_singleton. unfold apart.
    destruct (decide (lf_type l = lf_type lk)); [|tauto]. right. right. right. split; [tauto|lia]. }
  rewrite (app_assoc pre), <-(app_assoc (pre ++ M1)). rewrite app_assoc in Hn1. cbn [app].
  apply own_app in Ho as [HoM Ho].
  destruct (coalesce_before _ M2 l lk (pre ++ M1) post fuel Q Ho) as (lk' & M' & Q' & -> & Hms & Ha' & Ho' & Hh & Hadr); try done.
  { by rewrite app_assoc, <-(app_assoc (pre ++ M1)) in Hf. }
  exists (M1 ++ lk' :: M'), Q'. rewrite <-!app_assoc in *. split_and!; [done|exact Hms| | |].
  - by apply own_app.
  - intros i b. cbn [app]. by rewrite !held_app, Hh.
  - cbn [app]. apply (addrs_drop [] M1 l). apply (addrs_replace [] [] lk M2 [lk']); [done|]. cbn. by rewrite Ha', Ha.
Qed.
End Coalesce.

(** *** lf_getblock *)

Definition conflict (t t' : Z) : Prop := t = F_WRLCK \/ t' = F_WRLCK.

(** A lock of another owner on a byte of the range that must not be held with it. *)
Definition blocks (lock l : lockf) : Prop :=
  lf_id l <> lf_id lock /\ overlaps lock l /\ conflict (lf_type lock) (lf_type l).

Lemma meet_overlap lock l : overlaps lock l -> exists ov, overlap_case l lock = Some ov /\ ov <> OVERLAP_NONE.
Proof.
  unfold overlap_case, overlaps. intros Hm. repeat case_decide; try (eexists; split; [done|done]); lia.
Qed.

Lemma find_others lock lf :
  (lf_findoverlap lf lock OTHERS false = Some (OVERLAP_NONE, lf, []) /\ Forall (fun l => ~ blocks lock l) lf) \/
  exists ov passed l rest, lf_findoverlap lf lock OTHERS false = Some (ov, passed, l :: rest) /\ ov <> OVERLAP_NONE /\
    lf = passed ++ l :: rest /\ lf_id l <> lf_id lock /\ overlaps lock l /\ Forall (fun l => ~ blocks lock l) passed.
Proof.
  induction lf as [|l lf IH]; [left; split; [done|by constructor]|]. cbn [lf_findoverlap].
  assert (~ blocks lock l ->
    (('(ov, passed, rest) ← lf_findoverlap lf lock OTHERS false; Some (ov, l :: passed, rest)) =
       Some (OVERLAP_NONE, l :: lf, []) /\ Forall (fun l => ~ blocks lock l) (l :: lf)) \/
    exists ov passed l' rest, ('(ov, passed, rest) ← lf_findoverlap lf lock OTHERS false; Some (ov, l :: passed, rest)) =
       Some (ov, passed, l' :: rest) /\ ov <> OVERLAP_NONE /\ l :: lf = passed ++ l' :: rest /\
       lf_id l' <> lf_id lock /\ overlaps lock l' /\ Forall (fun l => ~ blocks lock l) passed) as Hnext.
  { intros Hl. destruct IH as [[-> Hf]|(ov & passed & l' & rest & -> & Hov & -> & Hid & Hm & Hf)].
    - left. split; [done|by constructor].
    - right. eexists _, (l :: passed), _, _. split_and!; try done. by constructor. }
  case_decide as Hcase.
  { rewrite decide_False by naive_solver. apply Hnext. unfold blocks. naive_solver. }
  rewrite (decide_False (P := OTHERS = SELF)) by done. case_decide as Hno.
  { rewrite decide_False by naive_solver. apply Hnext. intros (_ & Hm & _). unfold overlaps in Hm. lia. }
  destruct (meet_overlap lock l) as (ov & -> & Hov); [unfold overlaps; lia|]. right.
  eexists _, [], l, lf. split_and!; try done; [naive_solver|unfold overlaps; lia].
Qed.

(** It finds the first lock that blocks the request, or there is none. *)
Lemma getblock_blocks pid chain lock :
  match lf_getblock pid chain lock (-1) with
  | Some (Some l) => l ∈ chain /\ blocks lock l
  | Some None => Forall (fun l => ~ blocks lock l) chain
  | None => False
  end.
Proof.
  unfold lf_getblock.
  assert (forall fuel, (length chain < fuel)%nat -> match getblock_loop fuel pid chain lock (-1) with
    | Some (Some l) => l ∈ chain /\ blocks lock l
    | Some None => Forall (fun l => ~ blocks lock l) chain
    | None => False
    end) as Hloop; [|apply Hloop; lia].
  intros fuel. revert chain. induction fuel as [|fuel IH]; intros chain Hf; [lia|]. cbn [getblock_loop].
  destruct (find_others lock chain) as [[-> Hnone]|(ov & passed & l & rest & -> & Hov & -> & Hid & Hm & Hp)]; [done|].
  rewrite bind_some. cbv beta iota.
  assert (match ov with OVERLAP_NONE => Some None | _ =>
      if decide (-1 <> -1 /\ has (lf_flags l) (Z.lor F_POSIX F_OFD_LOCK) = true /\ pid (lf_owner l) <> -1)
      then getblock_loop fuel pid rest lock (-1)
      else if decide (lf_type lock = F_WRLCK \/ lf_type l = F_WRLCK) then Some (Some l)
      else getblock_loop fuel pid rest lock (-1) end =
    if decide (lf_type lock = F_WRLCK \/ lf_type l = F_WRLCK) then Some (Some l)
    else getblock_loop fuel pid rest lock (-1)) as ->.
  { rewrite decide_False by naive_solver. by destruct ov. }
  case_decide as Hc.
  - split; [set_solver|]. done.
  - rewrite length_app in Hf. cbn in Hf. specialize (IH rest ltac:(lia)).
    destruct (getblock_loop fuel pid rest lock (-1)) as [[l'|]|]; [|  |done].
    + split; [set_solver|tauto].
    + apply Forall_app. split; [done|]. constructor; [|done]. intros (_ & _ & Hcf). done.
Qed.

(** *** The list as a map from bytes to types *)

Lemma held_elem chain l b : chain_wf chain -> l ∈ chain -> covers l b -> held chain (lf_id l) b = Some (lf_type l).
Proof.
  intros Hwf Hl Hb. destruct (chain_focus chain (lf_id l) Hwf) as (pre & mid & post & -> & Hpre & Hpost & Ho & _).
  rewrite (held_focus (lf_id l)) by done. rewrite decide_True by done.
  assert (l ∈ mid) as (A & B & ->)%list_elem_of_split.
  { unfold foreign in *. rewrite Forall_forall in Hpre, Hpost. apply elem_of_app in Hl as [Hl|[Hl|Hl]%elem_of_app]; [|done|].
    - by destruct (Hpre _ Hl).
    - by destruct (Hpost _ Hl). }
  rewrite held_app. unfold covers in Hb.
  assert (Forall (fun y => LF_END y < b) A) as HA.
  { eapply Forall_impl; [by eapply own_earlier|]. cbn. lia. }
  rewrite (held_earlier _ A b b HA) by lia. cbn. unfold covers. by rewrite decide_True.
Qed.

Lemma chain_range chain l : chain_wf chain -> l ∈ chain -> 0 <= lf_start l <= LF_END l /\ LF_END l <= OFF_MAX.
Proof.
  intros Hwf Hl. destruct (chain_focus chain (lf_id l) Hwf) as (pre & mid & post & -> & Hpre & Hpost & Ho & _).
  unfold foreign in *. rewrite Forall_forall in Hpre, Hpost. apply elem_of_app in Hl as [Hl|[Hl|Hl]%elem_of_app].
  - by destruct (Hpre _ Hl).
  - apply list_elem_of_split in Hl as (A & B & ->). apply own_app in Ho as [HA (_ & Hx & Hr & _)].
    pose proof (own_last_end _ _ _ HA). lia.
  - by destruct (Hpost _ Hl).
Qed.

Lemma held_inv chain i b t :
  held chain i b = Some t -> exists l, l ∈ chain /\ lf_id l = i /\ covers l b /\ lf_type l = t.
Proof.
  induction chain as [|l chain IH]; cbn; [done|]. case_decide as Hc.
  - intros [= <-]. exists l. naive_solver set_solver.
  - intros (l' & ? & ?)%IH. exists l'. naive_solver set_solver.
Qed.

(** The bytes from [s] to [e] of owner [id] get [v]. *)
Definition set_bytes (h : Z -> Z -> option Z) (id s e : Z) (v : option Z) (i b : Z) : option Z :=
  if decide (i = id /\ s <= b <= e) then v else h i b.

Lemma clear_skip fuel a before pre rest unlock Q :
  foreign (lf_id unlock) pre ->
  clearlock_loop (S fuel) a before (pre ++ rest) unlock Q = clearlock_loop (S fuel) a (before ++ pre) rest unlock Q.
Proof.
  intros Hpre. cbn [clearlock_loop]. rewrite find_foreign by done.
  destruct (lf_findoverlap rest unlock SELF false) as [[[ov passed] rest']|]; [|done].
  rewrite !bind_some. cbv beta iota. destruct ov, rest' as [|l rest']; rewrite <-?app_assoc; done.
Qed.

Lemma clearlock_held a chain unlock Q :
  chain_wf chain -> lock_ok unlock -> a ∉ lf_addr <$> chain ->
  exists chain' Q', lf_clearlock a chain unlock Q = Some (chain', Q') /\ chain_wf chain' /\
    (forall l, l ∈ chain -> lf_id l <> lf_id unlock -> l ∈ chain') /\
    forall i b, held chain' i b = set_bytes (held chain) (lf_id unlock) (lf_start unlock) (LF_END unlock) None i b.
Proof.
  intros Hwf Hok Ha. pose proof Hwf as [_ Hnd].
  destruct (chain_focus chain (lf_id unlock) Hwf) as (pre & mid & post & -> & Hpre & Hpost & Ho & _ & Hback).
  unfold lf_clearlock. rewrite clear_skip by done.
  destruct (clear_own a unlock Hok (S (length (pre ++ mid ++ post))) (-1) ([] ++ pre) mid post Q)
    as (mid' & Q' & -> & [Ho' Hh] & Hadr); [lia|done|done|rewrite !length_app; lia|].
  exists (pre ++ mid' ++ post), Q'. split_and!; [done| | |].
  - apply Hback; [done|]. eapply NoDup_addrs; [|done]. by apply NoDup_cons.
  - intros l Hl Hid. rewrite !elem_of_app in *. destruct Hl as [?|[Hl|?]]; [by left| |by right; right].
    apply own_ids in Ho. rewrite Forall_forall in Ho. by destruct Hid; apply Ho.
  - intros i b. unfold set_bytes. rewrite !(held_focus (lf_id unlock)) by done.
    destruct (decide (i = lf_id unlock)) as [->|Hi]; [|by rewrite decide_False by tauto].
    rewrite Hh. repeat case_decide; tauto || done.
Qed.

Lemma grant_held a chain lock Q :
  chain_wf chain -> lock_ok lock -> NoDup (a :: lf_addr lock :: (lf_addr <$> chain)) ->
  exists chain' Q', lf_grant a chain lock Q = Some (chain', Q') /\
    (exists chain1 k Q1, grant_loop (S (length chain)) a false [] lock [] chain Q = Some (chain1, k, Q1) /\
      rtc merge_step (chain1, Q1) (chain', Q')) /\
    chain_wf chain' /\ forall i b, held chain' i b =
      set_bytes (held chain) (lf_id lock) (lf_start lock) (LF_END lock) (Some (lf_type lock)) i b.
Proof.
  intros Hwf Hok Hnd.
  destruct (chain_focus chain (lf_id lock) Hwf) as (pre & mid & post & -> & Hpre & Hpost & Ho & Hcase & Hback).
  unfold lf_grant.
  destruct (grant_own a lock Hok (S (length (pre ++ mid ++ post))) pre mid post Q)
    as (mid1 & l & Q1 & Hrun & [Ho1 Hh1] & Hadr1 & Hl); try done; [rewrite !length_app; lia|].
  rewrite Hrun, bind_some. cbv beta iota. unfold lf_coalesce_adjacent.
  assert (NoDup (lf_addr <$> pre ++ mid1 ++ post)) as Hnd1.
  { apply (NoDup_addrs [a; lf_addr lock] pre mid mid1 post); [exact Hnd|exact Hadr1]. }
  destruct (coalesce_own l (lf_id lock) pre mid1 post (S (length (pre ++ mid1 ++ post))) Q1)
    as (mid' & Q' & -> & Hms & Ho' & Hh' & Hadr'); try done; [lia|].
  exists (pre ++ mid' ++ post), Q'. split_and!; [done|by eexists _, _, _| |].
  - apply Hback; [done|]. by apply (NoDup_addrs [] pre mid1 mid' post).
  - intros i b. unfold set_bytes. rewrite !(held_focus (lf_id lock)) by done.
    destruct (decide (i = lf_id lock)) as [->|Hi]; [|by rewrite decide_False by tauto].
    rewrite Hh', Hh1. repeat case_decide; tauto || done.
Qed.
