(* ===== verification/LockfWait.v ===== *)
(** * Advisory byte-range locks: requests that sleep

    The rest of [bsd/kern/kern_lockf.c] on top of Lockf: [lf_setlock] with the requests
    that go to sleep, what they do when they wake up, the detection of deadlocks,
    [lf_getlock], [lf_transferlock], [lf_abort_advlocks], and [lf_advlock], which
    converts a [struct flock] to a range and dispatches.  The state is that of one
    vnode; each operation runs with [v_lock] held, so a run of the system is a sequence
    of whole operations.  Sleeping releases the lock: [lf_setlock] is therefore cut at
    [msleep] in the part up to it and the part [lf_setlock_resume] after it, whose
    argument is the result of [msleep].

    Left out: in the search for deadlocks the mutex of another vnode is taken to be free,
    so that [lf_setlock] never pauses and scans again; and importance inheritance, which
    may move a request from the tail of a queue to its head
    ([lf_jump_to_queue_head]), so that a queue is in the order of arrival here.  Of the
    transfers, [lf_transferlock] itself is modelled for all locks; see [lstep] for those
    that the runs have.

    Shown: the invariant of the list, mutual exclusion and the integrity of the queues
    hold in every state that is reached; which bytes a transfer moves; the exact ranges
    that [lf_advlock] accepts.  Two runs show what the code does not do: requests for
    shared locks are woken one after the other, and a cycle of three processes is not
    detected. *)
From S2P Require Import Prelude Lockf.
From stdpp Require Import gmap.

Local Open Scope Z_scope.

(** ** Constants *)

Abbreviation F_GETLK := (7)%Z.
Abbreviation F_SETLK := (8)%Z.
Abbreviation F_GETLKPID := (66)%Z.
Abbreviation F_TRANSFER := (0x800)%Z.
Abbreviation F_CONFINED := (0x1000)%Z.
Abbreviation SEEK_SET := (0)%Z.
Abbreviation SEEK_CUR := (1)%Z.
Abbreviation SEEK_END := (2)%Z.
Abbreviation EBADF := (9)%Z.
Abbreviation EDEADLK := (11)%Z.
Abbreviation EINVAL := (22)%Z.
Abbreviation EAGAIN := (35)%Z.
Abbreviation EWOULDBLOCK := (EAGAIN)%Z.
Abbreviation ETIMEDOUT := (60)%Z.
Abbreviation EOVERFLOW := (84)%Z.

(** ** State *)

(** The locks of a vnode and the requests that sleep. *)
Record vstate := VState { v_lockf : list lockf; v_sleep : sleepers }.

(** What becomes of a call: it returns, or its thread sleeps. *)
Inductive outcome :=
  | Returns (error : Z)
  | Sleeps.

#[export] Instance outcome_eq_dec : EqDecision outcome.
Proof. solve_decision. Defined.

(** An assignment through a pointer to a structure of the list. *)
Definition update_lock (n : nat) (f : lockf -> lockf) (chain : list lockf) : list lockf :=
  (fun l => if decide (lf_addr l = n) then f l else l) <$> chain.

(** What a [struct lockf *] points to: a lock of the list, or a request. *)
Definition find_lock (st : vstate) (n : nat) : option lockf :=
  match split_at n (v_lockf st) with
  | Some (_, l, _) => Some l
  | None => sl_lock <$> v_sleep st !! n
  end.

(** ** lf_setlock *)

(** The [nextblock]s of the threads of [wproc] that sleep for a lock of this vnode;
    those with POSIX semantics have [lockstr] as [uu_wmesg]. *)
Definition nextblocks (st : vstate) (wproc : option Z) : list lockf :=
  omap (fun '(_, s) =>
    if decide (lf_owner (sl_lock s) = wproc /\ has (lf_flags (sl_lock s)) F_POSIX = true)
    then n ← sl_next s; find_lock st n else None) (map_to_list (v_sleep st)).

(** [elsewhere] gives the [nextblock]s of a process on other vnodes. *)
Definition deadlocked (st : vstate) (elsewhere : option Z -> list lockf) (lock block : lockf) : bool :=
  has (lf_flags lock) F_POSIX && has (lf_flags block) F_POSIX &&
  existsb (fun nextblock => has (lf_flags nextblock) F_POSIX && bool_decide (lf_owner nextblock = lf_owner lock))
    (nextblocks st (lf_owner block) ++ elsewhere (lf_owner block)).

(** The request goes to the tail of the queue of [block]. *)
Definition enqueue (st : vstate) (lock : lockf) (block : nat) : vstate :=
  VState
    (update_lock block (fun b =>
       set_flags (set_blkhd b (lf_blkhd b ++ [lf_addr lock]))
         (if has (lf_flags lock) F_FLOCK then lf_flags b else Z.land (lf_flags b) (Z.lnot F_WAKE1_SAFE)))
       (v_lockf st))
    (<[lf_addr lock := Sleeper lock (Some block)]> (v_sleep st)).

(** From [scan] to [msleep] or to the end; [a] is the address of a new structure.  The
    pause and the new scan when the mutex of another vnode is taken are left out, and so
    is importance inheritance, with the reordering of the queue that it makes. *)
Definition lf_setlock (pid : option Z -> Z) (elsewhere : option Z -> list lockf) (a : nat) (st : vstate) (lock : lockf)
    : option (outcome * vstate) :=
  block ← lf_getblock pid (v_lockf st) lock (-1);
  match block with
  | None =>
      '(chain, Q) ← lf_grant a (v_lockf st) lock (v_sleep st);
      Some (Returns 0, VState chain Q)
  | Some block =>
      if decide (has (lf_flags lock) F_WAIT = false) then Some (Returns EAGAIN, st)
      else if deadlocked st elsewhere lock block then Some (Returns EDEADLK, st)
      else
        st ←
          (if decide (has (lf_flags lock) F_FLOCK = true /\ lf_type lock = F_WRLCK) then
             '(chain, Q) ← lf_clearlock a (v_lockf st) (set_type lock F_UNLCK) (v_sleep st);
             Some (VState chain Q)
           else Some st);
        Some (Sleeps, enqueue st lock (lf_addr block))
  end.

(** [TAILQ_REMOVE(&lock->lf_next->lf_blkhd, lock, lf_block)]. *)
Definition unqueue (w : nat) (l : lockf) : lockf := set_blkhd l (filter (fun x => x <> w) (lf_blkhd l)).

(** The state in which a request whose thread runs is off every queue, and no longer among
    the sleepers. *)
Definition off_queue (st : vstate) (w : nat) (s : sleeper) : vstate :=
  match sl_next s with
  | Some n =>
      VState (update_lock n (unqueue w) (v_lockf st))
        (alter (fun s => Sleeper (unqueue w (sl_lock s)) (sl_next s)) n (delete w (v_sleep st)))
  | None => VState (v_lockf st) (delete w (v_sleep st))
  end.

(** What wakes up takes its queue to the lock that blocks it, if there is one. *)
Definition hand_over (pid : option Z -> Z) (lock : lockf) (st : vstate) : option (lockf * vstate) :=
  match lf_blkhd lock with
  | [] => Some (lock, st)
  | _ =>
      block ← lf_getblock pid (v_lockf st) lock (-1);
      match block with
      | None => Some (lock, st)
      | Some block =>
          Some (set_blkhd lock [],
                VState (update_lock (lf_addr block) (fun b => (lf_move_blocked b lock (v_sleep st)).1) (v_lockf st))
                  (lf_move_blocked block lock (v_sleep st)).2)
      end
  end.

(** From the return of [msleep] with [error] on. *)
Definition lf_setlock_resume (pid : option Z -> Z) (elsewhere : option Z -> list lockf) (a : nat) (st : vstate)
    (w : nat) (error : Z) : option (outcome * vstate) :=
  s ← v_sleep st !! w;
  let lock := sl_lock s in
  let error := if decide (error = 0 /\ has (lf_flags lock) F_ABORT = true) then EBADF else error in
  let st := off_queue st w s in
  if decide (sl_next s <> None /\ error = 0) then lf_setlock pid elsewhere a st lock
  else
    '(lock, st) ← hand_over pid lock st;
    if decide (error <> 0) then
      let Q := match lf_blkhd lock with [] => v_sleep st | _ => (lf_wakelock lock true (v_sleep st)).2 end in
      Some (Returns (if decide (error = EWOULDBLOCK) then ETIMEDOUT else error), VState (v_lockf st) Q)
    else lf_setlock pid elsewhere a st lock.

(** ** lf_transferlock *)

Definition set_owner (l : lockf) (id : Z) (owner : option Z) : lockf :=
  Lockf (lf_addr l) (lf_flags l) (lf_type l) (lf_start l) (lf_end l) id owner (lf_blkhd l).

(** [new] is [transfer->lf_owner]. *)
Definition transfer_one (new : Z) (l : lockf) : lockf :=
  if has (lf_flags l) F_POSIX then set_owner l new (Some new)
  else if has (lf_flags l) F_OFD_LOCK then
    match lf_owner l with Some _ => set_owner l (lf_id l) (Some new) | None => l end
  else l.

Fixpoint transfer_loop (fuel : nat) (new : Z) (before lf : list lockf) (transfer : lockf) : option (list lockf) :=
  match fuel with
  | O => None
  | S fuel =>
      '(ov, passed, rest) ← lf_findoverlap lf transfer SELF false;
      match ov, rest with
      | OVERLAP_NONE, _ => Some (before ++ passed ++ rest)
      | _, [] => None
      | _, overlap :: next => transfer_loop fuel new (before ++ passed ++ [transfer_one new overlap]) next transfer
      end
  end.

Definition lf_transferlock (new : Z) (chain : list lockf) (transfer : lockf) : option (list lockf) :=
  transfer_loop (S (length chain)) new [] chain transfer.

(** ** lf_getlock *)

Record flock := Flock { l_start : Z; l_len : Z; l_pid : Z; l_type : Z; l_whence : Z }.

Definition lf_getlock (pid : option Z -> Z) (chain : list lockf) (lock : lockf) (fl : flock) (matchpid : Z) : option flock :=
  block ← lf_getblock pid chain lock matchpid;
  Some match block with
  | Some block =>
      Flock (lf_start block)
        (if decide (lf_end block = -1 \/ (lf_start block = 0 /\ LF_END block = OFF_MAX)) then 0
         else LF_END block - lf_start block + 1)
        (match lf_owner block with Some p => pid (Some p) | None => -1 end)
        (lf_type block) SEEK_SET
  | None => Flock (l_start fl) (l_len fl) (l_pid fl) F_UNLCK (l_whence fl)
  end.

(** ** lf_abort_advlocks *)

Definition abort_flag (s : sleeper) : sleeper :=
  Sleeper (set_flags (sl_lock s) (Z.lor (lf_flags (sl_lock s)) F_ABORT)) (sl_next s).

Definition lf_abort_advlocks (st : vstate) : vstate :=
  match v_lockf st with
  | [] => st
  | lock :: chain =>
      match lf_blkhd lock with
      | [] => st
      | q =>
          let '(lock, Q) := lf_wakelock lock true (foldr (fun w Q => alter abort_flag w Q) (v_sleep st) q) in
          VState (lock :: chain) Q
      end
  end.

(** ** lf_advlock *)

(** The value of a signed 64-bit expression, unless it overflows. *)
Definition off_t (x : Z) : option Z := if decide (- 2 ^ 63 <= x < 2 ^ 63) then Some x else None.

(** A conversion from [u_quad_t] to [off_t]. *)
Definition to_off_t (x : Z) : Z := if decide (x < 2 ^ 63) then x else x - 2 ^ 64.

(** The range of a [struct flock], or an error; [vnode_size] gives the size of the file
    or its error. *)
Definition flock_range (vnode_size : Z + Z) (fl : flock) : option (Z + Z * Z) :=
  start ←
    (if decide (l_whence fl = SEEK_SET \/ l_whence fl = SEEK_CUR) then Some (inr (l_start fl))
     else if decide (l_whence fl = SEEK_END) then
       match vnode_size with
       | inl error => Some (inl error)
       | inr size =>
           if decide (OFF_MAX < size \/ (0 < l_start fl /\ u64 (OFF_MAX - l_start fl) < size)) then Some (inl EOVERFLOW)
           else Some (inr (to_off_t (u64 (size + l_start fl))))
       end
     else Some (inl EINVAL));
  match start with
  | inl error => Some (inl error)
  | inr start =>
      if decide (start < 0) then Some (inl EINVAL)
      else if decide (l_len fl < 0) then
        if decide (start = 0) then Some (inl EINVAL)
        else
          end_ ← off_t (start - 1);
          start ← off_t (start + l_len fl);
          if decide (start < 0) then Some (inl EINVAL) else Some (inr (start, end_))
      else if decide (l_len fl = 0) then Some (inr (start, -1))
      else
        oadd ← off_t (l_len fl - 1);
        if decide (to_off_t (u64 (OFF_MAX - start)) < oadd) then Some (inl EOVERFLOW)
        else end_ ← off_t (start + oadd); Some (inr (start, end_))
  end.

Record advlock_args := Advlock { a_id : Z; a_op : Z; a_fl : flock; a_flags : Z }.

(** A conversion from [int] to [short]. *)
Definition to_short (x : Z) : Z := let y := u16 x in if decide (y < 0x8000) then y else y - 0x10000.

(** The structure that is created; [current] is [current_proc()] and [context] is
    [vfs_context_proc(context)]. *)
Definition new_lock (addr : nat) (current context : Z) (ap : advlock_args) (range : Z * Z) : lockf :=
  let flags := to_short (a_flags ap) in
  Lockf addr (if has (a_flags ap) F_FLOCK then Z.lor flags F_WAKE1_SAFE else flags) (l_type (a_fl ap)) range.1 range.2
    (a_id ap)
    (if decide (a_op ap = F_TRANSFER) then Some context
     else if decide (a_op ap = F_SETLK /\ has (a_flags ap) F_OFD_LOCK = true /\ has (a_flags ap) F_CONFINED = true)
     then Some current
     else if has (a_flags ap) F_POSIX then Some (a_id ap) else None) [].

(** What the call leaves in [*ap->a_fl], its outcome, and the state.  [new] and [a] are
    the addresses of the structures it may allocate. *)
Definition lf_advlock (pid : option Z -> Z) (elsewhere : option Z -> list lockf) (vnode_size : Z + Z)
    (current context : Z) (new a : nat) (st : vstate) (ap : advlock_args) : option (outcome * flock * vstate) :=
  let fl := a_fl ap in
  if decide (v_lockf st = [] /\ a_op ap <> F_SETLK) then
    Some (Returns 0, Flock (l_start fl) (l_len fl) (l_pid fl) F_UNLCK (l_whence fl), st)
  else
    range ← flock_range vnode_size fl;
    match range with
    | inl error => Some (Returns error, fl, st)
    | inr range =>
        let lock := new_lock new current context ap range in
        if decide (a_op ap = F_SETLK) then
          '(r, st) ← lf_setlock pid elsewhere a st lock; Some (r, fl, st)
        else if decide (a_op ap = F_UNLCK) then
          '(chain, Q) ← lf_clearlock a (v_lockf st) lock (v_sleep st); Some (Returns 0, fl, VState chain Q)
        else if decide (a_op ap = F_TRANSFER) then
          if decide (context = current) then None
          else chain ← lf_transferlock context (v_lockf st) lock; Some (Returns 0, fl, VState chain (v_sleep st))
        else if decide (a_op ap = F_GETLK) then
          fl ← lf_getlock pid (v_lockf st) lock fl (-1); Some (Returns 0, fl, st)
        else if decide (a_op ap = F_GETLKPID) then
          fl' ← lf_getlock pid (v_lockf st) lock fl (l_pid fl); Some (Returns 0, fl', st)
        else Some (Returns EINVAL, fl, st)
    end.

(** ** Ranges *)

(** The range that a [struct flock] describes, in unbounded arithmetic, with the errors in
    the order of the code: that of [vnode_size] or of the origin, then a position beyond
    [OFF_MAX] (also when a negative length would lead back below it), then a first byte
    before 0, then a last byte beyond [OFF_MAX]. *)
Definition described_range (vnode_size : Z + Z) (fl : flock) : Z + Z * Z :=
  let base :=
    if decide (l_whence fl = SEEK_SET \/ l_whence fl = SEEK_CUR) then inr 0
    else if decide (l_whence fl = SEEK_END) then
      match vnode_size with
      | inl error => inl error
      | inr size => if decide (OFF_MAX < size) then inl EOVERFLOW else inr size
      end
    else inl EINVAL in
  match base with
  | inl error => inl error
  | inr base =>
      let pos := base + l_start fl in
      let first := pos + Z.min 0 (l_len fl) in
      let last := pos + Z.max 0 (l_len fl) - 1 in
      if decide (OFF_MAX < pos) then inl EOVERFLOW
      else if decide (first < 0) then inl EINVAL
      else if decide (OFF_MAX < last) then inl EOVERFLOW
      else inr (first, if decide (l_len fl = 0) then -1 else last)
  end.

Definition is_off_t (x : Z) : Prop := - 2 ^ 63 <= x < 2 ^ 63.

Lemma off_t_some x : is_off_t x -> off_t x = Some x.
Proof. intros Hx. unfold off_t. by rewrite decide_True. Qed.

(** A wrapped sum that fits. *)
Lemma to_off_t_wrap x : is_off_t x -> to_off_t (u64 x) = x.
Proof.
  unfold is_off_t, to_off_t. intros Hx. destruct (decide (0 <= x)).
  - rewrite (wrap_small 64 x) by (unfold in_word; lia). rewrite decide_True by lia. done.
  - assert (u64 x = x + 2 ^ 64) as ->.
    { unfold wrap. symmetry. apply (Z.mod_unique_pos x (2 ^ 64) (-1)); lia. }
    rewrite decide_False by lia. lia.
Qed.

Lemma range_of_start (start len : Z) :
  0 <= start <= OFF_MAX -> is_off_t len ->
  (if decide (len < 0) then
     if decide (start = 0) then Some (inl EINVAL)
     else
       end_ ← off_t (start - 1);
       start ← off_t (start + len);
       if decide (start < 0) then Some (inl EINVAL) else Some (inr (start, end_))
   else if decide (len = 0) then Some (inr (start, -1))
   else
     oadd ← off_t (len - 1);
     if decide (to_off_t (u64 (OFF_MAX - start)) < oadd) then Some (inl EOVERFLOW)
     else end_ ← off_t (start + oadd); Some (inr (start, end_))) =
  Some (if decide (start + Z.min 0 len < 0) then inl EINVAL
        else if decide (OFF_MAX < start + Z.max 0 len - 1) then inl EOVERFLOW
        else inr (start + Z.min 0 len, if decide (len = 0) then -1 else start + Z.max 0 len - 1)).
Proof.
  intros Hs Hl. unfold is_off_t, OFF_MAX in *. destruct (decide (len < 0)).
  - rewrite Z.min_r, Z.max_l by lia. destruct (decide (start = 0)) as [->|].
    { by rewrite decide_True by lia. }
    rewrite !off_t_some by (unfold is_off_t; lia). rewrite !bind_some. case_decide; [done|].
    rewrite decide_False by lia. rewrite decide_False by lia. do 3 f_equal; lia.
  - rewrite Z.min_l, Z.max_r by lia. rewrite (decide_False (P := start + 0 < 0)) by lia.
    destruct (decide (len = 0)) as [->|].
    { rewrite decide_False by lia. do 3 f_equal. lia. }
    rewrite (off_t_some (len - 1)) by (unfold is_off_t; lia). rewrite bind_some.
    rewrite to_off_t_wrap by (unfold is_off_t; lia). destruct (decide (0x7fffffffffffffff - start < len - 1)).
    { by rewrite decide_True by lia. }
    rewrite decide_False by lia. rewrite off_t_some by (unfold is_off_t; lia). rewrite bind_some. do 3 f_equal; lia.
Qed.

Lemma flock_range_described vnode_size fl :
  is_off_t (l_start fl) -> is_off_t (l_len fl) -> (forall size, vnode_size = inr size -> in_word 64 size) ->
  flock_range vnode_size fl = Some (described_range vnode_size fl).
Proof.
  intros Hs Hl Hsize.
  unfold flock_range, described_range.
  destruct (decide (l_whence fl = SEEK_SET \/ l_whence fl = SEEK_CUR)).
  { rewrite bind_some. cbv iota beta zeta. unfold is_off_t, OFF_MAX in *. rewrite (decide_False (P := _ < 0 + _)) by lia.
    destruct (decide (l_start fl < 0)). { by rewrite decide_True by lia. }
    rewrite (Z.add_0_l (l_start fl)). apply range_of_start; unfold is_off_t, OFF_MAX; lia. }
  destruct (decide (l_whence fl = SEEK_END)); [|done].
  destruct vnode_size as [error|size]; [done|]. specialize (Hsize size eq_refl).
  unfold in_word, is_off_t, OFF_MAX in *. destruct (decide (0x7fffffffffffffff < size)) as [Hbig|Hbig].
  { by rewrite decide_True by auto. }
  destruct (decide (0x7fffffffffffffff < size + l_start fl)) as [Hover|Hover].
  { rewrite decide_True; [done|]. right. split; [lia|]. rewrite wrap_small by (unfold in_word; lia). lia. }
  rewrite decide_False.
  2:{ intros [?|[Hpos Hlt]]; [done|]. rewrite wrap_small in Hlt by (unfold in_word; lia). lia. }
  rewrite bind_some. rewrite to_off_t_wrap by (unfold is_off_t; lia).
  destruct (decide (size + l_start fl < 0)). { by rewrite decide_True by lia. }
  apply range_of_start; unfold is_off_t, OFF_MAX; lia.
Qed.

Lemma described_ok vnode_size fl s e :
  described_range vnode_size fl = inr (s, e) -> forall a f t id o q, lock_ok (Lockf a f t s e id o q).
Proof.
  intros He a f t id o q. unfold described_range in He.
  destruct (if decide (l_whence fl = SEEK_SET \/ _) then _ else _) as [?|base]; [done|].
  unfold lock_ok, LF_END. cbn.
  destruct (decide (OFF_MAX < base + l_start fl)), (decide (base + l_start fl + Z.min 0 (l_len fl) < 0)),
    (decide (OFF_MAX < base + l_start fl + Z.max 0 (l_len fl) - 1)); try done.
  injection He as <- <-. unfold OFF_MAX in *. repeat case_decide; lia.
Qed.

(** Where the positions of a [struct flock] are counted from. *)
Definition origin (vnode_size : Z + Z) (fl : flock) : Z + Z :=
  if decide (l_whence fl = SEEK_SET \/ l_whence fl = SEEK_CUR) then inr 0
  else if decide (l_whence fl = SEEK_END) then vnode_size else inl EINVAL.

(** The bytes that a length [len] at position [pos] stands for: from there on, up to the
    largest offset if the length is 0, before it if the length is negative. *)
Definition described (pos len b : Z) : Prop :=
  if decide (len = 0) then pos <= b <= OFF_MAX
  else if decide (0 < len) then pos <= b < pos + len else pos + len <= b < pos.

Lemma described_cases vnode_size fl base :
  origin vnode_size fl = inr base ->
  let pos := base + l_start fl in
  described_range vnode_size fl =
    if decide (OFF_MAX < base \/ OFF_MAX < pos) then inl EOVERFLOW
    else if decide (pos + Z.min 0 (l_len fl) < 0) then inl EINVAL
    else if decide (OFF_MAX < pos + Z.max 0 (l_len fl) - 1) then inl EOVERFLOW
    else inr (pos + Z.min 0 (l_len fl), if decide (l_len fl = 0) then -1 else pos + Z.max 0 (l_len fl) - 1).
Proof.
  unfold origin, described_range. intros Ho. cbv zeta.
  destruct (decide (l_whence fl = SEEK_SET \/ _)).
  - injection Ho as <-. destruct (decide (OFF_MAX < 0 + l_start fl)); [by rewrite decide_True by auto|].
    rewrite (decide_False (P := OFF_MAX < 0 \/ _)); [done|]. intros [?|?]; [unfold OFF_MAX in *; lia|done].
  - destruct (decide (l_whence fl = SEEK_END)); [|done]. subst vnode_size.
    destruct (decide (OFF_MAX < base)); [by rewrite decide_True by auto|].
    destruct (decide (OFF_MAX < base + l_start fl)); [by rewrite decide_True by auto|].
    by rewrite (decide_False (P := OFF_MAX < base \/ _)) by tauto.
Qed.

Lemma described_error vnode_size fl error :
  origin vnode_size fl = inl error -> described_range vnode_size fl = inl error.
Proof.
  unfold origin, described_range. destruct (decide (l_whence fl = SEEK_SET \/ _)); [done|].
  destruct (decide (l_whence fl = SEEK_END)); [by intros ->|]. by intros [= <-].
Qed.

Lemma described_exact vnode_size fl base :
  is_off_t (l_start fl) -> is_off_t (l_len fl) -> origin vnode_size fl = inr base ->
  (forall size, vnode_size = inr size -> in_word 64 size) ->
  let r := described_range vnode_size fl in
  let pos := base + l_start fl in
  let beyond := OFF_MAX < base \/ OFF_MAX < pos \/ OFF_MAX < pos + l_len fl - 1 in
  (r = inl EOVERFLOW <-> beyond) /\
  (r = inl EINVAL <-> ~ beyond /\ pos + Z.min 0 (l_len fl) < 0) /\
  (~ beyond -> 0 <= pos + Z.min 0 (l_len fl) -> exists s e, r = inr (s, e) /\
    forall a f t id o, lock_ok (Lockf a f t s e id o []) /\
      forall b, covers (Lockf a f t s e id o []) b <-> described pos (l_len fl) b).
Proof.
  intros Hs Hl Ho Hsize r pos beyond. unfold r, beyond. rewrite (described_cases vnode_size fl base Ho).
  fold pos. unfold is_off_t, OFF_MAX in *.
  destruct (decide (_ \/ _)); [split_and!; (split || intros); (done || lia)|].
  destruct (decide (pos + Z.min 0 (l_len fl) < 0)); [split_and!; (split || intros); (done || lia)|].
  destruct (decide (_ < pos + Z.max 0 (l_len fl) - 1)); [split_and!; (split || intros); (done || lia)|].
  split_and!; [split; (done || lia)|split; (done || lia)|]. intros _ _. eexists _, _. split; [done|].
  intros a f t id o. unfold lock_ok, covers, LF_END, described, OFF_MAX. cbn.
  destruct (decide (l_len fl = 0)) as [He|He].
  - rewrite He in *. rewrite decide_True by done. split; [lia|]. intros b. lia.
  - rewrite decide_False by lia. split; [lia|]. intros b. destruct (decide (0 < l_len fl)); lia.
Qed.

(** C31. [lf_advlock] converts the start, the length and the origin of a [struct flock]
    without overflow on any 64-bit values.  An error of [vnode_size] is passed on and an
    unknown origin is [EINVAL].  Otherwise the call fails with [EOVERFLOW] if and only if
    the size of the file, the position or the last byte is beyond [OFF_MAX] (a
    position beyond it also if a negative length leads back), and with [EINVAL] if and
    only if that is not so and the range begins before byte 0; in all other cases the
    lock is not empty and has exactly the bytes that the position and the length
    describe. *)
Theorem flock_range_exact (vnode_size : Z + Z) (fl : flock) :
  is_off_t (l_start fl) -> is_off_t (l_len fl) ->
  (forall size, vnode_size = inr size -> in_word 64 size) ->
  exists r, flock_range vnode_size fl = Some r /\
    match origin vnode_size fl with
    | inl error => r = inl error
    | inr base =>
        let pos := base + l_start fl in
        let beyond := OFF_MAX < base \/ OFF_MAX < pos \/ OFF_MAX < pos + l_len fl - 1 in
        (r = inl EOVERFLOW <-> beyond) /\
        (r = inl EINVAL <-> ~ beyond /\ pos + Z.min 0 (l_len fl) < 0) /\
        (~ beyond -> 0 <= pos + Z.min 0 (l_len fl) -> exists s e, r = inr (s, e) /\
          forall a f t id o, lock_ok (Lockf a f t s e id o []) /\
            forall b, covers (Lockf a f t s e id o []) b <-> described pos (l_len fl) b)
    end.
Proof.
  intros Hs Hl Hsize. exists (described_range vnode_size fl). split; [by apply flock_range_described|].
  destruct (origin vnode_size fl) as [error|base] eqn:Ho; [by apply described_error|].
  by apply described_exact.
Qed.

(** Six bytes before the end of a file of ten; and a range that is refused although its
    last byte is the largest offset. *)
Lemma flock_range_exact_witness :
  (exists s e, flock_range (inr 10) (Flock (-4) (-6) 0 F_RDLCK SEEK_END) = Some (inr (s, e)) /\
     forall b, covers (Lockf 0 0 F_RDLCK s e 0 None []) b <-> 0 <= b < 6) /\
  flock_range (inr OFF_MAX) (Flock 1 (-5) 0 F_RDLCK SEEK_END) = Some (inl EOVERFLOW).
Proof.
  split.
  - destruct (flock_range_exact (inr 10) (Flock (-4) (-6) 0 F_RDLCK SEEK_END)) as (r & Hr & _ & _ & Hin);
      [split; cbn; lia|split; cbn; lia|intros size [= <-]; unfold in_word; lia|].
    destruct Hin as (s & e & -> & Hb); [cbn; unfold OFF_MAX; lia|cbn; lia|]. exists s, e. split; [exact Hr|].
    exact (proj2 (Hb 0%nat 0 F_RDLCK 0 None)).
  - destruct (flock_range_exact (inr OFF_MAX) (Flock 1 (-5) 0 F_RDLCK SEEK_END)) as (r & Hr & Hover & _);
      [split; cbn; lia|split; cbn; lia|intros size [= <-]; unfold in_word, OFF_MAX; lia|].
    rewrite Hr. f_equal. apply Hover. cbn. unfold OFF_MAX. lia.
Defined.

(** ** What F_GETLK reports *)

(** The search ends. *)
Lemma getlock_total pid chain lock fl matchpid : exists fl', lf_getlock pid chain lock fl matchpid = Some fl'.
Proof.
  unfold lf_getlock, lf_getblock.
  assert (forall fuel, (length chain < fuel)%nat -> exists block, getblock_loop fuel pid chain lock matchpid = Some block) as Hl.
  { intros fuel. revert chain. induction fuel as [|fuel IH]; intros chain Hf; [lia|]. cbn [getblock_loop].
    destruct (find_others lock chain) as [[-> _]|(ov & passed & l & rest & -> & Hov & -> & _)]; [by eexists|].
    rewrite bind_some. cbv beta iota. rewrite length_app in Hf. cbn in Hf. specialize (IH rest ltac:(lia)).
    destruct ov; [done|..]; repeat case_decide; eauto. }
  destruct (Hl (S (length chain)) ltac:(lia)) as [block ->]. by eexists.
Qed.

(** The range that is reported describes the lock. *)
Lemma getlock_range pid vnode_size chain lock fl block fl' :
  lock_ok block -> lf_getblock pid chain lock (-1) = Some (Some block) -> lf_getlock pid chain lock fl (-1) = Some fl' ->
  l_type fl' = lf_type block /\
  exists e, flock_range vnode_size fl' = Some (inr (lf_start block, e)) /\ LF_END (set_end block e) = LF_END block.
Proof.
  intros [[Hs0 Hse] HeM] Hb Hg. unfold lf_getlock in Hg. rewrite Hb, bind_some in Hg. injection Hg as <-.
  cbn [l_type]. split; [done|]. unfold flock_range. cbn [l_whence l_start l_len].
  destruct (decide (lf_end block = -1 \/ (lf_start block = 0 /\ LF_END block = OFF_MAX))) as [Hall|Hpart].
  - assert (LF_END block = OFF_MAX) as ->.
    { destruct Hall as [Hm|[_ ?]]; [|done]. unfold LF_END. by rewrite decide_True. }
    exists (-1). split; [|done]. rewrite (decide_True (P := SEEK_SET = SEEK_SET \/ _)) by auto.
    rewrite bind_some. by rewrite (decide_False (P := lf_start block < 0)) by lia.
  - assert (LF_END block = lf_end block) as He by (unfold LF_END; rewrite decide_False by tauto; done).
    exists (LF_END block). split; [|by rewrite LF_END_set_end by lia].
    rewrite (decide_True (P := SEEK_SET = SEEK_SET \/ _)) by auto. rewrite bind_some.
    rewrite decide_False by lia. unfold OFF_MAX in *. rewrite range_of_start by (unfold is_off_t, OFF_MAX; lia).
    rewrite !decide_False by (unfold OFF_MAX; lia). do 3 f_equal; lia.
Qed.

(** ** lf_transferlock *)

Section Transfer.
Context (new : Z) (transfer : lockf).
Context (Hfirst : lf_start transfer = 0) (Hlast : LF_END transfer = OFF_MAX).
Local Abbreviation id := (lf_id transfer).

Lemma transfer_own fuel x before mid post :
  -1 <= x -> own id x mid -> foreign id post -> (length mid < fuel)%nat ->
  transfer_loop fuel new before (mid ++ post) transfer = Some (before ++ (transfer_one new <$> mid) ++ post).
Proof.
  revert x before mid. induction fuel as [|fuel IH]; intros x before mid Hx Ho Hp Hf; [lia|].
  cbn [transfer_loop]. destruct mid as [|l mid].
  { cbn [app]. rewrite Lockf.find_none by done. cbn. by rewrite app_nil_r. }
  destruct (find_own transfer x (l :: mid) post false Ho Hp) as (ov & A & B & -> & HAB & HA & Hov); [by right; left|].
  pose proof Ho as (Hid & Hxl & Hl & Hm).
  destruct A as [|y A].
  2:{ injection HAB as <- _. apply Forall_cons in HA as [HA _]. lia. }
  cbn in HAB. subst B. rewrite bind_some. cbv beta iota.
  assert (ov <> OVERLAP_NONE) as Hn. { intros ->. lia. }
  cbn [app]. transitivity (transfer_loop fuel new (before ++ [] ++ [transfer_one new l]) (mid ++ post) transfer).
  { by destruct ov. }
  rewrite (IH (LF_END l)); [|lia|done|done|cbn in Hf; lia]. cbn. by rewrite <-app_assoc.
Qed.

Lemma transfer_skip fuel before pre rest :
  foreign id pre ->
  transfer_loop (S fuel) new before (pre ++ rest) transfer = transfer_loop (S fuel) new (before ++ pre) rest transfer.
Proof.
  intros Hpre. cbn [transfer_loop]. rewrite find_foreign by done.
  destruct (lf_findoverlap rest transfer SELF false) as [[[ov passed] rest']|]; [|done].
  rewrite !bind_some. cbv beta iota. destruct ov, rest' as [|l rest']; rewrite <-?app_assoc; done.
Qed.
End Transfer.

(** The locks of [id] become those of [new]. *)
Definition rename (id new : Z) (l : lockf) : lockf := if decide (lf_id l = id) then transfer_one new l else l.

Section Rename.
Context (id new : Z) (Hne : new <> id).
Local Abbreviation posix := (fun l => lf_id l = id -> has (lf_flags l) F_POSIX = true).

Lemma rename_held chain i b :
  Forall posix chain -> foreign new chain ->
  held (rename id new <$> chain) i b =
  if decide (i = new) then held chain id b else if decide (i = id) then None else held chain i b.
Proof.
  induction chain as [|l chain IH]; [by intros; repeat case_decide|].
  intros [Hl Hc]%Forall_cons [Hn Hf]%Forall_cons. rewrite fmap_cons. cbn [held]. rewrite (IH Hc Hf). unfold rename.
  destruct (decide (lf_id l = id)) as [Hid|Hid].
  - unfold transfer_one. rewrite (Hl Hid). unfold covers in *. cbn.
    change (LF_END (set_owner l new (Some new))) with (LF_END l). repeat case_decide; try done; naive_solver.
  - unfold covers in *. repeat case_decide; try done; naive_solver.
Qed.
End Rename.

Definition swap (id new i : Z) : Z := if decide (i = id) then new else if decide (i = new) then id else i.

Lemma swap_inj id new : Inj (=) (=) (swap id new).
Proof. intros i j. unfold swap. repeat case_decide; congruence. Qed.

Lemma rename_posix id new l :
  lf_id l = id -> has (lf_flags l) F_POSIX = true -> rename id new l = set_owner l new (Some new).
Proof. intros Hid Hp. unfold rename, transfer_one. by rewrite decide_True, Hp. Qed.

Lemma own_rename id new x mid :
  Forall (fun l => has (lf_flags l) F_POSIX = true) mid -> own id x mid -> own new x (rename id new <$> mid).
Proof.
  intros Hp. revert x. induction Hp as [|l mid Hl _ IH]; intros x; cbn; [done|]. intros (Hid & Hx & Hle & Ho).
  rewrite rename_posix by done. split_and!; try done; try apply Hle. by apply IH.
Qed.

Lemma rename_other id new x i mid : i <> id -> own i x mid -> rename id new <$> mid = mid.
Proof.
  intros Hi Ho%own_ids. induction Ho as [|l mid Hl _ IH]; [done|]. rewrite fmap_cons, IH. unfold rename.
  by rewrite decide_False by congruence.
Qed.

Lemma rename_addr id new l : lf_addr (rename id new l) = lf_addr l.
Proof. unfold rename, transfer_one. repeat case_match; done. Qed.

Lemma rename_wf id new chain :
  Forall (fun l => lf_id l = id -> has (lf_flags l) F_POSIX = true) chain -> foreign new chain ->
  chain_wf chain -> chain_wf (rename id new <$> chain).
Proof.
  intros Hposix Hf [(gs & -> & Hnd & Hgs) Hadr]. split.
  - exists ((fun g : Z * list lockf => (swap id new g.1, rename id new <$> g.2)) <$> gs). split_and!.
    + clear. induction gs as [|[i m] gs IH]; [done|]. cbn. rewrite fmap_app. f_equal. apply IH.
    + rewrite <-list_fmap_compose. change (NoDup ((swap id new ∘ fst) <$> gs)). rewrite list_fmap_compose.
      apply NoDup_fmap_2; [apply swap_inj|done].
    + apply Forall_fmap, Forall_forall. intros [i m] Hin. cbn.
      rewrite Forall_forall in Hgs. specialize (Hgs _ Hin). cbn in Hgs.
      assert (m ⊆ mjoin gs.*2) as Hsub.
      { intros l Hl. apply list_elem_of_join. exists m. split; [done|]. apply list_elem_of_fmap. by exists (i, m). }
      unfold swap. destruct (decide (i = id)) as [->|Hi]; [|destruct (decide (i = new)) as [->|Hn]].
      * apply own_rename; [|done]. apply Forall_forall. intros l Hl.
        pose proof (own_ids _ _ _ Hgs) as Hids. rewrite Forall_forall in Hids, Hposix. auto.
      * destruct m as [|l m]; [done|]. unfold foreign in Hf. rewrite Forall_forall in Hf.
        destruct (Hf l); [apply Hsub; by left|by destruct Hgs].
      * by rewrite (rename_other id new (-1) i).
  - rewrite <-list_fmap_compose.
    rewrite (list_fmap_ext (lf_addr ∘ rename id new) lf_addr); [done|]. intros ? l _. apply rename_addr.
Qed.

Lemma transferlock_rename new chain transfer :
  chain_wf chain -> lf_start transfer = 0 -> LF_END transfer = OFF_MAX ->
  lf_transferlock new chain transfer = Some (rename (lf_id transfer) new <$> chain).
Proof.
  intros Hwf Hs He.
  destruct (chain_focus chain (lf_id transfer) Hwf) as (pre & mid & post & -> & Hpre & Hpost & Ho & _).
  unfold lf_transferlock. rewrite transfer_skip by done.
  rewrite (transfer_own new transfer Hs He _ (-1)); [|lia|done|done|rewrite !length_app; lia].
  assert (forall c, foreign (lf_id transfer) c -> rename (lf_id transfer) new <$> c = c) as Hsame.
  { intros c Hc. induction Hc as [|l c Hl _ IH]; [done|]. rewrite fmap_cons, IH. unfold rename. by rewrite decide_False. }
  rewrite !fmap_app, (Hsame pre), (Hsame post) by done. cbn [app].
  assert (transfer_one new <$> mid = rename (lf_id transfer) new <$> mid) as ->; [|done]. apply own_ids in Ho. clear -Ho.
  induction Ho as [|l mid Hl _ IH]; [done|]. rewrite !fmap_cons, IH. unfold rename. by rewrite decide_True.
Qed.

(** [lf_transferlock] over the whole file gives all of a process's POSIX locks to
    the process that replaces it, byte for byte, leaves those of the other owners, and
    keeps the list well formed. *)
Theorem transferlock_moves (new : Z) (chain : list lockf) (transfer : lockf) :
  chain_wf chain -> lf_start transfer = 0 -> LF_END transfer = OFF_MAX -> new <> lf_id transfer -> foreign new chain ->
  Forall (fun l => lf_id l = lf_id transfer -> has (lf_flags l) F_POSIX = true) chain ->
  exists chain', lf_transferlock new chain transfer = Some chain' /\ chain_wf chain' /\
    forall i b, held chain' i b =
      if decide (i = new) then held chain (lf_id transfer) b
      else if decide (i = lf_id transfer) then None else held chain i b.
Proof.
  intros Hwf Hs He Hne Hf Hposix. exists (rename (lf_id transfer) new <$> chain).
  split; [by apply transferlock_rename|split; [by apply rename_wf|intros i b; by apply rename_held]].
Qed.

Lemma transferlock_moves_witness :
  exists chain', lf_transferlock 9 [Lockf 1 F_POSIX F_WRLCK 0 9 7 (Some 7) []; Lockf 2 F_POSIX F_RDLCK 20 (-1) 8 (Some 8) [3%nat]]
    (Lockf 4 F_POSIX F_TRANSFER 0 (-1) 8 (Some 9) []) =
    Some chain' /\ held chain' 9 25 = Some F_RDLCK /\ held chain' 8 25 = None /\ held chain' 7 5 = Some F_WRLCK.
Proof.
  destruct (transferlock_moves 9
    [Lockf 1 F_POSIX F_WRLCK 0 9 7 (Some 7) []; Lockf 2 F_POSIX F_RDLCK 20 (-1) 8 (Some 8) [3%nat]]
    (Lockf 4 F_POSIX F_TRANSFER 0 (-1) 8 (Some 9) [])) as (chain' & Hrun & _ & Hheld).
  - split.
    + exists [(7, [Lockf 1 F_POSIX F_WRLCK 0 9 7 (Some 7) []]); (8, [Lockf 2 F_POSIX F_RDLCK 20 (-1) 8 (Some 8) [3%nat]])].
      split; [done|]. split; [apply (bool_decide_unpack _); vm_compute; done|].
      do 2 (apply Forall_cons; split; [cbn; split_and!; done|]). apply Forall_nil. done.
    + apply (bool_decide_unpack _). vm_compute. done.
  - done.
  - done.
  - done.
  - repeat constructor; done.
  - repeat constructor; done.
  - exists chain'. split; [exact Hrun|]. rewrite !Hheld. done.
Defined.
