(* ===== verification/LockfInv.v ===== *)
(** * Advisory byte-range locks: invariants

    The states that the operations of Lockf and LockfWait reach.  [lstep] is one
    operation on the vnode: a new request, a request that wakes up (with any error, at
    any time), an unlock, a transfer of POSIX locks, and the abort of the sleepers.  [lock_inv] holds in every state
    reached from the one without locks: the list is well formed, two owners never hold
    conflicting locks on a byte, and the queues are consistent with the [lf_next] of the
    requests, so that no sleeper is ever lost. *)
From S2P Require Import Prelude Lockf LockfWait.
From stdpp Require Import gmap.

Local Open Scope Z_scope.

(** ** Queues *)

(** [w] is in the queue of the structure at [n], one of [L] or a request. *)
Definition queued (L : list lockf) (Q : sleepers) (w n : nat) : Prop :=
  (exists l, l ∈ L /\ lf_addr l = n /\ w ∈ lf_blkhd l) \/ (exists s, Q !! n = Some s /\ w ∈ lf_blkhd (sl_lock s)).

(** The queues of the structures [L] and of the requests are what the [lf_next]s say;
    a request that is blocked has no queue of its own. *)
Record queues_ok (L : list lockf) (Q : sleepers) : Prop := {
  q_next w n : queued L Q w n <-> exists s, Q !! w = Some s /\ sl_next s = Some n;
  q_nodup l : l ∈ L -> NoDup (lf_blkhd l);
  q_nodup_req w s : Q !! w = Some s -> NoDup (lf_blkhd (sl_lock s));
  q_addrs : NoDup (lf_addr <$> L);
  q_apart l : l ∈ L -> Q !! lf_addr l = None;
  q_key w s : Q !! w = Some s -> lf_addr (sl_lock s) = w;
  q_quiet w s : Q !! w = Some s -> sl_next s <> None -> lf_blkhd (sl_lock s) = [];
  q_range w s : Q !! w = Some s -> lock_ok (sl_lock s)
}.

(** *** Permutations and fields *)

#[export] Instance queues_ok_perm : Proper ((≡ₚ) ==> (=) ==> iff) queues_ok.
Proof.
  assert (forall L L' Q, L ≡ₚ L' -> queues_ok L Q -> queues_ok L' Q) as H.
  { intros L L' Q HL [H1 H2 H3 H4 H5 H6 H7 H8].
    assert (forall l, l ∈ L' <-> l ∈ L) as HLe by (intros l; by rewrite HL).
    constructor; [|naive_solver|done| |naive_solver|done..].
    - intros w n. rewrite <-H1. unfold queued. naive_solver.
    - by rewrite <-HL. }
  intros L L' HL Q ? <-. split; apply H; done.
Qed.

(** Only the address and the queue matter. *)
Lemma queues_same l l' L Q :
  lf_addr l' = lf_addr l -> lf_blkhd l' = lf_blkhd l -> queues_ok (l :: L) Q -> queues_ok (l' :: L) Q.
Proof.
  intros Ha Hb [H1 H2 H3 H4 H5 H6 H7 H8]. constructor; try done.
  - intros w n. rewrite <-H1. unfold queued. setoid_rewrite elem_of_cons. naive_solver congruence.
  - intros x [->|Hx]%elem_of_cons; [rewrite Hb|]; apply H2; set_solver.
  - cbn in *. by rewrite Ha.
  - intros x [->|Hx]%elem_of_cons; [rewrite Ha|]; apply H5; set_solver.
Qed.

Lemma queued_nil l L Q w n : lf_blkhd l = [] -> queued (l :: L) Q w n <-> queued L Q w n.
Proof.
  intros Hb. unfold queued. split.
  - intros [(x & [->|Hx]%elem_of_cons & ? & Hw)|?]; [rewrite Hb in Hw; by apply elem_of_nil in Hw|left; by exists x|by right].
  - intros [(x & Hx & ?)|?]; [left; exists x; split; [by right|done]|by right].
Qed.

(** A structure without waiters may be freed, and a new one linked. *)
Lemma queues_free l L Q : lf_blkhd l = [] -> queues_ok (l :: L) Q -> queues_ok L Q.
Proof.
  intros Hb [H1 H2 H3 H4 H5 H6 H7 H8]. rewrite fmap_cons, NoDup_cons in H4. constructor; try done; try tauto.
  - intros w n. by rewrite <-H1, queued_nil.
  - intros x Hx. apply H2. by right.
  - intros x Hx. apply H5. by right.
Qed.

Lemma queues_link l L Q :
  lf_blkhd l = [] -> lf_addr l ∉ lf_addr <$> L -> Q !! lf_addr l = None -> queues_ok L Q -> queues_ok (l :: L) Q.
Proof.
  intros Hb HL HQ [H1 H2 H3 H4 H5 H6 H7 H8]. constructor; try done.
  - intros w n. by rewrite <-H1, queued_nil.
  - intros x [->|Hx]%elem_of_cons; [rewrite Hb; constructor|auto].
  - by apply NoDup_cons.
  - intros x [->|Hx]%elem_of_cons; auto.
Qed.

(** *** lf_wakelock and lf_move_blocked *)

Lemma lookup_point_to n q Q w :
  point_to n q Q !! w = if decide (w ∈ q) then set_next n <$> Q !! w else Q !! w.
Proof.
  induction q as [|x q IH]; [cbn; by rewrite decide_False by apply not_elem_of_nil|].
  unfold point_to. cbn [foldr]. fold (point_to n q Q). destruct (decide (w = x)) as [->|Hwx].
  - rewrite lookup_alter_eq, IH, (decide_True (P := x ∈ x :: q)) by set_solver.
    case_decide; [|done]. by destruct (Q !! x) as [[]|].
  - rewrite lookup_alter_ne, IH by done. destruct (decide (w ∈ q)); [by rewrite decide_True by set_solver|].
    by rewrite decide_False by set_solver.
Qed.

(** The requests in a queue are blocked by its owner, and are no structure of the list. *)
Lemma queues_waiter l L Q w :
  queues_ok (l :: L) Q -> w ∈ lf_blkhd l -> exists s, Q !! w = Some s /\ sl_next s = Some (lf_addr l).
Proof. intros HQ Hw. apply (q_next _ _ HQ). left. exists l. split; [by left|done]. Qed.

(** Two queues have no request in common. *)
Lemma queues_disjoint l L Q w n : queues_ok (l :: L) Q -> w ∈ lf_blkhd l -> queued (l :: L) Q w n -> n = lf_addr l.
Proof.
  intros HQ Hw Hn. destruct (queues_waiter l L Q w HQ Hw) as (s & Hs & Hnext).
  apply (q_next _ _ HQ) in Hn as (s' & Hs' & Hnext'). congruence.
Qed.

Lemma queues_elsewhere l L Q w : queues_ok (l :: L) Q -> ~ queued L Q w (lf_addr l).
Proof.
  intros HQ [(x & Hx & Ha & _)|(s & Hs & _)].
  - pose proof (q_addrs _ _ HQ) as Hnd. rewrite fmap_cons, NoDup_cons in Hnd. destruct Hnd as [Hnd _]. destruct Hnd.
    rewrite <-Ha. by apply list_elem_of_fmap_2.
  - pose proof (q_apart _ _ HQ l ltac:(by left)). congruence.
Qed.

Lemma queued_cons l L Q w n : queued (l :: L) Q w n <-> (n = lf_addr l /\ w ∈ lf_blkhd l) \/ queued L Q w n.
Proof.
  unfold queued. split.
  - intros [(x & [->|Hx]%elem_of_cons & <- & ?)|?]; [by left|right; left; by exists x|by right; right].
  - intros [[-> ?]|[(x & ? & ?)|?]]; [left; exists l; split; [by left|done]|left; exists x; split; [by right|done]|by right].
Qed.

Lemma queued_point_to L n q Q w m : queued L (point_to n q Q) w m <-> queued L Q w m.
Proof.
  unfold queued. assert (forall s', point_to n q Q !! m = Some s' -> exists s, Q !! m = Some s /\ sl_lock s = sl_lock s') as H1.
  { intros s'. rewrite lookup_point_to. case_decide; [|naive_solver]. destruct (Q !! m) as [s|]; [|done]. intros [= <-].
    by exists s. }
  assert (forall s, Q !! m = Some s -> exists s', point_to n q Q !! m = Some s' /\ sl_lock s' = sl_lock s) as H2.
  { intros s Hs. rewrite lookup_point_to, Hs. case_decide; by eexists. }
  split; (intros [?|(s & Hs & Hw)]; [by left|right]).
  - destruct (H1 s Hs) as (s' & Hs' & He). exists s'. by rewrite He.
  - destruct (H2 s Hs) as (s' & Hs' & He). exists s'. by rewrite He.
Qed.

(** The fields of [queues_ok] that only depend on the requests, when requests point
    elsewhere. *)
Lemma point_to_inv n q Q w s' :
  point_to n q Q !! w = Some s' ->
  exists s, Q !! w = Some s /\ sl_lock s' = sl_lock s /\ sl_next s' = if decide (w ∈ q) then n else sl_next s.
Proof.
  rewrite lookup_point_to. case_decide; [|naive_solver]. destruct (Q !! w) as [s|]; [|done]. intros [= <-]. by exists s.
Qed.

(** Some of the waiters are woken. *)
Lemma queues_wake l L Q q1 q2 :
  lf_blkhd l ≡ₚ q1 ++ q2 -> queues_ok (l :: L) Q -> queues_ok (set_blkhd l q2 :: L) (point_to None q1 Q).
Proof.
  intros Hq HQ. pose proof HQ as [H1 H2 H3 H4 H5 H6 H7 H8].
  assert (NoDup (q1 ++ q2)) as (_ & Hd & Hn2)%NoDup_app by (rewrite <-Hq; apply H2; by left).
  assert (forall w, w ∈ lf_blkhd l <-> w ∈ q1 \/ w ∈ q2) as Hin by (intros w; by rewrite Hq, elem_of_app).
  constructor.
  - intros w n. rewrite queued_cons. cbn [lf_addr lf_blkhd set_blkhd]. rewrite queued_point_to.
    transitivity (queued (l :: L) Q w n /\ w ∉ q1).
    + rewrite queued_cons, Hin. split; [|naive_solver]. intros [[-> Hw]|Hw]; [naive_solver|]. split; [by right|].
      intros Hw1. assert (n = lf_addr l) as ->; [|by apply (queues_elsewhere l L Q w HQ)].
      apply (queues_disjoint l L Q w n HQ); [naive_solver|]. apply queued_cons. by right.
    + rewrite H1. split.
      * intros [(s & Hs & Hn) Hw]. exists s. by rewrite lookup_point_to, decide_False.
      * intros (s & (s0 & Hs0 & _ & Hn)%point_to_inv & Hn'). rewrite Hn in Hn'. case_decide; [done|]. eauto.
  - intros x [->|Hx]%elem_of_cons; [done|]. apply H2. by right.
  - intros w s (s0 & Hs0 & -> & _)%point_to_inv. eauto.
  - done.
  - intros x Hx. rewrite lookup_point_to. assert (Q !! lf_addr x = None) as ->; [|by case_decide].
    apply elem_of_cons in Hx as [->|Hx]; [apply (H5 l); by left|apply H5; by right].
  - intros w s (s0 & Hs0 & -> & _)%point_to_inv. eauto.
  - intros w s (s0 & Hs0 & -> & ->)%point_to_inv. case_decide; [done|eauto].
  - intros w s (s0 & Hs0 & -> & _)%point_to_inv. eauto.
Qed.

(** The queue of one structure goes to another. *)
Lemma queues_move to from L Q :
  queues_ok (to :: from :: L) Q ->
  queues_ok (set_blkhd to (lf_blkhd to ++ lf_blkhd from) :: set_blkhd from [] :: L)
    (point_to (Some (lf_addr to)) (lf_blkhd from) Q).
Proof.
  intros HQ. pose proof HQ as [H1 H2 H3 H4 H5 H6 H7 H8].
  assert (queues_ok (from :: to :: L) Q) as HQ' by (revert HQ; apply queues_ok_perm; [constructor|done]).
  assert (forall w n, w ∈ lf_blkhd from -> queued (to :: L) Q w n -> False) as Hdis.
  { intros w n Hf Hn. apply (queues_elsewhere from (to :: L) Q w HQ').
    rewrite <-(queues_disjoint from (to :: L) Q w n HQ' Hf); [done|]. apply queued_cons. by right. }
  constructor.
  - intros w n. rewrite queued_cons. cbn [lf_addr lf_blkhd set_blkhd]. rewrite queued_nil, queued_point_to by done.
    rewrite elem_of_app. destruct (decide (w ∈ lf_blkhd from)) as [Hf|Hf].
    + destruct (queues_waiter from (to :: L) Q w HQ' Hf) as (s & Hs & Hn).
      rewrite lookup_point_to, decide_True, Hs by done. cbn. split.
      * intros [[-> _]|Hq]; [by eexists|]. destruct (Hdis w n Hf). apply queued_cons. by right.
      * intros (s' & [= <-] & [= <-]). left. split; [done|by right].
    + rewrite lookup_point_to, decide_False by done. rewrite <-H1, !queued_cons. naive_solver.
  - intros x [->|[->|Hx]%elem_of_cons]%elem_of_cons; [|constructor|apply H2; set_solver]. cbn. apply NoDup_app.
    split_and!; [apply H2; by left| |apply H2; set_solver]. intros w Ht Hf. apply (Hdis w (lf_addr to) Hf).
    apply queued_cons. by left.
  - intros w s (s0 & Hs0 & -> & _)%point_to_inv. eauto.
  - done.
  - intros x Hx. rewrite lookup_point_to. assert (Q !! lf_addr x = None) as ->; [|by case_decide].
    apply elem_of_cons in Hx as [->|[->|Hx]%elem_of_cons]; [apply (H5 to)|apply (H5 from)|apply H5]; set_solver.
  - intros w s (s0 & Hs0 & -> & _)%point_to_inv. eauto.
  - intros w s (s0 & Hs0 & -> & ->)%point_to_inv. case_decide as Hw; [|eauto]. intros _.
    destruct (queues_waiter from (to :: L) Q w HQ' Hw) as (s1 & Hs & Hn). eapply H7; [done|]. congruence.
  - intros w s (s0 & Hs0 & -> & _)%point_to_inv. eauto.
Qed.

(** A request that is not blocked counts as a structure like those of the list. *)
Lemma queues_lift w s L Q :
  Q !! w = Some s -> sl_next s = None -> queues_ok L Q -> queues_ok (sl_lock s :: L) (delete w Q).
Proof.
  intros Hs Hn HQ. pose proof HQ as [H1 H2 H3 H4 H5 H6 H7 H8]. pose proof (H6 w s Hs) as Hk. constructor.
  - intros x n. rewrite queued_cons, Hk. split.
    + intros Hq. assert (queued L Q x n) as (s' & Hs' & Hn')%H1.
      { destruct Hq as [[-> ?]|[?|(s' & [_ ?]%lookup_delete_Some & ?)]]; [right; by exists s|by left|right; by exists s']. }
      exists s'. split; [|done]. apply lookup_delete_Some. split; [congruence|done].
    + intros (s' & [Hx Hs']%lookup_delete_Some & Hn'). assert (queued L Q x n) as Hq by (apply H1; by exists s').
      destruct Hq as [?|(s1 & Hs1 & ?)]; [right; by left|]. destruct (decide (n = w)) as [->|Hnw].
      * left. split; [done|]. congruence.
      * right. right. exists s1. by rewrite lookup_delete_ne.
  - intros x [->|Hx]%elem_of_cons; eauto.
  - intros x s' [_ ?]%lookup_delete_Some. eauto.
  - rewrite fmap_cons, NoDup_cons. split; [|done]. intros (l & Hl & Hin)%list_elem_of_fmap. pose proof (H5 l Hin) as Hno.
    rewrite <-Hl, Hk in Hno. congruence.
  - intros x [->|Hx]%elem_of_cons; [rewrite Hk; apply lookup_delete_eq|]. apply lookup_delete_None. right. auto.
  - intros x s' [_ ?]%lookup_delete_Some. eauto.
  - intros x s' [_ ?]%lookup_delete_Some. eauto.
  - intros x s' [_ ?]%lookup_delete_Some. eauto.
Qed.

Lemma queues_put l L Q :
  lock_ok l -> queues_ok (l :: L) Q -> queues_ok L (<[lf_addr l := Sleeper l None]> Q).
Proof.
  intros Hok HQ. pose proof HQ as [H1 H2 H3 H4 H5 H6 H7 H8]. pose proof (H5 l ltac:(by left)) as Hl.
  rewrite fmap_cons, NoDup_cons in H4. constructor.
  - intros x n. transitivity (queued (l :: L) Q x n).
    + rewrite queued_cons. unfold queued. destruct (decide (n = lf_addr l)) as [->|Hnl].
      * rewrite lookup_insert_eq. rewrite Hl. naive_solver.
      * rewrite lookup_insert_ne by done. naive_solver.
    + rewrite H1. destruct (decide (x = lf_addr l)) as [->|Hxl].
      * rewrite lookup_insert_eq, Hl. naive_solver.
      * by rewrite lookup_insert_ne by done.
  - intros x Hx. apply H2. by right.
  - intros x s [[<- <-]|[_ ?]]%lookup_insert_Some; [apply H2; by left|eauto].
  - tauto.
  - intros x Hx. apply lookup_insert_None. split; [apply H5; by right|]. intros Ha. destruct H4 as [H4 _]. apply H4.
    rewrite Ha. by apply list_elem_of_fmap_2.
  - intros x s [[<- <-]|[_ ?]]%lookup_insert_Some; eauto.
  - intros x s [[<- <-]|[_ ?]]%lookup_insert_Some; [done|eauto].
  - intros x s [[<- <-]|[_ ?]]%lookup_insert_Some; eauto.
Qed.

Lemma wakelock_empties l f Q : lf_blkhd (lf_wakelock l f Q).1 = [].
Proof. unfold lf_wakelock. by destruct (lf_blkhd l) eqn:E. Qed.

Lemma queues_wakelock l f L Q :
  queues_ok (l :: L) Q -> queues_ok ((lf_wakelock l f Q).1 :: L) (lf_wakelock l f Q).2.
Proof.
  intros HQ. unfold lf_wakelock. destruct (lf_blkhd l) as [|w rest] eqn:Hq; [done|]. cbn [fst snd].
  destruct (f || negb (has (lf_flags l) F_WAKE1_SAFE)).
  { apply queues_wake; [by rewrite Hq, app_nil_r|done]. }
  destruct (queues_waiter l L Q w HQ) as (s & Hs & Hn); [rewrite Hq; by left|].
  assert (lf_blkhd (sl_lock s) = []) as Hquiet by (apply (q_quiet _ _ HQ w s Hs); congruence).
  pose proof (q_key _ _ HQ w s Hs) as Hk. pose proof (q_range _ _ HQ w s Hs) as Hr.
  assert (w ∉ rest) as Hw. { pose proof (q_nodup _ _ HQ l ltac:(by left)) as Hnd. rewrite Hq in Hnd. by apply NoDup_cons in Hnd as [? _]. }
  apply (queues_wake l L Q [w] rest) in HQ; [|by rewrite Hq].
  apply (queues_lift w (set_next None s)) in HQ; [|cbn; by rewrite lookup_alter_eq, Hs|done].
  apply queues_move, queues_put in HQ; [|done]. cbn [sl_lock set_next lf_addr lf_blkhd set_blkhd] in HQ.
  rewrite Hk, Hquiet in HQ. cbn [app] in HQ. eapply eq_rect; [exact HQ|]. f_equal.
  rewrite lookup_alter_eq, Hs. cbn. rewrite Hquiet. cbn [app].
  assert (forall rest', match rest with [] => alter (fun s0 => Sleeper (set_blkhd (sl_lock s0) (lf_blkhd (sl_lock s0) ++ rest')) None) w Q
    | _ :: _ => point_to (Some w) rest (alter (fun s0 => Sleeper (set_blkhd (sl_lock s0) (lf_blkhd (sl_lock s0) ++ rest')) None) w Q) end =
    point_to (Some w) rest (alter (fun s0 => Sleeper (set_blkhd (sl_lock s0) (lf_blkhd (sl_lock s0) ++ rest')) None) w Q)) as ->
    by (intros; by destruct rest).
  apply map_eq. intros x. rewrite lookup_point_to. destruct (decide (x = w)) as [->|Hx].
  - rewrite decide_False by done. rewrite lookup_insert_eq, lookup_alter_eq, Hs. cbn. by rewrite Hquiet.
  - rewrite lookup_insert_ne, lookup_point_to, lookup_delete_ne, !lookup_alter_ne by done. done.
Qed.

Lemma queues_move_blocked to from L Q :
  queues_ok (to :: from :: L) Q ->
  queues_ok ((lf_move_blocked to from Q).1 :: set_blkhd from [] :: L) (lf_move_blocked to from Q).2.
Proof. apply queues_move. Qed.

(** *** The loops *)

Lemma find_parts lf lock ty found ov passed rest :
  lf_findoverlap lf lock ty found = Some (ov, passed, rest) -> lf = passed ++ rest.
Proof.
  revert found passed. induction lf as [|l lf IH]; intros found passed; cbn [lf_findoverlap]; [by intros [= <- <- <-]|].
  assert (forall f, ('(ov, passed, rest) ← lf_findoverlap lf lock ty f; Some (ov, l :: passed, rest)) =
    Some (ov, passed, rest) -> l :: lf = passed ++ rest) as Hnext.
  { intros f Hf. destruct (lf_findoverlap lf lock ty f) as [[[ov' p] r]|] eqn:E; [|done]. injection Hf as <- <- <-.
    cbn. f_equal. eauto. }
  repeat case_decide; eauto; try (by intros [= <- <- <-]).
  destruct (overlap_case l lock) as [ov'|]; [|done]. by intros [= <- <- <-].
Qed.

Lemma point_to_dom n q Q a : point_to n q Q !! a = None <-> Q !! a = None.
Proof. rewrite lookup_point_to. case_decide; [|done]. destruct (Q !! a); done. Qed.

Lemma wakelock_dom l f Q a : (lf_wakelock l f Q).2 !! a = None <-> Q !! a = None.
Proof.
  unfold lf_wakelock. destruct (lf_blkhd l) as [|w rest]; [done|]. cbn [snd].
  case_match; [apply point_to_dom|]. destruct rest as [|v rest]; [apply lookup_alter_None|].
  case_match; [rewrite point_to_dom|]; apply lookup_alter_None.
Qed.

Section Loops.
Context (a : nat) (E : list lockf).

Lemma clear_queues fuel before lf unlock Q chain' Q' :
  clearlock_loop fuel a before lf unlock Q = Some (chain', Q') ->
  queues_ok (before ++ lf ++ E) Q -> a ∉ lf_addr <$> before ++ lf ++ E -> Q !! a = None ->
  queues_ok (chain' ++ E) Q'.
Proof.
  revert before lf Q. induction fuel as [|fuel IH]; intros before lf Q Hrun HQ Ha HaQ; [done|].
  cbn [clearlock_loop] in Hrun. destruct (lf_findoverlap lf unlock SELF false) as [[[ov passed] rest]|] eqn:Hf; [|done].
  apply find_parts in Hf as ->. rewrite bind_some in Hrun. cbv beta iota in Hrun.
  destruct (decide (ov = OVERLAP_NONE)) as [->|Hn].
  { injection Hrun as <- <-. by rewrite <-!app_assoc in *. }
  destruct rest as [|l next]; [by destruct ov|].
  assert (queues_ok (l :: (before ++ passed) ++ next ++ E) Q) as HQl.
  { revert HQ. apply queues_ok_perm; [|done]. rewrite <-!app_assoc. cbn. by rewrite !(Permutation_middle). }
  assert (a ∉ lf_addr <$> l :: (before ++ passed) ++ next ++ E) as Hal.
  { revert Ha. rewrite !fmap_app, !fmap_cons, !fmap_app. set_solver. } clear HQ Ha.
  apply (queues_wakelock l false) in HQl.
  assert ((lf_wakelock l false Q).2 !! a = None) as HaQ0 by by apply wakelock_dom.
  pose proof (wakelock_same l false Q) as [q Hq]. pose proof (wakelock_empties l false Q) as Hempty.
  destruct (lf_wakelock l false Q) as [l0 Q0]. cbn [fst snd] in *. subst l0. cbn in Hempty. subst q.
  assert (forall l', lf_addr l' = lf_addr l -> lf_blkhd l' = [] -> queues_ok (l' :: (before ++ passed) ++ next ++ E) Q0)
    as Hkeep by (intros l' ??; by apply (queues_same (set_blkhd l []))).
  destruct ov; [done|..].
  - injection Hrun as <- <-. rewrite <-app_assoc. by apply queues_free in HQl.
  - case_decide.
    + case_decide; [|done]. injection Hrun as <- <-. rewrite <-app_assoc. cbn. rewrite <-Permutation_middle. by apply Hkeep.
    + destruct (lf_split a (set_blkhd l []) unlock) as [[|l1 [|l2 split]]|] eqn:Hs; try done. rewrite bind_some in Hrun.
      injection Hrun as <- <-. unfold lf_split in Hs. rewrite decide_False in Hs by done.
      destruct (decide (LF_END (set_blkhd l []) = LF_END unlock)).
      * case_decide; [|done]. injection Hs as <- <- <-. rewrite <-app_assoc. cbn. rewrite <-Permutation_middle. by apply Hkeep.
      * case_decide; [|done]. injection Hs as <- <- <-. rewrite <-app_assoc. cbn. rewrite <-Permutation_middle.
        rewrite <-(Permutation_middle (before ++ passed) (next ++ E)), Permutation_swap.
        apply queues_link; [done|done|done|by apply Hkeep].
  - apply (IH _ _ _ Hrun); [by apply queues_free in HQl| |done]. set_solver.
  - case_decide; [|done]. apply (IH _ _ _ Hrun); [|set_solver|done].
    rewrite <-app_assoc. cbn. rewrite <-Permutation_middle. by apply Hkeep.
  - case_decide; [|done]. injection Hrun as <- <-. rewrite <-app_assoc. cbn. rewrite <-Permutation_middle. by apply Hkeep.
Qed.

(** A lock that is changed and whose waiters are woken, behind another one. *)
Lemma queues_wake_second lock l l1 R Q :
  lf_addr l1 = lf_addr l -> lf_blkhd l1 = lf_blkhd l -> queues_ok (lock :: l :: R) Q ->
  exists l2 Q', lf_wakelock l1 true Q = (l2, Q') /\ queues_ok (lock :: l2 :: R) Q' /\ lf_addr l2 = lf_addr l /\
    lf_blkhd l2 = [] /\ (Q' !! a = None <-> Q !! a = None).
Proof.
  intros Ha Hb HQ. rewrite Permutation_swap in HQ. apply (queues_same l l1) in HQ; [|done..].
  apply (queues_wakelock l1 true) in HQ. rewrite Permutation_swap in HQ.
  pose proof (wakelock_same l1 true Q) as [q Hq]. pose proof (wakelock_dom l1 true Q a). pose proof (wakelock_empties l1 true Q).
  destruct (lf_wakelock l1 true Q) as [l2 Q']. cbn in *. exists l2, Q'. split_and!; try done. subst l2. by rewrite <-Ha.
Qed.

(** The queue of the first goes to the second, and the first is freed; or the other way
    round. *)
Lemma queues_merge lock l R Q :
  queues_ok (lock :: l :: R) Q ->
  exists l2 Q', lf_move_blocked l lock Q = (l2, Q') /\ queues_ok (l2 :: R) Q' /\ lf_addr l2 = lf_addr l /\
    (Q' !! a = None <-> Q !! a = None).
Proof.
  intros HQ. rewrite Permutation_swap in HQ. apply queues_move_blocked in HQ. eexists _, _. split; [done|].
  split_and!; [|done|apply point_to_dom]. rewrite Permutation_swap in HQ. by apply queues_free in HQ.
Qed.

Lemma grant_contains_queues before lock l next Q chain' k Q' :
  (if decide (lf_start l = lf_start lock) then
     if decide (LF_END lock < OFF_MAX) then
       let '(overlap, Q) := lf_wakelock (set_start l (LF_END lock + 1)) true Q in
       Some (before ++ lock :: overlap :: next, lf_addr lock, Q)
     else None
   else
     pieces ← lf_split a l lock;
     match pieces with
     | overlap :: pieces =>
         let '(overlap, Q) := lf_wakelock overlap true Q in
         Some (before ++ overlap :: pieces ++ next, lf_addr lock, Q)
     | [] => None
     end) = Some (chain', k, Q') ->
  queues_ok (lock :: l :: before ++ next ++ E) Q -> a ∉ lf_addr <$> lock :: l :: before ++ next ++ E -> Q !! a = None ->
  queues_ok (chain' ++ E) Q'.
Proof.
  intros Hrun HQ Ha HaQ. destruct (decide (lf_start l = lf_start lock)) as [Hs|Hs].
  { case_decide; [|done]. destruct (queues_wake_second lock l (set_start l (LF_END lock + 1)) _ Q eq_refl eq_refl HQ)
      as (l2 & Q2 & Hw & HQ2 & _). rewrite Hw in Hrun. injection Hrun as <- <- <-.
    rewrite <-app_assoc. cbn. by rewrite <-!Permutation_middle. }
  unfold lf_split in Hrun. rewrite decide_False in Hrun by done.
  destruct (queues_wake_second lock l (set_end l (lf_start lock - 1)) _ Q eq_refl eq_refl HQ)
    as (l2 & Q2 & Hw & HQ2 & Ha2 & Hb2 & Hd).
  destruct (decide (LF_END l = LF_END lock)); (case_decide; [|done]); rewrite bind_some, Hw in Hrun;
    injection Hrun as <- <- <-; rewrite <-app_assoc; cbn; rewrite <-!Permutation_middle, (Permutation_swap lock); [done|].
  rewrite (Permutation_swap _ l2), (Permutation_swap _ lock).
  apply queues_link; [done| |by apply Hd|done]. revert Ha. cbn. by rewrite Ha2.
Qed.

Lemma grant_queues fuel linked before lock mid block Q chain' k Q' :
  grant_loop fuel a linked before lock mid block Q = Some (chain', k, Q') ->
  (linked = false -> mid = []) ->
  queues_ok (lock :: before ++ mid ++ block ++ E) Q -> a ∉ lf_addr <$> lock :: before ++ mid ++ block ++ E ->
  Q !! a = None -> queues_ok (chain' ++ E) Q'.
Proof.
  revert linked before lock mid block Q. induction fuel as [|fuel IH]; intros linked before lock mid block Q Hrun Hl HQ Ha HaQ; [done|].
  cbn [grant_loop] in Hrun. destruct (lf_findoverlap block lock SELF false) as [[[ov passed] rest]|] eqn:Hf; [|done].
  apply find_parts in Hf as ->. rewrite bind_some in Hrun. cbv beta iota zeta in Hrun.
  set (before' := if linked then before else before ++ passed) in *. set (mid' := if linked then mid ++ passed else []) in *.
  assert (before ++ mid ++ (passed ++ rest) ++ E = before' ++ mid' ++ rest ++ E) as Happ.
  { unfold before', mid'. destruct linked; [|rewrite Hl by done; cbn]; by rewrite <-!app_assoc. }
  assert (linked = false -> mid' = []) as Hmid by (by intros ->).
  rewrite Happ in HQ, Ha. clearbody before' mid'. clear Happ.
  destruct (decide (ov = OVERLAP_NONE)) as [->|Hn].
  { injection Hrun as <- <- <-. unfold assemble. rewrite <-!app_assoc. cbn. by rewrite <-Permutation_middle. }
  destruct rest as [|l next]; [by destruct ov|].
  assert (queues_ok (lock :: l :: before' ++ mid' ++ next ++ E) Q) as HQl.
  { revert HQ. apply queues_ok_perm; [|done]. constructor. cbn. by rewrite !Permutation_middle. }
  assert (forall l', lf_addr l' = lf_addr lock -> a ∉ lf_addr <$> l' :: l :: before' ++ mid' ++ next ++ E) as Hal.
  { intros l' Hl'. revert Ha. rewrite !fmap_cons, !fmap_app, !fmap_cons, Hl'. set_solver. } clear HQ Ha.
  destruct ov; [done|..].
  - (* equal *)
    assert (exists l1 Q1, (if decide (lf_type lock = F_RDLCK /\ lf_type l = F_WRLCK) then lf_wakelock l true Q
      else (l, Q)) = (l1, Q1) /\ queues_ok (lock :: l1 :: before' ++ mid' ++ next ++ E) Q1) as (l1 & Q1 & Hw & HQ1).
    { case_decide; [|by eexists _, _]. destruct (queues_wake_second lock l l _ Q eq_refl eq_refl HQl) as (l2 & Q2 & ? & ? & _).
      by eexists _, _. }
    rewrite Hw in Hrun.
    assert (queues_ok (lock :: set_type l1 (lf_type lock) :: before' ++ mid' ++ next ++ E) Q1) as HQ2.
    { rewrite Permutation_swap in *. by apply (queues_same l1). }
    destruct (queues_merge _ _ _ _ HQ2) as (l2 & Q2 & Hm & HQ3 & _). rewrite Hm in Hrun. destruct linked; [done|].
    rewrite Hmid in * by done. injection Hrun as <- <- <-. rewrite <-app_assoc. cbn. by rewrite <-Permutation_middle.
  - destruct linked; [done|]. rewrite Hmid in * by done. cbn [app] in *. case_decide.
    { destruct (queues_merge _ _ _ _ HQl) as (l2 & Q2 & Hm & HQ3 & _). rewrite Hm in Hrun. injection Hrun as <- <- <-.
      rewrite <-app_assoc. cbn. by rewrite <-Permutation_middle. }
    by apply (grant_contains_queues _ _ _ _ _ _ _ _ Hrun HQl (Hal lock eq_refl)).
  - assert (exists lock1 Q1, (if decide (lf_type lock = F_RDLCK /\ lf_type l = F_WRLCK)
      then (lock, (lf_wakelock l true Q).2) else lf_move_blocked lock l Q) = (lock1, Q1) /\
      queues_ok (lock1 :: before' ++ mid' ++ next ++ E) Q1 /\ lf_addr lock1 = lf_addr lock /\
      (Q1 !! a = None <-> Q !! a = None)) as (lock1 & Q1 & Hw & HQ1 & Ha1 & Hd).
    { case_decide.
      - destruct (queues_wake_second lock l l _ Q eq_refl eq_refl HQl) as (l2 & Q2 & -> & HQ2 & Ha2 & Hb2 & Hd).
        exists lock, Q2. split_and!; try done. rewrite Permutation_swap in HQ2. by apply queues_free in HQ2.
      - rewrite Permutation_swap in HQl. by apply queues_merge in HQl. }
    rewrite Hw in Hrun. apply (IH _ _ _ _ _ _ Hrun); [done|done| |by apply Hd].
    specialize (Hal lock1 Ha1). set_solver.
  - destruct linked; [done|]. rewrite Hmid in * by done. cbn [app] in *. case_decide; [|done].
    destruct (queues_wake_second lock l (set_end l (lf_start lock - 1)) _ Q eq_refl eq_refl HQl)
      as (l2 & Q2 & Hw & HQ2 & Ha2 & _ & Hd). rewrite Hw in Hrun. apply (IH _ _ _ _ _ _ Hrun); [done| | |by apply Hd].
    + rewrite <-app_assoc. cbn. by rewrite <-Permutation_middle.
    + specialize (Hal lock eq_refl). revert Hal. rewrite !fmap_cons, !fmap_app, fmap_cons, Ha2. set_solver.
  - case_decide; [|done].
    destruct (queues_wake_second lock l (set_start l (LF_END lock + 1)) _ Q eq_refl eq_refl HQl)
      as (l2 & Q2 & Hw & HQ2 & Ha2 & _ & Hd). rewrite Hw in Hrun. injection Hrun as <- <- <-.
    unfold assemble. rewrite <-!app_assoc. cbn. rewrite <-Permutation_middle. revert HQ2. apply queues_ok_perm; [|done].
    constructor. by rewrite !Permutation_middle.
Qed.
End Loops.

Lemma merge_queues E c c' : merge_step c c' -> queues_ok (c.1 ++ E) c.2 -> queues_ok (c'.1 ++ E) c'.2.
Proof.
  intros [A l lock B Q|A lock l B Q]; cbn [fst snd]; rewrite <-!app_assoc; cbn [app];
    rewrite <-!Permutation_middle; intros HQ.
  - rewrite Permutation_swap in HQ. apply (queues_same lock (set_start lock (lf_start l))) in HQ; [|done..].
    rewrite Permutation_swap in HQ. by destruct (queues_merge 0%nat _ _ _ _ HQ) as (l2 & Q2 & -> & ? & _).
  - apply (queues_same lock (set_end lock (lf_end l))) in HQ; [|done..].
    rewrite Permutation_swap in HQ. by destruct (queues_merge 0%nat _ _ _ _ HQ) as (l2 & Q2 & -> & ? & _).
Qed.

Lemma merges_queues c c' : rtc merge_step c c' -> queues_ok c.1 c.2 -> queues_ok c'.1 c'.2.
Proof.
  induction 1 as [|c1 c2 c3 Hs _ IH]; [done|]. intros HQ. apply IH. rewrite <-(app_nil_r c2.1).
  apply (merge_queues [] c1); [done|]. by rewrite app_nil_r.
Qed.

(** *** Assignments *)

(** Two structures that differ only in their queue, flags and owner. *)
Definition alike (l l' : lockf) : Prop :=
  lf_addr l = lf_addr l' /\ lf_type l = lf_type l' /\ lf_start l = lf_start l' /\ lf_end l = lf_end l' /\ lf_id l = lf_id l'.

Section Alike.
Context (f : lockf -> lockf) (Hf : forall l, alike (f l) l).

Lemma alike_held chain i b : held (f <$> chain) i b = held chain i b.
Proof.
  induction chain as [|l chain IH]; [done|]. rewrite fmap_cons. cbn [held]. rewrite IH. unfold covers, LF_END.
  destruct (Hf l) as (_ & -> & Hs & He & Hi). repeat case_decide; try done; naive_solver congruence.
Qed.

Lemma alike_own id x mid : own id x mid -> own id x (f <$> mid).
Proof.
  revert x. induction mid as [|l mid IH]; intros x; [done|]. rewrite fmap_cons. cbn [own]. unfold LF_END.
  destruct (Hf l) as (_ & _ & -> & -> & ->). intros (? & ? & ? & ?). split_and!; try done; [tauto|tauto|by apply IH].
Qed.

Lemma alike_wf chain : chain_wf chain -> chain_wf (f <$> chain).
Proof.
  intros [(gs & -> & Hnd & Hgs) Hadr]. split.
  - exists ((fun g : Z * list lockf => (g.1, f <$> g.2)) <$> gs). split_and!.
    + clear. induction gs as [|[i m] gs IH]; [done|]. cbn. rewrite fmap_app. f_equal. apply IH.
    + by rewrite <-list_fmap_compose.
    + apply Forall_fmap. eapply Forall_impl; [exact Hgs|]. intros [i m]. cbn. apply alike_own.
  - rewrite <-list_fmap_compose. rewrite (list_fmap_ext (lf_addr ∘ f) lf_addr); [done|]. intros ? l _. apply Hf.
Qed.
End Alike.

Lemma update_alike n f : (forall l, alike (f l) l) -> forall l, alike (if decide (lf_addr l = n) then f l else l) l.
Proof. intros Hf l. case_decide; [apply Hf|done]. Qed.

(** No structure of the list is at [n]. *)
Lemma update_none n f chain : n ∉ lf_addr <$> chain -> update_lock n f chain = chain.
Proof.
  unfold update_lock. induction chain as [|l c IH]; [done|]. rewrite !fmap_cons, not_elem_of_cons. intros [? ?].
  rewrite decide_False by done. by rewrite IH.
Qed.

(** An assignment in the list, with the list seen as the structure and the others. *)
Lemma update_focus n f chain :
  NoDup (lf_addr <$> chain) -> n ∈ lf_addr <$> chain ->
  exists b L, lf_addr b = n /\ b ∈ chain /\ chain ≡ₚ b :: L /\ update_lock n f chain ≡ₚ f b :: L.
Proof.
  intros Hnd (b & -> & (A & B & ->)%list_elem_of_split)%list_elem_of_fmap. exists b, (A ++ B).
  rewrite fmap_app, fmap_cons in Hnd. apply NoDup_app in Hnd as (_ & Hd & [Hn _]%NoDup_cons).
  split_and!; [done|set_solver|by rewrite <-Permutation_middle|].
  unfold update_lock. rewrite fmap_app, fmap_cons, decide_True by done. fold (update_lock (lf_addr b) f A) (update_lock (lf_addr b) f B).
  rewrite !update_none; [by rewrite <-Permutation_middle|done|]. intros Hin. apply (Hd _ Hin). by left.
Qed.

(** *** Going to sleep and waking up *)

Lemma queues_sleep lock b b' L Q :
  lf_blkhd lock = [] -> lock_ok lock -> lf_addr b' = lf_addr b -> lf_blkhd b' = lf_blkhd b ++ [lf_addr lock] ->
  queues_ok (lock :: b :: L) Q -> queues_ok (b' :: L) (<[lf_addr lock := Sleeper lock (Some (lf_addr b))]> Q).
Proof.
  intros Hq Hok Ha Hb HQ. pose proof HQ as [H1 H2 H3 H4 H5 H6 H7 H8].
  pose proof (H5 lock ltac:(by left)) as Hl. rewrite !fmap_cons, NoDup_cons in H4. destruct H4 as [H4a H4b].
  rewrite elem_of_cons in H4a.
  assert (forall w n, queued (b' :: L) (<[lf_addr lock := Sleeper lock (Some (lf_addr b))]> Q) w n <->
    (w = lf_addr lock /\ n = lf_addr b) \/ queued (lock :: b :: L) Q w n) as Hqd.
  { intros w n. rewrite (queued_nil lock) by done. rewrite !queued_cons, Ha, Hb, elem_of_app, list_elem_of_singleton.
    unfold queued.
    assert ((exists s, <[lf_addr lock := Sleeper lock (Some (lf_addr b))]> Q !! n = Some s /\ w ∈ lf_blkhd (sl_lock s)) <->
      (exists s, Q !! n = Some s /\ w ∈ lf_blkhd (sl_lock s))) as ->; [|clear; tauto].
    destruct (decide (n = lf_addr lock)) as [->|Hn]; [|by rewrite lookup_insert_ne].
    rewrite lookup_insert_eq, Hl. split; [|by intros (? & ? & _)]. intros (s & [= <-] & Hw). cbn in Hw. rewrite Hq in Hw.
    by apply elem_of_nil in Hw. }
  constructor.
  - intros w n. rewrite Hqd, H1. destruct (decide (w = lf_addr lock)) as [->|Hw].
    + rewrite lookup_insert_eq, Hl. clear. naive_solver.
    + rewrite lookup_insert_ne by done. clear -Hw. naive_solver.
  - intros x [->|Hx]%elem_of_cons; [|apply H2; set_solver]. rewrite Hb. apply NoDup_app.
    split_and!; [apply H2; set_solver| |apply NoDup_singleton]. intros w Hw ->%list_elem_of_singleton.
    assert (queued (lock :: b :: L) Q (lf_addr lock) (lf_addr b)) as (s & Hs & _)%H1; [|congruence].
    rewrite !queued_cons. auto.
  - intros w s [[<- <-]|[_ ?]]%lookup_insert_Some; [cbn; rewrite Hq; constructor|eauto].
  - rewrite fmap_cons, Ha. done.
  - intros x Hx. apply lookup_insert_None. apply elem_of_cons in Hx as [->|Hx]; rewrite ?Ha.
    + split; [apply H5; set_solver|naive_solver].
    + split; [apply H5; set_solver|]. intros Hxa. apply H4a. right. rewrite Hxa. by apply list_elem_of_fmap_2.
  - intros w s [[<- <-]|[_ ?]]%lookup_insert_Some; eauto.
  - intros w s [[<- <-]|[_ ?]]%lookup_insert_Some; [done|eauto].
  - intros w s [[<- <-]|[_ ?]]%lookup_insert_Some; eauto.
Qed.

Lemma filter_out (w : nat) q : NoDup q -> w ∈ q -> q ≡ₚ [w] ++ filter (fun x => x <> w) q.
Proof.
  intros Hnd Hw. apply NoDup_Permutation; [done| |].
  - cbn. apply NoDup_cons. split; [|by apply NoDup_filter]. rewrite list_elem_of_filter. tauto.
  - intros x. cbn. rewrite elem_of_cons, list_elem_of_filter. destruct (decide (x = w)) as [->|]; tauto.
Qed.

Lemma queues_resume st w s :
  v_sleep st !! w = Some s -> queues_ok (v_lockf st) (v_sleep st) ->
  queues_ok (sl_lock s :: v_lockf (off_queue st w s)) (v_sleep (off_queue st w s)).
Proof.
  destruct st as [chain Q]. unfold off_queue. cbn [v_lockf v_sleep]. intros Hs HQ.
  destruct (sl_next s) as [n|] eqn:Hn; [|by apply queues_lift]. cbn [v_lockf v_sleep].
  assert (queued chain Q w n) as Hq by (apply (q_next _ _ HQ); by exists s).
  destruct (decide (n ∈ lf_addr <$> chain)) as [Hin|Hout].
  - destruct (update_focus n (unqueue w) chain (q_addrs _ _ HQ) Hin) as (b & L & Hb & Hbc & HL & ->). rewrite HL in HQ.
    assert (w ∈ lf_blkhd b) as Hw.
    { assert (queued (b :: L) Q w (lf_addr b)) as [[_ ?]|?]%queued_cons; [|done|by destruct (queues_elsewhere b L Q w HQ)].
      apply (q_next _ _ HQ). exists s. by rewrite Hb. }
    rewrite alter_id.
    2:{ intros x [_ Hx]%lookup_delete_Some. pose proof (q_apart _ _ HQ b ltac:(by left)). congruence. }
    pose proof (filter_out w _ (q_nodup _ _ HQ b ltac:(by left)) Hw) as Hf.
    apply (queues_wake b L Q _ _ Hf) in HQ.
    apply (queues_lift w (set_next None s)) in HQ; [|cbn; by rewrite lookup_alter_eq, Hs|done].
    assert (delete w (point_to None [w] Q) = delete w Q) as Heq by apply delete_alter_eq. by rewrite Heq in HQ.
  - rewrite update_none by done. destruct Hq as [(l & Hl & Hla & _)|(sn & Hsn & Hw)].
    { destruct Hout. rewrite <-Hla. by apply list_elem_of_fmap_2. }
    assert (sl_next sn = None) as Hnn.
    { destruct (sl_next sn) eqn:E; [|done]. rewrite (q_quiet _ _ HQ n sn Hsn) in Hw by congruence. by apply elem_of_nil in Hw. }
    assert (w <> n) as Hwn by congruence. pose proof (q_key _ _ HQ n sn Hsn) as Hk.
    pose proof (filter_out w _ (q_nodup_req _ _ HQ n sn Hsn) Hw) as Hf. pose proof (q_range _ _ HQ n sn Hsn) as Hr.
    apply (queues_lift n sn) in HQ; [|done..]. apply (queues_wake _ _ _ _ _ Hf) in HQ. apply queues_put in HQ; [|done].
    cbn [lf_addr set_blkhd] in HQ. rewrite Hk in HQ.
    apply (queues_lift w (set_next None s)) in HQ; [| |done].
    2:{ rewrite lookup_insert_ne by done. cbn. by rewrite lookup_alter_eq, lookup_delete_ne, Hs. }
    eapply eq_rect; [exact HQ|]. f_equal. apply map_eq. intros x. cbn [point_to foldr].
    destruct (decide (x = w)) as [->|Hxw].
    { by rewrite lookup_alter_ne, !lookup_delete_eq. }
    rewrite lookup_delete_ne by done. destruct (decide (x = n)) as [->|Hxn].
    + rewrite lookup_insert_eq, lookup_alter_eq, lookup_delete_ne, Hsn by done. cbn. by rewrite Hnn.
    + by rewrite lookup_insert_ne, !lookup_alter_ne, !lookup_delete_ne by done.
Qed.

(** ** States *)

(** Two owners never hold conflicting locks on a byte. *)
Definition exclusive (h : Z -> Z -> option Z) : Prop :=
  forall i j b t t', i <> j -> h i b = Some t -> h j b = Some t' -> ~ conflict t t'.

Record lock_inv (st : vstate) : Prop := {
  inv_wf : chain_wf (v_lockf st);
  inv_exclusive : exclusive (held (v_lockf st));
  inv_queues : queues_ok (v_lockf st) (v_sleep st)
}.

(** No other owner holds a conflicting lock on a byte of the request. *)
Definition grantable (h : Z -> Z -> option Z) (lock : lockf) : Prop :=
  forall i b t, i <> lf_id lock -> lf_start lock <= b <= LF_END lock -> h i b = Some t -> ~ conflict (lf_type lock) t.

(** What a request does to the bytes that are held. *)
Definition set_outcome (st : vstate) (lock : lockf) (r : outcome) (st' : vstate) : Prop :=
  let h := held (v_lockf st) in
  let h' := held (v_lockf st') in
  if decide (r = Returns 0) then
    grantable h lock /\
    forall i b, h' i b = set_bytes h (lf_id lock) (lf_start lock) (LF_END lock) (Some (lf_type lock)) i b
  else
    ~ grantable h lock /\
    ((r = Returns EAGAIN /\ has (lf_flags lock) F_WAIT = false /\ forall i b, h' i b = h i b) \/
     (r = Returns EDEADLK /\ has (lf_flags lock) F_POSIX = true /\ forall i b, h' i b = h i b) \/
     (r = Sleeps /\ is_Some (v_sleep st' !! lf_addr lock) /\
      forall i b, h' i b =
        if decide (has (lf_flags lock) F_FLOCK = true /\ lf_type lock = F_WRLCK)
        then set_bytes h (lf_id lock) (lf_start lock) (LF_END lock) None i b else h i b)).

Lemma getblock_grantable pid chain lock :
  chain_wf chain -> lock_ok lock ->
  match lf_getblock pid chain lock (-1) with
  | Some (Some l) => l ∈ chain /\ lf_id l <> lf_id lock /\ ~ grantable (held chain) lock
  | Some None => grantable (held chain) lock
  | None => False
  end.
Proof.
  intros Hwf [[Hs0 Hse] HeM]. pose proof (getblock_blocks pid chain lock) as Hb.
  destruct (lf_getblock pid chain lock (-1)) as [[l|]|]; [|  |done].
  - destruct Hb as (Hl & Hid & [Hm1 Hm2] & Hc). split_and!; [done|done|]. intros Hg.
    pose proof (chain_range chain l Hwf Hl) as Hle.
    apply (Hg (lf_id l) (Z.max (lf_start lock) (lf_start l)) (lf_type l)); [done|lia| |done].
    apply held_elem; [done|done|]. unfold covers. lia.
  - intros i b t Hi Hr (l & Hl & <- & [Hc1 Hc2] & <-)%held_inv Hc. rewrite Forall_forall in Hb. apply (Hb l Hl).
    split; [done|]. split; [unfold overlaps; lia|done].
Qed.

Lemma exclusive_grant h lock h' :
  exclusive h -> grantable h lock ->
  (forall i b, h' i b = set_bytes h (lf_id lock) (lf_start lock) (LF_END lock) (Some (lf_type lock)) i b) -> exclusive h'.
Proof.
  intros Hx Hg Hh i j b t t' Hij. rewrite !Hh. unfold set_bytes. repeat case_decide; try lia.
  - intros [= <-] Ht'. apply (Hg j b t'); [lia|lia|done].
  - intros Ht [= <-] [?|?]; apply (Hg i b t); [lia|lia|done|by right|lia|lia|done|by left].
  - apply Hx. done.
Qed.

Lemma exclusive_clear h id s e h' :
  exclusive h -> (forall i b, h' i b = set_bytes h id s e None i b) -> exclusive h'.
Proof. intros Hx Hh i j b t t' Hij. rewrite !Hh. unfold set_bytes. repeat case_decide; try done. by apply Hx. Qed.

(** ** lf_setlock *)

Lemma enqueue_inv st lock block :
  chain_wf (v_lockf st) -> exclusive (held (v_lockf st)) -> queues_ok (lock :: v_lockf st) (v_sleep st) -> lock_ok lock ->
  lf_blkhd lock = [] -> block ∈ v_lockf st ->
  lock_inv (enqueue st lock (lf_addr block)) /\ is_Some (v_sleep (enqueue st lock (lf_addr block)) !! lf_addr lock) /\
  forall i b, held (v_lockf (enqueue st lock (lf_addr block))) i b = held (v_lockf st) i b.
Proof.
  intros Hwf Hx HQ Hok Hblk Hb. unfold enqueue. cbn [v_lockf v_sleep]. set (f := fun b : lockf => set_flags _ _).
  assert (forall l, alike (f l) l) as Hf by done. pose proof (update_alike (lf_addr block) f Hf) as Hu.
  assert (forall i b, held (update_lock (lf_addr block) f (v_lockf st)) i b = held (v_lockf st) i b) as Hh
    by (intros; by apply alike_held).
  split_and!; [|rewrite lookup_insert_eq; by eexists|done]. constructor; cbn [v_lockf v_sleep].
  - by apply alike_wf.
  - intros i j b t t'. rewrite !Hh. apply Hx.
  - pose proof (q_addrs _ _ HQ) as Hnd. apply NoDup_cons in Hnd as [_ Hnd].
    destruct (update_focus (lf_addr block) f (v_lockf st) Hnd) as (b & L & Hba & _ & HL & ->); [by apply list_elem_of_fmap_2|].
    rewrite <-Hba. apply (queues_sleep lock b); [done|done|done|done|]. by rewrite <-HL.
Qed.

(** An exclusive [flock] gives up the owner's locks before it sleeps. *)
Lemma upgrade_inv a st lock block :
  lock_inv st -> queues_ok (lock :: v_lockf st) (v_sleep st) -> lock_ok lock ->
  a ∉ lf_addr <$> lock :: v_lockf st -> v_sleep st !! a = None -> block ∈ v_lockf st -> lf_id block <> lf_id lock ->
  exists st', (if decide (has (lf_flags lock) F_FLOCK = true /\ lf_type lock = F_WRLCK) then
      '(chain, Q) ← lf_clearlock a (v_lockf st) (set_type lock F_UNLCK) (v_sleep st); Some (VState chain Q)
    else Some st) = Some st' /\
    chain_wf (v_lockf st') /\ exclusive (held (v_lockf st')) /\ queues_ok (lock :: v_lockf st') (v_sleep st') /\
    block ∈ v_lockf st' /\
    forall i b, held (v_lockf st') i b =
      if decide (has (lf_flags lock) F_FLOCK = true /\ lf_type lock = F_WRLCK)
      then set_bytes (held (v_lockf st)) (lf_id lock) (lf_start lock) (LF_END lock) None i b else held (v_lockf st) i b.
Proof.
  intros [Hwf Hx _] HQ Hok Ha HaQ Hb Hid. case_decide as Hup; [|by exists st].
  destruct (clearlock_held a (v_lockf st) (set_type lock F_UNLCK) (v_sleep st)) as (chain' & Q' & Hrun & Hwf' & Hin & Hh); try done.
  { by apply not_elem_of_cons in Ha as [_ ?]. }
  rewrite Hrun, bind_some. eexists. split; [done|]. cbn [v_lockf v_sleep].
  split_and!; [done|by eapply exclusive_clear| |by apply Hin|done].
  assert (queues_ok (chain' ++ [lock]) Q') as HQ'; [|revert HQ'; apply queues_ok_perm; [by rewrite <-Permutation_cons_append|done]].
  apply (clear_queues a [lock] _ _ _ _ _ _ _ Hrun); [|cbn [app]|done].
  - cbn [app]. revert HQ. apply queues_ok_perm; [|done]. by rewrite <-Permutation_cons_append.
  - revert Ha. rewrite fmap_app, fmap_cons. set_solver.
Qed.

Lemma setlock_inv pid elsewhere a st lock :
  chain_wf (v_lockf st) -> exclusive (held (v_lockf st)) -> queues_ok (lock :: v_lockf st) (v_sleep st) -> lock_ok lock ->
  (lf_blkhd lock <> [] -> lf_getblock pid (v_lockf st) lock (-1) = Some None) ->
  a ∉ lf_addr <$> lock :: v_lockf st -> v_sleep st !! a = None ->
  exists r st', lf_setlock pid elsewhere a st lock = Some (r, st') /\ lock_inv st' /\ set_outcome st lock r st'.
Proof.
  intros Hwf Hx HQ Hok Hblk Ha HaQ. unfold lf_setlock. pose proof (getblock_grantable pid _ lock Hwf Hok) as Hg.
  destruct (lf_getblock pid (v_lockf st) lock (-1)) as [[block|]|]; [| |done]; rewrite bind_some.
  - destruct Hg as (Hb & Hid & Hng).
    assert (lf_blkhd lock = []) as Hnil. { destruct (lf_blkhd lock); [done|]. by discriminate Hblk. }
    assert (lock_inv st) as Hst by (constructor; [done|done|by apply queues_free in HQ]).
    destruct (decide (has (lf_flags lock) F_WAIT = false)) as [Hw|Hw].
    { eexists _, _. split; [done|]. split; [done|]. unfold set_outcome. rewrite decide_False by done. auto. }
    destruct (deadlocked st elsewhere lock block) eqn:Hd.
    { eexists _, _. split; [done|]. split; [done|]. unfold set_outcome. rewrite decide_False by done. split; [done|].
      unfold deadlocked in Hd. destruct (has (lf_flags lock) F_POSIX) eqn:Hp; [|done]. auto. }
    destruct (upgrade_inv a st lock block) as (st1 & -> & Hwf1 & Hx1 & HQ1 & Hb1 & Hh1); try done.
    rewrite bind_some. destruct (enqueue_inv st1 lock block) as (Hinv & Hsl & Hh2); try done.
    eexists _, _. split; [done|]. split; [done|]. unfold set_outcome. rewrite decide_False by done. split; [done|].
    right. right. split_and!; [done|done|]. intros i b. by rewrite Hh2, Hh1.
  - assert (NoDup (a :: lf_addr lock :: (lf_addr <$> v_lockf st))) as Hnd.
    { apply NoDup_cons. split; [done|]. apply (q_addrs _ _ HQ). }
    destruct (grant_held a (v_lockf st) lock (v_sleep st) Hwf Hok Hnd)
      as (chain' & Q' & -> & (chain1 & k & Q1 & Hrun & Hms) & Hwf' & Hh).
    rewrite bind_some. eexists _, _. split; [done|]. split.
    + constructor; [done|by eapply exclusive_grant|]. apply (merges_queues (chain1, Q1) (chain', Q') Hms). cbn.
      rewrite <-(app_nil_r chain1). apply (grant_queues a [] _ _ _ _ _ _ _ _ _ _ Hrun); try done; by rewrite app_nil_r.
    + unfold set_outcome. rewrite decide_True by done. done.
Qed.

(** *** Waking up *)

Lemma set_outcome_held st1 st lock r st' :
  (forall i b, held (v_lockf st1) i b = held (v_lockf st) i b) -> set_outcome st1 lock r st' -> set_outcome st lock r st'.
Proof.
  intros Hh. unfold set_outcome. cbv zeta.
  assert (grantable (held (v_lockf st1)) lock <-> grantable (held (v_lockf st)) lock) as Hg
    by (unfold grantable; by setoid_rewrite Hh).
  assert (forall id s e v i b, set_bytes (held (v_lockf st1)) id s e v i b = set_bytes (held (v_lockf st)) id s e v i b) as Hsb
    by (intros; unfold set_bytes; by rewrite Hh).
  case_decide; rewrite Hg; (intros [Hgr Hr]; split; [done|]).
  - intros i b. by rewrite Hr.
  - destruct Hr as [(? & ? & Hr)|[(? & ? & Hr)|(? & ? & Hr)]]; [left|right; left|right; right]; split_and!; try done; intros i b.
    1, 2: by rewrite Hr. rewrite Hr. by case_decide.
Qed.

(** The fields of a request, without its queue. *)
Lemma set_outcome_blkhd st lock q r st' : set_outcome st (set_blkhd lock q) r st' -> set_outcome st lock r st'.
Proof. done. Qed.

Lemma off_queue_alike st w s :
  exists f, (forall l, alike (f l) l) /\ v_lockf (off_queue st w s) = f <$> v_lockf st.
Proof.
  unfold off_queue. destruct (sl_next s) as [n|]; cbn.
  - exists (fun l => if decide (lf_addr l = n) then unqueue w l else l). split; [|done]. by apply update_alike.
  - exists (fun l => l). by rewrite list_fmap_id.
Qed.

Lemma hand_over_inv pid lock st :
  chain_wf (v_lockf st) -> exclusive (held (v_lockf st)) -> queues_ok (lock :: v_lockf st) (v_sleep st) -> lock_ok lock ->
  exists q st', hand_over pid lock st = Some (set_blkhd lock q, st') /\
    chain_wf (v_lockf st') /\ exclusive (held (v_lockf st')) /\ queues_ok (set_blkhd lock q :: v_lockf st') (v_sleep st') /\
    (forall i b, held (v_lockf st') i b = held (v_lockf st) i b) /\
    (q <> [] -> lf_getblock pid (v_lockf st') (set_blkhd lock q) (-1) = Some None) /\
    (lf_addr <$> v_lockf st') = (lf_addr <$> v_lockf st) /\ (forall a, v_sleep st' !! a = None <-> v_sleep st !! a = None).
Proof.
  intros Hwf Hx HQ Hok. unfold hand_over. pose proof (getblock_grantable pid _ lock Hwf Hok) as Hg.
  assert (lock = set_blkhd lock (lf_blkhd lock)) as Hself by (by destruct lock).
  destruct (lf_blkhd lock) as [|x q] eqn:Hq.
  { exists [], st. rewrite <-Hself. split_and!; done. }
  destruct (lf_getblock pid (v_lockf st) lock (-1)) as [[block|]|] eqn:Hgb; [| |done]; rewrite bind_some.
  2:{ exists (x :: q), st. rewrite <-Hself. split_and!; done. }
  destruct Hg as (Hb & _ & _). set (f := fun b : lockf => (lf_move_blocked b lock (v_sleep st)).1).
  assert (forall l, alike (f l) l) as Hf by done. pose proof (update_alike (lf_addr block) f Hf) as Hu.
  assert (forall i b, held (update_lock (lf_addr block) f (v_lockf st)) i b = held (v_lockf st) i b) as Hh
    by (intros; by apply alike_held).
  eexists [], _. split; [done|]. cbn [v_lockf v_sleep]. split_and!; [by apply alike_wf| | |done|done| |intros; apply point_to_dom].
  - intros i j b t t'. rewrite !Hh. apply Hx.
  - pose proof (q_addrs _ _ HQ) as Hnd. apply NoDup_cons in Hnd as [_ Hnd].
    destruct (update_focus (lf_addr block) f (v_lockf st) Hnd) as (b & L & Hba & _ & HL & ->); [by apply list_elem_of_fmap_2|].
    rewrite Permutation_swap. unfold lf_move_blocked. cbn [snd]. rewrite <-Hba. apply (queues_move b lock).
    by rewrite Permutation_swap, <-HL.
  - unfold update_lock. rewrite <-list_fmap_compose. apply list_fmap_ext. intros ? l _. apply Hu.
Qed.

Lemma resume_inv pid elsewhere a st w s error :
  lock_inv st -> v_sleep st !! w = Some s -> a ∉ lf_addr <$> v_lockf st -> v_sleep st !! a = None ->
  exists r st', lf_setlock_resume pid elsewhere a st w error = Some (r, st') /\ lock_inv st' /\
    (if decide (error = 0 /\ has (lf_flags (sl_lock s)) F_ABORT = false) then set_outcome st (sl_lock s) r st'
     else (exists e, r = Returns e /\ e <> 0) /\ forall i b, held (v_lockf st') i b = held (v_lockf st) i b).
Proof.
  intros [Hwf Hx HQ] Hs Ha HaQ. unfold lf_setlock_resume. rewrite Hs, bind_some. cbv zeta.
  pose proof (q_range _ _ HQ w s Hs) as Hok. pose proof (q_key _ _ HQ w s Hs) as Hk.
  assert (sl_next s <> None -> lf_blkhd (sl_lock s) = []) as Hquiet by (apply (q_quiet _ _ HQ w s Hs)).
  apply (queues_resume st w s Hs) in HQ. destruct (off_queue_alike st w s) as (f & Hf & Hst1).
  assert (v_sleep (off_queue st w s) !! a = None) as HaQ1.
  { unfold off_queue. destruct (sl_next s); cbn; [apply lookup_alter_None|]; apply lookup_delete_None; auto. }
  revert HQ HaQ1 Hst1. generalize (off_queue st w s). intros st1 HQ HaQ1 Hst1.
  assert (forall i b, held (v_lockf st1) i b = held (v_lockf st) i b) as Hh1 by (intros; rewrite Hst1; by apply alike_held).
  assert (chain_wf (v_lockf st1)) as Hwf1 by (rewrite Hst1; by apply alike_wf).
  assert (exclusive (held (v_lockf st1))) as Hx1 by (intros i j b t t'; rewrite !Hh1; apply Hx).
  assert (a ∉ lf_addr <$> v_lockf st1) as Ha1.
  { rewrite Hst1, <-list_fmap_compose. rewrite (list_fmap_ext (lf_addr ∘ f) lf_addr); [done|]. intros ? l _. apply Hf. }
  assert (a <> lf_addr (sl_lock s)) as Haw by congruence.
  set (err := if decide (error = 0 /\ has (lf_flags (sl_lock s)) F_ABORT = true) then EBADF else error).
  assert (err = 0 <-> error = 0 /\ has (lf_flags (sl_lock s)) F_ABORT = false) as Herr.
  { unfold err. destruct (has (lf_flags (sl_lock s)) F_ABORT); case_decide; intuition (try done; try lia). }
  destruct (decide (sl_next s <> None /\ err = 0)) as [[Hn He]|Hcase].
  { destruct (setlock_inv pid elsewhere a st1 (sl_lock s)) as (r & st' & -> & Hinv & Hout); try done.
    { intros Hne. by rewrite Hquiet in Hne. }
    { by apply not_elem_of_cons. }
    eexists _, _. split; [done|]. split; [done|]. rewrite decide_True by (by apply Herr). by eapply set_outcome_held. }
  destruct (hand_over_inv pid (sl_lock s) st1) as (q & st2 & -> & Hwf2 & Hx2 & HQ2 & Hh2 & Hq & Hadr & Hdom); try done.
  rewrite bind_some. destruct (decide (err <> 0)) as [He|He].
  - eexists _, _. split; [done|]. rewrite decide_False by (by rewrite <-Herr). split; [|split].
    + constructor; cbn [v_lockf v_sleep]; [done|done|]. cbn [lf_blkhd set_blkhd].
      destruct q as [|x q]; [by apply queues_free in HQ2|]. apply (queues_wakelock _ true) in HQ2.
      apply queues_free in HQ2; [done|apply wakelock_empties].
    + eexists. split; [done|]. case_decide; [done|done].
    + intros i b. cbn. by rewrite Hh2, Hh1.
  - destruct (setlock_inv pid elsewhere a st2 (set_blkhd (sl_lock s) q)) as (r & st' & -> & Hinv & Hout); try done.
    { by rewrite fmap_cons, Hadr, not_elem_of_cons. }
    { by apply Hdom. }
    eexists _, _. split; [done|]. split; [done|]. rewrite decide_True by (apply Herr; lia).
    apply set_outcome_blkhd in Hout. eapply set_outcome_held; [|done]. intros i b. by rewrite Hh2, Hh1.
Qed.

(** ** Aborts *)

Lemma queues_alter f w L Q :
  (forall s, sl_next (f s) = sl_next s /\ lf_addr (sl_lock (f s)) = lf_addr (sl_lock s) /\
    lf_blkhd (sl_lock (f s)) = lf_blkhd (sl_lock s) /\ (lock_ok (sl_lock s) -> lock_ok (sl_lock (f s)))) ->
  queues_ok L Q -> queues_ok L (alter f w Q).
Proof.
  intros Hf [H1 H2 H3 H4 H5 H6 H7 H8].
  assert (forall x s', alter f w Q !! x = Some s' -> exists s, Q !! x = Some s /\ sl_next s' = sl_next s /\
    lf_addr (sl_lock s') = lf_addr (sl_lock s) /\ lf_blkhd (sl_lock s') = lf_blkhd (sl_lock s) /\
    (lock_ok (sl_lock s) -> lock_ok (sl_lock s'))) as Hto.
  { intros x s'. destruct (decide (x = w)) as [->|Hx]; [rewrite lookup_alter_eq|rewrite lookup_alter_ne by done; by eauto 10].
    destruct (Q !! w) as [s|]; [|done]. intros [= <-]. exists s. split; [done|apply Hf]. }
  assert (forall x s, Q !! x = Some s -> exists s', alter f w Q !! x = Some s' /\ sl_next s' = sl_next s /\
    lf_blkhd (sl_lock s') = lf_blkhd (sl_lock s)) as Hfrom.
  { intros x s Hs. destruct (decide (x = w)) as [->|Hx]; [rewrite lookup_alter_eq, Hs|rewrite lookup_alter_ne by done; by eauto].
    exists (f s). split; [done|]. by destruct (Hf s) as (? & _ & ? & _). }
  constructor; try done.
  - intros x n. transitivity (queued L Q x n); [|rewrite H1; split].
    + unfold queued. split; (intros [?|(s & Hs & Hx)]; [by left|right]).
      * destruct (Hto _ _ Hs) as (s0 & ? & _ & _ & Hb & _). exists s0. by rewrite <-Hb.
      * destruct (Hfrom _ _ Hs) as (s0 & ? & _ & Hb). exists s0. by rewrite Hb.
    + intros (s & Hs & Hn). destruct (Hfrom _ _ Hs) as (s0 & ? & ? & _). exists s0. split; [done|congruence].
    + intros (s & Hs & Hn). destruct (Hto _ _ Hs) as (s0 & ? & ? & _). exists s0. split; [done|congruence].
  - intros x s Hs. destruct (Hto _ _ Hs) as (s0 & ? & _ & _ & -> & _). eauto.
  - intros l Hl. apply lookup_alter_None. auto.
  - intros x s Hs. destruct (Hto _ _ Hs) as (s0 & ? & _ & -> & _). eauto.
  - intros x s Hs. destruct (Hto _ _ Hs) as (s0 & ? & -> & _ & -> & _). eauto.
  - intros x s Hs. destruct (Hto _ _ Hs) as (s0 & ? & _ & _ & _ & Hr). eauto.
Qed.

Lemma abort_inv st : lock_inv st -> lock_inv (lf_abort_advlocks st).
Proof.
  destruct st as [[|lock chain] Q]; [done|]. intros [Hwf Hx HQ]. unfold lf_abort_advlocks. cbn [v_lockf v_sleep] in *.
  destruct (lf_blkhd lock) as [|w q] eqn:Hq; [done|].
  assert (forall q, queues_ok (lock :: chain) (foldr (fun w Q => alter abort_flag w Q) Q q)) as Hab.
  { intros q0. induction q0 as [|x q0 IH]; [done|]. cbn. by apply queues_alter. }
  specialize (Hab (w :: q)). apply (queues_wakelock lock true) in Hab.
  destruct (wakelock_same lock true (foldr (fun w Q => alter abort_flag w Q) Q (w :: q))) as [q0 Hq0].
  destruct (lf_wakelock lock true _) as [lock' Q']. cbn in Hq0, Hab. subst lock'.
  set (f := fun l => if decide (lf_addr l = lf_addr lock) then set_blkhd l q0 else l).
  assert (set_blkhd lock q0 :: chain = f <$> lock :: chain) as Hmap.
  { pose proof (q_addrs _ _ HQ) as Hnd. rewrite fmap_cons, NoDup_cons in Hnd. destruct Hnd as [Hn _].
    rewrite fmap_cons. unfold f at 1. rewrite decide_True by done. f_equal. symmetry.
    by apply (update_none (lf_addr lock) (fun l => set_blkhd l q0)). }
  assert (forall l, alike (f l) l) as Hf by (intros l; unfold f; by case_decide).
  constructor; cbn [v_lockf v_sleep]; [rewrite Hmap; by apply alike_wf| |done].
  intros i j b t t'. rewrite Hmap, !alike_held by done. apply Hx.
Qed.

(** ** lf_advlock *)

(** Addresses for the structures that a call allocates. *)
Definition fresh (st : vstate) (n : nat) : Prop := (n ∉ lf_addr <$> v_lockf st) /\ v_sleep st !! n = None.

Lemma clearlock_inv a st unlock :
  lock_inv st -> lock_ok unlock -> fresh st a ->
  exists chain Q, lf_clearlock a (v_lockf st) unlock (v_sleep st) = Some (chain, Q) /\ lock_inv (VState chain Q) /\
    forall i b, held chain i b = set_bytes (held (v_lockf st)) (lf_id unlock) (lf_start unlock) (LF_END unlock) None i b.
Proof.
  intros [Hwf Hx HQ] Hok [Ha HaQ].
  destruct (clearlock_held a (v_lockf st) unlock (v_sleep st) Hwf Hok Ha) as (chain & Q & Hrun & Hwf' & _ & Hh).
  exists chain, Q. split_and!; [done| |done]. constructor; [done|by eapply exclusive_clear|]. cbn.
  rewrite <-(app_nil_r chain). apply (clear_queues a [] _ _ _ _ _ _ _ Hrun); cbn; by rewrite ?app_nil_r.
Qed.

(** What [lf_advlock] does to the bytes that are held, given the range of the call. *)
Definition advlock_outcome (st : vstate) (lock : lockf) (op : Z) (r : outcome) (st' : vstate) : Prop :=
  if decide (op = F_SETLK) then set_outcome st lock r st'
  else if decide (op = F_UNLCK) then
    r = Returns 0 /\ forall i b, held (v_lockf st') i b =
      set_bytes (held (v_lockf st)) (lf_id lock) (lf_start lock) (LF_END lock) None i b
  else r = Returns (if decide (op = F_GETLK \/ op = F_GETLKPID) then 0 else EINVAL) /\ st' = st.

Section Advlock.
Context (pid : option Z -> Z) (elsewhere : option Z -> list lockf) (vnode_size : Z + Z) (current context : Z).
Context (Hsize : forall size, vnode_size = inr size -> in_word 64 size).

Lemma advlock_inv new a st ap :
  lock_inv st -> is_off_t (l_start (a_fl ap)) -> is_off_t (l_len (a_fl ap)) -> a_op ap <> F_TRANSFER ->
  fresh st new -> fresh st a -> new <> a ->
  exists r fl st', lf_advlock pid elsewhere vnode_size current context new a st ap = Some (r, fl, st') /\ lock_inv st' /\
    if decide (v_lockf st = [] /\ a_op ap <> F_SETLK) then r = Returns 0 /\ l_type fl = F_UNLCK /\ st' = st
    else
      match described_range vnode_size (a_fl ap) with
      | inl error => r = Returns error /\ st' = st
      | inr range => advlock_outcome st (new_lock new current context ap range) (a_op ap) r st'
      end.
Proof.
  intros Hinv Hs Hl Hop [Hn HnQ] [Ha HaQ] Hna. unfold lf_advlock. cbv zeta.
  destruct (decide (v_lockf st = [] /\ a_op ap <> F_SETLK)) as [[Hnil Hset]|Hgo].
  { by eexists _, _, _. }
  rewrite flock_range_described by done. rewrite bind_some.
  destruct (described_range vnode_size (a_fl ap)) as [error|[s e]] eqn:Hr.
  { eexists _, _, _. split; [done|]. auto. }
  pose proof (described_ok vnode_size (a_fl ap) s e Hr) as Hok.
  set (lock := new_lock new current context ap (s, e)).
  assert (lock_ok lock) as Hlok by apply Hok. unfold advlock_outcome.
  destruct (decide (a_op ap = F_SETLK)) as [Hset|Hset].
  { pose proof Hinv as [Hwf Hx HQ].
    destruct (setlock_inv pid elsewhere a st lock) as (r & st' & -> & Hinv' & Hout); try done.
    { by apply queues_link. }
    { cbn. by apply not_elem_of_cons. }
    rewrite bind_some. by eexists _, _, _. }
  destruct (decide (a_op ap = F_UNLCK)) as [Hun|Hun].
  { destruct (clearlock_inv a st lock) as (chain & Q & -> & Hinv' & Hh); [done..|]. rewrite bind_some. by eexists _, _, _. }
  rewrite decide_False by done. pose proof (fun m => getlock_total pid (v_lockf st) lock (a_fl ap) m) as Hget.
  destruct (decide (a_op ap = F_GETLK)) as [Hg|Hg].
  { destruct (Hget (-1)) as [fl' ->]. eexists _, _, _. split; [done|]. split; [done|]. by rewrite decide_True by auto. }
  destruct (decide (a_op ap = F_GETLKPID)) as [Hp|Hp].
  { destruct (Hget (l_pid (a_fl ap))) as [fl' ->]. eexists _, _, _. split; [done|]. split; [done|]. by rewrite decide_True by auto. }
  eexists _, _, _. split; [done|]. split; [done|]. by rewrite decide_False by tauto.
Qed.
End Advlock.

(** ** Runs *)

Section Transfer.
Context (id new : Z) (Hne : new <> id).

Lemma queues_fmap f L Q :
  (forall l, lf_addr (f l) = lf_addr l /\ lf_blkhd (f l) = lf_blkhd l) -> queues_ok L Q -> queues_ok (f <$> L) Q.
Proof.
  intros Hf [H1 H2 H3 H4 H5 H6 H7 H8].
  assert (forall l', l' ∈ f <$> L -> exists l, l ∈ L /\ lf_addr l' = lf_addr l /\ lf_blkhd l' = lf_blkhd l) as Hin.
  { intros l' (l & -> & Hl)%list_elem_of_fmap. destruct (Hf l). by exists l. }
  constructor; try done.
  - intros w n. rewrite <-H1. unfold queued. split; (intros [(l & Hl & Ha & Hw)|?]; [left|by right]).
    + destruct (Hin l Hl) as (l0 & ? & Ha0 & Hb0). exists l0. by rewrite <-Ha0, <-Hb0.
    + destruct (Hf l) as [Ha0 Hb0]. exists (f l). rewrite Ha0, Hb0. split; [by apply list_elem_of_fmap_2|done].
  - intros l (l0 & ? & _ & ->)%Hin. auto.
  - rewrite <-list_fmap_compose. rewrite (list_fmap_ext (lf_addr ∘ f) lf_addr); [done|]. intros ? l _. apply Hf.
  - intros l (l0 & ? & -> & _)%Hin. auto.
Qed.

Lemma exclusive_transfer h h' :
  exclusive h ->
  (forall i b, h' i b = if decide (i = new) then h id b else if decide (i = id) then None else h i b) -> exclusive h'.
Proof.
  intros Hx Hh i j b t t' Hij. rewrite !Hh. repeat case_decide; try done; try congruence; apply Hx; congruence.
Qed.
End Transfer.

Lemma transfer_inv new st transfer chain :
  lock_inv st -> lf_start transfer = 0 -> LF_END transfer = OFF_MAX -> new <> lf_id transfer -> foreign new (v_lockf st) ->
  Forall (fun l => lf_id l = lf_id transfer -> has (lf_flags l) F_POSIX = true) (v_lockf st) ->
  lf_transferlock new (v_lockf st) transfer = Some chain -> lock_inv (VState chain (v_sleep st)).
Proof.
  intros [Hwf Hx HQ] Hs He Hne Hf Hp Hrun. rewrite (transferlock_rename new (v_lockf st) transfer) in Hrun by done.
  injection Hrun as <-. constructor; cbn [v_lockf v_sleep].
  - by apply rename_wf.
  - eapply (exclusive_transfer (lf_id transfer) new); [done|]. intros i b. by apply rename_held.
  - apply queues_fmap; [|done]. intros l. unfold rename, transfer_one. repeat case_match; done.
Qed.

(** One operation on the vnode.  A transfer is that of the POSIX locks of a process as
    [fg_transfer_filelocks] of [bsd/kern/kern_descrip.c] asks for it: of the whole file, to a
    process that has no lock on the vnode, from one all of whose locks are POSIX locks.  The
    transfer of the locks of an open file description, which that function asks for next
    and which changes only [lf_owner], is left out. *)
Inductive lstep (st st' : vstate) : Prop :=
  | lstep_advlock pid elsewhere vnode_size current context new a ap r fl :
      (forall size, vnode_size = inr size -> in_word 64 size) ->
      is_off_t (l_start (a_fl ap)) -> is_off_t (l_len (a_fl ap)) -> a_op ap <> F_TRANSFER ->
      fresh st new -> fresh st a -> new <> a ->
      lf_advlock pid elsewhere vnode_size current context new a st ap = Some (r, fl, st') -> lstep st st'
  | lstep_wakeup pid elsewhere a w error r :
      fresh st a -> lf_setlock_resume pid elsewhere a st w error = Some (r, st') -> lstep st st'
  | lstep_transfer new transfer chain :
      lf_start transfer = 0 -> LF_END transfer = OFF_MAX -> new <> lf_id transfer -> foreign new (v_lockf st) ->
      Forall (fun l => lf_id l = lf_id transfer -> has (lf_flags l) F_POSIX = true) (v_lockf st) ->
      lf_transferlock new (v_lockf st) transfer = Some chain -> st' = VState chain (v_sleep st) -> lstep st st'
  | lstep_abort : st' = lf_abort_advlocks st -> lstep st st'.

Lemma lstep_inv st st' : lstep st st' -> lock_inv st -> lock_inv st'.
Proof.
  intros [pid elsewhere vnode_size current context new a ap r fl Hsize Hs Hl Hop Hn Ha Hna Hrun
         |pid elsewhere a w error r [Ha HaQ] Hrun|new transfer chain ? ? ? ? ? Hrun -> | ->] Hinv.
  - destruct (advlock_inv pid elsewhere vnode_size current context Hsize new a st ap)
      as (r' & fl' & st1 & Hrun' & Hinv' & _); try done. rewrite Hrun in Hrun'. by injection Hrun' as _ _ <-.
  - assert (exists s, v_sleep st !! w = Some s) as [s Hs].
    { unfold lf_setlock_resume in Hrun. destruct (v_sleep st !! w); [by eexists|done]. }
    destruct (resume_inv pid elsewhere a st w s error) as (r' & st1 & Hrun' & Hinv' & _); try done.
    rewrite Hrun in Hrun'. by injection Hrun' as _ <-.
  - by eapply transfer_inv.
  - by apply abort_inv.
Qed.

Lemma lsteps_inv st st' : rtc lstep st st' -> lock_inv st -> lock_inv st'.
Proof. induction 1; eauto using lstep_inv. Qed.

Lemma lock_inv_init : lock_inv (VState [] ∅).
Proof.
  constructor; cbn.
  - split; [|constructor]. exists []. split; [done|]. split; [constructor|by apply Forall_nil].
  - by intros i j b t t'.
  - constructor; try done; try (by intros ? ?%elem_of_nil); [|constructor].
    intros w n. split; [intros [(? & ?%elem_of_nil & _)|(? & ? & _)]; done|]. by intros (? & ? & _).
Qed.

(** *** Executable runs *)

Inductive event :=
  | Call (ap : advlock_args)
  | Wake (w : nat) (error : Z)
  | Abort.

#[export] Instance fresh_dec st n : Decision (fresh st n).
Proof. unfold fresh. apply _. Defined.

#[export] Instance is_off_t_dec x : Decision (is_off_t x).
Proof. unfold is_off_t. apply _. Defined.

Definition demo_pid (p : option Z) : Z := default 0 p.
Definition demo_elsewhere (p : option Z) : list lockf := [].

(** The events one after the other, on an empty file; call [k] allocates the addresses
    [2 k] and [2 k + 1]. *)
Fixpoint play (k : nat) (events : list event) (st : vstate) : option vstate :=
  match events with
  | [] => Some st
  | ev :: events =>
      let new := (2 * k)%nat in
      if decide (fresh st new /\ fresh st (S new)) then
        st ←
          match ev with
          | Call ap =>
              if decide (is_off_t (l_start (a_fl ap)) /\ is_off_t (l_len (a_fl ap)) /\ a_op ap <> F_TRANSFER) then
                '(_, _, st) ← lf_advlock demo_pid demo_elsewhere (inr 0) 0 0 new (S new) st ap; Some st
              else None
          | Wake w error => '(_, st) ← lf_setlock_resume demo_pid demo_elsewhere (S new) st w error; Some st
          | Abort => Some (lf_abort_advlocks st)
          end;
        play (S k) events st
      else None
  end.

Lemma play_steps k events st st' : play k events st = Some st' -> rtc lstep st st'.
Proof.
  revert k st. induction events as [|ev events IH]; intros k st; cbn [play]; [by intros [= ->]|].
  case_decide as Hfr; [|done]. destruct Hfr as [Hn Ha].
  destruct (match ev with Call ap => _ | Wake w error => _ | Abort => _ end) as [st1|] eqn:Hev; [|done].
  rewrite bind_some. intros Hrest. eapply rtc_l; [|by eapply IH]. destruct ev as [ap|w error|].
  - case_decide as Hoff; [|done]. destruct Hoff as (? & ? & ?).
    destruct (lf_advlock _ _ _ _ _ _ _ _ _) as [[[r fl] st2]|] eqn:Hrun; [|done]. injection Hev as ->.
    eapply lstep_advlock; [|done|done|done|exact Hn|exact Ha|lia|exact Hrun]. intros size [= <-]. unfold in_word. lia.
  - destruct (lf_setlock_resume _ _ _ _ _ _) as [[r st2]|] eqn:Hrun; [|done]. injection Hev as ->.
    by eapply lstep_wakeup.
  - injection Hev as <-. by apply lstep_abort.
Qed.

(** Calls of [flock] and of [fcntl]. *)
Definition flock_call (id op type : Z) : event :=
  Call (Advlock id op (Flock 0 0 0 type SEEK_SET) (Z.lor F_WAIT F_FLOCK)).
Definition posix_call (id op type start len : Z) : event :=
  Call (Advlock id op (Flock start len 0 type SEEK_SET) (Z.lor F_WAIT F_POSIX)).

(** Three requests for overlapping ranges, of which one waits, is interrupted and
    returns, and one is granted after an unlock. *)
Definition demo_events : list event :=
  [posix_call 7 F_SETLK F_WRLCK 0 100; posix_call 8 F_SETLK F_WRLCK 50 10; posix_call 9 F_SETLK F_RDLCK 60 0;
   Wake 4 4; posix_call 7 F_UNLCK F_UNLCK 40 30; Wake 6 0].

(** ** Theorems *)

(** C4. Whatever sequence of lock, unlock and query calls, of wake-ups at any time and
    with any error, of transfers and of aborts happens on a vnode (the transfers are those
    of all POSIX locks of a process on the file to a process that has none on it; the
    transfers of locks of open file descriptions are left out): the locks of an owner
    stay together, disjoint and in order, two owners never hold a byte when one of the
    locks is exclusive, and a request is in the queue of a lock or of another request
    exactly if that is what its [lf_next] points to. *)
Theorem locks_reachable (st : vstate) :
  rtc lstep (VState [] ∅) st ->
  chain_wf (v_lockf st) /\
  (forall i j b, i <> j -> held (v_lockf st) i b = Some F_WRLCK -> held (v_lockf st) j b = None) /\
  queues_ok (v_lockf st) (v_sleep st).
Proof.
  intros Hrun. destruct (lsteps_inv _ _ Hrun lock_inv_init) as [Hwf Hx HQ].
  split_and!; [done| |done]. intros i j b Hij Hi. destruct (held (v_lockf st) j b) as [t|] eqn:Hj; [|done].
  destruct (Hx i j b F_WRLCK t Hij Hi Hj). by left.
Qed.

Lemma locks_reachable_witness :
  exists st, play 1 demo_events (VState [] ∅) = Some st /\ chain_wf (v_lockf st) /\
    (forall i j b, i <> j -> held (v_lockf st) i b = Some F_WRLCK -> held (v_lockf st) j b = None) /\
    queues_ok (v_lockf st) (v_sleep st).
Proof.
  destruct (play 1 demo_events (VState [] ∅)) as [st|] eqn:Hplay; [|by vm_compute in Hplay].
  exists st. split; [done|]. apply locks_reachable. by apply (play_steps 1 demo_events).
Defined.

(** C12. In every state that is reached a call of [lf_advlock] other than [F_TRANSFER] ends
    without a failed assertion or a panic, and it implements a map from bytes to lock
    types.  On a file without locks every call but [F_SETLK] returns 0 before it looks at
    the range, with the type [F_UNLCK], and changes nothing.  Otherwise an invalid range
    fails with its error and changes nothing; [F_SETLK] grants exactly if no other owner
    holds a conflicting byte, and then gives the owner exactly the range in that type,
    and otherwise fails without a change or sleeps (an exclusive request of [flock] then
    gives up the bytes of the range that its owner holds); [F_UNLCK] takes exactly the range
    from the owner; the queries return 0, any other operation [EINVAL], and these change
    nothing. *)
Theorem advlock_refines (pid : option Z -> Z) (elsewhere : option Z -> list lockf) (vnode_size : Z + Z)
    (current context : Z) (new a : nat) (st : vstate) (ap : advlock_args) :
  rtc lstep (VState [] ∅) st -> (forall size, vnode_size = inr size -> in_word 64 size) ->
  is_off_t (l_start (a_fl ap)) -> is_off_t (l_len (a_fl ap)) -> a_op ap <> F_TRANSFER ->
  fresh st new -> fresh st a -> new <> a ->
  exists r fl st', lf_advlock pid elsewhere vnode_size current context new a st ap = Some (r, fl, st') /\
    if decide (v_lockf st = [] /\ a_op ap <> F_SETLK) then r = Returns 0 /\ l_type fl = F_UNLCK /\ st' = st
    else
      match described_range vnode_size (a_fl ap) with
      | inl error => r = Returns error /\ st' = st
      | inr range => advlock_outcome st (new_lock new current context ap range) (a_op ap) r st'
      end.
Proof.
  intros Hrun Hsize Hs Hl Hop Hn Ha Hna. pose proof (lsteps_inv _ _ Hrun lock_inv_init) as Hinv.
  destruct (advlock_inv pid elsewhere vnode_size current context Hsize new a st ap) as (r & fl & st' & ? & _ & ?); try done.
  by exists r, fl, st'.
Qed.

Lemma advlock_refines_witness :
  exists st r fl st', play 1 demo_events (VState [] ∅) = Some st /\
    lf_advlock demo_pid demo_elsewhere (inr 0) 0 0 20 21 st
      (Advlock 8 F_SETLK (Flock 50 10 0 F_WRLCK SEEK_SET) F_POSIX) = Some (r, fl, st') /\
    held (v_lockf st') 8 55 = Some F_WRLCK.
Proof.
  destruct (play 1 demo_events (VState [] ∅)) as [st|] eqn:Hplay; [|by vm_compute in Hplay]. exists st.
  destruct (advlock_refines demo_pid demo_elsewhere (inr 0) 0 0 20 21 st
    (Advlock 8 F_SETLK (Flock 50 10 0 F_WRLCK SEEK_SET) F_POSIX)) as (r & fl & st' & Hrun & Hout).
  - by apply (play_steps 1 demo_events).
  - intros size [= <-]. unfold in_word. lia.
  - apply (bool_decide_unpack _). vm_compute. done.
  - apply (bool_decide_unpack _). vm_compute. done.
  - done.
  - vm_compute in Hplay. injection Hplay as <-. apply (bool_decide_unpack _). vm_compute. done.
  - vm_compute in Hplay. injection Hplay as <-. apply (bool_decide_unpack _). vm_compute. done.
  - done.
  - exists r, fl, st'. split; [done|]. split; [done|]. vm_compute in Hplay. injection Hplay as <-.
    vm_compute in Hrun. injection Hrun as <- <- <-. vm_compute. done.
Defined.

(** C32. In every state that is reached a request that wakes up ends: woken without an
    error it is granted, fails or sleeps again as a new request would, and woken with an
    error or by an abort it returns with an error and leaves the bytes that are held as
    they are. *)
Theorem wakeup_outcome (pid : option Z -> Z) (elsewhere : option Z -> list lockf) (a : nat) (st : vstate) (w : nat)
    (s : sleeper) (error : Z) :
  rtc lstep (VState [] ∅) st -> v_sleep st !! w = Some s -> fresh st a ->
  exists r st', lf_setlock_resume pid elsewhere a st w error = Some (r, st') /\
    (if decide (error = 0 /\ has (lf_flags (sl_lock s)) F_ABORT = false) then set_outcome st (sl_lock s) r st'
     else (exists e, r = Returns e /\ e <> 0) /\ forall i b, held (v_lockf st') i b = held (v_lockf st) i b).
Proof.
  intros Hrun Hs [Ha HaQ]. pose proof (lsteps_inv _ _ Hrun lock_inv_init) as Hinv.
  destruct (resume_inv pid elsewhere a st w s error) as (r & st' & ? & _ & ?); try done. by exists r, st'.
Qed.

(** A shared lock is waited for while an exclusive one is held. *)
Definition stranded_events : list event :=
  [flock_call 7 F_SETLK F_WRLCK; flock_call 8 F_SETLK F_RDLCK; flock_call 9 F_SETLK F_RDLCK;
   flock_call 7 F_UNLCK F_UNLCK; Wake 4 0].

Lemma wakeup_outcome_witness :
  exists st s r st', play 1 (take 4 stranded_events) (VState [] ∅) = Some st /\ v_sleep st !! 4%nat = Some s /\
    lf_setlock_resume demo_pid demo_elsewhere 21 st 4 0 = Some (r, st') /\ set_outcome st (sl_lock s) r st'.
Proof.
  destruct (play 1 (take 4 stranded_events) (VState [] ∅)) as [st|] eqn:Hplay; [|by vm_compute in Hplay].
  assert (exists s, v_sleep st !! 4%nat = Some s /\ has (lf_flags (sl_lock s)) F_ABORT = false) as (s & Hs & Hab).
  { vm_compute in Hplay. injection Hplay as <-. by eexists. }
  destruct (wakeup_outcome demo_pid demo_elsewhere 21 st 4 s 0) as (r & st' & Hrun & Hout).
  - by apply (play_steps 1 (take 4 stranded_events)).
  - done.
  - vm_compute in Hplay. injection Hplay as <-. apply (bool_decide_unpack _). vm_compute. done.
  - exists st, s, r, st'. rewrite decide_True in Hout by done. done.
Defined.

(** A request for a shared lock can sleep behind a shared lock: two readers wait for
    a writer; when the writer unlocks, only the first is woken and takes the second into
    its queue, and once it has its shared lock nothing blocks the second, which stays
    asleep and has not been woken. *)
Theorem shared_waiter_stranded :
  exists st w s, rtc lstep (VState [] ∅) st /\ v_sleep st !! w = Some s /\ lf_type (sl_lock s) = F_RDLCK /\
    sl_next s <> None /\ grantable (held (v_lockf st)) (sl_lock s).
Proof.
  destruct (play 1 stranded_events (VState [] ∅)) as [st|] eqn:Hplay; [|by vm_compute in Hplay].
  pose proof (play_steps 1 stranded_events _ _ Hplay) as Hrun. pose proof (lsteps_inv _ _ Hrun lock_inv_init) as Hinv.
  assert (exists s, v_sleep st !! 6%nat = Some s /\ lf_type (sl_lock s) = F_RDLCK /\ sl_next s <> None /\
    lf_getblock demo_pid (v_lockf st) (sl_lock s) (-1) = Some None) as (s & Hs & Ht & Hn & Hg).
  { vm_compute in Hplay. injection Hplay as <-. eexists. split; [vm_compute; reflexivity|]. vm_compute. done. }
  exists st, 6%nat, s. split_and!; try done.
  pose proof (getblock_grantable demo_pid (v_lockf st) (sl_lock s) (inv_wf _ Hinv) (q_range _ _ (inv_queues _ Hinv) _ _ Hs)) as Hgr.
  by rewrite Hg in Hgr.
Qed.

(** Three processes hold a byte each and ask for the next one's. *)
Definition cycle_events : list event :=
  [posix_call 1 F_SETLK F_WRLCK 0 1; posix_call 2 F_SETLK F_WRLCK 1 1; posix_call 3 F_SETLK F_WRLCK 2 1;
   posix_call 1 F_SETLK F_WRLCK 1 1; posix_call 2 F_SETLK F_WRLCK 2 1; posix_call 3 F_SETLK F_WRLCK 0 1].

(** [p] has a request that sleeps for a lock that [q] holds. *)
Definition waits_for (st : vstate) (p q : Z) : Prop :=
  exists w s n l, v_sleep st !! w = Some s /\ lf_owner (sl_lock s) = Some p /\ sl_next s = Some n /\
    l ∈ v_lockf st /\ lf_addr l = n /\ lf_owner l = Some q.

(** The search for deadlocks follows one step only: three processes that wait for
    each other in a circle with POSIX locks all sleep. *)
Theorem three_cycle_undetected :
  exists st, rtc lstep (VState [] ∅) st /\ waits_for st 1 2 /\ waits_for st 2 3 /\ waits_for st 3 1.
Proof.
  destruct (play 1 cycle_events (VState [] ∅)) as [st|] eqn:Hplay; [|by vm_compute in Hplay].
  exists st. split; [by apply (play_steps 1 cycle_events)|]. vm_compute in Hplay. injection Hplay as <-.
  split_and!.
  - eexists 8%nat, _, 4%nat, _. split; [vm_compute; reflexivity|]. split; [done|]. split; [done|]. split; [right; left|done].
  - eexists 10%nat, _, 6%nat, _. split; [vm_compute; reflexivity|]. split; [done|]. split; [done|]. split; [right; right; left|done].
  - eexists 12%nat, _, 2%nat, _. split; [vm_compute; reflexivity|]. split; [done|]. split; [done|]. split; [left|done].
Qed.
