(* ===== verification/Mpsc.v ===== *)
(** * Multi-producer single-consumer queues

    [osfmk/kern/mpsc_queue.h] and [osfmk/kern/mpsc_queue.c]: queues to which any number
    of threads append without a lock, and the daemon that one thread runs to drain such a
    queue.  Every atomic access of the code is one step, and the steps of the threads
    interleave in any order; memory is sequentially consistent, so the memory-order
    arguments have no counterpart.  The daemon has a thread of its own
    ([MPSC_QUEUE_KIND_THREAD]); the other kinds differ in how a wake-up is delivered.

    What a thread is about to do is its program counter, with the local variables that
    are live there.  A step is [Next], [Blocked] (a spin on a pointer that is still null,
    or a thread that waits) or [Fault] (a failed assertion or a panic).

    MpscInv.v and MpscLive.v hold the theorems.  [mpsc_queue_restore_batch] and
    [mpsc_queue_append_list] with more than one element are not modelled: the daemon does
    not use them. *)
From S2P Require Import Prelude.
From stdpp Require Import gmap.

(** ** Memory *)

(** What a [mpqc_next] holds: null, an element, or [MPSC_QUEUE_NOTQUEUED_MARKER]. *)
Inductive link :=
  | Null
  | To (e : nat)
  | Marker.

(** A [mpsc_queue_chain]: the one in the head of the queue, or that of an element. *)
Inductive node :=
  | Head
  | Elm (e : nat).

#[export] Instance link_eq_dec : EqDecision link.
Proof. solve_decision. Defined.
#[export] Instance node_eq_dec : EqDecision node.
Proof. solve_decision. Defined.

(** [mpd_state]: the bits DRAINING, WAKEUP, CANCELED and INACTIVE. *)
Record dstate := DState { DRAINING : bool; WAKEUP : bool; CANCELED : bool; INACTIVE : bool }.

Definition or_WAKEUP (s : dstate) : dstate := DState (DRAINING s) true (CANCELED s) (INACTIVE s).
Definition or_CANCELED (s : dstate) : dstate := DState (DRAINING s) (WAKEUP s) true (INACTIVE s).
Definition xor_DRAINING_WAKEUP (s : dstate) : dstate :=
  DState (negb (DRAINING s)) (negb (WAKEUP s)) (CANCELED s) (INACTIVE s).
Definition andnot_WAKEUP (s : dstate) : dstate := DState (DRAINING s) false (CANCELED s) (INACTIVE s).
Definition andnot_DRAINING (s : dstate) : dstate := DState false (WAKEUP s) (CANCELED s) (INACTIVE s).
Definition andnot_INACTIVE (s : dstate) : dstate := DState (DRAINING s) (WAKEUP s) (CANCELED s) false.

(** ** Threads *)

(** [_mpsc_daemon_queue_enqueue] of an element: about to clear its link, to exchange the
    tail, to link the previous element, to set WAKEUP, to wake the daemon. *)
Inductive producer :=
  | PClear (e : nat)
  | PTail (e : nat)
  | PPrev (e : nat) (prev : node)
  | PState
  | PWakeup.

(** [_mpsc_daemon_queue_drain], with whether a batch has been drained: about to set
    DRAINING, to clear WAKEUP again, then the accesses of [mpsc_queue_dequeue_batch] to
    the tail, the head, the head again and the tail again, the loop over the batch (the
    next element, the marker, the invocation), the end of the batch, [assert_wait], to
    clear DRAINING, [thread_block]; and a thread that has terminated. *)
Inductive consumer :=
  | CAgain
  | CFix
  | CTail (some : bool)
  | CHead (some : bool)
  | CClear (some : bool) (h : nat)
  | CSwap (some : bool) (h : nat)
  | CNext (cur tail : nat)
  | CMark (cur : nat) (next : option nat) (tail : nat)
  | CInvoke (cur : nat) (next : option nat) (tail : nat)
  | CBatchEnd
  | CAssertWait
  | CDrained
  | CBlock
  | CExit.

(** [mpsc_daemon_queue_activate]. *)
Inductive activator := AStart | AWakeup | ADone.

(** [mpsc_daemon_queue_cancel_and_wait]. *)
Inductive canceler := KIdle | KState | KWakeup | KBlock | KDone.

#[export] Instance producer_eq_dec : EqDecision producer.
Proof. solve_decision. Defined.
#[export] Instance consumer_eq_dec : EqDecision consumer.
Proof. solve_decision. Defined.
#[export] Instance activator_eq_dec : EqDecision activator.
Proof. solve_decision. Defined.
#[export] Instance canceler_eq_dec : EqDecision canceler.
Proof. solve_decision. Defined.

(** What the client sees. *)
Inductive call := Invoke (e : nat) | BatchEnd.

(** [mpd_waits] and [mpk_waits] say whether the daemon and the canceler are waiting for
    their event; [appended] and [calls] are histories: the elements in the order of the
    exchanges of the tail, and what has been invoked. *)
Record mstate := MState {
  mpqh_head : link;
  mpqh_tail : node;
  mpqc_next : gmap nat link;
  mpd_state : dstate;
  mpd_batch : bool;
  mpd_waits : bool;
  mpk_waits : bool;
  producers : gmap nat producer;
  daemon : consumer;
  activation : activator;
  cancelation : canceler;
  appended : list nat;
  calls : list call
}.

Inductive result := Next (st : mstate) | Blocked | Fault.

(** *** Assignments *)

Definition set_producers (st : mstate) (x : gmap nat producer) : mstate :=
  MState (mpqh_head st) (mpqh_tail st) (mpqc_next st) (mpd_state st) (mpd_batch st) (mpd_waits st) (mpk_waits st) x
    (daemon st) (activation st) (cancelation st) (appended st) (calls st).
Definition set_daemon (st : mstate) (x : consumer) : mstate :=
  MState (mpqh_head st) (mpqh_tail st) (mpqc_next st) (mpd_state st) (mpd_batch st) (mpd_waits st) (mpk_waits st)
    (producers st) x (activation st) (cancelation st) (appended st) (calls st).
Definition set_state (st : mstate) (x : dstate) : mstate :=
  MState (mpqh_head st) (mpqh_tail st) (mpqc_next st) x (mpd_batch st) (mpd_waits st) (mpk_waits st)
    (producers st) (daemon st) (activation st) (cancelation st) (appended st) (calls st).
Definition set_tail (st : mstate) (x : node) : mstate :=
  MState (mpqh_head st) x (mpqc_next st) (mpd_state st) (mpd_batch st) (mpd_waits st) (mpk_waits st)
    (producers st) (daemon st) (activation st) (cancelation st) (appended st) (calls st).
Definition set_waits (st : mstate) (x : bool) : mstate :=
  MState (mpqh_head st) (mpqh_tail st) (mpqc_next st) (mpd_state st) (mpd_batch st) x (mpk_waits st)
    (producers st) (daemon st) (activation st) (cancelation st) (appended st) (calls st).
Definition set_kwaits (st : mstate) (x : bool) : mstate :=
  MState (mpqh_head st) (mpqh_tail st) (mpqc_next st) (mpd_state st) (mpd_batch st) (mpd_waits st) x
    (producers st) (daemon st) (activation st) (cancelation st) (appended st) (calls st).
Definition set_activation (st : mstate) (x : activator) : mstate :=
  MState (mpqh_head st) (mpqh_tail st) (mpqc_next st) (mpd_state st) (mpd_batch st) (mpd_waits st) (mpk_waits st)
    (producers st) (daemon st) x (cancelation st) (appended st) (calls st).
Definition set_cancelation (st : mstate) (x : canceler) : mstate :=
  MState (mpqh_head st) (mpqh_tail st) (mpqc_next st) (mpd_state st) (mpd_batch st) (mpd_waits st) (mpk_waits st)
    (producers st) (daemon st) (activation st) x (appended st) (calls st).
Definition set_appended (st : mstate) (x : list nat) : mstate :=
  MState (mpqh_head st) (mpqh_tail st) (mpqc_next st) (mpd_state st) (mpd_batch st) (mpd_waits st) (mpk_waits st)
    (producers st) (daemon st) (activation st) (cancelation st) x (calls st).
Definition set_calls (st : mstate) (x : list call) : mstate :=
  MState (mpqh_head st) (mpqh_tail st) (mpqc_next st) (mpd_state st) (mpd_batch st) (mpd_waits st) (mpk_waits st)
    (producers st) (daemon st) (activation st) (cancelation st) (appended st) x.

(** The link of a node, and a store to it. *)
Definition load (st : mstate) (n : node) : link :=
  match n with Head => mpqh_head st | Elm e => default Marker (mpqc_next st !! e) end.

Definition store_link (st : mstate) (n : node) (x : link) : mstate :=
  match n with
  | Head =>
      MState x (mpqh_tail st) (mpqc_next st) (mpd_state st) (mpd_batch st) (mpd_waits st) (mpk_waits st)
        (producers st) (daemon st) (activation st) (cancelation st) (appended st) (calls st)
  | Elm e =>
      MState (mpqh_head st) (mpqh_tail st) (<[e := x]> (mpqc_next st)) (mpd_state st) (mpd_batch st) (mpd_waits st)
        (mpk_waits st) (producers st) (daemon st) (activation st) (cancelation st) (appended st) (calls st)
  end.

(** ** Steps *)

(** [thread_wakeup_thread] on the event of the daemon: a thread that is not waiting for it
    is not affected. *)
Definition mpsc_queue_thread_wakeup (st : mstate) : mstate := set_waits st false.

(** [mpsc_queue_append]: [__mpsc_queue_append_update_tail] clears the link of the element
    and exchanges the tail, [__mpsc_queue_append_update_prev] links the element to what was
    the tail; [__mpsc_queue_append_was_empty] says whether that was the head. *)
Definition mpsc_queue_append (st : mstate) (p : nat) (x : producer) : result :=
  match x with
  | PClear e => Next (set_producers (store_link st (Elm e) Null) (<[p := PTail e]> (producers st)))
  | PTail e =>
      Next (set_appended (set_producers (set_tail st (Elm e)) (<[p := PPrev e (mpqh_tail st)]> (producers st)))
              (appended st ++ [e]))
  | PPrev e prev =>
      let st := store_link st prev (To e) in
      Next (set_producers st (if decide (prev = Head) then <[p := PState]> (producers st) else delete p (producers st)))
  | _ => Fault
  end.

(** A step of [_mpsc_daemon_queue_enqueue]. *)
Definition producer_step (p : nat) (st : mstate) : result :=
  match producers st !! p with
  | Some PState =>
      let s := mpd_state st in
      let st := set_state st (or_WAKEUP s) in
      if CANCELED s then Fault
      else if DRAINING s || WAKEUP s || INACTIVE s then Next (set_producers st (delete p (producers st)))
      else Next (set_producers st (<[p := PWakeup]> (producers st)))
  | Some PWakeup => Next (set_producers (mpsc_queue_thread_wakeup st) (delete p (producers st)))
  | Some x => mpsc_queue_append st p x
  | None => Blocked
  end.

(** After a batch, or an empty queue. *)
Definition batches_done (st : mstate) (some : bool) : mstate :=
  set_daemon st (if some && mpd_batch st then CBatchEnd else CAssertWait).

(** The four accesses of [mpsc_queue_dequeue_batch]; a queue that is empty ends the loop
    over the batches. *)
Definition mpsc_queue_dequeue_batch (st : mstate) (c : consumer) : result :=
  match c with
  | CTail some =>
      if decide (mpqh_tail st = Head) then Next (batches_done st some) else Next (set_daemon st (CHead some))
  | CHead some =>
      match mpqh_head st with
      | To h => Next (set_daemon st (CClear some h))
      | Null => Blocked
      | Marker => Fault
      end
  | CClear some h => Next (set_daemon (store_link st Head Null) (CSwap some h))
  | CSwap some h =>
      match mpqh_tail st with
      | Elm tail => Next (set_daemon (set_tail st Head) (CNext h tail))
      | Head => Fault
      end
  | _ => Fault
  end.

Definition mpsc_queue_batch_next (st : mstate) (cur tail : nat) : result :=
  if decide (cur = tail) then Next (set_daemon st (CMark cur None tail))
  else
    match load st (Elm cur) with
    | To next => Next (set_daemon st (CMark cur (Some next) tail))
    | Null => Blocked
    | Marker => Fault
    end.

(** A step of [_mpsc_daemon_queue_drain], and of the [thread_block_parameter] after it. *)
Definition consumer_step (st : mstate) : result :=
  match daemon st with
  | CAgain =>
      let s := xor_DRAINING_WAKEUP (mpd_state st) in
      let st := set_state st s in
      if negb (DRAINING s) then Fault
      else if WAKEUP s then if CANCELED s then Next (set_daemon st CFix) else Fault
      else Next (set_daemon st (CTail false))
  | CFix => Next (set_daemon (set_state st (andnot_WAKEUP (mpd_state st))) (CTail false))
  | (CTail _ | CHead _ | CClear _ _ | CSwap _ _) as c => mpsc_queue_dequeue_batch st c
  | CNext cur tail => mpsc_queue_batch_next st cur tail
  | CMark cur next tail => Next (set_daemon (store_link st (Elm cur) Marker) (CInvoke cur next tail))
  | CInvoke cur next tail =>
      let st := set_calls st (calls st ++ [Invoke cur]) in
      Next (set_daemon st (match next with Some next => CNext next tail | None => CTail true end))
  | CBatchEnd => Next (set_daemon (set_calls st (calls st ++ [BatchEnd])) CAssertWait)
  | CAssertWait => Next (set_daemon (set_waits st true) CDrained)
  | CDrained =>
      let s := andnot_DRAINING (mpd_state st) in
      let st := set_state st s in
      if WAKEUP s then Next (set_daemon (set_waits st false) CAgain)
      else if CANCELED s then Next (set_daemon (set_waits (set_kwaits st false) false) CExit)
      else Next (set_daemon st CBlock)
  | CBlock => if mpd_waits st then Blocked else Next (set_daemon st CAgain)
  | CExit => Blocked
  end.

Definition activate_step (st : mstate) : result :=
  match activation st with
  | AStart =>
      let s := mpd_state st in
      Next (set_activation (set_state st (andnot_INACTIVE s)) (if WAKEUP s && INACTIVE s then AWakeup else ADone))
  | AWakeup => Next (set_activation (mpsc_queue_thread_wakeup st) ADone)
  | ADone => Blocked
  end.

Definition cancel_step (st : mstate) : result :=
  match cancelation st with
  | KIdle => Next (set_cancelation (set_kwaits st true) KState)
  | KState =>
      let s := mpd_state st in
      if CANCELED s || INACTIVE s then Fault
      else Next (set_cancelation (set_state st (or_CANCELED s)) KWakeup)
  | KWakeup => Next (set_cancelation (mpsc_queue_thread_wakeup st) KBlock)
  | KBlock => if mpk_waits st then Blocked else Next (set_cancelation st KDone)
  | KDone => Blocked
  end.

(** The state of a new queue; [inactive] is [MPSC_DAEMON_INIT_INACTIVE], and the thread is
    started waiting. *)
Definition mpsc_daemon_queue_init (batch inactive : bool) : mstate :=
  MState Null Head ∅ (DState false false false inactive) batch true false ∅ CBlock
    (if inactive then AStart else ADone) KIdle [] [].

(** The elements that have been handed to the client, and those that have been appended
    and not yet handed over. *)
Definition invoked (st : mstate) : list nat := omap (fun c => match c with Invoke e => Some e | BatchEnd => None end) (calls st).
Definition pending (st : mstate) : list nat := drop (length (invoked st)) (appended st).

(** The element of an enqueue operation that has not exchanged the tail yet. *)
Definition holds (x : producer) (e : nat) : Prop := x = PClear e \/ x = PTail e.

(** One step of one thread.  The rules of use: an element is enqueued only while it is on
    no queue, and after the start of a cancelation, which happens when no call is going
    on, nothing is enqueued. *)
Inductive mstep (st st' : mstate) : Prop :=
  | ms_enqueue p e :
      cancelation st = KIdle -> producers st !! p = None -> e ∉ pending st ->
      (forall q x, producers st !! q = Some x -> ~ holds x e) ->
      st' = set_producers st (<[p := PClear e]> (producers st)) -> mstep st st'
  | ms_producer p : producer_step p st = Next st' -> mstep st st'
  | ms_consumer : consumer_step st = Next st' -> mstep st st'
  | ms_activate : activate_step st = Next st' -> mstep st st'
  | ms_cancel :
      (cancelation st = KIdle -> producers st = ∅ /\ activation st = ADone) -> cancel_step st = Next st' -> mstep st st'.

Definition reachable (st : mstate) : Prop :=
  exists batch inactive, rtc mstep (mpsc_daemon_queue_init batch inactive) st.
