(* ===== verification/MpscInv.v ===== *)
(** * The invariant of the multi-producer single-consumer queue

    What holds in every state that the steps of Mpsc.v reach.  [control]: who is going to
    wake the daemon up, so that WAKEUP is never set with nobody to act on it.  [queue]:
    the links in memory spell the batch that is being walked and the queue behind it, up
    to the links that producers are about to store. *)
From S2P Require Import Prelude Mpsc.
From stdpp Require Import gmap.

(** ** Wake-ups *)

(** DRAINING is set at these points, and at these the tail will be read again. *)
Definition draining (c : consumer) : bool :=
  match c with CAgain | CBlock | CExit => false | _ => true end.
Definition looking (c : consumer) : bool :=
  match c with CAgain | CBatchEnd | CAssertWait | CDrained | CBlock | CExit => false | _ => true end.

(** A producer that is going to set WAKEUP. *)
Definition will_set (x : producer) : Prop := x = PState \/ exists e, x = PPrev e Head.

(** Who is going to wake the daemon up, or the daemon itself when it is up. *)
Inductive holder := HProducer (p : nat) | HActivator | HDaemon.

Definition wakes (st : mstate) (t : option holder) : Prop :=
  (forall p, producers st !! p = Some PWakeup <-> t = Some (HProducer p)) /\
  (activation st = AWakeup <-> t = Some HActivator) /\
  (daemon st = CAgain \/ (daemon st = CBlock /\ mpd_waits st = false) <-> t = Some HDaemon) /\
  (t <> None <-> DRAINING (mpd_state st) = false /\ WAKEUP (mpd_state st) = true /\ INACTIVE (mpd_state st) = false).

Record control (st : mstate) : Prop := {
  c_draining : DRAINING (mpd_state st) = draining (daemon st);
  c_inactive : INACTIVE (mpd_state st) = bool_decide (activation st = AStart);
  c_started : INACTIVE (mpd_state st) = true -> daemon st = CBlock;
  c_canceled : CANCELED (mpd_state st) = bool_decide (cancelation st ∈ [KWakeup; KBlock; KDone]);
  c_calls : cancelation st <> KIdle -> producers st = ∅ /\ activation st = ADone;
  c_exit : daemon st = CExit -> CANCELED (mpd_state st) = true /\ WAKEUP (mpd_state st) = false /\ mpk_waits st = false;
  c_wakes : CANCELED (mpd_state st) = false -> exists t, wakes st t;
  c_drained : CANCELED (mpd_state st) = false -> daemon st = CDrained -> mpd_waits st = true;
  c_block : CANCELED (mpd_state st) = true -> daemon st = CBlock -> mpd_waits st = true -> cancelation st = KWakeup;
  c_work : mpqh_tail st <> Head ->
    WAKEUP (mpd_state st) = true \/ looking (daemon st) = true \/ exists p x, producers st !! p = Some x /\ will_set x
}.

Lemma control_init batch inactive : control (mpsc_daemon_queue_init batch inactive).
Proof.
  constructor; cbn; try done; try (by destruct inactive).
  intros _. exists None. split_and!; try done; [by destruct inactive|naive_solver|naive_solver].
Qed.

(** The bits under which somebody is going to wake the daemon up, or the daemon is up. *)
Definition awake (s : dstate) : Prop := DRAINING s = false /\ WAKEUP s = true /\ INACTIVE s = false.

(** A step of a producer that is not about to wake the daemon. *)
Lemma wakes_frame st st' p x t :
  producers st !! p = Some x -> x <> PWakeup -> producers st' !! p <> Some PWakeup ->
  (forall q, q <> p -> producers st' !! q = producers st !! q) ->
  activation st' = activation st -> daemon st' = daemon st -> mpd_waits st' = mpd_waits st ->
  (awake (mpd_state st') <-> awake (mpd_state st)) -> wakes st t -> wakes st' t.
Proof.
  intros Hp Hx Hx' Hq Ha Hd Hw Hs (H1 & H2 & H3 & H4). unfold wakes. fold (awake (mpd_state st')). rewrite Ha, Hd, Hw, Hs.
  split_and!; try done. intros q. rewrite <- H1. destruct (decide (q = p)) as [->|]; [|by rewrite Hq].
  split; [done|]. rewrite Hp. by intros [= ->].
Qed.

Lemma work_frame (m m' : gmap nat producer) p x :
  m !! p = Some x -> ~ will_set x -> (forall q, q <> p -> m' !! q = m !! q) ->
  (exists p x, m !! p = Some x /\ will_set x) -> exists p x, m' !! p = Some x /\ will_set x.
Proof.
  intros Hp Hx Hm (q & z & Hq & Hz). exists q, z. split; [|done]. rewrite Hm; [done|]. intros ->. by simplify_eq.
Qed.

Ltac others := intros; first [by rewrite lookup_insert_ne | by rewrite lookup_delete_ne].

(** The exchange of the state by a producer that finds the daemon idle. *)
Lemma wakes_producer st p :
  producers st !! p = Some PState -> ~ awake (mpd_state st) ->
  DRAINING (mpd_state st) || WAKEUP (mpd_state st) || INACTIVE (mpd_state st) = false -> (exists t, wakes st t) ->
  wakes (set_producers (set_state st (or_WAKEUP (mpd_state st))) (<[p := PWakeup]> (producers st))) (Some (HProducer p)).
Proof.
  intros Hp Hn Hb (t & H1 & H2 & H3 & H4). fold (awake (mpd_state st)) in H4.
  assert (t = None) as -> by (destruct t; [by destruct Hn; apply H4|done]).
  apply orb_false_iff in Hb as [[Hb1 Hb2]%orb_false_iff Hb3]. unfold wakes. cbn. rewrite Hb1, Hb3.
  split_and!; [|split; [by intros ?%H2|done]|split; [by intros ?%H3|done]|done].
  intros q. destruct (decide (q = p)) as [->|].
  - by rewrite lookup_insert_eq.
  - rewrite lookup_insert_ne by done. rewrite H1. split; [done|]. intros [= ->]. done.
Qed.

(** The daemon is up. *)
Lemma wakes_daemon st :
  (forall p, producers st !! p <> Some PWakeup) -> activation st <> AWakeup ->
  daemon st = CAgain \/ daemon st = CBlock /\ mpd_waits st = false -> awake (mpd_state st) -> wakes st (Some HDaemon).
Proof.
  intros Hm Ha Hd Hs. split_and!; try done; split; try done; intros.
  by destruct (Hm p).
Qed.

(** Nobody is going to wake the daemon, which is not up. *)
Lemma wakes_nobody st :
  (forall p, producers st !! p <> Some PWakeup) -> activation st <> AWakeup ->
  ~ (daemon st = CAgain \/ daemon st = CBlock /\ mpd_waits st = false) -> ~ awake (mpd_state st) -> wakes st None.
Proof.
  intros Hm Ha Hd Hs. split_and!; try done; split; try done; intros.
  by destruct (Hm p).
Qed.

(** Only a blocked daemon is woken. *)
Lemma woken_blocked st t :
  control st -> CANCELED (mpd_state st) = false -> wakes st (Some t) -> t <> HDaemon -> daemon st = CBlock.
Proof.
  intros HC Hc (_ & _ & H3 & H4) Ht. destruct (proj1 H4 ltac:(done)) as (Hd & _ & _).
  rewrite (c_draining _ HC) in Hd. destruct (daemon st) eqn:E; try done.
  - destruct Ht. assert (Some t = Some HDaemon) as [= ->] by (apply H3; by left). done.
  - destruct (c_exit _ HC E) as [? _]. congruence.
Qed.

Lemma producer_control p st st' : control st -> producer_step p st = Next st' -> control st'.
Proof.
  intros HC. pose proof HC as [H1 H2 Hi H3 H4 H5 H6 H7 H8 H9]. unfold producer_step, mpsc_queue_append.
  destruct (producers st !! p) as [x|] eqn:Hp; [|done].
  assert (cancelation st = KIdle) as Hk.
  { destruct (decide (cancelation st = KIdle)) as [|Hk]; [done|]. destruct (H4 Hk) as [He _]. by rewrite He in Hp. }
  assert (CANCELED (mpd_state st) = false) as Hc by (by rewrite H3, Hk).
  destruct (H6 Hc) as (t & Ht). destruct x as [e|e|e prev| |].
  - intros [= <-]. constructor; cbn; try done.
    + intros _. exists t. eapply wakes_frame; [exact Hp|done|..|exact Ht]; cbn; try done; [by rewrite lookup_insert_eq|others].
    + intros [|[|Hw]]%H9; [by left|by right; left|right; right]. eapply work_frame; [exact Hp| |others|exact Hw].
      intros [|[? ?]]; done.
  - intros [= <-]. constructor; cbn; try done.
    + intros _. exists t. eapply wakes_frame; [exact Hp|done|..|exact Ht]; cbn; try done; [by rewrite lookup_insert_eq|others].
    + intros _. destruct (decide (mpqh_tail st = Head)) as [->|Hh].
      { right; right. exists p, (PPrev e Head). rewrite lookup_insert_eq. split; [done|]. right. by exists e. }
      destruct (H9 Hh) as [|[|Hw]]; [by left|by right; left|right; right].
      eapply work_frame; [exact Hp| |others|exact Hw]. intros [|[? ?]]; done.
  - destruct (decide (prev = Head)) as [-> | Hh]; intros [= <-]; [|destruct prev as [|n]; [done|]]; constructor; cbn; try done.
    + intros _. exists t. eapply wakes_frame; [exact Hp|done|..|exact Ht]; cbn; try done; [by rewrite lookup_insert_eq|others].
    + intros _. right; right. exists p, PState. rewrite lookup_insert_eq. split; [done|]. by left.
    + intros _. exists t. eapply wakes_frame; [exact Hp|done|..|exact Ht]; cbn; try done; [by rewrite lookup_delete_eq|others].
    + intros [|[|Hw]]%H9; [by left|by right; left|right; right]. eapply work_frame; [exact Hp| |others|exact Hw].
      intros [|[? ?]]; done.
  - rewrite Hc. destruct (DRAINING (mpd_state st) || _ || _) eqn:Hb; intros [= <-]; constructor; cbn; try done; try (by left).
    + intros E. destruct (H5 E). congruence.
    + intros _. exists t. eapply wakes_frame; [exact Hp|done|..|exact Ht]; cbn; try done; [by rewrite lookup_delete_eq|others|].
      unfold awake. cbn. destruct (DRAINING _), (WAKEUP _), (INACTIVE _); naive_solver.
    + intros E. destruct (H5 E). congruence.
    + intros _. exists (Some (HProducer p)). apply wakes_producer; try done; [|by exists t].
      intros (? & E & ?). by rewrite E, orb_true_r in Hb.
  - intros [= <-]. assert (t = Some (HProducer p)) as -> by (by apply Ht). pose proof Ht as (Ht1 & Ht2 & _ & Ht4).
    pose proof (woken_blocked _ _ HC Hc Ht ltac:(done)) as Hd. constructor; cbn; try done.
    + intros _. exists (Some HDaemon). apply wakes_daemon; cbn; [|by intros ?%Ht2|by right|by apply Ht4].
      intros q Hq. destruct (decide (q = p)) as [->|]; [by rewrite lookup_delete_eq in Hq|].
      rewrite lookup_delete_ne in Hq by done. apply Ht1 in Hq. congruence.
    + congruence.
    + intros [|[|Hw]]%H9; [by left|by right; left|right; right]. eapply work_frame; [exact Hp| |others|exact Hw].
      intros [|[? ?]]; done.
Qed.

(** Nobody else wakes the daemon while it is up, or while it drains. *)
Lemma wakes_alone st t :
  wakes st t -> t = Some HDaemon \/ DRAINING (mpd_state st) = true ->
  (forall p, producers st !! p <> Some PWakeup) /\ activation st <> AWakeup.
Proof.
  intros (H1 & H2 & _ & H4) Ht. assert (t = Some HDaemon \/ t = None) as [-> | ->].
  { destruct Ht as [->|Ht]; [by left|right]. destruct t; [|done]. destruct (proj1 H4 ltac:(done)). congruence. }
  - split; [intros p ?%H1; done|by intros ?%H2].
  - split; [intros p ?%H1; done|by intros ?%H2].
Qed.

(** A step of the daemon that does not touch the state, from a draining point to another. *)
Lemma daemon_control st st' :
  control st -> draining (daemon st) = true -> draining (daemon st') = true ->
  mpd_state st' = mpd_state st -> activation st' = activation st -> cancelation st' = cancelation st ->
  producers st' = producers st -> (daemon st' = CDrained -> mpd_waits st' = true) ->
  (mpqh_tail st' <> Head -> looking (daemon st') = true \/ (mpqh_tail st <> Head /\ looking (daemon st) = false)) ->
  control st'.
Proof.
  intros [H1 H2 Hi H3 H4 H5 H6 H7 H8 H9] Hd Hd' Hs Ha Hk Hp Hw Ht. constructor; rewrite ?Hs, ?Ha, ?Hk, ?Hp; try done.
  - by rewrite H1, Hd, Hd'.
  - intros E%Hi. by rewrite E in Hd.
  - intros E. by rewrite E in Hd'.
  - intros Hc. destruct (H6 Hc) as [t Hwk]. rewrite Hd in H1.
    destruct (wakes_alone _ _ Hwk ltac:(by right)) as [Hn1 Hn2]. exists None. apply wakes_nobody; rewrite ?Hs, ?Ha, ?Hp; try done.
    + intros [E|[E _]]; by rewrite E in Hd'.
    + intros [E _]. congruence.
  - intros _ E. by rewrite E in Hd'.
  - intros Hh. destruct (Ht Hh) as [|[Hh' Hl]]; [by right; left|]. destruct (H9 Hh') as [|[|]]; [by left|congruence|by right; right].
Qed.

(** The daemon starts to look, whatever becomes of WAKEUP. *)
Lemma daemon_looks st s c :
  control st -> daemon st = CAgain \/ daemon st = CFix -> looking c = true ->
  DRAINING s = true -> CANCELED s = CANCELED (mpd_state st) -> INACTIVE s = INACTIVE (mpd_state st) ->
  control (set_daemon (set_state st s) c).
Proof.
  intros [H1 H2 Hi H3 H4 H5 H6 H7 H8 H9] Hd Hl Hs1 Hs2 Hs3.
  constructor; cbn; rewrite ?Hs2, ?Hs3; try done; try (by intros; subst c); try (by right; left).
  - rewrite Hs1. by destruct c.
  - intros E%Hi. rewrite E in Hd. by destruct Hd.
  - intros Hc. destruct (H6 Hc) as [t Ht]. exists None. destruct (wakes_alone _ _ Ht) as [Hn1 Hn2].
    { destruct Hd as [Hd|Hd]; [left; apply Ht; by left|right; by rewrite H1, Hd]. }
    apply wakes_nobody; cbn; try done; [|intros [? _]; congruence]. intros [->|[-> _]]; done.
Qed.

(** The daemon stops draining: it is up again when WAKEUP is set. *)
Lemma daemon_stops st c w k :
  control st -> daemon st = CDrained ->
  (WAKEUP (mpd_state st) = true /\ c = CAgain \/
   WAKEUP (mpd_state st) = false /\ CANCELED (mpd_state st) = true /\ c = CExit /\ k = false \/
   WAKEUP (mpd_state st) = false /\ CANCELED (mpd_state st) = false /\ c = CBlock /\ w = true) ->
  control (set_daemon (set_waits (set_kwaits (set_state st (andnot_DRAINING (mpd_state st))) k) w) c).
Proof.
  intros HC Hd Hc. pose proof HC as [H1 H2 Hi H3 H4 H5 H6 H7 H8 H9]. rewrite Hd in *. cbn in H1.
  assert (INACTIVE (mpd_state st) = false) as Hi' by (destruct (INACTIVE _); [by specialize (Hi eq_refl)|done]).
  assert (CANCELED (mpd_state st) = false ->
    (forall p, producers st !! p <> Some PWakeup) /\ activation st <> AWakeup) as Hn.
  { intros Hca. destruct (H6 Hca) as [t Ht]. apply (wakes_alone _ _ Ht). by right. }
  destruct Hc as [[Hw ->]|[(Hw & Hca & -> & ->)|(Hw & Hca & -> & ->)]]; constructor; cbn; try done; try congruence.
  - intros Hca. destruct (Hn Hca). exists (Some HDaemon). apply wakes_daemon; cbn; try done. by left.
  - intros _. destruct (Hn Hca). exists None. apply wakes_nobody; cbn; try done; [naive_solver|].
    intros (_ & ? & _). cbn in *. congruence.
Qed.

Lemma woken_active st :
  control st -> daemon st = CBlock -> mpd_waits st = false -> INACTIVE (mpd_state st) = false.
Proof.
  intros [H1 H2 Hi H3 H4 H5 H6 H7 H8 H9] Hd Hw. destruct (CANCELED (mpd_state st)) eqn:Hc.
  - destruct H4 as [_ Ha]; [intros Hk; by rewrite Hk in H3|]. by rewrite H2, Ha.
  - destruct (H6 eq_refl) as (t & _ & _ & Ht3 & Ht4). apply Ht4. rewrite (proj1 Ht3); [done|by right].
Qed.

Lemma consumer_control st st' : control st -> consumer_step st = Next st' -> control st'.
Proof.
  intros HC. pose proof HC as [H1 H2 Hi H3 H4 H5 H6 H7 H8 H9]. unfold consumer_step, mpsc_queue_dequeue_batch, mpsc_queue_batch_next.
  destruct (daemon st) as [| |some|some|some h|some h|cur tail|cur next tail|cur next tail| | | | |] eqn:Hd; cbn in H1.
  - cbn. rewrite H1. cbn. destruct (WAKEUP _); cbn; [|destruct (CANCELED _) eqn:Hc; [|done]]; injection 1 as <-;
      apply daemon_looks; cbn; rewrite ?H1, ?Hc; try done; by left.
  - injection 1 as <-. apply daemon_looks; cbn; try done. by right.
  - destruct (decide (mpqh_tail st = Head)) as [Hh|Hh]; injection 1 as <-; apply (daemon_control st);
      rewrite ?Hd; try done; unfold batches_done; cbn.
    all: try (by destruct (_ && _)). all: naive_solver.
  - destruct (mpqh_head st); [done| |done]. injection 1 as <-. apply (daemon_control st); rewrite ?Hd; try done. by left.
  - injection 1 as <-. apply (daemon_control st); rewrite ?Hd; try done. by left.
  - destruct (mpqh_tail st) eqn:Ht; [done|]. injection 1 as <-. apply (daemon_control st); rewrite ?Hd; try done.
  - repeat case_match; intros; simplify_eq; apply (daemon_control st); rewrite ?Hd; try done; by left.
  - injection 1 as <-. apply (daemon_control st); rewrite ?Hd; try done. by left.
  - injection 1 as <-. apply (daemon_control st); rewrite ?Hd; try done; cbn; destruct next; try done; by left.
  - injection 1 as <-. apply (daemon_control st); rewrite ?Hd; try done. by right.
  - injection 1 as <-. apply (daemon_control st); rewrite ?Hd; try done. by right.
  - cbn. destruct (WAKEUP _) eqn:Hw; [|destruct (CANCELED _) eqn:Hc]; injection 1 as <-.
    + apply (daemon_stops st CAgain false (mpk_waits st)); auto.
    + apply (daemon_stops st CExit false false); auto 10.
    + pose proof (H7 eq_refl eq_refl). apply (daemon_stops st CBlock (mpd_waits st) (mpk_waits st)); auto 10.
  - destruct (mpd_waits st) eqn:Hw; [done|]. injection 1 as <-. constructor; cbn; try done.
    + rewrite (woken_active _ HC Hd Hw). done.
    + intros Hc. destruct (H6 Hc) as [t Ht]. assert (t = Some HDaemon) as -> by (apply Ht; by right).
      destruct (wakes_alone _ _ Ht ltac:(by left)). exists (Some HDaemon). apply wakes_daemon; cbn; try done; [by left|].
      by apply Ht.
  - done.
Qed.

Lemma activate_control st st' : control st -> activate_step st = Next st' -> control st'.
Proof.
  intros HC. pose proof HC as [H1 H2 Hi H3 H4 H5 H6 H7 H8 H9]. unfold activate_step.
  destruct (activation st) eqn:Ha; [| |done]; intros [= <-].
  all: assert (cancelation st = KIdle) as Hk by
    (destruct (decide (cancelation st = KIdle)) as [|Hk]; [done|destruct (H4 Hk); congruence]).
  all: assert (CANCELED (mpd_state st) = false) as Hc by (by rewrite H3, Hk).
  all: destruct (H6 Hc) as [t Ht]; pose proof Ht as (Ht1 & Ht2 & Ht3 & Ht4).
  - change (bool_decide _) with true in H2. specialize (Hi H2). rewrite Hi in *. cbn in H1. rewrite H2.
    assert (t = None) as -> by (destruct t; [destruct (proj1 Ht4 ltac:(done)) as (_ & _ & ?); congruence|done]).
    constructor; cbn; rewrite ?Hi; try done.
    + by destruct (_ && _).
    + intros _. destruct (WAKEUP (mpd_state st)) eqn:Hw; [exists (Some HActivator)|exists None].
      * split_and!; cbn; try done; [intros p; rewrite Ht1; split; congruence|rewrite Hi; split; [intros Hx%Ht3|]; done].
      * apply wakes_nobody; cbn; try done; [intros q ?%Ht1; done|by rewrite Hi; intros ?%Ht3|]. intros (_ & ? & _). cbn in *. congruence.
  - assert (t = Some HActivator) as -> by (by apply Ht2).
    pose proof (woken_blocked _ _ HC Hc Ht ltac:(done)) as Hd.
    constructor; cbn; try done; try congruence. 
    intros _. exists (Some HDaemon). apply wakes_daemon; cbn; [intros q ?%Ht1; done|done|by right|by apply Ht4].
Qed.

Lemma cancel_control st st' :
  control st -> (cancelation st = KIdle -> producers st = ∅ /\ activation st = ADone) ->
  cancel_step st = Next st' -> control st'.
Proof.
  intros [H1 H2 Hi H3 H4 H5 H6 H7 H8 H9] Hq. unfold cancel_step. destruct (cancelation st) eqn:Hk; [..|done].
  all: match goal with H : _ = bool_decide (?k ∈ _) |- _ => let b := eval vm_compute in (bool_decide (k ∈ [KWakeup; KBlock; KDone])) in change (bool_decide _) with b in H end.
  - intros [= <-]. constructor; cbn; try done; try congruence; [by intros _; apply Hq|].
    intros E. destruct (H5 E) as [Hc _]. congruence.
  - destruct (CANCELED _ || INACTIVE _) eqn:Hc; [done|]. apply orb_false_iff in Hc as [Hc Hn]. intros [= <-].
    constructor; cbn; try done; try (by intros _; apply H4). intros E. destruct (H5 E). congruence.
  - intros [= <-]. constructor; cbn; try done; try (by intros _; apply H4); congruence.
  - destruct (mpk_waits st) eqn:Hw; [done|]. intros [= <-]. constructor; cbn; try done; try (by intros _; apply H4).
    + intros E. destruct (H5 E) as (? & ? & _). done.
    + intros H ? Hx. by specialize (H8 H ltac:(done) Hx).
Qed.

Lemma enqueue_control st p e :
  control st -> cancelation st = KIdle -> producers st !! p = None ->
  control (set_producers st (<[p := PClear e]> (producers st))).
Proof.
  intros [H1 H2 Hi H3 H4 H5 H6 H7 H8 H9] Hk Hp. constructor; cbn; try done.
  - intros Hc. destruct (H6 Hc) as (t & Ht1 & Ht). exists t. split; [|done]. intros q. cbn. rewrite <- Ht1.
    destruct (decide (q = p)) as [->|]; [by rewrite lookup_insert_eq, Hp|by rewrite lookup_insert_ne].
  - intros [|[|(q & x & Hq & Hx)]]%H9; [by left|by right; left|right; right]. exists q, x. split; [|done].
    rewrite lookup_insert_ne; [done|]. congruence.
Qed.

#[local] Hint Resolve producer_control consumer_control activate_control cancel_control : core.
Lemma step_control st st' : control st -> mstep st st' -> control st'.
Proof. intros HC []; subst; eauto using enqueue_control. Qed.

(** ** The queue in memory *)

#[local] Arguments load : simpl never.

(** The element that has been marked and is about to be invoked, and the point at which
    the head has been cleared and the tail not yet exchanged. *)
Definition current (c : consumer) : list nat := match c with CInvoke cur _ _ => [cur] | _ => [] end.
Definition swapping (c : consumer) : bool := match c with CSwap _ _ => true | _ => false end.

Definition adjacent (l : list nat) (x y : nat) : Prop := exists i, l !! i = Some x /\ l !! S i = Some y.

(** The links that are to be there when a batch [B] is being walked and [R] has been
    appended since, and the nodes that have nothing after them. *)
Definition follows (c : consumer) (B R : list nat) (x : node) (y : nat) : Prop :=
  match x with
  | Head => head R = Some y /\ swapping c = false
  | Elm x => adjacent B x y \/ adjacent R x y
  end.
Definition ends (c : consumer) (B R : list nat) (x : node) : Prop :=
  match x with
  | Head => R = [] \/ swapping c = true
  | Elm x => last B = Some x \/ last R = Some x
  end.

(** A link is stored, or its producer is about to store it. *)
Definition linked (st : mstate) (x : node) (y : nat) : Prop :=
  load st x = To y \/ load st x = Null /\ exists p, producers st !! p = Some (PPrev y x).

(** What the local variables of the daemon say of the batch. *)
Definition shape (st : mstate) (c : consumer) (B R : list nat) : Prop :=
  match c with
  | CHead _ => B = [] /\ R <> []
  | CClear _ h => B = [] /\ head R = Some h /\ mpqh_head st = To h
  | CSwap _ h => B = [] /\ head R = Some h
  | CNext cur tail => head B = Some cur /\ last B = Some tail
  | CMark cur next tail =>
      exists B', B = cur :: B' /\ head B' = next /\ last B = Some tail /\
        forall n, next = Some n -> load st (Elm cur) = To n
  | CInvoke cur next tail => head B = next /\ (next <> None -> last B = Some tail)
  | _ => B = []
  end.

Definition tail_of (R : list nat) : node := match last R with Some e => Elm e | None => Head end.

Record queue (st : mstate) (B R : list nat) : Prop := {
  q_order : appended st = invoked st ++ current (daemon st) ++ B ++ R;
  q_tail : mpqh_tail st = tail_of R;
  q_nodup : NoDup (current (daemon st) ++ B ++ R);
  q_new : forall p x e, producers st !! p = Some x -> holds x e -> e ∉ current (daemon st) ++ B ++ R;
  q_hold : forall p q x y e, producers st !! p = Some x -> producers st !! q = Some y -> holds x e -> holds y e -> p = q;
  q_one : forall p q x y e, producers st !! p = Some (PPrev e x) -> producers st !! q = Some (PPrev e y) -> p = q;
  q_clear : forall p e, producers st !! p = Some (PTail e) -> load st (Elm e) = Null;
  q_prev : forall p x y, producers st !! p = Some (PPrev y x) -> load st x = Null /\ follows (daemon st) B R x y;
  q_links : forall x y, follows (daemon st) B R x y -> linked st x y;
  q_ends : forall x, ends (daemon st) B R x -> load st x = Null;
  q_shape : shape st (daemon st) B R
}.

Lemma adjacent_elem l x y : adjacent l x y -> x ∈ l /\ y ∈ l.
Proof. intros (i & Hx & Hy). split; by eapply list_elem_of_lookup_2. Qed.

Lemma adjacent_inj l x y z : NoDup l -> adjacent l x y -> adjacent l x z -> y = z.
Proof.
  intros Hn (i & Hx & Hy) (j & Hx' & Hz). assert (i = j) as -> by (by eapply NoDup_lookup). congruence.
Qed.

Lemma adjacent_last l x y : NoDup l -> adjacent l x y -> last l <> Some x.
Proof.
  intros Hn (i & Hx & Hy) Hl. rewrite last_lookup in Hl.
  assert (i = pred (length l)) as -> by (by eapply NoDup_lookup). apply lookup_lt_Some in Hy. lia.
Qed.

Lemma adjacent_snoc l e x y : adjacent (l ++ [e]) x y <-> adjacent l x y \/ last l = Some x /\ y = e.
Proof.
  split.
  - intros (i & Hx & Hy). destruct (decide (S i < length l)%nat) as [Hi|Hi].
    + left. exists i. by rewrite lookup_app_l in Hx, Hy by lia.
    + right. pose proof (lookup_lt_Some _ _ _ Hy) as Hlt. rewrite length_app in Hlt. cbn in Hlt.
      rewrite last_lookup. replace (pred (length l)) with i by lia. rewrite lookup_app_l in Hx by lia. split; [done|].
      rewrite lookup_app_r in Hy by lia. replace (S i - length l)%nat with 0%nat in Hy by lia. by injection Hy.
  - intros [(i & Hx & Hy)|[Hl ->]].
    + exists i. split; by apply lookup_app_l_Some.
    + rewrite last_lookup in Hl. pose proof (lookup_lt_Some _ _ _ Hl). exists (pred (length l)).
      split; [by apply lookup_app_l_Some|]. rewrite lookup_app_r by lia.
      by replace (S (pred (length l)) - length l)%nat with 0%nat by lia.
Qed.

Lemma adjacent_cons l h x y : adjacent (h :: l) x y <-> x = h /\ head l = Some y \/ adjacent l x y.
Proof.
  split.
  - intros ([|i] & Hx & Hy); [left|right; by exists i]. cbn in *. destruct l; by simplify_eq.
  - intros [[-> Hl]|(i & Hx & Hy)]; [exists 0%nat|by exists (S i)]. by destruct l.
Qed.

Section queue_facts.
  Context (st : mstate) (B R : list nat) (HQ : queue st B R).

Lemma queue_nodup : NoDup B /\ NoDup R /\ forall x, x ∈ B -> x ∉ R.
Proof using HQ. pose proof (q_nodup _ _ _ HQ) as (_ & _ & (? & ? & ?)%NoDup_app)%NoDup_app. done. Qed.

Lemma follows_inj x y z : follows (daemon st) B R x y -> follows (daemon st) B R x z -> y = z.
Proof using HQ.
  destruct queue_nodup as (HB & HR & HBR). destruct x as [|x]; cbn; [intros [? _] [? _]; congruence|].
  intros [H|H] [H'|H']; try exact (adjacent_inj _ _ _ _ HB H H'); try exact (adjacent_inj _ _ _ _ HR H H').
  all: apply adjacent_elem in H as [H _]; apply adjacent_elem in H' as [H' _]; by destruct (HBR x).
Qed.

Lemma follows_ends x y : follows (daemon st) B R x y -> ~ ends (daemon st) B R x.
Proof using HQ.
  destruct queue_nodup as (HB & HR & HBR). destruct x as [|x]; cbn.
  - intros [Hh Hs] [->|?]; [done|congruence].
  - intros [H|H] [H'|H']; try exact (adjacent_last _ _ _ HB H H'); try exact (adjacent_last _ _ _ HR H H').
    all: apply adjacent_elem in H as [H _]; apply last_Some_elem_of in H'; by destruct (HBR x).
Qed.

(** Nodes of the queue. *)
Lemma follows_elem x y : follows (daemon st) B R (Elm x) y -> x ∈ B ++ R.
Proof. intros [[? _]%adjacent_elem|[? _]%adjacent_elem]; rewrite elem_of_app; auto. Qed.
Lemma ends_elem x : ends (daemon st) B R (Elm x) -> x ∈ B ++ R.
Proof. intros [H|H]; rewrite elem_of_app; apply last_Some_elem_of in H; auto. Qed.
Lemma follows_elem_r x y : follows (daemon st) B R x y -> y ∈ B ++ R.
Proof.
  destruct x; cbn.
  - intros [H _]. rewrite elem_of_app. right. by apply head_Some_elem_of.
  - intros [[_ ?]%adjacent_elem|[_ ?]%adjacent_elem]; rewrite elem_of_app; auto.
Qed.
End queue_facts.

Lemma load_store st n x m : load (store_link st n x) m = if decide (m = n) then x else load st m.
Proof.
  destruct (decide (m = n)) as [->|Hn].
  - destruct n; unfold load; cbn; by rewrite ?lookup_insert_eq.
  - destruct n, m; unfold load; cbn; try done. rewrite lookup_insert_ne; congruence.
Qed.
Lemma load_store_ne st n x m : m <> n -> load (store_link st n x) m = load st m.
Proof. intros. rewrite load_store. by rewrite decide_False. Qed.
Lemma load_store_eq st n x : load (store_link st n x) n = x.
Proof. rewrite load_store. by rewrite decide_True. Qed.

(** A producer that has an element in hand, or a link to store. *)
Definition carries (x : producer) : bool := match x with PState | PWakeup => false | _ => true end.

Lemma holds_carries x e : holds x e -> carries x = true.
Proof. by intros [->| ->]. Qed.
#[local] Hint Resolve holds_carries : core.

(** Steps that touch neither links nor the producers that carry something. *)
Lemma queue_frame st st' B R :
  queue st B R -> (forall n, load st' n = load st n) -> mpqh_tail st' = mpqh_tail st ->
  appended st' = appended st -> invoked st' = invoked st ->
  (forall p x, carries x = true -> producers st' !! p = Some x <-> producers st !! p = Some x) ->
  current (daemon st') = current (daemon st) -> swapping (daemon st') = swapping (daemon st) ->
  shape st' (daemon st') B R -> queue st' B R.
Proof.
  intros [] Hl Ht Ha Hi Hp Hc Hs Hsh.
  assert (forall x y, follows (daemon st') B R x y <-> follows (daemon st) B R x y) as Hf
    by (intros [] ?; unfold follows; by rewrite ?Hs).
  constructor; rewrite ?Ht, ?Ha, ?Hi, ?Hc; try done.
  - intros p x e H He. apply Hp in H; [|by eauto]. by eapply q_new0.
  - intros p q x y e H H' He He'. apply Hp in H, H'; [|by eauto..]. by eapply q_hold0.
  - intros p q x y e H H'. apply Hp in H, H'; [|by eauto..]. by eapply q_one0.
  - intros p e H. apply Hp in H; [|done]. rewrite Hl. by eapply q_clear0.
  - intros p x y H. apply Hp in H; [|done]. rewrite Hl, Hf. by eapply q_prev0.
  - intros x y [H|[H [p H']]]%Hf%q_links0; [left; by rewrite Hl|right]. rewrite Hl. split; [done|]. exists p. by apply Hp.
  - intros x Hx. rewrite Hl. apply q_ends0. destruct x; cbn in *; by rewrite <- ?Hs.
Qed.

(** [shape] speaks of the links only. *)
Lemma shape_load st st' c B R : (forall n, load st' n = load st n) -> shape st c B R -> shape st' c B R.
Proof.
  intros Hl. destruct c; cbn; try done.
  - intros (? & ? & H). split_and!; try done. rewrite <- H. exact (Hl Head).
  - intros (B' & ? & ? & ? & H). exists B'. split_and!; try done. intros n. rewrite (Hl (Elm cur)). apply H.
Qed.

Lemma head_snoc (l : list nat) e x : head l = Some x -> head (l ++ [e]) = Some x.
Proof. by destruct l. Qed.

Lemma shape_snoc st c B R e : shape st c B R -> shape st c B (R ++ [e]).
Proof. destruct c; cbn; try done; intros; destruct_and?; split_and?; try done; auto using head_snoc. by destruct R. Qed.

Lemma ends_tail_of c B R : ends c B R (tail_of R).
Proof. unfold tail_of. destruct (last R) eqn:Hl; cbn; [by right|]. left. by apply last_None. Qed.

Lemma follows_snoc c B R e x y :
  follows c B (R ++ [e]) x y -> follows c B R x y \/ x = tail_of R /\ y = e.
Proof.
  unfold tail_of. destruct x as [|x]; cbn.
  - destruct R as [|h R]; cbn; [intros [[= ->] _]; by right|by left].
  - intros [H|[H|[-> ->]]%adjacent_snoc]; auto.
Qed.
Lemma follows_snoc_l c B R e x y : follows c B R x y -> follows c B (R ++ [e]) x y.
Proof.
  destruct x as [|x]; cbn; [intros [??]; auto using head_snoc|]. intros [H|H]; [by left|right]. apply adjacent_snoc. by left.
Qed.
Lemma follows_snoc_r c B R e : (R = [] -> swapping c = false) -> follows c B (R ++ [e]) (tail_of R) e.
Proof.
  intros Hs. unfold tail_of. destruct (last R) as [x|] eqn:Hl; cbn.
  - right. apply adjacent_snoc. by right.
  - apply last_None in Hl as ->. auto.
Qed.

(** What a producer at [p] is, and the others. *)
Ltac at_producer H :=
  apply lookup_insert_Some in H as [[? ?]|[? H]]; [subst|].

Lemma shape_swapping st c B R : shape st c B R -> R = [] -> swapping c = false.
Proof. destruct c; try done. by intros [_ ?] ->. Qed.

(** The exchange of the tail. *)
Lemma queue_tail st B R p e :
  queue st B R -> producers st !! p = Some (PTail e) ->
  queue (set_appended (set_producers (set_tail st (Elm e)) (<[p := PPrev e (mpqh_tail st)]> (producers st)))
           (appended st ++ [e])) B (R ++ [e]).
Proof.
  intros HQ Hp. pose proof HQ as []. pose proof (q_new0 _ _ e Hp ltac:(by right)) as He. rewrite q_tail0.
  set (st' := set_appended _ _). assert (forall n, load st' n = load st n) as Hl by done.
  constructor; rewrite ?Hl; cbn [daemon appended producers mpqh_tail st' set_appended set_producers set_tail].
  - rewrite q_order0. by rewrite <- !(assoc_L (++)).
  - unfold tail_of. by rewrite last_snoc.
  - rewrite !(assoc_L (++)), <- (assoc_L (++) _ B R). apply NoDup_app. split_and!; [done| |by apply NoDup_singleton].
    intros x Hx ->%list_elem_of_singleton. done.
  - intros q x y Hq Hx. at_producer Hq; [by destruct Hx|]. rewrite !(assoc_L (++)), <- (assoc_L (++) _ B R), elem_of_app.
    intros [Hy|Hy%list_elem_of_singleton]; [by eapply q_new0|]. subst y. by destruct (q_hold0 q p x _ e Hq Hp Hx ltac:(by right)).
  - intros q1 q2 x y z H1 H2 Hx Hy. at_producer H1; [by destruct Hx|]. at_producer H2; [by destruct Hy|]. by eapply q_hold0.
  - assert (forall q x, producers st !! q <> Some (PPrev e x)) as Hn.
    { intros q x [_ Hf%follows_elem_r]%q_prev0. destruct He. apply elem_of_app. by right. }
    intros q1 q2 x y z H1 H2. at_producer H1; at_producer H2; simplify_eq; try done; [by destruct (Hn q2 y)|by destruct (Hn q1 x)|].
    by eapply q_one0.
  - intros q x Hq. at_producer Hq; [done|]. rewrite Hl. by eapply q_clear0.
  - intros q x y Hq. rewrite Hl. at_producer Hq.
    + simplify_eq. split; [apply q_ends0, ends_tail_of|]. eapply follows_snoc_r, shape_swapping. done.
    + destruct (q_prev0 _ _ _ Hq). auto using follows_snoc_l.
  - intros x y [Hf|[-> ->]]%follows_snoc.
    + destruct (q_links0 _ _ Hf) as [|[? [q Hq]]]; [by left|right]. split; [done|]. exists q. cbn.
      rewrite lookup_insert_ne; [done|]. intros ->. congruence.
    + right. rewrite Hl. split; [apply q_ends0, ends_tail_of|]. exists p. cbn. by rewrite lookup_insert_eq.
  - intros x Hx. rewrite Hl. destruct x as [|x]; cbn in Hx.
    + apply q_ends0. right. destruct Hx as [Hx|]; [by destruct R|done].
    + rewrite last_snoc in Hx. destruct Hx as [Hx|[= ->]]; [apply q_ends0; by left|by eapply q_clear0].
  - apply shape_snoc, (shape_load st); done.
Qed.

(** The link of a new element is cleared. *)
Lemma queue_clear st B R p e :
  queue st B R -> producers st !! p = Some (PClear e) ->
  queue (set_producers (store_link st (Elm e) Null) (<[p := PTail e]> (producers st))) B R.
Proof.
  intros HQ Hp. pose proof HQ as []. pose proof (q_new0 _ _ e Hp ltac:(by left)) as He.
  set (st' := set_producers _ _). assert (forall n, n <> Elm e -> load st' n = load st n) as Hl.
  { intros. by apply (load_store_ne st (Elm e) Null). }
  assert (load st' (Elm e) = Null) as Hle by apply (load_store_eq st (Elm e) Null).
  assert (forall x y, follows (daemon st) B R x y -> load st' x = load st x) as Hlf.
  { intros x y Hf. apply Hl. intros ->. apply follows_elem in Hf. rewrite elem_of_app in He. auto. }
  constructor; cbn [daemon appended producers mpqh_tail st' set_producers store_link]; try done.
  - intros q x y Hq Hx. at_producer Hq; [|by eapply q_new0]. by destruct Hx as [|[= <-]].
  - assert (forall q x, producers st !! q = Some x -> holds x e -> p = q) as Hu by (intros; by eapply q_hold0; [..|left|]).
    intros q1 q2 x y z H1 H2 Hx Hy. at_producer H1; at_producer H2; try done.
    + destruct Hx as [|[= <-]]; [done|]. by eapply Hu.
    + destruct Hy as [|[= <-]]; [done|]. symmetry. by eapply Hu.
    + by eapply q_hold0.
  - intros q1 q2 x y z H1 H2. at_producer H1; [done|]. at_producer H2; [done|]. by eapply q_one0.
  - intros q x Hq. at_producer Hq; [by simplify_eq|]. destruct (decide (x = e)) as [->|]; [done|].
    rewrite Hl by congruence. by eapply q_clear0.
  - intros q x y Hq. at_producer Hq; [done|]. destruct (q_prev0 _ _ _ Hq) as [? Hf]. by rewrite (Hlf _ _ Hf).
  - intros x y Hf. unfold linked. rewrite (Hlf _ _ Hf). destruct (q_links0 _ _ Hf) as [|[? [q Hq]]]; [by left|right].
    split; [done|]. exists q. cbn. rewrite lookup_insert_ne; [done|]. intros ->. congruence.
  - intros x Hx. rewrite Hl; [by apply q_ends0|]. intros ->. apply ends_elem in Hx. rewrite elem_of_app in He. auto.
  - clear -q_shape0 Hl He. destruct (daemon st) eqn:Hd; cbn in *; try done.
    destruct q_shape0 as (B' & -> & ? & ? & H). exists B'. split_and!; try done. intros n Hn. rewrite Hl; [by apply H|].
    intros [= ->]. destruct He. by left.
Qed.

(** A producer stores its link. *)
Lemma queue_prev st B R p e prev m :
  queue st B R -> producers st !! p = Some (PPrev e prev) ->
  (forall q, q <> p -> m !! q = producers st !! q) -> (forall x, m !! p = Some x -> carries x = false) ->
  queue (set_producers (store_link st prev (To e)) m) B R.
Proof.
  intros HQ Hp Hm Hx. pose proof HQ as []. destruct (q_prev0 _ _ _ Hp) as [Hn Hf].
  set (st' := set_producers _ _). assert (forall n, n <> prev -> load st' n = load st n) as Hl.
  { intros. destruct prev; by apply (load_store_ne st _ (To e)). }
  assert (load st' prev = To e) as Hle by (etrans; [|exact (load_store_eq st prev (To e))]; by destruct prev).
  assert (forall q x, m !! q = Some x -> carries x = true -> q <> p /\ producers st !! q = Some x) as Hc.
  { intros q x Hq Hcx. destruct (decide (q = p)) as [->|Hqp]; [by rewrite (Hx x Hq) in Hcx|]. by rewrite <- Hm. }
  assert (daemon st' = daemon st /\ appended st' = appended st /\ mpqh_tail st' = mpqh_tail st /\ calls st' = calls st /\ producers st' = m) as (Hd & Ha & Ht & Hca & Hpr) by (by destruct prev).
  constructor; unfold invoked; rewrite ?Hd, ?Ha, ?Ht, ?Hca, ?Hpr; try done.
  - intros q x y Hq Hy. destruct (Hc _ _ Hq ltac:(by eauto)). by eapply q_new0.
  - intros q1 q2 x y z H1 H2 H1' H2'. destruct (Hc _ _ H1 ltac:(by eauto)), (Hc _ _ H2 ltac:(by eauto)). by eapply q_hold0.
  - intros q1 q2 x y z H1 H2. destruct (Hc _ _ H1 ltac:(done)), (Hc _ _ H2 ltac:(done)). by eapply q_one0.
  - intros q x Hq. destruct (Hc _ _ Hq ltac:(done)) as [_ Hq']. rewrite Hl; [by eapply q_clear0|].
    intros <-. apply (q_new0 _ _ x Hq'); [by right|]. apply elem_of_app. right. by eapply follows_elem.
  - intros q x y Hq. destruct (Hc _ _ Hq ltac:(done)) as [Hqp Hq']. destruct (q_prev0 _ _ _ Hq') as [? Hf'].
    rewrite Hl; [done|]. intros ->. rewrite (follows_inj _ _ _ HQ _ _ _ Hf' Hf) in Hq'. by destruct (q_one0 _ _ _ _ _ Hq' Hp).
  - intros x y Hf'. destruct (decide (x = prev)) as [->|Hxp]; [left; by rewrite (follows_inj _ _ _ HQ _ _ _ Hf' Hf)|].
    unfold linked. rewrite Hl, Hpr by done. destruct (q_links0 _ _ Hf') as [|[? [q Hq]]]; [by left|right].
    split; [done|]. exists q. rewrite Hm; [done|]. congruence.
  - intros x He. rewrite Hl; [by apply q_ends0|]. intros ->. by eapply follows_ends.
  - destruct (daemon st) eqn:Hdd; cbn in *; try done.
    + destruct q_shape0 as (? & ? & Hh). split_and!; try done. etrans; [apply (Hl Head)|done].
      intros <-. unfold load in Hn. congruence.
    + destruct q_shape0 as (B' & ? & ? & ? & H). exists B'. split_and!; try done. intros n Hnn. rewrite Hl; [by apply H|].
      intros <-. by rewrite (H n Hnn) in Hn.
Qed.

Lemma producer_queue p st st' B R :
  control st -> queue st B R -> producer_step p st = Next st' -> exists B' R', queue st' B' R'.
Proof.
  intros HC HQ. unfold producer_step, mpsc_queue_append. destruct (producers st !! p) as [[e|e|e prev| |]|] eqn:Hp; [..|done].
  - intros [= <-]. exists B, R. by apply queue_clear.
  - intros [= <-]. exists B, (R ++ [e]). by apply queue_tail.
  - intros [= <-]. exists B, R. replace (producers (store_link st prev (To e))) with (producers st) by (by destruct prev).
    apply (queue_prev _ _ _ p); [done|done|..].
    + intros q Hq. case_decide; others.
    + intros x. case_decide; [rewrite lookup_insert_eq; by intros [= <-]|by rewrite lookup_delete_eq].
  - intros Hs. exists B, R. apply (queue_frame st); [done|..]; repeat case_match; simplify_eq; try done.
    all: try apply (shape_load st), HQ; try done.
    all: intros q x Hx; cbn; rewrite ?lookup_delete_Some, ?lookup_insert_Some; naive_solver.
  - intros [= <-]. exists B, R. apply (queue_frame st); try done.
    + intros q x Hx. cbn. rewrite lookup_delete_Some. naive_solver.
    + apply (shape_load st), HQ; done.
Qed.

(** The batch is taken. *)
Lemma queue_swap st B R some h tail :
  queue st B R -> daemon st = CSwap some h -> mpqh_tail st = Elm tail ->
  queue (set_daemon (set_tail st Head) (CNext h tail)) R [].
Proof.
  intros [] Hd Ht. rewrite Hd in *. destruct q_shape0 as [-> Hh]. cbn in *.
  assert (last R = Some tail) as Hlast.
  { rewrite Ht in q_tail0. unfold tail_of in q_tail0. destruct (last R); by simplify_eq. }
  constructor; cbn; try rewrite app_nil_r; try done.
  - intros p x y Hp. destruct (q_prev0 _ _ _ Hp) as [Hl Hf]. split; [done|]. destruct x; cbn in *; [by destruct Hf|].
    destruct Hf as [(? & ? & ?)|]; [done|by left].
  - intros x y Hf. apply q_links0. destruct x; cbn in *; [by destruct Hf|]. destruct Hf as [|(? & ? & ?)]; [by right|done].
  - intros x Hx. apply q_ends0. destruct x; cbn in *; [by right|]. destruct Hx; [by right|done].
Qed.

(** The head of the queue is cleared. *)
Lemma queue_unhead st B R some h :
  queue st B R -> daemon st = CClear some h -> queue (set_daemon (store_link st Head Null) (CSwap some h)) B R.
Proof.
  intros [] Hd. rewrite Hd in *. destruct q_shape0 as (-> & Hh & Hl). cbn in *.
  constructor; cbn; try done.
  - intros p x y Hp. destruct (q_prev0 _ _ _ Hp) as [Hx Hf]. destruct x; cbn in *; [|done].
    unfold load in Hx. congruence.
  - intros x y Hf. destruct x; cbn in Hf; [by destruct Hf|]. apply (q_links0 (Elm e)). done.
  - intros x Hx. destruct x; cbn in Hx; [done|]. apply (q_ends0 (Elm e)). done.
Qed.

(** The next element of the batch is marked. *)
Lemma queue_mark st B R cur next tail :
  queue st B R -> daemon st = CMark cur next tail ->
  exists B', queue (set_daemon (store_link st (Elm cur) Marker) (CInvoke cur next tail)) B' R.
Proof.
  intros HQ Hd. pose proof HQ as []. rewrite Hd in *. destruct q_shape0 as (B' & -> & Hh & Hl & Hn). cbn in *.
  exists B'. set (st' := set_daemon _ _). apply NoDup_cons in q_nodup0 as Hnd. destruct Hnd as [Hc Hnd].
  rewrite elem_of_app in Hc. assert (forall n, n <> Elm cur -> load st' n = load st n) as Hld.
  { intros. by apply (load_store_ne st (Elm cur) Marker). }
  constructor; cbn [daemon st' set_daemon store_link current app invoked calls appended mpqh_tail producers]; try done.
  - intros p e Hp. rewrite Hld; [by eapply q_clear0|]. intros [= ->]. eapply q_new0; [exact Hp|by right|by left].
  - intros p x y Hp. destruct (q_prev0 _ _ _ Hp) as [Hx Hf]. destruct x as [|x]; [done|].
    cbn in Hf. rewrite adjacent_cons in Hf. destruct Hf as [[[-> Hy]|Hf]|Hf].
    + rewrite (Hn y) in Hx; [done|congruence].
    + rewrite Hld; [split; [done|by left]|]. intros [= ->]. apply adjacent_elem in Hf as [? _]. auto.
    + rewrite Hld; [split; [done|by right]|]. intros [= ->]. apply adjacent_elem in Hf as [? _]. auto.
  - intros x y Hf. unfold linked. rewrite Hld.
    + apply q_links0. destruct x; [done|]. cbn in *. rewrite adjacent_cons. tauto.
    + intros ->. apply Hc, elem_of_app, (follows_elem st B' R _ y), Hf.
  - intros x Hx. rewrite Hld.
    + apply q_ends0. destruct x; [done|]. cbn in *. destruct Hx as [Hx|]; [left|by right]. by rewrite last_cons, Hx.
    + intros ->. apply Hc, elem_of_app, (ends_elem st B' R), Hx.
  - cbn. split; [done|]. intros Hne. rewrite last_cons in Hl. destruct (last B') eqn:E; [done|].
    apply last_None in E. subst. done.
Qed.

Lemma queue_invoke st B R cur next tail :
  queue st B R -> daemon st = CInvoke cur next tail ->
  queue (set_daemon (set_calls st (calls st ++ [Invoke cur])) (match next with Some next => CNext next tail | None => CTail true end)) B R.
Proof.
  intros [] Hd. rewrite Hd in *. destruct q_shape0 as [Hh Hl]. cbn in *.
  set (c := match next with Some next => CNext next tail | None => CTail true end).
  assert (current c = [] /\ swapping c = false) as [Hc Hs] by (by destruct next).
  apply NoDup_cons in q_nodup0 as [Hcur Hnd].
  constructor; cbn; rewrite ?Hc; try done.
  - rewrite q_order0. unfold invoked. cbn. rewrite omap_app. cbn. by rewrite <- (assoc_L (++)).
  - intros p x e Hp He Hin. apply (q_new0 p x e Hp He). by right.
  - intros p x y Hp. destruct (q_prev0 _ _ _ Hp) as [? Hf]. split; [done|]. destruct x; cbn in *; by rewrite ?Hs.
  - intros x y Hf. apply (q_links0 x y). destruct x; cbn in *; by rewrite ?Hs in Hf.
  - intros x Hx. apply (q_ends0 x). destruct x; cbn in *; by rewrite ?Hs in Hx.
  - subst c. destruct next as [n|]; cbn; [auto|]. by destruct B.
Qed.

(** The daemon moves on without touching the links. *)
Lemma queue_daemon st st' B R :
  queue st B R -> (forall n, load st' n = load st n) -> mpqh_tail st' = mpqh_tail st ->
  appended st' = appended st -> invoked st' = invoked st -> producers st' = producers st ->
  current (daemon st') = current (daemon st) -> swapping (daemon st') = swapping (daemon st) ->
  shape st' (daemon st') B R -> queue st' B R.
Proof. intros HQ ? ? ? ? Hp ? ? ?. apply (queue_frame st); try done. intros. by rewrite Hp. Qed.

(** What the daemon finds when it looks at the head, and at an element of its batch. *)
Lemma queue_first st B R (HQ : queue st B R) h :
  swapping (daemon st) = false -> R <> [] -> mpqh_head st = To h -> head R = Some h.
Proof.
  intros Hs HR Hh. destruct R as [|y R]; [done|]. cbn. f_equal.
  destruct (q_links _ _ _ HQ Head y) as [Hl|[Hl _]]; [done|..]; unfold load in Hl; congruence.
Qed.

Lemma queue_only st B R (HQ : queue st B R) x : head B = Some x /\ last B = Some x -> B = [x].
Proof.
  destruct (queue_nodup _ _ _ HQ) as (HB & _). intros [Hh Hl]. destruct B as [|y B]; [done|]. injection Hh as ->.
  rewrite last_cons in Hl. destruct (last B) eqn:E; [|by apply last_None in E as ->].
  injection Hl as ->. apply last_Some_elem_of in E. apply NoDup_cons in HB as []. done.
Qed.

Lemma queue_second st B R x t :
  head B = Some x -> last B = Some t -> x <> t -> exists y B', B = x :: y :: B' /\ follows (daemon st) B R (Elm x) y.
Proof.
  intros Hh Hl Hx. destruct B as [|z [|y B]]; cbn in *; simplify_eq. exists y, B. split; [done|]. left. by exists 0%nat.
Qed.

Lemma consumer_queue st st' B R :
  queue st B R -> consumer_step st = Next st' -> exists B' R', queue st' B' R'.
Proof.
  intros HQ. pose proof (q_shape _ _ _ HQ) as Hsh. unfold consumer_step, mpsc_queue_dequeue_batch, mpsc_queue_batch_next.
  destruct (daemon st) as [| |some|some|some h|some h|cur tail|cur next tail|cur next tail| | | | |] eqn:Hd; cbn in Hsh.
  - intros Hs. exists B, R. apply (queue_daemon st); [done|..]; repeat case_match; simplify_eq; by rewrite ?Hd.
  - injection 1 as <-. exists B, R. apply (queue_daemon st); by rewrite ?Hd.
  - destruct (decide (mpqh_tail st = Head)) as [Ht|Ht]; injection 1 as <-; exists B, R; apply (queue_daemon st);
      rewrite ?Hd; try done; cbn; try (by destruct (_ && _)).
    split; [done|]. intros ->. by rewrite (q_tail _ _ _ HQ) in Ht.
  - destruct (mpqh_head st) as [|h|] eqn:Hh; [done| |done]. injection 1 as <-. exists B, R. apply (queue_daemon st);
      rewrite ?Hd; try done; cbn.
    destruct Hsh as [-> HR]. split_and!; try done. by apply (queue_first st [] R HQ); rewrite ?Hd.
  - injection 1 as <-. exists B, R. by apply queue_unhead.
  - destruct (mpqh_tail st) eqn:Ht; [done|]. injection 1 as <-. exists R, []. by eapply queue_swap.
  - destruct (decide (cur = tail)) as [->|Hct]; [|destruct (load st (Elm cur)) as [|n|] eqn:Hl; [done| |done]];
      injection 1 as <-; exists B, R; apply (queue_daemon st); rewrite ?Hd; try done; cbn.
    + apply (queue_only st B R HQ tail) in Hsh as ->. by exists [].
    + destruct Hsh as [Hh Ht]. destruct (queue_second st B R cur tail Hh Ht Hct) as (y & B' & -> & Hf).
      exists (y :: B'). destruct (q_links _ _ _ HQ _ _ Hf) as [Hy|[Hy _]]; [|congruence].
      assert (y = n) as -> by congruence. split_and!; try done. by intros ? [= <-].
  - injection 1 as <-. destruct (queue_mark st B R cur next tail HQ Hd) as [B' HQ']. by exists B', R.
  - injection 1 as <-. exists B, R. by apply queue_invoke.
  - injection 1 as <-. exists B, R. apply (queue_daemon st); rewrite ?Hd; try done.
    unfold invoked. cbn. by rewrite omap_app, app_nil_r.
  - injection 1 as <-. exists B, R. apply (queue_daemon st); by rewrite ?Hd.
  - intros Hs. exists B, R. apply (queue_daemon st); [done|..]; repeat case_match; simplify_eq; by rewrite ?Hd.
  - destruct (mpd_waits st); [done|]. injection 1 as <-. exists B, R. apply (queue_daemon st); by rewrite ?Hd.
  - done.
Qed.

Lemma pending_eq st B R : queue st B R -> pending st = current (daemon st) ++ B ++ R.
Proof. intros HQ. unfold pending. by rewrite (q_order _ _ _ HQ), drop_app_length. Qed.

Lemma enqueue_queue st B R p e :
  queue st B R -> producers st !! p = None -> e ∉ pending st ->
  (forall q x, producers st !! q = Some x -> ~ holds x e) ->
  queue (set_producers st (<[p := PClear e]> (producers st))) B R.
Proof.
  intros HQ Hp He Hh. rewrite (pending_eq _ _ _ HQ) in He. destruct HQ. constructor; cbn; try done.
  - intros q x y Hq Hx. at_producer Hq; [|by eapply q_new0]. by destruct Hx as [[= <-]|].
  - intros q1 q2 x y z H1 H2 Hx Hy. at_producer H1; at_producer H2; try done.
    + destruct Hx as [[= <-]|]; [|done]. by destruct (Hh _ _ H2).
    + destruct Hy as [[= <-]|]; [|done]. by destruct (Hh _ _ H1).
    + by eapply q_hold0.
  - intros q1 q2 x y z H1 H2. at_producer H1; [done|]. at_producer H2; [done|]. by eapply q_one0.
  - intros q x Hq. at_producer Hq; [done|]. by eapply q_clear0.
  - intros q x y Hq. at_producer Hq; [done|]. by eapply q_prev0.
  - intros x y Hf. destruct (q_links0 _ _ Hf) as [|[? [q Hq]]]; [by left|right].
    split; [done|]. exists q. cbn. rewrite lookup_insert_ne; [done|]. congruence.
Qed.

Definition mpsc_inv (st : mstate) : Prop := control st /\ exists B R, queue st B R.

Lemma init_inv batch inactive : mpsc_inv (mpsc_daemon_queue_init batch inactive).
Proof.
  split; [apply control_init|]. exists [], []. constructor; cbn; try done.
  - by apply NoDup_nil_2.
  - intros x y. destruct x; cbn; [by intros []|]. by intros [(?&?&?)|(?&?&?)].
  - intros x. destruct x; cbn; [done|]. by intros [|].
Qed.

Lemma step_inv st st' : mpsc_inv st -> mstep st st' -> mpsc_inv st'.
Proof.
  intros [HC (B & R & HQ)] Hs. split; [by eapply step_control|].
  destruct Hs as [p e ? ? ? ? ->|p Hs|Hs|Hs|? Hs].
  - exists B, R. by apply enqueue_queue.
  - by eapply producer_queue.
  - by eapply consumer_queue.
  - exists B, R. unfold activate_step in Hs. apply (queue_daemon st); [done|..]; repeat case_match; simplify_eq; try done;
      apply (shape_load st), HQ; done.
  - exists B, R. unfold cancel_step in Hs. apply (queue_daemon st); [done|..]; repeat case_match; simplify_eq; try done;
      apply (shape_load st), HQ; done.
Qed.

Lemma reachable_inv st : reachable st -> mpsc_inv st.
Proof.
  intros (b & i & Hr). pose proof (init_inv b i) as Hi. revert Hi. generalize (mpsc_daemon_queue_init b i), Hr.
  clear. intros st0 Hr. induction Hr; eauto using step_inv.
Qed.

(** ** No step faults *)

Lemma producer_no_fault p st : mpsc_inv st -> producer_step p st <> Fault.
Proof.
  intros [HC _]. unfold producer_step, mpsc_queue_append. destruct (producers st !! p) as [[]|] eqn:Hp; try done.
  destruct (CANCELED (mpd_state st)) eqn:Hc; [|by destruct (_ || _)].
  rewrite (c_canceled _ HC) in Hc. destruct (c_calls _ HC) as [Hn _]; [intros E; by rewrite E in Hc|]. by rewrite Hn in Hp.
Qed.

Lemma consumer_no_fault st : mpsc_inv st -> consumer_step st <> Fault.
Proof.
  intros [HC (B & R & HQ)]. pose proof (c_draining _ HC) as Hdr. pose proof (q_shape _ _ _ HQ) as Hsh. unfold consumer_step, mpsc_queue_dequeue_batch, mpsc_queue_batch_next.
  destruct (daemon st) as [| |some|some|some h|some h|cur tail|cur next tail|cur next tail| | | | |] eqn:Hd; cbn in Hsh, Hdr; try done.
  - cbn. rewrite Hdr. cbn. destruct (WAKEUP _) eqn:Hw; [done|]. cbn. destruct (CANCELED _) eqn:Hc; [done|].
    destruct (c_wakes _ HC Hc) as (t & _ & _ & H3 & H4). rewrite (proj1 H3 ltac:(by left)) in H4.
    destruct (proj1 H4 ltac:(done)) as (_ & ? & _). congruence.
  - by destruct (decide _).
  - destruct Hsh as [-> HR]. destruct (mpqh_head st) eqn:Hh; try done. destruct R as [|y R]; [done|].
    destruct (q_links _ _ _ HQ Head y) as [H|[H _]]; [by rewrite Hd|..]; unfold load in H; congruence.
  - destruct Hsh as [-> HR]. destruct (mpqh_tail st) eqn:Ht; [|done]. rewrite (q_tail _ _ _ HQ) in Ht.
    unfold tail_of in Ht. destruct (last R) eqn:Hl; [done|]. by apply last_None in Hl as ->.
  - destruct (decide (cur = tail)); [done|]. destruct (load st (Elm cur)) eqn:Hl; try done. destruct Hsh as [Hh Ht].
    destruct (queue_second st B R cur tail) as (y & B' & -> & Hf); [done..|].
    destruct (q_links _ _ _ HQ _ _ Hf) as [H|[H _]]; congruence.
  - cbn. by repeat case_match.
  - by destruct (mpd_waits st).
Qed.

Lemma cancel_no_fault st : mpsc_inv st -> cancel_step st <> Fault.
Proof.
  intros [HC _]. unfold cancel_step. destruct (cancelation st) eqn:Hk; try done; [|by destruct (mpk_waits st)].
  rewrite (c_canceled _ HC), (c_inactive _ HC), Hk. destruct (c_calls _ HC) as [_ ->]; [congruence|]. done.
Qed.

(** ** Order and memory *)

(** C10. In every reachable state, whatever the interleaving of producers, daemon,
    activation and cancelation: no thread faults (no assertion of the drain loop fails, no
    marker is met while a batch is walked, nothing is enqueued on a cancelled queue); the
    elements handed to the client are, in order, a prefix of the elements in the order in
    which their producers exchanged the tail; and no thread is about to touch an element
    that is not in the queue: the element whose link a producer will store, and the one
    whose link the daemon reads or marks, have not been handed to the client. *)
Theorem mpsc_safe st :
  reachable st ->
  ((forall p, producer_step p st <> Fault) /\ consumer_step st <> Fault /\ cancel_step st <> Fault) /\
  appended st = invoked st ++ pending st /\
  (forall p e x, producers st !! p = Some (PPrev e (Elm x)) -> x ∈ pending st /\ e ∈ pending st) /\
  (forall cur tail, daemon st = CNext cur tail -> cur ∈ pending st) /\
  (forall cur next tail, daemon st = CMark cur next tail -> head (pending st) = Some cur).
Proof.
  intros Hr%reachable_inv. split; [auto using producer_no_fault, consumer_no_fault, cancel_no_fault|].
  destruct Hr as [HC (B & R & HQ)]. rewrite (pending_eq _ _ _ HQ). pose proof (q_shape _ _ _ HQ) as Hsh.
  split_and!.
  - apply HQ.
  - intros p e x [_ Hf]%(q_prev _ _ _ HQ). split; apply elem_of_app; right; [by eapply follows_elem|by eapply follows_elem_r].
  - intros cur tail Hd. rewrite Hd in *. destruct Hsh as [Hh _]. cbn. apply elem_of_app. left. by apply head_Some_elem_of.
  - intros cur next tail Hd. rewrite Hd in *. by destruct Hsh as (B' & -> & _).
Qed.

(** ** Runs *)

(** One action of the model, executed. *)
Inductive action := Enqueue (p e : nat) | Producer (p : nat) | Consumer | Activate | CancelAndWait.

Definition holdsb (e : nat) (x : producer) : bool :=
  match x with PClear e' | PTail e' => bool_decide (e = e') | _ => false end.

Definition to_option (r : result) : option mstate := match r with Next st => Some st | _ => None end.

Definition act (st : mstate) (a : action) : option mstate :=
  match a with
  | Enqueue p e =>
      if bool_decide (cancelation st = KIdle) && bool_decide (producers st !! p = None) &&
         bool_decide (e ∉ pending st) && forallb (fun qx => negb (holdsb e qx.2)) (map_to_list (producers st))
      then Some (set_producers st (<[p := PClear e]> (producers st))) else None
  | Producer p => to_option (producer_step p st)
  | Consumer => to_option (consumer_step st)
  | Activate => to_option (activate_step st)
  | CancelAndWait =>
      if bool_decide (cancelation st = KIdle) && negb (bool_decide (producers st = ∅) && bool_decide (activation st = ADone))
      then None else to_option (cancel_step st)
  end.

Fixpoint acts (st : mstate) (l : list action) : option mstate :=
  match l with [] => Some st | a :: l => match act st a with Some st => acts st l | None => None end end.

Lemma act_mstep st a st' : act st a = Some st' -> mstep st st'.
Proof.
  destruct a as [p e|p| | |]; cbn.
  - destruct (_ && _ && _ && _) eqn:Hb; [|done]. intros [= <-].
    apply andb_true_iff in Hb as [[[H1 H2]%andb_true_iff H3]%andb_true_iff H4].
    apply bool_decide_eq_true in H1, H2, H3. apply (ms_enqueue _ _ p e); try done.
    intros q x Hq Hh. rewrite forallb_forall in H4. specialize (H4 (q, x)). cbn in H4.
    rewrite <- list_elem_of_In, elem_of_map_to_list in H4. specialize (H4 Hq).
    destruct Hh as [->| ->]; cbn in H4; by rewrite bool_decide_true in H4.
  - intros H. apply (ms_producer _ _ p). by destruct (producer_step p st); simplify_eq/=.
  - intros H. apply ms_consumer. by destruct (consumer_step st); simplify_eq/=.
  - intros H. apply ms_activate. by destruct (activate_step st); simplify_eq/=.
  - destruct (_ && _) eqn:Hb; [done|]. intros H. apply ms_cancel.
    + intros E. rewrite bool_decide_true in Hb by done. cbn in Hb. apply negb_false_iff, andb_true_iff in Hb as [Hb1 Hb2].
      by apply bool_decide_eq_true in Hb1, Hb2.
    + by destruct (cancel_step st); simplify_eq/=.
Qed.

Lemma acts_reachable l st st' : reachable st -> acts st l = Some st' -> reachable st'.
Proof.
  revert st. induction l as [|a l IH]; cbn; intros st Hr; [by intros [= <-]|].
  destruct (act st a) as [st1|] eqn:Ha; [|done]. apply IH. destruct Hr as (b & i & Hr). exists b, i.
  eapply rtc_r; [exact Hr|by eapply act_mstep].
Qed.

Lemma init_reachable batch inactive : reachable (mpsc_daemon_queue_init batch inactive).
Proof. by exists batch, inactive. Qed.

(** Two producers whose links are stored in the wrong order, with the daemon in the
    middle of the batch. *)
Definition overtaking : list action :=
  [Enqueue 0 10; Enqueue 1 11; Enqueue 2 12; Producer 0; Producer 0; Producer 1; Producer 1; Producer 2; Producer 2;
   Producer 2; Producer 0; Producer 0; Producer 0; Consumer; Consumer; Consumer; Consumer; Consumer; Consumer].

Lemma mpsc_safe_witness :
  exists st, acts (mpsc_daemon_queue_init true false) overtaking = Some st /\
    producers st !! 1%nat = Some (PPrev 11 (Elm 10)) /\ daemon st = CNext 10 12 /\ consumer_step st = Blocked /\
    appended st = [10; 11; 12]%nat /\ 10%nat ∈ pending st /\ 11%nat ∈ pending st.
Proof.
  destruct (acts (mpsc_daemon_queue_init true false) overtaking) as [st|] eqn:Ha; [|by vm_compute in Ha].
  assert (reachable st) as Hr by (eapply acts_reachable; [apply init_reachable|exact Ha]).
  exists st. destruct (mpsc_safe st Hr) as (_ & _ & Hp & _). vm_compute in Ha. injection Ha as <-.
  split_and!; try done; apply (Hp 1%nat 11%nat 10%nat); done.
Defined.
