(* ===== verification/MpscLive.v ===== *)
(** * The multi-producer single-consumer queue drains

    Over the steps of Mpsc.v and the invariant of MpscInv.v: the calls that have been
    started finish after a bounded number of steps, whatever the schedule, and when nobody
    can move everything that was enqueued has been handed to the client and a cancelation
    has returned. *)
From S2P Require Import Prelude Mpsc MpscInv.
From stdpp Require Import gmap.

(** Steps of calls that have been started, and of the daemon. *)
Inductive work (st st' : mstate) : Prop :=
  | w_producer p : producer_step p st = Next st' -> work st st'
  | w_consumer : consumer_step st = Next st' -> work st st'
  | w_activate : activate_step st = Next st' -> work st st'
  | w_cancel : cancelation st <> KIdle -> cancel_step st = Next st' -> work st st'.

Lemma work_mstep st st' : work st st' -> mstep st st'.
Proof.
  intros [p H|H|H|Hk H]; [by apply (ms_producer _ _ p)|by apply ms_consumer|by apply ms_activate|by apply ms_cancel].
Qed.

(** ** A measure *)

Definition producer_cost (x : producer) : nat :=
  match x with PClear _ => 56 | PTail _ => 55 | PPrev _ _ => 44 | PState => 43 | PWakeup => 22 end.

Definition producers_cost (m : gmap nat producer) : nat := map_fold (fun _ x n => producer_cost x + n)%nat 0%nat m.

Definition activator_cost (a : activator) : nat := match a with AStart => 23 | AWakeup => 22 | ADone => 0 end.

Definition canceler_cost (k : canceler) : nat :=
  match k with KIdle => 25 | KState => 24 | KWakeup => 23 | KBlock => 1 | KDone => 0 end.

(** A WAKEUP that is set costs another round of the daemon. *)
Definition daemon_cost (st : mstate) : nat :=
  let wakeup := if WAKEUP (mpd_state st) then 20%nat else 0%nat in
  match daemon st with
  | CAgain => 20
  | CFix => 9
  | CTail _ => 8 + wakeup
  | CHead _ => 7 + wakeup
  | CClear _ _ => 6 + wakeup
  | CSwap _ _ => 5 + wakeup
  | CNext _ _ => 4 + wakeup
  | CMark _ _ _ => 3 + wakeup
  | CInvoke _ _ _ => 2 + wakeup
  | CBatchEnd => 3 + wakeup
  | CAssertWait => 2 + wakeup
  | CDrained => 1 + wakeup
  | CBlock => if mpd_waits st then wakeup else 21
  | CExit => wakeup
  end%nat.

Definition cost (st : mstate) : nat :=
  (producers_cost (producers st) + activator_cost (activation st) + canceler_cost (cancelation st) +
   10 * length (pending st) + daemon_cost st)%nat.

Lemma producers_cost_delete m p x :
  m !! p = Some x -> producers_cost m = (producer_cost x + producers_cost (delete p m))%nat.
Proof.
  intros Hp. unfold producers_cost. rewrite <- (insert_delete_id m p x Hp) at 1.
  rewrite map_fold_insert_L; [done|intros; lia|by rewrite lookup_delete_eq].
Qed.

Lemma producers_cost_insert m p x :
  producers_cost (<[p := x]> m) = (producer_cost x + producers_cost (delete p m))%nat.
Proof. rewrite (producers_cost_delete _ p x) by (by rewrite lookup_insert_eq). by rewrite delete_insert_eq. Qed.

(** The daemon's cost bounds. *)
Lemma wakeup_cost st s : (daemon_cost (set_state st s) <= daemon_cost st + 20)%nat.
Proof. unfold daemon_cost. cbn. destruct (daemon st), (WAKEUP s), (WAKEUP (mpd_state st)), (mpd_waits st); lia. Qed.

Lemma unwait_cost st : (daemon_cost (set_waits st false) <= daemon_cost st + 21)%nat.
Proof. unfold daemon_cost. cbn. destruct (daemon st), (WAKEUP (mpd_state st)), (mpd_waits st); lia. Qed.

Lemma pending_snoc st st' B R e :
  queue st B R -> appended st' = appended st ++ [e] -> calls st' = calls st ->
  length (pending st') = S (length (pending st)).
Proof.
  intros HQ Ha Hc. unfold pending, invoked. rewrite Ha, Hc, !length_drop, length_app. cbn.
  pose proof (f_equal length (q_order _ _ _ HQ)) as Hl. rewrite length_app in Hl. unfold invoked in Hl. lia.
Qed.

Lemma producer_cost_lt p st st' : mpsc_inv st -> producer_step p st = Next st' -> (cost st' < cost st)%nat.
Proof.
  intros [HC (B & R & HQ)]. unfold producer_step, mpsc_queue_append. destruct (producers st !! p) as [x|] eqn:Hp; [|done].
  pose proof (producers_cost_delete _ _ _ Hp) as Hd. unfold cost.
  destruct x as [e|e|e prev| |]; cbn [producer_cost] in Hd.
  - intros [= <-]. cbn. rewrite Hd, producers_cost_insert. cbn. unfold daemon_cost, pending, invoked. cbn. lia.
  - injection 1 as <-. rewrite (pending_snoc st _ B R e) by done. cbn [producers set_appended set_producers set_tail activation cancelation].
    rewrite Hd, producers_cost_insert. cbn. unfold daemon_cost. cbn. lia.
  - destruct prev; cbn; injection 1 as <-; cbn; rewrite Hd, ?producers_cost_insert; cbn; unfold daemon_cost, pending, invoked; cbn; lia.
  - pose proof (wakeup_cost st (or_WAKEUP (mpd_state st))) as Hw. unfold daemon_cost in *. cbn in Hw.
    destruct (CANCELED _); [done|]. destruct (_ || _); injection 1 as <-; cbn; rewrite Hd, ?producers_cost_insert; cbn;
      unfold pending, invoked; cbn; lia.
  - pose proof (unwait_cost st) as Hw. unfold daemon_cost in *. cbn in Hw. injection 1 as <-. cbn. rewrite Hd.
    unfold pending, invoked. cbn. lia.
Qed.

Lemma pending_invoke st st' B R cur :
  queue st B R -> current (daemon st) = [cur] -> appended st' = appended st -> calls st' = calls st ++ [Invoke cur] ->
  length (pending st) = S (length (pending st')).
Proof.
  intros HQ Hd Ha Hc. pose proof (f_equal length (q_order _ _ _ HQ)) as Hl. rewrite Hd in Hl.
  unfold pending, invoked in *. rewrite Ha, Hc, omap_app, !length_drop, length_app. rewrite !length_app in Hl. cbn in *. lia.
Qed.

(** A step of the daemon that calls nobody. *)
Lemma daemon_cost_lt st st' :
  producers st' = producers st -> activation st' = activation st -> cancelation st' = cancelation st ->
  pending st' = pending st -> (daemon_cost st' < daemon_cost st)%nat -> (cost st' < cost st)%nat.
Proof. intros Hp Ha Hc Hn Hd. unfold cost. rewrite Hp, Ha, Hc, Hn. lia. Qed.

Lemma consumer_cost_lt st st' : mpsc_inv st -> consumer_step st = Next st' -> (cost st' < cost st)%nat.
Proof.
  intros [HC (B & R & HQ)]. pose proof (c_drained _ HC) as Hdr. unfold consumer_step, mpsc_queue_dequeue_batch, mpsc_queue_batch_next.
  destruct (daemon st) as [| |some|some|some h|some h|cur tail|cur next tail|cur next tail| | | | |] eqn:Hd.
  9: { intros [= Hs]. pose proof (pending_invoke st st' B R cur HQ) as Hp. rewrite Hd in Hp. subst st'.
       specialize (Hp eq_refl eq_refl eq_refl). unfold cost. rewrite Hp. unfold daemon_cost. rewrite Hd. cbn. destruct next, (WAKEUP _); cbn; lia. }
  all: intros Hs; apply daemon_cost_lt; repeat case_match; simplify_eq; try done; unfold daemon_cost, batches_done; cbn; rewrite ?Hd; try lia.
  3: { by rewrite omap_app, app_nil_r. }
  all: cbn in *; try (rewrite Hdr by done).
  all: try destruct (_ && _); destruct (WAKEUP (mpd_state st)); simplify_eq; cbn; try lia.
  all: destruct (mpd_waits st); simplify_eq; lia.
Qed.

Lemma activate_cost_lt st st' : activate_step st = Next st' -> (cost st' < cost st)%nat.
Proof.
  unfold activate_step, cost. pose proof (unwait_cost st) as Hw. unfold daemon_cost in *. cbn in Hw.
  destruct (activation st); [..|done]; intros [= <-]; cbn; unfold pending, invoked; cbn; [destruct (_ && _); cbn|]; lia.
Qed.

Lemma cancel_cost_lt st st' : cancel_step st = Next st' -> (cost st' < cost st)%nat.
Proof.
  unfold cancel_step, cost. pose proof (unwait_cost st) as Hw. unfold daemon_cost in *. cbn in Hw.
  destruct (cancelation st); [..|done]; [|destruct (_ || _); [done|]| |destruct (mpk_waits st); [done|]];
    intros [= <-]; cbn; unfold pending, invoked; cbn; lia.
Qed.

Lemma work_cost_lt st st' : mpsc_inv st -> work st st' -> (cost st' < cost st)%nat.
Proof. intros Hi []; eauto using producer_cost_lt, consumer_cost_lt, activate_cost_lt, cancel_cost_lt. Qed.

Lemma work_bounded n st st' : mpsc_inv st -> nsteps work n st st' -> mpsc_inv st' /\ (n + cost st' <= cost st)%nat.
Proof.
  intros Hi Hn. induction Hn as [st|n st1 st2 st3 Hw Hn IH]; [split; [done|lia]|].
  pose proof (work_cost_lt _ _ Hi Hw). destruct IH as [Hi3 Hle]; [by eapply step_inv, work_mstep|]. split; [done|lia].
Qed.

(** ** At rest *)

Lemma rest_producers st : mpsc_inv st -> ~ (exists st', work st st') -> producers st = ∅.
Proof.
  intros Hi Hr. apply map_empty. intros p. destruct (producers st !! p) as [x|] eqn:Hp; [exfalso|done].
  pose proof (producer_no_fault p st Hi) as Hf. destruct (producer_step p st) as [st'| |] eqn:Hs; [|..|done].
  - destruct Hr. exists st'. by apply (w_producer _ _ p).
  - unfold producer_step, mpsc_queue_append in Hs. rewrite Hp in Hs. repeat case_match; simplify_eq.
Qed.

(** The daemon spins only on a producer, so that at rest it sleeps or has terminated. *)
Lemma rest_daemon st :
  mpsc_inv st -> ~ (exists st', work st st') -> daemon st = CExit \/ daemon st = CBlock /\ mpd_waits st = true.
Proof.
  intros Hi Hr. pose proof (rest_producers st Hi Hr) as Hp. pose proof (consumer_no_fault st Hi) as Hf.
  destruct (consumer_step st) as [st'| |] eqn:Hs; [destruct Hr; exists st'; by apply w_consumer| |done].
  destruct Hi as [HC (B & R & HQ)]. pose proof (q_shape _ _ _ HQ) as Hsh. unfold consumer_step, mpsc_queue_dequeue_batch, mpsc_queue_batch_next in Hs.
  assert (forall x y, follows (daemon st) B R x y -> load st x <> Null) as Hn.
  { intros x y [H|[_ [p H]]]%(q_links _ _ _ HQ); [congruence|]. by rewrite Hp in H. }
  destruct (daemon st) as [| |some|some|some h|some h|cur tail|cur next tail|cur next tail| | | | |] eqn:Hd; cbn in Hsh; auto.
  all: try (repeat case_match; simplify_eq; by auto).
  - destruct Hsh as [-> HR]. destruct R as [|y R]; [done|]. destruct (mpqh_head st) eqn:Hh; try done.
    by destruct (Hn Head y).
  - destruct (decide (cur = tail)); [done|]. destruct (load st (Elm cur)) eqn:Hl; try done.
    destruct Hsh as [Hh Ht]. destruct (queue_second st B R cur tail) as (y & B' & -> & Hy); [done..|].
    rewrite Hd in Hy. by destruct (Hn (Elm cur) y).
Qed.

(** WAKEUP is not left set while the daemon sleeps or is gone. *)
Lemma rest_wakeup st :
  mpsc_inv st -> ~ (exists st', work st st') -> WAKEUP (mpd_state st) = false.
Proof.
  intros Hi Hr. pose proof (rest_producers st Hi Hr) as Hp. pose proof (rest_daemon st Hi Hr) as Hd. destruct Hi as [HC _].
  destruct (WAKEUP (mpd_state st)) eqn:Hw; [exfalso|done]. destruct Hd as [Hd|[Hd Hwt]].
  { destruct (c_exit _ HC Hd) as (_ & ? & _). congruence. }
  destruct (CANCELED (mpd_state st)) eqn:Hc.
  - pose proof (c_block _ HC Hc Hd Hwt) as Hk. destruct Hr. eexists. apply w_cancel; [congruence|]. unfold cancel_step. by rewrite Hk.
  - destruct (c_wakes _ HC Hc) as (t & H1 & H2 & H3 & H4).
    assert (activation st = ADone) as Ha.
    { destruct (activation st) eqn:Ha; [..|done]; destruct Hr; eexists; apply w_activate; unfold activate_step; by rewrite Ha. }
    assert (t <> None) as Ht.
    { apply H4. rewrite (c_draining _ HC), (c_inactive _ HC), Hd, Ha. done. }
    destruct t as [[p| |]|]; [| | |done].
    + destruct (H1 p) as [_ H]. rewrite Hp in H. by specialize (H eq_refl).
    + destruct H2 as [_ H]. specialize (H eq_refl). congruence.
    + destruct H3 as [_ H]. destruct (H eq_refl) as [?|[? ?]]; congruence.
Qed.

Lemma rest_drained st : mpsc_inv st -> ~ (exists st', work st st') -> invoked st = appended st.
Proof.
  intros Hi Hr. pose proof (rest_producers st Hi Hr) as Hp. pose proof (rest_wakeup st Hi Hr) as Hw.
  pose proof (rest_daemon st Hi Hr) as Hd. destruct Hi as [HC (B & R & HQ)]. pose proof (q_shape _ _ _ HQ) as Hsh.
  assert (mpqh_tail st = Head) as Ht.
  { destruct (decide (mpqh_tail st = Head)) as [|Hn]; [done|]. destruct (c_work _ HC Hn) as [|[Hl|(p & x & H & _)]].
    - congruence.
    - destruct Hd as [Hd|[Hd _]]; by rewrite Hd in Hl.
    - by rewrite Hp in H. }
  rewrite (q_tail _ _ _ HQ) in Ht. assert (R = []) as ->.
  { unfold tail_of in Ht. destruct (last R) eqn:E; [done|]. by apply last_None. }
  rewrite (q_order _ _ _ HQ). destruct Hd as [Hd|[Hd _]]; rewrite Hd in *; cbn in Hsh; subst B; by rewrite !app_nil_r.
Qed.

Lemma rest_canceled st :
  mpsc_inv st -> ~ (exists st', work st st') -> cancelation st <> KIdle -> cancelation st = KDone /\ daemon st = CExit.
Proof.
  intros Hi Hr Hk. pose proof (rest_daemon st Hi Hr) as Hd. pose proof (cancel_no_fault st Hi) as Hf. destruct Hi as [HC _].
  assert (forall st', cancel_step st <> Next st') as Hn by (intros st' H; destruct Hr; exists st'; by apply w_cancel).
  pose proof (c_canceled _ HC) as Hc. unfold cancel_step in Hn, Hf.
  destruct (cancelation st) eqn:Hkk; [done|..].
  - destruct (_ || _); [done|]. by edestruct Hn.
  - by edestruct Hn.
  - destruct (mpk_waits st) eqn:Hw; [|by edestruct Hn]. destruct Hd as [Hd|[Hd Hwt]].
    + destruct (c_exit _ HC Hd) as (_ & _ & ?). congruence.
    + pose proof (c_block _ HC Hc Hd Hwt). congruence.
  - destruct Hd as [Hd|[Hd Hwt]]; [done|]. pose proof (c_block _ HC Hc Hd Hwt). congruence.
Qed.

(** C3. No wake-up is lost.  From any reachable state, the calls in progress and the
    daemon make at most [cost st] steps, in any interleaving, unless another call is
    started; and when none of them can make a step, every element that was enqueued has
    been handed to the client, the daemon is asleep or has terminated, and a cancelation
    that was started has returned, with the daemon terminated. *)
Theorem mpsc_drains st n st' :
  reachable st -> nsteps work n st st' ->
  (n <= cost st)%nat /\
  (~ (exists st'', work st' st'') ->
   invoked st' = appended st' /\ producers st' = ∅ /\
   (daemon st' = CExit \/ daemon st' = CBlock /\ mpd_waits st' = true) /\
   (cancelation st' <> KIdle -> cancelation st' = KDone /\ daemon st' = CExit)).
Proof.
  intros Hi%reachable_inv Hn. destruct (work_bounded _ _ _ Hi Hn) as [Hi' Hle]. split; [lia|]. intros Hr.
  auto using rest_drained, rest_producers, rest_daemon, rest_canceled.
Qed.

(** Runs of [work], executed. *)
Definition working (st : mstate) (a : action) : bool :=
  match a with Enqueue _ _ => false | CancelAndWait => negb (bool_decide (cancelation st = KIdle)) | _ => true end.

Fixpoint works (st : mstate) (l : list action) : option mstate :=
  match l with
  | [] => Some st
  | a :: l => if working st a then match act st a with Some st => works st l | None => None end else None
  end.

Lemma to_option_next r st : to_option r = Some st -> r = Next st.
Proof. by destruct r; cbn; intros; simplify_eq. Qed.

Lemma works_nsteps l st st' : works st l = Some st' -> nsteps work (length l) st st'.
Proof.
  revert st. induction l as [|a l IH]; cbn; intros st; [intros [= <-]; constructor|].
  destruct (working st a) eqn:Hw; [|done]. destruct (act st a) as [st1|] eqn:Ha; [|done]. intros Hl.
  econstructor; [|by apply IH]. destruct a as [p e|p| | |]; cbn in *; [done|..].
  - apply (w_producer _ _ p). by apply to_option_next.
  - apply w_consumer. by apply to_option_next.
  - apply w_activate. by apply to_option_next.
  - apply w_cancel.
    + apply negb_true_iff, bool_decide_eq_false in Hw. done.
    + apply negb_true_iff in Hw. rewrite Hw in Ha. cbn in Ha. by apply to_option_next.
Qed.

Lemma at_rest st :
  producers st = ∅ -> consumer_step st = Blocked -> activate_step st = Blocked -> cancelation st = KIdle \/ cancel_step st = Blocked ->
  ~ (exists st', work st st').
Proof.
  intros Hp Hc Ha Hk (st' & [p H|H|H|Hi H]).
  - unfold producer_step in H. by rewrite Hp in H.
  - congruence.
  - congruence.
  - destruct Hk; congruence.
Qed.

(** The run goes on from the point where the daemon spins. *)
Lemma mpsc_drains_witness :
  exists st st',
    acts (mpsc_daemon_queue_init true false) overtaking = Some st /\
    works st (Producer 1 :: repeat Consumer 13) = Some st' /\ consumer_step st = Blocked /\
    invoked st = [] /\ invoked st' = [10; 11; 12]%nat /\ invoked st' = appended st' /\
    calls st' = [Invoke 10; Invoke 11; Invoke 12; BatchEnd].
Proof.
  destruct (acts (mpsc_daemon_queue_init true false) overtaking) as [st|] eqn:Ha; [|by vm_compute in Ha].
  assert (reachable st) as Hr by (eapply acts_reachable; [apply init_reachable|exact Ha]).
  destruct (works st (Producer 1 :: repeat Consumer 13)) as [st'|] eqn:Hw;
    [|vm_compute in Ha; injection Ha as <-; by vm_compute in Hw].
  destruct (mpsc_drains st _ st' Hr (works_nsteps _ _ _ Hw)) as [_ Hd]. exists st, st'.
  vm_compute in Ha. injection Ha as <-. vm_compute in Hw. injection Hw as <-.
  destruct Hd as [Hi _]; [apply at_rest; [| | |left]; reflexivity|]. split_and!; first [exact Hi|done].
Defined.

(** The daemon can see CANCELED and terminate before the canceler gets to wake it up, so
    that [thread_wakeup_thread] is given a thread that has terminated; the queue holds no
    reference to it. *)
Lemma cancel_wakes_terminated :
  exists st, acts (mpsc_daemon_queue_init false false)
      ([Enqueue 0 10] ++ repeat (Producer 0) 5 ++ repeat Consumer 9 ++ [CancelAndWait; CancelAndWait] ++ repeat Consumer 3) =
    Some st /\ cancelation st = KWakeup /\ daemon st = CExit.
Proof. eexists. split; [vm_compute; reflexivity|done]. Qed.
