(* ===== verification/Qsort.v ===== *)
(** * Sorting

    [qsort] of [bsd/kern/qsort.c], the sort of Bentley and McIlroy, on a memory of bytes.
    A pointer into the array is the index of an element; the array starts at the element
    [a] of a memory whose first byte has the address [addr], on which it depends whether
    elements are exchanged by words of eight bytes or by bytes.  The comparison is an
    argument, a function of the bytes of two elements; reading or writing outside of the
    memory is [None].

    The jump back to the start of the function is a recursive call.  The loops that count
    down need no fuel; for the partition and for the recursion the number of elements is
    enough. *)
From S2P Require Import Prelude.
From stdpp Require Import list sorting.

Local Open Scope nat_scope.

Definition mem_load (w : nat) (m : list Z) (p : nat) : option (list Z) :=
  if decide (p + w <= length m) then Some (take w (drop p m)) else None.

Definition mem_store (m : list Z) (p : nat) (v : list Z) : option (list Z) :=
  if decide (p + length v <= length m) then Some (take p m ++ v ++ drop (p + length v) m) else None.

(** [i] turns of the loop of [swapcode], for a type of [w] bytes. *)
Fixpoint swapcode (i w : nat) (m : list Z) (pi pj : nat) : option (list Z) :=
  match i with
  | O => Some m
  | S i =>
      t ← mem_load w m pi;
      u ← mem_load w m pj;
      m ← mem_store m pi u;
      m ← mem_store m pj t;
      swapcode i w m (pi + w) (pj + w)
  end.

(** The loop is entered before its count is tested. *)
Definition swapfunc (m : list Z) (a b n : nat) (swaptype : nat) : option (list Z) :=
  let w := if decide (swaptype <= 1) then 8 else 1 in
  swapcode (Nat.max 1 (n / w)) w m a b.

Section qsort.
  Context (es : nat) (cmp : list Z -> list Z -> Z) (addr : nat).

Definition SWAPINIT (a : nat) : nat :=
  if decide ((addr + a * es) mod 8 <> 0 \/ es mod 8 <> 0) then 2 else if decide (es = 8) then 0 else 1.

Definition swap_elt (swaptype : nat) (m : list Z) (a b : nat) : option (list Z) :=
  if decide (swaptype = 0) then swapcode 1 8 m (a * es) (b * es) else swapfunc m (a * es) (b * es) es swaptype.

Definition vecswap (swaptype : nat) (m : list Z) (a b n : nat) : option (list Z) :=
  if decide (0 < n) then swapfunc m (a * es) (b * es) (n * es) swaptype else Some m.

(** [cmp] of the elements at two indices. *)
Definition compare (m : list Z) (i j : nat) : option Z :=
  x ← mem_load es m (i * es);
  y ← mem_load es m (j * es);
  Some (cmp x y).

Definition med3 (m : list Z) (a b c : nat) : option nat :=
  ab ← compare m a b;
  bc ← compare m b c;
  if decide (ab < 0)%Z
  then if decide (bc < 0)%Z then Some b else ac ← compare m a c; Some (if decide (ac < 0)%Z then c else a)
  else if decide (bc > 0)%Z then Some b else ac ← compare m a c; Some (if decide (ac < 0)%Z then a else c).

(** The inner loop of the insertion sort, [pl] being [a + k]. *)
Fixpoint sink (swaptype : nat) (k : nat) (m : list Z) (a : nat) : option (list Z) :=
  match k with
  | O => Some m
  | S k =>
      c ← compare m (a + k) (a + S k);
      if decide (c > 0)%Z then m ← swap_elt swaptype m (a + S k) (a + k); sink swaptype k m a else Some m
  end.

(** The outer loop, with [k] turns to go. *)
Fixpoint insertion (swaptype : nat) (k : nat) (m : list Z) (a pm : nat) : option (list Z) :=
  match k with
  | O => Some m
  | S k => m ← sink swaptype (pm - a) m a; insertion swaptype k m a (S pm)
  end.

(** The loop that moves [pb] up, with [k] elements from [pb] to [pc]. *)
Fixpoint up_loop (swaptype k : nat) (m : list Z) (a pa pb : nat) (swap_cnt : bool)
    : option (list Z * nat * nat * bool) :=
  match k with
  | O => Some (m, pa, pb, swap_cnt)
  | S k =>
      r ← compare m pb a;
      if decide (r <= 0)%Z
      then if decide (r = 0)%Z
           then m ← swap_elt swaptype m pa pb; up_loop swaptype k m a (S pa) (S pb) true
           else up_loop swaptype k m a pa (S pb) swap_cnt
      else Some (m, pa, pb, swap_cnt)
  end.

(** The loop that moves [pc] down. *)
Fixpoint down_loop (swaptype k : nat) (m : list Z) (a pc pd : nat) (swap_cnt : bool)
    : option (list Z * nat * nat * bool) :=
  match k with
  | O => Some (m, pc, pd, swap_cnt)
  | S k =>
      r ← compare m pc a;
      if decide (r >= 0)%Z
      then if decide (r = 0)%Z
           then m ← swap_elt swaptype m pc pd; down_loop swaptype k m a (pred pc) (pred pd) true
           else down_loop swaptype k m a (pred pc) pd swap_cnt
      else Some (m, pc, pd, swap_cnt)
  end.

Fixpoint partition_loop (fuel swaptype : nat) (m : list Z) (a pa pb pc pd : nat) (swap_cnt : bool)
    : option (list Z * nat * nat * nat * nat * bool) :=
  match fuel with
  | O => None
  | S fuel =>
      '(m, pa, pb, swap_cnt) ← up_loop swaptype (S pc - pb) m a pa pb swap_cnt;
      '(m, pc, pd, swap_cnt) ← down_loop swaptype (S pc - pb) m a pc pd swap_cnt;
      if decide (pc < pb) then Some (m, pa, pb, pc, pd, swap_cnt)
      else m ← swap_elt swaptype m pb pc; partition_loop fuel swaptype m a pa (S pb) (pred pc) pd true
  end.

(** The choice of the element to partition by. *)
Definition choose (m : list Z) (a n : nat) : option nat :=
  let pm := a + n / 2 in
  if decide (7 < n) then
    let pl := a in
    let pn := a + (n - 1) in
    if decide (40 < n) then
      let d := n / 8 in
      pl ← med3 m pl (pl + d) (pl + 2 * d);
      pm ← med3 m (pm - d) pm (pm + d);
      pn ← med3 m (pn - 2 * d) (pn - d) pn;
      med3 m pl pm pn
    else med3 m pl pm pn
  else Some pm.

Fixpoint qsort (fuel : nat) (m : list Z) (a n : nat) : option (list Z) :=
  match fuel with
  | O => None
  | S fuel =>
      let swaptype := SWAPINIT a in
      if decide (n < 7) then insertion swaptype (n - 1) m a (S a) else
      pm ← choose m a n;
      m ← swap_elt swaptype m a pm;
      '(m, pa, pb, pc, pd, swap_cnt) ←
        partition_loop n swaptype m a (S a) (S a) (a + (n - 1)) (a + (n - 1)) false;
      if negb swap_cnt then insertion swaptype (n - 1) m a (S a) else
      let pn := a + n in
      let r := Nat.min (pa - a) (pb - pa) in
      m ← vecswap swaptype m a (pb - r) r;
      let r := Nat.min (pd - pc) (pn - pd - 1) in
      m ← vecswap swaptype m pb (pn - r) r;
      m ← (let r := pb - pa in if decide (1 < r) then qsort fuel m a r else Some m);
      let r := pd - pc in
      if decide (1 < r) then qsort fuel m (pn - r) r else Some m
  end.

End qsort.

(** The private entry point for extensions. *)
Definition kx_qsort (es : nat) (cmp : list Z -> list Z -> Z) (addr : nat) (m : list Z) (nm : nat) : option (list Z) :=
  qsort es cmp addr (S nm) m 0 nm.

(** ** Exchanging bytes *)

Lemma mem_load_at A X B m p w :
  m = A ++ X ++ B -> p = length A -> w = length X -> mem_load w m p = Some X.
Proof.
  intros -> -> ->. unfold mem_load. rewrite decide_True by (rewrite !length_app; lia).
  by rewrite drop_app_length, take_app_length.
Qed.

Lemma mem_store_at A X B V m p :
  m = A ++ X ++ B -> p = length A -> length V = length X -> mem_store m p V = Some (A ++ V ++ B).
Proof.
  intros -> -> HV. unfold mem_store. rewrite decide_True by (rewrite !length_app; lia).
  rewrite take_app_length, HV. do 3 f_equal. rewrite (assoc_L (++)), <- length_app. apply drop_app_length.
Qed.

Ltac app_eq := rewrite ?length_app; cbn; rewrite <- ?(assoc_L (++)); cbn; rewrite ?length_app; first [done|lia].

(** The two blocks are apart: the first before the second, or after it. *)
Lemma swapcode_apart k w A X B Y C :
  length X = k * w -> length Y = k * w ->
  swapcode k w (A ++ X ++ B ++ Y ++ C) (length A) (length (A ++ X ++ B)) = Some (A ++ Y ++ B ++ X ++ C) /\
  swapcode k w (A ++ X ++ B ++ Y ++ C) (length (A ++ X ++ B)) (length A) = Some (A ++ Y ++ B ++ X ++ C).
Proof.
  revert A X B Y. induction k as [|k IH]; intros A X B Y HX HY.
  - apply length_zero_iff_nil in HX as ->, HY as ->. done.
  - rewrite <- (take_drop w X), <- (take_drop w Y).
    assert (length (take w X) = w /\ length (take w Y) = w) as [HX1 HY1] by (rewrite !length_take; lia).
    assert (length (drop w X) = k * w /\ length (drop w Y) = k * w) as [HX2 HY2] by (rewrite !length_drop; lia).
    revert HX1 HY1 HX2 HY2. generalize (take w X) (drop w X) (take w Y) (drop w Y). clear X Y HX HY. intros X1 X2 Y1 Y2 HX1 HY1 HX2 HY2.
    specialize (IH (A ++ Y1) X2 (B ++ X1) Y2 HX2 HY2).
    assert (length (A ++ Y1) = length A + w /\ length ((A ++ Y1) ++ X2 ++ B ++ X1) = length (A ++ (X1 ++ X2) ++ B) + w) as [E1 E2]
      by (rewrite !length_app; lia).
    rewrite E1, E2 in IH. rewrite <- !(assoc_L (++)) in *.
    set (P := A ++ X1 ++ X2 ++ B) in *. cbn [swapcode]. split.
    + rewrite (mem_load_at A X1 (X2 ++ B ++ Y1 ++ Y2 ++ C) _ (length A)), bind_some by app_eq.
      rewrite (mem_load_at P Y1 (Y2 ++ C) _ (length P)), bind_some by (subst P; app_eq).
      rewrite (mem_store_at A X1 (X2 ++ B ++ Y1 ++ Y2 ++ C) _ _ (length A)), bind_some by app_eq.
      rewrite (mem_store_at (A ++ Y1 ++ X2 ++ B) Y1 (Y2 ++ C) _ _ (length P)), bind_some by (subst P; app_eq).
      rewrite <- !(assoc_L (++)). apply IH.
    + rewrite (mem_load_at P Y1 (Y2 ++ C) _ (length P)), bind_some by (subst P; app_eq).
      rewrite (mem_load_at A X1 (X2 ++ B ++ Y1 ++ Y2 ++ C) _ (length A)), bind_some by app_eq.
      rewrite (mem_store_at P Y1 (Y2 ++ C) _ _ (length P)), bind_some by (subst P; app_eq).
      rewrite (mem_store_at A X1 (X2 ++ B ++ X1 ++ Y2 ++ C) _ _ (length A)), bind_some by (subst P; app_eq).
      apply IH.
Qed.

Lemma swapcode_same k w A X C :
  length X = k * w -> swapcode k w (A ++ X ++ C) (length A) (length A) = Some (A ++ X ++ C).
Proof.
  revert A X. induction k as [|k IH]; intros A X HX; [done|]. rewrite <- (take_drop w X).
  assert (length (take w X) = w) as HX1 by (rewrite length_take; lia).
  assert (length (drop w X) = k * w) as HX2 by (rewrite length_drop; lia).
  revert HX1 HX2. generalize (take w X) (drop w X). clear X HX. intros X1 X2 HX1 HX2. cbn [swapcode].
  rewrite (mem_load_at A X1 (X2 ++ C)), bind_some by app_eq. rewrite bind_some.
  rewrite (mem_store_at A X1 (X2 ++ C)), bind_some by app_eq.
  rewrite (mem_store_at A X1 (X2 ++ C)), bind_some by app_eq.
  specialize (IH (A ++ X1) X2 HX2). rewrite length_app, HX1 in IH. rewrite <- !(assoc_L (++)) in *. done.
Qed.

(** ** Exchanging elements *)

(** What a comparison has to be for the result to be in order. *)
Class Comparator (cmp : list Z -> list Z -> Z) : Prop := {
  cmp_flip x y : Z.sgn (cmp y x) = (- Z.sgn (cmp x y))%Z;
  cmp_trans x y z : (cmp x y <= 0)%Z -> (cmp y z <= 0)%Z -> (cmp x z <= 0)%Z
}.

Section elements.
  Context (es : nat) (cmp : list Z -> list Z -> Z) (addr : nat) (Hes : 0 < es).

(** A memory that holds elements. *)
Definition sized (L : list (list Z)) : Prop := Forall (fun x => length x = es) L.

Definition ok_type (t : nat) : Prop := (t = 0 -> es = 8) /\ (t <= 1 -> es mod 8 = 0).

Lemma SWAPINIT_ok a : ok_type (SWAPINIT es addr a).
Proof. unfold ok_type, SWAPINIT. repeat case_decide; lia. Qed.

Lemma sized_length L : sized L -> length (concat L) = length L * es.
Proof. induction 1 as [|x L Hx HL IH]; [done|]. cbn. rewrite length_app. lia. Qed.

Lemma sized_app A B : sized (A ++ B) <-> sized A /\ sized B.
Proof. apply Forall_app. Qed.

Lemma unit_count t r w :
  ok_type t -> 0 < r -> w = (if decide (t <= 1) then 8 else 1) -> r * es = Nat.max 1 (r * es / w) * w.
Proof using Hes.
  intros [_ Ht] Hr ->. case_decide as H.
  - pose proof (Nat.div_mod_eq es 8) as He. rewrite (Ht H) in He. rewrite He.
    replace (r * (8 * (es / 8) + 0)) with ((r * (es / 8)) * 8) by lia. rewrite Nat.div_mul by done. nia.
  - rewrite Nat.div_1_r. nia.
Qed.

Section moves.
  Context (t : nat) (Ht : ok_type t).

Lemma swapfunc_apart A X B Y C :
  sized (A ++ X ++ B ++ Y ++ C) -> length X = length Y -> 0 < length X ->
  let m := concat (A ++ X ++ B ++ Y ++ C) in
  let m' := concat (A ++ Y ++ B ++ X ++ C) in
  swapfunc m (length A * es) (length (A ++ X ++ B) * es) (length X * es) t = Some m' /\
  swapfunc m (length (A ++ X ++ B) * es) (length A * es) (length X * es) t = Some m'.
Proof using Hes Ht.
  intros Hs Hl H0 m m'. subst m m'. rewrite !sized_app in Hs. destruct Hs as (HA & HX & HB & HY & HC).
  rewrite <- (sized_length A) by done. rewrite <- (sized_length (A ++ X ++ B)) by (rewrite !sized_app; done).
  unfold swapfunc. set (w := if decide (t <= 1) then 8 else 1).
  pose proof (unit_count t (length X) w Ht H0 eq_refl) as Hk. rewrite !concat_app.
  apply swapcode_apart; rewrite sized_length by done; congruence.
Qed.

Lemma swap_apart A x B y C :
  sized (A ++ x :: B ++ y :: C) ->
  let m := concat (A ++ x :: B ++ y :: C) in
  let m' := concat (A ++ y :: B ++ x :: C) in
  swap_elt es t m (length A) (length A + S (length B)) = Some m' /\
  swap_elt es t m (length A + S (length B)) (length A) = Some m'.
Proof using Hes Ht.
  intros Hs m m'. pose proof (swapfunc_apart A [x] B [y] C Hs eq_refl ltac:(cbn; lia)) as Hsw. cbn zeta in Hsw.
  replace (length (A ++ [x] ++ B)) with (length A + S (length B)) in Hsw by (rewrite !length_app; done).
  rewrite Nat.mul_1_l in Hsw. unfold swap_elt. case_decide as H0; [|done]. subst t. destruct Ht as [Ht0 _].
  unfold swapfunc in Hsw. cbn in Hsw. specialize (Ht0 eq_refl). rewrite Ht0 in *. done.
Qed.

Lemma swap_same A x C :
  sized (A ++ x :: C) -> swap_elt es t (concat (A ++ x :: C)) (length A) (length A) = Some (concat (A ++ x :: C)).
Proof using Hes Ht.
  intros Hs. apply Forall_app in Hs as [HA [Hx HC]%Forall_cons]. rewrite concat_app. cbn.
  unfold swap_elt, swapfunc. rewrite <- (sized_length A) by done. case_decide as H0.
  - apply swapcode_same. destruct Ht as [Ht0 _]. rewrite Hx. by apply Ht0.
  - apply swapcode_same. pose proof (unit_count t 1 _ Ht ltac:(lia) eq_refl) as Hk. rewrite Nat.mul_1_l in Hk. congruence.
Qed.

Lemma vecswap_apart A X B Y C :
  sized (A ++ X ++ B ++ Y ++ C) -> length X = length Y ->
  vecswap es t (concat (A ++ X ++ B ++ Y ++ C)) (length A) (length (A ++ X ++ B)) (length X) =
  Some (concat (A ++ Y ++ B ++ X ++ C)).
Proof using Hes Ht.
  intros Hs Hl. unfold vecswap. case_decide as H0; [by apply swapfunc_apart|].
  assert (X = []) as -> by (apply length_zero_iff_nil; lia). assert (Y = []) as -> by (by apply length_zero_iff_nil).
  done.
Qed.
End moves.

Lemma compare_at L i j x y :
  sized L -> L !! i = Some x -> L !! j = Some y -> compare es cmp (concat L) i j = Some (cmp x y).
Proof using Hes.
  intros Hs Hi Hj. unfold compare.
  assert (forall k z, L !! k = Some z -> mem_load es (concat L) (k * es) = Some z) as Hld.
  { intros k z Hk. pose proof (take_drop_middle _ _ _ Hk) as HL. rewrite <- HL in Hs. apply Forall_app in Hs as [Hs1 [Hz Hs2]%Forall_cons].
    apply (mem_load_at (concat (take k L)) z (concat (drop (S k) L))).
    - rewrite <- HL at 1. by rewrite concat_app.
    - rewrite sized_length by done. rewrite length_take. apply lookup_lt_Some in Hk. lia.
    - done. }
  rewrite (Hld _ _ Hi), bind_some, (Hld _ _ Hj). done.
Qed.
End elements.

Section sorting.
  Context (es : nat) (cmp : list Z -> list Z -> Z) (addr : nat) (Hes : 0 < es).

Definition le (x y : list Z) : Prop := (cmp x y <= 0)%Z.

(** ** Insertion *)

Lemma lookup_at {A : Type} (P Q : list A) x i : i = length P -> (P ++ x :: Q) !! i = Some x.
Proof. intros ->. by apply list_lookup_middle. Qed.

Lemma sink_spec t A S x T :
  ok_type es t -> sized es (A ++ S ++ x :: T) ->
  exists S1 S2, S = S1 ++ S2 /\
    sink es cmp t (length S) (concat (A ++ S ++ x :: T)) (length A) = Some (concat (A ++ S1 ++ x :: S2 ++ T)) /\
    Forall (fun y => 0 < cmp y x)%Z S2 /\ (forall z, last S1 = Some z -> le z x).
Proof using Hes.
  intros Ht. revert T. induction S as [|y S IH] using rev_ind; intros T Hs.
  { exists [], []. by repeat split. }
  rewrite length_app, Nat.add_1_r. cbn [sink length]. rewrite <- (assoc_L (++)) in *. cbn [app] in *.
  rewrite (compare_at es cmp Hes _ _ _ y x), bind_some; [|done|..].
  2: { rewrite (assoc_L (++)). apply lookup_at. by rewrite length_app. }
  2: { rewrite (assoc_L (++)). change (y :: x :: T) with ([y] ++ x :: T). rewrite (assoc_L (++)). apply lookup_at.
       rewrite !length_app. cbn. lia. }
  case_decide as Hc.
  - destruct (swap_apart es Hes t Ht (A ++ S) y [] x T) as [_ Hsw]; [by rewrite <- (assoc_L (++))|].
    rewrite <- !(assoc_L (++)), length_app in Hsw. cbn in Hsw. rewrite <- Nat.add_assoc, Nat.add_1_r in Hsw.
    rewrite Hsw, bind_some. clear Hsw. destruct (IH (y :: T)) as (S1 & S2 & -> & Hsk & H2 & H1).
    { clear -Hs. unfold sized in *. rewrite !Forall_app, !Forall_cons in *. tauto. }
    exists S1, (S2 ++ [y]). rewrite <- !(assoc_L (++)). split_and!; [done|by rewrite <- !(assoc_L (++)) in Hsk| |done].
    apply Forall_app. split; [done|]. apply Forall_singleton. lia.
  - exists (S ++ [y]), []. rewrite app_nil_r, <- !(assoc_L (++)). split_and!; try done.
    intros z. rewrite last_snoc. intros [= <-]. unfold le. lia.
Qed.

Lemma sorted_insert `{!Comparator cmp} S1 S2 x :
  StronglySorted le (S1 ++ S2) -> Forall (fun y => 0 < cmp y x)%Z S2 -> (forall z, last S1 = Some z -> le z x) ->
  StronglySorted le (S1 ++ x :: S2).
Proof.
  intros HS H2 H1. apply StronglySorted_app in HS as (H12 & HS1 & HS2). apply StronglySorted_app.
  assert (forall y, y ∈ S2 -> le x y) as Hx2.
  { intros y Hy. rewrite Forall_forall in H2. specialize (H2 y Hy). unfold le. pose proof (cmp_flip y x). lia. }
  assert (forall y, y ∈ S1 -> le y x) as Hx1.
  { intros y Hy. destruct (last S1) as [z|] eqn:Hz; [|by apply last_None in Hz as ->; apply not_elem_of_nil in Hy].
    specialize (H1 z eq_refl). apply last_Some in Hz as [S1' ->]. apply elem_of_app in Hy as [Hy|Hy].
    - eapply cmp_trans; [|exact H1]. apply StronglySorted_app in HS1 as (H & _ & _). apply H; [done|by left].
    - by apply list_elem_of_singleton in Hy as ->. }
  split_and!; [|done|].
  - intros y z Hy Hz. apply elem_of_cons in Hz as [-> |Hz]; [by apply Hx1|by apply H12].
  - apply SSorted_cons; [done|]. apply Forall_forall. done.
Qed.

Lemma insertion_spec t A S T B :
  ok_type es t -> sized es (A ++ S ++ T ++ B) ->
  exists S', S' ≡ₚ S ++ T /\
    insertion es cmp t (length T) (concat (A ++ S ++ T ++ B)) (length A) (length A + length S) =
      Some (concat (A ++ S' ++ B)) /\
    (Comparator cmp -> StronglySorted le S -> StronglySorted le S').
Proof using Hes.
  intros Ht. revert S. induction T as [|x T IH]; intros S Hs; cbn [insertion length].
  { exists S. by rewrite app_nil_r. }
  replace (length A + length S - length A) with (length S) by lia. cbn [app] in Hs.
  destruct (sink_spec t A S x (T ++ B) Ht Hs) as (S1 & S2 & -> & Hsk & H2 & H1).
  cbn [app]. rewrite Hsk, bind_some. destruct (IH (S1 ++ x :: S2)) as (S' & Hp & Hi & Hso).
  { clear -Hs. unfold sized in *. rewrite !Forall_app, !Forall_cons, !Forall_app in *. tauto. }
  exists S'. split_and!.
  - rewrite Hp. by rewrite <- !Permutation_middle.
  - rewrite <- Hi. rewrite !length_app. cbn. rewrite <- !(assoc_L (++)). cbn. f_equal. lia.
  - intros HC HS. apply Hso; [done|]. by apply sorted_insert.
Qed.

(** ** Partition *)

Ltac lst := repeat first [rewrite <- (assoc_L (++)) | progress cbn [app]]; try done.
Ltac len := rewrite ?length_app; cbn [length]; rewrite ?length_app; cbn [length]; lia.
Ltac sized_tauto := unfold sized in *; repeat rewrite ?Forall_app, ?Forall_cons, ?Forall_nil in *; tauto.
Ltac sized_perm Hs := clear -Hs; unfold sized in *; repeat rewrite ?Forall_app, ?Forall_cons, ?Forall_nil in *; tauto.

Lemma swap_at t L L' P x Q y R i j :
  ok_type es t -> sized es L -> L = P ++ x :: Q ++ y :: R -> L' = P ++ y :: Q ++ x :: R ->
  i = length P -> j = length P + S (length Q) ->
  swap_elt es t (concat L) i j = Some (concat L') /\ swap_elt es t (concat L) j i = Some (concat L').
Proof using Hes. intros Ht Hs -> -> -> ->. by apply swap_apart. Qed.

Lemma compare_first L P x Q p i a :
  sized es L -> L = P ++ x :: Q -> L !! a = Some p -> i = length P -> compare es cmp (concat L) i a = Some (cmp x p).
Proof using Hes. intros Hs -> Ha ->. apply compare_at; [done..| |done]. by apply lookup_at. Qed.

Lemma up_loop_spec t A p E LT M R cnt :
  ok_type es t -> sized es (A ++ p :: E ++ LT ++ M ++ R) ->
  Forall (fun x => cmp x p = 0)%Z E -> Forall (fun x => cmp x p < 0)%Z LT ->
  exists E' LT' M' cnt',
    up_loop es cmp t (length M) (concat (A ++ p :: E ++ LT ++ M ++ R)) (length A)
      (S (length A + length E)) (S (length A + length E) + length LT) cnt =
    Some (concat (A ++ p :: E' ++ LT' ++ M' ++ R), S (length A + length E'), S (length A + length E') + length LT', cnt') /\
    E' ++ LT' ++ M' ≡ₚ E ++ LT ++ M /\ length M' <= length M /\
    Forall (fun x => cmp x p = 0)%Z E' /\ Forall (fun x => cmp x p < 0)%Z LT' /\
    (forall x M'', M' = x :: M'' -> cmp x p > 0)%Z.
Proof using Hes.
  intros Ht. revert E LT cnt. induction M as [|x M IH]; intros E LT cnt Hs HE HLT; cbn [up_loop length].
  { exists E, LT, [], cnt. by rewrite !app_nil_r. }
  rewrite (compare_first _ (A ++ p :: E ++ LT) x (M ++ R) p), bind_some; [|done|by lst|by apply lookup_at|len].
  destruct (decide (cmp x p <= 0)%Z) as [Hle|Hgt]; [destruct (decide (cmp x p = 0)%Z) as [Heq|Hne]|].
  - assert (exists LT1, LT1 ≡ₚ LT /\
      swap_elt es t (concat (A ++ p :: E ++ LT ++ (x :: M) ++ R)) (S (length A + length E)) (S (length A + length E) + length LT) =
      Some (concat (A ++ p :: (E ++ [x]) ++ LT1 ++ M ++ R))) as (LT1 & Hp1 & Hsw).
    { destruct LT as [|y LT]; [exists []|exists (LT ++ [y])].
      - split; [done|]. rewrite Nat.add_0_r. replace (S (length A + length E)) with (length (A ++ p :: E)) by len.
        replace (A ++ p :: E ++ [] ++ (x :: M) ++ R) with ((A ++ p :: E) ++ x :: M ++ R) by lst.
        replace (A ++ p :: (E ++ [x]) ++ [] ++ M ++ R) with ((A ++ p :: E) ++ x :: M ++ R) by lst.
        apply swap_same; [done..|]. sized_perm Hs.
      - split; [by rewrite Permutation_app_comm|].
        refine (proj1 (swap_at t _ _ (A ++ p :: E) y LT x (M ++ R) _ _ Ht Hs _ _ _ _)); [by lst|by lst|len|len]. }
    rewrite Hsw, bind_some. destruct (IH (E ++ [x]) LT1 true) as (E' & LT' & M' & cnt' & Hu & Hp & Hl & HE' & HLT' & HM').
    { assert (sized es LT1 <-> sized es LT) by (unfold sized; by rewrite Hp1). rewrite !sized_app in *. clear IH. sized_tauto. }
    { apply Forall_app. by repeat constructor. }
    { by rewrite Hp1. }
    exists E', LT', M', cnt'. split_and!; try done.
    + rewrite <- Hu. rewrite <- (Permutation_length Hp1). f_equal; len.
    + rewrite Hp, Hp1. lst. apply Permutation_app_head. by rewrite Permutation_middle.
    + cbn. lia.
  - destruct (IH E (LT ++ [x]) cnt) as (E' & LT' & M' & cnt' & Hu & Hp & Hl & HE' & HLT' & HM').
    { by lst. }
    { done. }
    { apply Forall_app. repeat constructor; [done|lia]. }
    exists E', LT', M', cnt'. split_and!; try done.
    + rewrite <- Hu. f_equal; [by lst|len].
    + rewrite Hp. by lst.
    + cbn. lia.
  - exists E, LT, (x :: M), cnt. split_and!; try done. intros ? ? [= <- <-]. lia.
Qed.

Lemma down_loop_spec t P p a M GT E B cnt :
  ok_type es t -> sized es (P ++ M ++ GT ++ E ++ B) -> P !! a = Some p ->
  Forall (fun x => cmp x p > 0)%Z GT -> Forall (fun x => cmp x p = 0)%Z E ->
  exists M' X GT' E' cnt',
    down_loop es cmp t (length M) (concat (P ++ M ++ GT ++ E ++ B)) a
      (pred (length P + length M)) (pred (length P + length M + length GT)) cnt =
    Some (concat (P ++ M' ++ GT' ++ E' ++ B), pred (length P + length M'), pred (length P + length M' + length GT'), cnt') /\
    M = M' ++ X /\ GT' ++ E' ≡ₚ X ++ GT ++ E /\
    Forall (fun x => cmp x p > 0)%Z GT' /\ Forall (fun x => cmp x p = 0)%Z E' /\
    (forall x, last M' = Some x -> cmp x p < 0)%Z.
Proof using Hes.
  intros Ht Hs Ha. revert GT E cnt Hs. induction M as [|x M IH] using rev_ind; intros GT E cnt Hs HGT HE.
  { exists [], [], GT, E, cnt. done. }
  rewrite length_app. cbn [length]. rewrite Nat.add_1_r. cbn [down_loop].
  rewrite (compare_first _ (P ++ M) x (GT ++ E ++ B) p), bind_some; [|done|by lst|by apply lookup_app_l_Some|len].
  destruct (decide (cmp x p >= 0)%Z) as [Hge|Hlt]; [destruct (decide (cmp x p = 0)%Z) as [Heq|Hne]|].
  - assert (exists GT1, GT1 ≡ₚ GT /\
      swap_elt es t (concat (P ++ (M ++ [x]) ++ GT ++ E ++ B)) (pred (length P + S (length M)))
        (pred (length P + S (length M) + length GT)) = Some (concat (P ++ M ++ GT1 ++ (x :: E) ++ B))) as (GT1 & Hp1 & Hsw).
    { destruct GT as [|y GT _] using rev_ind; [exists []|exists (y :: GT)].
      - split; [done|]. replace (pred (length P + S (length M) + length [])) with (length (P ++ M)) by len.
        replace (pred (length P + S (length M))) with (length (P ++ M)) by len.
        replace (P ++ (M ++ [x]) ++ [] ++ E ++ B) with ((P ++ M) ++ x :: E ++ B) by lst.
        replace (P ++ M ++ [] ++ (x :: E) ++ B) with ((P ++ M) ++ x :: E ++ B) by lst.
        apply swap_same; [done..|]. sized_perm Hs.
      - split; [by rewrite (Permutation_app_comm GT)|].
        refine (proj1 (swap_at t _ _ (P ++ M) x GT y (E ++ B) _ _ Ht Hs _ _ _ _)); [by lst|by lst|len|len]. }
    rewrite Hsw, bind_some. destruct (IH GT1 (x :: E) true) as (M' & X & GT' & E' & cnt' & Hd & -> & Hp & HGT' & HE' & HM').
    { assert (sized es GT1 <-> sized es GT) by (unfold sized; by rewrite Hp1). clear IH Hsw. sized_tauto. }
    { by rewrite Hp1. }
    { by constructor. }
    exists M', (X ++ [x]), GT', E', cnt'. split_and!; try done.
    + rewrite <- Hd. rewrite (Permutation_length Hp1). f_equal; len.
    + by lst.
    + rewrite Hp, Hp1. lst. apply Permutation_app_head. by rewrite Permutation_middle.
  - destruct (IH (x :: GT) E cnt) as (M' & X & GT' & E' & cnt' & Hd & -> & Hp & HGT' & HE' & HM').
    { sized_perm Hs. }
    { constructor; [lia|done]. }
    { done. }
    exists M', (X ++ [x]), GT', E', cnt'. split_and!; try done.
    + rewrite <- Hd. f_equal; [by lst|len|len].
    + by lst.
    + rewrite Hp. by lst.
  - exists (M ++ [x]), [], GT, E, cnt. rewrite app_nil_r. split_and!; try done.
    + rewrite length_app. cbn [length]. by rewrite Nat.add_1_r.
    + intros z. rewrite last_snoc. intros [= <-]. lia.
Qed.

Lemma partition_spec fuel t A p E1 LT M GT E2 B cnt pa pb :
  ok_type es t -> sized es (A ++ p :: E1 ++ LT ++ M ++ GT ++ E2 ++ B) -> length M < fuel ->
  pa = S (length A + length E1) -> pb = pa + length LT ->
  Forall (fun x => cmp x p = 0)%Z E1 -> Forall (fun x => cmp x p < 0)%Z LT ->
  Forall (fun x => cmp x p > 0)%Z GT -> Forall (fun x => cmp x p = 0)%Z E2 ->
  exists E1' LT' GT' E2' cnt',
    partition_loop es cmp fuel t (concat (A ++ p :: E1 ++ LT ++ M ++ GT ++ E2 ++ B)) (length A) pa pb
      (pred (pb + length M)) (pred (pb + length M + length GT)) cnt =
    (let pa' := S (length A + length E1') in
     let pb' := pa' + length LT' in
     Some (concat (A ++ p :: E1' ++ LT' ++ GT' ++ E2' ++ B), pa', pb', pred pb', pred (pb' + length GT'), cnt')) /\
    E1' ++ LT' ++ GT' ++ E2' ≡ₚ E1 ++ LT ++ M ++ GT ++ E2 /\
    Forall (fun x => cmp x p = 0)%Z E1' /\ Forall (fun x => cmp x p < 0)%Z LT' /\
    Forall (fun x => cmp x p > 0)%Z GT' /\ Forall (fun x => cmp x p = 0)%Z E2'.
Proof using Hes.
  intros Ht. revert E1 LT M GT E2 cnt pa pb. induction fuel as [|fuel IH]; intros E1 LT M GT E2 cnt pa pb Hs Hf -> -> HE1 HLT HGT HE2; [lia|].
  cbn [partition_loop]. replace (S (pred (S (length A + length E1) + length LT + length M)) - (S (length A + length E1) + length LT)) with (length M) by lia.
  destruct (up_loop_spec t A p E1 LT M (GT ++ E2 ++ B) cnt Ht) as (E1' & LT' & M1 & cnt1 & Hu & Hp1 & Hl1 & HE1' & HLT' & HM1); [done..|].
  rewrite Hu, bind_some. clear Hu.
  set (P := A ++ p :: E1' ++ LT').
  assert (length E1' + length LT' + length M1 = length E1 + length LT + length M) as Hlen.
  { apply Permutation_length in Hp1. rewrite !length_app in Hp1. lia. }
  destruct (down_loop_spec t P p (length A) M1 GT E2 B cnt1 Ht) as (M2 & X & GT' & E2' & cnt2 & Hd & -> & Hp2 & HGT' & HE2' & HM2).
  { assert (sized es (E1' ++ LT' ++ M1) <-> sized es (E1 ++ LT ++ M)) by (unfold sized; by rewrite Hp1).
    subst P. clear IH. sized_tauto. }
  { by apply lookup_at. }
  { done. }
  { done. }
  assert (length P = S (length A + length E1') + length LT') as HP by (subst P; len).
  rewrite length_app in Hlen. erewrite (f_equal (mbind _)); [|etrans; [|exact Hd]; f_equal; [..|subst P; by lst| |]; rewrite ?length_app; lia].
  rewrite bind_some. clear Hd. case_decide as Hdone.
  - assert (M2 = []) as -> by (apply length_zero_iff_nil; lia). exists E1', LT', GT', E2', cnt2. split_and!; try done.
    + cbn zeta. rewrite HP. cbn [length]. rewrite Nat.add_0_r. subst P. do 5 f_equal. by lst.
    + rewrite Hp2. transitivity ((E1' ++ LT' ++ [] ++ X) ++ GT ++ E2); [by lst|]. rewrite Hp1. by lst.
  - destruct M2 as [|x M2]; [cbn in Hdone; lia|]. specialize (HM1 x _ eq_refl).
    destruct M2 as [|y M2 _] using rev_ind; [specialize (HM2 x eq_refl); lia|].
    rewrite app_comm_cons, last_snoc in HM2. specialize (HM2 y eq_refl).
    assert (sized es (P ++ (x :: M2 ++ [y]) ++ GT' ++ E2' ++ B)) as Hs2.
    { assert (sized es (E1' ++ LT' ++ (x :: M2 ++ [y]) ++ X) <-> sized es (E1 ++ LT ++ M)) by (unfold sized; by rewrite Hp1).
      assert (sized es (GT' ++ E2') <-> sized es (X ++ GT ++ E2)) by (unfold sized; by rewrite Hp2).
      subst P. clear IH. sized_tauto. }
    rewrite <- HP. destruct (swap_at t _ (P ++ (y :: M2 ++ [x]) ++ GT' ++ E2' ++ B) P x M2 y (GT' ++ E2' ++ B)
      (length P) (pred (length P + length (x :: M2 ++ [y]))) Ht Hs2) as [Hsw _]; [by lst|by lst|done|len|].
    rewrite Hsw, bind_some. clear Hsw.
    destruct (IH E1' (LT' ++ [y]) M2 (x :: GT') E2' true (S (length A + length E1')) (S (length P)))
      as (E1'' & LT'' & GT'' & E2'' & cnt3 & Hq & Hp3 & ? & ? & ? & ?); try done.
    { subst P. clear IH. sized_tauto. }
    { cbn in Hl1. rewrite !length_app in Hl1. cbn in Hl1. lia. }
    { len. }
    { apply Forall_app. by repeat constructor. }
    { by constructor. }
    exists E1'', LT'', GT'', E2'', cnt3. split_and!; try done.
    + etrans; [|exact Hq]. f_equal; [subst P; by lst|len..].
    + rewrite Hp3. transitivity ((E1' ++ LT' ++ (x :: M2 ++ [y]) ++ X) ++ GT ++ E2).
      * lst. rewrite <- Hp2. do 2 apply Permutation_app_head. rewrite <- !Permutation_middle. apply perm_swap.
      * rewrite Hp1. by lst.
Qed.

(** ** The whole sort *)

(** The elements equal to the pivot are moved to the middle, from either side. *)
Lemma exchange_sides t A X Y R i j r :
  ok_type es t -> sized es (A ++ X ++ Y ++ R) -> r = Nat.min (length X) (length Y) ->
  i = length A -> j = length A + length X + length Y - r ->
  exists X' Y', vecswap es t (concat (A ++ X ++ Y ++ R)) i j r = Some (concat (A ++ Y' ++ X' ++ R)) /\
    X' ≡ₚ X /\ Y' ≡ₚ Y.
Proof using Hes.
  intros Ht Hs -> -> ->. destruct (decide (length X <= length Y)) as [Hle|Hgt].
  - assert (exists Y1 Y2, Y = Y1 ++ Y2 /\ length Y2 = length X) as (Y1 & Y2 & -> & Hl).
    { exists (take (length Y - length X) Y), (drop (length Y - length X) Y). rewrite take_drop, length_drop. split; [done|lia]. }
    exists X, (Y2 ++ Y1). split_and!; [|done|by rewrite Permutation_app_comm].
    replace (Nat.min (length X) (length (Y1 ++ Y2))) with (length X) by lia.
    replace (length A + length X + length (Y1 ++ Y2) - length X) with (length (A ++ X ++ Y1)) by (rewrite !length_app; lia).
    rewrite <- !(assoc_L (++)) in *. by apply vecswap_apart.
  - assert (exists X1 X2, X = X1 ++ X2 /\ length X1 = length Y) as (X1 & X2 & -> & Hl).
    { exists (take (length Y) X), (drop (length Y) X). rewrite take_drop, length_take. split; [done|lia]. }
    exists (X2 ++ X1), Y. split_and!; [|by rewrite Permutation_app_comm|done].
    replace (Nat.min (length (X1 ++ X2)) (length Y)) with (length X1) by lia.
    replace (length A + length (X1 ++ X2) + length Y - length X1) with (length (A ++ X1 ++ X2)) by (rewrite !length_app; lia).
    rewrite <- !(assoc_L (++)) in *. by apply vecswap_apart.
Qed.

Lemma med3_spec L a b c :
  sized es L -> a < length L -> b < length L -> c < length L ->
  exists i, med3 es cmp (concat L) a b c = Some i /\ (i = a \/ i = b \/ i = c).
Proof using Hes.
  intros Hs [x Hx]%lookup_lt_is_Some_2 [y Hy]%lookup_lt_is_Some_2 [z Hz]%lookup_lt_is_Some_2. unfold med3.
  rewrite (compare_at es cmp Hes _ a b x y), (compare_at es cmp Hes _ b c y z), !bind_some by done.
  rewrite (compare_at es cmp Hes _ a c x z), !bind_some by done.
  repeat case_decide; eexists; (split; [done|auto]).
Qed.

Lemma choose_spec L a n :
  sized es L -> 7 <= n -> a + n <= length L ->
  exists i, choose es cmp (concat L) a n = Some i /\ a <= i < a + n.
Proof using Hes.
  intros Hs Hn Hl. unfold choose. pose proof (Nat.div_mod_eq n 2). pose proof (Nat.mod_upper_bound n 2 ltac:(lia)).
  pose proof (Nat.div_mod_eq n 8). pose proof (Nat.mod_upper_bound n 8 ltac:(lia)).
  case_decide; [|eexists; split; [done|lia]]. case_decide.
  - destruct (med3_spec L a (a + n / 8) (a + 2 * (n / 8))) as (i1 & -> & Hi1); [done|lia..|]. rewrite bind_some.
    destruct (med3_spec L (a + n / 2 - n / 8) (a + n / 2) (a + n / 2 + n / 8)) as (i2 & -> & Hi2); [done|lia..|]. rewrite bind_some.
    destruct (med3_spec L (a + (n - 1) - 2 * (n / 8)) (a + (n - 1) - n / 8) (a + (n - 1))) as (i3 & -> & Hi3); [done|lia..|].
    rewrite bind_some. destruct (med3_spec L i1 i2 i3) as (i & -> & Hi4); [done|lia..|]. exists i. split; [done|lia].
  - destruct (med3_spec L a (a + n / 2) (a + (n - 1))) as (i & -> & Hi4); [done|lia..|]. exists i. split; [done|lia].
Qed.

(** The pivot is brought to the front. *)
Lemma pivot_first t A S B i :
  ok_type es t -> sized es (A ++ S ++ B) -> length A <= i < length A + length S ->
  exists p S', p :: S' ≡ₚ S /\ swap_elt es t (concat (A ++ S ++ B)) (length A) i = Some (concat (A ++ (p :: S') ++ B)).
Proof using Hes.
  intros Ht Hs Hi. destruct S as [|x S]; [cbn in Hi; lia|]. destruct (decide (i = length A)) as [->|Hne].
  - exists x, S. split; [done|]. by apply swap_same.
  - destruct (lookup_lt_is_Some_2 S (i - length A - 1)) as [p Hp]; [cbn in Hi; lia|].
    pose proof (take_drop_middle _ _ _ Hp) as HS. revert HS Hp. set (k := i - length A - 1).
    intros HS Hp. exists p, (take k S ++ x :: drop (Datatypes.S k) S). split.
    + rewrite <- HS at 3. rewrite <- !Permutation_middle. apply perm_swap.
    + rewrite <- HS in Hs. rewrite <- HS at 1.
      refine (proj1 (swap_at t _ _ A x (take k S) p (drop (Datatypes.S k) S ++ B) _ _ Ht Hs _ _ _ _)); [by lst|by lst|done|].
      rewrite length_take. apply lookup_lt_Some in Hp. lia.
Qed.

Lemma le_trichotomy `{!Comparator cmp} p x y :
  ((cmp x p <= 0)%Z -> (0 <= cmp y p)%Z -> le x y).
Proof.
  clear Hes. intros Hx Hy. unfold le. eapply cmp_trans; [exact Hx|]. pose proof (cmp_flip y p). lia.
Qed.

(** Three sorted parts, below, equal to and above the pivot. *)
Lemma sorted_parts `{!Comparator cmp} p X Y Z' :
  Forall (fun x => cmp x p < 0)%Z X -> Forall (fun x => cmp x p = 0)%Z Y -> Forall (fun x => cmp x p > 0)%Z Z' ->
  StronglySorted le X -> StronglySorted le Z' -> StronglySorted le (X ++ Y ++ Z').
Proof.
  intros HX HY HZ SX SZ. rewrite Forall_forall in HX, HY, HZ.
  assert (StronglySorted le Y) as SY.
  { clear -HY Comparator0. induction Y as [|y Y IH]; constructor.
    - apply IH. intros x Hx. apply HY. by right.
    - apply Forall_forall. intros z Hz. apply (le_trichotomy p); [rewrite (HY y) by left; done|].
      rewrite (HY z) by (by right). done. }
  apply StronglySorted_app_2; [|done|apply StronglySorted_app_2; [|done|done]].
  - intros x y Hx [Hy|Hy]%elem_of_app; apply (le_trichotomy p); [specialize (HX x Hx); lia|rewrite (HY y Hy); done|
      specialize (HX x Hx); lia|specialize (HZ y Hy); lia].
  - intros x y Hx Hy. apply (le_trichotomy p); [rewrite (HY x Hx); done|specialize (HZ y Hy); lia].
Qed.

(** A sort of a part of the memory that leaves the rest alone. *)
Definition sorts (f : option (list Z)) (A S B : list (list Z)) : Prop :=
  exists S', f = Some (concat (A ++ S' ++ B)) /\ S' ≡ₚ S /\ (Comparator cmp -> StronglySorted le S').

Lemma insertion_sorts t A S B :
  ok_type es t -> sized es (A ++ S ++ B) ->
  sorts (insertion es cmp t (length S - 1) (concat (A ++ S ++ B)) (length A) (Datatypes.S (length A))) A S B.
Proof using Hes.
  intros Ht Hs. destruct S as [|x S]; [exists []; cbn; split_and!; [done|done|by constructor]|].
  destruct (insertion_spec t A [x] S B Ht Hs) as (S' & Hp & Hi & Hso). exists S'. split_and!; [|done|].
  - rewrite <- Hi. cbn [length]. rewrite Nat.sub_succ, Nat.sub_0_r, Nat.add_1_r. done.
  - intros HC. apply Hso; [done|]. repeat constructor.
Qed.

(** A call for one of the two sides, made for more than one element. *)
Lemma side_sorts fuel A X B :
  (forall A S B, length S < fuel -> sized es (A ++ S ++ B) ->
    sorts (qsort es cmp addr fuel (concat (A ++ S ++ B)) (length A) (length S)) A S B) ->
  length X < fuel -> sized es (A ++ X ++ B) ->
  sorts (if decide (1 < length X) then qsort es cmp addr fuel (concat (A ++ X ++ B)) (length A) (length X)
         else Some (concat (A ++ X ++ B))) A X B.
Proof using Hes.
  intros IH Hl Hs. case_decide as H; [by apply IH|]. exists X. split_and!; [done|done|]. intros _.
  destruct X as [|x [|y X]]; [constructor|by repeat constructor|cbn in H; lia].
Qed.

Lemma sized_swap A X Y B : X ≡ₚ Y -> sized es (A ++ X ++ B) -> sized es (A ++ Y ++ B).
Proof using Type. intros Hp. rewrite !sized_app. unfold sized. by rewrite Hp. Qed.

(** From the partition on. *)
Lemma sides_sort fuel t A p E1 LT GT E2 B pa pb pc pd pn :
  (forall A S B, length S < fuel -> sized es (A ++ S ++ B) ->
    sorts (qsort es cmp addr fuel (concat (A ++ S ++ B)) (length A) (length S)) A S B) ->
  ok_type es t -> let S := p :: E1 ++ LT ++ GT ++ E2 in
  sized es (A ++ S ++ B) -> length S <= fuel ->
  pa = length A + Datatypes.S (length E1) -> pb = pa + length LT -> pc = pred pb -> pd = pred (pb + length GT) ->
  pn = length A + length S ->
  Forall (fun x => cmp x p = 0)%Z E1 -> Forall (fun x => cmp x p < 0)%Z LT ->
  Forall (fun x => cmp x p > 0)%Z GT -> Forall (fun x => cmp x p = 0)%Z E2 ->
  sorts
    (let r := Nat.min (pa - length A) (pb - pa) in
     m ← vecswap es t (concat (A ++ S ++ B)) (length A) (pb - r) r;
     let r := Nat.min (pd - pc) (pn - pd - 1) in
     m ← vecswap es t m pb (pn - r) r;
     m ← (let r := pb - pa in if decide (1 < r) then qsort es cmp addr fuel m (length A) r else Some m);
     let r := pd - pc in
     if decide (1 < r) then qsort es cmp addr fuel m (pn - r) r else Some m) A S B.
Proof using Hes.
  intros IH Ht S Hs Hf Hpa Hpb Hpc Hpd Hpn HE1 HLT HGT HE2. cbn zeta.
  assert (length S = 1 + length E1 + length LT + length GT + length E2) as HlS by (subst S; len).
  replace (pa - length A) with (length (p :: E1)) by (cbn; lia). replace (pb - pa) with (length LT) by lia.
  replace (pd - pc) with (length GT) by lia. replace (pn - pd - 1) with (length E2) by lia.
  destruct (exchange_sides t A (p :: E1) LT (GT ++ E2 ++ B) (length A)
    (pb - Nat.min (length (p :: E1)) (length LT)) (Nat.min (length (p :: E1)) (length LT)) Ht) as (E' & LT' & Hv & HpE & HpL); [|done..|cbn [length]; lia|].
  { by subst S; revert Hs; lst. }
  replace (A ++ S ++ B) with (A ++ (p :: E1) ++ LT ++ GT ++ E2 ++ B) by (subst S; by lst).
  rewrite Hv, bind_some. clear Hv.
  assert (length E' = length (p :: E1) /\ length LT' = length LT) as [HlE HlL] by (by split; apply Permutation_length).
  assert (sized es (A ++ (LT' ++ E' ++ GT ++ E2) ++ B)) as Hs1.
  { eapply sized_swap; [|exact Hs]. subst S. rewrite HpE, HpL. apply (Permutation_app_swap_app (p :: E1)). }
  destruct (exchange_sides t (A ++ LT' ++ E') GT E2 B pb (pn - Nat.min (length GT) (length E2))
    (Nat.min (length GT) (length E2)) Ht)
    as (GT' & E2' & Hv & HpG & HpE2); [|done|rewrite !length_app, HlE; cbn [length]; lia|rewrite !length_app, HlE; cbn [length]; lia|].
  { revert Hs1. by lst. }
  replace (A ++ LT' ++ E' ++ GT ++ E2 ++ B) with ((A ++ LT' ++ E') ++ GT ++ E2 ++ B) by lst. rewrite Hv, bind_some. clear Hv.
  assert (length GT' = length GT) as HlG by (by apply Permutation_length).
  assert (sized es (A ++ (LT' ++ E' ++ E2' ++ GT') ++ B)) as Hs2.
  { eapply sized_swap; [|exact Hs1]. rewrite HpG, HpE2. do 2 apply Permutation_app_head. apply Permutation_app_comm. }
  destruct (side_sorts fuel A LT' ((E' ++ E2') ++ GT' ++ B) IH) as (LT'' & Hq & HpL2 & HsL); [lia|revert Hs2; by lst|].
  replace ((A ++ LT' ++ E') ++ E2' ++ GT' ++ B) with (A ++ LT' ++ (E' ++ E2') ++ GT' ++ B) by lst.
  rewrite HlL in Hq. rewrite Hq, bind_some. clear Hq.
  assert (length LT'' = length LT') as HlL2 by (by apply Permutation_length).
  assert (length E2' = length E2) as HlE2 by (by apply Permutation_length).
  destruct (side_sorts fuel (A ++ LT'' ++ E' ++ E2') GT' B IH) as (GT'' & Hq & HpG2 & HsG); [lia| |].
  { eapply (sized_swap A _ (LT'' ++ E' ++ E2' ++ GT')) in Hs2; [|by rewrite HpL2]. revert Hs2. by lst. }
  replace (A ++ LT'' ++ (E' ++ E2') ++ GT' ++ B) with ((A ++ LT'' ++ E' ++ E2') ++ GT' ++ B) by lst.
  rewrite HlG in Hq. replace (pn - length GT) with (length (A ++ LT'' ++ E' ++ E2')) by (rewrite !length_app, HlE; cbn [length]; lia).
  rewrite Hq. exists (LT'' ++ (E' ++ E2') ++ GT''). split_and!.
  - f_equal. f_equal. by lst.
  - rewrite HpL2, HpG2, HpL, HpG, HpE, HpE2. subst S. lst.
    rewrite (Permutation_app_comm E2 GT). apply (Permutation_app_swap_app LT (p :: E1)).
  - intros HC. apply (sorted_parts p); [by rewrite HpL2, HpL| |by rewrite HpG2, HpG|by apply HsL|by apply HsG].
    rewrite HpE, HpE2. pose proof (cmp_flip p p). apply Forall_app. split; [constructor; [lia|done]|done].
Qed.

Lemma qsort_sorts fuel A S B :
  length S < fuel -> sized es (A ++ S ++ B) ->
  sorts (qsort es cmp addr fuel (concat (A ++ S ++ B)) (length A) (length S)) A S B.
Proof using Hes.
  revert A S B. induction fuel as [|fuel IH]; intros A S B Hf Hs; [lia|]. cbn [qsort].
  pose proof (SWAPINIT_ok es addr Hes (length A)) as Ht. set (t := SWAPINIT es addr (length A)) in *.
  case_decide as Hn; [by apply insertion_sorts|].
  destruct (choose_spec (A ++ S ++ B) (length A) (length S) Hs) as (i & Hc & Hi); [lia|rewrite !length_app; lia|].
  rewrite Hc, bind_some. destruct (pivot_first t A S B i Ht Hs Hi) as (p & M & HpS & Hsw). rewrite Hsw, bind_some. clear Hc Hsw.
  assert (length S = Datatypes.S (length M)) as HlS by (by rewrite <- HpS).
  apply (sized_swap A _ (p :: M)) in Hs; [|done].
  destruct (partition_spec (length S) t A p [] [] M [] [] B false (Datatypes.S (length A)) (Datatypes.S (length A)) Ht)
    as (E1 & LT & GT & E2 & cnt & Hp & HpM & HE1 & HLT & HGT & HE2); [by cbn in *|lia|cbn; lia|cbn; lia|by constructor..|].
  cbn [app length] in Hp, HpM. rewrite app_nil_r in HpM. rewrite Nat.add_0_r in Hp.
  replace (pred (Datatypes.S (length A) + length M)) with (length A + (length S - 1)) in Hp by lia.
  replace ((p :: M) ++ B) with (p :: M ++ B) by done. rewrite Hp, bind_some. clear Hp.
  assert (p :: E1 ++ LT ++ GT ++ E2 ≡ₚ S) as HpQ by (by rewrite HpM).
  apply (sized_swap A _ (p :: E1 ++ LT ++ GT ++ E2)) in Hs; [|by rewrite HpM].
  replace (A ++ p :: E1 ++ LT ++ GT ++ E2 ++ B) with (A ++ (p :: E1 ++ LT ++ GT ++ E2) ++ B) by lst.
  rewrite <- (Permutation_length HpQ). destruct cnt; cbn [negb].
  - destruct (sides_sort fuel t A p E1 LT GT E2 B (Datatypes.S (length A + length E1)) (Datatypes.S (length A + length E1) + length LT)
      (pred (Datatypes.S (length A + length E1) + length LT)) (pred (Datatypes.S (length A + length E1) + length LT + length GT))
      (length A + length (p :: E1 ++ LT ++ GT ++ E2)) IH Ht Hs) as (S' & Hq & HpS' & Hso); [|lia|lia|done..|].
    { rewrite (Permutation_length HpQ). lia. }
    exists S'. split_and!; [exact Hq|by rewrite HpS'|done].
  - destruct (insertion_sorts t A _ B Ht Hs) as (S' & Hq & HpS' & Hso). exists S'. split_and!; [exact Hq|by rewrite HpS'|done].
Qed.
End sorting.

(** C6. [qsort] of an array of elements of any positive size, at any address, between other
    elements that it leaves alone: whatever the comparison returns, the sort ends within a
    depth of the number of elements, never reads or writes outside of the memory, and the
    array holds a permutation of its elements, the bytes of each of them intact; and when
    the comparison is a total preorder the elements are in order. *)
Theorem qsort_correct es cmp addr fuel A L B :
  0 < es -> sized es (A ++ L ++ B) -> length L < fuel ->
  exists L', qsort es cmp addr fuel (concat (A ++ L ++ B)) (length A) (length L) = Some (concat (A ++ L' ++ B)) /\
    L' ≡ₚ L /\ (Comparator cmp -> StronglySorted (le cmp) L').
Proof. intros Hes Hs Hf. by apply qsort_sorts. Qed.

(** Bytes compared as numbers. *)
Definition byte_cmp (x y : list Z) : Z := (hd 0 x - hd 0 y)%Z.

#[export] Instance byte_comparator : Comparator byte_cmp.
Proof. split; unfold byte_cmp; intros; lia. Qed.

(** Nine bytes between two others, with three equal ones. *)
Lemma qsort_correct_witness :
  exists L', qsort 1 byte_cmp 4096 10 [99; 7; 3; 8; 3; 1; 9; 3; 2; 5; 98]%Z 1 9 = Some ([99] ++ concat L' ++ [98])%Z /\
    concat L' = [1; 2; 3; 3; 3; 5; 7; 8; 9]%Z /\ StronglySorted (le byte_cmp) L'.
Proof.
  destruct (qsort_correct 1 byte_cmp 4096 10 [[99%Z]] [[7]; [3]; [8]; [3]; [1]; [9]; [3]; [2]; [5]]%Z [[98%Z]])
    as (L' & Hq & _ & Hs); [lia|by repeat constructor|cbn; lia|].
  assert (concat ([[99%Z]] ++ L' ++ [[98%Z]]) = [99]%Z ++ concat L' ++ [98]%Z) as Hc by (by rewrite !concat_app).
  rewrite Hc in Hq. exists L'. split_and!; [exact Hq| |by apply Hs, byte_comparator].
  vm_compute in Hq. injection Hq as Hq. apply (app_inv_tail [98%Z]). exact (eq_sym Hq).
Defined.
