(* ===== verification/Mbuf.v ===== *)
(** * Chains of mbufs

    The operations of [bsd/kern/uipc_mbuf.c] that trim, join, split, extend, copy and
    rearrange the chains of buffers that packets are made of, in the configuration without
    the mcache (the data area of an mbuf has 288 bytes, with and without a packet header).

    A chain is a list of mbufs, the empty list being the null pointer; a pointer into a
    chain is what is left of it.  The data of an mbuf is in its own area or in a cluster,
    which several mbufs may share: clusters are kept in a store with their reference
    counts, and mbufs refer to them by number.  [m_data] is the offset from the start of
    the area.  Allocation is decided by an argument, the list of the areas that the
    allocator hands out, with what they happen to contain, or its refusals.  A panic, a
    null pointer that is followed, a copy that leaves an area and the negation of the least
    [int] are [None].

    Of the packet header the length and the interface are kept; types of mbufs, tags and
    statistics are left out.  So are the two kinds of clusters that stay with their mbuf
    when it is freed: paired ones, and composite ones (an mbuf with its cluster from one
    cache, EXTF_COMPOSITE); with the last reference a cluster is given back, as the
    others are, and the minimal count is 0.  Arithmetic on lengths is that of [int]; no
    sum leaves its range while a chain is shorter than 2 GB.  Comparisons with sizes are
    those of the unsigned types. *)
From S2P Require Import Prelude.
From stdpp Require Import gmap.

Local Open Scope Z_scope.

Abbreviation MLEN := 288.
Abbreviation MHLEN := 288.
Abbreviation INT_MAX := 2147483647.
Abbreviation M_COPYALL := 1000000000.

Record pkthdr := Pkthdr { rcvif : Z; pkt_len : Z }.

(** [m_pkthdr] is there when M_PKTHDR is set, [m_ext] when M_EXT is. *)
Record mbuf := MkMbuf {
  m_pkthdr : option pkthdr;
  m_ext : option nat;
  m_dat : list Z;
  m_data : Z;
  m_len : Z
}.

(** A cluster with its [ext_ref]: the count, and EXTF_READONLY. *)
Record cluster := Cluster { ext_buf : list Z; refcnt : Z; readonly : bool }.

Record heap := Heap { clusters : gmap nat cluster; gets : list (option (list Z)) }.

Definition set_pkthdr (m : mbuf) (x : option pkthdr) : mbuf := MkMbuf x (m_ext m) (m_dat m) (m_data m) (m_len m).
Definition set_dat (m : mbuf) (x : list Z) : mbuf := MkMbuf (m_pkthdr m) (m_ext m) x (m_data m) (m_len m).
Definition set_range (m : mbuf) (data len : Z) : mbuf := MkMbuf (m_pkthdr m) (m_ext m) (m_dat m) data len.
Definition set_len (m : mbuf) (len : Z) : mbuf := set_range m (m_data m) len.

(** ** Storage *)

Definition set_clusters (x : gmap nat cluster) : eff heap unit := fun h => Some (tt, Heap x (gets h)).

(** The area that [m_data] points into, from [M_START] on. *)
Definition area (cl : gmap nat cluster) (m : mbuf) : option (list Z) :=
  match m_ext m with None => Some (m_dat m) | Some k => ext_buf <$> cl !! k end.

Definition M_SIZE (m : mbuf) : eff heap Z :=
  cl ← eff_get clusters;
  match m_ext m with
  | None => mret MLEN
  | Some _ => b ← eff_opt (area cl m); mret (Z.of_nat (length b))
  end.

Definition slice (b : list Z) (i n : Z) : list Z := take (Z.to_nat n) (drop (Z.to_nat i) b).

(** The bytes from [mtod(m) + off] on. *)
Definition bytes_at (cl : gmap nat cluster) (m : mbuf) (off n : Z) : option (list Z) :=
  b ← area cl m;
  let i := m_data m + off in
  if decide (0 <= i /\ 0 <= n /\ i + n <= Z.of_nat (length b)) then Some (slice b i n) else None.

Definition splice (b : list Z) (i : Z) (v : list Z) : list Z :=
  take (Z.to_nat i) b ++ v ++ drop (Z.to_nat i + length v) b.

(** A copy to [mtod(m) + off]. *)
Definition copy_to (m : mbuf) (off : Z) (v : list Z) : eff heap mbuf :=
  cl ← eff_get clusters;
  b ← eff_opt (area cl m);
  let i := m_data m + off in
  if decide (0 <= i /\ i + Z.of_nat (length v) <= Z.of_nat (length b)) then
    match m_ext m with
    | None => mret (set_dat m (splice b i v))
    | Some k =>
        c ← eff_opt (cl !! k);
        _ ← set_clusters (<[k := Cluster (splice b i v) (refcnt c) (readonly c)]> cl);
        mret m
    end
  else eff_opt None.

Definition m_get_common (hdr : bool) : eff heap (option mbuf) := fun h =>
  match gets h with
  | Some d :: g =>
      Some (Some (MkMbuf (if hdr then Some (Pkthdr 0 0) else None) None d 0 0), Heap (clusters h) g)
  | None :: g => Some (None, Heap (clusters h) g)
  | [] => Some (None, h)
  end.

Definition m_incref (k : nat) : eff heap unit :=
  cl ← eff_get clusters;
  c ← eff_opt (cl !! k);
  let new := u16 (refcnt c + 1) in
  if decide (new = 0) then eff_opt None
  else set_clusters (<[k := Cluster (ext_buf c) new (readonly c || bool_decide (1 < new))]> cl).

(** The storage of a cluster is given back with the last reference to it: the branch for a
    cluster that is neither paired nor composite, with the minimal count 0. *)
Definition m_free (m : mbuf) : eff heap unit :=
  match m_ext m with
  | None => mret tt
  | Some k =>
      cl ← eff_get clusters;
      c ← eff_opt (cl !! k);
      if decide (refcnt c = 0) then eff_opt None
      else if decide (refcnt c - 1 = 0) then set_clusters (delete k cl)
      else set_clusters (<[k := Cluster (ext_buf c) (refcnt c - 1) (readonly c)]> cl)
  end.

Fixpoint m_freem (ms : list mbuf) : eff heap unit :=
  match ms with [] => mret tt | m :: ms => _ ← m_free m; m_freem ms end.

Definition m_mclhasreference (cl : gmap nat cluster) (m : mbuf) : option bool :=
  match m_ext m with None => Some false | Some k => readonly <$> cl !! k end.

Definition M_TRAILINGSPACE (m : mbuf) : eff heap Z :=
  cl ← eff_get clusters;
  ro ← eff_opt (m_mclhasreference cl m);
  if (ro : bool) then mret 0 else size ← M_SIZE m; mret (size - (m_data m + m_len m)).

Definition M_LEADINGSPACE (m : mbuf) : eff heap Z :=
  cl ← eff_get clusters;
  ro ← eff_opt (m_mclhasreference cl m);
  mret (if (ro : bool) then 0 else m_data m).

(** [to] takes over the packet header of [from]. *)
Definition m_copy_pkthdr (to from : mbuf) : eff heap mbuf :=
  match m_pkthdr from with
  | None => eff_opt None
  | Some h => mret (MkMbuf (Some h) (m_ext to) (m_dat to) (match m_ext to with Some _ => m_data to | None => 0 end) (m_len to))
  end.

Definition m_align (m : mbuf) (len : Z) : eff heap mbuf :=
  size ← M_SIZE m;
  if decide (m_data m = 0 /\ 0 <= len <= size)
  then mret (set_range m (m_data m + Z.land (size - len) (Z.lnot 7)) (m_len m)) else eff_opt None.

(** ** Reading a chain *)

(** [m_length2]; [m_length] believes the packet header. *)
Definition m_length2 (ms : list mbuf) : Z := foldr (fun m n => u32 (m_len m + n)) 0 ms.

Definition m_length (ms : list mbuf) : option Z :=
  match ms with
  | [] => None
  | m :: _ => Some (match m_pkthdr m with Some h => u32 (pkt_len h) | None => m_length2 ms end)
  end.

Fixpoint copydata_seek (ms : list mbuf) (off : Z) : option (list mbuf * Z) :=
  if decide (off <= 0) then Some (ms, off) else
  match ms with
  | [] => None
  | m :: ms' => if decide (off < m_len m) then Some (ms, off) else copydata_seek ms' (off - m_len m)
  end.

Fixpoint copydata_loop (cl : gmap nat cluster) (ms : list mbuf) (off len : Z) : option (list Z) :=
  if decide (len <= 0) then Some [] else
  match ms with
  | [] => None
  | m :: ms =>
      let count := Z.min (m_len m - off) len in
      bs ← bytes_at cl m off count;
      rest ← copydata_loop cl ms 0 (len - count);
      Some (bs ++ rest)
  end.

(** What [m_copydata] stores into its buffer. *)
Definition m_copydata (cl : gmap nat cluster) (ms : list mbuf) (off len : Z) : option (list Z) :=
  if decide (off < 0 \/ len < 0) then None else
  '(ms, off) ← copydata_seek ms off;
  copydata_loop cl ms off len.

(** The position in the chain, and the offset in that mbuf. *)
Fixpoint getptr_loop (ms : list mbuf) (i : nat) (loc : Z) : option (option (nat * Z)) :=
  match ms with
  | [] => None
  | m :: ms =>
      if decide (loc < m_len m) then Some (Some (i, loc)) else
      let loc := loc - m_len m in
      match ms with
      | [] => Some (if decide (loc = 0) then Some (i, m_len m) else None)
      | _ => getptr_loop ms (S i) loc
      end
  end.

Definition m_getptr (ms : list mbuf) (loc : Z) : option (option (nat * Z)) :=
  if decide (0 <= loc) then getptr_loop ms 0 loc else Some None.

(** ** Changing a chain *)

(** The first mbuf's packet header, if it has one. *)
Definition on_header (f : pkthdr -> pkthdr) (ms : list mbuf) : list mbuf :=
  match ms with [] => [] | m :: ms => set_pkthdr m (f <$> m_pkthdr m) :: ms end.
Definition add_len (n : Z) (h : pkthdr) : pkthdr := Pkthdr (rcvif h) (pkt_len h + n).
Definition put_len (n : Z) (h : pkthdr) : pkthdr := Pkthdr (rcvif h) n.

Fixpoint cat_loop (m : mbuf) (ns : list mbuf) : eff heap (list mbuf) :=
  match ns with
  | [] => mret [m]
  | n :: ns' =>
      if decide (m_ext m <> None \/ MLEN <= m_data m + m_len m + m_len n) then mret (m :: ns)
      else
        cl ← eff_get clusters;
        v ← eff_opt (bytes_at cl n 0 (m_len n));
        m ← copy_to m (m_len m) v;
        _ ← m_free n;
        cat_loop (set_len m (m_len m + m_len n)) ns'
  end.

Fixpoint m_cat (ms ns : list mbuf) : eff heap (list mbuf) :=
  match ms with
  | [] => eff_opt None
  | [m] => cat_loop m ns
  | m :: ms => r ← m_cat ms ns; mret (m :: r)
  end.

(** Trimming from the head, with what could not be trimmed. *)
Fixpoint adj_head (ms : list mbuf) (len : Z) : list mbuf * Z :=
  match ms with
  | [] => ([], len)
  | m :: ms' =>
      if decide (len <= 0) then (ms, len)
      else if decide (m_len m <= len) then
        let '(r, len) := adj_head ms' (len - m_len m) in (set_len m 0 :: r, len)
      else (set_range m (m_data m + len) (m_len m - len) :: ms', 0)
  end.

(** The chain is cut after [count] bytes. *)
Fixpoint adj_tail (ms : list mbuf) (count : Z) : option (list mbuf) :=
  match ms with
  | [] => None
  | m :: ms =>
      if decide (count <= m_len m) then Some (set_len m count :: ((fun m => set_len m 0) <$> ms))
      else r ← adj_tail ms (count - m_len m); Some (m :: r)
  end.

Definition chain_len (ms : list mbuf) : Z := foldr (fun m n => m_len m + n) 0 ms.

Definition m_adj (mp : list mbuf) (req_len : Z) : option (list mbuf) :=
  match last mp with
  | None => Some []
  | Some m =>
      if decide (0 <= req_len) then
        let '(ms, len) := adj_head mp req_len in Some (on_header (add_len (- (req_len - len))) ms)
      else
        len ← (if decide (- req_len <= INT_MAX) then Some (- req_len) else None);
        if decide (len <= m_len m) then
          Some (on_header (add_len (- len)) (take (length mp - 1) mp ++ [set_len m (m_len m - len)]))
        else
          let count := Z.max 0 (chain_len mp - len) in
          adj_tail (on_header (put_len count) mp) count
  end.

(** How many of the [n_len] bytes of an mbuf are moved: [m_pullup] has the macros MIN and
    MAX on [int], [m_copyup] the functions [min] and [max] on [u_int]. *)
Definition pullup_count (max_protohdr len space n_len : Z) : Z :=
  Z.min (Z.min (Z.max len max_protohdr) space) n_len.

Definition to_int (x : Z) : Z := if decide (x < 2 ^ 31) then x else x - 2 ^ 32.

Definition copyup_count (max_protohdr len space n_len : Z) : Z :=
  to_int (Z.min (Z.min (Z.max (u32 len) (u32 max_protohdr)) (u32 space)) (u32 n_len)).

(** The loop of [m_pullup] and of [m_copyup], which moves bytes from the chain [n] to the
    end of [m]; it is entered with a chain that is not empty.  When there is no space left
    it would go round for ever. *)
Fixpoint pull_loop (counted : Z -> Z -> Z -> Z) (m : mbuf) (ns : list mbuf) (len space : Z) : eff heap (mbuf * list mbuf * Z) :=
  match ns with
  | [] => eff_opt None
  | n :: ns =>
      let count := counted len space (m_len n) in
      cl ← eff_get clusters;
      v ← eff_opt (bytes_at cl n 0 count);
      m ← copy_to m (m_len m) v;
      let m := set_len m (m_len m + count) in
      let len := len - count in
      if decide (m_len n - count <> 0) then
        let n := set_range n (m_data n + count) (m_len n - count) in
        if decide (0 < len) then eff_opt None else mret (m, n :: ns, len)
      else
        _ ← m_free n;
        match ns with
        | [] => mret (m, [], len)
        | _ => if decide (0 < len) then pull_loop counted m ns len (space - count) else mret (m, ns, len)
        end
  end.

(** Of the two exits, the one that frees the chain. *)
Definition bad (ns : list mbuf) : eff heap (list mbuf) := _ ← m_freem ns; mret [].

Definition pull (counted : Z -> Z -> Z -> Z) (m : mbuf) (ns : list mbuf) (len : Z) : eff heap (list mbuf) :=
  size ← M_SIZE m;
  '(m, ns, len) ← pull_loop counted m ns len (size - (m_data m + m_len m));
  if decide (0 < len) then _ ← m_free m; bad ns else mret (m :: ns).

(** A new mbuf takes over the packet header of [n]. *)
Definition move_header (m n : mbuf) : eff heap (mbuf * mbuf) :=
  match m_pkthdr n with
  | None => mret (m, n)
  | Some _ => m ← m_copy_pkthdr m n; mret (m, set_pkthdr n None)
  end.

Definition m_pullup (max_protohdr : Z) (ns : list mbuf) (len : Z) : eff heap (list mbuf) :=
  match ns with
  | [] => eff_opt None
  | n :: rest =>
      if decide (len < 0 \/ MLEN < len) then bad ns else
      size ← M_SIZE n;
      if decide (m_ext n = None /\ size <= m_data n) then bad ns else
      if decide (m_ext n = None /\ len < size - m_data n /\ rest <> []) then
        if decide (len <= m_len n) then mret ns else pull (pullup_count max_protohdr) n rest (len - m_len n)
      else if decide (MHLEN < len) then bad ns else
      m ← m_get_common false;
      match m with
      | None => bad ns
      | Some m => '(m, n) ← move_header m n; pull (pullup_count max_protohdr) m (n :: rest) len
      end
  end.

(** [MHLEN] is a [size_t]: the difference wraps around for a [dstoff] that is larger. *)
Definition m_copyup (max_protohdr : Z) (ns : list mbuf) (len dstoff : Z) : eff heap (list mbuf) :=
  if decide (0 <= len /\ 0 <= dstoff) then
    if decide (u64 (MHLEN - dstoff) < len) then bad ns else
    match ns with
    | [] => eff_opt None
    | n :: rest =>
        m ← m_get_common false;
        match m with
        | None => bad ns
        | Some m =>
            '(m, n) ← move_header m n;
            pull (copyup_count max_protohdr) (set_range m (m_data m + dstoff) (m_len m)) (n :: rest) len
        end
    end
  else eff_opt None.

(** The mbuf [n] gets the last [remain] bytes of [m], whose first [len] stay: both point
    into the cluster, or they are copied. *)
Definition split_data (m n : mbuf) (len remain : Z) : eff heap (mbuf * mbuf) :=
  match m_ext m with
  | Some k =>
      _ ← m_incref k;
      mret (set_len m len, MkMbuf (m_pkthdr n) (Some k) (m_dat n) (m_data m + len) remain)
  | None =>
      cl ← eff_get clusters;
      v ← eff_opt (bytes_at cl m len remain);
      n ← copy_to n 0 v;
      mret (set_len m len, set_len n remain)
  end.

(** The mbufs before the one with the byte at [len], that one, and those after it. *)
Fixpoint split_seek (ms : list mbuf) (len : Z) : option (list mbuf * mbuf * list mbuf * Z) :=
  match ms with
  | [] => None
  | m :: ms =>
      if decide (u32 (m_len m) < len) then
        '(before, m', after, len) ← split_seek ms (len - u32 (m_len m)); Some (m :: before, m', after, len)
      else Some ([], m, ms, len)
  end.

(** What is left of the chain, and the tail, null when the split fails. *)
Fixpoint m_split0 (fuel : nat) (m0 : list mbuf) (len0 : Z) (copyhdr : bool) : eff heap (list mbuf * list mbuf) :=
  match fuel with
  | O => eff_opt None
  | S fuel =>
      match split_seek m0 (u32 len0) with
      | None => mret (m0, [])
      | Some (before, m, after, len) =>
          let remain := u32 (m_len m - len) in
          match (if copyhdr then head m0 ≫= m_pkthdr else None) with
          | Some h =>
              n ← m_get_common true;
              match n with
              | None => mret (m0, [])
              | Some n =>
                  let n := set_pkthdr n (Some (Pkthdr (rcvif h) (pkt_len h - len0))) in
                  let keep ms := on_header (put_len len0) ms in
                  if decide (remain = 0) then mret (keep (before ++ [m]), n :: after)
                  else if decide (m_ext m <> None) then
                    '(m, n) ← split_data m n len remain; mret (keep (before ++ [m]), n :: after)
                  else if decide (MHLEN < remain) then
                    n ← m_align n 0;
                    let kept := keep (before ++ m :: after) in
                    '(ms, tail) ← m_split0 fuel (drop (length before) kept) len true;
                    match tail with
                    | [] => _ ← m_free n; mret (take (length before) kept ++ ms, [])
                    | _ => mret (take (length before) kept ++ ms, n :: tail)
                    end
                  else
                    n ← m_align n remain;
                    '(m, n) ← split_data m n len remain;
                    mret (keep (before ++ [m]), n :: after)
              end
          | None =>
              if decide (remain = 0) then mret (before ++ [m], after) else
              n ← m_get_common false;
              match n with
              | None => mret (m0, [])
              | Some n =>
                  n ← (match m_ext m with
                       | Some _ => mret n
                       | None => if decide (remain <= MLEN) then m_align n remain else eff_opt None
                       end);
                  '(m, n) ← split_data m n len remain;
                  mret (before ++ [m], n :: after)
              end
          end
      end
  end.

Definition m_split (m0 : list mbuf) (len0 : Z) : eff heap (list mbuf * list mbuf) := m_split0 2 m0 len0 true.

(** New mbufs for the bytes that did not fit, and what is left when one is refused. *)
Fixpoint append_loop (fuel : nat) (cp : list Z) : eff heap (list mbuf * list Z) :=
  match fuel with
  | O => mret ([], cp)
  | S fuel =>
      if decide (cp = []) then mret ([], [])
      else
        n ← m_get_common false;
        match n with
        | None => mret ([], cp)
        | Some n =>
            let len := Z.min MLEN (Z.of_nat (length cp)) in
            n ← copy_to (set_len n len) 0 (take (Z.to_nat len) cp);
            '(ms, rest) ← append_loop fuel (drop (Z.to_nat len) cp);
            mret (n :: ms, rest)
        end
  end.

(** The chain, and whether all bytes were appended. *)
Definition m_append (m0 : list mbuf) (cp : list Z) : eff heap (list mbuf * bool) :=
  match last m0 with
  | None => eff_opt None
  | Some m =>
      space ← M_TRAILINGSPACE m;
      let space := Z.max 0 (Z.min space (Z.of_nat (length cp))) in
      m ← (if decide (0 < space) then copy_to m (m_len m) (take (Z.to_nat space) cp) else mret m);
      '(ms, rest) ← append_loop (length cp) (drop (Z.to_nat space) cp);
      let m := set_len m (m_len m + space) in
      mret (on_header (add_len (Z.of_nat (length cp - length rest))) (take (length m0 - 1) m0 ++ m :: ms),
            bool_decide (rest = []))
  end.

Definition m_prepend (ms : list mbuf) (len : Z) : eff heap (list mbuf) :=
  match ms with
  | [] => eff_opt None
  | m :: rest =>
      mn ← m_get_common false;
      match mn with
      | None => bad ms
      | Some mn =>
          '(mn, m) ← move_header mn m;
          mn ← m_align mn len;
          mret (set_len mn len :: m :: rest)
      end
  end.

(** [aligned]: no alignment is asked for, or it is there.  The space is a [uintptr_t]. *)
Definition m_prepend_2 (ms : list mbuf) (len : Z) (aligned : bool) : eff heap (list mbuf) :=
  match ms with
  | [] => eff_opt None
  | m :: rest =>
      space ← M_LEADINGSPACE m;
      ms ← (if decide (u64 len <= space /\ aligned = true)
            then mret (set_range m (m_data m - len) (m_len m + len) :: rest) else m_prepend ms len);
      mret (on_header (add_len len) ms)
  end.

Definition m_fixhdr (m0 : list mbuf) : option (list mbuf * Z) :=
  match m0 with
  | [] => None
  | m :: _ =>
      match m_pkthdr m with
      | None => None
      | Some _ => let len := m_length2 m0 in Some (on_header (put_len len) m0, len)
      end
  end.

(** ** Copies that share clusters *)

Fixpoint copym_seek (ms : list mbuf) (off : Z) : option (list mbuf * Z) :=
  match ms with
  | [] => None
  | m :: ms' => if decide (m_len m <= off) then copym_seek ms' (off - m_len m) else Some (ms, off)
  end.

(** The mbuf [n] gets the bytes of [m] from [off] on, [len] at most, or points to them;
    with what is still to be copied. *)
Definition copym_one (n m : mbuf) (off len : Z) : eff heap (mbuf * Z) :=
  let count := Z.min len (m_len m - off) in
  n ← (match m_ext m with
       | Some k => _ ← m_incref k; mret (MkMbuf (m_pkthdr n) (Some k) (m_dat n) (m_data m + off) count)
       | None =>
           size ← M_SIZE n;
           let count := Z.min count size in
           if decide (size < m_data n + count) then eff_opt None else
           cl ← eff_get clusters;
           v ← eff_opt (bytes_at cl m off count);
           n ← copy_to n 0 v;
           mret (set_len n count)
       end);
  mret (n, if decide (len = M_COPYALL) then len else len - m_len n).

Fixpoint copym_loop (ms : list mbuf) (off len : Z) (top : list mbuf) : eff heap (list mbuf) :=
  if decide (len <= 0) then mret top else
  match ms with
  | [] => if decide (len = M_COPYALL) then mret top else eff_opt None
  | m :: ms =>
      n ← m_get_common false;
      match n with
      | None => bad top
      | Some n => '(n, len) ← copym_one n m off len; copym_loop ms 0 len (top ++ [n])
      end
  end.

(** [m_copym_mode] as [m_copym] calls it: the header is moved, and no position is
    remembered between calls.  The header goes into an mbuf of its own when the first mbuf
    has no bytes to be copied. *)
Definition m_copym (m0 : list mbuf) (off0 len0 : Z) : eff heap (list mbuf) :=
  match m0 with
  | [] => eff_opt None
  | m :: rest =>
      if decide (off0 < 0 \/ len0 < 0) then eff_opt None else
      '(ms, off) ← eff_opt (copym_seek m0 off0);
      match (if decide (off0 = 0) then m_pkthdr m else None) with
      | None => copym_loop ms off len0 []
      | Some h =>
          if decide (len0 <= 0) then mret [] else
          n ← m_get_common true;
          match n with
          | None => mret []
          | Some n =>
              n ← m_copy_pkthdr n m;
              let n := set_pkthdr n (put_len (if decide (len0 = M_COPYALL) then pkt_len h - off0 else len0) <$> m_pkthdr n) in
              if decide (length ms = length m0) then
                '(n, len) ← copym_one n m off len0; copym_loop rest 0 len [n]
              else copym_loop ms off len0 [n]
          end
      end
  end.
