(* ===== verification/MbufInv.v ===== *)
(** * Chains of mbufs: what the operations do

    Over the definitions of Mbuf.v.  [heap_ok]: every mbuf that is in use has its data
    inside of its area, and the reference count of every cluster is the number of the
    mbufs that point into it, with only clusters that have one reference open for
    writing.  Each operation is specified by a triple that says what becomes of the bytes
    of its chain and that those of all other mbufs stay, although clusters are shared;
    the theorems put them together to runs on a pool of chains. *)
From S2P Require Import Prelude Mbuf.
From stdpp Require Import gmap.

Local Open Scope Z_scope.

(** ** Triples *)

(** The code ends without a fault, and what it returns satisfies [Q]. *)
Definition wp {A} (c : eff heap A) (h : heap) (Q : A -> heap -> Prop) : Prop :=
  exists x h', c h = Some (x, h') /\ Q x h'.

Lemma wp_bind {A B} (c : eff heap A) (k : A -> eff heap B) h Q :
  wp c h (fun x h' => wp (k x) h' Q) -> wp (x ← c; k x) h Q.
Proof.
  intros (x & h' & Hc & y & h'' & Hk & HQ). exists y, h''. split; [|done]. rewrite (eff_bind_run _ _ _ _ _ Hc). done.
Qed.
Lemma wp_ret {A} (x : A) h (Q : A -> heap -> Prop) : Q x h -> wp (mret x) h Q.
Proof. intros. by exists x, h. Qed.
Lemma wp_opt {A} (o : option A) x h (Q : A -> heap -> Prop) : o = Some x -> Q x h -> wp (eff_opt o) h Q.
Proof. intros -> ?. by exists x, h. Qed.
Lemma wp_get {A} (f : heap -> A) h (Q : A -> heap -> Prop) : Q (f h) h -> wp (eff_get f) h Q.
Proof. intros. by exists (f h), h. Qed.
Lemma wp_mono {A} (c : eff heap A) h (Q Q' : A -> heap -> Prop) :
  wp c h Q -> (forall x h', Q x h' -> Q' x h') -> wp c h Q'.
Proof. intros (x & h' & ? & ?) HQ. exists x, h'. auto. Qed.

(** ** The invariant *)

Definition cnt (ms : list mbuf) (k : nat) : nat := length (filter (fun m => m_ext m = Some k) ms).

Definition mbuf_ok (cl : gmap nat cluster) (m : mbuf) : Prop :=
  length (m_dat m) = 288%nat /\ 0 <= m_data m /\ 0 <= m_len m /\
  exists b, area cl m = Some b /\ m_data m + m_len m <= Z.of_nat (length b).

Record heap_ok (h : heap) (all : list mbuf) : Prop := {
  h_mbufs : Forall (mbuf_ok (clusters h)) all;
  h_gets : Forall (fun g => forall d, g = Some d -> length d = 288%nat) (gets h);
  h_refs : forall k c, clusters h !! k = Some c ->
    refcnt c = Z.of_nat (cnt all k) /\ 0 < refcnt c /\ (readonly c = false -> refcnt c = 1)
}.

(** The bytes of an mbuf and of a chain. *)
Definition data (h : heap) (m : mbuf) : list Z := slice (default [] (area (clusters h) m)) (m_data m) (m_len m).
Definition bytes (h : heap) (ms : list mbuf) : list Z := mjoin (data h <$> ms).

Definition agree (h h' : heap) (ms : list mbuf) : Prop := forall m, m ∈ ms -> data h' m = data h m.

#[export] Instance cnt_perm : Proper ((≡ₚ) ==> eq ==> eq) cnt.
Proof. intros l l' Hl k ? <-. unfold cnt. by rewrite Hl. Qed.

#[export] Instance heap_ok_perm h : Proper ((≡ₚ) ==> iff) (heap_ok h).
Proof.
  assert (forall l l', l ≡ₚ l' -> heap_ok h l -> heap_ok h l') as H.
  { intros l l' Hl [H1 H2 H3]. constructor; [by rewrite <- Hl|done|]. intros k c Hk. rewrite <- Hl. by apply H3. }
  intros l l' Hl. split; by apply H.
Qed.

Lemma heap_ok_reorder h l l' : heap_ok h l -> l ≡ₚ l' -> heap_ok h l'.
Proof. by intros ? <-. Qed.
Ltac reorder H := apply (heap_ok_reorder _ _ _ H); cbn [app]; solve_Permutation.

Lemma cnt_cons m ms k : cnt (m :: ms) k = ((if decide (m_ext m = Some k) then 1 else 0) + cnt ms k)%nat.
Proof. unfold cnt. rewrite filter_cons. by case_decide. Qed.
Lemma cnt_app l l' k : cnt (l ++ l') k = (cnt l k + cnt l' k)%nat.
Proof. unfold cnt. by rewrite filter_app, length_app. Qed.
Lemma cnt_le ms k : (cnt ms k <= length ms)%nat.
Proof. unfold cnt. apply length_filter. Qed.
Lemma cnt_zero ms k m : cnt ms k = 0%nat -> m ∈ ms -> m_ext m <> Some k.
Proof.
  intros H Hm He. unfold cnt in H. apply length_zero_iff_nil in H.
  assert (m ∈ filter (fun m => m_ext m = Some k) ms) as Hf by (by apply list_elem_of_filter). rewrite H in Hf. by apply not_elem_of_nil in Hf.
Qed.

Lemma bytes_app h l l' : bytes h (l ++ l') = bytes h l ++ bytes h l'.
Proof. unfold bytes. rewrite fmap_app. by rewrite join_app. Qed.
Lemma bytes_cons h m ms : bytes h (m :: ms) = data h m ++ bytes h ms.
Proof. done. Qed.

Lemma bytes_agree h h' ms : agree h h' ms -> bytes h' ms = bytes h ms.
Proof.
  intros H. unfold bytes. f_equal. apply list_fmap_ext. intros i m Hm. apply H. by eapply list_elem_of_lookup_2.
Qed.
Lemma agree_refl h ms : agree h h ms.
Proof. done. Qed.
Lemma agree_trans h1 h2 h3 ms : agree h1 h2 ms -> agree h2 h3 ms -> agree h1 h3 ms.
Proof. intros H1 H2 m Hm. rewrite H2, H1; done. Qed.
Lemma agree_sub h h' ms ms' : (forall m, m ∈ ms' -> m ∈ ms) -> agree h h' ms -> agree h h' ms'.
Proof. intros Hs H m Hm. by apply H, Hs. Qed.
Lemma agree_clusters h h' ms : clusters h' = clusters h -> agree h h' ms.
Proof. intros H m _. unfold data. by rewrite H. Qed.
#[local] Hint Resolve agree_refl agree_clusters : core.

Lemma length_slice b i n : 0 <= i -> 0 <= n -> i + n <= Z.of_nat (length b) -> length (slice b i n) = Z.to_nat n.
Proof. intros. unfold slice. rewrite length_take, length_drop. lia. Qed.

Lemma length_mdata h m : mbuf_ok (clusters h) m -> length (data h m) = Z.to_nat (m_len m).
Proof. intros (_ & ? & ? & b & Hb & ?). unfold data. rewrite Hb. by apply length_slice. Qed.

Lemma length_bytes h ms : Forall (mbuf_ok (clusters h)) ms -> Z.of_nat (length (bytes h ms)) = chain_len ms.
Proof.
  induction 1 as [|m ms Hm Hms IH]; [done|]. rewrite bytes_cons, length_app, length_mdata by done. cbn. 
  destruct Hm as (_ & _ & ? & _). unfold chain_len in IH. lia.
Qed.

Lemma heap_ok_cons h m o : heap_ok h (m :: o) -> mbuf_ok (clusters h) m.
Proof. intros H. apply (h_mbufs _ _) in H. by apply Forall_cons in H as []. Qed.

Lemma heap_ok_elem h m l : heap_ok h l -> m ∈ l -> mbuf_ok (clusters h) m.
Proof. intros H Hm. apply (h_mbufs _ _) in H. rewrite Forall_forall in H. by apply H. Qed.

(** An mbuf is changed without touching its cluster. *)
Lemma heap_ok_same h m m' o :
  heap_ok h (m :: o) -> m_ext m' = m_ext m -> mbuf_ok (clusters h) m' -> heap_ok h (m' :: o).
Proof.
  intros [H1 H2 H3] He Hm. apply Forall_cons in H1 as [_ H1]. constructor; [by constructor|done|].
  intros k c Hk. specialize (H3 k c Hk). rewrite !cnt_cons in *. by rewrite He.
Qed.

(** ** Storage *)

(** The store is changed where no mbuf of [o] notices. *)
Lemma mbufs_area cl cl' o :
  (forall m, m ∈ o -> area cl' m = area cl m) -> Forall (mbuf_ok cl) o -> Forall (mbuf_ok cl') o.
Proof.
  intros Ha. rewrite !Forall_forall. intros H m Hm. destruct (H m Hm) as (? & ? & ? & b & ? & ?). split_and!; try done.
  exists b. by rewrite Ha.
Qed.
Lemma agree_area h h' o : (forall m, m ∈ o -> area (clusters h') m = area (clusters h) m) -> agree h h' o.
Proof. intros Ha m Hm. unfold data. by rewrite Ha. Qed.

Lemma area_count cl k c r ro m :
  cl !! k = Some c -> area (<[k := Cluster (ext_buf c) r ro]> cl) m = area cl m.
Proof.
  intros Hk. unfold area. destruct (m_ext m) as [k'|]; [|done].
  destruct (decide (k = k')) as [<-|]; [by rewrite lookup_insert_eq, Hk|by rewrite lookup_insert_ne].
Qed.

Lemma ok_cluster cl m k : mbuf_ok cl m -> m_ext m = Some k -> exists c, cl !! k = Some c /\ area cl m = Some (ext_buf c).
Proof.
  intros (_ & _ & _ & b & Hb & _) He. unfold area in *. rewrite He in *. destruct (cl !! k) as [c|]; [|done]. by exists c.
Qed.

Lemma wp_free h m o : heap_ok h (m :: o) -> wp (m_free m) h (fun _ h' => heap_ok h' o /\ agree h h' o /\ gets h' = gets h).
Proof.
  intros [H1 H2 H3]. apply Forall_cons in H1 as [Hm H1]. unfold m_free. destruct (m_ext m) as [k|] eqn:He.
  2: { apply wp_ret. split_and!; [constructor; [done|done|]|done|done].
       intros k c Hk. specialize (H3 _ _ Hk). by rewrite cnt_cons, He, decide_False in H3. }
  destruct (ok_cluster _ _ _ Hm He) as (c & Hk & _). destruct (H3 _ _ Hk) as (Hr & Hpos & Hro).
  rewrite cnt_cons, He, decide_True in Hr by done.
  apply wp_bind, wp_get. apply wp_bind, (wp_opt _ c); [done|]. rewrite decide_False by lia.
  case_decide as Hone; (eexists _, _; split; [done|]; split_and!; [constructor| |]; cbn; try done).
  - assert (forall m', m' ∈ o -> area (delete k (clusters h)) m' = area (clusters h) m') as Ha.
    { intros m' Hm'. unfold area. pose proof (cnt_zero o k m' ltac:(lia) Hm') as Hne. destruct (m_ext m') as [k'|]; [|done].
      rewrite lookup_delete_ne; congruence. }
    by apply (mbufs_area (clusters h)).
  - intros k' c' [Hne Hk']%lookup_delete_Some. specialize (H3 _ _ Hk').
    rewrite cnt_cons, He, decide_False in H3 by congruence. done.
  - apply agree_area. cbn. intros m' Hm'. unfold area. pose proof (cnt_zero o k m' ltac:(lia) Hm') as Hne.
    destruct (m_ext m') as [k'|]; [|done]. rewrite lookup_delete_ne; congruence.
  - apply (mbufs_area (clusters h)); [|done]. intros m' _. by apply area_count.
  - intros k' c' [[<- <-]|[Hne Hk']]%lookup_insert_Some; cbn.
    + split_and!; [lia|lia|]. intros Hr'. specialize (Hro Hr'). lia.
    + specialize (H3 _ _ Hk'). rewrite cnt_cons, He, decide_False in H3 by congruence. done.
  - apply agree_area. cbn. intros m' _. by apply area_count.
Qed.

Lemma wp_freem h ms o : heap_ok h (ms ++ o) -> wp (m_freem ms) h (fun _ h' => heap_ok h' o /\ agree h h' o).
Proof.
  revert h. induction ms as [|m ms IH]; intros h H; cbn; [by apply wp_ret|].
  apply wp_bind. eapply wp_mono; [by apply (wp_free h m (ms ++ o))|]. intros _ h' (H' & Ha & _).
  eapply wp_mono; [by apply IH|]. intros _ h'' [H'' Ha']. split; [done|]. eapply agree_trans; [|exact Ha'].
  eapply agree_sub; [|exact Ha]. intros m' Hm'. rewrite elem_of_app. by right.
Qed.

(** A new mbuf has nothing in it. *)
Definition fresh (hdr : bool) (n : mbuf) : Prop :=
  m_ext n = None /\ m_data n = 0 /\ m_len n = 0 /\ length (m_dat n) = 288%nat /\
  m_pkthdr n = (if hdr then Some (Pkthdr 0 0) else None).

Lemma heap_ok_new h n o :
  heap_ok h o -> m_ext n = None -> length (m_dat n) = 288%nat -> 0 <= m_data n -> 0 <= m_len n ->
  m_data n + m_len n <= 288 -> heap_ok h (n :: o).
Proof.
  intros [H1 H2 H3] He Hl Hd Hn Hs. constructor; [constructor; [|done]|done|].
  - split_and!; try done. exists (m_dat n). unfold area. rewrite He, Hl. done.
  - intros k c Hk. rewrite cnt_cons, He, decide_False by done. by apply H3.
Qed.

(** The allocator has nothing. *)
Definition refused (h : heap) : Prop := match gets h with Some _ :: _ => False | _ => True end.

Lemma wp_new h o hdr :
  heap_ok h o ->
  wp (m_get_common hdr) h (fun r h' => clusters h' = clusters h /\ heap_ok h' o /\
    match r with Some n => fresh hdr n | None => refused h end).
Proof.
  intros [H1 H2 H3]. unfold wp, m_get_common, refused. destruct (gets h) as [|[d|] g] eqn:Hg.
  - eexists _, _. split; [done|]. split_and!; [done| |done]. constructor; [done|by rewrite Hg|done].
  - eexists _, _. split; [done|]. apply Forall_cons in H2 as [Hd H2]. split_and!; [done|by constructor|].
    repeat split. by apply Hd.
  - eexists _, _. split; [done|]. apply Forall_cons in H2 as [_ H2]. split_and!; [done|by constructor|done].
Qed.

(** The request number [i] from now on is refused. *)
Definition refused_at (h : heap) (i : nat) : Prop := match gets h !! i with Some (Some _) => False | _ => True end.

Lemma get_gets hdr h n h' : m_get_common hdr h = Some (Some n, h') -> gets h' = drop 1 (gets h).
Proof. unfold m_get_common. destruct (gets h) as [|[d|] g]; [done| |done]. by intros [= _ <-]. Qed.
Lemma refused_first h : refused h -> refused_at h 0.
Proof. unfold refused, refused_at. destruct (gets h) as [|[d|] g]; done. Qed.

Lemma wp_size h m : mbuf_ok (clusters h) m ->
  wp (M_SIZE m) h (fun n h' => h' = h /\ exists b, area (clusters h) m = Some b /\ n = Z.of_nat (length b)).
Proof.
  intros (Hd & _ & _ & b & Hb & _). unfold M_SIZE. apply wp_bind, wp_get. unfold area in *. destruct (m_ext m) as [k|] eqn:He.
  - apply wp_bind, (wp_opt _ b); [done|]. apply wp_ret. split; [done|]. by exists b.
  - apply wp_ret. split; [done|]. exists b. injection Hb as <-. rewrite Hd. done.
Qed.

(** Copies into the area of an mbuf of its own. *)
Lemma wp_copy_own h m off v :
  m_ext m = None -> 0 <= m_data m + off -> m_data m + off + Z.of_nat (length v) <= Z.of_nat (length (m_dat m)) ->
  wp (copy_to m off v) h (fun m' h' => h' = h /\ m' = set_dat m (splice (m_dat m) (m_data m + off) v)).
Proof.
  intros He H0 H1. unfold copy_to. apply wp_bind, wp_get. apply wp_bind, (wp_opt _ (m_dat m)); [unfold area; by rewrite He|].
  rewrite decide_True by lia. rewrite He. by apply wp_ret.
Qed.

Lemma bytes_at_ok h m off n :
  mbuf_ok (clusters h) m -> 0 <= off -> 0 <= n -> off + n <= m_len m ->
  bytes_at (clusters h) m off n = Some (slice (data h m) off n).
Proof.
  intros (_ & Hd & Hl & b & Hb & Hs) H0 H1 H2. unfold bytes_at, data. rewrite Hb. cbn. rewrite decide_True by lia.
  f_equal. unfold slice. rewrite skipn_firstn_comm. rewrite take_take, drop_drop. f_equal; [lia|]. f_equal. lia.
Qed.

(** ** Bytes *)

Lemma slice_splice b d n v :
  0 <= d -> 0 <= n -> d + n + Z.of_nat (length v) <= Z.of_nat (length b) ->
  slice (splice b (d + n) v) d (n + Z.of_nat (length v)) = slice b d n ++ v.
Proof.
  intros Hd Hn Hl. unfold slice, splice. rewrite drop_app_le by (rewrite length_take; lia).
  rewrite take_app_ge by (rewrite length_drop, length_take; lia). rewrite skipn_firstn_comm. f_equal.
  - f_equal. lia.
  - rewrite length_take, length_drop. rewrite take_app_le by lia. apply take_ge. lia.
Qed.

Lemma length_splice b i v :
  0 <= i -> i + Z.of_nat (length v) <= Z.of_nat (length b) -> length (splice b i v) = length b.
Proof. intros. unfold splice. rewrite !length_app, length_take, length_drop. lia. Qed.

Lemma slice_app_l b1 b2 i n :
  0 <= i -> 0 <= n -> i + n <= Z.of_nat (length b1) -> slice (b1 ++ b2) i n = slice b1 i n.
Proof. intros. unfold slice. rewrite drop_app_le by lia. rewrite take_app_le; [done|]. rewrite length_drop. lia. Qed.
Lemma slice_app_split b1 b2 i n :
  0 <= i -> i <= Z.of_nat (length b1) <= i + n ->
  slice (b1 ++ b2) i n = slice b1 i (Z.of_nat (length b1) - i) ++ slice b2 0 (n - (Z.of_nat (length b1) - i)).
Proof.
  intros. unfold slice. rewrite drop_app_le, take_app_ge by (rewrite ?length_drop; lia). rewrite (take_ge (drop _ b1)) by (rewrite length_drop; lia).
  rewrite drop_0, length_drop. do 2 f_equal. lia.
Qed.

(** Bytes are added at the end of an mbuf that has its own area. *)
Definition extended (m : mbuf) (v : list Z) : mbuf :=
  set_len (set_dat m (splice (m_dat m) (m_data m + m_len m) v)) (m_len m + Z.of_nat (length v)).

Lemma extended_ok h m v o :
  heap_ok h (m :: o) -> m_ext m = None -> m_data m + m_len m + Z.of_nat (length v) <= MLEN ->
  heap_ok h (extended m v :: o) /\ data h (extended m v) = data h m ++ v.
Proof.
  intros H He Hl. pose proof (heap_ok_cons _ _ _ H) as (Hd & H0 & H1 & b & Hb & Hs). split.
  - eapply heap_ok_same; [exact H|done|]. split_and!; cbn; [by rewrite length_splice by lia|done|lia|].
    eexists. unfold area. cbn. rewrite He. split; [done|]. rewrite length_splice; lia.
  - unfold data, area, extended. cbn. rewrite He. cbn. apply slice_splice; lia.
Qed.

(** Part of the data of an mbuf is dropped. *)
Definition shrunk (m m' : mbuf) : Prop :=
  m_ext m' = m_ext m /\ m_dat m' = m_dat m /\ m_data m <= m_data m' /\ 0 <= m_len m' /\
  m_data m' + m_len m' <= m_data m + m_len m.

Lemma shrunk_ok cl m m' : shrunk m m' -> mbuf_ok cl m -> mbuf_ok cl m'.
Proof.
  intros (He & Hd & H1 & H2 & H3) (Hl & H0 & H4 & b & Hb & Hs). unfold area in *. unfold mbuf_ok, area. rewrite He, Hd.
  split_and!; [done|lia|done|]. exists b. split; [done|lia].
Qed.

Lemma shrunk_data h m m' :
  mbuf_ok (clusters h) m -> shrunk m m' -> data h m' = slice (data h m) (m_data m' - m_data m) (m_len m').
Proof.
  intros (Hl & H0 & H4 & b & Hb & Hs) (He & Hd & H1 & H2 & H3). unfold data, area in *. rewrite He, Hd, Hb. cbn.
  unfold slice. rewrite skipn_firstn_comm, take_take, drop_drop. f_equal; [lia|]. f_equal. lia.
Qed.

Lemma shrunk_heap h ms ms' o : Forall2 shrunk ms ms' -> heap_ok h (ms ++ o) -> heap_ok h (ms' ++ o).
Proof.
  intros Hf. revert o. induction Hf as [|m m' ms ms' Hm Hms IH]; intros o H; [done|]. cbn in *.
  apply (heap_ok_same _ m); [|apply Hm|eapply shrunk_ok; [done|by eapply heap_ok_cons]].
  rewrite Permutation_middle in H. apply IH in H. by rewrite <- Permutation_middle in H.
Qed.

Lemma shrunk_refl m : 0 <= m_len m -> shrunk m m.
Proof. intros. repeat split; lia. Qed.

(** ** Triples of the operations *)

(** The chain [ms] takes the place of the one that was given, and the others stay. *)
Definition post (h : heap) (o ms : list mbuf) (h' : heap) : Prop := heap_ok h' (ms ++ o) /\ agree h h' o.

Definition header (ms : list mbuf) : option pkthdr := head ms ≫= m_pkthdr.

Lemma heap_ok_app h ms o : heap_ok h (ms ++ o) -> Forall (mbuf_ok (clusters h)) ms.
Proof. intros H. apply (h_mbufs _ _) in H. by apply Forall_app in H as []. Qed.

Lemma slice_all b n : n = Z.of_nat (length b) -> slice b 0 n = b.
Proof. intros ->. unfold slice. rewrite drop_0. apply take_ge. lia. Qed.

Lemma agree_app h h' l l' : agree h h' (l ++ l') <-> agree h h' l /\ agree h h' l'.
Proof.
  split.
  - intros H. split; intros m Hm; apply H; rewrite elem_of_app; auto.
  - intros [H H'] m. rewrite elem_of_app. intros []; auto.
Qed.
Lemma agree_cons h h' m l : agree h h' (m :: l) <-> data h' m = data h m /\ agree h h' l.
Proof.
  change (m :: l) with ([m] ++ l). rewrite agree_app. apply and_iff_compat_r. split; intros H.
  - apply H. by apply list_elem_of_singleton.
  - intros m' ->%list_elem_of_singleton. done.
Qed.

(** Bytes are copied to the end of an mbuf that has its own area. *)
Lemma wp_fill h m v o :
  heap_ok h (m :: o) -> m_ext m = None -> m_data m + m_len m + Z.of_nat (length v) <= MLEN ->
  wp (copy_to m (m_len m) v) h (fun m' h' => h' = h /\ set_len m' (m_len m' + Z.of_nat (length v)) = extended m v).
Proof.
  intros H He Hl. pose proof (heap_ok_cons _ _ _ H) as (Hd & H0 & H1 & _).
  eapply wp_mono; [apply wp_copy_own; [done|lia|rewrite Hd; lia]|]. intros m' h' [-> ->]. done.
Qed.

Lemma wp_data {B} h m (k : list Z -> eff heap B) Q :
  mbuf_ok (clusters h) m -> wp (k (data h m)) h Q ->
  wp (cl ← eff_get clusters; v ← eff_opt (bytes_at cl m 0 (m_len m)); k v) h Q.
Proof.
  intros Hm HQ. apply wp_bind, wp_get. apply wp_bind, (wp_opt _ (data h m)); [|done]. destruct (Hm) as (_ & _ & H0 & _).
  rewrite bytes_at_ok by (done || lia). f_equal. apply slice_all. rewrite length_mdata by done. lia.
Qed.

Lemma wp_cat_loop h m ns o :
  heap_ok h (m :: ns ++ o) ->
  wp (cat_loop m ns) h (fun r h' => post h o r h' /\ r <> [] /\ bytes h' r = data h m ++ bytes h ns /\ header r = m_pkthdr m).
Proof.
  revert h m. induction ns as [|n ns IH]; intros h m H; cbn [cat_loop]; [by apply wp_ret|].
  destruct (decide (m_ext m <> None \/ MLEN <= m_data m + m_len m + m_len n)) as [|Hd]; [by apply wp_ret|].
  assert (m_ext m = None) as He by (destruct (m_ext m); [exfalso; apply Hd; by left|done]).
  assert (mbuf_ok (clusters h) n) as Hn by (apply (heap_ok_elem _ _ _ H); set_solver).
  apply wp_data; [done|]. pose proof (length_mdata _ _ Hn) as Hdn. destruct (Hn) as (_ & _ & Hn0 & _).
  apply wp_bind. eapply wp_mono; [apply (wp_fill h m _ (n :: ns ++ o) H He); lia|]. intros m' h' [-> Hm'].
  destruct (extended_ok _ _ (data h n) _ H He ltac:(lia)) as [Hx Hdx].
  apply wp_bind. eapply wp_mono; [apply (wp_free h n (extended m (data h n) :: ns ++ o)); reorder Hx|].
  intros _ h' (H' & Ha & _). replace (m_len n) with (Z.of_nat (length (data h n))) by lia. rewrite Hm'.
  apply agree_cons in Ha as [Hax Ha]. apply agree_app in Ha as [Hans Hao].
  eapply wp_mono; [by apply IH|]. intros r h'' ([Hr Har] & Hr0 & Hb & Hh). split_and!.
  - split; [done|by eapply agree_trans].
  - done.
  - rewrite Hb, Hax, Hdx, (bytes_agree _ _ _ Hans), bytes_cons. by rewrite app_assoc.
  - done.
Qed.

(** [m_cat] joins the bytes. *)
Lemma wp_cat h ms ns o :
  ms <> [] -> heap_ok h (ms ++ ns ++ o) ->
  wp (m_cat ms ns) h (fun r h' => post h o r h' /\ r <> [] /\ bytes h' r = bytes h ms ++ bytes h ns /\ header r = header ms).
Proof.
  revert o. induction ms as [|m ms IH]; [done|]. intros o _ H. destruct ms as [|m' ms].
  - cbn [m_cat]. eapply wp_mono; [by apply (wp_cat_loop h m ns o)|]. intros r h' (? & ? & Hb & ?). split_and!; [done|done| |done].
    rewrite Hb, bytes_cons. cbn. by rewrite app_nil_r.
  - change (m_cat (m :: m' :: ms) ns) with (r ← m_cat (m' :: ms) ns; mret (m :: r)). apply wp_bind.
    eapply wp_mono; [apply (IH (m :: o)); [done|reorder H]|]. intros r h' ([Hr Ha] & _ & Hb & _). apply wp_ret.
    apply agree_cons in Ha as [Hm Ha]. split_and!; [split; [reorder Hr|done]|done| |done].
    rewrite !bytes_cons in *. by rewrite Hb, Hm, !app_assoc.
Qed.

(** *** Trimming *)

Lemma shrunk_off cl m n :
  mbuf_ok cl m -> 0 <= n <= m_len m -> shrunk m (set_range m (m_data m + n) (m_len m - n)).
Proof. intros (_ & _ & ? & _) ?. repeat split; cbn; lia. Qed.
Lemma shrunk_len cl m n : mbuf_ok cl m -> 0 <= n <= m_len m -> shrunk m (set_len m n).
Proof. intros (_ & _ & ? & _) ?. repeat split; cbn; lia. Qed.

Lemma data_off h m n :
  mbuf_ok (clusters h) m -> 0 <= n <= m_len m ->
  data h (set_range m (m_data m + n) (m_len m - n)) = drop (Z.to_nat n) (data h m).
Proof.
  intros Hm Hn. rewrite (shrunk_data h m) by (done || by eapply shrunk_off). cbn. unfold slice. rewrite take_ge; [f_equal; lia|].
  rewrite length_drop, length_mdata by done. lia.
Qed.
Lemma data_len h m n :
  mbuf_ok (clusters h) m -> 0 <= n <= m_len m -> data h (set_len m n) = take (Z.to_nat n) (data h m).
Proof.
  intros Hm Hn. rewrite (shrunk_data h m) by (done || by eapply shrunk_len). cbn. unfold slice.
  by replace (m_data m - m_data m) with 0 by lia.
Qed.

Lemma data_empty h m : m_len m = 0 -> data h m = [].
Proof. intros H. unfold data. by rewrite H. Qed.

(** Nothing is left, and the mbufs stay. *)
Lemma cleared h ms :
  Forall (mbuf_ok (clusters h)) ms ->
  Forall2 shrunk ms ((fun m => set_len m 0) <$> ms) /\ bytes h ((fun m => set_len m 0) <$> ms) = [].
Proof.
  induction 1 as [|m ms Hm Hms [IH1 IH2]]; [done|]. rewrite fmap_cons, bytes_cons, IH2, data_empty by done. split; [|done].
  constructor; [|done]. eapply shrunk_len; [done|]. destruct Hm as (_ & _ & ? & _). lia.
Qed.

Lemma shrunk_all h ms : Forall (mbuf_ok (clusters h)) ms -> Forall2 shrunk ms ms.
Proof. induction 1 as [|m ms (_ & _ & ? & _) _ IH]; constructor; [by apply shrunk_refl|done]. Qed.

Lemma adj_head_ok h ms len r len' :
  Forall (mbuf_ok (clusters h)) ms -> 0 <= len -> adj_head ms len = (r, len') ->
  Forall2 shrunk ms r /\ bytes h r = drop (Z.to_nat len) (bytes h ms) /\ header r = header ms /\
  len - len' = Z.min len (chain_len ms).
Proof.
  revert len r len'. induction ms as [|m ms IH]; intros len r len' Hms Hl; cbn [adj_head].
  { intros [= <- <-]. split_and!; [constructor|symmetry; apply drop_nil|done|cbn; lia]. }
  pose proof (length_bytes _ _ Hms) as Hlen. pose proof (shrunk_all _ _ Hms) as Hrefl.
  pose proof Hms as [Hm Hms']%Forall_cons. pose proof (length_bytes _ _ Hms') as Hlen'. destruct (Hm) as (_ & _ & H0 & _).
  change (chain_len (m :: ms)) with (m_len m + chain_len ms) in *.
  destruct (decide (len <= 0)).
  { intros [= <- <-]. replace len with 0 by lia. split_and!; [done|done|done|lia]. }
  destruct (decide (m_len m <= len)).
  - destruct (adj_head ms (len - m_len m)) as [r0 l0] eqn:E. intros [= <- <-].
    destruct (IH (len - m_len m) _ _ Hms' ltac:(lia) E) as (Hs & Hb & Hh & Hc). split_and!; [|rewrite !bytes_cons, Hb|done|lia].
    + constructor; [eapply shrunk_len; [done|lia]|done].
    + rewrite data_empty, drop_app_ge by (done || rewrite length_mdata by done; lia). cbn. f_equal.
      rewrite length_mdata by done. lia.
  - intros [= <- <-]. split_and!; [|rewrite !bytes_cons|done|lia].
    + constructor; [eapply shrunk_off; [done|lia]|by eapply shrunk_all].
    + rewrite data_off by (done || lia). rewrite drop_app_le; [done|]. rewrite length_mdata by done. lia.
Qed.

Lemma adj_tail_ok h ms count :
  ms <> [] -> Forall (mbuf_ok (clusters h)) ms -> 0 <= count <= chain_len ms ->
  exists r, adj_tail ms count = Some r /\ Forall2 shrunk ms r /\ bytes h r = take (Z.to_nat count) (bytes h ms) /\
    header r = header ms.
Proof.
  revert count. induction ms as [|m ms IH]; [done|]. intros count _ Hms Hc. cbn [adj_tail].
  apply Forall_cons in Hms as [Hm Hms]. change (chain_len (m :: ms)) with (m_len m + chain_len ms) in *.
  pose proof (length_mdata _ _ Hm) as Hld. destruct (Hm) as (_ & _ & H0 & _).
  destruct (decide (count <= m_len m)).
  - eexists. split; [done|]. destruct (cleared _ _ Hms) as [Hs Hb]. split_and!; [|rewrite !bytes_cons|done].
    + constructor; [eapply shrunk_len; [done|lia]|done].
    + rewrite Hb, app_nil_r, data_len by (done || lia). rewrite take_app_le by lia. done.
  - destruct (decide (ms = [])) as [->|Hne]; [cbn in Hc; lia|].
    destruct (IH (count - m_len m) Hne Hms ltac:(lia)) as (r & Hr & Hs & Hb & Hh). rewrite Hr. eexists. split; [done|].
    split_and!; [|rewrite !bytes_cons|done].
    + constructor; [by apply shrunk_refl|done].
    + rewrite Hb, take_app_ge by lia. f_equal. f_equal. lia.
Qed.

Lemma shrunk_trans l1 l2 l3 : Forall2 shrunk l1 l2 -> Forall2 shrunk l2 l3 -> Forall2 shrunk l1 l3.
Proof.
  intros H. revert l3. induction H as [|m1 m2 l1 l2 (He & Hd & ? & ? & ?) _ IH]; intros l3 H'; [by inversion H'|].
  apply Forall2_cons_inv_l in H' as (m3 & l3' & (He' & Hd' & ? & ? & ?) & Hl & ->).
  constructor; [|auto]. split_and!; [congruence|congruence|lia..].
Qed.

Lemma shrunk_bytes_ok h ms r : Forall2 shrunk ms r -> Forall (mbuf_ok (clusters h)) ms -> Forall (mbuf_ok (clusters h)) r.
Proof. induction 1 as [|m m' ms r Hm Hr IH]; [done|]. intros [? ?]%Forall_cons. constructor; [by eapply shrunk_ok|auto]. Qed.

Lemma on_header_ok h f ms :
  Forall (mbuf_ok (clusters h)) ms ->
  Forall2 shrunk ms (on_header f ms) /\ bytes h (on_header f ms) = bytes h ms /\ header (on_header f ms) = f <$> header ms.
Proof.
  intros Hms. split_and!; [|by destruct ms|by destruct ms]. pose proof (shrunk_all _ _ Hms) as Hr. destruct ms as [|m ms]; [done|].
  cbn. apply Forall2_cons in Hr as [? ?]. by constructor.
Qed.

(** A packet is a chain with a header that says how long it is. *)
Definition packet (ms : list mbuf) : Prop := exists p, header ms = Some p /\ pkt_len p = chain_len ms.

(** What trimming by [n] bytes leaves. *)
Definition trim {A} (n : Z) (b : list A) : list A :=
  if decide (0 <= n) then drop (Z.to_nat n) b else take (length b - Z.to_nat (- n)) b.

Lemma last_split {A} (l : list A) x : last l = Some x -> l = take (length l - 1) l ++ [x].
Proof.
  intros [l' ->]%last_Some. f_equal. rewrite length_app. cbn. rewrite take_app_le by lia. rewrite take_ge by lia. done.
Qed.

Definition adjusted (h : heap) (n : Z) (ms r : list mbuf) : Prop :=
  Forall2 shrunk ms r /\ bytes h r = trim n (bytes h ms) /\ rcvif <$> header r = rcvif <$> header ms /\
  (packet ms -> packet r).

Lemma header_moved h ms r f :
  Forall (mbuf_ok (clusters h)) r -> header r = f <$> header ms ->
  (forall p, header ms = Some p -> pkt_len p = chain_len ms -> pkt_len (f p) = Z.of_nat (length (bytes h r))) ->
  packet ms -> packet r.
Proof.
  intros Hr Hh Hf (p & Hp & Hl). exists (f p). rewrite Hh, Hp. split; [done|]. rewrite Hf; auto using length_bytes.
Qed.

Lemma adj_front_ok h ms n r len :
  Forall (mbuf_ok (clusters h)) ms -> 0 <= n -> adj_head ms n = (r, len) ->
  adjusted h n ms (on_header (add_len (- (n - len))) r).
Proof.
  intros Hms Hn E. destruct (adj_head_ok _ _ _ _ _ Hms Hn E) as (Hs & Hb & Hh & Hl).
  pose proof (shrunk_bytes_ok _ _ _ Hs Hms) as Hr. destruct (on_header_ok h (add_len (- (n - len))) r Hr) as (Hs' & Hb' & Hh').
  rewrite Hb in Hb'. unfold adjusted, trim. rewrite decide_True by done. split_and!.
  - by eapply shrunk_trans.
  - done.
  - rewrite Hh', Hh. by destruct (header ms).
  - apply (header_moved h _ _ (add_len (- (n - len)))); [by eapply shrunk_bytes_ok|by rewrite Hh', Hh|].
    intros p _ Hp. cbn. rewrite Hb', length_drop, Hp. pose proof (length_bytes _ _ Hms). lia.
Qed.

Lemma adj_last_ok h l m n :
  Forall (mbuf_ok (clusters h)) (l ++ [m]) -> 0 < n <= m_len m ->
  adjusted h (- n) (l ++ [m]) (on_header (add_len (- n)) (l ++ [set_len m (m_len m - n)])).
Proof.
  intros Hms Hn. pose proof Hms as [Hl Hm]%Forall_app. apply Forall_cons in Hm as [Hm _].
  assert (Forall2 shrunk (l ++ [m]) (l ++ [set_len m (m_len m - n)])) as Hs.
  { apply Forall2_app; [by eapply shrunk_all|]. constructor; [eapply shrunk_len; [done|lia]|done]. }
  pose proof (shrunk_bytes_ok _ _ _ Hs Hms) as Hr. destruct (on_header_ok h (add_len (- n)) _ Hr) as (Hs' & Hb' & Hh').
  assert (header (l ++ [set_len m (m_len m - n)]) = header (l ++ [m])) as Hh by (by destruct l).
  assert (bytes h (l ++ [set_len m (m_len m - n)]) = trim (- n) (bytes h (l ++ [m]))) as Hb.
  { unfold trim. rewrite decide_False by lia. rewrite !bytes_app, !bytes_cons, !app_nil_r, data_len by (done || lia).
    rewrite length_app, length_mdata by done. rewrite take_app_ge by lia. do 2 f_equal. lia. }
  rewrite Hb in Hb'. split_and!; [by eapply shrunk_trans|done|rewrite Hh', Hh; by destruct (header (l ++ [m]))|].
  apply (header_moved h _ _ (add_len (- n))); [by eapply shrunk_bytes_ok|by rewrite Hh', Hh|].
  intros p _ Hp. cbn. rewrite Hb', <- Hb, Hp. rewrite (length_bytes _ _ Hr), <- (length_bytes _ _ Hr), <- (length_bytes _ _ Hms).
  rewrite !bytes_app, !length_app, !bytes_cons, !length_app, data_len, length_take, length_mdata by (done || lia). cbn. lia.
Qed.

Lemma adj_back_ok h ms n :
  ms <> [] -> Forall (mbuf_ok (clusters h)) ms -> 0 < n ->
  exists r, adj_tail (on_header (put_len (Z.max 0 (chain_len ms - n))) ms) (Z.max 0 (chain_len ms - n)) = Some r /\
    adjusted h (- n) ms r.
Proof.
  intros Hne Hms Hn. set (count := Z.max 0 (chain_len ms - n)). pose proof (length_bytes _ _ Hms) as Hlen.
  destruct (on_header_ok h (put_len count) _ Hms) as (Hs & Hb & Hh). pose proof (shrunk_bytes_ok _ _ _ Hs Hms) as Hr.
  pose proof (length_bytes _ _ Hr) as Hlen'. rewrite Hb, Hlen in Hlen'.
  destruct (adj_tail_ok h (on_header (put_len count) ms) count) as (r & E & Hs' & Hb' & Hh'); [by destruct ms|done|lia|].
  exists r. split; [done|]. unfold adjusted, trim. rewrite decide_False by lia. split_and!.
  - by eapply shrunk_trans.
  - rewrite Hb', Hb. f_equal. lia.
  - rewrite Hh', Hh. by destruct (header ms).
  - apply (header_moved h _ _ (put_len count)); [by eapply shrunk_bytes_ok|by rewrite Hh', Hh|].
    intros p _ Hp. cbn. rewrite Hb', Hb, length_take. lia.
Qed.

Lemma m_adj_ok h ms n :
  ms <> [] -> Forall (mbuf_ok (clusters h)) ms -> - n <= INT_MAX ->
  exists r, m_adj ms n = Some r /\ adjusted h n ms r.
Proof.
  intros Hne Hms Hn. unfold m_adj. destruct (last ms) as [m|] eqn:El; [|by apply last_None in El].
  destruct (decide (0 <= n)).
  - destruct (adj_head ms n) as [r len] eqn:E. eexists. split; [done|]. by apply adj_front_ok.
  - rewrite decide_True by done. cbn. destruct (decide (- n <= m_len m)).
    + eexists. split; [done|]. replace n with (- - n) at 1 by lia. apply last_split in El. rewrite El in Hms. rewrite El at 1.
      apply adj_last_ok; [done|lia].
    + destruct (adj_back_ok h ms (- n) Hne Hms ltac:(lia)) as (r & E & Hr). rewrite Z.opp_involutive in Hr. by exists r.
Qed.

(** *** Pulling up *)

Lemma chain_len_app l l' : chain_len (l ++ l') = chain_len l + chain_len l'.
Proof. induction l as [|m l IH]; [done|]. change (m_len m + chain_len (l ++ l') = m_len m + chain_len l + chain_len l'). lia. Qed.
Lemma chain_len_nonneg cl ms : Forall (mbuf_ok cl) ms -> 0 <= chain_len ms.
Proof. induction 1 as [|m ms (_ & _ & ? & _) _ IH]; [done|]. change (0 <= m_len m + chain_len ms). lia. Qed.

Lemma wp_take {B} h m n (k : list Z -> eff heap B) Q :
  mbuf_ok (clusters h) m -> 0 <= n <= m_len m -> wp (k (take (Z.to_nat n) (data h m))) h Q ->
  wp (cl ← eff_get clusters; v ← eff_opt (bytes_at cl m 0 n); k v) h Q.
Proof.
  intros Hm Hn HQ. apply wp_bind, wp_get. apply wp_bind, (wp_opt _ (take (Z.to_nat n) (data h m))); [|done].
  rewrite bytes_at_ok by (done || lia). done.
Qed.

(** The loop has moved [len - len'] bytes or more. *)
Definition filled (h : heap) (o : list mbuf) (m : mbuf) (ns : list mbuf) (len : Z) (r : mbuf * list mbuf * Z) (h' : heap) : Prop :=
  let '(m', ns', len') := r in
  post h o (m' :: ns') h' /\ bytes h' (m' :: ns') = data h m ++ bytes h ns /\
  m_pkthdr m' = m_pkthdr m /\ m_data m' = m_data m /\ m_len m' = m_len m + (len - len') /\ (0 < len' -> ns' = []).

(** What the loop needs of the number of bytes that it moves. *)
Definition counts (counted : Z -> Z -> Z -> Z) (n : mbuf) : Prop :=
  forall len space, 0 <= len <= space -> space <= MLEN ->
    0 <= counted len space (m_len n) <= Z.min space (m_len n) /\
    (counted len space (m_len n) < m_len n -> len <= counted len space (m_len n)).

Lemma pullup_counts mp cl n : mbuf_ok cl n -> counts (pullup_count mp) n.
Proof. intros (_ & _ & ? & _) len space ? ?. unfold pullup_count. lia. Qed.

Lemma copyup_counts mp cl n : mbuf_ok cl n -> m_len n <= INT_MAX -> counts (copyup_count mp) n.
Proof.
  intros (_ & _ & ? & _) Hn len space ? ?. unfold copyup_count, to_int.
  assert (0 <= u32 mp) by (apply Z.mod_pos_bound; lia).
  rewrite (wrap_small 32 len), (wrap_small 32 space), (wrap_small 32 (m_len n)) by (split; lia).
  generalize dependent (u32 mp). intros k Hk. case_decide; lia.
Qed.

Lemma pull_loop_counts mp cl ns : Forall (mbuf_ok cl) ns -> Forall (counts (pullup_count mp)) ns.
Proof. intros H. eapply Forall_impl; [exact H|]. intros n. apply pullup_counts. Qed.

Lemma copyup_loop_counts mp cl ns :
  Forall (mbuf_ok cl) ns -> chain_len ns <= INT_MAX -> Forall (counts (copyup_count mp)) ns.
Proof.
  induction 1 as [|n ns Hn Hns IH]; [by constructor|]. change (chain_len (n :: ns)) with (m_len n + chain_len ns).
  pose proof (chain_len_nonneg _ _ Hns). destruct (Hn) as (_ & _ & ? & _). intros Hc.
  constructor; [eapply copyup_counts; [done|lia]|]. apply IH. lia.
Qed.

Lemma wp_pull_loop counted h m ns len space o :
  ns <> [] -> Forall (counts counted) ns -> heap_ok h (m :: ns ++ o) -> m_ext m = None ->
  space = MLEN - (m_data m + m_len m) -> 0 <= len <= space ->
  wp (pull_loop counted m ns len space) h (filled h o m ns len).
Proof.
  intros Hne Hcs. revert h m len space. induction Hcs as [|n ns Hcn Hcs IH]; [done|].
  intros h m len space H He Hs Hl. cbn [pull_loop].
  destruct (heap_ok_cons _ _ _ H) as (_ & Hm0 & Hm1 & _).
  destruct (Hcn len space Hl ltac:(lia)) as [Hcount Hrem]. set (count := counted len space (m_len n)) in *.
  assert (mbuf_ok (clusters h) n) as Hn by (apply (heap_ok_elem _ _ _ H); set_solver).
  pose proof (length_mdata _ _ Hn) as Hdn. destruct (Hn) as (_ & _ & Hn0 & _).
  apply wp_take; [done|lia|]. set (v := take (Z.to_nat count) (data h n)).
  assert (Z.of_nat (length v) = count) as Hv by (subst v; rewrite length_take; lia).
  apply wp_bind. eapply wp_mono; [apply (wp_fill h m v (n :: ns ++ o) H He); lia|]. intros m' h' [-> Hm'].
  destruct (extended_ok _ _ v _ H He ltac:(lia)) as [Hx Hdx]. rewrite <- Hv, Hm', Hv.
  destruct (decide (m_len n - count <> 0)) as [Hrest|Hall].
  - rewrite decide_False by lia. apply wp_ret. split_and!; [split; [|done]| |done|done|cbn; lia|lia].
    + assert (heap_ok h (n :: extended m v :: ns ++ o)) as Hx' by reorder Hx.
      apply (heap_ok_same _ _ (set_range n (m_data n + count) (m_len n - count))) in Hx'; [reorder Hx'|done|].
      eapply shrunk_ok; [|done]. eapply shrunk_off; [done|lia].
    + rewrite !bytes_cons, Hdx, data_off by (done || lia). rewrite <- app_assoc. f_equal. rewrite app_assoc. f_equal. apply take_drop.
  - assert (v = data h n) as Hvn by (subst v; apply take_ge; lia).
    apply wp_bind. eapply wp_mono; [apply (wp_free h n (extended m v :: ns ++ o)); reorder Hx|]. intros _ h' (H' & Ha & _).
    apply agree_cons in Ha as [Hax Ha]. apply agree_app in Ha as [Hans Hao].
    assert (bytes h' (extended m v :: ns) = data h m ++ bytes h (n :: ns)) as Hb.
    { rewrite !bytes_cons, Hax, Hdx, (bytes_agree _ _ _ Hans), Hvn. by rewrite app_assoc. }
    destruct ns as [|n' ns].
    { apply wp_ret. split_and!; [by split|done|done|done|cbn; lia|done]. }
    destruct (decide (0 < len - count)); [|apply wp_ret; split_and!; [by split|done|done|done|cbn; lia|lia]].
    eapply wp_mono; [apply IH; [done|done|done|cbn; lia|lia]|]. intros [[m2 ns2] len2] h2 ([Ho Ha2] & Hb2 & Hh2 & Hd2 & Hl2 & He2).
    split_and!; [split; [done|by eapply agree_trans]| |done|done|rewrite Hl2; cbn; lia|done]. rewrite Hb2. exact Hb.
Qed.

(** Either the bytes are still there, and the first mbuf has [want] of them with [off]
    bytes before it, or for the reason [why] the chain is gone. *)
Definition gathered (h : heap) (o : list mbuf) (b : list Z) (p : option pkthdr) (off want : Z) (why : Prop)
    (r : list mbuf) (h' : heap) : Prop :=
  post h o r h' /\
  match r with
  | [] => why
  | m :: _ => bytes h' r = b /\ m_pkthdr m = p /\ m_data m = off /\ want <= m_len m
  end.

Lemma wp_pull counted h m ns len o :
  ns <> [] -> Forall (counts counted) ns -> heap_ok h (m :: ns ++ o) -> m_ext m = None -> 0 <= len <= MLEN - (m_data m + m_len m) ->
  wp (pull counted m ns len) h
    (gathered h o (data h m ++ bytes h ns) (m_pkthdr m) (m_data m) (m_len m + len)
      (Z.of_nat (length (data h m ++ bytes h ns)) < m_len m + len)).
Proof.
  intros Hne Hcs H He Hl. pose proof (heap_ok_cons _ _ _ H) as Hm. unfold pull. apply wp_bind.
  eapply wp_mono; [by apply wp_size|]. intros size h0 (-> & b & Hb & ->).
  unfold area in Hb. rewrite He in Hb. injection Hb as <-. destruct (Hm) as (Hd & _). rewrite Hd.
  apply wp_bind. eapply wp_mono; [by apply (wp_pull_loop counted h m ns len _ o)|].
  intros [[m' ns'] len'] h' ([Ho Ha] & Hb & Hh & Hd' & Hl' & He'). destruct (decide (0 < len')) as [Hlt|Hge].
  - rewrite (He' Hlt) in *. apply wp_bind. eapply wp_mono; [by apply (wp_free h' m' o)|]. intros _ h'' (Ho' & Ha' & _).
    unfold bad. apply wp_bind, wp_ret. apply wp_ret. split; [split; [done|by eapply agree_trans]|].
    rewrite <- Hb, bytes_cons. cbn. rewrite app_nil_r, length_mdata by (by eapply heap_ok_cons). 
    apply heap_ok_cons in Ho as (_ & _ & ? & _). lia.
  - apply wp_ret. split; [done|]. split_and!; [done|done|done|lia].
Qed.

Lemma bytes_clusters h h' ms : clusters h' = clusters h -> bytes h' ms = bytes h ms.
Proof. intros H. by apply bytes_agree, agree_clusters. Qed.

Lemma post_clusters h h' h'' o r : clusters h' = clusters h -> post h' o r h'' -> post h o r h''.
Proof. intros H [Ho Ha]. split; [done|]. eapply agree_trans; [by apply agree_clusters|exact Ha]. Qed.

Lemma wp_bad h ms o : heap_ok h (ms ++ o) -> wp (bad ms) h (fun r h' => r = [] /\ post h o [] h').
Proof.
  intros H. unfold bad. apply wp_bind. eapply wp_mono; [by apply (wp_freem h ms o)|]. intros _ h' [? ?]. by apply wp_ret.
Qed.

Lemma wp_move_header h m n :
  fresh false m -> wp (move_header m n) h (fun r h' => h' = h /\ r = (set_pkthdr m (m_pkthdr n), set_pkthdr n None)).
Proof.
  intros (He & Hd & _ & _ & Hp). unfold move_header, m_copy_pkthdr. destruct m as [mp me mdat md ml], n as [np ne ndat nd nl].
  cbn in *. subst. destruct np as [p|]; [|by apply wp_ret]. apply wp_bind, wp_ret. by apply wp_ret.
Qed.

(** A new mbuf at the front takes over the header. *)
Lemma headed h m n rest o off len :
  fresh false m -> heap_ok h (n :: rest ++ o) -> 0 <= off -> 0 <= len -> off + len <= MLEN ->
  heap_ok h (set_range (set_pkthdr m (m_pkthdr n)) off len :: (set_pkthdr n None :: rest) ++ o) /\
  bytes h (set_pkthdr n None :: rest) = bytes h (n :: rest).
Proof.
  intros (He & _ & _ & Hd & _) H ? ? ?. split; [|done]. apply heap_ok_new; try done.
  eapply heap_ok_same; [exact H|done|]. by apply heap_ok_cons in H.
Qed.

Lemma wp_fresh_pull counted h n rest off len o (m : mbuf) :
  Forall (counts counted) (n :: rest) -> fresh false m -> heap_ok h (n :: rest ++ o) -> 0 <= off -> 0 <= len -> off + len <= MLEN ->
  wp (pull counted (set_range (set_pkthdr m (m_pkthdr n)) off 0) (set_pkthdr n None :: rest) len) h
    (gathered h o (bytes h (n :: rest)) (m_pkthdr n) off len (Z.of_nat (length (bytes h (n :: rest))) < len)).
Proof.
  intros Hcs Hf H ? ? ?. destruct (headed h m n rest o off 0 Hf H) as [Ho Hb]; [lia..|].
  eapply wp_mono; [apply (wp_pull counted h _ _ len o); [done|by inversion Hcs; constructor|done|apply Hf|cbn; lia]|]. intros r h' Hg.
  rewrite data_empty, app_nil_l, Hb in Hg by done. exact Hg.
Qed.

Lemma fresh_range m p : fresh false m -> set_pkthdr m p = set_range (set_pkthdr m p) 0 0.
Proof. intros (_ & Hd & Hl & _). destruct m; cbn in *. by subst. Qed.

(** Why [m_pullup] gives a chain up. *)
Definition pullup_fails (h : heap) (ms : list mbuf) (len : Z) : Prop :=
  len < 0 \/ MLEN < len \/ Z.of_nat (length (bytes h ms)) < len \/ refused h \/
  exists m, head ms = Some m /\ m_ext m = None /\ MLEN <= m_data m.

Definition pulled_up (h : heap) (o ms : list mbuf) (len : Z) (r : list mbuf) (h' : heap) : Prop :=
  post h o r h' /\
  match r with
  | [] => pullup_fails h ms len
  | m :: _ => bytes h' r = bytes h ms /\ header r = header ms /\ len <= m_len m
  end.

Lemma wp_size_own h m : mbuf_ok (clusters h) m -> m_ext m = None -> wp (M_SIZE m) h (fun n h' => h' = h /\ n = MLEN).
Proof. intros Hm He. unfold M_SIZE. apply wp_bind, wp_get. rewrite He. by apply wp_ret. Qed.

Lemma wp_pullup_new mp h n rest len o :
  heap_ok h (n :: rest ++ o) -> 0 <= len <= MLEN ->
  wp (m ← m_get_common false;
      match m with
      | None => bad (n :: rest)
      | Some m => '(m, n) ← move_header m n; pull (pullup_count mp) m (n :: rest) len
      end) h (pulled_up h o (n :: rest) len).
Proof.
  intros H Hl. apply wp_bind. eapply wp_mono; [by apply (wp_new h (n :: rest ++ o))|]. intros [m|] h' (Hc & H' & Hr).
  - apply wp_bind. eapply wp_mono; [by apply wp_move_header|]. intros ? ? [-> ->]. rewrite fresh_range by done.
    eapply wp_mono; [apply (wp_fresh_pull (pullup_count mp) h' n rest 0 len o);
      [by eapply pull_loop_counts, (heap_ok_app h' (n :: rest))|done|done|lia..]|]. intros r h'' [Hp Hm]. rewrite (bytes_clusters h h') in Hm by done.
    split; [by eapply post_clusters|]. destruct r as [|m' r]; [by right; right; left|].
    destruct Hm as (? & ? & ? & ?). by split_and!.
  - eapply wp_mono; [by apply (wp_bad h' (n :: rest) o)|]. intros r h'' [-> Hp]. split; [by eapply post_clusters|].
    by right; right; right; left.
Qed.

Lemma wp_pullup mp h ms len o :
  ms <> [] -> heap_ok h (ms ++ o) -> wp (m_pullup mp ms len) h (pulled_up h o ms len).
Proof.
  intros Hne H. destruct ms as [|n rest]; [done|]. unfold m_pullup. pose proof (heap_ok_cons _ _ _ H) as Hn.
  assert (forall P : Prop, P -> (P -> pullup_fails h (n :: rest) len) -> wp (bad (n :: rest)) h (pulled_up h o (n :: rest) len)) as Hbad.
  { intros P HP Hf. eapply wp_mono; [by apply wp_bad|]. intros r h' [-> Hp]. split; [done|]. by apply Hf. }
  destruct (decide (len < 0 \/ MLEN < len)) as [Hr|Hr].
  { eapply Hbad; [exact Hr|]. intros [|]; [by left|by right; left]. }
  apply wp_bind. eapply wp_mono; [by apply wp_size|]. intros size h0 (-> & b & Hb & Hsz).
  assert (m_ext n = None -> size = MLEN) as Hsize.
  { intros He. unfold area in Hb. rewrite He in Hb. injection Hb as <-. destruct Hn as (Hd & _). by rewrite Hsz, Hd. }
  destruct (decide (m_ext n = None /\ size <= m_data n)) as [[He Hx]|_].
  { eapply Hbad; [exact I|]. intros _. do 4 right. exists n. rewrite (Hsize He) in Hx. by split_and!. }
  destruct (decide (m_ext n = None /\ len < size - m_data n /\ rest <> [])) as [(He & Hlt & Hr0)|_].
  - rewrite (Hsize He) in *. destruct (decide (len <= m_len n)).
    { apply wp_ret. split; [done|]. by split_and!. }
    eapply wp_mono; [apply (wp_pull (pullup_count mp) h n rest (len - m_len n) o); try done;
      [by apply heap_ok_app in H; inversion H; eapply pull_loop_counts|lia]|]. intros r h' [Hp Hm]. split; [done|].
    replace (m_len n + (len - m_len n)) with len in Hm by lia. destruct r as [|m' r]; [by right; right; left|].
    destruct Hm as (? & ? & ? & ?). by split_and!.
  - rewrite decide_False by lia. apply wp_pullup_new; [done|lia].
Qed.

Lemma wp_copyup mp h ms len off o :
  ms <> [] -> heap_ok h (ms ++ o) -> chain_len ms <= INT_MAX -> 0 <= len -> 0 <= off <= MHLEN ->
  wp (m_copyup mp ms len off) h (gathered h o (bytes h ms) (header ms) off len
    (MHLEN < len + off \/ Z.of_nat (length (bytes h ms)) < len \/ refused h)).
Proof.
  intros Hne H Hc0 Hl Ho. unfold m_copyup. rewrite decide_True by lia. rewrite (wrap_small 64) by (split; lia).
  destruct (decide (MHLEN - off < len)) as [Hlt|Hle].
  { eapply wp_mono; [by apply wp_bad|]. intros r h' [-> Hp]. split; [done|]. left. lia. }
  destruct ms as [|n rest]; [done|]. apply wp_bind.
  eapply wp_mono; [by apply (wp_new h (n :: rest ++ o))|]. intros [m|] h' (Hc & H' & Hr).
  - apply wp_bind. eapply wp_mono; [by apply wp_move_header|]. intros ? ? [-> ->].
    destruct (Hr) as (_ & Hd0 & Hl0 & _). cbn [m_data m_len set_pkthdr]. rewrite Hd0, Hl0.
    eapply wp_mono; [apply (wp_fresh_pull (copyup_count mp) h' n rest off len o);
      [by eapply copyup_loop_counts; [apply (heap_ok_app h' (n :: rest) o)|]|done|done|lia..]|]. intros r h'' [Hp Hm]. rewrite (bytes_clusters h h') in Hm by done.
    split; [by eapply post_clusters|]. destruct r as [|m' r]; [by right; left|]. destruct Hm as (? & ? & ? & ?). by split_and!.
  - eapply wp_mono; [by apply (wp_bad h' (n :: rest) o)|]. intros r h'' [-> Hp]. split; [by eapply post_clusters|].
    by right; right.
Qed.

(** *** Splitting *)

Lemma align_bounds len : 0 <= len <= MLEN -> 0 <= Z.land (MLEN - len) (Z.lnot 7) <= MLEN - len.
Proof.
  intros H. change (Z.lnot 7) with (Z.lnot (Z.ones 3)). rewrite <- Z.ldiff_land, Z.ldiff_ones_r, Z.shiftl_mul_pow2, Z.shiftr_div_pow2 by lia.
  pose proof (Z.mul_div_le (MLEN - len) (2 ^ 3) ltac:(lia)). pose proof (Z.div_pos (MLEN - len) (2 ^ 3)). lia.
Qed.

Lemma wp_align h m len :
  m_ext m = None -> m_data m = 0 -> 0 <= len <= MLEN ->
  wp (m_align m len) h (fun m' h' => h' = h /\ exists d, m' = set_range m d (m_len m) /\ 0 <= d <= MLEN - len).
Proof.
  intros He Hd Hl. unfold m_align, M_SIZE. apply wp_bind, wp_bind, wp_get. rewrite He. apply wp_ret. rewrite decide_True by done.
  apply wp_ret. split; [done|]. rewrite Hd. eexists. split; [done|]. by apply align_bounds.
Qed.

(** One more mbuf points into the cluster. *)
Lemma wp_incref h m k o n :
  heap_ok h (m :: o) -> m_ext m = Some k -> m_ext n = Some k -> mbuf_ok (clusters h) n -> Z.of_nat (length o) < 65534 ->
  wp (m_incref k) h (fun _ h' => heap_ok h' (n :: m :: o) /\ gets h' = gets h /\ forall m, area (clusters h') m = area (clusters h) m).
Proof.
  intros [H1 H2 H3] He Hen Hn Hlen. pose proof H1 as [Hm Ho]%Forall_cons.
  destruct (ok_cluster _ _ _ Hm He) as (c & Hk & _). destruct (H3 _ _ Hk) as (Hr & Hpos & _).
  pose proof (cnt_le (m :: o) k) as Hle. cbn [length] in Hle.
  unfold m_incref. apply wp_bind, wp_get. apply wp_bind, (wp_opt _ c); [done|].
  assert (u16 (refcnt c + 1) = refcnt c + 1) as -> by (apply wrap_small; split; lia).
  rewrite decide_False by lia. eexists _, _. split; [done|]. cbn. 
  assert (forall m', area (<[k := Cluster (ext_buf c) (refcnt c + 1) (readonly c || bool_decide (1 < refcnt c + 1))]> (clusters h)) m' =
    area (clusters h) m') as Ha by (intros m'; by apply area_count).
  split; [|split; [done|exact Ha]]. constructor; cbn [clusters gets]; [|done|].
  - apply (mbufs_area (clusters h)); [by intros|]. by constructor.
  - intros k' c' [[<- <-]|[Hne Hk']]%lookup_insert_Some; cbn [refcnt readonly]; rewrite cnt_cons, Hen.
    + rewrite decide_True by done. split_and!; [lia|lia|]. rewrite bool_decide_true by lia. by rewrite orb_true_r.
    + rewrite decide_False by congruence. by apply H3.
Qed.

(** What [split_data] needs of the new mbuf. *)
Definition room (n m : mbuf) (remain : Z) : Prop :=
  m_ext n = None /\ length (m_dat n) = 288%nat /\ 0 <= m_data n /\ (m_ext m = None -> m_data n + remain <= MLEN).

Definition split_at (h : heap) (o : list mbuf) (m n : mbuf) (len : Z) (r : mbuf * mbuf) (h' : heap) : Prop :=
  let '(m', n') := r in
  post h o [m'; n'] h' /\ data h' m' = take (Z.to_nat len) (data h m) /\ data h' n' = drop (Z.to_nat len) (data h m) /\
  m_pkthdr m' = m_pkthdr m /\ m_pkthdr n' = m_pkthdr n.

Lemma wp_split_data h m n len o :
  heap_ok h (m :: o) -> room n m (m_len m - len) -> 0 <= len <= m_len m -> Z.of_nat (length o) < 65534 ->
  wp (split_data m n len (m_len m - len)) h (split_at h o m n len).
Proof.
  intros H (Hne & Hnd & Hn0 & Hns) Hl Hlen. pose proof (heap_ok_cons _ _ _ H) as Hm. pose proof (length_mdata _ _ Hm) as Hdm.
  unfold split_data. destruct (m_ext m) as [k|] eqn:He.
  - set (n' := MkMbuf (m_pkthdr n) (Some k) (m_dat n) (m_data m + len) (m_len m - len)).
    assert (forall h', area (clusters h') n' = area (clusters h') m) as Hal by (intros; unfold area; cbn; by rewrite He).
    assert (mbuf_ok (clusters h) n') as Hn.
    { destruct Hm as (_ & ? & ? & b & Hb & ?). split_and!; [done|cbn; lia|cbn; lia|]. exists b. rewrite Hal. split; [done|cbn; lia]. }
    apply wp_bind. eapply wp_mono; [by apply (wp_incref h m k o n')|]. intros _ h' (H' & _ & Ha). apply wp_ret. split_and!; [| | |done|done].
    + split; [|by apply agree_area]. assert (heap_ok h' (m :: n' :: o)) as H'' by reorder H'.
      apply (heap_ok_same _ _ (set_len m len) _) in H''; [exact H''|done|]. eapply shrunk_ok; [by eapply shrunk_len|by eapply heap_ok_cons].
    + rewrite <- data_len by done. unfold data, area in *. specialize (Ha m). cbn. cbn in Ha. by rewrite Ha.
    + rewrite <- data_off by (done || lia). unfold data. rewrite Hal, Ha. unfold area. cbn. by rewrite He.
  - specialize (Hns eq_refl). apply wp_bind, wp_get. apply wp_bind, (wp_opt _ (drop (Z.to_nat len) (data h m))).
    { rewrite bytes_at_ok by (done || lia). f_equal. unfold slice. apply take_ge. rewrite length_drop. lia. }
    set (v := drop (Z.to_nat len) (data h m)). assert (Z.of_nat (length v) = m_len m - len) as Hv by (subst v; rewrite length_drop; lia).
    apply wp_bind. eapply wp_mono; [apply (wp_copy_own h n 0 v); [done|lia|rewrite Hnd; lia]|]. intros n' h' [-> ->]. apply wp_ret.
    split_and!; [split; [|done]|by apply data_len| |done|done].
    + apply (heap_ok_same _ m); [|done|by eapply shrunk_ok; [eapply shrunk_len|]]. 
      assert (heap_ok h (set_len (set_dat n (splice (m_dat n) (m_data n + 0) v)) (m_len m - len) :: m :: o)) as Hx; [|reorder Hx].
      apply heap_ok_new; cbn; [done|done|by rewrite length_splice by lia|lia..].
    + unfold data, area. cbn. rewrite Hne. cbn. rewrite <- Hv. pose proof (slice_splice (m_dat n) (m_data n) 0 v) as Hss.
      rewrite Z.add_0_l in Hss. rewrite Hss by lia. by unfold slice.
Qed.

Lemma split_seek_ok cl ms len :
  Forall (mbuf_ok cl) ms -> chain_len ms <= INT_MAX -> 0 <= len ->
  match split_seek ms len with
  | None => chain_len ms < len \/ ms = []
  | Some (before, m, after, len') =>
      ms = before ++ m :: after /\ len = chain_len before + len' /\ 0 <= len' <= m_len m
  end.
Proof.
  revert len. induction ms as [|m ms IH]; intros len Hms Hc Hl; cbn [split_seek]; [by right|].
  apply Forall_cons in Hms as [(_ & _ & H0 & _) Hms]. pose proof (chain_len_nonneg _ _ Hms).
  change (chain_len (m :: ms)) with (m_len m + chain_len ms) in *.
  assert (u32 (m_len m) = m_len m) as -> by (apply wrap_small; split; lia).
  destruct (decide (m_len m < len)); [|split_and!; [done|cbn; lia|lia..]].
  specialize (IH (len - m_len m) Hms ltac:(lia) ltac:(lia)). destruct (split_seek ms _) as [[[[before m'] after] len']|]; cbn -[chain_len].
  - destruct IH as (-> & ? & ?). change (chain_len (m :: before)) with (m_len m + chain_len before). split_and!; [done|lia..].
  - left. destruct IH as [?| ->]; [lia|]. cbn in *. lia.
Qed.

(** [r] has the first [L] bytes of the chain and [t] the others. *)
Definition cut (h : heap) (o ms : list mbuf) (L : Z) (r t : list mbuf) (h' : heap) : Prop :=
  post h o (r ++ t) h' /\ r <> [] /\ bytes h' r = take (Z.to_nat L) (bytes h ms) /\ bytes h' t = drop (Z.to_nat L) (bytes h ms).

Lemma cut_parts h before m after len :
  Forall (mbuf_ok (clusters h)) (before ++ m :: after) -> 0 <= len <= m_len m ->
  take (Z.to_nat (chain_len before + len)) (bytes h (before ++ m :: after)) =
    bytes h before ++ take (Z.to_nat len) (data h m) /\
  drop (Z.to_nat (chain_len before + len)) (bytes h (before ++ m :: after)) =
    drop (Z.to_nat len) (data h m) ++ bytes h after.
Proof.
  intros [Hb Hm]%Forall_app Hl. apply Forall_cons in Hm as [Hm _]. rewrite bytes_app, bytes_cons.
  pose proof (length_bytes _ _ Hb). pose proof (chain_len_nonneg _ _ Hb). pose proof (length_mdata _ _ Hm).
  rewrite take_app_ge, drop_app_ge by lia. replace (Z.to_nat (chain_len before + len) - length (bytes h before))%nat with (Z.to_nat len) by lia.
  rewrite take_app_le, drop_app_le by lia. done.
Qed.

Lemma cut_at h o before m n after len m' n' h' :
  heap_ok h ((before ++ m :: after) ++ o) -> 0 <= len <= m_len m ->
  split_at h (before ++ after ++ o) m n len (m', n') h' ->
  cut h o (before ++ m :: after) (chain_len before + len) (before ++ [m']) (n' :: after) h'.
Proof.
  intros H Hl ([Ho Ha] & Hm & Hn & _). apply agree_app in Ha as [Hab Ha]. apply agree_app in Ha as [Haa Hao].
  destruct (cut_parts h before m after len) as [Ht Hd]; [by eapply heap_ok_app|done|]. split_and!.
  - split; [reorder Ho|done].
  - by destruct before.
  - rewrite Ht, bytes_app, bytes_cons, app_nil_r, (bytes_agree _ _ _ Hab). by f_equal.
  - rewrite Hd, bytes_cons, (bytes_agree _ _ _ Haa). by f_equal.
Qed.

(** The split is between two mbufs. *)
Lemma cut_between h o before m after t len h' :
  heap_ok h ((before ++ m :: after) ++ o) -> len = m_len m -> clusters h' = clusters h ->
  heap_ok h' ((before ++ [m]) ++ t ++ o) -> bytes h t = bytes h after ->
  cut h o (before ++ m :: after) (chain_len before + len) (before ++ [m]) t h'.
Proof.
  intros H -> Hc H' Ht. pose proof (heap_ok_app _ _ _ H) as Hms. pose proof Hms as [_ Hm]%Forall_app. apply Forall_cons in Hm as [Hm _].
  pose proof (length_mdata _ _ Hm). destruct (Hm) as (_ & _ & Hm0 & _).
  destruct (cut_parts h before m after (m_len m)) as [Htk Hd]; [done|lia|]. split_and!.
  - split; [by rewrite <- app_assoc|by apply agree_clusters].
  - by destruct before.
  - rewrite Htk, bytes_clusters with (h := h) by done. rewrite bytes_app, bytes_cons, app_nil_r. f_equal. symmetry. apply take_ge. lia.
  - rewrite Hd, bytes_clusters with (h := h) by done. rewrite drop_ge by lia. done.
Qed.

Lemma cut_header h o ms L r t h' f : cut h o ms L r t h' -> cut h o ms L (on_header f r) t h'.
Proof.
  intros ([Ho Ha] & Hr0 & Hr & Ht). rewrite <- app_assoc in Ho. pose proof (heap_ok_app _ _ _ Ho) as Hok.
  destruct (on_header_ok h' f _ Hok) as (Hs & Hb & _). split_and!; [split; [|done]|by destruct r|by rewrite Hb|done].
  rewrite <- app_assoc. by eapply shrunk_heap.
Qed.
Lemma cut_clusters h0 h o ms L r t h' : clusters h = clusters h0 -> cut h o ms L r t h' -> cut h0 o ms L r t h'.
Proof. intros Hc (Hp & Hr0 & Hr & Ht). rewrite (bytes_clusters h0 h ms Hc) in Hr, Ht. split_and!; [by eapply post_clusters|done..]. Qed.

(** Either the chain is as it was, for a reason, or it is cut in two packets. *)
Definition splitted (h : heap) (o ms : list mbuf) (len : Z) (r : list mbuf * list mbuf) (h' : heap) : Prop :=
  (r = (ms, []) /\ clusters h' = clusters h /\ heap_ok h' (ms ++ o) /\ (len < 0 \/ chain_len ms < len \/ refused h)) \/
  (0 <= len <= chain_len ms /\ cut h o ms len r.1 r.2 h' /\ header r.1 = put_len len <$> header ms /\
   forall p, header ms = Some p -> header r.2 = Some (Pkthdr (rcvif p) (pkt_len p - len))).

Lemma header_front before m m' after :
  m_pkthdr m' = m_pkthdr m -> header (before ++ [m']) = header (before ++ m :: after).
Proof. by destruct before. Qed.

Lemma on_header_id ms : on_header id ms = ms.
Proof. destruct ms as [|m ms]; [done|]. cbn. f_equal. destruct m as [[q|] ? ? ? ?]; done. Qed.

(** The new mbuf, with the header of the tail if there is one, gets its bytes. *)
Lemma wp_split_new h o before m after len n (f : pkthdr -> pkthdr) (g : list mbuf -> list mbuf) :
  heap_ok h ((before ++ m :: after) ++ o) -> 0 <= len <= m_len m ->
  Z.of_nat (length ((before ++ m :: after) ++ o)) < 65535 ->
  room n m (m_len m - len) -> (forall l, g l = on_header f l) ->
  wp ('(m, n) ← split_data m n len (m_len m - len); mret (g (before ++ [m]), n :: after)) h (fun r h' =>
    cut h o (before ++ m :: after) (chain_len before + len) r.1 r.2 h' /\
    header r.1 = f <$> header (before ++ m :: after) /\ header r.2 = m_pkthdr n).
Proof.
  intros H Hl Hlen Hroom Hg. rewrite !length_app in Hlen. cbn in Hlen. apply wp_bind. eapply wp_mono.
  { apply (wp_split_data h m n len (before ++ after ++ o)); [reorder H|done|done|]. rewrite !length_app. lia. }
  intros [m' n'] h' Hs. apply wp_ret. pose proof Hs as (_ & _ & _ & Hpm & Hpn). cbn [fst snd]. rewrite Hg. split_and!; [| |done].
  - by eapply cut_header, cut_at.
  - pose proof (header_front before m m' after Hpm) as <-. by destruct before.
Qed.

Lemma seek_none cl ms len :
  Forall (mbuf_ok cl) ms -> ms <> [] -> chain_len ms <= INT_MAX -> - INT_MAX - 1 <= len <= INT_MAX ->
  split_seek ms (u32 len) = None -> len < 0 \/ chain_len ms < len.
Proof.
  intros Hms Hne Hc Hl E. destruct (decide (len < 0)) as [|H0]; [by left|]. right.
  pose proof (split_seek_ok cl ms len Hms Hc ltac:(lia)) as H.
  assert (u32 len = len) as Hu by (apply wrap_small; split; lia). rewrite Hu in E. rewrite E in H. by destruct H.
Qed.

Lemma seek_some cl ms len before m after len' :
  Forall (mbuf_ok cl) ms -> chain_len ms <= INT_MAX -> - INT_MAX - 1 <= len <= INT_MAX ->
  split_seek ms (u32 len) = Some (before, m, after, len') ->
  ms = before ++ m :: after /\ len = chain_len before + len' /\ 0 <= len' <= m_len m /\ 0 <= len <= chain_len ms /\
  u32 (m_len m - len') = m_len m - len'.
Proof.
  intros Hms Hc Hl E. assert (0 <= u32 len) as Hu by (apply wrap_range; lia).
  pose proof (split_seek_ok cl ms (u32 len) Hms Hc Hu) as H. rewrite E in H. destruct H as (-> & Hlen & Hl').
  rewrite chain_len_app in *. change (chain_len (m :: after)) with (m_len m + chain_len after) in *.
  apply Forall_app in Hms as [Hb Hm]. apply Forall_cons in Hm as [_ Ha].
  pose proof (chain_len_nonneg _ _ Hb). pose proof (chain_len_nonneg _ _ Ha).
  assert (0 <= len) as Hpos.
  { destruct (decide (0 <= len)); [done|]. exfalso. revert Hlen. unfold u32, wrap.
    rewrite <- (Z.mod_add len 1 (2 ^ 32)) by lia. rewrite Z.mod_small by lia. lia. }
  assert (u32 len = len) as Hu' by (apply wrap_small; split; lia). rewrite Hu' in Hlen. split_and!; [done|lia..|].
  apply wrap_small. split; lia.
Qed.

Lemma splitted_refused h o ms len h' :
  clusters h' = clusters h -> heap_ok h' (ms ++ o) -> refused h -> splitted h o ms len (ms, []) h'.
Proof. intros. left. split_and!; auto. Qed.

Lemma room_fresh hdr n m remain d p :
  fresh hdr n -> 0 <= d <= MLEN - remain -> room (set_range (set_pkthdr n p) d (m_len n)) m remain.
Proof. intros (He & _ & _ & Hd & _) ?. split_and!; [done|done|cbn; lia|cbn; lia]. Qed.
Lemma room_ext hdr n m k remain p : fresh hdr n -> m_ext m = Some k -> room (set_pkthdr n p) m remain.
Proof. intros (He & Hd & _ & Hl & _) Hm. split_and!; [done|done|cbn; lia|by rewrite Hm]. Qed.

Lemma own_len h m : mbuf_ok (clusters h) m -> m_ext m = None -> m_data m + m_len m <= MLEN.
Proof. intros (Hd & _ & _ & b & Hb & Hs) He. unfold area in Hb. rewrite He in Hb. injection Hb as <-. by rewrite Hd in Hs. Qed.

(** The new mbuf makes the tail. *)
Lemma splitted_new h h' o before m after len n (f : pkthdr -> pkthdr) (g : list mbuf -> list mbuf) :
  let ms := before ++ m :: after in
  clusters h' = clusters h -> heap_ok h' (ms ++ o) -> 0 <= len <= m_len m -> Z.of_nat (length (ms ++ o)) < 65535 ->
  room n m (m_len m - len) -> (forall l, g l = on_header f l) -> 0 <= chain_len before + len <= chain_len ms ->
  f <$> header ms = put_len (chain_len before + len) <$> header ms ->
  (forall p, header ms = Some p -> m_pkthdr n = Some (Pkthdr (rcvif p) (pkt_len p - (chain_len before + len)))) ->
  wp ('(m, n) ← split_data m n len (m_len m - len); mret (g (before ++ [m]), n :: after)) h'
    (splitted h o ms (chain_len before + len)).
Proof.
  intros ms Hc H Hl Hlen Hroom Hg Hb Hf Hn. eapply wp_mono; [by apply (wp_split_new h' o before m after len n f g)|].
  intros r h'' (Hcut & H1 & H2). right. split; [done|]. split_and!; [|rewrite H1; exact Hf|intros p Hp; rewrite H2; by apply Hn].
  by eapply cut_clusters.
Qed.

(** The case of a packet, whose tail gets a header. *)
Lemma wp_split_packet fuel h before m after len p o :
  let ms := before ++ m :: after in let len0 := chain_len before + len in
  split_seek ms (u32 len0) = Some (before, m, after, len) -> u32 (m_len m - len) = m_len m - len ->
  heap_ok h (ms ++ o) -> Z.of_nat (length (ms ++ o)) < 65535 -> 0 <= len <= m_len m -> 0 <= len0 <= chain_len ms ->
  header ms = Some p -> wp (m_split0 (S fuel) ms len0 true) h (splitted h o ms len0).
Proof.
  intros ms len0 Hseek Hu H Hlen Hl Hl0 Hp. cbn [m_split0]. rewrite Hseek, Hu. fold (header ms). rewrite Hp.
  apply wp_bind. eapply wp_mono; [by apply (wp_new h (ms ++ o))|].
  intros [n|] h' (Hc & H' & Hr); [|apply wp_ret; by apply splitted_refused]. cbn zeta.
  assert (mbuf_ok (clusters h) m) as Hm by (apply (heap_ok_elem _ _ _ H); set_solver).
  set (n1 := set_pkthdr n (Some (Pkthdr (rcvif p) (pkt_len p - len0)))).
  assert (forall q, header ms = Some q -> m_pkthdr n1 = Some (Pkthdr (rcvif q) (pkt_len q - len0))) as Hn1.
  { intros q. rewrite Hp. by intros [= <-]. }
  destruct (Hr) as (Hne & Hnd & Hnl & Hdl & _). destruct (decide (m_len m - len = 0)) as [Hz|Hnz].
  { apply wp_ret. right. split; [done|]. split_and!; [apply cut_header| |done].
    - apply cut_between; [done|lia|done| |].
      + assert (heap_ok h' (n1 :: (before ++ m :: after) ++ o)) as Hx by (apply heap_ok_new; cbn; (done || lia)). reorder Hx.
      + cbn [snd]. rewrite bytes_cons, data_empty by done. done.
    - cbn [fst]. subst ms. rewrite <- (header_front before m m after eq_refl). by destruct before. }
  destruct (m_ext m) as [k|] eqn:He.
  { rewrite decide_True by done. eapply (splitted_new h h' o before m after len n1 _ (on_header (put_len len0))); try done. by eapply room_ext. }
  rewrite decide_False by auto. pose proof (own_len _ _ Hm He). destruct (Hm) as (_ & Hd0 & _).
  rewrite decide_False by lia. apply wp_bind.
  eapply wp_mono; [apply (wp_align h' _ (m_len m - len)); [done|done|lia]|]. intros n' ? (-> & d & -> & Hd).
  eapply (splitted_new h h' o before m after len _ _ (on_header (put_len len0))); try done. by apply (room_fresh true n).
Qed.

Lemma wp_split_plain fuel copyhdr h before m after len o :
  let ms := before ++ m :: after in let len0 := chain_len before + len in
  split_seek ms (u32 len0) = Some (before, m, after, len) -> u32 (m_len m - len) = m_len m - len ->
  heap_ok h (ms ++ o) -> Z.of_nat (length (ms ++ o)) < 65535 -> 0 <= len <= m_len m -> 0 <= len0 <= chain_len ms ->
  header ms = None -> wp (m_split0 (S fuel) ms len0 copyhdr) h (splitted h o ms len0).
Proof.
  intros ms len0 Hseek Hu H Hlen Hl Hl0 Hp. cbn [m_split0]. rewrite Hseek, Hu. fold (header ms). rewrite Hp.
  replace (if copyhdr then @None pkthdr else None) with (@None pkthdr) by (by destruct copyhdr).
  destruct (decide (m_len m - len = 0)) as [Hz|Hnz].
  { apply wp_ret. right. split; [done|]. split_and!; [apply cut_between; [done|lia|done| |done]| |congruence].
    - reorder H.
    - cbn [fst]. subst ms. rewrite (header_front before m m after eq_refl), Hp. done. }
  apply wp_bind. eapply wp_mono; [by apply (wp_new h (ms ++ o))|].
  intros [n|] h' (Hc & H' & Hr); [|apply wp_ret; by apply splitted_refused].
  assert (mbuf_ok (clusters h) m) as Hm by (apply (heap_ok_elem _ _ _ H); set_solver).
  assert (forall n', room n' m (m_len m - len) ->
    wp ('(m, n) ← split_data m n' len (m_len m - len); mret (before ++ [m], n :: after)) h' (splitted h o ms len0)) as Hs.
  { intros n' Hroom. apply (splitted_new h h' o before m after len n' id (fun l => l)); fold ms; try done;
      [intros l; by rewrite on_header_id|by rewrite Hp|congruence]. }
  destruct (m_ext m) as [k|] eqn:He; apply wp_bind.
  { apply wp_ret, Hs. replace n with (set_pkthdr n (m_pkthdr n)) by (by destruct n). by eapply room_ext. }
  pose proof (own_len _ _ Hm He). destruct (Hm) as (_ & Hd0 & _). rewrite decide_True by lia.
  destruct (Hr) as (Hne & Hnd & _). eapply wp_mono; [apply (wp_align h' _ (m_len m - len)); [done|done|lia]|].
  intros n' ? (-> & d & -> & Hd). apply Hs.
  pose proof (room_fresh false n m (m_len m - len) d (m_pkthdr n) Hr Hd) as Hroom. by destruct n.
Qed.

(** Splitting is never entered again: one unit of fuel is enough. *)
Lemma wp_split h ms len o :
  ms <> [] -> heap_ok h (ms ++ o) -> Z.of_nat (length (ms ++ o)) < 65535 -> chain_len ms <= INT_MAX ->
  - INT_MAX - 1 <= len <= INT_MAX -> wp (m_split ms len) h (splitted h o ms len).
Proof.
  intros Hne H Hlen Hc Hl. pose proof (heap_ok_app _ _ _ H) as Hms. unfold m_split.
  destruct (split_seek ms (u32 len)) as [[[[before m] after] len']|] eqn:Hseek.
  - destruct (seek_some _ _ _ _ _ _ _ Hms Hc Hl Hseek) as (-> & -> & Hl' & Hl0 & Hu).
    destruct (header (before ++ m :: after)) as [p|] eqn:Hp; [by apply (wp_split_packet 1 h before m after len' p o)|].
    by apply (wp_split_plain 1 true h before m after len' o).
  - cbn [m_split0]. rewrite Hseek. apply wp_ret. left. split_and!; [done|done|done|].
    destruct (seek_none _ _ _ Hms Hne Hc Hl Hseek); auto.
Qed.
