(* ===== verification/MbufCopy.v ===== *)
(** * Chains of mbufs: copies

    Over MbufInv.v: [m_copym], whose copy shares the clusters of the chain.  What it copies
    is exactly the range that is asked for, and it gives up only when the allocator does. *)
From S2P Require Import Prelude Mbuf MbufInv.
From stdpp Require Import gmap.

Local Open Scope Z_scope.

Lemma copym_seek_ok h ms off :
  Forall (mbuf_ok (clusters h)) ms -> 0 <= off < chain_len ms ->
  exists ms' off' m, copym_seek ms off = Some (ms', off') /\ head ms' = Some m /\ 0 <= off' < m_len m /\
    (exists before, ms = before ++ ms' /\ chain_len before = off - off').
Proof.
  revert off. induction ms as [|m ms IH]; intros off Hms Ho; [cbn in Ho; lia|]. cbn [copym_seek].
  apply Forall_cons in Hms as [Hm Hms]. change (chain_len (m :: ms)) with (m_len m + chain_len ms) in Ho.
  destruct (Hm) as (_ & _ & H0 & _).
  destruct (decide (m_len m <= off)).
  - destruct (IH (off - m_len m) Hms ltac:(lia)) as (ms' & off' & m' & E & Hh & Hoff & before & -> & Hb).
    exists ms', off', m'. split_and!; [done|done|lia|lia|]. exists (m :: before). split; [done|].
    change (chain_len (m :: before)) with (m_len m + chain_len before). lia.
  - exists (m :: ms), off, m. split_and!; [done|done|lia|lia|]. exists []. split; [done|]. cbn. lia.
Qed.

(** A new mbuf with the bytes of [m], which stays. *)
Definition copied_one (h : heap) (o : list mbuf) (n m : mbuf) (off len : Z) (r : mbuf * Z) (h' : heap) : Prop :=
  let count := Z.min len (m_len m - off) in
  heap_ok h' (r.1 :: o) /\ agree h h' o /\ gets h' = gets h /\ data h' r.1 = slice (data h m) off count /\
  m_pkthdr r.1 = m_pkthdr n /\ r.2 = if decide (len = M_COPYALL) then len else len - count.

Lemma wp_copym_one h n m off len o :
  heap_ok h o -> m ∈ o -> m_ext n = None -> m_data n = 0 -> length (m_dat n) = 288%nat -> 0 <= off <= m_len m -> 0 <= len ->
  Z.of_nat (length o) < 65535 ->
  wp (copym_one n m off len) h (copied_one h o n m off len).
Proof.
  intros H Hin He Hd Hdl Ho Hl Hlen. pose proof (heap_ok_elem _ _ _ H Hin) as Hm. unfold copym_one.
  set (count := Z.min len (m_len m - off)).
  destruct (m_ext m) as [k|] eqn:Hk.
  - set (n' := MkMbuf (m_pkthdr n) (Some k) (m_dat n) (m_data m + off) count).
    assert (forall cl, area cl n' = area cl m) as Hal by (intros; unfold area; cbn; by rewrite Hk).
    assert (mbuf_ok (clusters h) n') as Hn.
    { destruct Hm as (_ & ? & ? & b & Hb & ?). split_and!; [done|cbn; lia|cbn; lia|]. exists b. rewrite Hal. split; [done|cbn; lia]. }
    apply elem_of_Permutation in Hin as [o' Ho']. rewrite Ho' in H, Hlen. cbn [length] in Hlen. 
    apply wp_bind, wp_bind. eapply wp_mono; [apply (wp_incref h m k o' n' H Hk eq_refl Hn); lia|]. intros _ h' (H' & Hg & Ha).
    apply wp_ret, wp_ret. split_and!; [by rewrite Ho'|by apply agree_area|done| |done|done].
    cbn [fst]. unfold data. rewrite Hal, Ha. destruct Hm as (_ & ? & ? & b & -> & ?). cbn. unfold slice.
    rewrite skipn_firstn_comm, take_take, drop_drop. f_equal; [lia|]. f_equal. lia.
  - pose proof (own_len _ _ Hm Hk). destruct (Hm) as (_ & Hm0 & _). apply wp_bind, wp_bind.
    unfold M_SIZE. apply wp_bind, wp_get. rewrite He. apply wp_ret. cbn zeta. rewrite (Z.min_l count) by lia.
    rewrite decide_False by lia. apply wp_bind, wp_get. apply wp_bind, (wp_opt _ (slice (data h m) off count)).
    { apply bytes_at_ok; [done|lia..]. }
    set (v := slice (data h m) off count).
    assert (Z.of_nat (length v) = count) as Hv.
    { unfold v. rewrite length_slice; [lia..|]. rewrite length_mdata by done. lia. }
    apply wp_bind. eapply wp_mono; [apply (wp_copy_own h n 0 v); [done|lia|rewrite Hdl; lia]|]. intros n' h' [-> ->].
    apply wp_ret, wp_ret. split_and!; [|done|done| |done|done].
    + apply heap_ok_new; cbn; [done|done|by rewrite length_splice by lia|lia..].
    + cbn [fst]. unfold data at 1, area. cbn [m_ext m_dat m_data m_len set_dat set_len set_range]. rewrite He, Hd. cbn [default].
      pose proof (slice_splice (m_dat n) 0 0 v) as Hss. rewrite !Z.add_0_l, Hv in Hss.
      change (slice (splice (m_dat n) 0 v) 0 count = v). rewrite Hss by lia. done.
Qed.

(** How many bytes a copy has that starts where [avail] are left. *)
Definition wanted (len avail : Z) : Z := if decide (len = M_COPYALL) then avail else len.

(** The copy is at the end of [top], or the memory was short and [top] is freed. *)
Definition copied (h : heap) (o top ms : list mbuf) (off len : Z) (r : list mbuf) (h' : heap) : Prop :=
  (r = [] /\ post h o [] h' /\ exists i, refused_at h i /\ (i < length ms)%nat) \/
  (exists r', r = top ++ r' /\ heap_ok h' (r' ++ top ++ o) /\ agree h h' (top ++ o) /\
    bytes h' r' = slice (bytes h ms) off (wanted len (chain_len ms - off))).

(** Where the next byte is, and that there are enough. *)
Definition copyable (ms : list mbuf) (off len : Z) : Prop :=
  0 <= off /\ match ms with [] => off = 0 | m :: _ => off = 0 \/ off < m_len m end /\ 0 <= len /\
  (len = M_COPYALL \/ off + len <= chain_len ms) /\ chain_len ms < M_COPYALL.

Lemma slice_nil b off : slice b off 0 = [].
Proof. done. Qed.
Lemma slice_of_nil off n : slice [] off n = [].
Proof. unfold slice. by rewrite drop_nil, take_nil. Qed.

(** What one mbuf and the rest of the chain give. *)
Lemma copied_parts h m ms off len :
  Forall (mbuf_ok (clusters h)) (m :: ms) -> copyable (m :: ms) off len -> 0 < len ->
  let count := Z.min len (m_len m - off) in
  let len' := if decide (len = M_COPYALL) then len else len - count in
  slice (bytes h (m :: ms)) off (wanted len (chain_len (m :: ms) - off)) =
    slice (data h m) off count ++ slice (bytes h ms) 0 (wanted len' (chain_len ms - 0)) /\ copyable ms 0 len'.
Proof.
  intros Hms (Ho & Hoff & Hl & Hen & Hall) Hpos count len'. pose proof Hms as [Hm Hms']%Forall_cons.
  pose proof (length_mdata _ _ Hm) as Hd. destruct (Hm) as (_ & _ & H0 & _). pose proof (chain_len_nonneg _ _ Hms').
  change (chain_len (m :: ms)) with (m_len m + chain_len ms) in *. rewrite bytes_cons. unfold len', wanted.
  destruct (decide (len = M_COPYALL)) as [->|Hne].
  - split; [|split_and!; [lia|by destruct ms; [|left]|lia|by left|lia]]. rewrite slice_app_split by lia. rewrite Hd.
    f_equal; [f_equal; lia|]. rewrite decide_True by done. f_equal. lia.
  - destruct Hen as [|Hen]; [done|]. split; [|split_and!; [lia|by destruct ms; [|left]|lia|right; lia|lia]].
    rewrite decide_False by lia. destruct (decide (len <= m_len m - off)).
    + unfold count. rewrite Z.min_l by lia. rewrite slice_app_l by lia. replace (len - len) with 0 by lia. by rewrite slice_nil, app_nil_r.
    + unfold count. rewrite Z.min_r by lia. rewrite slice_app_split by lia. rewrite Hd, Z2Nat.id by lia. done.
Qed.

Lemma wp_copym_loop h ms off len top o :
  heap_ok h (top ++ o) -> (forall m, m ∈ ms -> m ∈ o) -> copyable ms off len ->
  Z.of_nat (length ms + length (top ++ o)) < 65535 ->
  wp (copym_loop ms off len top) h (copied h o top ms off len).
Proof.
  revert h off len top. induction ms as [|m ms IH]; intros h off len top H Hin Hc Hlen; cbn [copym_loop].
  { destruct Hc as (? & Hoff & Hl & Hen & _). subst off. destruct (decide (len <= 0)).
    - apply wp_ret. right. exists []. rewrite app_nil_r. split_and!; [done|done|done|]. symmetry. apply slice_of_nil.
    - rewrite decide_True by (cbn in Hen; lia). apply wp_ret. right. exists []. rewrite app_nil_r. split_and!; [done|done|done|].
      symmetry. apply slice_of_nil. }
  destruct (decide (len <= 0)) as [Hz|Hz].
  { apply wp_ret. right. exists []. rewrite app_nil_r. split_and!; [done|done|done|]. destruct Hc as (_ & _ & Hl & _).
    replace len with 0 by lia. done. }
  assert (Forall (mbuf_ok (clusters h)) (m :: ms)) as Hms.
  { apply Forall_forall. intros m' Hm'. apply (heap_ok_elem _ _ _ H). apply elem_of_app. right. by apply Hin. }
  destruct (copied_parts h m ms off len Hms Hc ltac:(lia)) as [Hb Hc']. cbn zeta in Hb, Hc'.
  apply wp_bind. destruct (wp_new h (top ++ o) false H) as (r & h1 & Hget & Hcl & H1 & Hr). exists r, h1. split; [done|].
  destruct r as [n|].
  2: { eapply wp_mono; [by apply (wp_bad h1 top o)|]. intros r h2 [-> Hp]. left. split_and!; [done|by eapply post_clusters|].
       exists 0%nat. split; [by apply refused_first|cbn; lia]. }
  destruct Hr as (He & Hd & _ & Hdl & _). rewrite length_app in Hlen. cbn [length] in Hlen.
  destruct Hc as (Ho & Hoff & Hl & _). pose proof Hms as [(_ & _ & Hm0 & _) _]%Forall_cons.
  apply wp_bind. eapply wp_mono.
  { apply (wp_copym_one h1 n m off len (top ++ o)); try done; [apply elem_of_app; right; apply Hin; by left|lia|rewrite length_app; lia]. }
  intros [n' len'] h2 (H2 & Ha & Hg & Hdn & _ & Hlen'). cbn [fst snd] in *. rewrite <- Hlen' in Hb, Hc'.
  assert (agree h h2 (top ++ o)) as Ha2 by (eapply agree_trans; [by apply agree_clusters|exact Ha]).
  assert (agree h h2 ms) as Hams.
  { intros m' Hm'. apply Ha2, elem_of_app. right. apply Hin. by right. }
  eapply wp_mono; [apply (IH h2 0 len' (top ++ [n'])); [reorder H2|intros m' Hm'; apply Hin; by right|done|]|].
  { rewrite !length_app. cbn [length]. lia. }
  intros r h3 [(-> & [Ho3 Ha3] & i & Hi & Hlt)|(r' & -> & Ho3 & Ha3 & Hb3)].
  - left. split_and!; [done|split; [done|]|].
    + eapply agree_trans; [|exact Ha3]. eapply agree_sub; [|exact Ha2]. intros m' Hm'. apply elem_of_app. by right.
    + exists (S i). split; [|cbn; lia]. unfold refused_at in *. by rewrite Hg, (get_gets _ _ _ _ Hget), lookup_drop in Hi.
  - right. exists (n' :: r'). rewrite <- app_assoc. apply agree_app in Ha3 as [Ha3 Ha3o]. apply agree_app in Ha3 as [Ha3t Ha3n].
    split_and!; [done|reorder Ho3| |].
    + eapply agree_trans; [exact Ha2|]. by apply agree_app.
    + rewrite bytes_cons, Hb3, Hb, (bytes_agree _ _ _ Hams). f_equal.
      rewrite (Ha3n n') by (by apply list_elem_of_singleton). rewrite Hdn. f_equal. unfold data. by rewrite Hcl.
Qed.

Lemma slice_app_r b1 b2 i n : 0 <= i -> slice (b1 ++ b2) (Z.of_nat (length b1) + i) n = slice b2 i n.
Proof. intros. unfold slice. rewrite drop_app_ge by lia. do 2 f_equal. lia. Qed.

Definition copy_header (off len : Z) (p : pkthdr) : pkthdr := put_len (if decide (len = M_COPYALL) then pkt_len p - off else len) p.

(** The chain stays; there is a copy of the range, with a header if it begins with the
    packet, or none since it would be empty or the memory is short. *)
Definition copy_of (h : heap) (o ms : list mbuf) (off len : Z) (r : list mbuf) (h' : heap) : Prop :=
  heap_ok h' (r ++ ms ++ o) /\ agree h h' (ms ++ o) /\
  ((r = [] /\ exists i, refused_at h i /\ (i <= length ms)%nat) \/
   (bytes h' r = slice (bytes h ms) off (wanted len (chain_len ms - off)) /\
    (r <> [] -> off = 0 -> header ms <> None -> header r = copy_header off len <$> header ms))).

(** The first mbuf of the copy is there already. *)
Lemma copy_of_first h h1 o ms n ms' off len len' p r h' pre :
  agree h h1 (ms ++ o) -> gets h1 = drop 1 (gets h) -> (length ms' <= length ms)%nat ->
  m_pkthdr n = Some p -> copy_header 0 len <$> header ms = Some p ->
  pre ++ slice (bytes h1 ms') off (wanted len' (chain_len ms' - off)) = slice (bytes h ms) 0 (wanted len (chain_len ms - 0)) ->
  data h1 n = pre ->
  copied h1 (ms ++ o) [n] ms' off len' r h' -> copy_of h o ms 0 len r h'.
Proof.
  intros Ha Hg Hl Hn Hp Hs Hd [(-> & [Ho Ha'] & i & Hi & Hlt)|(r' & -> & Ho & Ha' & Hb)].
  - split_and!; [done|by eapply agree_trans|]. left. split; [done|]. exists (S i). split; [|lia].
    unfold refused_at in *. by rewrite Hg, lookup_drop in Hi.
  - apply agree_app in Ha' as [Han Ha']. split_and!; [reorder Ho|by eapply agree_trans|]. right. split.
    + change ([n] ++ r') with (n :: r'). rewrite bytes_cons, Hb, (Han n), Hd by (by apply list_elem_of_singleton). exact Hs.
    + intros _ _ _. rewrite Hp. exact Hn.
Qed.

(** The range from [off] on of a chain is one of its tail. *)
Lemma tail_range h before ms' off off' n :
  Forall (mbuf_ok (clusters h)) before -> chain_len before = off - off' -> 0 <= off' ->
  slice (bytes h (before ++ ms')) off n = slice (bytes h ms') off' n.
Proof.
  intros Hb Hc Ho. rewrite bytes_app. pose proof (length_bytes _ _ Hb) as Hl. replace off with (Z.of_nat (length (bytes h before)) + off') by lia.
  by apply slice_app_r.
Qed.

Section copym.
Context (h : heap) (o : list mbuf) (m : mbuf) (rest : list mbuf) (len : Z).
Local Abbreviation ms := (m :: rest).
Context (H : heap_ok h (ms ++ o)) (Hlen : Z.of_nat (length ms + length (ms ++ o)) < 65534) (Hl : 0 <= len).
Context (Hall : chain_len ms < M_COPYALL).

Lemma in_frame before ms' x : ms = before ++ ms' -> x ∈ ms' -> x ∈ ms ++ o.
Proof. clear. intros -> Hx. rewrite !elem_of_app. auto. Qed.

(** The copy of a packet begins with its header. *)
Lemma wp_copym_packet p :
  m_pkthdr m = Some p -> 0 < len -> 0 < chain_len ms -> (len = M_COPYALL \/ len <= chain_len ms) ->
  wp (m_copym ms 0 len) h (copy_of h o ms 0 len).
Proof using H Hlen Hl Hall.
  intros Hp Hpos Hne Hen. pose proof (heap_ok_app _ _ _ H) as Hok. unfold m_copym. rewrite decide_False by lia.
  destruct (copym_seek_ok h ms 0 Hok ltac:(lia)) as (ms' & off & x & Hseek & Hx & Hoff & before & Hms & Hb).
  apply wp_bind, (wp_opt _ _ _ _ Hseek). rewrite decide_True by done. rewrite Hp, decide_False by lia.
  pose proof Hok as Hok'. rewrite Hms in Hok'. apply Forall_app in Hok' as [Hokb _].
  pose proof (chain_len_nonneg _ _ Hokb). assert (off = 0) as -> by lia.
  apply wp_bind. destruct (wp_new h (ms ++ o) true H) as (r & h1 & Hget & Hcl & H1 & Hr). exists r, h1. split; [done|].
  destruct r as [n|].
  2: { apply wp_ret. split_and!; [done|by apply agree_clusters|]. left. split; [done|]. exists 0%nat. split; [by apply refused_first|lia]. }
  destruct Hr as (He & Hd & Hn0 & Hdl & _). unfold m_copy_pkthdr. rewrite Hp. apply wp_bind, wp_ret. cbn zeta. rewrite He.
  cbn [m_pkthdr fmap option_fmap option_map]. set (n1 := set_pkthdr _ _).
  assert (agree h h1 (ms ++ o)) as Ha by (by apply agree_clusters). pose proof (get_gets _ _ _ _ Hget) as Hg.
  assert (copy_header 0 len <$> header ms = m_pkthdr n1) as Hhd by (cbn; by rewrite Hp).
  assert (copyable ms 0 len) as Hc by (split_and!; [lia|by left|lia|destruct Hen; auto|done]).
  destruct (decide (length ms' = length ms)) as [Hsame|Hskip].
  - destruct (copied_parts h m rest 0 len Hok Hc Hpos) as [Hb1 Hc']. cbn zeta in Hb1, Hc'. cbn [length app] in Hlen.
    apply wp_bind. eapply wp_mono.
    { apply (wp_copym_one h1 n1 m 0 len (ms ++ o)); try done; [by left| |cbn; lia].
      apply Forall_cons in Hok as [(_ & _ & ? & _) _]. lia. }
    intros [n' len'] h2 (H2 & Ha2 & Hg2 & Hdn & Hpn & Hlen'). cbn [fst snd] in *. rewrite <- Hlen' in Hb1, Hc'.
    assert (agree h h2 (ms ++ o)) as Ha' by (by eapply agree_trans).
    eapply wp_mono; [apply (wp_copym_loop h2 rest 0 len' [n'] (ms ++ o)); [done| |done|cbn; lia]|].
    { intros y Hy. rewrite elem_of_app. left. by right. }
    intros r h3 Hr. eapply (copy_of_first h h2 o ms n' rest 0 len len' _ r h3 (data h2 n')); [done|congruence|cbn; lia|rewrite Hpn; done|done| |done|done].
    rewrite Hb1, Hdn. f_equal; [f_equal; unfold data; by rewrite Hcl|]. f_equal. apply bytes_agree.
    intros y Hy. apply Ha', elem_of_app. left. by right.
  - assert (heap_ok h1 (n1 :: ms ++ o)) as Hn1 by (apply heap_ok_new; cbn; (done || lia)).
    pose proof (length_app before ms') as Hla. rewrite <- Hms in Hla. rewrite length_app in Hlen. cbn [length] in Hla, Hlen.
    assert (chain_len ms = chain_len ms') as Hcc by (rewrite Hms at 1; rewrite chain_len_app; lia).
    eapply wp_mono; [apply (wp_copym_loop h1 ms' 0 len [n1] (ms ++ o)); [done|intros y; by eapply in_frame| |]|].
    { split_and!; [lia|by destruct ms'; [|left]|lia|destruct Hen; [by left|right; lia]|lia]. }
    { rewrite !length_app. cbn. lia. }
    intros r h2 Hr. eapply (copy_of_first h h1 o ms n1 ms' 0 len len _ r h2 (data h1 n1)); [done|done|cbn; lia|done|done| |done|done].
    rewrite (data_empty h1 n1), app_nil_l by done. rewrite (bytes_clusters h h1) by done. rewrite Hms at 1.
    rewrite (tail_range h before ms' 0 0) by (done || lia). by rewrite Hcc.
Qed.

Lemma wp_copym off :
  0 <= off < chain_len ms -> (len = M_COPYALL \/ off + len <= chain_len ms) ->
  wp (m_copym ms off len) h (copy_of h o ms off len).
Proof using H Hlen Hl Hall.
  intros Ho Hen. destruct (decide (off = 0 /\ m_pkthdr m <> None /\ 0 < len)) as [(-> & Hp & Hpos)|Hplain].
  { destruct (m_pkthdr m) as [p|] eqn:E; [|done]. apply (wp_copym_packet p); [done|done|lia|destruct Hen; auto]. }
  pose proof (heap_ok_app _ _ _ H) as Hok. unfold m_copym. rewrite decide_False by lia.
  destruct (copym_seek_ok h ms off Hok Ho) as (ms' & off' & x & Hseek & Hx & Hoff & before & Hms & Hb).
  apply wp_bind, (wp_opt _ _ _ _ Hseek). pose proof Hok as Hok'. rewrite Hms in Hok'. apply Forall_app in Hok' as [Hokb _].
  assert (len = 0 \/ (if decide (off = 0) then m_pkthdr m else None) = None) as [Hz|Hnone].
  { destruct (decide (off = 0)); [|by right]. destruct (m_pkthdr m); [|by right]. left. destruct (decide (0 < len)); [|lia].
    exfalso. apply Hplain. by split_and!. }
  - assert (copy_of h o ms off len [] h) as Hnil.
    { split_and!; [done|done|]. right. split; [|done]. rewrite Hz. done. }
    destruct (if decide (off = 0) then m_pkthdr m else None); [rewrite decide_True by lia; by apply wp_ret|].
    destruct ms' as [|y ms']; [done|]. cbn [copym_loop]. rewrite decide_True by lia. by apply wp_ret.
  - rewrite Hnone. pose proof (length_app before ms') as Hla. rewrite <- Hms in Hla. rewrite length_app in Hlen. cbn [length] in Hla, Hlen.
    assert (chain_len ms - off = chain_len ms' - off') as Hcc by (rewrite Hms at 1; rewrite chain_len_app; lia).
    pose proof (chain_len_nonneg _ _ Hokb) as Hnn.
    eapply wp_mono; [apply (wp_copym_loop h ms' off' len [] (ms ++ o)); [done|intros y; by eapply in_frame| |]|].
    { split_and!; [lia| |lia|destruct Hen; [by left|right; lia]|lia]. destruct ms' as [|y ms']; [done|]. injection Hx as ->. right. lia. }
    { rewrite app_nil_l, !length_app. cbn [length]. lia. }
    intros r h' [(-> & [Ho' Ha] & i & Hi & Hlt)|(r' & -> & Ho' & Ha & Hb')].
    + split_and!; [done|done|]. left. split; [done|]. exists i. split; [done|]. cbn [length]. lia.
    + split_and!; [done|done|]. right. split.
      * rewrite app_nil_l, Hb', Hcc. rewrite Hms. by rewrite (tail_range h before ms' off off') by (done || lia).
      * intros Hr -> Hh. rewrite decide_True in Hnone by done. cbn in Hh. by rewrite Hnone in Hh.
Qed.
End copym.

(** At the end of a chain, and so at the beginning of an empty one, [m_copym] follows the
    null pointer before it looks how much is to be copied. *)
Lemma m_copym_at_end h ms len :
  Forall (fun m => 0 <= m_len m) ms -> m_copym ms (chain_len ms) len h = None.
Proof.
  intros Hms. assert (copym_seek ms (chain_len ms) = None) as Hs.
  { induction Hms as [|m ms Hm Hms IH]; [done|]. change (chain_len (m :: ms)) with (m_len m + chain_len ms). cbn [copym_seek].
    assert (0 <= chain_len ms) as H0.
    { clear IH. induction Hms as [|x l Hx _ IHl]; [done|]. change (0 <= m_len x + chain_len l). lia. }
    rewrite decide_True by lia. by replace (m_len m + chain_len ms - m_len m) with (chain_len ms) by lia. }
  unfold m_copym. destruct ms as [|m ms]; [done|]. case_decide; [done|]. by rewrite Hs.
Qed.
