(* ===== verification/MbufPool.v ===== *)
(** * Chains of mbufs: the theorems

    Over MbufInv.v: the operations that add bytes at either end of a chain, those that
    only read it, and what the operations of Mbuf.v do together. *)
From S2P Require Import Prelude Mbuf MbufInv MbufCopy.
From stdpp Require Import gmap.

Local Open Scope Z_scope.

(** ** Adding bytes *)

(** No other mbuf has the cluster of [m]. *)
Definition sole (o : list mbuf) (m : mbuf) : Prop := forall k, m_ext m = Some k -> cnt o k = 0%nat.

Lemma wp_trailing h m o :
  heap_ok h (m :: o) ->
  wp (M_TRAILINGSPACE m) h (fun n h' => h' = h /\
    (n = 0 \/ sole o m /\ exists b, area (clusters h) m = Some b /\ n = Z.of_nat (length b) - (m_data m + m_len m))).
Proof.
  intros H. pose proof (heap_ok_cons _ _ _ H) as Hm. unfold M_TRAILINGSPACE. apply wp_bind, wp_get.
  assert (exists ro, m_mclhasreference (clusters h) m = Some ro /\ (ro = false -> sole o m)) as (ro & Hro & Hs).
  { unfold m_mclhasreference, sole. destruct (m_ext m) as [k|] eqn:He; [|by exists false].
    destruct (ok_cluster _ _ _ Hm He) as (c & Hk & _). exists (readonly c). rewrite Hk. split; [done|]. intros Hr k' [= <-].
    destruct (h_refs _ _ H _ _ Hk) as (Hc & _ & H1). specialize (H1 Hr). rewrite cnt_cons, He, decide_True in Hc by done. lia. }
  apply wp_bind, (wp_opt _ ro); [done|]. destruct ro.
  - apply wp_ret. auto.
  - apply wp_bind. eapply wp_mono; [by apply wp_size|]. intros size h' (-> & b & Hb & ->). apply wp_ret. split; [done|].
    right. split; [by apply Hs|]. by exists b.
Qed.

(** Bytes are written behind those of an mbuf. *)
Lemma wp_write h m v o b :
  heap_ok h (m :: o) -> sole o m -> area (clusters h) m = Some b ->
  m_data m + m_len m + Z.of_nat (length v) <= Z.of_nat (length b) ->
  wp (copy_to m (m_len m) v) h (fun m' h' => 
    let r := set_len m' (m_len m' + Z.of_nat (length v)) in
    post h o [r] h' /\ data h' r = data h m ++ v /\ m_pkthdr r = m_pkthdr m /\ gets h' = gets h).
Proof.
  intros H Hs Hb Hl. destruct (heap_ok_cons _ _ _ H) as (Hd & H0 & H1 & _). destruct (m_ext m) as [k|] eqn:He.
  2: { assert (b = m_dat m) as -> by (unfold area in Hb; rewrite He in Hb; congruence). rewrite Hd in Hl.
       eapply wp_mono; [by apply (wp_fill h m v o)|]. intros m' h' [-> Hm']. rewrite Hm'.
       destruct (extended_ok _ _ _ _ H He Hl) as [Hx Hdx]. done. }
  destruct (ok_cluster _ _ _ (heap_ok_cons _ _ _ H) He) as (c & Hk & Hb'). rewrite Hb in Hb'. injection Hb' as ->.
  unfold copy_to. apply wp_bind, wp_get. apply wp_bind, (wp_opt _ (ext_buf c)); [done|]. rewrite decide_True by lia. rewrite He.
  apply wp_bind, (wp_opt _ c); [done|]. apply wp_bind. eexists _, _. split; [done|]. apply wp_ret. cbn zeta.
  set (b' := splice (ext_buf c) (m_data m + m_len m) v). set (cl := <[k := _]> _).
  assert (length b' = length (ext_buf c)) as Hlb by (apply length_splice; lia).
  assert (forall m', m' ∈ o -> area cl m' = area (clusters h) m') as Ha.
  { intros m' Hm'. pose proof (cnt_zero o k m' (Hs _ He) Hm') as Hne. unfold area. destruct (m_ext m') as [k'|]; [|done].
    unfold cl. rewrite lookup_insert_ne; congruence. }
  assert (area cl m = Some b') as Ham by (unfold area, cl; rewrite He, lookup_insert_eq; done).
  destruct H as [Hms Hg Hr]. apply Forall_cons in Hms as [_ Ho]. split_and!; [split| |done|done].
  - constructor; [|done|].
    + constructor; [|by apply (mbufs_area (clusters h))]. split_and!; [done|done|cbn; lia|]. exists b'. split; [exact Ham|]. cbn. lia.
    + cbn [clusters]. intros k' c' [[<- <-]|[Hne Hk']]%lookup_insert_Some; cbn [refcnt readonly app]; rewrite cnt_cons; cbn [m_ext set_len set_range];
        rewrite <- (cnt_cons m o); by apply Hr.
  - apply agree_area. exact Ha.
  - unfold data at 1. cbn [clusters]. change (area cl (set_len m (m_len m + Z.of_nat (length v)))) with (area cl m). rewrite Ham. cbn.
    unfold data. rewrite Hb. cbn. apply slice_splice; lia.
Qed.

(** The new mbufs have what they could take, and none is refused without a reason. *)
Lemma wp_append_loop fuel h cp o :
  (length cp <= fuel)%nat -> heap_ok h o ->
  wp (append_loop fuel cp) h (fun r h' => clusters h' = clusters h /\ heap_ok h' (r.1 ++ o) /\ bytes h r.1 ++ r.2 = cp /\
    (r.2 <> [] -> exists i, refused_at h i /\ (288 * i < length cp)%nat)).
Proof.
  revert h cp o. induction fuel as [|fuel IH]; intros h cp o Hf H; cbn [append_loop].
  { destruct cp; [|cbn in Hf; lia]. by apply wp_ret. }
  destruct (decide (cp = [])) as [->|Hne]; [by apply wp_ret|].
  assert (0 < length cp)%nat as Hpos by (destruct cp; [done|cbn; lia]).
  apply wp_bind. destruct (wp_new h o false H) as (r & h' & Hget & Hc & H' & Hr). exists r, h'. split; [done|].
  destruct r as [n|].
  2: { apply wp_ret. split_and!; [done|done|done|]. intros _. exists 0%nat. split; [by apply refused_first|lia]. }
  set (len := Z.min MLEN (Z.of_nat (length cp))). set (v := take (Z.to_nat len) cp).
  assert (Z.of_nat (length v) = len) as Hv by (subst v; rewrite length_take; lia).
  destruct Hr as (He & Hd & Hl & Hdl & _). apply wp_bind. eapply wp_mono.
  { apply (wp_copy_own h' (set_len n len) 0 v); cbn; [done|lia|rewrite Hdl; lia]. }
  intros n' ? [-> ->]. set (n' := set_dat _ _).
  assert (heap_ok h' (n' :: o)) as Hn' by (apply heap_ok_new; cbn; [done|done|by rewrite length_splice by lia|lia..]).
  assert (data h n' = v) as Hdn.
  { unfold n', data, area. cbn [m_ext m_dat m_data m_len set_dat set_len set_range]. rewrite He, Hd. cbn [default]. pose proof (slice_splice (m_dat n) 0 0 v) as Hss. rewrite !Z.add_0_l, Hv in Hss.
    change (slice (splice (m_dat n) 0 v) 0 len = v). rewrite Hss by lia. done. }
  apply wp_bind. eapply wp_mono; [apply (IH h' (drop (Z.to_nat len) cp) (n' :: o)); [rewrite length_drop; lia|done]|].
  intros [ms rest] h'' (Hc' & H'' & Hb & Hw). cbn [fst snd] in *. apply wp_ret. split_and!; [congruence|reorder H''| |].
  - cbn [fst snd]. rewrite bytes_cons, Hdn, <- (bytes_clusters h h') by done. rewrite <- app_assoc, Hb. apply take_drop.
  - intros Hrest. destruct (Hw Hrest) as (i & Hi & Hlt). exists (S i). rewrite length_drop in Hlt. split; [|lia].
    unfold refused_at in *. by rewrite (get_gets _ _ _ _ Hget), lookup_drop in Hi.
Qed.

(** All of the bytes are appended, or the first ones and then the memory is short. *)
Definition appended (h : heap) (o ms : list mbuf) (cp : list Z) (r : list mbuf * bool) (h' : heap) : Prop :=
  post h o r.1 h' /\ r.1 <> [] /\
  exists n, (n <= length cp)%nat /\ bytes h' r.1 = bytes h ms ++ take n cp /\
    header r.1 = add_len (Z.of_nat n) <$> header ms /\ (r.2 = true <-> n = length cp) /\
    (r.2 = false -> exists i, refused_at h i /\ (288 * i < length cp)%nat).

Lemma header_last l m m' ms : m_pkthdr m' = m_pkthdr m -> header (l ++ m' :: ms) = header (l ++ [m]).
Proof. by destruct l. Qed.

(** The first step: what fits behind the last mbuf. *)
Lemma wp_append_last h m o cp space :
  heap_ok h (m :: o) ->
  (space = 0 \/ sole o m /\ exists b, area (clusters h) m = Some b /\ space = Z.of_nat (length b) - (m_data m + m_len m)) ->
  let n := Z.max 0 (Z.min space (Z.of_nat (length cp))) in
  wp (if decide (0 < n) then copy_to m (m_len m) (take (Z.to_nat n) cp) else mret m) h (fun m' h' =>
    let r := set_len m' (m_len m' + n) in
    post h o [r] h' /\ data h' r = data h m ++ take (Z.to_nat n) cp /\ m_pkthdr r = m_pkthdr m /\ gets h' = gets h).
Proof.
  intros H Hs n. destruct (decide (0 < n)) as [Hn|Hn].
  - destruct Hs as [Hs|(Hs & b & Hb & Hsp)]; [lia|].
    assert (Z.of_nat (length (take (Z.to_nat n) cp)) = n) as Hl by (rewrite length_take; lia).
    eapply wp_mono; [apply (wp_write h m (take (Z.to_nat n) cp) o b H Hs Hb); lia|]. intros m' h' Hm'. by rewrite Hl in Hm'.
  - apply wp_ret. replace n with 0 by lia. rewrite Z.add_0_r. replace (set_len m (m_len m)) with m by (by destruct m).
    cbn. rewrite app_nil_r. done.
Qed.

Lemma take_spent {A} (cp b1 rest : list A) n :
  b1 ++ rest = drop n cp -> take n cp ++ b1 = take (length cp - length rest) cp.
Proof.
  intros H. assert (cp = (take n cp ++ b1) ++ rest) as E by (by rewrite <- app_assoc, H, take_drop).
  remember (take n cp ++ b1) as x eqn:Ex. clear Ex H. subst cp. rewrite length_app, take_app_le by lia. rewrite take_ge by lia. done.
Qed.

Lemma wp_append h ms cp o :
  ms <> [] -> heap_ok h (ms ++ o) -> wp (m_append ms cp) h (appended h o ms cp).
Proof.
  intros Hne H. unfold m_append. destruct (last ms) as [m|] eqn:El; [|by apply last_None in El].
  apply last_split in El. set (l := take (length ms - 1) ms) in *. clearbody l. subst ms.
  assert (heap_ok h (m :: l ++ o)) as Hm by reorder H.
  apply wp_bind. eapply wp_mono; [by apply (wp_trailing h m (l ++ o))|]. intros space h0 [-> Hs]. cbn zeta.
  apply wp_bind. eapply wp_mono; [by apply (wp_append_last h m (l ++ o) cp space)|]. cbn zeta.
  set (n := Z.max 0 (Z.min space (Z.of_nat (length cp)))). intros m' h1 ([Ho Ha] & Hd & Hp & Hg).
  set (r := set_len m' (m_len m' + n)) in *. apply agree_app in Ha as [Hal Hao].
  apply wp_bind. eapply wp_mono; [apply (wp_append_loop (length cp) h1 (drop (Z.to_nat n) cp) ([r] ++ l ++ o)); [rewrite length_drop; lia|done]|].
  intros [ms rest] h2 (Hc & H2 & Hb & Hw). cbn [fst snd] in *. apply wp_ret.
  assert (length rest <= length cp)%nat as Hle by (rewrite <- (take_drop (Z.to_nat n) cp), <- Hb, !length_app; lia).
  assert (heap_ok h2 ((l ++ r :: ms) ++ o)) as Hall by reorder H2.
  destruct (on_header_ok h2 (add_len (Z.of_nat (length cp - length rest))) (l ++ r :: ms)) as (Hsh & Hbh & Hhh); [by eapply heap_ok_app|].
  split; [split; [by eapply shrunk_heap|eapply agree_trans; [exact Hao|by apply agree_clusters]]|]. split; [by destruct l|].
  exists (length cp - length rest)%nat. cbn [fst snd]. split_and!; [lia| | | |].
  - rewrite Hbh, (bytes_clusters h1 h2 _ Hc), bytes_app, bytes_cons, Hd, (bytes_agree _ _ _ Hal), bytes_app, bytes_cons.
    rewrite app_nil_r, <- (take_spent cp (bytes h1 ms) rest (Z.to_nat n) Hb). by rewrite <- !app_assoc.
  - rewrite Hhh. f_equal. by apply header_last.
  - rewrite bool_decide_eq_true. destruct rest; cbn in *; split; intros; (done || lia).
  - intros Hf%bool_decide_eq_false. destruct (Hw Hf) as (i & Hi & Hlt). exists i. rewrite length_drop in Hlt. split; [|lia].
    unfold refused_at in *. by rewrite <- Hg.
Qed.

(** The chain with [len] bytes before it that have no meaning yet. *)
Definition prepended (h : heap) (o ms : list mbuf) (len : Z) (r : list mbuf) (h' : heap) : Prop :=
  post h o r h' /\
  match r with
  | [] => refused h
  | m :: _ => m_len m = len /\ bytes h' r = data h' m ++ bytes h ms /\ header r = header ms
  end.

Lemma wp_prepend h ms len o :
  ms <> [] -> heap_ok h (ms ++ o) -> 0 <= len <= MLEN -> wp (m_prepend ms len) h (prepended h o ms len).
Proof.
  intros Hne H Hl. destruct ms as [|m rest]; [done|]. cbn [m_prepend]. apply wp_bind.
  eapply wp_mono; [by apply (wp_new h (m :: rest ++ o))|]. intros [n|] h' (Hc & H' & Hr).
  - apply wp_bind. eapply wp_mono; [by apply wp_move_header|]. intros ? ? [-> ->].
    destruct (Hr) as (He & Hd & _). apply wp_bind. eapply wp_mono; [by apply (wp_align h' _ len)|]. intros n' ? (-> & d & -> & Hdl).
    apply wp_ret. destruct (headed h' n m rest o d len Hr H') as [Ho Hb]; [lia..|]. split; [split; [exact Ho|by apply agree_clusters]|].
    split_and!; [done| |done]. rewrite bytes_cons. f_equal. rewrite Hb. by apply bytes_clusters.
  - eapply wp_mono; [by apply (wp_bad h' (m :: rest) o)|]. intros r h'' [-> Hp]. split; [by eapply post_clusters|done].
Qed.

(** [m_prepend_2] has the header count the new bytes. *)
Definition prepended_2 (h : heap) (o ms : list mbuf) (len : Z) (r : list mbuf) (h' : heap) : Prop :=
  post h o r h' /\
  (r = [] /\ refused h \/ r <> [] /\ header r = add_len len <$> header ms /\
    exists junk, Z.of_nat (length junk) = len /\ bytes h' r = junk ++ bytes h ms).

Lemma wp_leading h m :
  mbuf_ok (clusters h) m -> wp (M_LEADINGSPACE m) h (fun n h' => h' = h /\ 0 <= n <= m_data m).
Proof.
  intros Hm. unfold M_LEADINGSPACE. apply wp_bind, wp_get. destruct (Hm) as (_ & H0 & _).
  assert (exists ro, m_mclhasreference (clusters h) m = Some ro) as (ro & Hro).
  { unfold m_mclhasreference. destruct (m_ext m) as [k|] eqn:He; [|by eexists].
    destruct (ok_cluster _ _ _ Hm He) as (c & -> & _). by eexists. }
  apply wp_bind, (wp_opt _ ro); [done|]. apply wp_ret. split; [done|]. destruct ro; lia.
Qed.

(** The bytes before those of an mbuf are taken in. *)
Lemma reach_back h m rest o len :
  heap_ok h (m :: rest ++ o) -> 0 <= len <= m_data m ->
  let m' := set_range m (m_data m - len) (m_len m + len) in
  heap_ok h (m' :: rest ++ o) /\ exists junk, Z.of_nat (length junk) = len /\ data h m' = junk ++ data h m.
Proof.
  intros H Hl m'. destruct (heap_ok_cons _ _ _ H) as (Hd & H0 & H1 & b & Hb & Hs). split.
  - eapply heap_ok_same; [exact H|done|]. split_and!; [done|cbn; lia|cbn; lia|]. exists b. split; [done|]. cbn. lia.
  - exists (slice b (m_data m - len) len). split; [rewrite length_slice; lia|]. unfold data. change (area (clusters h) m') with (area (clusters h) m).
    rewrite Hb. cbn [default m_data m_len set_range m']. unfold slice.
    replace (Z.to_nat (m_len m + len)) with (Z.to_nat len + Z.to_nat (m_len m))%nat by lia. rewrite <- take_take_drop, drop_drop.
    do 3 f_equal. lia.
Qed.

Lemma prepended_counted h o ms len r h' junk :
  post h o r h' -> r <> [] -> header r = header ms -> Z.of_nat (length junk) = len -> bytes h' r = junk ++ bytes h ms ->
  prepended_2 h o ms len (on_header (add_len len) r) h'.
Proof.
  intros [Ho Ha] Hr Hh Hj Hb. destruct (on_header_ok h' (add_len len) r) as (Hsh & Hbh & Hhh); [by eapply heap_ok_app|].
  split; [split; [by eapply shrunk_heap|done]|]. right. split_and!; [by destruct r|by rewrite Hhh, Hh|]. exists junk. by rewrite Hbh.
Qed.

Lemma wp_prepend_2 h ms len al o :
  ms <> [] -> heap_ok h (ms ++ o) -> 0 <= len <= MLEN -> wp (m_prepend_2 ms len al) h (prepended_2 h o ms len).
Proof.
  intros Hne H Hl. destruct ms as [|m rest]; [done|]. cbn [m_prepend_2]. pose proof (heap_ok_cons _ _ _ H) as Hm.
  apply wp_bind. eapply wp_mono; [by apply wp_leading|]. intros space h0 [-> Hs].
  rewrite (wrap_small 64) by (split; lia). apply wp_bind.
  destruct (decide (len <= space /\ al = true)) as [[Hfit _]|_].
  - destruct (reach_back h m rest o len H ltac:(lia)) as [Ho (junk & Hj & Hd)]. apply wp_ret, wp_ret.
    apply (prepended_counted h o (m :: rest) len _ h junk); [split; [exact Ho|done]|done|done|done|].
    rewrite !bytes_cons, Hd. by rewrite app_assoc.
  - eapply wp_mono; [by apply (wp_prepend h (m :: rest) len o)|]. intros r h' [[Ho Ha] Hr]. apply wp_ret.
    destruct r as [|m' r]; [split; [done|by left]|]. destruct Hr as (Hlen & Hb & Hh).
    apply (prepended_counted h o (m :: rest) len _ h' (data h' m')); [done|done|done| |done].
    rewrite length_mdata by (by eapply heap_ok_cons). apply heap_ok_cons in Ho as (_ & _ & ? & _). lia.
Qed.

(** ** Reading *)

Lemma copydata_seek_ok h ms off :
  Forall (mbuf_ok (clusters h)) ms -> 0 <= off ->
  match copydata_seek ms off with
  | None => chain_len ms < off
  | Some (ms', off') => Forall (mbuf_ok (clusters h)) ms' /\ 0 <= off' <= off /\ bytes h ms' = drop (Z.to_nat (off - off')) (bytes h ms) /\
      chain_len ms' = chain_len ms - (off - off') /\ match ms' with [] => off' = 0 | m :: _ => off' = 0 \/ off' < m_len m end
  end.
Proof.
  revert off. induction ms as [|m ms IH]; intros off Hms Ho; cbn [copydata_seek].
  - destruct (decide (off <= 0)); [|cbn; lia]. replace off with 0 by lia. done.
  - destruct (decide (off <= 0)).
    { replace off with 0 by lia. split; [done|]. split; [lia|]. split_and!; [done|lia|by left]. }
    destruct (decide (off < m_len m)).
    { split; [done|]. split; [lia|]. split_and!; [|lia|by right]. by replace (off - off) with 0 by lia. }
    pose proof Hms as [Hm Hms']%Forall_cons. specialize (IH (off - m_len m) Hms' ltac:(lia)).
    pose proof (length_mdata _ _ Hm) as Hld. destruct (Hm) as (_ & _ & H0 & _).
    change (chain_len (m :: ms)) with (m_len m + chain_len ms).
    destruct (copydata_seek ms (off - m_len m)) as [[ms' off']|]; [|lia]. destruct IH as (H1 & H2 & H3 & H4 & H5).
    split; [done|]. split; [lia|]. split_and!; [|lia|done]. rewrite H3, bytes_cons, drop_app_ge by lia. f_equal. lia.
Qed.

Lemma copydata_loop_ok h ms off len :
  Forall (mbuf_ok (clusters h)) ms -> 0 <= off -> match ms with [] => off = 0 | m :: _ => off = 0 \/ off < m_len m end -> 0 <= len ->
  copydata_loop (clusters h) ms off len = if decide (off + len <= chain_len ms) then Some (slice (bytes h ms) off len) else None.
Proof.
  revert off len. induction ms as [|m ms IH]; intros off len Hms Ho Hoff Hl; cbn [copydata_loop].
  { subst off. destruct (decide (len <= 0)).
    - replace len with 0 by lia. by rewrite decide_True.
    - rewrite decide_False by (cbn; lia). done. }
  pose proof Hms as [Hm Hms']%Forall_cons. pose proof (length_mdata _ _ Hm) as Hd. destruct (Hm) as (_ & _ & Hm0 & _).
  pose proof (chain_len_nonneg _ _ Hms'). change (chain_len (m :: ms)) with (m_len m + chain_len ms). rewrite bytes_cons.
  destruct (decide (len <= 0)). { replace len with 0 by lia. by rewrite decide_True by lia. }
  rewrite bytes_at_ok by (done || lia). cbn [mbind option_bind].
  rewrite (IH 0 (len - Z.min (m_len m - off) len)) by (done || lia || (destruct ms; auto)). rewrite Z.add_0_l.
  destruct (decide (off + len <= m_len m + chain_len ms)).
  - rewrite decide_True by lia. cbn. f_equal. destruct (decide (len <= m_len m - off)).
    + rewrite Z.min_r by lia. rewrite slice_app_l by lia. replace (len - len) with 0 by lia. apply app_nil_r.
    + rewrite Z.min_l by lia. rewrite (slice_app_split (data h m)) by lia. rewrite Hd, Z2Nat.id by lia. done.
  - by rewrite decide_False by lia.
Qed.

(** C26. [m_copydata] copies exactly the bytes from [off] to [off + len] of the chain,
    however they are spread over mbufs and clusters, and it panics exactly when there are
    not that many or an argument is negative. *)
Theorem m_copydata_exact h ms o off len :
  heap_ok h (ms ++ o) ->
  m_copydata (clusters h) ms off len =
    if decide (0 <= off /\ 0 <= len /\ off + len <= Z.of_nat (length (bytes h ms)))
    then Some (slice (bytes h ms) off len) else None.
Proof.
  intros H. pose proof (heap_ok_app _ _ _ H) as Hms. rewrite (length_bytes _ _ Hms). unfold m_copydata.
  destruct (decide (off < 0 \/ len < 0)); [by rewrite decide_False by lia|].
  pose proof (copydata_seek_ok h ms off Hms ltac:(lia)) as Hs. destruct (copydata_seek ms off) as [[ms' off']|]; [|by rewrite decide_False by lia].
  destruct Hs as (Hms' & Ho & Hb & Hc & Hoff). cbn. rewrite (copydata_loop_ok h) by (done || lia || by destruct ms'). rewrite Hb, Hc.
  destruct (decide (off' + len <= chain_len ms - (off - off'))).
  - rewrite decide_True by lia. f_equal. unfold slice. rewrite drop_drop. do 2 f_equal. lia.
  - by rewrite decide_False by lia.
Qed.

Lemma getptr_loop_ok h ms i loc :
  Forall (mbuf_ok (clusters h)) ms -> ms <> [] -> 0 <= loc ->
  match getptr_loop ms i loc with
  | Some (Some (j, off)) => exists n m, j = (i + n)%nat /\ ms !! n = Some m /\ loc = chain_len (take n ms) + off /\
      0 <= off <= m_len m /\ (off < m_len m \/ S n = length ms)
  | Some None => chain_len ms < loc
  | None => False
  end.
Proof.
  revert i loc. induction ms as [|m ms IH]; [done|]. intros i loc Hms _ Hl. cbn [getptr_loop].
  apply Forall_cons in Hms as [(_ & _ & Hm & _) Hms]. change (chain_len (m :: ms)) with (m_len m + chain_len ms).
  destruct (decide (loc < m_len m)) as [Hlt|Hge]. { exists 0%nat, m. split_and!; [lia|done|cbn; lia|lia..|by left]. }
  destruct ms as [|m' ms].
  { destruct (decide (loc - m_len m = 0)); [|cbn; lia]. exists 0%nat, m. split_and!; [lia|done|cbn; lia|lia..|by right]. }
  specialize (IH (S i) (loc - m_len m) Hms ltac:(done) ltac:(lia)).
  destruct (getptr_loop (m' :: ms) (S i) (loc - m_len m)) as [[[j off]|]|]; [|lia|done].
  destruct IH as (n & mn & -> & Hn & Hloc & Hoff & Hlast). exists (S n), mn. split_and!; [lia|done| |lia..|].
  - change (take (S n) (m :: m' :: ms)) with (m :: take n (m' :: ms)).
    change (chain_len (m :: take n (m' :: ms))) with (m_len m + chain_len (take n (m' :: ms))). lia.
  - destruct Hlast; [by left|right; cbn in *; lia].
Qed.

(** The byte that [m_getptr] points at. *)
Lemma m_getptr_byte h ms loc :
  Forall (mbuf_ok (clusters h)) ms -> 0 <= loc < Z.of_nat (length (bytes h ms)) ->
  exists j off m, m_getptr ms loc = Some (Some (j, off)) /\ ms !! j = Some m /\ 0 <= off < m_len m /\
    data h m !! Z.to_nat off = bytes h ms !! Z.to_nat loc.
Proof.
  intros Hms Hl. rewrite (length_bytes _ _ Hms) in Hl. unfold m_getptr. rewrite decide_True by lia.
  pose proof (getptr_loop_ok h ms 0 loc Hms) as Hg.
  destruct (getptr_loop ms 0 loc) as [[[j off]|]|]; [|specialize (Hg ltac:(by intros ->; cbn in Hl; lia) ltac:(lia)); lia|
    exfalso; apply Hg; [by intros ->; cbn in Hl; lia|lia]].
  destruct Hg as (n & m & -> & Hn & Hloc & Hoff & Hlast); [by intros ->; cbn in Hl; lia|lia|].
  pose proof (take_drop_middle ms n m Hn) as Hsplit.
  assert (chain_len ms = chain_len (take n ms) + (m_len m + chain_len (drop (S n) ms))) as Hc by (rewrite <- Hsplit at 1; apply chain_len_app).
  assert (off < m_len m) as Hlt.
  { destruct Hlast as [|Hlast]; [done|]. rewrite (drop_ge ms (S n)) in Hc by lia. cbn in Hc. lia. }
  exists n, off, m. split_and!; [done|done|lia|done|].
  rewrite <- Hsplit at 1. rewrite bytes_app, bytes_cons. pose proof (length_bytes h (take n ms)) as Hlt'.
  specialize (Hlt' ltac:(by apply Forall_take)). rewrite lookup_app_r by lia. rewrite lookup_app_l.
  - f_equal. lia.
  - rewrite length_mdata; [lia|]. rewrite Forall_forall in Hms. apply Hms. by eapply list_elem_of_lookup_2.
Qed.

Lemma m_length2_ok cl ms : Forall (mbuf_ok cl) ms -> chain_len ms <= INT_MAX -> m_length2 ms = chain_len ms.
Proof.
  induction 1 as [|m ms (_ & _ & Hm & _) Hms IH]; [done|]. change (chain_len (m :: ms)) with (m_len m + chain_len ms).
  pose proof (chain_len_nonneg _ _ Hms). intros Hc. change (m_length2 (m :: ms)) with (u32 (m_len m + m_length2 ms)).
  rewrite IH by lia. apply wrap_small. split; lia.
Qed.

(** [m_fixhdr] makes a packet of any chain with a header, and then [m_length] need not
    walk it. *)
Lemma m_fixhdr_packet cl ms :
  Forall (mbuf_ok cl) ms -> header ms <> None -> chain_len ms <= INT_MAX ->
  exists r, m_fixhdr ms = Some (r, chain_len ms) /\ packet r /\ m_length r = Some (chain_len ms).
Proof.
  intros Hms Hh Hc. destruct ms as [|m ms]; [done|]. unfold m_fixhdr. rewrite (m_length2_ok cl) by done.
  pose proof (chain_len_nonneg _ _ Hms). cbn in Hh. destruct (m_pkthdr m) as [p|] eqn:Hp; [|done]. eexists. split; [done|].
  cbn [on_header]. rewrite Hp. split; [by eexists|]. cbn [m_length m_pkthdr set_pkthdr fmap option_fmap option_map put_len pkt_len].
  f_equal. apply wrap_small. split; lia.
Qed.

(** ** Pools of chains *)

Inductive op :=
| Get (hdr : bool) | Adj (len : Z) | Pullup (len : Z) | Copyup (len dstoff : Z) | Split (len : Z)
| Append (cp : list Z) | Prepend (len : Z) | Prepend2 (len : Z) (aligned : bool) | Copym (off len : Z) | Cat | Freem.

Definition live (c : list mbuf) : list (list mbuf) := match c with [] => [] | _ => [c] end.

(** The chains that an operation makes of its arguments; a null pointer is none. *)
Definition run_op (max_protohdr : Z) (a : op) (args : list (list mbuf)) : eff heap (list (list mbuf)) :=
  match a, args with
  | Get hdr, [] => n ← m_get_common hdr; mret (match n with Some n => [[n]] | None => [] end)
  | Adj len, [c] => c ← eff_opt (m_adj c len); mret [c]
  | Pullup len, [c] => c ← m_pullup max_protohdr c len; mret (live c)
  | Copyup len dstoff, [c] => c ← m_copyup max_protohdr c len dstoff; mret (live c)
  | Split len, [c] => '(c, t) ← m_split c len; mret (c :: live t)
  | Append cp, [c] => '(c, _) ← m_append c cp; mret [c]
  | Prepend len, [c] => c ← m_prepend c len; mret (live c)
  | Prepend2 len aligned, [c] => c ← m_prepend_2 c len aligned; mret (live c)
  | Copym off len, [c] => t ← m_copym c off len; mret (c :: live t)
  | Cat, [c; d] => c ← m_cat c d; mret [c]
  | Freem, [c] => _ ← m_freem c; mret []
  | _, _ => eff_opt None
  end.

(** What the callers have to respect: the range of [int], the assertions, for [m_copyup]
    an offset inside the mbuf, and for [m_copym] bytes that are there. *)
Definition legal (a : op) (args : list (list mbuf)) : Prop :=
  match a, args with
  | Get _, [] | Pullup _, [_] | Append _, [_] | Cat, [_; _] | Freem, [_] => True
  | Adj len, [_] => - len <= INT_MAX
  | Copyup len dstoff, [c] => 0 <= len /\ 0 <= dstoff <= MHLEN /\ chain_len c <= INT_MAX
  | Split len, [c] => chain_len c <= INT_MAX /\ - INT_MAX - 1 <= len <= INT_MAX
  | Prepend len, [_] | Prepend2 len _, [_] => 0 <= len <= MLEN
  | Copym off len, [c] =>
      0 <= off < chain_len c /\ 0 <= len /\ (len = M_COPYALL \/ off + len <= chain_len c) /\ chain_len c < M_COPYALL
  | _, _ => False
  end.

(** The same on byte strings. *)
Inductive spec : op -> list (list Z) -> list (list Z) -> Prop :=
| SGet hdr : spec (Get hdr) [] [[]]
| SGetNone hdr : spec (Get hdr) [] []
| SAdj len b : spec (Adj len) [b] [trim len b]
| SPullup len b : spec (Pullup len) [b] [b]
| SPullupNone len b : spec (Pullup len) [b] []
| SCopyup len off b : spec (Copyup len off) [b] [b]
| SCopyupNone len off b : spec (Copyup len off) [b] []
| SSplit len b : 0 <= len <= Z.of_nat (length b) -> spec (Split len) [b] [take (Z.to_nat len) b; drop (Z.to_nat len) b]
| SSplitNone len b : spec (Split len) [b] [b]
| SAppend cp b n : (n <= length cp)%nat -> spec (Append cp) [b] [b ++ take n cp]
| SPrepend len b junk : Z.of_nat (length junk) = len -> spec (Prepend len) [b] [junk ++ b]
| SPrependNone len b : spec (Prepend len) [b] []
| SPrepend2 len al b junk : Z.of_nat (length junk) = len -> spec (Prepend2 len al) [b] [junk ++ b]
| SPrepend2None len al b : spec (Prepend2 len al) [b] []
| SCopym off len b : spec (Copym off len) [b] [b; slice b off (wanted len (Z.of_nat (length b) - off))]
| SCopymNone off len b : spec (Copym off len) [b] [b]
| SCat b d : spec Cat [b; d] [b ++ d]
| SFreem b : spec Freem [b] [].

Definition chains_ok (h : heap) (cs : list (list mbuf)) (o : list mbuf) : Prop :=
  heap_ok h (mjoin cs ++ o) /\ Forall (fun c => c <> []) cs.

Definition executed (h : heap) (o : list mbuf) (a : op) (args res : list (list mbuf)) (h' : heap) : Prop :=
  chains_ok h' res o /\ agree h h' o /\ spec a (bytes h <$> args) (bytes h' <$> res).

Lemma executed_one h o a args c h' :
  post h o c h' -> c <> [] -> spec a (bytes h <$> args) [bytes h' c] -> executed h o a args [c] h'.
Proof. intros [Ho Ha] Hc Hs. split_and!; [split; [by cbn; rewrite app_nil_r|by constructor]|done|done]. Qed.
Lemma executed_none h o a args h' : post h o [] h' -> spec a (bytes h <$> args) [] -> executed h o a args [] h'.
Proof. intros [Ho Ha] Hs. split_and!; [by split|done|done]. Qed.

Lemma executed_live h o a args c h' :
  post h o c h' -> (c = [] -> spec a (bytes h <$> args) []) -> (c <> [] -> spec a (bytes h <$> args) [bytes h' c]) ->
  executed h o a args (live c) h'.
Proof. intros Hp H0 H1. destruct c; [apply executed_none; auto|apply executed_one; auto]. Qed.

Section one_chain.
Context (mp : Z) (h : heap) (o c : list mbuf) (H : heap_ok h (c ++ o)) (Hne : c <> []).

Lemma exec_adj len : - len <= INT_MAX -> wp (run_op mp (Adj len) [c]) h (executed h o (Adj len) [c]).
Proof.
  intros Hl. destruct (m_adj_ok h c len Hne (heap_ok_app _ _ _ H) Hl) as (r & Hr & Hs & Hb & _). cbn [run_op].
  apply wp_bind, (wp_opt _ r); [done|]. apply wp_ret, executed_one.
  - split; [by eapply shrunk_heap|done].
  - intros ->. by inversion Hs; subst.
  - rewrite Hb. constructor.
Qed.

Lemma exec_pullup len : wp (run_op mp (Pullup len) [c]) h (executed h o (Pullup len) [c]).
Proof.
  apply wp_bind. eapply wp_mono; [by apply (wp_pullup mp h c len o)|]. intros r h' [Hp Hr]. apply wp_ret, executed_live.
  - done.
  - intros _. constructor.
  - intros Hr0. destruct r as [|m r]; [done|]. destruct Hr as (-> & _). constructor.
Qed.

Lemma exec_copyup len off :
  0 <= len -> 0 <= off <= MHLEN -> chain_len c <= INT_MAX ->
  wp (run_op mp (Copyup len off) [c]) h (executed h o (Copyup len off) [c]).
Proof.
  intros Hl Ho Hc. apply wp_bind. eapply wp_mono; [by apply (wp_copyup mp h c len off o)|]. intros r h' [Hp Hr].
  apply wp_ret, executed_live.
  - done.
  - intros _. constructor.
  - intros Hr0. destruct r as [|m r]; [done|]. destruct Hr as (-> & _). constructor.
Qed.

Lemma exec_split len :
  Z.of_nat (length (c ++ o)) < 65535 -> chain_len c <= INT_MAX -> - INT_MAX - 1 <= len <= INT_MAX ->
  wp (run_op mp (Split len) [c]) h (executed h o (Split len) [c]).
Proof.
  intros Hlen Hc Hl. apply wp_bind. eapply wp_mono; [by apply (wp_split h c len o)|]. intros [r t] h' Hs. apply wp_ret.
  destruct Hs as [([= -> ->] & Hcl & Ho & _)|(Hr & ([Ho Ha] & Hr0 & Hb & Hd) & _)].
  - apply executed_one; [split; [done|by apply agree_clusters]|done|]. rewrite (bytes_clusters h h') by done. constructor.
  - cbn [fst snd] in *. pose proof (heap_ok_app _ _ _ H) as Hok. pose proof (length_bytes _ _ Hok) as Hlb. 
    destruct t as [|m t].
    + apply executed_one; [split; [by rewrite app_nil_r in Ho|done]|done|]. rewrite Hb.
      assert (length (drop (Z.to_nat len) (bytes h c)) = 0%nat) as Hz by (by rewrite <- Hd). rewrite length_drop in Hz.
      rewrite take_ge by lia. constructor.
    + split_and!; [split; [cbn; rewrite app_nil_r; exact Ho|by repeat constructor]|done|].
      change (bytes h' <$> r :: live (m :: t)) with [bytes h' r; bytes h' (m :: t)]. rewrite Hb, Hd. constructor. lia.
Qed.

Lemma exec_append cp : wp (run_op mp (Append cp) [c]) h (executed h o (Append cp) [c]).
Proof.
  apply wp_bind. eapply wp_mono; [by apply (wp_append h c cp o)|].
  intros [r b] h' (Hp & Hr & n & Hn & Hb & _). apply wp_ret, executed_one; [done|done|]. cbn [fst] in Hb. rewrite Hb. by constructor.
Qed.

Lemma exec_prepend len : 0 <= len <= MLEN -> wp (run_op mp (Prepend len) [c]) h (executed h o (Prepend len) [c]).
Proof.
  intros Hl. apply wp_bind. eapply wp_mono; [by apply (wp_prepend h c len o)|]. intros r h' [Hp Hr]. apply wp_ret, executed_live.
  - done.
  - intros _. constructor.
  - intros Hr0. destruct r as [|m r]; [done|]. destruct Hr as (Hm & -> & _). constructor.
    rewrite length_mdata by (eapply heap_ok_cons; apply Hp). lia.
Qed.

Lemma exec_prepend_2 len al : 0 <= len <= MLEN -> wp (run_op mp (Prepend2 len al) [c]) h (executed h o (Prepend2 len al) [c]).
Proof.
  intros Hl. apply wp_bind. eapply wp_mono; [by apply (wp_prepend_2 h c len al o)|]. intros r h' [Hp Hr]. apply wp_ret, executed_live.
  - done.
  - intros _. constructor.
  - intros Hr0. destruct Hr as [[? _]|(_ & _ & junk & Hj & Hb)]; [done|]. rewrite Hb. by constructor.
Qed.

Lemma exec_copym off len :
  legal (Copym off len) [c] -> Z.of_nat (length c + length (c ++ o)) < 65534 ->
  wp (run_op mp (Copym off len) [c]) h (executed h o (Copym off len) [c]).
Proof.
  intros (Ho & Hl & Hen & Hall) Hlen. apply wp_bind. pose proof (length_bytes _ _ (heap_ok_app _ _ _ H)) as Hlb.
  assert (wp (m_copym c off len) h (copy_of h o c off len)) as Hw by (destruct c; [done|by apply wp_copym]).
  eapply wp_mono; [exact Hw|]. intros r h' (Hok & Ha & Hr). apply wp_ret. apply agree_app in Ha as [Hac Hao].
  pose proof (bytes_agree _ _ _ Hac) as Hbc. destruct r as [|m r].
  - cbn [live]. apply executed_one; [by split|done|]. rewrite Hbc. constructor.
  - destruct Hr as [[? _]|[Hb _]]; [done|]. split_and!; [split|done|].
    + cbn [live mjoin list_join]. rewrite app_nil_r. reorder Hok.
    + by repeat constructor.
    + change (bytes h' <$> c :: live (m :: r)) with [bytes h' c; bytes h' (m :: r)]. rewrite Hb, Hbc, <- Hlb. constructor.
Qed.

Lemma exec_freem : wp (run_op mp Freem [c]) h (executed h o Freem [c]).
Proof.
  apply wp_bind. eapply wp_mono; [by apply (wp_freem h c o)|]. intros _ h' [Ho Ha]. apply wp_ret, executed_none; [done|]. constructor.
Qed.
End one_chain.

Lemma exec_get mp h o hdr : heap_ok h o -> wp (run_op mp (Get hdr) []) h (executed h o (Get hdr) []).
Proof.
  intros H. apply wp_bind. eapply wp_mono; [by apply (wp_new h o)|]. intros [n|] h' (Hc & Ho & Hn); apply wp_ret.
  - destruct Hn as (He & Hd & Hl & Hdl & _). apply executed_one; [|done|].
    + split; [|by apply agree_clusters]. apply heap_ok_new; try done; lia.
    + rewrite bytes_cons, data_empty by done. constructor.
  - apply executed_none; [split; [done|by apply agree_clusters]|]. constructor.
Qed.

Lemma exec_cat mp h o c d :
  heap_ok h (c ++ d ++ o) -> c <> [] -> wp (run_op mp Cat [c; d]) h (executed h o Cat [c; d]).
Proof.
  intros H Hc. apply wp_bind. eapply wp_mono; [by apply (wp_cat h c d o)|]. intros r h' (Hp & Hr & Hb & _).
  apply wp_ret, executed_one; [done|done|]. rewrite Hb. constructor.
Qed.

Lemma wp_exec mp h o a args :
  chains_ok h args o -> legal a args -> Z.of_nat (length (mjoin args) + length (mjoin args ++ o)) < 65534 ->
  wp (run_op mp a args) h (executed h o a args).
Proof.
  intros [H Hne] Hl Hlen. destruct a; destruct args as [|c [|d [|]]]; try done;
    rewrite ?Forall_cons in Hne; cbn [mjoin list_join] in H, Hlen; rewrite ?app_nil_r in H, Hlen; try destruct Hne as [Hne _].
  - by apply exec_get.
  - by apply exec_adj.
  - by apply exec_pullup.
  - by apply exec_copyup; try apply Hl.
  - destruct Hl. apply exec_split; (done || lia).
  - by apply exec_append.
  - by apply exec_prepend.
  - by apply exec_prepend_2.
  - by apply exec_copym.
  - rewrite <- app_assoc in H. by apply exec_cat.
  - by apply exec_freem.
Qed.

(** Operations on a pool of chains, each on any of them. *)
Inductive steps (mp : Z) : list op -> heap -> list (list mbuf) -> heap -> list (list mbuf) -> Prop :=
| StepsNil h cs : steps mp [] h cs h cs
| StepsCons a ops h cs args rest res h1 h2 cs2 :
    cs ≡ₚ args ++ rest -> legal a args -> Z.of_nat (length (mjoin args) + length (mjoin cs)) < 65534 ->
    run_op mp a args h = Some (res, h1) -> steps mp ops h1 (res ++ rest) h2 cs2 -> steps mp (a :: ops) h cs h2 cs2.

Inductive spec_steps : list op -> list (list Z) -> list (list Z) -> Prop :=
| SpecNil bs : spec_steps [] bs bs
| SpecCons a ops bs args rest res bs2 :
    bs ≡ₚ args ++ rest -> spec a args res -> spec_steps ops (res ++ rest) bs2 -> spec_steps (a :: ops) bs bs2.

Lemma chains_ok_split h cs args rest :
  chains_ok h cs [] -> cs ≡ₚ args ++ rest -> chains_ok h args (mjoin rest) /\ Forall (fun c => c <> []) rest /\
  mjoin cs ≡ₚ mjoin args ++ mjoin rest.
Proof.
  intros [H Hne] Hp. rewrite app_nil_r in H. assert (mjoin cs ≡ₚ mjoin args ++ mjoin rest) as Hj by (by rewrite Hp, join_app).
  rewrite Hp in Hne. apply Forall_app in Hne as [Ha Hr]. split_and!; [|done|done]. split; [by rewrite <- Hj|done].
Qed.

Lemma chains_ok_join h res rest :
  chains_ok h res (mjoin rest) -> Forall (fun c => c <> []) rest -> chains_ok h (res ++ rest) [].
Proof. intros [H Hr] Hn. split; [by rewrite app_nil_r, join_app|by apply Forall_app]. Qed.

Lemma exec_pool mp h cs a args rest :
  chains_ok h cs [] -> cs ≡ₚ args ++ rest -> legal a args -> Z.of_nat (length (mjoin args) + length (mjoin cs)) < 65534 ->
  exists res h', run_op mp a args h = Some (res, h') /\ chains_ok h' (res ++ rest) [] /\
    spec a (bytes h <$> args) (bytes h' <$> res) /\ bytes h' <$> rest = bytes h <$> rest.
Proof.
  intros H Hp Hl Hlen. destruct (chains_ok_split _ _ _ _ H Hp) as (Ha & Hr & Hj). rewrite Hj in Hlen.
  destruct (wp_exec mp h (mjoin rest) a args Ha Hl Hlen) as (res & h' & Hx & Hok & Hag & Hs).
  exists res, h'. split_and!; [done|by apply chains_ok_join|done|]. apply list_fmap_ext. intros i c Hc. apply bytes_agree.
  intros m Hm. apply Hag. apply list_elem_of_join. exists c. split; [done|]. by eapply list_elem_of_lookup_2.
Qed.

(** No chain is left, no cluster is. *)
Lemma no_clusters h : chains_ok h [] [] -> clusters h = ∅.
Proof.
  intros [H _]. apply map_eq. intros k. rewrite lookup_empty. destruct (clusters h !! k) as [c|] eqn:Hk; [|done].
  destruct (h_refs _ _ H _ _ Hk) as (Hr & Hpos & _). cbn in Hr. lia.
Qed.

(** C11. Every operation that is called within its preconditions ([legal]) on well formed
    chains runs to its end: no assertion fails, no copy leaves the area of an mbuf or of a
    cluster, no loop stays without progress, no reference count is wrong, whatever the
    allocator answers; and the chains that it leaves are well formed again, with those
    that it did not get as they were.  The preconditions: [m_adj] is not given the least
    [int]; [m_copyup] gets a length that is not negative, an offset from 0 to MHLEN and a
    chain of at most INT_MAX bytes; [m_split] gets such a chain and an [int];
    [m_prepend] and [m_prepend_2] get a length from 0 to MLEN; [m_copym] gets an offset
    inside the chain and a length that is M_COPYALL or ends in the chain, which has fewer
    than M_COPYALL bytes; the chains are not empty; and there are fewer than 65534 mbufs,
    those of the arguments counted twice. *)
Theorem mbuf_no_fault mp h cs a args rest :
  chains_ok h cs [] -> cs ≡ₚ args ++ rest -> legal a args -> Z.of_nat (length (mjoin args) + length (mjoin cs)) < 65534 ->
  exists res h', run_op mp a args h = Some (res, h') /\ chains_ok h' (res ++ rest) [] /\
    bytes h' <$> rest = bytes h <$> rest.
Proof.
  intros H Hp Hl Hlen. destruct (exec_pool mp h cs a args rest H Hp Hl Hlen) as (res & h' & ? & ? & _ & ?). by exists res, h'.
Qed.

(** C9. Seen from outside chains are byte strings: any sequence of operations on a pool of
    chains, each called within the preconditions [legal] and with fewer than 65534 mbufs in
    use, is a sequence of the string operations they stand for, each chain for itself
    although their clusters are shared, and when all chains are gone so is every
    cluster.  The preconditions: [m_adj] is not given the least [int]; [m_copyup] gets a
    length that is not negative, an offset from 0 to MHLEN and a chain of at most INT_MAX
    bytes; [m_split] gets such a chain; [m_prepend] and [m_prepend_2] get a length
    from 0 to MLEN; [m_copym] gets an offset inside the chain and a length that is M_COPYALL
    or ends in the chain, which has fewer than M_COPYALL bytes.  Where an operation may fail, as for want of memory, the string
    operation has both outcomes. *)
Theorem mbufs_refine_strings mp ops h cs h' cs' :
  chains_ok h cs [] -> steps mp ops h cs h' cs' ->
  spec_steps ops (bytes h <$> cs) (bytes h' <$> cs') /\ chains_ok h' cs' [] /\ (cs' = [] -> clusters h' = ∅).
Proof.
  intros H Hs. induction Hs as [h cs|a ops h cs args rest res h1 h2 cs2 Hp Hl Hlen Hx Hs IH].
  { split_and!; [constructor|done|]. intros ->. by apply no_clusters. }
  destruct (exec_pool mp h cs a args rest H Hp Hl Hlen) as (res' & h1' & Hx' & Hok & Hsp & Hrest).
  rewrite Hx in Hx'. injection Hx' as <- <-. destruct (IH Hok) as (Hsp' & Hok' & Hc). split_and!; [|done|done].
  eapply (SpecCons a ops _ (bytes h <$> args) (bytes h <$> rest)); [by rewrite Hp, fmap_app|exact Hsp|].
  by rewrite <- Hrest, <- fmap_app.
Qed.

(** C17. [m_pullup] gives back the chain with the same bytes and header and with the first
    [len] of them in one mbuf; otherwise it has freed the chain, and then [len] is
    negative or more than an mbuf holds, the chain is shorter, the memory is short or the
    first mbuf points out of itself.  The mbufs of other chains keep their bytes. *)
Theorem m_pullup_correct mp h ms len o :
  ms <> [] -> heap_ok h (ms ++ o) ->
  exists r h', m_pullup mp ms len h = Some (r, h') /\ heap_ok h' (r ++ o) /\ agree h h' o /\
    match r with
    | [] => pullup_fails h ms len
    | m :: _ => bytes h' r = bytes h ms /\ header r = header ms /\ len <= m_len m
    end.
Proof.
  intros Hne H. destruct (wp_pullup mp h ms len o Hne H) as (r & h' & ? & [? ?] & ?). by exists r, h'.
Qed.

(** ** Packets *)

Lemma wp_run {A} (c : eff heap A) h Q x h' : wp c h Q -> c h = Some (x, h') -> Q x h'.
Proof. intros (y & h2 & Hc & HQ) Hx. rewrite Hx in Hc. by injection Hc as <- <-. Qed.

Definition packet_op (a : op) : bool :=
  match a with
  | Adj _ | Pullup _ | Copyup _ _ | Split _ | Append _ | Prepend2 _ _ => true
  | Copym off _ => bool_decide (off = 0)
  | _ => false
  end.

Lemma packet_moved h h' ms r f :
  Forall (mbuf_ok (clusters h)) ms -> Forall (mbuf_ok (clusters h')) r -> header r = f <$> header ms ->
  (forall p, pkt_len p = Z.of_nat (length (bytes h ms)) -> pkt_len (f p) = Z.of_nat (length (bytes h' r))) ->
  packet ms -> packet r.
Proof.
  intros Hms Hr Hh Hf Hp. apply (header_moved h' ms r f); [done|done| |done]. intros p _ Hl. apply Hf. by rewrite (length_bytes _ _ Hms).
Qed.

Lemma packet_same h h' ms r :
  Forall (mbuf_ok (clusters h)) ms -> Forall (mbuf_ok (clusters h')) r -> header r = header ms ->
  bytes h' r = bytes h ms -> packet ms -> packet r.
Proof.
  intros Hms Hr Hh Hb. apply (packet_moved h h' ms r id); [done|done| |by rewrite Hb]. rewrite Hh. by destruct (header ms).
Qed.

Lemma packet_split h o ms len r t h' :
  heap_ok h (ms ++ o) -> splitted h o ms len (r, t) h' -> packet ms -> packet r /\ (t <> [] -> packet t).
Proof.
  intros H [([= -> ->] & _)|(Hl & ([Ho _] & _ & Hb & Hd) & Hh & Ht)] Hp; [done|]. cbn [fst snd] in *.
  pose proof (heap_ok_app _ _ _ H) as Hms. rewrite <- app_assoc in Ho. pose proof (heap_ok_app _ _ _ Ho) as Hr.
  assert (heap_ok h' (t ++ r ++ o)) as Ho' by reorder Ho. pose proof (heap_ok_app _ _ _ Ho') as Ht'.
  pose proof (length_bytes _ _ Hms). split.
  - apply (packet_moved h h' ms r (put_len len)); try done. intros p _. cbn. rewrite Hb, length_take. lia.
  - intros _. destruct (Hp) as (p & Hp1 & Hp2). apply (packet_moved h h' ms t (fun p => Pkthdr (rcvif p) (pkt_len p - len))); try done.
    + rewrite (Ht p Hp1), Hp1. done.
    + intros q Hq. cbn. rewrite Hq, Hd, length_drop. lia.
Qed.

Lemma packet_append h o ms cp r b h' :
  heap_ok h (ms ++ o) -> appended h o ms cp (r, b) h' -> packet ms -> packet r.
Proof.
  intros H ([Ho _] & _ & n & Hn & Hb & Hh & _). cbn [fst] in *.
  apply (packet_moved h h' ms r (add_len (Z.of_nat n))); [by eapply heap_ok_app|by eapply heap_ok_app|done|].
  intros p Hp. cbn. rewrite Hb, Hp, length_app, length_take. lia.
Qed.

Lemma packet_prepend h o ms len r h' :
  heap_ok h (ms ++ o) -> prepended_2 h o ms len r h' -> r <> [] -> packet ms -> packet r.
Proof.
  intros H ([Ho _] & [[-> _]|(_ & Hh & junk & Hj & Hb)]) Hr; [done|].
  apply (packet_moved h h' ms r (add_len len)); [by eapply heap_ok_app|by eapply heap_ok_app|done|].
  intros p Hp. cbn. rewrite Hb, Hp, length_app. lia.
Qed.

Lemma packet_copy h o ms len r h' :
  heap_ok h (ms ++ o) -> copy_of h o ms 0 len r h' -> 0 <= len -> (len = M_COPYALL \/ len <= chain_len ms) -> r <> [] ->
  packet ms -> packet r.
Proof.
  intros H (Ho & _ & [[-> _]|[Hb Hh]]) Hl Hen Hr Hp; [done|]. pose proof (heap_ok_app _ _ _ H) as Hok.
  pose proof (length_bytes _ _ Hok) as Hlb. pose proof (chain_len_nonneg _ _ Hok). destruct (Hp) as (p & Hp1 & _).
  apply (packet_moved h h' ms r (copy_header 0 len)); [done|by eapply heap_ok_app|apply Hh; (done || by rewrite Hp1)| |done].
  intros q Hq. unfold copy_header. cbn. rewrite Hb, Hq. unfold wanted. destruct (decide (len = M_COPYALL)); rewrite length_slice; lia.
Qed.

Lemma packet_live r : (r <> [] -> packet r) -> Forall packet (live r).
Proof. intros H. destruct r; [constructor|]. constructor; [by apply H|constructor]. Qed.

Lemma packet_exec mp h o a c :
  heap_ok h (c ++ o) -> c <> [] -> packet c -> packet_op a = true -> legal a [c] -> Z.of_nat (length c + length (c ++ o)) < 65534 ->
  wp (run_op mp a [c]) h (fun res _ => Forall packet res).
Proof.
  intros H Hne Hp Ha Hl Hlen. pose proof (heap_ok_app _ _ _ H) as Hok. destruct a; try done; cbn [run_op] in *; apply wp_bind.
  - destruct (m_adj_ok h c len Hne Hok Hl) as (r & Hr & _ & _ & _ & Hpk). apply (wp_opt _ r); [done|]. apply wp_ret. auto.
  - eapply wp_mono; [by apply (wp_pullup mp h c len o)|]. intros r h' [[Ho _] Hr]. apply wp_ret, packet_live. intros Hr0.
    destruct r as [|m r]; [done|]. destruct Hr as (? & ? & _). by apply (packet_same h h' c); [|eapply heap_ok_app|..].
  - destruct Hl as (? & ? & ?). eapply wp_mono; [by apply (wp_copyup mp h c len dstoff o)|]. intros r h' [[Ho _] Hr].
    apply wp_ret, packet_live. intros Hr0.
    destruct r as [|m r]; [done|]. destruct Hr as (? & ? & _). by apply (packet_same h h' c); [|eapply heap_ok_app|..].
  - destruct Hl as [? ?]. eapply wp_mono; [apply (wp_split h c len o); (done || lia)|]. intros [r t] h' Hs. apply wp_ret.
    destruct (packet_split _ _ _ _ _ _ _ H Hs Hp). constructor; [done|]. by apply packet_live.
  - eapply wp_mono; [by apply (wp_append h c cp o)|]. intros [r b] h' Hs. apply wp_ret.
    constructor; [by eapply packet_append|constructor].
  - eapply wp_mono; [by apply (wp_prepend_2 h c len aligned o)|]. intros r h' Hs. apply wp_ret, packet_live.
    intros. by eapply packet_prepend.
  - apply bool_decide_eq_true in Ha as ->. destruct Hl as (Ho & Hl & Hen & Hall).
    assert (wp (m_copym c 0 len) h (copy_of h o c 0 len)) as Hw by (destruct c; [done|by apply wp_copym]).
    eapply wp_mono; [exact Hw|]. intros r h' Hs. apply wp_ret. constructor; [done|]. apply packet_live.
    intros. by eapply packet_copy.
Qed.

(** C18. The length in the packet header stays right: when [m_adj], [m_pullup], [m_copyup],
    [m_split], [m_append], [m_prepend_2] or [m_copym] from the beginning is given a chain
    whose header says how many bytes it has, so does the header of every chain that it
    leaves, also when a split or an append could not be done, or only in part.  The calls
    are within the preconditions [legal]: in particular [m_adj] is not given the least
    [int], [m_copyup] gets a length that is not negative and an offset from 0 to MHLEN,
    [m_prepend_2] a length from 0 to MLEN, [m_copym] bytes that are in the chain; a chain
    has at most INT_MAX bytes where it is split, and there are fewer than 65534 mbufs. *)
Theorem packet_lengths mp h o a c res h' :
  chains_ok h [c] o -> packet c -> packet_op a = true -> legal a [c] -> Z.of_nat (length c + length (c ++ o)) < 65534 ->
  run_op mp a [c] h = Some (res, h') -> Forall packet res.
Proof.
  intros [H Hne] Hp Ha Hl Hlen Hx. cbn in H. rewrite app_nil_r in H. apply Forall_cons in Hne as [Hne _].
  exact (wp_run _ _ _ _ _ (packet_exec mp h o a c H Hne Hp Ha Hl Hlen) Hx).
Qed.

(** ** Examples *)

Definition example_area : list Z := replicate 288 0.

(** A packet of six bytes in a cluster, and the allocator has three mbufs. *)
Definition example_heap : heap :=
  Heap {[0%nat := Cluster [0; 1; 2; 3; 4; 5; 6; 7] 1 false]} [Some example_area; Some example_area; Some example_area].
Definition example_packet : mbuf := MkMbuf (Some (Pkthdr 7 6)) (Some 0%nat) example_area 1 6.

Lemma example_ok : chains_ok example_heap [[example_packet]] [].
Proof.
  split; [|by repeat constructor]. constructor.
  - constructor; [|constructor]. split_and!; [done|cbn; lia|cbn; lia|]. eexists. split; [reflexivity|]. cbn. lia.
  - repeat constructor; by intros d [= <-].
  - intros k c Hk. unfold example_heap in Hk. cbn [clusters] in Hk. apply lookup_singleton_Some in Hk as [<- <-]. cbn [refcnt readonly]. split_and!; [done|lia|done].
Qed.

(** An offset beyond the mbuf passes the check of [m_copyup], whose difference has wrapped
    around, and the bytes are copied behind the mbuf. *)
Lemma m_copyup_leaves_mbuf : m_copyup 60 [example_packet] 4 300 example_heap = None.
Proof. vm_compute. reflexivity. Qed.

(** With the offset 288 of the end of the mbuf the chain is given up. *)
Lemma m_copyup_at_end : fst <$> m_copyup 60 [example_packet] 4 288 example_heap = Some [].
Proof. vm_compute. reflexivity. Qed.

Lemma m_copydata_exact_witness : m_copydata (clusters example_heap) [example_packet] 2 3 = Some [3; 4; 5].
Proof.
  rewrite (m_copydata_exact example_heap [example_packet] [] 2 3); [reflexivity|]. apply example_ok.
Defined.

Definition example_other : mbuf := MkMbuf None None example_area 4 2.

Lemma example_two_ok : chains_ok example_heap [[example_packet]; [example_other]] [].
Proof.
  destruct example_ok as [H _]. split; [|by repeat constructor].
  assert (heap_ok example_heap (example_other :: [example_packet])) as Hx by (apply heap_ok_new; [exact H|done|done|cbn; lia..]).
  reorder Hx.
Qed.

Lemma mbuf_no_fault_witness :
  exists res h', run_op 60 (Split 2) [[example_packet]] example_heap = Some (res, h') /\
    chains_ok h' (res ++ [[example_other]]) [] /\ bytes h' <$> [[example_other]] = bytes example_heap <$> [[example_other]].
Proof.
  apply (mbuf_no_fault 60 example_heap [[example_packet]; [example_other]] (Split 2) [[example_packet]] [[example_other]]);
    [apply example_two_ok|done|cbn; lia|cbn; lia].
Defined.

(** A part is copied and the packet split, so that the cluster is shared by three; a byte is
    appended to the head, in a new mbuf, and all are freed. *)
Lemma mbufs_refine_strings_witness :
  exists h' cs', steps 60 [Copym 2 3; Split 2; Append [9]; Freem; Freem; Freem] example_heap [[example_packet]] h' cs' /\
    spec_steps [Copym 2 3; Split 2; Append [9]; Freem; Freem; Freem] [[1; 2; 3; 4; 5; 6]] (bytes h' <$> cs') /\ (cs' = [] -> clusters h' = ∅).
Proof.
  assert (exists h' cs', steps 60 [Copym 2 3; Split 2; Append [9]; Freem; Freem; Freem] example_heap [[example_packet]] h' cs') as (h' & cs' & Hs).
  { eexists _, _.
    eapply (StepsCons 60 _ _ _ _ [[example_packet]] []); [done|cbn; lia|cbn; lia|vm_compute; reflexivity|].
    cbn [app]. eapply (StepsCons 60 _ _ _ _ [_] [_]); [apply Permutation_refl|cbn; lia|cbn; lia|vm_compute; reflexivity|].
    cbn [app]. eapply (StepsCons 60 _ _ _ _ [_] [_; _]); [apply Permutation_refl|done|cbn; lia|vm_compute; reflexivity|].
    cbn [app]. eapply (StepsCons 60 _ _ _ _ [_] [_; _]); [apply Permutation_refl|done|cbn; lia|vm_compute; reflexivity|].
    cbn [app]. eapply (StepsCons 60 _ _ _ _ [_] [_]); [apply Permutation_refl|done|cbn; lia|vm_compute; reflexivity|].
    cbn [app]. eapply (StepsCons 60 _ _ _ _ [_] []); [apply Permutation_refl|done|cbn; lia|vm_compute; reflexivity|]. apply StepsNil. }
  destruct (mbufs_refine_strings 60 _ example_heap [[example_packet]] h' cs' example_ok Hs) as (Hsp & _ & Hc).
  exists h', cs'. split; [exact Hs|]. split; [exact Hsp|exact Hc].
Defined.

Lemma m_pullup_correct_witness :
  exists r h', m_pullup 60 [example_packet] 4 example_heap = Some (r, h') /\ heap_ok h' (r ++ []) /\ agree example_heap h' [] /\
    match r with
    | [] => pullup_fails example_heap [example_packet] 4
    | m :: _ => bytes h' r = bytes example_heap [example_packet] /\ header r = header [example_packet] /\ 4 <= m_len m
    end.
Proof. apply (m_pullup_correct 60 example_heap [example_packet] 4 []); [done|apply example_ok]. Defined.

Lemma packet_lengths_witness :
  exists res h', run_op 60 (Split 2) [[example_packet]] example_heap = Some (res, h') /\ length res = 2%nat /\ Forall packet res.
Proof.
  eexists _, _. split; [vm_compute; reflexivity|]. split; [reflexivity|].
  eapply (packet_lengths 60 example_heap [] (Split 2) [example_packet]).
  - apply example_ok.
  - eexists. split; reflexivity.
  - reflexivity.
  - cbn. lia.
  - cbn. lia.
  - vm_compute. reflexivity.
Defined.
